(* ===== verification/_CoqProject ===== *)
-Q . S2P
Prelude.v
Types.v
Settings.v
SettingsOk.v
MyMath.v
Tuple.v
Coder.v
Keys.v
HashTable.v
GStore.v
Runs.v
Index.v
IndexInsert.v
Remote.v
Attr.v
Query.v
Rows.v
Serial.v
Tcp.v
Broadcast.v
Engine.v
EngineSteps.v
Exec.v
Regex.v
StringServer.v
Datagen.v
Filter.v
Final.v
Server.v
ForkJoin.v
Frame.v
Bgp.v
EndToEnd.v
Replies.v
Answer.v
Lexer.v
Parser.v
ParserTotal.v
Transfer.v
ParseText.v
Proxy.v
TextAnswer.v
Mem.v
Ring.v
RingFifo.v
Loader.v
Exchange.v
Pipeline.v
LoadGraph.v
LoadGraphOk.v
RawAnswer.v
Buddy.v
BuddyHeap.v
BuddyAlloc.v
BuddySafe.v
Region.v
Dynamic.v
DynamicOk.v
DynTriples.v
DynLoad.v
DynQuery.v
DynRemote.v
DynRemoteOk.v
DynCoherent.v
Planner.v
PlannerOk.v
PlanEmpty.v
PlanSound.v
Monitor.v
Emulator.v
EmulatorOk.v
Console.v
Stat.v
StatOk.v
StatFile.v
StoreCheck.v
StoreCheckOk.v
PlanAnswer.v
PlanErrors.v
