(* ===== verification/Prelude.v ===== *)
(** * Wukong: a verification of the distributed RDF store

    Wukong stores RDF triples in a partitioned key/value store, answers SPARQL queries
    by graph exploration over it, and moves queries and data between servers with RDMA
    or sockets. This library models the program under [src/core], [src/utils] and
    [src/datagen] as Rocq functions, translated function by function, and proves what its parts promise
    to one another.

    ** The program and its parts

    The data generator ([datagen/generate_data.cpp]) turns RDF into files of ids.
    Data files are read by the loader ([core/dgraph.hpp]), exchanged between the
    servers, sorted and inserted into the store of each server ([core/gstore.hpp]): a
    hash table of keys (vertex, predicate, direction) whose pointers lead into an array
    of edges. The console ([core/console.hpp]) of every proxy ([core/proxy.hpp]) runs the
    commands of the user: it hands the text of a query to its proxy, which
    parses it ([core/SPARQLLexer.hpp], [core/SPARQLParser.hpp], [core/parser.hpp]) with
    the ids of the string server ([core/string_server.hpp]), and sends it to an engine
    ([core/engine.hpp]). Engines explore the graph pattern by pattern, fork
    sub-queries to other servers, join their replies, filter, sort and project
    ([core/query.hpp] holds the state of a query), and reply. Messages travel as bundles
    ([core/adaptor.hpp]) over sockets ([core/tcp_adaptor.hpp]) or through ring buffers
    ([core/rdma_adaptor.hpp]) in the registered memory ([core/mem.hpp]). A query emulator
    keeps a mix of queries in flight, and a monitor ([core/monitor.hpp]) measures them.
    When it is enabled, a planner ([core/planner.hpp]) orders the patterns of a query by
    statistics that are counted after loading ([core/data_statistic.hpp]). The dynamic
    build ([DYNAMIC_GSTORE]) takes the edges of the store from a buddy allocator
    ([core/buddy_malloc.hpp]) and inserts triples one by one into a running store, while
    other servers read it with pointers that they cache for the length of a lease.

    ** Files

    - [Prelude]: outcomes, machine integers, arrays with their bounds, shared lemmas,
      tactics and the hint databases; [Types]: [core/type.hpp], [utils/variant.hpp] and
      the settings that other components read as the class [Config]; [Settings],
      [SettingsOk]: [core/config.hpp].
    - [MyMath], [Tuple]: [utils/mymath.hpp]; [Coder]: [core/coder.hpp];
      [Mem]: [core/mem.hpp], [utils/unit.hpp].
    - [Keys], [HashTable], [GStore], [Runs], [Index], [IndexInsert], [Attr], [Remote]:
      [core/gstore.hpp], from the bit fields of a key to the bulk insertion, the
      indexes, the attributes and the remote reads with their location cache.
    - [StoreCheck], [StoreCheckOk]: the integrity check of [core/gstore.hpp].
    - [Region]: the interface between the store and its allocator, and the buddy
      allocator as an instance; [Dynamic], [DynamicOk], [DynTriples]: insertion into the
      dynamic store of [core/gstore.hpp]; [DynRemote], [DynRemoteOk], [DynCoherent]: its
      remote reads with leases; [DynLoad], [DynQuery]: the dynamic load of
      [core/dgraph.hpp] and queries after it.
    - [Loader], [Exchange]: [core/dgraph.hpp]; [LoadGraph], [LoadGraphOk]: its attribute
      files and its constructor; [Datagen]: [datagen/generate_data.cpp].
    - [Query], [Rows], [Serial]: [core/query.hpp], its relational view and its wire
      format.
    - [Engine], [EngineSteps], [Exec], [Regex], [Filter], [Final], [Server],
      [ForkJoin], [Frame], [Bgp], [Replies], [Answer]: [core/engine.hpp].
    - [StringServer]: [core/string_server.hpp]; [Lexer], [Parser], [ParserTotal]:
      [core/SPARQLLexer.hpp] and [core/SPARQLParser.hpp]; [Transfer], [ParseText]:
      [core/parser.hpp]; [Proxy]: [core/proxy.hpp], with its query emulator in [Emulator]
      and [EmulatorOk], and the commands to all servers, with the engines that serve them,
      in [Broadcast]; [Monitor]: [core/monitor.hpp]; [Console]: [core/console.hpp].
    - [Ring], [RingFifo]: [core/rdma_adaptor.hpp]; [Tcp]: [core/tcp_adaptor.hpp] and
      [core/adaptor.hpp].
    - [Buddy] (definitions), [BuddyHeap] (tilings of the heap and linked lists in it),
      [BuddyAlloc] (the operations) and [BuddySafe] (the contract):
      [core/buddy_malloc.hpp].
    - [Planner], [PlannerOk] (the search), [PlanEmpty] (empty queries), [PlanSound]
      (orders as plans): [core/planner.hpp]; [Stat], [StatOk]: the statistics of
      [core/gstore.hpp] and [core/data_statistic.hpp], [StatFile]: their messages and files; [PlanAnswer], [PlanErrors]: planned
      queries, and those that are not handled.
    - [EndToEnd], [TextAnswer], [Pipeline], [RawAnswer]: the composition of the components.

    ** How code becomes definitions

    A C++ function is a function of the same name. A mutable object is a record that is
    passed and returned. Code that may abort returns an [outcome]: [ASSERT] that fails,
    an access outside of a vector, undefined behaviour, an exception that nobody
    catches, [exit], or a loop that runs out of its bound; a thread that would wait for a
    message ends like the latter ([OutOfFuel]). Machine integers are [Z] with their
    wrap-around written out ([u32], [i32], [u64]), or [nat] for sizes of containers. A
    loop is a fold over its range, structural recursion, or recursion with fuel:
    - the chain of buckets of the hash table ([HashTable]) has one bucket more than
      indirect buckets exist, since no bucket occurs twice in a chain;
    - the parser's fuel is [3 * length input + 2] ([ParserTotal.parse_total] proves that
      it is never used up), quicksort's and the binary search's is the number of rows
      ([Tuple]), the readers of the wire format take the nesting depth of the query
      ([Serial]);
    - the loops of the buddy allocator over levels have one step per bit of a size, 64;
      the search of the planner goes two steps deeper than there are patterns, one for
      an index at the start and one for the end;
    - a remote read of the dynamic store is tried twice ([DynRemote.retry_fuel]): with no
      insertion in between, the second try has the current pointer
      ([DynCoherent.remote_reads_coherent]);
    - the loops of the emulator have bounds for the rounds, for the replies at hand (one
      more than there may be requests in flight) and for the rounds that wait for the last
      replies; [EmulatorOk.emulator_returns] proves that bounds exist under which it
      returns; a file of attributes is read with one step more than it has words; a batch
      of the console runs commands that are no batch themselves.
    What the program takes from elsewhere is an interface: a class or an argument with
    its documented behaviour, [StdSort] (std::sort), [TbbOrder] (the iteration order of
    TBB containers), [Archive] (boost serialisation), [Adaptor] (a network that accepts
    or refuses a message), [Answering] (servers that answer every request in the end),
    ZeroMQ (pipes between sockets, in [Tcp]), [Double] (floating-point numbers), the
    parser of command-line options, the compilation of user regular expressions, [rand_r]. Every
    theorem over an interface has a witness with a concrete instance.
    Between components stand classes with their laws: [Graph] with [GraphOk], against
    which the engine is proved, and which the store of a cluster and the dynamic store
    discharge ([Remote], [EndToEnd], [DynQuery]); [Malloc_Interface] with [MallocOk],
    against which the dynamic store is proved, and which the buddy allocator discharges
    ([Region]). The clock of the dynamic store is the class [Clock] of its successive
    readings, which do not go back ([clock_ok]); the servers are taken to have one clock.

    Threads: a handler or an operation under a lock is one step. Where threads really
    interleave (the writers and the reader of a ring, the threads that send and receive
    over TCP, the proxy and the engines of a command to all servers, the loaders of files,
    the messages of engines) theorems quantify over the interleaving or the order.

    ** What the theorems show

    - From files and text to the answer ([RawAnswer], [Pipeline], [TextAnswer],
      [EndToEnd], [Answer]): lines of RDF pass through the data generator and the loader,
      loading a data set and running the text of a query succeed, and the
      answer is exactly the projection of the bindings under which all triple patterns
      are triples of the files, in strings: are lines of the input.
    - Storage: the hash table is a finite map; what is loaded is read back, under vertex
      keys, index keys and attributes, locally or remotely, cached or not; the regions
      of the memory are disjoint; both ways of loading files give the same data; hash
      and prime functions.
    - Execution: the patterns of a plan compute the solutions of the basic graph
      pattern; the filters that the engine evaluates, DISTINCT, OFFSET, LIMIT and projection; forks partition the work
      and their replies join; messages are neither lost nor duplicated.
    - Communication: requests survive the wire format; the ring buffer is a queue
      under every interleaving; over TCP every thread has a mailbox for every server, as
      long as a server has at most 200 threads; a command to all servers is done once by
      each and returns unless a request was refused; statistics and the items set at the
      console reach every server whose messages are not refused, and the others wait; query
      ids lead back to their issuer.
    - Front end: the parser terminates on every input, and reads back the text of a
      query.
    - Planning, for triple patterns with constant predicates and types and without a
      repeated variable: whatever the statistics and costs are, the planner ends without an
      error and its order has the answers of the query; it finds one for a connected query
      if the costs are finite; a query that it calls empty has no answers, since the
      statistics count all pairs of edges of the loaded triples.
    - Dynamic data: the store stays a finite map of edge lists under insertions, whatever
      blocks are moved and freed; queries see the triples old and new; remote reads with
      cached pointers return what the owner has, also when insertions interrupt them
      before the lease ends. The integrity check accepts what was loaded and every
      consistent store, and what it accepts is consistent up to entries of vertices without
      types.
    - Memory: the blocks of the buddy allocator are disjoint, aligned and can be freed,
      under every sequence of requests and of writes by their owners.
    - Operation: settings are valid after loading and after every change, and each has the
      value of its own item; the emulator keeps its window of requests and returns, with the
      planner on for queries for which it finds an order; the table of the monitor is in order; the data
      generator loses nothing.
    - Errors: theorems of kind error exhibit inputs on which the code misbehaves.

    ** Not modelled

    The proxy takes the planner as an argument, which the console and the emulator fill in
    with that of [Planner], and the console takes loading, checking and
    the files of statistics as arguments, whose definitions are in other files. RDMA devices
    ([src/rdma_lib]), HDFS, MPI and its barriers, the listing of directories, core binding,
    the start of threads, snoozing, logging and the text of what is printed are I/O, the
    platform or third-party code; [core/wukong.cpp] only creates the objects and starts
    the threads. The locks around a modelled step are not modelled themselves. The dynamic
    build ([DYNAMIC_GSTORE]) is modelled from an empty store on, with the allocator as one
    thread at a time uses it; its bulk loading is that of the static build up to the
    allocation, and merging the lists of the loading threads is a definition without a
    theorem. *)

From stdpp Require Export base tactics list numbers option gmap.
From Stdlib Require Export ZArith Lia Zdiv.

Declare Scope wk_scope.
Delimit Scope wk_scope with wk.
Open Scope wk_scope.
Open Scope Z_scope.

(** * Outcomes: the values of code that may abort

    [ASSERT]/[assert] abort the process; an out-of-range [vector] access and
    flowing off the end of a function that returns a value are undefined
    behaviour; an exception nobody catches ends the process, and so does [exit]; a
    loop is run with an explicit bound on its number of iterations. *)

Inductive error :=
| AssertFail
| OutOfBounds
| Undefined
| Uncaught
| Exited
| OutOfFuel.

#[export] Instance error_eq_dec : EqDecision error.
Proof. solve_decision. Defined.

Inductive outcome (A : Type) :=
| Ok (a : A)
| Err (e : error).
Arguments Ok {A} a.
Arguments Err {A} e.

#[export] Instance outcome_ret : MRet outcome := @Ok.
#[export] Instance outcome_bind : MBind outcome := λ A B f m,
  match m with Ok a => f a | Err e => Err e end.
#[export] Instance outcome_fmap : FMap outcome := λ A B f m,
  match m with Ok a => Ok (f a) | Err e => Err e end.

#[export] Instance Ok_inj A : Inj (=) (=) (@Ok A).
Proof. by intros x y [= ->]. Qed.

(** [ASSERT(b)]. *)
Definition assert_that (b : bool) : outcome unit :=
  if b then Ok tt else Err AssertFail.

(** A read [v[i]] of a [vector] or an array. *)
Definition read {A} (l : list A) (i : nat) : outcome A :=
  match l !! i with Some x => Ok x | None => Err OutOfBounds end.

(** A write [v[i] = x]. *)
Definition write {A} (l : list A) (i : nat) (x : A) : outcome (list A) :=
  if bool_decide (i < length l)%nat then Ok (<[i := x]> l) else Err OutOfBounds.

Notation "'ASSERT' b ; k" := (assert_that b ≫= λ _ : unit, k)
  (at level 100, b at next level, k at level 200, right associativity) : wk_scope.

Lemma bind_Ok {A B} (m : outcome A) (f : A → outcome B) b :
  m ≫= f = Ok b ↔ ∃ a, m = Ok a ∧ f a = Ok b.
Proof.
  destruct m; simpl; split.
  - eauto.
  - by intros (? & [= ->] & ?).
  - done.
  - by intros (? & ? & ?).
Qed.

Lemma assert_that_Ok b u : assert_that b = Ok u ↔ b = true.
Proof. destruct b, u; simpl; naive_solver. Qed.

Lemma read_Ok {A} (l : list A) i x : read l i = Ok x ↔ l !! i = Some x.
Proof. unfold read. destruct (l !! i); naive_solver. Qed.

Lemma write_Ok {A} (l l' : list A) i x :
  write l i x = Ok l' ↔ (i < length l)%nat ∧ l' = <[i := x]> l.
Proof. unfold write. case_bool_decide; naive_solver. Qed.

(** [for (x : l) s = f(s, x)], stopping at the first failure. *)
Fixpoint foldM {A S} (f : S → A → outcome S) (s : S) (l : list A) : outcome S :=
  match l with
  | [] => Ok s
  | x :: l => s' ← f s x; foldM f s' l
  end.

(** what every step keeps holds at the end *)
Lemma foldM_inv {A S} (f : S → A → outcome S) (I : S → Prop) l s s' : (∀ s a s', I s → f s a = Ok s' → I s') → I s → foldM f s l = Ok s' → I s'.
Proof. intros Hf. revert s. induction l as [|a l IH]; intros s Hs; cbn [foldM]; [by intros [= <-]|]. intros (s1 & E1 & E2)%bind_Ok. eapply IH; [by eapply Hf|done]. Qed.

Lemma foldM_app {A S} (f : S → A → outcome S) s l1 l2 :
  foldM f s (l1 ++ l2) = (s' ← foldM f s l1; foldM f s' l2).
Proof.
  revert s. induction l1 as [|x l1 IH]; intros s; simpl; [done|].
  destruct (f s x); simpl; auto.
Qed.

Lemma foldM_snoc {A S} (f : S → A → outcome S) s l x :
  foldM f s (l ++ [x]) = (s' ← foldM f s l; f s' x).
Proof.
  rewrite foldM_app. destruct (foldM f s l) as [s'|]; simpl; [|done].
  by destruct (f s' x).
Qed.

(** [mapM] when all elements succeed, and when one fails *)
Lemma mapM_all {A B} (f : A → outcome B) (g : A → B) l : (∀ x, x ∈ l → f x = Ok (g x)) → mapM f l = Ok (g <$> l).
Proof.
  induction l as [|x l IH]; intros Hf; [done|]. cbn [mapM fmap list_fmap]. rewrite (Hf x) by left. cbn [mbind outcome_bind]. rewrite IH by (intros y Hy; apply Hf; by right). done.
Qed.

Lemma mapM_err {A B} (f : A → outcome B) (e : error) l x : (∀ y, y ∈ l → f y = Err e ∨ ∃ b, f y = Ok b) → x ∈ l → f x = Err e → mapM f l = Err e.
Proof.
  intros Hf Hx Ex. induction l as [|y l IH]; [by apply not_elem_of_nil in Hx|]. cbn [mapM]. destruct (Hf y) as [->|[b Eb]]; [left|done|].
  rewrite Eb. cbn [mbind outcome_bind]. apply elem_of_cons in Hx as [->|Hx]; [congruence|]. rewrite IH; [done| |done]. intros z Hz. apply Hf. by right.
Qed.

Lemma foldM_pure {A S} (f : S → A → outcome S) (g : S → A → S) s l :
  (∀ s x, x ∈ l → f s x = Ok (g s x)) → foldM f s l = Ok (foldl g s l).
Proof.
  revert s. induction l as [|x l IH]; intros s Hfg; simpl; [done|].
  rewrite Hfg by set_solver. simpl. apply IH. intros; apply Hfg. set_solver.
Qed.

(** Loop invariants: [I l s] holds once the elements [l] have been visited. *)
Lemma foldM_ind {A S} (f : S → A → outcome S) (I : list A → S → Prop) s l s' :
  foldM f s l = Ok s' →
  I [] s →
  (∀ l1 x l2 s1 s2, l = l1 ++ x :: l2 → I l1 s1 → f s1 x = Ok s2 → I (l1 ++ [x]) s2) →
  I l s'.
Proof.
  revert s'. induction l as [|x l IH] using rev_ind; intros s' Hf H0 HS.
  { by simplify_eq/=. }
  rewrite foldM_snoc in Hf. apply bind_Ok in Hf as (s1 & Hl & Hx).
  eapply (HS l x [] s1); [done| |done].
  apply IH; [done..|]. intros l1 y l2 t1 t2 -> HI Hy.
  eapply (HS l1 y (l2 ++ [x])); [by rewrite <-app_assoc|done..].
Qed.

(** The loop completes when every iteration does under the invariant. *)
Lemma foldM_total {A S} (f : S → A → outcome S) (I : list A → S → Prop) s l :
  I [] s →
  (∀ l1 x l2 s1, l = l1 ++ x :: l2 → I l1 s1 → ∃ s2, f s1 x = Ok s2 ∧ I (l1 ++ [x]) s2) →
  ∃ s', foldM f s l = Ok s' ∧ I l s'.
Proof.
  induction l as [|x l IH] using rev_ind; intros H0 HS; [by exists s|].
  destruct IH as (s1 & Hl & HI); [done| |].
  { intros l1 y l2 t1 -> HI. apply (HS l1 y (l2 ++ [x])); [by rewrite <-app_assoc|done]. }
  destruct (HS l x [] s1) as (s2 & Hx & HI2); [done..|].
  exists s2. by rewrite foldM_snoc, Hl.
Qed.

(** * Lists *)

Lemma filter_all {A} (P : A → Prop) `{∀ x, Decision (P x)} l : Forall P l → filter P l = l.
Proof. induction 1; [done|]. rewrite filter_cons_True by done. by f_equal. Qed.

Lemma filter_none {A} (P : A → Prop) `{∀ x, Decision (P x)} l :
  Forall (λ x, ¬ P x) l → filter P l = [].
Proof. induction 1; [done|]. by rewrite filter_cons_False. Qed.

(** * Machine integers *)

Definition u64 (x : Z) : Z := x mod 2 ^ 64.
Definition u32 (x : Z) : Z := x mod 2 ^ 32.
(** two's complement conversion to a signed 32-bit [int] *)
Definition i32 (x : Z) : Z := (x + 2 ^ 31) mod 2 ^ 32 - 2 ^ 31.

Lemma u64_range x : 0 <= u64 x < 2 ^ 64.
Proof. apply Z.mod_pos_bound. lia. Qed.
Lemma u32_range x : 0 <= u32 x < 2 ^ 32.
Proof. apply Z.mod_pos_bound. lia. Qed.
(** [INT_MAX], and [+] on [int], which is undefined when the sum is none *)
Definition int_max : Z := 2 ^ 31 - 1.
Definition add_int (a b : Z) : outcome Z :=
  if (- int_max - 1 <=? a + b) && (a + b <=? int_max) then Ok (a + b) else Err Undefined.

Lemma i32_range x : - 2 ^ 31 <= i32 x < 2 ^ 31.
Proof. unfold i32. pose proof (Z.mod_pos_bound (x + 2 ^ 31) (2 ^ 32)). lia. Qed.

Lemma u64_id x : 0 <= x < 2 ^ 64 → u64 x = x.
Proof. apply Z.mod_small. Qed.
Lemma u32_id x : 0 <= x < 2 ^ 32 → u32 x = x.
Proof. apply Z.mod_small. Qed.
Lemma i32_id x : - 2 ^ 31 <= x < 2 ^ 31 → i32 x = x.
Proof. intros. unfold i32. rewrite Z.mod_small; lia. Qed.

Lemma u32_i32 x : u32 (i32 x) = u32 x.
Proof.
  unfold u32, i32. rewrite Zminus_mod_idemp_l. f_equal. lia.
Qed.

Lemma i32_u32 x : i32 (u32 x) = i32 x.
Proof. unfold u32, i32. by rewrite Zplus_mod_idemp_l. Qed.

(** * Automation *)

(** Arithmetic about the lengths of lists. *)
Create Rewrite HintDb len.
#[export] Hint Rewrite @length_app @length_cons @length_nil @length_insert @length_replicate
  @length_take @length_drop @length_fmap @length_map @length_seq @length_reverse : len.

Ltac solve_len := autorewrite with len in *; simpl in *; lia.
