(* ===== verification/Types.v ===== *)
(** Scalar types, triples and the run-time configuration
    ([core/type.hpp], [utils/variant.hpp], [core/config.hpp]).

    The library follows the default build: 32-bit string ids
    ([DTYPE_64BIT] off). *)

From S2P Require Import Prelude.

(** [typedef uint32_t sid_t], [typedef int32_t ssid_t]: both are [Z], with the
    conversions [u32] and [i32] written where the code converts. *)
Abbreviation sid_t := Z.
Abbreviation ssid_t := Z.

Definition BLANK_ID : sid_t := 2 ^ 32 - 1.

(** an in-range [sid_t] *)
Definition is_sid (x : Z) : Prop := 0 <= x < 2 ^ 32.

Record triple_t := Triple { tr_s : sid_t; tr_p : sid_t; tr_o : sid_t }.

#[export] Instance triple_eq_dec : EqDecision triple_t.
Proof. solve_decision. Defined.

Inductive dir_t := IN | OUT | CORUN.

#[export] Instance dir_eq_dec : EqDecision dir_t.
Proof. solve_decision. Defined.

Definition dir_val (d : dir_t) : Z :=
  match d with IN => 0 | OUT => 1 | CORUN => 2 end.

(** [boost::variant<int, double, float>]; a floating value is its bit pattern. *)
Inductive attr_t :=
| attr_int (i : Z)
| attr_double (bits : Z)
| attr_float (bits : Z).

#[export] Instance attr_eq_dec : EqDecision attr_t.
Proof. solve_decision. Defined.

Record triple_attr_t := TripleAttr { ta_s : sid_t; ta_a : sid_t; ta_v : attr_t }.

(** [enum data_type] *)
Definition SID_t : Z := 0.
Definition INT_t : Z := 1.
Definition FLOAT_t : Z := 2.
Definition DOUBLE_t : Z := 3.

(** [variant_type::operator()] *)
Definition get_type (v : attr_t) : Z :=
  match v with
  | attr_int _ => INT_t
  | attr_float _ => FLOAT_t
  | attr_double _ => DOUBLE_t
  end.

Definition get_sizeof (type : Z) : Z :=
  if type =? INT_t then 4 else if type =? FLOAT_t then 4
  else if type =? DOUBLE_t then 8 else 0.

(** the readings of [timer::get_usec], one after the other *)
Class Clock := usec : nat → Z.

(** The globals of [config.hpp] that the modelled code reads. *)
Class Config := MkConfig {
  global_num_servers : Z;
  global_num_threads : Z;
  global_num_proxies : Z;
  global_num_engines : Z;
  global_use_rdma : bool;
  global_enable_caching : bool;
  global_mt_threshold : Z;
  global_rdma_threshold : Z;
  global_enable_vattr : bool
}.

(** What [load_config] establishes (its [ASSERT]s and its last assignments). *)
Record config_ok (cfg : Config) : Prop := {
  cfg_servers : 0 < global_num_servers;
  cfg_proxies : 0 < global_num_proxies;
  cfg_engines : 0 < global_num_engines;
  cfg_threads : global_num_threads = global_num_engines + global_num_proxies;
  cfg_mt : 1 <= global_mt_threshold <= global_num_engines
}.
