(* ===== verification/Settings.v ===== *)
(** The settings ([core/config.hpp]): the items of the configuration file and of the console
    command [config], which of them may change while the system runs, and what holds of
    them afterwards. A file is given as its lines. *)

From stdpp Require Import strings sorting.
From Stdlib Require Import Ascii.
From S2P Require Import Prelude Types.
Local Open Scope Z_scope.

(** all globals; the ones that other components read are the class [Config] *)
Record Settings := MkSettings {
  core : Config;
  global_input_folder : string;
  global_data_port_base : Z;
  global_ctrl_port_base : Z;
  global_memstore_size_gb : Z;
  global_rdma_buf_size_mb : Z;
  global_rdma_rbf_size_mb : Z;
  global_generate_statistics : bool;
  global_enable_workstealing : bool;
  global_silent : bool;
  global_enable_planner : bool
}.

Definition default_settings : Settings :=
  MkSettings (MkConfig 1 2 1 1 true true 16 300 false) "" 5500 9576 20 64 16 true false true true.

(** ** Text *)

(** [isspace] *)
Definition is_space (c : ascii) : bool := let n := nat_of_ascii c in (n =? 32)%nat || ((9 <=? n) && (n <=? 13))%nat.

(** the words of a text; [w] is the one that has begun *)
Fixpoint words_from (w s : string) : list string :=
  match s with
  | EmptyString => if String.eqb w "" then [] else [w]
  | String c s =>
      if is_space c then if String.eqb w "" then words_from "" s else w :: words_from "" s
      else words_from (w +:+ String c "") s
  end.
Definition words (s : string) : list string := words_from "" s.

Definition digit (c : ascii) : option Z :=
  let n := nat_of_ascii c in if ((48 <=? n) && (n <=? 57))%nat then Some (Z.of_nat n - 48) else None.

Fixpoint digits (acc : Z) (s : string) : Z :=
  match s with
  | String c s' => match digit c with Some d => digits (10 * acc + d) s' | None => acc end
  | EmptyString => acc
  end.

Fixpoint skip_blanks (s : string) : string :=
  match s with String c s' => if is_space c then skip_blanks s' else s | EmptyString => s end.

(** [atoi]: [strtol] saturates, and its result is cut to [int] *)
Definition atoi (s : string) : Z :=
  let n := match skip_blanks s with
           | String "-" s => - digits 0 s
           | String "+" s => digits 0 s
           | s => digits 0 s
           end in
  i32 (Z.max (- 2 ^ 63) (Z.min n (2 ^ 63 - 1))).

(** ** Items *)

(** [map<string, string>], and the order in which it is run through *)
Definition Items : Type := gmap string string.
Definition key_le (a b : string * string) : Prop := String.leb a.1 b.1 = true.
#[export] Instance key_le_dec a b : Decision (key_le a b).
Proof. unfold key_le. apply _. Defined.
Definition in_order (items : Items) : list (string * string) := merge_sort key_le (map_to_list items).

(** pairs of words; a last single word is left out *)
Fixpoint pairs_to_items (ws : list string) (items : Items) : Items :=
  match ws with
  | row :: val :: ws => pairs_to_items ws (<[row := val]> items)
  | _ => items
  end.
Definition str2items (str : string) (items : Items) : Items := pairs_to_items (words str) items.

(** one line that is no comment; a word that is missing keeps its value from the line before *)
Definition line_item (st : (string * string) * Items) (line : string) : (string * string) * Items :=
  if String.prefix "#" line || String.eqb line "" then st
  else
    let '((row, val), items) := st in
    let '(row, val) := match words line with
                       | [] => (row, val)
                       | [w] => (w, val)
                       | w :: w' :: _ => (w, w')
                       end in
    ((row, val), <[row := val]> items).
Definition file2items (lines : list string) (items : Items) : Items := (foldl line_item (("", ""), items) lines).2.

(** ** Setting an item *)

Definition set_core (s : Settings) (c : Config) : Settings :=
  MkSettings c (global_input_folder s) (global_data_port_base s) (global_ctrl_port_base s) (global_memstore_size_gb s) (global_rdma_buf_size_mb s)
    (global_rdma_rbf_size_mb s) (global_generate_statistics s) (global_enable_workstealing s) (global_silent s) (global_enable_planner s).

Definition set_workers (c : Config) (proxies engines : Z) : Config :=
  MkConfig (@global_num_servers c) (@global_num_threads c) proxies engines (@global_use_rdma c) (@global_enable_caching c) (@global_mt_threshold c)
    (@global_rdma_threshold c) (@global_enable_vattr c).
Definition set_features (c : Config) (use_rdma caching : bool) (mt rdma_threshold : Z) (vattr : bool) : Config :=
  MkConfig (@global_num_servers c) (@global_num_threads c) (@global_num_proxies c) (@global_num_engines c) use_rdma caching mt rdma_threshold vattr.

(** a number that must be positive *)
Definition positive (value : string) : outcome Z := let n := atoi value in ASSERT (0 <? n); Ok n.
Definition flag (value : string) : bool := negb (atoi value =? 0).

(** the folder ends with a slash *)
Definition folder (value : string) : outcome string :=
  match String.get (String.length value - 1) value with
  | None => Err Exited (* empty *)
  | Some c => Ok (if Ascii.eqb c "/" then value else value +:+ "/")
  end.

Definition set_immutable_config (s : Settings) (cfg_name value : string) : outcome (bool * Settings) :=
  let c := core s in
  let set_rest s fold data ctrl mem buf rbf stat :=
    MkSettings (core s) fold data ctrl mem buf rbf stat (global_enable_workstealing s) (global_silent s) (global_enable_planner s) in
  if String.eqb cfg_name "global_num_proxies" then
    n ← positive value; Ok (true, set_core s (set_workers c n (@global_num_engines c)))
  else if String.eqb cfg_name "global_num_engines" then
    n ← positive value; Ok (true, set_core s (set_workers c (@global_num_proxies c) n))
  else if String.eqb cfg_name "global_input_folder" then
    f ← folder value;
    Ok (true, set_rest s f (global_data_port_base s) (global_ctrl_port_base s) (global_memstore_size_gb s) (global_rdma_buf_size_mb s) (global_rdma_rbf_size_mb s) (global_generate_statistics s))
  else if String.eqb cfg_name "global_data_port_base" then
    n ← positive value;
    Ok (true, set_rest s (global_input_folder s) n (global_ctrl_port_base s) (global_memstore_size_gb s) (global_rdma_buf_size_mb s) (global_rdma_rbf_size_mb s) (global_generate_statistics s))
  else if String.eqb cfg_name "global_ctrl_port_base" then
    n ← positive value;
    Ok (true, set_rest s (global_input_folder s) (global_data_port_base s) n (global_memstore_size_gb s) (global_rdma_buf_size_mb s) (global_rdma_rbf_size_mb s) (global_generate_statistics s))
  else if String.eqb cfg_name "global_memstore_size_gb" then
    n ← positive value;
    Ok (true, set_rest s (global_input_folder s) (global_data_port_base s) (global_ctrl_port_base s) n (global_rdma_buf_size_mb s) (global_rdma_rbf_size_mb s) (global_generate_statistics s))
  else if String.eqb cfg_name "global_rdma_buf_size_mb" then
    n ← positive value;
    Ok (true, set_rest s (global_input_folder s) (global_data_port_base s) (global_ctrl_port_base s) (global_memstore_size_gb s) n (global_rdma_rbf_size_mb s) (global_generate_statistics s))
  else if String.eqb cfg_name "global_rdma_rbf_size_mb" then
    n ← positive value;
    Ok (true, set_rest s (global_input_folder s) (global_data_port_base s) (global_ctrl_port_base s) (global_memstore_size_gb s) (global_rdma_buf_size_mb s) n (global_generate_statistics s))
  else if String.eqb cfg_name "global_generate_statistics" then
    let b := flag value in
    Ok (true, set_rest s (global_input_folder s) (global_data_port_base s) (global_ctrl_port_base s) (global_memstore_size_gb s) (global_rdma_buf_size_mb s) (global_rdma_rbf_size_mb s) b)
  else Ok (false, s).

Section config.
  Context (has_rdma : bool). (* RDMA::get_rdma().has_rdma() *)

Definition set_mutable_config (s : Settings) (cfg_name value : string) : outcome (bool * Settings) :=
  let c := core s in
  let set_rest s steal silent plan :=
    MkSettings (core s) (global_input_folder s) (global_data_port_base s) (global_ctrl_port_base s) (global_memstore_size_gb s) (global_rdma_buf_size_mb s)
      (global_rdma_rbf_size_mb s) (global_generate_statistics s) steal silent plan in
  if String.eqb cfg_name "global_use_rdma" then
    let b := flag value in (* disable RDMA if no RDMA device *)
    Ok (true, set_core s (set_features c (b && has_rdma) (@global_enable_caching c) (@global_mt_threshold c) (@global_rdma_threshold c) (@global_enable_vattr c)))
  else if String.eqb cfg_name "global_rdma_threshold" then
    let n := atoi value in
    Ok (true, set_core s (set_features c (@global_use_rdma c) (@global_enable_caching c) (@global_mt_threshold c) n (@global_enable_vattr c)))
  else if String.eqb cfg_name "global_mt_threshold" then
    n ← positive value;
    Ok (true, set_core s (set_features c (@global_use_rdma c) (@global_enable_caching c) n (@global_rdma_threshold c) (@global_enable_vattr c)))
  else if String.eqb cfg_name "global_enable_caching" then
    let b := flag value in
    Ok (true, set_core s (set_features c (@global_use_rdma c) b (@global_mt_threshold c) (@global_rdma_threshold c) (@global_enable_vattr c)))
  else if String.eqb cfg_name "global_enable_workstealing" then
    let b := flag value in Ok (true, set_rest s b (global_silent s) (global_enable_planner s))
  else if String.eqb cfg_name "global_silent" then
    let b := flag value in Ok (true, set_rest s (global_enable_workstealing s) b (global_enable_planner s))
  else if String.eqb cfg_name "global_enable_planner" then
    let b := flag value in Ok (true, set_rest s (global_enable_workstealing s) (global_silent s) b)
  else if String.eqb cfg_name "global_enable_vattr" then
    let b := flag value in
    Ok (true, set_core s (set_features c (@global_use_rdma c) (@global_enable_caching c) (@global_mt_threshold c) (@global_rdma_threshold c) b))
  else Ok (false, s).

(** [global_mt_threshold = max(1, min(global_mt_threshold, global_num_engines))] *)
Definition limit_mt (c : Config) : Config :=
  set_features c (@global_use_rdma c) (@global_enable_caching c) (Z.max 1 (Z.min (@global_mt_threshold c) (@global_num_engines c))) (@global_rdma_threshold c) (@global_enable_vattr c).

Definition reload_config (s : Settings) (str : string) : outcome Settings :=
  s ← foldM (λ s '(k, v), '(_, s) ← set_mutable_config s k v; Ok s) s (in_order (str2items str ∅));
  Ok (set_core s (limit_mt (core s))).

(** an item that is not supported is logged *)
Definition load_item (s : Settings) (item : string * string) : outcome Settings :=
  let '(k, v) := item in
  '(ok, s) ← set_immutable_config s k v;
  if ok : bool then Ok s else '(_, s) ← set_mutable_config s k v; Ok s.

Definition load_config (s : Settings) (lines : list string) (num_servers : Z) : outcome Settings :=
  let c := core s in
  let s := set_core s (MkConfig num_servers (@global_num_threads c) (@global_num_proxies c) (@global_num_engines c) (@global_use_rdma c)
                        (@global_enable_caching c) (@global_mt_threshold c) (@global_rdma_threshold c) (@global_enable_vattr c)) in
  ASSERT (0 <? num_servers);
  s ← foldM load_item s (in_order (file2items lines ∅));
  let c := core s in
  n ← add_int (@global_num_engines c) (@global_num_proxies c); (* the total number of threads *)
  let c := MkConfig (@global_num_servers c) n (@global_num_proxies c) (@global_num_engines c) (@global_use_rdma c)
             (@global_enable_caching c) (@global_mt_threshold c) (@global_rdma_threshold c) (@global_enable_vattr c) in
  Ok (set_core s (limit_mt c)).
End config.
