(* ===== verification/SettingsOk.v ===== *)
(** What loading and reloading the settings does: every setting has the value of its own
    item, the system-wide conditions hold, and a reload leaves alone what must not change
    while the system runs. *)

From stdpp Require Import strings sorting.
From Stdlib Require Import Ascii.
From S2P Require Import Prelude Types Settings.
Local Open Scope Z_scope.

(** ** Items *)

Lemma in_order_perm (items : Items) : in_order items ≡ₚ map_to_list items.
Proof. apply merge_sort_Permutation. Qed.

(** A fold in which each key has its own effect on a value: the value of its item at the
    end, whatever the order. *)
Lemma items_value {S A} (f : S → string * string → outcome S) (get : S → A) (k : string) (set : string → A → Prop) (items : Items) s s' :
  (∀ s k' v s', f s (k', v) = Ok s' → if String.eqb k' k then set v (get s') else get s' = get s) →
  foldM f s (in_order items) = Ok s' → match items !! k with Some v => set v (get s') | None => get s' = get s end.
Proof.
  intros Hf. assert (Hnd : NoDup (in_order items).*1) by (rewrite in_order_perm; apply NoDup_fst_map_to_list).
  assert (Hk : ∀ v, items !! k = Some v ↔ (k, v) ∈ in_order items) by (intros v; rewrite in_order_perm; symmetry; apply (elem_of_map_to_list (M := gmap string))).
  generalize dependent (in_order items). intros l Hnd Hk.
  assert (Hgen : ∀ l s, NoDup l.*1 → foldM f s l = Ok s' → (∃ v, (k, v) ∈ l ∧ set v (get s')) ∨ (k ∉ l.*1) ∧ get s' = get s).
  { clear -Hf. induction l as [|[k1 v1] l IH]; intros s Hnd; cbn [foldM]; [intros [= <-]; right; split; [apply not_elem_of_nil|done]|].
    intros (s1 & E1 & E2)%bind_Ok. apply NoDup_cons in Hnd as [Hn Hnd]. specialize (Hf _ _ _ _ E1). destruct (IH s1 Hnd E2) as [(v & Hv & Hs)|[Hno Eg]].
    - left. exists v. split; [by right|done].
    - destruct (String.eqb_spec k1 k) as [->|Hne]; [left; exists v1; split; [left|by rewrite Eg]|right]. rewrite Eg, Hf. split; [|done]. simpl. set_solver. }
  intros E. destruct (Hgen l s Hnd E) as [(v & Hv & Hs)|[Hno Eg]]; [by rewrite (proj2 (Hk v) Hv)|]. destruct (items !! k) as [v|] eqn:Ei; [|done].
  destruct Hno. apply list_elem_of_fmap. exists (k, v). split; [done|by apply Hk].
Qed.

(** ** Settings *)

(** the items that are numbers or switches, with what they set *)
Definition immutable_numbers : list (string * (Settings → Z)) :=
  [("global_num_proxies", λ s, @global_num_proxies (core s)); ("global_num_engines", λ s, @global_num_engines (core s));
   ("global_data_port_base", global_data_port_base); ("global_ctrl_port_base", global_ctrl_port_base); ("global_memstore_size_gb", global_memstore_size_gb);
   ("global_rdma_buf_size_mb", global_rdma_buf_size_mb); ("global_rdma_rbf_size_mb", global_rdma_rbf_size_mb)].
Definition mutable_flags : list (string * (Settings → bool)) :=
  [("global_enable_caching", λ s, @global_enable_caching (core s)); ("global_enable_workstealing", global_enable_workstealing); ("global_silent", global_silent);
   ("global_enable_planner", global_enable_planner); ("global_enable_vattr", λ s, @global_enable_vattr (core s))].

(** a folder is empty or ends with a slash *)
Definition folder_ok (f : string) : Prop := f = "" ∨ ∃ f', f = f' +:+ "/".

Record settings_ok (s : Settings) : Prop := {
  st_core : config_ok (core s);
  st_ports : 0 < global_data_port_base s ∧ 0 < global_ctrl_port_base s;
  st_sizes : 0 < global_memstore_size_gb s ∧ 0 < global_rdma_buf_size_mb s ∧ 0 < global_rdma_rbf_size_mb s;
  st_folder : folder_ok (global_input_folder s)
}.

(** what holds before the last assignments *)
Record settings_mid (s : Settings) : Prop := {
  sm_workers : 0 < @global_num_proxies (core s) ∧ 0 < @global_num_engines (core s);
  sm_servers : 0 < @global_num_servers (core s);
  sm_mt : 0 < @global_mt_threshold (core s);
  sm_ports : 0 < global_data_port_base s ∧ 0 < global_ctrl_port_base s;
  sm_sizes : 0 < global_memstore_size_gb s ∧ 0 < global_rdma_buf_size_mb s ∧ 0 < global_rdma_rbf_size_mb s;
  sm_folder : folder_ok (global_input_folder s)
}.

Lemma positive_Ok v n : positive v = Ok n ↔ n = atoi v ∧ 0 < n.
Proof.
  unfold positive. cbv zeta. rewrite bind_Ok. split.
  - intros ([] & E2 & [= <-]). apply assert_that_Ok in E2. split; [done|lia].
  - intros [-> Hn]. exists tt. by rewrite (proj2 (Z.ltb_lt _ _) Hn).
Qed.

Lemma folder_Ok v f : folder v = Ok f → folder_ok f.
Proof.
  unfold folder. destruct (String.get _ v) as [c|] eqn:E; [|done]. intros [= <-]. right. destruct (Ascii.eqb_spec c "/"%char) as [->|]; [|by exists v].
  revert E. induction v as [|a v IH]; [done|]. simpl. rewrite Nat.sub_0_r. destruct v as [|b v]; simpl; [intros [= ->]; by exists ""|].
  intros E. destruct IH as [f' Ef]; [simpl; by rewrite Nat.sub_0_r|]. exists (String a f'). by rewrite Ef.
Qed.

(** the items one after the other: which one it is, and that its value is right *)
Ltac item_cases E :=
  lazymatch type of E with
  | context [if String.eqb ?a ?b then _ else _] => destruct (String.eqb_spec a b) as [->|?]; item_cases E
  | _ => idtac
  end.
Ltac item_value E :=
  try lazymatch type of E with
  | context [positive] => let n := fresh "n" in let E1 := fresh "E1" in apply bind_Ok in E as (n & E1 & E); apply positive_Ok in E1
  | context [folder] => let n := fresh "n" in let E1 := fresh "E1" in apply bind_Ok in E as (n & E1 & E)
  end.

Section config.
  Context (has_rdma : bool).

Lemma immutable_mid s k v b s' : settings_mid s → set_immutable_config s k v = Ok (b, s') → settings_mid s'.
Proof.
  intros [Hw Hn Hm Hp Hz Hf] E. unfold set_immutable_config in E. cbv zeta in E. item_cases E; item_value E; injection E as <- <-; split; simpl; try done; try lia.
  by eapply folder_Ok.
Qed.

Lemma mutable_mid s k v b s' : settings_mid s → set_mutable_config has_rdma s k v = Ok (b, s') → settings_mid s'.
Proof. intros [Hw Hn Hm Hp Hz Hf] E. unfold set_mutable_config in E. cbv zeta in E. item_cases E; item_value E; injection E as <- <-; split; simpl; try done; lia. Qed.

Lemma load_item_mid s it s' : settings_mid s → load_item has_rdma s it = Ok s' → settings_mid s'.
Proof.
  intros Hs. unfold load_item. destruct it as [k v]. intros ([b s1] & E1 & E)%bind_Ok. apply immutable_mid in E1; [|done]. destruct b; [by injection E as <-|].
  apply bind_Ok in E as ([b s2] & E2 & [= <-]). by eapply mutable_mid.
Qed.

(** a mutable item leaves the immutable settings alone *)
Lemma mutable_keeps s k v b s' : set_mutable_config has_rdma s k v = Ok (b, s') →
  Forall (λ e, e.2 s' = e.2 s) immutable_numbers ∧ global_input_folder s' = global_input_folder s ∧ global_generate_statistics s' = global_generate_statistics s ∧
  @global_num_servers (core s') = @global_num_servers (core s) ∧ @global_num_threads (core s') = @global_num_threads (core s).
Proof.
  intros E. unfold set_mutable_config in E. cbv zeta in E. item_cases E; item_value E; injection E as <- <-; (split; [by repeat constructor|done]).
Qed.

(** an item sets its own setting *)
Ltac table_cases :=
  repeat (apply Forall_cons; split); [..|by apply Forall_nil]; cbn [fst snd] in *;
  match goal with |- context [String.eqb ?a ?b] => destruct (String.eqb_spec a b) as [?|?]; try done; try congruence end.

Lemma number_set s k v s' : load_item has_rdma s (k, v) = Ok s' →
  Forall (λ e, if String.eqb k e.1 then e.2 s' = atoi v ∧ 0 < e.2 s' else e.2 s' = e.2 s) immutable_numbers.
Proof.
  unfold load_item. intros ([b s1] & E1 & E)%bind_Ok. assert (Hb : if b then s' = s1 else Forall (λ e, e.2 s' = e.2 s1) immutable_numbers).
  { destruct b; [by injection E as <-|]. apply bind_Ok in E as ([b s2] & E2 & [= <-]). by apply mutable_keeps in E2 as [E2 _]. }
  clear E. unfold set_immutable_config in E1. cbv zeta in E1.
  item_cases E1; item_value E1; injection E1 as <- <-; try subst s'; unfold immutable_numbers in *; [table_cases..|].
  rewrite !Forall_cons in Hb. destruct Hb as (? & ? & ? & ? & ? & ? & ? & _). table_cases.
Qed.

Lemma flag_set s k v b s' : set_mutable_config has_rdma s k v = Ok (b, s') →
  Forall (λ e, if String.eqb k e.1 then e.2 s' = flag v else e.2 s' = e.2 s) mutable_flags.
Proof.
  intros E1. unfold set_mutable_config in E1. cbv zeta in E1. item_cases E1; item_value E1; injection E1 as <- <-; unfold mutable_flags; table_cases.
Qed.

(** the last assignments *)
Lemma limit_ok s n : settings_mid s → let c := core s in
  settings_ok (set_core s (limit_mt (MkConfig (@global_num_servers c) (@global_num_engines c + @global_num_proxies c) (@global_num_proxies c) (@global_num_engines c)
    (@global_use_rdma c) (@global_enable_caching c) n (@global_rdma_threshold c) (@global_enable_vattr c)))).
Proof. intros [Hw Hn Hm Hp Hz Hf]. split; simpl; [split; simpl; lia|done..]. Qed.

Lemma settings_ok_mid s : settings_ok s → settings_mid s.
Proof. intros [[] Hp Hz Hf]. split; try done; lia. Qed.

(** the value of a setting: that of its item, or the one before *)
Definition from {A} (items : Items) (k : string) (conv : string → A) (old new : A) : Prop :=
  new = match items !! k with Some v => conv v | None => old end.

(** a number that must be positive *)
Definition number_from (items : Items) (s s' : Settings) (e : string * (Settings → Z)) : Prop :=
  from items e.1 atoi (e.2 s) (e.2 s') ∧ 0 < e.2 s'.
Definition flag_from (items : Items) (s s' : Settings) (e : string * (Settings → bool)) : Prop :=
  from items e.1 flag (e.2 s) (e.2 s').

(** the folder of an item: the item itself if it ends with a slash, or with a slash added *)
Definition slashed (v f : string) : Prop := v ≠ "" ∧ ∃ f', f = f' +:+ "/" ∧ (v = f ∨ v = f' ∧ ¬ ∃ v', v = v' +:+ "/").

(** the settings that only the start of the system sets *)
Record immutable_from (items : Items) (s s' : Settings) : Prop := {
  imm_numbers : Forall (number_from items s s') immutable_numbers;
  imm_folder : match items !! "global_input_folder" with
               | Some v => slashed v (global_input_folder s')
               | None => global_input_folder s' = global_input_folder s
               end;
  imm_statistics : from items "global_generate_statistics" flag (global_generate_statistics s) (global_generate_statistics s')
}.

(** those that may change: an item turns RDMA on only with a device, and the threads per query between 1 and
    the engines *)
Record mutable_from (items : Items) (s s' : Settings) : Prop := {
  mut_flags : Forall (flag_from items s s') mutable_flags;
  mut_rdma : from items "global_use_rdma" (λ v, flag v && has_rdma) (@global_use_rdma (core s)) (@global_use_rdma (core s'));
  mut_rdma_threshold : from items "global_rdma_threshold" atoi (@global_rdma_threshold (core s)) (@global_rdma_threshold (core s'));
  mut_mt : ∃ mt, from items "global_mt_threshold" atoi (@global_mt_threshold (core s)) mt ∧
    @global_mt_threshold (core s') = Z.max 1 (Z.min mt (@global_num_engines (core s')))
}.

(** ** The effect of one item *)

Lemma folder_slashed v f : folder v = Ok f → slashed v f.
Proof.
  intros Hf. assert (v ≠ "") as Hne by (by intros ->). split; [done|]. unfold folder in Hf. destruct (String.get _ v) as [c|] eqn:E; [|done]. injection Hf as <-.
  assert (Hlast : ∀ v', v = v' +:+ "/" → c = "/"%char).
  { intros v' ->. revert E. clear. induction v' as [|a v' IH]; [by intros [= ->]|]. rewrite (eq_refl : String a v' +:+ "/" = String a (v' +:+ "/")). cbn [String.length String.get].
    assert (∃ n, String.length (v' +:+ "/") = S n) as [n En] by (destruct v'; by eexists). rewrite En in *. cbn [Nat.sub] in *. rewrite Nat.sub_0_r in *. exact IH. }
  destruct (Ascii.eqb_spec c "/"%char) as [->|Hc].
  - assert (∃ f', v = f' +:+ "/") as [f' Ef]; [|exists f'; split; [done|by left]]. destruct (folder_Ok v v) as [->|?]; [unfold folder; by rewrite E|done|done].
  - exists v. split; [done|]. right. split; [done|]. intros [v' Ev]. by apply Hc, (Hlast v').
Qed.

(** one item, and then the goal for each of the items that it may be *)
Ltac one_item E :=
  unfold load_item in E; apply bind_Ok in E as ([? ?] & ?E1 & E);
  match goal with E1 : set_immutable_config _ _ _ = Ok _ |- _ =>
    unfold set_immutable_config in E1; cbv zeta in E1; item_cases E1; item_value E1; injection E1 as <- <- end;
  [(injection E as <-)..|apply bind_Ok in E as ([? ?] & ?E2 & [= <-]);
    match goal with E2 : set_mutable_config _ _ _ _ = Ok _ |- _ =>
      unfold set_mutable_config in E2; cbv zeta in E2; item_cases E2; item_value E2; injection E2 as <- <- end].
Ltac its_setting :=
  try match goal with |- context [String.eqb ?a ?b] => destruct (String.eqb_spec a b) as [?|?] end; try done; try congruence.

Lemma item_folder s k v s' : load_item has_rdma s (k, v) = Ok s' →
  if String.eqb k "global_input_folder" then slashed v (global_input_folder s') else global_input_folder s' = global_input_folder s.
Proof. intros E. one_item E; its_setting. by apply folder_slashed. Qed.

Lemma item_statistics s k v s' : load_item has_rdma s (k, v) = Ok s' →
  if String.eqb k "global_generate_statistics" then global_generate_statistics s' = flag v else global_generate_statistics s' = global_generate_statistics s.
Proof. intros E. one_item E; its_setting. Qed.

(** the mutable settings by one item, at the start or later *)
Definition mutable_effect (k v : string) (s s' : Settings) : Prop :=
  Forall (λ e, if String.eqb k e.1 then e.2 s' = flag v else e.2 s' = e.2 s) mutable_flags ∧
  (if String.eqb k "global_use_rdma" then @global_use_rdma (core s') = flag v && has_rdma else @global_use_rdma (core s') = @global_use_rdma (core s)) ∧
  (if String.eqb k "global_rdma_threshold" then @global_rdma_threshold (core s') = atoi v else @global_rdma_threshold (core s') = @global_rdma_threshold (core s)) ∧
  (if String.eqb k "global_mt_threshold" then @global_mt_threshold (core s') = atoi v else @global_mt_threshold (core s') = @global_mt_threshold (core s)).

Lemma mutable_effect_set s k v b s' : set_mutable_config has_rdma s k v = Ok (b, s') → mutable_effect k v s s'.
Proof.
  intros E. split; [by eapply flag_set|]. unfold set_mutable_config in E. cbv zeta in E. item_cases E; item_value E; injection E as <- <-; split_and!; its_setting.
  all: naive_solver.
Qed.

Lemma mutable_effect_load s k v s' : load_item has_rdma s (k, v) = Ok s' → mutable_effect k v s s'.
Proof.
  intros E. unfold load_item in E. apply bind_Ok in E as ([b s1] & E1 & E). destruct b.
  - injection E as <-. unfold set_immutable_config in E1. cbv zeta in E1. item_cases E1; item_value E1; try done; injection E1 as <-; (split; [unfold mutable_flags; table_cases|split_and!; its_setting]).
  - assert (s1 = s) as ->. { unfold set_immutable_config in E1. cbv zeta in E1. item_cases E1; item_value E1; try done. by injection E1. }
    apply bind_Ok in E as ([b s2] & E2 & [= <-]). by eapply mutable_effect_set.
Qed.

(** the items one after the other *)
Lemma items_from {A} (f : Settings → string * string → outcome Settings) (get : Settings → A) k conv items s s' :
  (∀ s k' v s', f s (k', v) = Ok s' → if String.eqb k' k then get s' = conv v else get s' = get s) →
  foldM f s (in_order items) = Ok s' → from items k conv (get s) (get s').
Proof. intros Hf E. unfold from. pose proof (items_value f get k (λ v a, a = conv v) items s s' Hf E). by destruct (items !! k). Qed.

(** the mutable settings after all items and the last assignment *)
Lemma items_mutable (f : Settings → string * string → outcome Settings) items s s1 c : (∀ s k v s', f s (k, v) = Ok s' → mutable_effect k v s s') →
  foldM f s (in_order items) = Ok s1 → @global_use_rdma c = @global_use_rdma (core s1) → @global_rdma_threshold c = @global_rdma_threshold (core s1) →
  @global_mt_threshold c = @global_mt_threshold (core s1) → @global_enable_caching c = @global_enable_caching (core s1) → @global_enable_vattr c = @global_enable_vattr (core s1) →
  mutable_from items s (set_core s1 (limit_mt c)).
Proof.
  intros Hf E Er Et Em Ec Ev. split; cbn [core set_core limit_mt set_features global_use_rdma global_rdma_threshold global_mt_threshold global_num_engines].
  - apply Forall_forall. intros e He. unfold flag_from. assert (e.2 (set_core s1 (limit_mt c)) = e.2 s1) as ->.
    { unfold mutable_flags in He. rewrite !elem_of_cons, elem_of_nil in He. by repeat (destruct He as [->|He]; [done|]). }
    apply (items_from f e.2 e.1 flag items s s1); [|done]. intros s0 k v s2 E0. destruct (Hf _ _ _ _ E0) as [Hfl _]. exact (proj1 (Forall_forall _ _) Hfl e He).
  - rewrite Er. apply (items_from f (λ s, @global_use_rdma (core s)) _ _ items s s1); [|done]. intros s0 k v s2 E0. apply (Hf _ _ _ _ E0).
  - rewrite Et. apply (items_from f (λ s, @global_rdma_threshold (core s)) _ _ items s s1); [|done]. intros s0 k v s2 E0. apply (Hf _ _ _ _ E0).
  - exists (@global_mt_threshold c). split; [|done]. rewrite Em. apply (items_from f (λ s, @global_mt_threshold (core s)) _ _ items s s1); [|done]. intros s0 k v s2 E0. apply (Hf _ _ _ _ E0).
Qed.

(** the immutable settings after all items of a file; the last assignments leave them alone *)
Lemma items_immutable items s s1 c : settings_mid s1 → (∀ e, e ∈ immutable_numbers → 0 < e.2 s1) → foldM (load_item has_rdma) s (in_order items) = Ok s1 →
  @global_num_proxies c = @global_num_proxies (core s1) → @global_num_engines c = @global_num_engines (core s1) → immutable_from items s (set_core s1 c).
Proof.
  intros Hm Hpos E Hp He. split.
  - apply Forall_forall. intros e Hin. assert (e.2 (set_core s1 c) = e.2 s1) as Es.
    { clear Hpos. unfold immutable_numbers in Hin. rewrite !elem_of_cons, elem_of_nil in Hin. by repeat (destruct Hin as [->|Hin]; [done|]). }
    unfold number_from. rewrite Es. split; [|by apply Hpos]. apply (items_from (load_item has_rdma) e.2 e.1 atoi items s s1); [|done].
    intros s0 k v s2 E0. pose proof (proj1 (Forall_forall _ _) (number_set _ _ _ _ E0) e Hin) as Hn. simpl in Hn. destruct (String.eqb k e.1); [by destruct Hn|done].
  - exact (items_value (load_item has_rdma) global_input_folder _ slashed items s s1 item_folder E).
  - apply (items_from (load_item has_rdma) global_generate_statistics _ flag items s s1); [|done]. exact item_statistics.
Qed.

Lemma mid_positive s e : settings_mid s → e ∈ immutable_numbers → 0 < e.2 s.
Proof.
  intros [[Hw1 Hw2] Hn Hm [Hp1 Hp2] (Hz1 & Hz2 & Hz3) Hf] He. unfold immutable_numbers in He. rewrite !elem_of_cons, elem_of_nil in He.
  by repeat (destruct He as [->|He]; [done|]).
Qed.

Lemma load_item_servers s it s' : load_item has_rdma s it = Ok s' → @global_num_servers (core s') = @global_num_servers (core s).
Proof. destruct it as [k v]. intros E. by one_item E. Qed.

Lemma set_core_from items s c s' : (@global_num_proxies c = @global_num_proxies (core s)) → (@global_num_engines c = @global_num_engines (core s)) →
  immutable_from items (set_core s c) s' → immutable_from items s s'.
Proof.
  intros Hp He [Hn Hf Hg]. split; [|done..]. unfold immutable_numbers in *. rewrite !Forall_cons, !Forall_nil in *. unfold number_from in *. cbn [fst snd core set_core] in *. rewrite Hp, He in Hn. exact Hn.
Qed.

(** C35: loading a configuration file makes the settings valid, which all components rely
    on: the workers are positive and add up to the threads, the threshold of threads per
    query is between 1 and the number of engines, ports and sizes are positive. Every
    setting has the value of its own item or its default: the numbers of workers, the
    ports and the sizes, positive; the folder of its item with a slash added where it is
    missing, or empty without an item; the switches; RDMA, which an item turns on only with a
    device; the RDMA
    threshold; and the threads per query limited to the engines. The number of servers
    is the one given. *)
Theorem loaded_settings (lines : list string) (n : Z) (s : Settings) :
  load_config has_rdma default_settings lines n = Ok s →
  settings_ok s ∧ @global_num_servers (core s) = n ∧
  immutable_from (file2items lines ∅) default_settings s ∧ mutable_from (file2items lines ∅) default_settings s.
Proof.
  unfold load_config. intros ([] & Hn%assert_that_Ok & E)%bind_Ok. apply bind_Ok in E as (s1 & E1 & E). apply bind_Ok in E as (t & Et & [= <-]).
  assert (Hmid : settings_mid s1).
  { eapply (foldM_inv _ settings_mid); [intros; by eapply load_item_mid| |exact E1]. split; simpl; try lia. by left. }
  assert (Hsv : @global_num_servers (core s1) = n).
  { eapply (foldM_inv _ (λ s, @global_num_servers (core s) = n)); [|..|exact E1]; [|done]. intros s0 it s' Hs Ei. by rewrite (load_item_servers _ _ _ Ei). }
  unfold add_int in Et. destruct (_ && _) in Et; [|done]. injection Et as <-. split_and!; [by apply limit_ok|done|..].
  - eapply set_core_from; [..|apply items_immutable; [done|intros; by apply mid_positive|exact E1|done|done]]; done.
  - pose proof (λ c, items_mutable (load_item has_rdma) _ _ _ c mutable_effect_load E1) as Hmu. destruct (Hmu _ eq_refl eq_refl eq_refl eq_refl eq_refl) as [H1 H2 H3 H4].
    split; [|exact H2|exact H3|exact H4]. unfold mutable_flags in *. rewrite !Forall_cons, !Forall_nil in *. exact H1.
Qed.

(** C36: the console command that sets items while the system runs keeps the settings valid
    and leaves every immutable setting alone (workers, servers, threads, ports, sizes, the
    folder, the generation of statistics) whatever the items say. Every mutable setting has
    the value of its own item or keeps it: the switches; RDMA, which an item turns on only
    with a device; the RDMA threshold; and the threads per query limited to the
    engines. *)
Theorem reloaded_settings (s : Settings) (str : string) (s' : Settings) :
  settings_ok s → reload_config has_rdma s str = Ok s' →
  settings_ok s' ∧ Forall (λ e, e.2 s' = e.2 s) immutable_numbers ∧ global_input_folder s' = global_input_folder s ∧
  global_generate_statistics s' = global_generate_statistics s ∧
  @global_num_servers (core s') = @global_num_servers (core s) ∧ @global_num_threads (core s') = @global_num_threads (core s) ∧
  mutable_from (str2items str ∅) s s'.
Proof.
  intros Hs. unfold reload_config. intros (s1 & E1 & [= <-])%bind_Ok. set (f := λ s '(k, v), '(_, s) ← set_mutable_config has_rdma s k v; Ok s) in E1.
  assert (Hstep : ∀ s0 k v s2, f s0 (k, v) = Ok s2 → ∃ b, set_mutable_config has_rdma s0 k v = Ok (b, s2)).
  { intros s0 k v s2 E. unfold f in E. apply bind_Ok in E as ([b s3] & E & [= <-]). by exists b. }
  set (I := λ s1, settings_mid s1 ∧ Forall (λ e, e.2 s1 = e.2 s) immutable_numbers ∧ global_input_folder s1 = global_input_folder s ∧
    global_generate_statistics s1 = global_generate_statistics s ∧
    @global_num_servers (core s1) = @global_num_servers (core s) ∧ @global_num_threads (core s1) = @global_num_threads (core s)).
  assert (HI : I s1).
  { eapply (foldM_inv f I); [|..|exact E1]; [|by split; [apply settings_ok_mid|split; [apply Forall_forall|]]].
    intros s2 [k v] s3 (Hm & Hf & E2 & Eg & E3 & E4) (b & E)%Hstep. pose proof (mutable_keeps _ _ _ _ _ E) as (K1 & K2 & Kg & K3 & K4). split; [by eapply mutable_mid|].
    split; [|split_and!; congruence]. rewrite Forall_forall in K1, Hf |- *. intros e He. by rewrite K1, Hf. }
  destruct HI as (Hm & Hf & E2 & Eg & E3 & E4).
  assert (Hkeep : ∀ e, e ∈ immutable_numbers → e.2 (set_core s1 (limit_mt (core s1))) = e.2 s1).
  { intros e He. unfold immutable_numbers in He. rewrite !elem_of_cons, elem_of_nil in He. by repeat (destruct He as [->|He]; [done|]). }
  assert (Hthr : @global_num_threads (core s1) = @global_num_engines (core s1) + @global_num_proxies (core s1)).
  { rewrite E4. unfold immutable_numbers in Hf. rewrite !Forall_cons in Hf. destruct Hf as (F1 & F2 & _). cbn [snd] in F1, F2. rewrite F1, F2. apply Hs. }
  split; [|split_and!; try done].
  - pose proof (limit_ok s1 (@global_mt_threshold (core s1)) Hm) as Hl. cbv zeta in Hl. rewrite <-Hthr in Hl. exact Hl.
  - rewrite Forall_forall in Hf |- *. intros e He. by rewrite Hkeep, Hf.
  - apply (items_mutable f _ _ _ (core s1)); try done. intros s0 k v s2 (b & E)%Hstep. by eapply mutable_effect_set.
Qed.
End config.

(** *** A configuration *)

Definition sample_config : list string :=
  ["# general"; "global_num_proxies 4"; ""; "global_num_engines	16"; "global_input_folder /data/lubm"; "global_mt_threshold 20"; "global_silent 0"].

Lemma loaded_settings_witness : ∃ s, load_config true default_settings sample_config 3 = Ok s ∧ settings_ok s ∧
  @global_num_threads (core s) = 20 ∧ @global_mt_threshold (core s) = 16 ∧ global_input_folder s = "/data/lubm/".
Proof.
  destruct (load_config true default_settings sample_config 3) as [s|] eqn:E; [|vm_compute in E; discriminate E]. exists s.
  destruct (loaded_settings true sample_config 3 s E) as (Hs & _). split; [reflexivity|]. split; [exact Hs|]. vm_compute in E. injection E as <-. done.
Defined.

Definition running_settings : Settings := set_core default_settings (limit_mt (core default_settings)).

Lemma reloaded_settings_witness : ∃ s, reload_config false running_settings "global_enable_caching 0 global_num_engines 7" = Ok s ∧
  settings_ok s ∧ @global_enable_caching (core s) = false ∧ @global_num_engines (core s) = 1.
Proof.
  destruct (reload_config false running_settings "global_enable_caching 0 global_num_engines 7") as [s|] eqn:E; [|vm_compute in E; discriminate E]. exists s.
  destruct (reloaded_settings false running_settings "global_enable_caching 0 global_num_engines 7" s) as (Hs & _); [|exact E|].
  - split; simpl; [split; simpl; lia|lia|lia|by left].
  - split; [reflexivity|]. split; [exact Hs|]. vm_compute in E. injection E as <-. done.
Defined.
