(* ===== verification/MyMath.v ===== *)
(** [utils/mymath.hpp], class [mymath]: the 64-bit integer hash and its inverse,
    the partitioning function, the bucket-count primes and the weighted choice. *)

From S2P Require Import Prelude Types.
From Stdlib Require Import Znumtheory.

(** ** Words of 64 bits *)

Definition shl64 (x n : Z) : Z := u64 (Z.shiftl x n).
Definition shr64 (x n : Z) : Z := Z.shiftr x n.
Definition not64 (x : Z) : Z := u64 (Z.lnot x).

(** Equality of residues modulo [2^64]; [add64] etc. are [u64] of the integer
    operation, so the arithmetic steps of the hash are equations of this
    congruence. *)
Definition eq64 (a b : Z) : Prop := u64 a = u64 b.
Infix "≡64" := eq64 (at level 70) : wk_scope.

#[export] Instance eq64_equiv : Equivalence eq64.
Proof. split; unfold eq64; [intros ?|intros ???|intros ?????]; congruence. Qed.
#[export] Instance add_eq64 : Proper (eq64 ==> eq64 ==> eq64) Z.add.
Proof.
  intros a b H c d H'. unfold eq64, u64 in *.
  by rewrite Zplus_mod, H, H', <-Zplus_mod.
Qed.
#[export] Instance sub_eq64 : Proper (eq64 ==> eq64 ==> eq64) Z.sub.
Proof.
  intros a b H c d H'. unfold eq64, u64 in *.
  by rewrite Zminus_mod, H, H', <-Zminus_mod.
Qed.
#[export] Instance mul_eq64 : Proper (eq64 ==> eq64 ==> eq64) Z.mul.
Proof.
  intros a b H c d H'. unfold eq64, u64 in *.
  by rewrite Zmult_mod, H, H', <-Zmult_mod.
Qed.

#[export] Instance opp_eq64 : Proper (eq64 ==> eq64) Z.opp.
Proof. intros a b H. rewrite <-!Z.sub_0_l. by rewrite H. Qed.

Lemma u64_eq64 x : u64 x ≡64 x.
Proof. unfold eq64, u64. by rewrite Z.mod_mod. Qed.

Lemma eq64_eq a b : a ≡64 b → 0 <= a < 2 ^ 64 → 0 <= b < 2 ^ 64 → a = b.
Proof. intros H Ha Hb. by rewrite <-(u64_id a), <-(u64_id b) by done. Qed.

Lemma eq64_diff k a b : a = b + k * 2 ^ 64 → a ≡64 b.
Proof. intros ->. apply Z.mod_add. lia. Qed.

Lemma shl64_eq64 x n : 0 <= n → shl64 x n ≡64 x * 2 ^ n.
Proof. intros. unfold shl64. by rewrite u64_eq64, Z.shiftl_mul_pow2. Qed.

Lemma not64_eq64 x : not64 x ≡64 - x - 1.
Proof. unfold not64, Z.lnot. rewrite u64_eq64. by replace (Z.pred (- x)) with (- x - 1) by lia. Qed.

(** Reduces an equation of words to an equation of integers with an explicit
    multiple of [2^64]. *)
Ltac to_eq64 :=
  repeat first [rewrite u64_eq64 | rewrite not64_eq64 | rewrite shl64_eq64 by lia].

(** ** The hash *)

(** TomasWang's 64 bit integer hash *)
Definition hash_u64 (key : Z) : Z :=
  let key := u64 (not64 key + shl64 key 21) in
  let key := Z.lxor key (shr64 key 24) in
  let key := u64 (u64 (key + shl64 key 3) + shl64 key 8) in
  let key := Z.lxor key (shr64 key 14) in
  let key := u64 (u64 (key + shl64 key 2) + shl64 key 4) in
  let key := Z.lxor key (shr64 key 28) in
  let key := u64 (key + shl64 key 31) in
  key.

Definition inverse_hash_u64 (key : Z) : Z :=
  (* Invert key = key + (key << 31) *)
  let tmp := u64 (key - shl64 key 31) in
  let key := u64 (key - shl64 tmp 31) in
  (* Invert key = key ^ (key >> 28) *)
  let tmp := Z.lxor key (shr64 key 28) in
  let key := Z.lxor key (shr64 tmp 28) in
  (* Invert key *= 21 *)
  let key := u64 (key * 14933078535860113213) in
  (* Invert key = key ^ (key >> 14) *)
  let tmp := Z.lxor key (shr64 key 14) in
  let tmp := Z.lxor key (shr64 tmp 14) in
  let tmp := Z.lxor key (shr64 tmp 14) in
  let key := Z.lxor key (shr64 tmp 14) in
  (* Invert key *= 265 *)
  let key := u64 (key * 15244667743933553977) in
  (* Invert key = key ^ (key >> 24) *)
  let tmp := Z.lxor key (shr64 key 24) in
  let key := Z.lxor key (shr64 tmp 24) in
  (* Invert key = (~key) + (key << 21) *)
  let tmp := not64 key in
  let tmp := not64 (u64 (key - shl64 tmp 21)) in
  let tmp := not64 (u64 (key - shl64 tmp 21)) in
  let key := not64 (u64 (key - shl64 tmp 21)) in
  key.

(** The seven steps of the hash and their inverses, as functions. *)
Definition xorshift (n x : Z) : Z := Z.lxor x (shr64 x n).
Definition step21 (x : Z) : Z := u64 (not64 x + shl64 x 21).
Definition step265 (x : Z) : Z := u64 (u64 (x + shl64 x 3) + shl64 x 8).
Definition step_mul21 (x : Z) : Z := u64 (u64 (x + shl64 x 2) + shl64 x 4).
Definition step31 (x : Z) : Z := u64 (x + shl64 x 31).

Definition word (x : Z) : Prop := 0 <= x < 2 ^ 64.

Lemma word_u64 x : word (u64 x).
Proof. apply u64_range. Qed.
Lemma word_not64 x : word (not64 x).
Proof. apply u64_range. Qed.
Lemma word_shl64 x n : word (shl64 x n).
Proof. apply u64_range. Qed.

Lemma lt_pow2_log2 x n : 0 <= x → 0 < n → x < 2 ^ n ↔ Z.log2 x < n.
Proof.
  intros Hx Hn. destruct (decide (x = 0)) as [->|].
  - simpl. split; intros; [done|]. by apply Z.pow_pos_nonneg; lia.
  - apply Z.log2_lt_pow2. lia.
Qed.

Lemma word_lxor a b : word a → word b → word (Z.lxor a b).
Proof.
  intros [Ha Ha'] [Hb Hb']. split; [by apply Z.lxor_nonneg|].
  apply lt_pow2_log2 in Ha', Hb'; [|lia..].
  apply lt_pow2_log2; [by apply Z.lxor_nonneg|lia|].
  pose proof (Z.log2_lxor a b Ha Hb). lia.
Qed.

Lemma word_shr64 a n : 0 <= n → word a → word (shr64 a n).
Proof.
  intros Hn [Ha Ha']. unfold shr64, word. rewrite Z.shiftr_div_pow2 by done.
  assert (0 < 2 ^ n) by (apply Z.pow_pos_nonneg; lia).
  split; [by apply Z.div_pos|]. apply Z.div_lt_upper_bound; nia.
Qed.

Lemma word_xorshift n x : 0 <= n → word x → word (xorshift n x).
Proof. intros. apply word_lxor; [done|]. by apply word_shr64. Qed.

Create HintDb word.
#[export] Hint Resolve word_u64 word_not64 word_shl64 word_lxor word_shr64 word_xorshift : word.
#[export] Hint Extern 1 (_ <= _) => lia : word.

Lemma shr64_word_0 x n : word x → 64 <= n → shr64 x n = 0.
Proof.
  intros [Hx Hx'] Hn. apply Z.shiftr_eq_0; [done|].
  apply lt_pow2_log2 in Hx'; lia.
Qed.

(** One refinement round of the inverse of [x ^ (x >> n)]: an approximation that
    is exact on all but the low-order part shifted by [m] becomes exact up to
    [m + n]. *)
Lemma xorshift_refine m n x : 0 <= m → 0 <= n →
  Z.lxor (xorshift n x) (shr64 (xorshift m x) n) = xorshift (m + n) x.
Proof.
  intros Hm Hn. unfold xorshift, shr64.
  rewrite Z.shiftr_lxor, Z.shiftr_shiftr by done.
  rewrite Z.lxor_assoc, <-(Z.lxor_assoc (Z.shiftr x n)).
  by rewrite Z.lxor_nilpotent, Z.lxor_0_l.
Qed.

Lemma xorshift_exact n x : word x → 64 <= n → xorshift n x = x.
Proof. intros. unfold xorshift. rewrite shr64_word_0 by done. apply Z.lxor_0_r. Qed.

Lemma inv_xorshift24 x : word x →
  let key := xorshift 24 x in
  Z.lxor key (shr64 (Z.lxor key (shr64 key 24)) 24) = x.
Proof.
  intros Hx; simpl. rewrite (xorshift_refine 24 24) by lia.
  rewrite xorshift_refine by lia. by apply xorshift_exact.
Qed.

Lemma inv_xorshift28 x : word x →
  let key := xorshift 28 x in
  Z.lxor key (shr64 (Z.lxor key (shr64 key 28)) 28) = x.
Proof.
  intros Hx; simpl. rewrite (xorshift_refine 28 28) by lia.
  rewrite xorshift_refine by lia. by apply xorshift_exact.
Qed.

Lemma inv_xorshift14 x : word x →
  let key := xorshift 14 x in
  let tmp := Z.lxor key (shr64 key 14) in
  let tmp := Z.lxor key (shr64 tmp 14) in
  let tmp := Z.lxor key (shr64 tmp 14) in
  Z.lxor key (shr64 tmp 14) = x.
Proof.
  intros Hx; simpl. rewrite (xorshift_refine 14 14) by lia.
  rewrite !xorshift_refine by lia. by apply xorshift_exact.
Qed.

Lemma step31_eq64 x : step31 x ≡64 x * (1 + 2 ^ 31).
Proof. unfold step31. to_eq64. by rewrite Z.mul_add_distr_l, Z.mul_1_r. Qed.

Lemma inv_step31 x : word x →
  let key := step31 x in
  u64 (key - shl64 (u64 (key - shl64 key 31)) 31) = x.
Proof.
  intros Hx key. apply eq64_eq; [|apply u64_range|done].
  to_eq64. subst key. rewrite step31_eq64.
  apply (eq64_diff (x * 2 ^ 29)). ring.
Qed.

Lemma step_mul21_eq64 x : step_mul21 x ≡64 x * 21.
Proof.
  unfold step_mul21. to_eq64.
  apply (eq64_diff 0). ring.
Qed.

Lemma step265_eq64 x : step265 x ≡64 x * 265.
Proof.
  unfold step265. to_eq64. apply (eq64_diff 0). ring.
Qed.

Lemma inv_mul21 x : word x → u64 (step_mul21 x * 14933078535860113213) = x.
Proof.
  intros Hx. apply eq64_eq; [|apply u64_range|done].
  rewrite u64_eq64, step_mul21_eq64. apply (eq64_diff (x * 17)). ring.
Qed.

Lemma inv_mul265 x : word x → u64 (step265 x * 15244667743933553977) = x.
Proof.
  intros Hx. apply eq64_eq; [|apply u64_range|done].
  rewrite u64_eq64, step265_eq64. apply (eq64_diff (x * 219)). ring.
Qed.

Lemma step21_eq64 x : step21 x ≡64 x * (2 ^ 21 - 1) - 1.
Proof. unfold step21. to_eq64. apply (eq64_diff 0). ring. Qed.

Lemma inv_step21 x : word x →
  let key := step21 x in
  let tmp := not64 key in
  let tmp := not64 (u64 (key - shl64 tmp 21)) in
  let tmp := not64 (u64 (key - shl64 tmp 21)) in
  not64 (u64 (key - shl64 tmp 21)) = x.
Proof.
  intros Hx; simpl. apply eq64_eq; [|apply u64_range|done].
  to_eq64. rewrite step21_eq64. apply (eq64_diff (- x * 2 ^ 20)). ring.
Qed.

(** The inverse rounds as functions, so that [inverse_hash_u64] is their
    composition. *)
Definition unstep31 (key : Z) : Z := u64 (key - shl64 (u64 (key - shl64 key 31)) 31).
Definition unxor28 (key : Z) : Z := Z.lxor key (shr64 (Z.lxor key (shr64 key 28)) 28).
Definition unxor24 (key : Z) : Z := Z.lxor key (shr64 (Z.lxor key (shr64 key 24)) 24).
Definition unxor14 (key : Z) : Z :=
  let tmp := Z.lxor key (shr64 key 14) in
  let tmp := Z.lxor key (shr64 tmp 14) in
  let tmp := Z.lxor key (shr64 tmp 14) in
  Z.lxor key (shr64 tmp 14).
Definition unstep21 (key : Z) : Z :=
  let tmp := not64 key in
  let tmp := not64 (u64 (key - shl64 tmp 21)) in
  let tmp := not64 (u64 (key - shl64 tmp 21)) in
  not64 (u64 (key - shl64 tmp 21)).

#[local] Opaque Z.lxor Z.add Z.sub Z.mul u64 shl64 shr64 not64.

Lemma hash_u64_rounds key :
  hash_u64 key =
  step31 (xorshift 28 (step_mul21 (xorshift 14 (step265 (xorshift 24 (step21 key)))))).
Proof. reflexivity. Qed.

Lemma inverse_hash_u64_rounds key :
  inverse_hash_u64 key =
  unstep21 (unxor24 (u64 (unxor14 (u64 (unxor28 (unstep31 key) * 14933078535860113213))
                          * 15244667743933553977))).
Proof. reflexivity. Qed.

#[local] Transparent Z.lxor Z.add Z.sub Z.mul u64 shl64 shr64 not64.

Lemma inverse_hash_hash_word key : word key → inverse_hash_u64 (hash_u64 key) = key.
Proof.
  intros Hk.
  rewrite hash_u64_rounds, inverse_hash_u64_rounds.
  unfold unstep31, unxor28, unxor14, unxor24, unstep21.
  assert (word (step21 key)) by apply word_u64.
  rewrite inv_step31 by (unfold step_mul21; auto with word).
  rewrite inv_xorshift28 by apply word_u64.
  rewrite inv_mul21 by (unfold step265; auto with word).
  rewrite inv_xorshift14 by apply word_u64.
  rewrite inv_mul265 by auto with word.
  rewrite inv_xorshift24, inv_step21; auto with word.
Qed.

(** [inverse_hash_u64] undoes [hash_u64] on every 64-bit word. *)
Theorem inverse_hash_hash key :
  0 <= key < 2 ^ 64 → inverse_hash_u64 (hash_u64 key) = key.
Proof. apply inverse_hash_hash_word. Qed.

Lemma hash_u64_word key : word (hash_u64 key).
Proof. rewrite hash_u64_rounds. apply word_u64. Qed.

(** Distinct words never collide before the reduction modulo the table size. *)
Lemma hash_u64_inj a b : word a → word b → hash_u64 a = hash_u64 b → a = b.
Proof.
  intros Ha Hb Hab. rewrite <-(inverse_hash_hash_word a), <-(inverse_hash_hash_word b) by done.
  by rewrite Hab.
Qed.

Lemma inverse_hash_hash_witness :
  0 <= 81985529216486895 < 2 ^ 64 ∧
  inverse_hash_u64 (hash_u64 81985529216486895) = 81985529216486895.
Proof. split; [lia|]. apply (inverse_hash_hash 81985529216486895). lia. Defined.

(** ** Partitioning *)

(** [int hash_mod(uint64_t n, int m)] *)
Definition hash_mod (n m : Z) : outcome Z :=
  if m =? 0 then Err AssertFail else Ok (i32 (u64 n mod u64 m)).

Lemma hash_mod_Ok n m : 0 < m < 2 ^ 31 → 0 <= n < 2 ^ 64 → hash_mod n m = Ok (n mod m).
Proof.
  intros Hm Hn. unfold hash_mod. destruct (Z.eqb_spec m 0); [lia|].
  rewrite !u64_id by lia. pose proof (Z.mod_pos_bound n m).
  rewrite i32_id; [done|lia].
Qed.

(** ** Bucket counts *)

Definition hash_prime_u64 (upper : Z) : Z :=
  if Z.shiftl 1 31 <=? upper then upper  (* WARNING: too large *)
  else if 1610612741 <=? upper then 1610612741
  else if 805306457 <=? upper then 805306457
  else if 402653189 <=? upper then 402653189
  else if 201326611 <=? upper then 201326611
  else if 100663319 <=? upper then 100663319
  else if 50331653 <=? upper then 50331653
  else if 25165843 <=? upper then 25165843
  else if 12582917 <=? upper then 12582917
  else if 6291469 <=? upper then 6291469
  else if 3145739 <=? upper then 3145739
  else if 1572869 <=? upper then 1572869
  else if 786433 <=? upper then 786433
  else if 393241 <=? upper then 393241
  else if 196613 <=? upper then 196613
  else if 98317 <=? upper then 98317
  else upper.  (* WARNING: too small *)

(** Trial division by [d, d+1, ..., d+n-1]. *)
Fixpoint no_divisor (n : nat) (d p : Z) : bool :=
  match n with
  | O => true
  | S n => negb (p mod d =? 0) && no_divisor n (d + 1) p
  end.

Definition prime_check (p : Z) : bool :=
  (1 <? p) && no_divisor (Z.to_nat (Z.sqrt p - 1)) 2 p.

Lemma no_divisor_spec n d p : no_divisor n d p = true →
  ∀ k, d <= k < d + Z.of_nat n → p mod k ≠ 0.
Proof.
  revert d. induction n as [|n IH]; intros d H k Hk; [lia|]. simpl in H.
  apply andb_true_iff in H as [H1 H2]. destruct (decide (k = d)) as [->|].
  - apply negb_true_iff, Z.eqb_neq in H1. done.
  - apply (IH (d + 1)); [done|lia].
Qed.

Lemma prime_check_sound p : prime_check p = true → prime p.
Proof.
  unfold prime_check. intros [H1 H2]%andb_true_iff. apply Z.ltb_lt in H1.
  apply prime_alt. split; [done|]. intros n Hn [k Hk].
  pose proof (Z.sqrt_spec p ltac:(lia)) as [Hs1 Hs2]. pose proof (Z.sqrt_nonneg p).
  assert (∀ a b, 1 < a → p = b * a → a <= Z.sqrt p → False) as Haux.
  { intros a b Ha Hab Has. apply (no_divisor_spec _ _ _ H2 a); [lia|].
    rewrite Hab. by apply Z.mod_mul; lia. }
  destruct (decide (n <= Z.sqrt p)); [by apply (Haux n k); lia|].
  apply (Haux k n); nia.
Qed.

(** within the documented range the number of main-header buckets is a
    prime, at most the requested number and more than half of it (up to the gap
    between consecutive entries). *)
Theorem hash_prime_spec upper :
  98317 <= upper < 2 ^ 31 →
  prime (hash_prime_u64 upper) ∧ hash_prime_u64 upper <= upper < 2 * hash_prime_u64 upper + 128.
Proof.
  intros Hu. unfold hash_prime_u64. change (Z.shiftl 1 31) with (2 ^ 31).
  repeat (match goal with |- context [if ?a <=? ?b then _ else _] =>
            destruct (Z.leb_spec a b) end;
          [first [lia | split; [apply prime_check_sound; vm_compute; reflexivity|lia]]|]).
  lia.
Qed.

Lemma hash_prime_spec_witness :
  98317 <= 1000000 < 2 ^ 31 ∧ prime (hash_prime_u64 1000000).
Proof. split; [lia|]. apply (hash_prime_spec 1000000). lia. Defined.

(** ** Weighted choice *)

Fixpoint pick (r : Z) (i : nat) (distribution : list Z) : outcome Z :=
  match distribution with
  | [] => Err AssertFail
  | x :: rest => if r <? x then Ok (Z.of_nat i) else pick (i32 (r - x)) (S i) rest
  end.

Definition get_distribution (r : Z) (distribution : list Z) : outcome Z :=
  let sum := foldl (λ s x, i32 (s + x)) 0 distribution in
  ASSERT (0 <? sum);
  pick (Z.rem r sum) 0 distribution.

Definition sumZ (l : list Z) : Z := foldr Z.add 0 l.

Lemma sumZ_nonneg l : Forall (Z.le 0) l → 0 <= sumZ l.
Proof. induction 1; simpl; lia. Qed.

Lemma sum_no_overflow s l :
  0 <= s → Forall (Z.le 0) l → s + sumZ l < 2 ^ 31 →
  foldl (λ s x, i32 (s + x)) s l = s + sumZ l.
Proof.
  revert s. induction l as [|x l IH]; intros s Hs Hl Hb; simpl in *; [lia|].
  inversion_clear Hl as [|?? Hx Hl']. pose proof (sumZ_nonneg l Hl').
  rewrite i32_id by lia. rewrite IH; [lia..|done|lia].
Qed.

Lemma pick_spec r i l :
  Forall (Z.le 0) l → 0 <= r < sumZ l → sumZ l < 2 ^ 31 →
  ∃ k, pick r i l = Ok (Z.of_nat (i + k)) ∧ (k < length l)%nat ∧
       sumZ (take k l) <= r < sumZ (take (S k) l).
Proof.
  revert r i. induction l as [|x l IH]; intros r i Hl Hr Hb; simpl in *; [lia|].
  inversion_clear Hl as [|?? Hx Hl']. pose proof (sumZ_nonneg l Hl').
  destruct (Z.ltb_spec r x).
  { exists 0%nat. rewrite Nat.add_0_r. split_and!; simpl; [done|lia..]. }
  rewrite i32_id by lia.
  destruct (IH (r - x) (S i)) as (k & Hk & Hlen & Hsum); [done|lia..|].
  exists (S k). rewrite Hk. split_and!; [f_equal; lia|lia|simpl in *; lia..].
Qed.

(** for non-negative weights whose sum fits an [int], the weighted choice
    always returns, and returns the class whose cumulative weight interval
    contains [r mod sum]. *)
Theorem get_distribution_spec r distribution :
  Forall (Z.le 0) distribution → 0 < sumZ distribution < 2 ^ 31 → 0 <= r →
  ∃ k, get_distribution r distribution = Ok (Z.of_nat k) ∧ (k < length distribution)%nat ∧
       sumZ (take k distribution) <= r mod sumZ distribution < sumZ (take (S k) distribution).
Proof.
  intros Hl Hs Hr. unfold get_distribution.
  rewrite sum_no_overflow by (done || lia). rewrite Z.add_0_l.
  destruct (Z.ltb_spec 0 (sumZ distribution)); [|lia]. simpl.
  rewrite Z.rem_mod_nonneg by lia. apply (pick_spec _ 0); [done| |lia].
  apply Z.mod_pos_bound. lia.
Qed.

Lemma get_distribution_witness :
  ∃ k, get_distribution 8 [3; 0; 4] = Ok (Z.of_nat k) ∧ (k < 3)%nat.
Proof.
  destruct (get_distribution_spec 8 [3; 0; 4]) as (k & H & Hk & _).
  - repeat constructor; lia.
  - simpl. lia.
  - lia.
  - exists k. done.
Defined.
