(* ===== verification/Tuple.v ===== *)
(** [utils/mymath.hpp], class [mytuple]: in-place quicksort and binary search of
    a result table, a flat [vector<sid_t>] of rows of [N] columns. *)

From S2P Require Import Prelude Types.
From stdpp Require Import sorting.
Local Open Scope nat_scope.

Fixpoint compare_loop (vec : list Z) (a : nat) (vec2 : list Z) (b n : nat) : outcome Z :=
  match n with
  | O => Ok 0%Z
  | S n =>
      x ← read vec a;
      y ← read vec2 b;
      if (x <? y)%Z then Ok (-1)%Z
      else if (y <? x)%Z then Ok 1%Z
      else compare_loop vec (S a) vec2 (S b) n
  end.

Definition compare_tuple (N : nat) (vec : list Z) (i : nat) (vec2 : list Z) (j : nat)
  : outcome Z := compare_loop vec (i * N) vec2 (j * N) N.

(** [std::swap(vec[a], vec[b])] *)
Definition swap_elem (vec : list Z) (a b : nat) : outcome (list Z) :=
  x ← read vec a;
  y ← read vec b;
  vec ← write vec a y;
  write vec b x.

Definition swap_tuple (N : nat) (vec : list Z) (i j : nat) : outcome (list Z) :=
  foldM (λ vec t, swap_elem vec (i * N + t) (j * N + t)) vec (seq 0 N).

(** the [for (iter = begin + 1; iter < end; iter++)] loop *)
Definition partition_step (N begin : nat) (s : list Z * nat) (iter : nat)
  : outcome (list Z * nat) :=
  let '(vec, middle) := s in
  r ← compare_tuple N vec iter vec begin;
  if (r =? -1)%Z then
    let middle := S middle in
    vec ← swap_tuple N vec iter middle;
    Ok (vec, middle)
  else Ok (vec, middle).

Fixpoint qsort_tuple_recursive (fuel N : nat) (vec : list Z) (begin end_ : nat)
  : outcome (list Z) :=
  match fuel with
  | O => Err OutOfFuel
  | S fuel =>
      if end_ <=? begin + 1 then Ok vec
      else
        '(vec, middle) ← foldM (partition_step N begin) (vec, begin)
                           (seq (begin + 1) (end_ - (begin + 1)));
        vec ← swap_tuple N vec begin middle;
        vec ← qsort_tuple_recursive fuel N vec begin middle;
        qsort_tuple_recursive fuel N vec (middle + 1) end_
  end.

Definition qsort_tuple (N : nat) (vec : list Z) : outcome (list Z) :=
  qsort_tuple_recursive (S (length vec)) N vec 0 (length vec / N).

Fixpoint binary_search_tuple_recursive (fuel N : nat) (vec target : list Z) (begin end_ : nat)
  : outcome bool :=
  match fuel with
  | O => Err OutOfFuel
  | S fuel =>
      if end_ <=? begin then Ok false
      else
        let middle := (begin + end_) / 2 in
        r ← compare_tuple N target 0 vec middle;
        if (r =? 0)%Z then Ok true
        else if (r <? 0)%Z then binary_search_tuple_recursive fuel N vec target begin middle
        else binary_search_tuple_recursive fuel N vec target (middle + 1) end_
  end.

(** the public wrapper computes the answer but does not return it *)
Definition binary_search_tuple (N : nat) (vec target : list Z) : outcome bool :=
  _ ← binary_search_tuple_recursive (S (length vec)) N vec target 0 (length vec / N);
  Err Undefined.

#[global] Arguments partition_step : simpl never.
#[global] Arguments swap_tuple : simpl never.
#[global] Arguments compare_tuple : simpl never.

(** ** Reference: lexicographic order on rows *)

Fixpoint lex (a b : list Z) : comparison :=
  match a, b with
  | x :: a, y :: b => match (x ?= y)%Z with Eq => lex a b | c => c end
  | _, _ => Eq
  end.

Definition lex_le (a b : list Z) : Prop := lex a b ≠ Gt.

Definition cmpZ (c : comparison) : Z :=
  match c with Lt => -1 | Eq => 0 | Gt => 1 end%Z.

(** A table of [N]-column rows. *)
Definition table (N : nat) (L : list (list Z)) : Prop := Forall (λ r, length r = N) L.

Lemma table_app N L1 L2 : table N (L1 ++ L2) ↔ table N L1 ∧ table N L2.
Proof. apply Forall_app. Qed.
Lemma table_cons N r L : table N (r :: L) ↔ length r = N ∧ table N L.
Proof. apply Forall_cons_iff. Qed.

Lemma table_concat_length N L : table N L → length (concat L) = length L * N.
Proof. induction 1; simpl; [done|]. rewrite length_app. lia. Qed.

Lemma lex_refl a : lex a a = Eq.
Proof. induction a; simpl; [done|]. by rewrite Z.compare_refl. Qed.

Lemma lex_Eq a b : length a = length b → lex a b = Eq ↔ a = b.
Proof.
  revert b. induction a as [|x a IH]; intros [|y b] Hl; simplify_eq/=; [done|].
  destruct (Z.compare_spec x y) as [->| |].
  - rewrite IH by done. naive_solver.
  - split; [done|]. intros [= -> ->]. lia.
  - split; [done|]. intros [= -> ->]. lia.
Qed.

Lemma lex_antisym a b : length a = length b → lex b a = CompOpp (lex a b).
Proof.
  revert b. induction a as [|x a IH]; intros [|y b] Hl; simplify_eq/=; [done|].
  rewrite (Z.compare_antisym x y). destruct (x ?= y)%Z; simpl; auto.
Qed.

Lemma lex_Lt_trans a b c : length a = length b → length b = length c →
  lex a b = Lt → lex b c ≠ Gt → lex a c = Lt.
Proof.
  revert b c. induction a as [|x a IH]; intros [|y b] [|z c] H1 H2; simplify_eq/=; try done.
  destruct (Z.compare_spec x y), (Z.compare_spec y z), (Z.compare_spec x z);
    subst; try done; try lia; eauto.
Qed.

Lemma lex_le_trans a b c : length a = length b → length b = length c →
  lex_le a b → lex_le b c → lex_le a c.
Proof.
  unfold lex_le. intros H1 H2 Hab Hbc. destruct (lex a b) eqn:E; [| |done].
  - apply lex_Eq in E; [by subst|done].
  - by rewrite (lex_Lt_trans a b c).
Qed.

Lemma lex_ge_le a b : length a = length b → lex a b ≠ Lt ↔ lex_le b a.
Proof. intros H. unfold lex_le. rewrite (lex_antisym a b H). by destruct (lex a b). Qed.

(** ** The flat operations act on rows *)

Lemma compare_loop_spec l1 a l2 m1 b m2 :
  length a = length b →
  compare_loop (l1 ++ a ++ l2) (length l1) (m1 ++ b ++ m2) (length m1) (length a)
  = Ok (cmpZ (lex a b)).
Proof.
  revert l1 m1 b. induction a as [|x a IH]; intros l1 m1 [|y b] Hl; simplify_eq/=; [done|].
  unfold read. rewrite !list_lookup_middle by done. simpl.
  destruct (Z.compare_spec x y) as [->| |].
  - rewrite Z.ltb_irrefl. specialize (IH (l1 ++ [y]) (m1 ++ [y]) b Hl).
    rewrite !length_app, !Nat.add_1_r, <-!app_assoc in IH. apply IH.
  - by rewrite (proj2 (Z.ltb_lt x y)).
  - destruct (Z.ltb_spec x y); [lia|]. by rewrite (proj2 (Z.ltb_lt y x)).
Qed.

Lemma compare_tuple_spec N L1 a L2 M1 b M2 :
  table N L1 → table N M1 → length a = N → length b = N →
  compare_tuple N (concat (L1 ++ a :: L2)) (length L1) (concat (M1 ++ b :: M2)) (length M1)
  = Ok (cmpZ (lex a b)).
Proof.
  intros HL HM <- Hb. unfold compare_tuple. rewrite !concat_app. simpl.
  rewrite <-!table_concat_length by done. by apply compare_loop_spec.
Qed.

Lemma lookup_second {A} (l1 : list A) a l2 b l3 :
  (l1 ++ a :: l2 ++ b :: l3) !! (length l1 + S (length l2)) = Some b.
Proof.
  rewrite lookup_app_r by lia. rewrite Nat.add_comm, Nat.add_sub. simpl.
  by apply list_lookup_middle.
Qed.

Lemma insert_second {A} (l1 : list A) a l2 b l3 x :
  <[length l1 + S (length l2) := x]> (l1 ++ a :: l2 ++ b :: l3) = l1 ++ a :: l2 ++ x :: l3.
Proof.
  rewrite insert_app_r. simpl. f_equal. f_equal.
  by rewrite <-(Nat.add_0_r (length l2)), insert_app_r.
Qed.

Lemma swap_elem_spec l1 a l2 b l3 :
  swap_elem (l1 ++ a :: l2 ++ b :: l3) (length l1) (length l1 + S (length l2))
  = Ok (l1 ++ b :: l2 ++ a :: l3).
Proof.
  assert ((l1 ++ a :: l2 ++ b :: l3) !! length l1 = Some a) as H1
    by by apply list_lookup_middle.
  unfold swap_elem, read, write. rewrite H1, lookup_second. simpl.
  rewrite bool_decide_true by by eapply lookup_lt_Some. simpl.
  assert (<[length l1 := b]> (l1 ++ a :: l2 ++ b :: l3) = l1 ++ b :: l2 ++ b :: l3) as ->.
  { by rewrite <-(Nat.add_0_r (length l1)), insert_app_r. }
  rewrite bool_decide_true by (eapply lookup_lt_Some, lookup_second).
  by rewrite insert_second.
Qed.

Lemma swap_elem_same vec i x : vec !! i = Some x → swap_elem vec i i = Ok vec.
Proof.
  intros Hx. pose proof (lookup_lt_Some _ _ _ Hx).
  unfold swap_elem, read, write. rewrite Hx. simpl.
  rewrite bool_decide_true by done. simpl.
  rewrite length_insert, bool_decide_true by done.
  by rewrite !list_insert_id by (rewrite ?list_insert_id; done).
Qed.

Lemma swap_loop_spec c1 xd xr c2 yd yr c3 i j :
  length xr = length yr → length yd = length xd →
  i + length yd = length c1 + length yd →
  j + length yd = length (c1 ++ yd ++ xr ++ c2) + length yd →
  foldM (λ vec t, swap_elem vec (i + t) (j + t))
    (c1 ++ (yd ++ xr) ++ c2 ++ (xd ++ yr) ++ c3) (seq (length yd) (length xr))
  = Ok (c1 ++ (yd ++ yr) ++ c2 ++ (xd ++ xr) ++ c3).
Proof.
  revert xd yd yr. induction xr as [|x xr IH]; intros xd yd [|y yr] Hl Hd Hi Hj;
    simplify_eq/=; [done|].
  pose proof (swap_elem_spec (c1 ++ yd) x (xr ++ c2 ++ xd) y (yr ++ c3)) as Hsw.
  assert (j + length yd = length (c1 ++ yd) + S (length (xr ++ c2 ++ xd))) as Hj'.
  { solve_len. }
  rewrite Hj'. replace (i + length yd) with (length (c1 ++ yd)) by (rewrite length_app; lia).
  replace (c1 ++ (yd ++ x :: xr) ++ c2 ++ (xd ++ y :: yr) ++ c3)
    with ((c1 ++ yd) ++ x :: (xr ++ c2 ++ xd) ++ y :: yr ++ c3)
    by (by simplify_list_eq).
  rewrite Hsw. simpl.
  specialize (IH (xd ++ [x]) (yd ++ [y]) yr).
  rewrite length_app, Nat.add_1_r in IH. simplify_list_eq. apply IH; solve_len.
Qed.

Lemma swap_tuple_spec N L1 x L2 y L3 :
  table N (L1 ++ x :: L2 ++ y :: L3) →
  swap_tuple N (concat (L1 ++ x :: L2 ++ y :: L3)) (length L1) (length L1 + S (length L2))
  = Ok (concat (L1 ++ y :: L2 ++ x :: L3)).
Proof.
  rewrite table_app, table_cons, table_app, table_cons. intros (H1 & Hx & H2 & Hy & H3).
  unfold swap_tuple. rewrite !concat_app. simpl. rewrite !concat_app. simpl.
  pose proof (swap_loop_spec (concat L1) [] x (concat L2) [] y (concat L3)
    (length L1 * N) ((length L1 + S (length L2)) * N)) as H.
  simpl in H. rewrite Hx in H. apply H; [lia|done|..];
    rewrite ?length_app, ?(table_concat_length N) by done; lia.
Qed.

Lemma swap_tuple_same N L1 x L2 :
  table N (L1 ++ x :: L2) →
  swap_tuple N (concat (L1 ++ x :: L2)) (length L1) (length L1) = Ok (concat (L1 ++ x :: L2)).
Proof.
  intros HT. unfold swap_tuple.
  destruct (foldM_total (λ vec t, swap_elem vec (length L1 * N + t) (length L1 * N + t))
    (λ _ s, s = concat (L1 ++ x :: L2)) (concat (L1 ++ x :: L2)) (seq 0 N))
    as (s' & -> & ->); [done| |done].
  intros l1 t l2 s Hs ->. eexists; split; [|done].
  assert (t ∈ seq 0 N) as [_ Ht]%elem_of_seq by (rewrite Hs; set_solver).
  destruct (lookup_lt_is_Some_2 (concat (L1 ++ x :: L2)) (length L1 * N + t)) as [v Hv].
  { rewrite (table_concat_length N) by done. solve_len. }
  by eapply swap_elem_same.
Qed.

Lemma swap_elem_comm vec a b : swap_elem vec a b = swap_elem vec b a.
Proof.
  unfold swap_elem, read. destruct (vec !! a) as [x|] eqn:Ha, (vec !! b) as [y|] eqn:Hb; simpl; try done.
  pose proof (lookup_lt_Some _ _ _ Ha). pose proof (lookup_lt_Some _ _ _ Hb).
  unfold write. rewrite !bool_decide_true by done. simpl.
  rewrite !length_insert, !bool_decide_true by done.
  destruct (decide (a = b)) as [->|]; [by simplify_eq|].
  by rewrite list_insert_insert_ne.
Qed.

Lemma swap_tuple_comm N vec i j : swap_tuple N vec i j = swap_tuple N vec j i.
Proof.
  unfold swap_tuple. generalize (seq 0 N) as l. intros l. revert vec.
  induction l as [|t l IH]; intros vec; simpl; [done|].
  rewrite swap_elem_comm. destruct (swap_elem _ _ _); simpl; auto.
Qed.

(** ** Quicksort *)

(** After the partition loop has visited [A] (smaller than the pivot) and [B]
    (not smaller), one more row keeps the two groups apart. *)
Lemma partition_step_spec N pre p A B x R :
  table N (pre ++ p :: A ++ B ++ x :: R) →
  Forall (λ r, lex r p = Lt) A → Forall (λ r, lex_le p r) B →
  ∃ A' B', partition_step N (length pre) (concat (pre ++ p :: A ++ B ++ x :: R), length pre + length A)
    (length pre + S (length A + length B))
    = Ok (concat (pre ++ p :: A' ++ B' ++ R), length pre + length A')
  ∧ A' ++ B' ≡ₚ A ++ B ++ [x]
  ∧ Forall (λ r, lex r p = Lt) A' ∧ Forall (λ r, lex_le p r) B'.
Proof.
  intros HT HA HB. assert (length p = N ∧ length x = N ∧ table N pre ∧ table N (pre ++ p :: A ++ B))
    as (Hp & Hx & Hpre & Hpab).
  { rewrite !table_app, !table_cons, !table_app, !table_cons in HT.
    rewrite !table_app, !table_cons, !table_app. naive_solver. }
  unfold partition_step.
  pose proof (compare_tuple_spec N (pre ++ p :: A ++ B) x R pre p (A ++ B ++ x :: R)) as Hc.
  replace (concat ((pre ++ p :: A ++ B) ++ x :: R)) with (concat (pre ++ p :: A ++ B ++ x :: R))
    in Hc by (f_equal; by simplify_list_eq).
  replace (length (pre ++ p :: A ++ B)) with (length pre + S (length A + length B)) in Hc
    by solve_len.
  rewrite Hc by done. clear Hc. simpl. destruct (lex x p) eqn:E; simpl.
  - exists A, (B ++ [x]). simplify_list_eq. split_and!; [done..|].
    apply Forall_app; split; [done|]. constructor; [|done].
    apply lex_ge_le; [lia|]. by rewrite E.
  - destruct B as [|y B].
    + exists (A ++ [x]), []. simplify_list_eq.
      replace (length pre + S (length A + 0)) with (length (pre ++ p :: A)) by solve_len.
      replace (S (length pre + length A)) with (length (pre ++ p :: A)) by solve_len.
      replace (pre ++ p :: A ++ x :: R) with ((pre ++ p :: A) ++ x :: R) in * by by simplify_list_eq.
      rewrite swap_tuple_same by done. simpl.
      split_and!; [repeat f_equal; solve_len|done| |constructor].
      apply Forall_app; split; [done|]. by constructor.
    + exists (A ++ [x]), (B ++ [y]).
      replace (length pre + S (length A + length (y :: B)))
        with (length (pre ++ p :: A) + S (length B)) by solve_len.
      replace (S (length pre + length A)) with (length (pre ++ p :: A)) by solve_len.
      replace (pre ++ p :: A ++ (y :: B) ++ x :: R) with ((pre ++ p :: A) ++ y :: B ++ x :: R) in *
        by by simplify_list_eq.
      rewrite swap_tuple_comm, swap_tuple_spec by done. simpl. apply Forall_cons_iff in HB as [Hy HB].
      split_and!.
      * f_equal. f_equal; [f_equal; by simplify_list_eq|solve_len].
      * simplify_list_eq. apply Permutation_app_head.
        rewrite (Permutation_cons_append (B ++ [y]) x). by rewrite <-app_assoc, Permutation_middle.
      * apply Forall_app; split; [done|]. by constructor.
      * apply Forall_app; split; [done|]. by constructor.
  - exists A, (B ++ [x]). simplify_list_eq. split_and!; [done..|].
    apply Forall_app; split; [done|]. constructor; [|done].
    apply lex_ge_le; [lia|]. by rewrite E.
Qed.

Lemma partition_loop_spec N pre p A B R post :
  table N (pre ++ p :: A ++ B ++ R ++ post) →
  Forall (λ r, lex r p = Lt) A → Forall (λ r, lex_le p r) B →
  ∃ A' B', foldM (partition_step N (length pre))
      (concat (pre ++ p :: A ++ B ++ R ++ post), length pre + length A)
      (seq (length pre + S (length A + length B)) (length R))
    = Ok (concat (pre ++ p :: A' ++ B' ++ post), length pre + length A')
  ∧ A' ++ B' ≡ₚ A ++ B ++ R
  ∧ Forall (λ r, lex r p = Lt) A' ∧ Forall (λ r, lex_le p r) B'.
Proof.
  revert A B. induction R as [|x R IH]; intros A B HT HA HB.
  { exists A, B. by rewrite app_nil_r. }
  destruct (partition_step_spec N pre p A B x (R ++ post)) as (A1 & B1 & Hstep & Hperm & HA1 & HB1);
    [done..|].
  simpl. rewrite Hstep. simpl.
  destruct (IH A1 B1) as (A' & B' & Hrest & Hperm' & ?); [|done..|].
  { unfold table in *. eapply Permutation_Forall; [|exact HT].
    apply Permutation_app_head, perm_skip. rewrite (app_assoc A1), Hperm. by simplify_list_eq. }
  apply Permutation_length in Hperm as Hlen.
  replace (S (length pre + S (length A + length B)))
    with (length pre + S (length A1 + length B1)) by solve_len.
  exists A', B'. split_and!; [done| |naive_solver..].
  rewrite Hperm', (app_assoc A1), Hperm. by simplify_list_eq.
Qed.

Lemma Sorted_app_pivot p A B N :
  table N (A ++ p :: B) → StronglySorted lex_le A → StronglySorted lex_le B →
  Forall (λ r, lex r p = Lt) A → Forall (λ r, lex_le p r) B →
  StronglySorted lex_le (A ++ p :: B).
Proof.
  intros HT HA HB HAp HpB. induction A as [|a A IH]; simpl in *; [by constructor|].
  apply table_cons in HT as [Ha HT]. apply StronglySorted_inv in HA as [HA Hle].
  apply Forall_cons_iff in HAp as [Hap HAp]. constructor; [by apply IH|].
  apply table_app in HT as [_ [Hp HT]%table_cons].
  assert (lex_le a p) by (unfold lex_le; by rewrite Hap).
  apply Forall_app; split; [done|]. constructor; [done|].
  apply Forall_forall. intros r Hr. eapply lex_le_trans; [| |done|].
  - lia.
  - unfold table in HT. rewrite Forall_forall in HT. rewrite (HT r Hr). lia.
  - rewrite Forall_forall in HpB. by apply HpB.
Qed.

Lemma qsort_recursive_spec fuel N pre M post :
  table N (pre ++ M ++ post) → length M < fuel →
  ∃ M', qsort_tuple_recursive fuel N (concat (pre ++ M ++ post)) (length pre) (length pre + length M)
        = Ok (concat (pre ++ M' ++ post))
  ∧ M' ≡ₚ M ∧ StronglySorted lex_le M'.
Proof.
  revert pre M post. induction fuel as [|fuel IH]; intros pre M post HT Hf; [lia|]. simpl.
  destruct (Nat.leb_spec (length pre + length M) (length pre + 1)) as [Hs|Hs].
  { exists M. split_and!; [done..|]. destruct M as [|a [|b M]]; simpl in Hs; [| |lia]; repeat constructor. }
  destruct M as [|p R]; [solve_len|].
  destruct (partition_loop_spec N pre p [] [] R post) as (A & B & Hloop & Hperm & HA & HB);
    [done|constructor..|]. simpl in *.
  replace (length pre + S (length R) - (length pre + 1)) with (length R) by lia.
  rewrite Nat.add_0_r in Hloop. rewrite Hloop. clear Hloop. simpl.
  apply Permutation_length in Hperm as Hlen. rewrite length_app in Hlen.
  assert (∃ A0, A0 ≡ₚ A ∧ swap_tuple N (concat (pre ++ p :: A ++ B ++ post)) (length pre)
     (length pre + length A) = Ok (concat (pre ++ A0 ++ p :: B ++ post))) as (A0 & HA0 & ->).
  { assert (table N (pre ++ p :: A ++ B ++ post)) as HT'.
    { unfold table in *. eapply Permutation_Forall; [|exact HT].
      apply Permutation_app_head, perm_skip. by rewrite app_assoc, Hperm. }
    destruct A as [|z A _] using rev_ind.
    - exists []. simpl. rewrite Nat.add_0_r. by rewrite swap_tuple_same.
    - exists (z :: A). split; [apply Permutation_cons_append|].
      replace (length (A ++ [z])) with (S (length A)) by solve_len.
      pose proof (swap_tuple_spec N pre p A z (B ++ post)) as Hsw. simplify_list_eq.
      by apply Hsw. }
  simpl. apply Permutation_length in HA0 as HlA. rewrite <-HlA.
  assert (Forall (λ r, lex r p = Lt) A0) as HAp by by rewrite HA0.
  assert (table N (pre ++ A0 ++ p :: B ++ post)) as HT0.
  { unfold table in *. eapply Permutation_Forall; [|exact HT]. apply Permutation_app_head.
    rewrite HA0. rewrite <-Permutation_middle. apply perm_skip. by rewrite app_assoc, Hperm. }
  destruct (IH pre A0 (p :: B ++ post)) as (A' & -> & HA' & HsA); [done|lia|]. simpl.
  destruct (IH (pre ++ A' ++ [p]) B post) as (B' & HB' & HpB & HsB); [|lia|].
  { unfold table in *. eapply Permutation_Forall; [|exact HT0]. rewrite <-HA'. by simplify_list_eq. }
  apply Permutation_length in HA' as HlA'.
  exists (A' ++ p :: B').
  replace (length (pre ++ A' ++ [p])) with (length pre + length A0 + 1) in HB' by solve_len.
  replace (length pre + length A0 + 1 + length B) with (length pre + S (length R)) in HB' by lia.
  simplify_list_eq. rewrite HB'. split_and!; [done| |].
  - rewrite HA', HA0, HpB, <-Permutation_middle. apply perm_skip. done.
  - apply (Sorted_app_pivot _ _ _ N); [|done|done|by rewrite HA'|by rewrite HpB].
    unfold table in *. eapply Permutation_Forall.
    2:{ apply Forall_app in HT0 as [_ HT0]. rewrite app_comm_cons, app_assoc in HT0.
        apply Forall_app in HT0 as [HT0 _]. exact HT0. }
    by rewrite HA', HpB.
Qed.

(** C39: [qsort_tuple] terminates without leaving the table, and returns the same
    rows in lexicographic order. *)
Theorem qsort_tuple_correct N L :
  0 < N → table N L →
  ∃ L', qsort_tuple N (concat L) = Ok (concat L') ∧ L' ≡ₚ L ∧ StronglySorted lex_le L'.
Proof.
  intros HN HT. unfold qsort_tuple. rewrite (table_concat_length N) by done.
  rewrite Nat.div_mul by lia.
  destruct (qsort_recursive_spec (S (length L * N)) N [] L []) as (M' & H & ?).
  - by rewrite app_nil_r.
  - nia.
  - exists M'. rewrite !app_nil_r in H. done.
Qed.

Lemma qsort_tuple_witness :
  ∃ L', qsort_tuple 2 [5; 1; 2; 9; 2; 7]%Z = Ok (concat L') ∧ StronglySorted lex_le L'.
Proof.
  destruct (qsort_tuple_correct 2 [[5; 1]; [2; 9]; [2; 7]]%Z) as (L' & H & _ & HS).
  - lia.
  - repeat constructor.
  - exists L'. done.
Defined.

(** In an ordered table a row smaller than [r] lies before it, a greater one
    after it. *)
Lemma Sorted_split L1 r L2 t N :
  table N (L1 ++ r :: L2) → length t = N → StronglySorted lex_le (L1 ++ r :: L2) →
  t ∈ L1 ++ r :: L2 → (lex t r = Lt → t ∈ L1) ∧ (lex t r = Gt → t ∈ L2).
Proof.
  rewrite StronglySorted_app, StronglySorted_cons. intros HT Ht (Hle & _ & Hr & _).
  assert (length r = N) as HrN by (rewrite table_app, table_cons in HT; naive_solver).
  rewrite Forall_forall in Hr.
  intros [Hin|[->|Hin]%elem_of_cons]%elem_of_app; split; intros E; try done.
  - by destruct (Hle t r); [done|set_solver|].
  - by rewrite lex_refl in E.
  - by rewrite lex_refl in E.
  - destruct (Hr t Hin). rewrite (lex_antisym t r) by lia. by rewrite E.
Qed.

Lemma binary_search_spec fuel N L t pre M post :
  L = pre ++ M ++ post → table N L → length t = N → StronglySorted lex_le L →
  length M < fuel →
  ∃ b, binary_search_tuple_recursive fuel N (concat L) t (length pre) (length pre + length M) = Ok b
  ∧ (b = true → t ∈ L) ∧ (t ∈ M → b = true).
Proof.
  revert pre M post. induction fuel as [|fuel IH]; intros pre M post HL HT Ht HS Hf; [lia|].
  cbn [binary_search_tuple_recursive].
  destruct (Nat.leb_spec (length pre + length M) (length pre)).
  { exists false. split_and!; [done..|]. destruct M; [|simpl in *; lia]. by intros ?%elem_of_nil. }
  set (mid := (length pre + (length pre + length M)) / 2).
  assert (length pre <= mid < length pre + length M) as Hmid.
  { unfold mid. pose proof (Nat.div_mod_eq (length pre + (length pre + length M)) 2).
    pose proof (Nat.mod_upper_bound (length pre + (length pre + length M)) 2). lia. }
  destruct (lookup_lt_is_Some_2 M (mid - length pre)) as [r Hr]; [lia|].
  apply list_elem_of_split_length in Hr as (M1 & M2 & -> & HM1).
  assert (table N (M1 ++ r :: M2) ∧ StronglySorted lex_le (M1 ++ r :: M2)) as [HTM HSM].
  { rewrite HL in HT, HS. rewrite !table_app in HT. rewrite !StronglySorted_app in HS.
    rewrite table_app, StronglySorted_app. naive_solver. }
  assert (L = (pre ++ M1) ++ r :: M2 ++ post) as HL' by (rewrite HL; by simplify_list_eq).
  assert (length r = N ∧ table N (pre ++ M1)) as [Hr Hpm].
  { rewrite HL', table_app, table_cons in HT. naive_solver. }
  pose proof (compare_tuple_spec N [] t [] (pre ++ M1) r (M2 ++ post)) as Hc.
  simpl in Hc. rewrite app_nil_r, <-HL', length_app in Hc.
  replace (length pre + length M1) with mid in Hc by lia.
  rewrite Hc by (done || constructor). clear Hc. simpl.
  destruct (lex t r) eqn:E; simpl.
  - apply lex_Eq in E; [|lia]. subst r. exists true. split_and!; [done| |done].
    intros _. rewrite HL'. set_solver.
  - destruct (IH pre M1 (r :: M2 ++ post)) as (b & Hb & Hb1 & Hb2); [|done..|solve_len|].
    { rewrite HL'. by simplify_list_eq. }
    replace mid with (length pre + length M1) by lia. exists b. split_and!; [done..|].
    intros Hin. apply Hb2. by apply (Sorted_split M1 r M2 t N).
  - destruct (IH (pre ++ M1 ++ [r]) M2 post) as (b & Hb & Hb1 & Hb2); [|done..|solve_len|].
    { rewrite HL'. by simplify_list_eq. }
    replace (length (pre ++ M1 ++ [r])) with (mid + 1) in Hb by solve_len.
    replace (mid + 1 + length M2) with (length pre + length (M1 ++ r :: M2)) in Hb by solve_len.
    exists b. split_and!; [done..|]. intros Hin. apply Hb2. by apply (Sorted_split M1 r M2 t N).
Qed.

(** On a table ordered by [qsort_tuple] the binary search terminates and
    decides membership of the row. *)
Theorem binary_search_correct N L t :
  table N L → length t = N → StronglySorted lex_le L →
  ∃ b, binary_search_tuple_recursive (S (length L)) N (concat L) t 0 (length L) = Ok b ∧
       (b = true ↔ t ∈ L).
Proof.
  intros HT Ht HS. destruct (binary_search_spec (S (length L)) N L t [] L []) as (b & Hb & H1 & H2);
    [by rewrite app_nil_r|done..|lia|].
  exists b. by split.
Qed.

Lemma binary_search_witness :
  ∃ b, binary_search_tuple_recursive 4 2 [2; 7; 2; 9; 5; 1]%Z [2; 9]%Z 0 3 = Ok b ∧
       (b = true ↔ [2; 9]%Z ∈ [[2; 7]; [2; 9]; [5; 1]]%Z).
Proof.
  apply (binary_search_correct 2 [[2; 7]; [2; 9]; [5; 1]]%Z [2; 9]%Z).
  - repeat constructor.
  - reflexivity.
  - repeat constructor; discriminate.
Defined.

(** [binary_search_tuple] has no [return]: whatever the table and the row, its
    value is undefined, although the search it runs has an answer. *)
Theorem binary_search_tuple_undefined N L t :
  0 < N → table N L → length t = N → StronglySorted lex_le L →
  (∃ b, binary_search_tuple_recursive (S (length (concat L))) N (concat L) t 0 (length (concat L) / N) = Ok b) ∧
  binary_search_tuple N (concat L) t = Err Undefined.
Proof.
  intros HN HT Ht HS. unfold binary_search_tuple.
  assert (Hlen : length (concat L) / N = length L).
  { rewrite (table_concat_length N) by done. by apply Nat.div_mul; lia. }
  destruct (binary_search_spec (S (length (concat L))) N L t [] L []) as (b & Hb & _);
    [by rewrite app_nil_r|done..| |].
  { rewrite (table_concat_length N) by done. nia. }
  cbn [length app Nat.add] in Hb. rewrite Hlen, Hb. split; [by exists b|done].
Qed.

Lemma binary_search_tuple_undefined_witness :
  binary_search_tuple 2 [2; 7; 2; 9]%Z [2; 9]%Z = Err Undefined.
Proof.
  apply (binary_search_tuple_undefined 2 [[2; 7]; [2; 9]]%Z [2; 9]%Z);
    [lia|repeat constructor|reflexivity|repeat constructor; discriminate].
Defined.
