(* ===== verification/Coder.v ===== *)
(** [core/coder.hpp]: query identifiers that encode the server and the thread
    that issued them. [get_random] ([rand_r] of the C library) is not modelled. *)

From S2P Require Import Prelude Types.

Record coder := MkCoder { c_sid : Z; c_tid : Z; c_qid : Z }.

Section coder.
Context {cfg : Config}.

(** [Coder(int sid, int tid)] *)
Definition new_coder (sid tid : Z) : coder :=
  MkCoder sid tid (i32 (i32 (global_num_threads * sid) + tid)).

(** The sum is taken to wrap around, on which the test for a negative id relies; in C++ the
    overflow of an [int] is undefined. *)
Definition get_and_inc_qid (c : coder) : Z * coder :=
  let id := c_qid c in
  let qid := i32 (c_qid c + i32 (global_num_servers * global_num_threads)) in
  let qid := if qid <? 0 then i32 (i32 (global_num_threads * c_sid c) + c_tid c) else qid in
  (id, MkCoder (c_sid c) (c_tid c) qid).

Definition sid_of (qid : Z) : Z :=
  Z.quot (Z.rem qid (i32 (global_num_servers * global_num_threads))) global_num_threads.

Definition tid_of (qid : Z) : Z := Z.rem qid global_num_threads.

(** the ids returned by [n] successive calls *)
Fixpoint issue (n : nat) (c : coder) : list Z :=
  match n with
  | O => []
  | S n => let '(id, c') := get_and_inc_qid c in id :: issue n c'
  end.

(** A coder of an existing thread of an existing server. *)
Record coder_wf (c : coder) : Prop := {
  wf_sid : 0 <= c_sid c < global_num_servers;
  wf_tid : 0 <= c_tid c < global_num_threads;
  wf_qid : 0 <= c_qid c < 2 ^ 31;
  wf_mod : c_qid c mod (global_num_servers * global_num_threads)
           = global_num_threads * c_sid c + c_tid c
}.

Hypothesis Hthreads : 0 < global_num_threads.
Hypothesis Hspace : global_num_servers * global_num_threads < 2 ^ 31.

Lemma base_range c : 0 <= c_sid c < global_num_servers → 0 <= c_tid c < global_num_threads →
  0 <= global_num_threads * c_sid c + c_tid c < global_num_servers * global_num_threads.
Proof. nia. Qed.

Lemma base_no_wrap c : 0 <= c_sid c < global_num_servers → 0 <= c_tid c < global_num_threads →
  i32 (i32 (global_num_threads * c_sid c) + c_tid c) = global_num_threads * c_sid c + c_tid c.
Proof. intros Hs Ht. pose proof (base_range c Hs Ht).
  rewrite (i32_id (_ * _)) by nia. apply i32_id. lia.
Qed.

Lemma new_coder_wf sid tid :
  0 <= sid < global_num_servers → 0 <= tid < global_num_threads → coder_wf (new_coder sid tid).
Proof.
  intros Hs Ht. set (c := new_coder sid tid).
  pose proof (base_no_wrap c Hs Ht) as Hb. pose proof (base_range c Hs Ht).
  split; simpl in *; [done..|rewrite Hb; lia|]. rewrite Hb. apply Z.mod_small. done.
Qed.

Lemma get_and_inc_wf c : coder_wf c → coder_wf (get_and_inc_qid c).2.
Proof.
  intros [Hs Ht Hq Hm]. pose proof (base_no_wrap c Hs Ht) as Hb.
  pose proof (base_range c Hs Ht). unfold get_and_inc_qid. simpl.
  set (n := global_num_servers * global_num_threads) in *. rewrite (i32_id n) by lia.
  destruct (Z.ltb_spec (i32 (c_qid c + n)) 0) as [Hneg|Hpos].
  - split; simpl; [done..|rewrite Hb; lia|]. rewrite Hb. by apply Z.mod_small.
  - assert (i32 (c_qid c + n) = c_qid c + n) as E.
    { destruct (decide (c_qid c + n < 2 ^ 31)); [rewrite i32_id; lia|].
      unfold i32 in Hpos. rewrite <-(Z_mod_plus_full _ (-1)), Z.mod_small in Hpos; lia. }
    rewrite E in *. pose proof (i32_range (c_qid c + n)).
    split; simpl; [done..|lia|]. replace (c_qid c + n) with (c_qid c + 1 * n) by lia.
    by rewrite Z_mod_plus_full.
Qed.

(** Decoding an id of a well-formed coder. *)
Lemma decode c : coder_wf c → sid_of (c_qid c) = c_sid c ∧ tid_of (c_qid c) = c_tid c.
Proof.
  intros [Hs Ht Hq Hm]. pose proof (base_range c Hs Ht). unfold sid_of, tid_of.
  set (n := global_num_servers * global_num_threads) in *.
  rewrite (i32_id n), !Z.rem_mod_nonneg by lia. rewrite Hm. split.
  - rewrite Z.quot_div_nonneg, Z.add_comm, Z.mul_comm, Z.div_add by lia.
    by rewrite Z.div_small.
  - pose proof (Z.div_mod (c_qid c) n ltac:(lia)) as E. rewrite Hm in E.
    replace (c_qid c) with (c_tid c + (global_num_servers * (c_qid c / n) + c_sid c) * global_num_threads)
      by (unfold n in *; nia).
    rewrite Z_mod_plus_full. by apply Z.mod_small.
Qed.

Lemma issue_owner n c : coder_wf c →
  Forall (λ id, 0 <= id ∧ sid_of id = c_sid c ∧ tid_of id = c_tid c) (issue n c).
Proof.
  revert c. induction n as [|n IH]; intros c Hc; simpl; [constructor|].
  constructor; [destruct (decode c Hc), Hc; split_and!; (done || lia)|].
  apply (IH (get_and_inc_qid c).2). by apply get_and_inc_wf.
Qed.

(** every id a coder ever issues, also after the counter overflows and is
    reset, is non-negative and decodes to the server and the thread of the coder. *)
Theorem qid_lineage n sid tid :
  0 <= sid < global_num_servers → 0 <= tid < global_num_threads →
  Forall (λ id, 0 <= id ∧ sid_of id = sid ∧ tid_of id = tid) (issue n (new_coder sid tid)).
Proof. intros Hs Ht. apply (issue_owner n (new_coder sid tid)). by apply new_coder_wf. Qed.

(** Two different threads of the cluster never issue the same id. *)
Theorem qid_disjoint n1 n2 sid1 tid1 sid2 tid2 id :
  0 <= sid1 < global_num_servers → 0 <= tid1 < global_num_threads →
  0 <= sid2 < global_num_servers → 0 <= tid2 < global_num_threads →
  id ∈ issue n1 (new_coder sid1 tid1) → id ∈ issue n2 (new_coder sid2 tid2) →
  sid1 = sid2 ∧ tid1 = tid2.
Proof.
  intros Hs1 Ht1 Hs2 Ht2 H1 H2.
  pose proof (issue_owner n1 _ (new_coder_wf _ _ Hs1 Ht1)) as F1.
  pose proof (issue_owner n2 _ (new_coder_wf _ _ Hs2 Ht2)) as F2.
  rewrite Forall_forall in F1, F2. specialize (F1 id H1). specialize (F2 id H2).
  simpl in *. naive_solver.
Qed.
End coder.

(** A cluster of 6 servers with 20 threads each, as in [core/bind.hpp]'s comment. *)
Definition cluster6 : Config := {|
  global_num_servers := 6; global_num_threads := 20; global_num_proxies := 4;
  global_num_engines := 16; global_use_rdma := true; global_enable_caching := true;
  global_mt_threshold := 8; global_rdma_threshold := 300; global_enable_vattr := false |}.

Lemma qid_lineage_witness :
  Forall (λ id, 0 <= id ∧ @sid_of cluster6 id = 5 ∧ @tid_of cluster6 id = 7)
    (@issue cluster6 3 (@new_coder cluster6 5 7)).
Proof. apply (@qid_lineage cluster6); simpl; lia. Defined.

Lemma qid_disjoint_witness :
  let c := @new_coder cluster6 5 7 in
  227 ∈ @issue cluster6 3 c ∧ 5 = 5 ∧ 7 = 7.
Proof.
  assert (227 ∈ @issue cluster6 3 (@new_coder cluster6 5 7)) as H by (vm_compute; set_solver).
  split; [exact H|].
  apply (@qid_disjoint cluster6) with (n1 := 3%nat) (n2 := 3%nat) (id := 227); simpl;
    (lia || exact H).
Defined.
