(* ===== verification/Keys.v ===== *)
(** [core/gstore.hpp], the key and pointer encodings of the key/value store:
    [ikey_t], [iptr_t], [vertex_t] and the id classes. *)

From S2P Require Import Prelude Types MyMath.

Definition NBITS_DIR : Z := 1.
Definition NBITS_IDX : Z := 17.
Definition NBITS_VID : Z := 64 - NBITS_IDX - NBITS_DIR.

Definition PREDICATE_ID : Z := 0.
Definition TYPE_ID : Z := 1.

(** ids of predicates and types, and ids of normal vertices *)
Definition is_tpid (id : ssid_t) : bool := (1 <? id) && (id <? Z.shiftl 1 NBITS_IDX).
Definition is_vid (id : ssid_t) : bool := Z.shiftl 1 NBITS_IDX <=? id.

(** ** Keys: [vid | pid | dir] in 46, 17 and 1 bits *)

Record ikey_t := IKey { k_vid : Z; k_pid : Z; k_dir : Z }.

#[export] Instance ikey_eq_dec : EqDecision ikey_t.
Proof. solve_decision. Defined.
#[export] Instance ikey_countable : Countable ikey_t.
Proof.
  refine (inj_countable' (λ k, (k_vid k, k_pid k, k_dir k)) (λ '(v, p, d), IKey v p d) _).
  by intros [].
Defined.

(** [ikey_t()] *)
Definition empty_key : ikey_t := IKey 0 0 0.

(** [ikey_t(v, p, d)]: the fields truncate, and a truncation is an error *)
Definition mk_ikey (v p : sid_t) (d : dir_t) : outcome ikey_t :=
  let k := IKey (v mod 2 ^ NBITS_VID) (p mod 2 ^ NBITS_IDX) (dir_val d mod 2 ^ NBITS_DIR) in
  ASSERT ((k_vid k =? v) && (k_dir k =? dir_val d) && (k_pid k =? p));
  Ok k.

(** [operator ==] *)
Definition key_eqb (a b : ikey_t) : bool :=
  (k_vid a =? k_vid b) && (k_pid a =? k_pid b) && (k_dir a =? k_dir b).

Definition is_empty (k : ikey_t) : bool :=
  (k_vid k =? 0) && (k_pid k =? 0) && (k_dir k =? 0).

Definition key_hash (k : ikey_t) : Z :=
  let r := 0 in
  let r := u64 (r + k_vid k) in
  let r := shl64 r NBITS_IDX in
  let r := u64 (r + k_pid k) in
  let r := shl64 r NBITS_DIR in
  let r := u64 (r + k_dir k) in
  hash_u64 r.

(** a key whose fields fit their bit-fields *)
Definition key_wf (k : ikey_t) : Prop :=
  0 <= k_vid k < 2 ^ 46 ∧ 0 <= k_pid k < 2 ^ 17 ∧ 0 <= k_dir k < 2.

Lemma key_eqb_spec a b : reflect (a = b) (key_eqb a b).
Proof.
  apply iff_reflect. unfold key_eqb. rewrite !andb_true_iff, !Z.eqb_eq.
  destruct a, b; simpl. split; [by intros [= -> -> ->]|by intros [[-> ->] ->]].
Qed.

Lemma is_empty_spec k : reflect (k = empty_key) (is_empty k).
Proof.
  apply iff_reflect. unfold is_empty. rewrite !andb_true_iff, !Z.eqb_eq.
  destruct k; simpl. split; [by intros [= -> -> ->]|by intros [[-> ->] ->]].
Qed.

Lemma mk_ikey_Ok v p d k : mk_ikey v p d = Ok k ↔
  k = IKey v p (dir_val d) ∧ key_wf k.
Proof.
  unfold mk_ikey. rewrite bind_Ok. split.
  - intros ([] & H & [= <-]). apply assert_that_Ok in H. simpl in H.
    rewrite !andb_true_iff, !Z.eqb_eq in H. destruct H as [[Hv Hd] Hp].
    rewrite Hv, Hd, Hp. split; [done|]. unfold key_wf. simpl.
    pose proof (Z.mod_pos_bound v (2 ^ NBITS_VID)). pose proof (Z.mod_pos_bound p (2 ^ NBITS_IDX)).
    pose proof (Z.mod_pos_bound (dir_val d) (2 ^ NBITS_DIR)).
    unfold NBITS_VID, NBITS_IDX, NBITS_DIR in *. lia.
  - intros [-> (Hv & Hp & Hd)]. simpl in *. exists tt.
    rewrite !Z.mod_small by (unfold NBITS_VID, NBITS_IDX, NBITS_DIR; lia).
    simpl. by rewrite !Z.eqb_refl.
Qed.

Lemma mk_ikey_ok v p d : 0 <= v < 2 ^ 46 → 0 <= p < 2 ^ 17 → d ≠ CORUN →
  mk_ikey v p d = Ok (IKey v p (dir_val d)).
Proof.
  intros Hv Hp Hd. apply mk_ikey_Ok. split; [done|]. unfold key_wf. simpl.
  destruct d; simpl; try done; lia.
Qed.

(** The packed word that [hash] feeds to [hash_u64]. *)
Definition key_word (k : ikey_t) : Z := (k_vid k * 2 ^ 17 + k_pid k) * 2 + k_dir k.

Lemma key_word_range k : key_wf k → word (key_word k).
Proof. unfold key_wf, word, key_word. lia. Qed.

Lemma key_hash_word k : key_wf k → key_hash k = hash_u64 (key_word k).
Proof.
  intros (Hv & Hp & Hd). unfold key_hash, shl64, NBITS_IDX, NBITS_DIR. f_equal.
  rewrite !Z.shiftl_mul_pow2 by lia. rewrite Z.add_0_l, (u64_id (k_vid k)) by lia.
  rewrite (u64_id (k_vid k * _)), (u64_id (_ + k_pid k)), (u64_id (_ * 2 ^ 1)), u64_id by lia.
  unfold key_word. lia.
Qed.

(** Keys are packed without overlap, so two distinct keys have distinct
    64-bit hashes: collisions only come from the reduction to a bucket. *)
Theorem key_hash_inj a b : key_wf a → key_wf b → key_hash a = key_hash b → a = b.
Proof.
  intros Ha Hb. rewrite !key_hash_word by done.
  intros H%hash_u64_inj; [|by apply key_word_range..].
  destruct a, b, Ha as (? & ? & ?), Hb as (? & ? & ?). unfold key_word in H. simpl in *.
  f_equal; lia.
Qed.

Lemma key_hash_inj_witness :
  key_wf (IKey 131072 7 1) ∧ (key_hash (IKey 131072 7 1) = key_hash (IKey 131072 7 0) → False).
Proof.
  assert (key_wf (IKey 131072 7 1)) as H1 by (unfold key_wf; simpl; lia).
  assert (key_wf (IKey 131072 7 0)) as H0 by (unfold key_wf; simpl; lia).
  split; [done|]. intros H. pose proof (key_hash_inj _ _ H1 H0 H). discriminate.
Defined.

(** ** Pointers: [size | off | type] in 28, 34 and 2 bits *)

Record iptr_t := IPtr { p_size : Z; p_off : Z; p_type : Z }.

#[export] Instance iptr_eq_dec : EqDecision iptr_t.
Proof. solve_decision. Defined.

Definition empty_ptr : iptr_t := IPtr 0 0 0.

(** [iptr_t(s, o, t)] *)
Definition mk_iptr (s o t : Z) : outcome iptr_t :=
  let p := IPtr (s mod 2 ^ 28) (o mod 2 ^ 34) (t mod 2 ^ 2) in
  ASSERT ((p_size p =? s) && (p_off p =? o) && (p_type p =? t));
  Ok p.

Lemma mk_iptr_Ok s o t p : mk_iptr s o t = Ok p ↔
  p = IPtr s o t ∧ 0 <= s < 2 ^ 28 ∧ 0 <= o < 2 ^ 34 ∧ 0 <= t < 4.
Proof.
  unfold mk_iptr. rewrite bind_Ok. split.
  - intros ([] & H & [= <-]). apply assert_that_Ok in H. simpl in H.
    rewrite !andb_true_iff, !Z.eqb_eq in H. destruct H as [[Hs Ho] Ht].
    rewrite Hs, Ho, Ht. split; [done|].
    pose proof (Z.mod_pos_bound s (2 ^ 28)). pose proof (Z.mod_pos_bound o (2 ^ 34)).
    pose proof (Z.mod_pos_bound t (2 ^ 2)). lia.
  - intros (-> & Hs & Ho & Ht). exists tt. rewrite !Z.mod_small by lia.
    simpl. by rewrite !Z.eqb_refl.
Qed.

Record vertex_t := Vertex { v_key : ikey_t; v_ptr : iptr_t }.

#[export] Instance vertex_eq_dec : EqDecision vertex_t.
Proof. solve_decision. Defined.

(** [vertex_t()] *)
Definition empty_vertex : vertex_t := Vertex empty_key empty_ptr.
