(* ===== verification/HashTable.v ===== *)
(** [core/gstore.hpp], the header region of [GStore]: a cluster-chaining hash
    table. A bucket has [ASSOCIATIVITY] slots; the last one holds, in its [vid],
    the number of the next (indirect) bucket of the chain. The table is written
    under the lock of its bucket, so an operation is one atomic step here. *)

From S2P Require Import Prelude Types MyMath Keys.
Local Open Scope nat_scope.

Definition ASSOCIATIVITY : nat := 8.

Record htable := HTable {
  num_slots : nat;         (* 1 bucket = ASSOCIATIVITY slots *)
  num_buckets : nat;       (* main-header region (static) *)
  num_buckets_ext : nat;   (* indirect-header region (dynamic) *)
  last_ext : nat;
  vertices : list vertex_t
}.

Definition set_vertices (h : htable) (vs : list vertex_t) : htable :=
  HTable (num_slots h) (num_buckets h) (num_buckets_ext h) (last_ext h) vs.

(** [vertices[s].key = key] and [vertices[s].ptr = ptr] *)
Definition write_key (vs : list vertex_t) (s : nat) (key : ikey_t) : outcome (list vertex_t) :=
  v ← read vs s; write vs s (Vertex key (v_ptr v)).
Definition write_ptr (vs : list vertex_t) (s : nat) (ptr : iptr_t) : outcome (list vertex_t) :=
  v ← read vs s; write vs s (Vertex (v_key v) ptr).

(** [key.hash() % num_buckets] *)
Definition bucket_of (h : htable) (key : ikey_t) : nat :=
  Z.to_nat (key_hash key mod Z.of_nat (num_buckets h)).

(** The [for (i < ASSOCIATIVITY - 1)] loop of [insert_key] and
    [check_key_exist]: it stops at a slot with the key or at an empty slot. *)
Inductive probe := Hit (slot : nat) | Free (slot : nat) | Full (slot : nat).

Fixpoint scan_bucket (vs : list vertex_t) (key : ikey_t) (slot_id n : nat) : outcome probe :=
  match n with
  | O => Ok (Full slot_id)
  | S n =>
      v ← read vs slot_id;
      if key_eqb (v_key v) key then Ok (Hit slot_id)
      else if is_empty (v_key v) then Ok (Free slot_id)
      else scan_bucket vs key (S slot_id) n
  end.

(** The [while (slot_id < num_slots)] loop of [insert_key]. *)
Fixpoint insert_loop (fuel : nat) (h : htable) (key : ikey_t) (check_dup : bool) (slot_id : nat)
  : outcome (nat * htable) :=
  match fuel with
  | O => Err OutOfFuel
  | S fuel =>
      if slot_id <? num_slots h then
        p ← scan_bucket (vertices h) key slot_id (ASSOCIATIVITY - 1);
        match p with
        | Hit s => if check_dup then Err AssertFail (* conflict *) else Ok (s, h)
        | Free s => (* insert to an empty slot *)
            vs ← write_key (vertices h) s key;
            Ok (s, set_vertices h vs)
        | Full s =>
            v ← read (vertices h) s;
            if negb (is_empty (v_key v)) then
              (* continue and jump to next bucket *)
              insert_loop fuel h key check_dup (Z.to_nat (k_vid (v_key v)) * ASSOCIATIVITY)
            else
              (* allocate and link a new indirect header *)
              ASSERT (last_ext h <? num_buckets_ext h);
              let nb := (Z.of_nat (num_buckets h + last_ext h) mod 2 ^ NBITS_VID)%Z in
              vs ← write_key (vertices h) s (IKey nb (k_pid (v_key v)) (k_dir (v_key v)));
              let slot_id := Z.to_nat nb * ASSOCIATIVITY in
              vs ← write_key vs slot_id key; (* insert to the first slot *)
              Ok (slot_id, HTable (num_slots h) (num_buckets h) (num_buckets_ext h)
                             (S (last_ext h)) vs)
        end
      else Ok (slot_id, h)
  end.

(** The loop visits each bucket at most once. *)
Definition chain_fuel (h : htable) : nat := S (num_buckets h + num_buckets_ext h).

Definition insert_key (h : htable) (key : ikey_t) (check_dup : bool) : outcome (nat * htable) :=
  '(slot_id, h) ← insert_loop (chain_fuel h) h key check_dup (bucket_of h key * ASSOCIATIVITY);
  ASSERT (slot_id <? num_slots h);
  v ← read (vertices h) slot_id;
  ASSERT (key_eqb (v_key v) key);
  Ok (slot_id, h).

(** the data part of a bucket in [get_vertex_local]: it skips empty slots *)
Fixpoint find_in_bucket (vs : list vertex_t) (key : ikey_t) (slot_id n : nat)
  : outcome (option vertex_t) :=
  match n with
  | O => Ok None
  | S n =>
      v ← read vs slot_id;
      if key_eqb (v_key v) key then Ok (Some v) else find_in_bucket vs key (S slot_id) n
  end.

Fixpoint get_vertex_loop (fuel : nat) (h : htable) (key : ikey_t) (bucket_id : nat)
  : outcome vertex_t :=
  match fuel with
  | O => Err OutOfFuel
  | S fuel =>
      r ← find_in_bucket (vertices h) key (bucket_id * ASSOCIATIVITY) (ASSOCIATIVITY - 1);
      match r with
      | Some v => Ok v
      | None =>
          v ← read (vertices h) (bucket_id * ASSOCIATIVITY + (ASSOCIATIVITY - 1));
          if is_empty (v_key v) then Ok empty_vertex (* not found *)
          else get_vertex_loop fuel h key (Z.to_nat (k_vid (v_key v)))
      end
  end.

Definition get_vertex_local (h : htable) (key : ikey_t) : outcome vertex_t :=
  get_vertex_loop (chain_fuel h) h key (bucket_of h key).

Fixpoint exist_loop (fuel : nat) (h : htable) (key : ikey_t) (slot_id : nat) : outcome bool :=
  match fuel with
  | O => Err OutOfFuel
  | S fuel =>
      if slot_id <? num_slots h then
        p ← scan_bucket (vertices h) key slot_id (ASSOCIATIVITY - 1);
        match p with
        | Hit _ => Ok true
        | Free _ => Ok false
        | Full s =>
            v ← read (vertices h) s;
            if negb (is_empty (v_key v)) then
              exist_loop fuel h key (Z.to_nat (k_vid (v_key v)) * ASSOCIATIVITY)
            else Ok false
        end
      else Err Undefined (* flows off the end of the function *)
  end.

Definition check_key_exist (h : htable) (key : ikey_t) : outcome bool :=
  exist_loop (chain_fuel h) h key (bucket_of h key * ASSOCIATIVITY).

(** the header part of [refresh] *)
Definition refresh_header (h : htable) : htable :=
  HTable (num_slots h) (num_buckets h) (num_buckets_ext h) 0
    (replicate (num_slots h) empty_vertex).

(** ** Chains *)

Definition key_at (vs : list vertex_t) (s : nat) : option ikey_t := v_key <$> vs !! s.

(** the data slots of a bucket and of a chain, in probing order *)
Definition data_slots (b : nat) : list nat := seq (b * ASSOCIATIVITY) (ASSOCIATIVITY - 1).
Definition slots_of (l : list nat) : list nat := l ≫= data_slots.
Definition link_slot (b : nat) : nat := b * ASSOCIATIVITY + (ASSOCIATIVITY - 1).

(** [path vs b l]: following the links from bucket [b] visits the buckets [l]. *)
Inductive path (vs : list vertex_t) : nat → list nat → Prop :=
| path_end b : key_at vs (link_slot b) = Some empty_key → path vs b [b]
| path_next b k l :
    key_at vs (link_slot b) = Some k → k ≠ empty_key → path vs (Z.to_nat (k_vid k)) l →
    path vs b (b :: l).

(** A well-formed chain of the main bucket [i]: its data slots hold the distinct
    keys [ks], then only empty slots. *)
Record chain_ok (vs : list vertex_t) (i : nat) (l : list nat) (ks : list ikey_t) : Prop := {
  co_path : path vs i l;
  co_keys : ∃ m, key_at vs <$> slots_of l = Some <$> (ks ++ replicate m empty_key);
  co_nonempty : empty_key ∉ ks;
  co_nodup : NoDup ks
}.

(** The invariant of the table, with its chains [ch] and their keys [ky]. *)
Record ht_ok (h : htable) (ch : list (list nat)) (ky : list (list ikey_t)) : Prop := {
  ok_len : length (vertices h) = num_slots h;
  ok_cap : (num_buckets h + num_buckets_ext h) * ASSOCIATIVITY <= num_slots h;
  ok_ext : last_ext h <= num_buckets_ext h;
  ok_pos : 0 < num_buckets h;
  ok_vid : (Z.of_nat (num_buckets h + num_buckets_ext h) < 2 ^ 46)%Z;
  ok_ch : length ch = num_buckets h;
  ok_ky : length ky = num_buckets h;
  ok_chain i l ks : ch !! i = Some l → ky !! i = Some ks → chain_ok (vertices h) i l ks;
  ok_hash i ks k : ky !! i = Some ks → k ∈ ks → bucket_of h k = i;
  ok_perm : concat ch ≡ₚ seq 0 (num_buckets h + last_ext h);
  ok_free s : (num_buckets h + last_ext h) * ASSOCIATIVITY <= s → s < num_slots h →
    key_at (vertices h) s = Some empty_key
}.

(** Key [k] is stored at slot [s]. *)
Definition located (ch : list (list nat)) (ky : list (list ikey_t)) (k : ikey_t) (s : nat) : Prop :=
  ∃ i l ks j, ch !! i = Some l ∧ ky !! i = Some ks ∧ ks !! j = Some k ∧ slots_of l !! j = Some s.

(** Abstraction: the table represents the finite map [m] from keys to slots. *)
Definition ht_rep (h : htable) (m : gmap ikey_t nat) : Prop :=
  ∃ ch ky, ht_ok h ch ky ∧ ∀ k s, m !! k = Some s ↔ located ch ky k s.

Lemma slots_of_cons b l : slots_of (b :: l) = data_slots b ++ slots_of l.
Proof. done. Qed.
Lemma slots_of_app l1 l2 : slots_of (l1 ++ l2) = slots_of l1 ++ slots_of l2.
Proof. apply bind_app. Qed.

Lemma elem_of_data_slots s b : s ∈ data_slots b ↔ s / ASSOCIATIVITY = b ∧ s ≠ link_slot b.
Proof.
  unfold data_slots, link_slot, ASSOCIATIVITY. rewrite elem_of_seq.
  pose proof (Nat.div_mod_eq s 8). pose proof (Nat.mod_upper_bound s 8). lia.
Qed.

Lemma elem_of_slots_of s l : s ∈ slots_of l ↔ s / ASSOCIATIVITY ∈ l ∧ s ≠ link_slot (s / ASSOCIATIVITY).
Proof.
  unfold slots_of. rewrite list_elem_of_bind. setoid_rewrite elem_of_data_slots.
  split; [intros (b & [<- ?] & ?)|]; naive_solver.
Qed.

Lemma link_slot_div b : link_slot b / ASSOCIATIVITY = b.
Proof.
  unfold link_slot, ASSOCIATIVITY. symmetry. apply (Nat.div_unique _ _ _ 7); lia.
Qed.

Lemma NoDup_slots_of l : NoDup l → NoDup (slots_of l).
Proof.
  intros Hl. induction Hl as [|b l Hb Hl IH]; [constructor|].
  rewrite slots_of_cons. apply NoDup_app. split_and!; [apply NoDup_seq| |done].
  intros s [<- _]%elem_of_data_slots [? _]%elem_of_slots_of. done.
Qed.

(** ** Probing a chain *)

Fixpoint scan_slots (vs : list vertex_t) (key : ikey_t) (sl : list nat) : outcome (option probe) :=
  match sl with
  | [] => Ok None
  | s :: sl =>
      v ← read vs s;
      if key_eqb (v_key v) key then Ok (Some (Hit s))
      else if is_empty (v_key v) then Ok (Some (Free s))
      else scan_slots vs key sl
  end.

Lemma scan_bucket_slots vs key s n sl :
  scan_slots vs key (seq s n ++ sl) =
  p ← scan_bucket vs key s n;
  match p with Full _ => scan_slots vs key sl | _ => Ok (Some p) end.
Proof.
  revert s. induction n as [|n IH]; intros s; simpl; [done|].
  destruct (read vs s) as [v|]; simpl; [|done].
  destruct (key_eqb _ _); simpl; [done|]. destruct (is_empty _); simpl; [done|]. apply IH.
Qed.

Lemma scan_bucket_full vs key s n t : scan_bucket vs key s n = Ok (Full t) → t = s + n.
Proof.
  revert s. induction n as [|n IH]; intros s; simpl; [intros [= ->]; lia|].
  destruct (read vs s) as [v|]; simpl; [|done].
  destruct (key_eqb _ _); simpl; [done|]. destruct (is_empty _); simpl; [done|].
  intros ->%IH. lia.
Qed.

Lemma scan_slots_keys vs key sl ks m :
  key_at vs <$> sl = Some <$> (ks ++ replicate m empty_key) →
  key ≠ empty_key → empty_key ∉ ks → NoDup ks →
  (∀ j, ks !! j = Some key → ∃ s, sl !! j = Some s ∧ scan_slots vs key sl = Ok (Some (Hit s))) ∧
  (key ∉ ks → m = 0 → scan_slots vs key sl = Ok None) ∧
  (key ∉ ks → 0 < m → ∃ s, sl !! length ks = Some s ∧ scan_slots vs key sl = Ok (Some (Free s))).
Proof.
  intros Hsl Hk. revert ks Hsl. induction sl as [|s sl IH]; intros ks Hsl Hne Hnd.
  - destruct ks as [|k ks]; [|done]. destruct m; [|done]. split_and!; [done|done|lia].
  - assert (∃ v, read vs s = Ok v ∧ key_at vs s = Some (v_key v)) as (v & Hv & Hkv).
    { rewrite fmap_cons in Hsl. unfold read. unfold key_at in Hsl at 1 |- *.
      destruct (vs !! s) as [v|]; [by eauto|]. by destruct ks; [destruct m|]. }
    simpl in *. rewrite Hv. simpl. rewrite Hkv in Hsl. destruct ks as [|k ks]; simpl in *.
    + destruct m as [|m]; [done|]. simpl in Hsl. injection Hsl as Hvk Hsl.
      destruct (key_eqb_spec (v_key v) key); [congruence|].
      destruct (is_empty_spec (v_key v)); [|congruence].
      split_and!; [done|done|]. intros _ _. by exists s.
    + injection Hsl as Hvk Hsl. apply NoDup_cons in Hnd as [Hkn Hnd].
      rewrite not_elem_of_cons in Hne. destruct Hne as [Hne0 Hne].
      destruct (key_eqb_spec (v_key v) key) as [Heq|Hneq].
      * subst key. rewrite Hvk. split_and!; [|set_solver..].
        intros [|j] Hj; simpl in *; [by exists s|].
        apply list_elem_of_lookup_2 in Hj. congruence.
      * destruct (is_empty_spec (v_key v)); [congruence|].
        destruct (IH ks Hsl Hne Hnd) as (IH1 & IH2 & IH3). split_and!.
        -- intros [|j] Hj; simpl in *; [congruence|]. by apply IH1.
        -- set_solver.
        -- intros Hn Hm. apply IH3; set_solver.
Qed.

(** the tail of [insert_key]: link a new indirect bucket behind bucket [b] *)
Definition extend_chain (h : htable) (key : ikey_t) (b : nat) : outcome (nat * htable) :=
  ASSERT (last_ext h <? num_buckets_ext h);
  let nb := (Z.of_nat (num_buckets h + last_ext h) mod 2 ^ NBITS_VID)%Z in
  vs ← write_key (vertices h) (link_slot b) (IKey nb 0 0);
  vs ← write_key vs (Z.to_nat nb * ASSOCIATIVITY) key;
  Ok (Z.to_nat nb * ASSOCIATIVITY, HTable (num_slots h) (num_buckets h) (num_buckets_ext h)
                 (S (last_ext h)) vs).

Lemma path_head vs b l : path vs b l → ∃ l', l = b :: l'.
Proof. inversion 1; eauto. Qed.

Lemma last_default {A} (a : A) l d d' : List.last (a :: l) d = List.last (a :: l) d'.
Proof. revert a. induction l as [|x l IH]; intros a; [done|]. apply (IH x). Qed.

Lemma last_elem_of {A} (a : A) l d : List.last (a :: l) d ∈ a :: l.
Proof. revert a. induction l as [|x l IH]; intros a; [set_solver|]. right. apply (IH x). Qed.

Lemma key_at_read vs s k : key_at vs s = Some k → ∃ v, read vs s = Ok v ∧ v_key v = k.
Proof.
  unfold key_at, read. destruct (vs !! s) as [v|]; simpl; [|done]. intros [= <-]. eauto.
Qed.

(** The loop of [insert_key] probes the data slots of the whole chain in order. *)
Lemma insert_loop_path fuel h key cd b l :
  path (vertices h) b l → length l <= fuel →
  Forall (λ b, (b + 1) * ASSOCIATIVITY <= num_slots h) l →
  insert_loop fuel h key cd (b * ASSOCIATIVITY) =
  r ← scan_slots (vertices h) key (slots_of l);
  match r with
  | Some (Hit s) => if cd then Err AssertFail else Ok (s, h)
  | Some (Free s) => vs ← write_key (vertices h) s key; Ok (s, set_vertices h vs)
  | _ => extend_chain h key (List.last l b)
  end.
Proof.
  intros Hp. revert fuel. induction Hp as [b Hl|b k l Hl Hk Hp IH]; intros fuel Hf Hb;
    (destruct fuel as [|fuel]; [simpl in Hf; lia|]); simpl in Hf;
    rewrite slots_of_cons; unfold data_slots; rewrite scan_bucket_slots;
    cbn [insert_loop]; apply Forall_cons_iff in Hb as [Hb0 Hb];
    (rewrite (proj2 (Nat.ltb_lt _ _)) by (unfold ASSOCIATIVITY in *; lia));
    (destruct (scan_bucket _ _ _ _) as [[s|s|s]|] eqn:E; [done|done| |done]);
    apply scan_bucket_full in E as ->; cbn [mbind outcome_bind];
    apply key_at_read in Hl as (v & Hv & Hvk); fold (link_slot b); rewrite Hv; cbn [mbind outcome_bind].
  - destruct (is_empty_spec (v_key v)) as [E'|]; [|congruence]. simpl. by rewrite E'.
  - destruct (is_empty_spec (v_key v)) as [E'|]; [congruence|]. rewrite Hvk. cbn [negb].
    rewrite IH by (done || lia). destruct (path_head _ _ _ Hp) as [l' ->].
    by rewrite (last_default _ _ (Z.to_nat (k_vid k)) b).
Qed.

Lemma exist_loop_path fuel h key b l :
  path (vertices h) b l → length l <= fuel →
  Forall (λ b, (b + 1) * ASSOCIATIVITY <= num_slots h) l →
  exist_loop fuel h key (b * ASSOCIATIVITY) =
  r ← scan_slots (vertices h) key (slots_of l);
  Ok (match r with Some (Hit _) => true | _ => false end).
Proof.
  intros Hp. revert fuel. induction Hp as [b Hl|b k l Hl Hk Hp IH]; intros fuel Hf Hb;
    (destruct fuel as [|fuel]; [simpl in Hf; lia|]); simpl in Hf;
    rewrite slots_of_cons; unfold data_slots; rewrite scan_bucket_slots;
    cbn [exist_loop]; apply Forall_cons_iff in Hb as [Hb0 Hb];
    (rewrite (proj2 (Nat.ltb_lt _ _)) by (unfold ASSOCIATIVITY in *; lia));
    (destruct (scan_bucket _ _ _ _) as [[s|s|s]|] eqn:E; [done|done| |done]);
    apply scan_bucket_full in E as ->; cbn [mbind outcome_bind];
    apply key_at_read in Hl as (v & Hv & Hvk); fold (link_slot b); rewrite Hv; cbn [mbind outcome_bind].
  - by destruct (is_empty_spec (v_key v)) as [E'|]; [|congruence].
  - destruct (is_empty_spec (v_key v)) as [E'|]; [congruence|]. rewrite Hvk. cbn [negb].
    by rewrite IH by (done || lia).
Qed.

(** The first slot of a list that holds [key]. *)
Fixpoint find_slots (vs : list vertex_t) (key : ikey_t) (sl : list nat) : outcome (option vertex_t) :=
  match sl with
  | [] => Ok None
  | s :: sl => v ← read vs s; if key_eqb (v_key v) key then Ok (Some v) else find_slots vs key sl
  end.

Lemma find_in_bucket_slots vs key s n sl :
  find_slots vs key (seq s n ++ sl) =
  r ← find_in_bucket vs key s n;
  match r with None => find_slots vs key sl | _ => Ok r end.
Proof.
  revert s. induction n as [|n IH]; intros s; simpl; [done|].
  destruct (read vs s) as [v|]; simpl; [|done]. destruct (key_eqb _ _); simpl; [done|]. apply IH.
Qed.

Lemma get_vertex_loop_path fuel h key b l :
  path (vertices h) b l → length l <= fuel →
  get_vertex_loop fuel h key b =
  r ← find_slots (vertices h) key (slots_of l);
  Ok (default empty_vertex r).
Proof.
  intros Hp. revert fuel. induction Hp as [b Hl|b k l Hl Hk Hp IH]; intros fuel Hf;
    (destruct fuel as [|fuel]; [simpl in Hf; lia|]); simpl in Hf;
    rewrite slots_of_cons; unfold data_slots; rewrite find_in_bucket_slots;
    cbn [get_vertex_loop];
    (destruct (find_in_bucket _ _ _ _) as [[v|]|] eqn:E; [done| |done]); cbn [mbind outcome_bind];
    apply key_at_read in Hl as (v & Hv & Hvk); fold (link_slot b); rewrite Hv; cbn [mbind outcome_bind].
  - by destruct (is_empty_spec (v_key v)) as [E'|]; [|congruence].
  - destruct (is_empty_spec (v_key v)) as [E'|]; [congruence|]. rewrite Hvk.
    by rewrite IH by lia.
Qed.

Lemma find_slots_keys vs key sl ks m :
  key_at vs <$> sl = Some <$> (ks ++ replicate m empty_key) → key ≠ empty_key → NoDup ks →
  (∀ j, ks !! j = Some key →
     ∃ s v, sl !! j = Some s ∧ vs !! s = Some v ∧ find_slots vs key sl = Ok (Some v)) ∧
  (key ∉ ks → find_slots vs key sl = Ok None).
Proof.
  intros Hsl Hk. revert ks m Hsl. induction sl as [|s sl IH]; intros ks m Hsl Hnd.
  - by destruct ks as [|k ks]; [|done].
  - rewrite fmap_cons in Hsl.
    assert (∃ k ks' m', ks ++ replicate m empty_key = k :: (ks' ++ replicate m' empty_key) ∧
       ((ks = k :: ks' ∧ (k ∉ ks') ∧ NoDup ks') ∨ (ks = [] ∧ k = empty_key ∧ ks' = [])))
      as (k & ks' & m' & E & Hcase).
    { destruct ks as [|k ks]; [destruct m as [|m]; [done|]|].
      - exists empty_key, [], m. naive_solver.
      - apply NoDup_cons in Hnd as [? ?]. exists k, ks, m. naive_solver. }
    rewrite E in Hsl. rewrite fmap_cons in Hsl. injection Hsl as Hs Hsl.
    apply key_at_read in Hs as (v & Hv & Hvk). apply read_Ok in Hv as Hv'. simpl.
    rewrite Hv. simpl. rewrite Hvk. destruct Hcase as [(-> & Hkn & Hnd')|(-> & -> & ->)].
    + destruct (IH ks' m' Hsl Hnd') as [IH1 IH2].
      destruct (key_eqb_spec k key) as [->|]; split.
      * intros [|j] Hj; simpl in *; [by exists s, v|]. apply list_elem_of_lookup_2 in Hj. done.
      * set_solver.
      * intros [|j] Hj; simpl in *; [congruence|]. by apply IH1.
      * set_solver.
    + destruct (key_eqb_spec empty_key key) as [?|_]; [congruence|].
      destruct (IH [] m' Hsl ltac:(constructor)) as [_ IH2]. split; [done|]. intros _. apply IH2. set_solver.
Qed.

(** ** Consequences of the invariant *)

Lemma elem_of_concat_lookup {A} (L : list (list A)) i l x :
  L !! i = Some l → x ∈ l → x ∈ concat L.
Proof.
  intros Hi Hx. apply list_elem_of_lookup_2, list_elem_of_split in Hi as (L1 & L2 & ->).
  rewrite concat_app. simpl. set_solver.
Qed.

Lemma NoDup_concat_lookup {A} (L : list (list A)) i l :
  NoDup (concat L) → L !! i = Some l → NoDup l.
Proof.
  intros HL Hi. apply list_elem_of_lookup_2, list_elem_of_split in Hi as (L1 & L2 & ->).
  rewrite concat_app in HL. simpl in HL. rewrite !NoDup_app in HL. naive_solver.
Qed.

Lemma NoDup_concat_disjoint {A} (L : list (list A)) i j l l' x :
  NoDup (concat L) → L !! i = Some l → L !! j = Some l' → x ∈ l → x ∈ l' → i = j.
Proof.
  revert i j. induction L as [|a L IH]; intros i j HL Hi Hj Hx Hx'; [done|].
  simpl in HL. apply NoDup_app in HL as (_ & Hd & HL).
  destruct i as [|i], j as [|j]; simplify_eq/=; [done|..].
  - destruct (Hd x Hx). by eapply elem_of_concat_lookup.
  - destruct (Hd x Hx'). by eapply elem_of_concat_lookup.
  - f_equal. by eapply IH.
Qed.

Lemma concat_insert_app {A} (L : list (list A)) i l l2 :
  L !! i = Some l → concat (<[i := l ++ l2]> L) ≡ₚ concat L ++ l2.
Proof.
  revert i. induction L as [|a L IH]; intros i Hi; [done|]. destruct i as [|i]; simplify_eq/=.
  - rewrite <-!app_assoc. by rewrite (Permutation_app_comm l2).
  - by rewrite IH, app_assoc by done.
Qed.

Lemma ok_nodup h ch ky : ht_ok h ch ky → NoDup (concat ch).
Proof. intros H. rewrite (ok_perm _ _ _ H). apply NoDup_seq. Qed.

Lemma ok_bucket_range h ch ky i l b :
  ht_ok h ch ky → ch !! i = Some l → b ∈ l → b < num_buckets h + last_ext h.
Proof.
  intros H Hi Hb. apply (elem_of_concat_lookup _ _ _ _ Hi) in Hb.
  rewrite (ok_perm _ _ _ H), elem_of_seq in Hb. lia.
Qed.

Lemma ok_in_range h ch ky i l :
  ht_ok h ch ky → ch !! i = Some l → Forall (λ b, (b + 1) * ASSOCIATIVITY <= num_slots h) l.
Proof.
  intros H Hi. apply Forall_forall. intros b Hb.
  pose proof (ok_bucket_range _ _ _ _ _ _ H Hi Hb). destruct H. unfold ASSOCIATIVITY in *. lia.
Qed.

Lemma ok_chain_length h ch ky i l :
  ht_ok h ch ky → ch !! i = Some l → length l <= chain_fuel h.
Proof.
  intros H Hi. assert (length l <= length (concat ch)) as Hl.
  { apply list_elem_of_lookup_2, list_elem_of_split in Hi as (L1 & L2 & ->).
    rewrite concat_app. simpl. solve_len. }
  rewrite (ok_perm _ _ _ H), length_seq in Hl. pose proof (ok_ext _ _ _ H).
  unfold chain_fuel. lia.
Qed.

Lemma bucket_of_range h key : 0 < num_buckets h → bucket_of h key < num_buckets h.
Proof.
  intros. unfold bucket_of. pose proof (Z.mod_pos_bound (key_hash key) (Z.of_nat (num_buckets h))). lia.
Qed.

Lemma bucket_of_proper h h' key :
  num_buckets h = num_buckets h' → bucket_of h key = bucket_of h' key.
Proof. unfold bucket_of. by intros ->. Qed.

#[local] Opaque bucket_of.

(** the chain of a key *)
Lemma ok_home h ch ky key :
  ht_ok h ch ky → ∃ l ks, ch !! bucket_of h key = Some l ∧ ky !! bucket_of h key = Some ks ∧
    chain_ok (vertices h) (bucket_of h key) l ks.
Proof.
  intros H. pose proof (bucket_of_range h key (ok_pos _ _ _ H)).
  destruct (lookup_lt_is_Some_2 ch (bucket_of h key)) as [l Hl]; [by rewrite (ok_ch _ _ _ H)|].
  destruct (lookup_lt_is_Some_2 ky (bucket_of h key)) as [ks Hks]; [by rewrite (ok_ky _ _ _ H)|].
  exists l, ks. split_and!; [done..|]. by apply (ok_chain _ _ _ H).
Qed.

(** Every key is located through its home chain only. *)
Lemma located_home h ch ky key s :
  ht_ok h ch ky → located ch ky key s →
  ∃ l ks j, ch !! bucket_of h key = Some l ∧ ky !! bucket_of h key = Some ks ∧
            ks !! j = Some key ∧ slots_of l !! j = Some s.
Proof.
  intros H (i & l & ks & j & Hch & Hky & Hj & Hs).
  assert (bucket_of h key = i) as ->; [|by eauto 10].
  eapply (ok_hash _ _ _ H); [done|]. by eapply list_elem_of_lookup_2.
Qed.

Lemma located_nonempty h ch ky key s : ht_ok h ch ky → located ch ky key s → key ≠ empty_key.
Proof.
  intros H (i & l & ks & j & Hch & Hky & Hj & Hs) ->.
  destruct (ok_chain _ _ _ H _ _ _ Hch Hky) as [_ _ Hne _]. by apply Hne, (list_elem_of_lookup_2 _ j).
Qed.

Lemma located_key h ch ky key s : ht_ok h ch ky → located ch ky key s →
  key_at (vertices h) s = Some key.
Proof.
  intros H (i & l & ks & j & Hch & Hky & Hj & Hs).
  destruct (ok_chain _ _ _ H _ _ _ Hch Hky) as [_ [m Hm] _ _].
  assert ((key_at (vertices h) <$> slots_of l) !! j = Some (Some key)) as E.
  { rewrite Hm, list_lookup_fmap, lookup_app_l by (by eapply lookup_lt_Some). by rewrite Hj. }
  by rewrite list_lookup_fmap, Hs in E; simplify_eq/=.
Qed.

(** A key is found in its home chain or nowhere. *)
Lemma home_cases h (m : gmap ikey_t nat) ch ky key :
  ht_ok h ch ky → (∀ k s, m !! k = Some s ↔ located ch ky k s) →
  ∃ l ks, ch !! bucket_of h key = Some l ∧ ky !! bucket_of h key = Some ks ∧
    chain_ok (vertices h) (bucket_of h key) l ks ∧
    ((∃ j s, ks !! j = Some key ∧ slots_of l !! j = Some s ∧ m !! key = Some s) ∨
     ((key ∉ ks) ∧ m !! key = None)).
Proof.
  intros H Hm. destruct (ok_home h ch ky key H) as (l & ks & Hl & Hks & Hc).
  exists l, ks. split_and!; [done..|]. destruct (decide (key ∈ ks)) as [Hin|Hin].
  - left. apply list_elem_of_lookup in Hin as [j Hj].
    destruct (slots_of l !! j) as [s|] eqn:Hs.
    + exists j, s. split_and!; [done..|]. apply Hm. by exists (bucket_of h key), l, ks, j.
    + destruct Hc as [_ [n Hn] _ _]. apply (f_equal length) in Hn.
      rewrite !length_fmap, length_app in Hn.
      apply lookup_ge_None in Hs. apply lookup_lt_Some in Hj. lia.
  - right. split; [done|]. apply eq_None_not_Some. intros [s Hs].
    apply Hm, (located_home h) in Hs as (l' & ks' & j & Hl' & Hks' & Hj & _); [|done].
    simplify_eq. by apply Hin, (list_elem_of_lookup_2 _ j).
Qed.

Lemma ht_rep_nonempty h m key s : ht_rep h m → m !! key = Some s → key ≠ empty_key.
Proof. intros (ch & ky & H & Hm) Hk%Hm. by eapply located_nonempty. Qed.

Lemma ht_rep_slot h m key s : ht_rep h m → m !! key = Some s →
  ∃ v, vertices h !! s = Some v ∧ v_key v = key.
Proof.
  intros (ch & ky & H & Hm) Hk%Hm. apply (located_key _ _ _ _ _ H) in Hk.
  apply key_at_read in Hk as (v & Hv & <-). apply read_Ok in Hv. eauto.
Qed.

(** Two keys never share a slot. *)
Lemma ht_rep_inj h m k1 k2 s : ht_rep h m → m !! k1 = Some s → m !! k2 = Some s → k1 = k2.
Proof.
  intros H H1 H2. destruct (ht_rep_slot _ _ _ _ H H1) as (v & Hv & <-).
  destruct (ht_rep_slot _ _ _ _ H H2) as (v' & Hv' & <-). congruence.
Qed.

(** ** Lookup *)

Lemma get_vertex_local_lookup h m key :
  ht_rep h m → key ≠ empty_key →
  match m !! key with
  | Some s => ∃ v, vertices h !! s = Some v ∧ v_key v = key ∧ get_vertex_local h key = Ok v
  | None => get_vertex_local h key = Ok empty_vertex
  end.
Proof.
  intros Hrep Hne. destruct (Hrep) as (ch & ky & H & Hm).
  destruct (home_cases h m ch ky key H Hm) as (l & ks & Hl & Hks & [Hp [n Hn] He Hnd] & Hc).
  unfold get_vertex_local. rewrite (get_vertex_loop_path _ _ _ _ l); [|done|by eapply ok_chain_length].
  destruct (find_slots_keys _ key _ _ _ Hn Hne Hnd) as [Hfound Hnone].
  destruct Hc as [(j & s & Hj & Hs & Hmk)|[Hin Hmk]]; rewrite Hmk.
  - destruct (ht_rep_slot _ _ _ _ Hrep Hmk) as (v & Hv & Hvk).
    destruct (Hfound j Hj) as (s' & v' & Hs' & Hv' & ->). simplify_eq. by exists v.
  - by rewrite (Hnone Hin).
Qed.

Lemma check_key_exist_lookup h m key :
  ht_rep h m → key ≠ empty_key → check_key_exist h key = Ok (bool_decide (is_Some (m !! key))).
Proof.
  intros (ch & ky & H & Hm) Hne.
  destruct (home_cases h m ch ky key H Hm) as (l & ks & Hl & Hks & [Hp [n Hn] He Hnd] & Hc).
  unfold check_key_exist. rewrite (exist_loop_path _ _ _ _ l);
    [|done|by eapply ok_chain_length|by eapply ok_in_range].
  destruct (scan_slots_keys _ key _ _ _ Hn Hne He Hnd) as (Hhit & Hfull & Hfree).
  destruct Hc as [(j & s & Hj & Hs & Hmk)|[Hin Hmk]]; rewrite Hmk.
  - by destruct (Hhit j Hj) as (s' & _ & ->).
  - destruct n as [|n]; [by rewrite Hfull|]. destruct (Hfree Hin) as (s' & _ & ->); [lia|done].
Qed.

(** ** Frame lemmas *)

Definition ptr_at (vs : list vertex_t) (s : nat) : option iptr_t := v_ptr <$> vs !! s.

Lemma write_key_total vs s k :
  s < length vs → ∃ vs', write_key vs s k = Ok vs' ∧ length vs' = length vs ∧
    (∀ t, key_at vs' t = if decide (t = s) then Some k else key_at vs t) ∧
    (∀ t, ptr_at vs' t = ptr_at vs t).
Proof.
  intros Hs. destruct (lookup_lt_is_Some_2 _ _ Hs) as [v Hv].
  unfold write_key, read, write. rewrite Hv. simpl. rewrite bool_decide_true by done.
  eexists. split_and!; [done|by rewrite length_insert|..]; intros t; unfold key_at, ptr_at;
    (destruct (decide (t = s)) as [->|]; [rewrite list_lookup_insert_eq by done|
       by rewrite list_lookup_insert_ne]); [done|by rewrite Hv].
Qed.

Lemma path_frame vs vs' b l :
  path vs b l → (∀ b', b' ∈ l → key_at vs' (link_slot b') = key_at vs (link_slot b')) → path vs' b l.
Proof.
  intros Hp. induction Hp as [b Hb|b k l Hb Hk Hp IH]; intros Hf.
  - apply path_end. rewrite Hf; set_solver.
  - eapply path_next; [by rewrite Hf by set_solver|done|]. apply IH. set_solver.
Qed.

Lemma chain_ok_frame vs vs' i l ks :
  chain_ok vs i l ks → (∀ s, s / ASSOCIATIVITY ∈ l → key_at vs' s = key_at vs s) →
  chain_ok vs' i l ks.
Proof.
  intros [Hp [n Hn] He Hnd] Hf. split; [| |done..].
  - apply (path_frame _ _ _ _ Hp). intros b Hb. apply Hf. by rewrite link_slot_div.
  - exists n. rewrite <-Hn. apply list_fmap_ext. intros j s Hs. apply Hf.
    apply list_elem_of_lookup_2, elem_of_slots_of in Hs. tauto.
Qed.

Lemma path_snoc vs vs' b l nb k :
  path vs b l → NoDup l →
  (∀ b', b' ∈ l → b' ≠ List.last l b → key_at vs' (link_slot b') = key_at vs (link_slot b')) →
  key_at vs' (link_slot (List.last l b)) = Some k → k ≠ empty_key → Z.to_nat (k_vid k) = nb →
  key_at vs' (link_slot nb) = Some empty_key → path vs' b (l ++ [nb]).
Proof.
  intros Hp. induction Hp as [b Hb|b k' l Hb Hk' Hp IH]; intros Hnd Hf Hl Hk Hv Hnb; simpl in *.
  - eapply path_next; [done..|]. rewrite Hv. by apply path_end.
  - destruct (path_head _ _ _ Hp) as [l' ->]. apply NoDup_cons in Hnd as [Hbl Hnd].
    rewrite (last_default _ _ b (Z.to_nat (k_vid k'))) in Hf, Hl.
    eapply path_next; [|exact Hk'|apply IH; [done| |done..]].
    + rewrite Hf; [done|set_solver|]. intros E. apply Hbl. rewrite E. apply last_elem_of.
    + intros b' Hb' Hne. apply Hf; [set_solver|done].
Qed.

(** ** Insertion *)

Lemma fmap_update_nodup {A B} (f f' : A → B) x sl j s :
  NoDup sl → sl !! j = Some s → (∀ t, t ≠ s → f' t = f t) → f' s = x →
  f' <$> sl = <[j := x]> (f <$> sl).
Proof.
  intros Hnd Hj Hf Hx. apply list_eq. intros i. destruct (decide (i = j)) as [->|Hij].
  - rewrite list_lookup_insert_eq by (rewrite length_fmap; by eapply lookup_lt_Some).
    by rewrite list_lookup_fmap, Hj, <-Hx.
  - rewrite list_lookup_insert_ne, !list_lookup_fmap by done.
    destruct (sl !! i) as [t|] eqn:Ht; simpl; [|done]. rewrite Hf; [done|].
    intros ->. apply Hij. by eapply NoDup_lookup.
Qed.

(** Storing a new key behind the keys of its chain. *)
Lemma located_insert ch ky i l l2 ks key s k t :
  ch !! i = Some l → ky !! i = Some ks → key ∉ ks → length ks <= length (slots_of l) →
  slots_of (l ++ l2) !! length ks = Some s →
  located (<[i := l ++ l2]> ch) (<[i := ks ++ [key]]> ky) k t ↔
  k = key ∧ t = s ∨ located ch ky k t.
Proof.
  intros Hl Hks Hin Hlen Hs.
  assert (i < length ch) by by eapply lookup_lt_Some.
  assert (i < length ky) by by eapply lookup_lt_Some. split.
  - intros (i' & l' & ks' & j & Hl' & Hks' & Hj & Ht). destruct (decide (i' = i)) as [->|].
    + rewrite list_lookup_insert_eq in Hl' by done. rewrite list_lookup_insert_eq in Hks' by done. simplify_eq.
      apply lookup_app_Some in Hj as [Hj|[Hj Hk]].
      * right. exists i, l, ks, j. split_and!; [done..|].
        rewrite slots_of_app, lookup_app_l in Ht; [done|].
        apply lookup_lt_Some in Hj. lia.
      * apply list_lookup_singleton_Some in Hk as [? ->]. replace j with (length ks) in Ht by lia.
        left. by simplify_eq.
    + rewrite list_lookup_insert_ne in Hl' by done. rewrite list_lookup_insert_ne in Hks' by done. right. by exists i', l', ks', j.
  - intros [[-> ->]|(i' & l' & ks' & j & Hl' & Hks' & Hj & Ht)].
    + exists i, (l ++ l2), (ks ++ [key]), (length ks). rewrite !list_lookup_insert_eq by done.
      split_and!; [done..| |done]. by rewrite lookup_app_r, Nat.sub_diag by lia.
    + destruct (decide (i' = i)) as [->|].
      * simplify_eq. exists i, (l ++ l2), (ks ++ [key]), j. rewrite !list_lookup_insert_eq by done.
        split_and!; [done..| |]; [by apply lookup_app_l_Some|].
        rewrite slots_of_app. by apply lookup_app_l_Some.
      * exists i', l', ks', j. rewrite !list_lookup_insert_ne by done. done.
Qed.

Lemma chain_ok_fill vs vs' i l ks n key s :
  chain_ok vs i l ks → NoDup l → key_at vs <$> slots_of l = Some <$> (ks ++ replicate (S n) empty_key) →
  slots_of l !! length ks = Some s → key ∉ ks → key ≠ empty_key →
  (∀ t, key_at vs' t = if decide (t = s) then Some key else key_at vs t) →
  chain_ok vs' i l (ks ++ [key]).
Proof.
  intros [Hp _ He Hnd] Hndl Hn Hs Hin Hne Hvs'. split.
  - apply (path_frame _ _ _ _ Hp). intros b _. rewrite Hvs'.
    destruct (decide (link_slot b = s)) as [<-|]; [|done].
    apply list_elem_of_lookup_2, elem_of_slots_of in Hs as [_ []]. by rewrite link_slot_div.
  - exists n. rewrite (fmap_update_nodup (key_at vs) _ (Some key) _ (length ks) s);
      [|by apply NoDup_slots_of|done|intros t ?; by rewrite Hvs', decide_False|
        by rewrite Hvs', decide_True].
    rewrite Hn, !fmap_app. simpl. rewrite <-(length_fmap Some ks) at 1.
    rewrite insert_app_r_alt, Nat.sub_diag by lia. simpl. by rewrite <-app_assoc.
  - set_solver.
  - apply NoDup_app. split_and!; [done|set_solver|apply NoDup_singleton].
Qed.

(** An insertion that changes only the chain of [key], extended by [d] new
    buckets, preserves the invariant. *)
Lemma ht_ok_update h ch ky key l ks d vs' :
  let i := bucket_of h key in
  let l' := l ++ seq (num_buckets h + last_ext h) d in
  ht_ok h ch ky → ch !! i = Some l → ky !! i = Some ks →
  last_ext h + d <= num_buckets_ext h → chain_ok vs' i l' (ks ++ [key]) →
  length vs' = length (vertices h) →
  (∀ s, s / ASSOCIATIVITY ∉ l' → key_at vs' s = key_at (vertices h) s) →
  ht_ok (HTable (num_slots h) (num_buckets h) (num_buckets_ext h) (last_ext h + d) vs')
    (<[i := l']> ch) (<[i := ks ++ [key]]> ky).
Proof.
  intros i l' H Hl Hks Hd Hc Hlen Hf.
  assert (i < length ch) by by eapply lookup_lt_Some.
  assert (i < length ky) by by eapply lookup_lt_Some.
  pose proof H as [? ? ? ? ? ? ? Hch Hh Hp Hfree]. split; cbn [num_slots num_buckets num_buckets_ext last_ext vertices];
    [congruence|assumption..| | | | | |]; rewrite ?length_insert; try assumption.
  - intros i' l1 ks1 Hl1 Hks1. destruct (decide (i' = i)) as [->|].
    + rewrite list_lookup_insert_eq in Hl1 by done. rewrite list_lookup_insert_eq in Hks1 by done.
      by simplify_eq.
    + rewrite list_lookup_insert_ne in Hl1 by done. rewrite list_lookup_insert_ne in Hks1 by done.
      apply (chain_ok_frame (vertices h)); [by apply Hch|]. intros s Hs. apply Hf. unfold l'.
      rewrite elem_of_app, elem_of_seq. intros [Hs'|Hs'].
      * eapply (NoDup_concat_disjoint ch i i') in Hs; [by subst|by eapply ok_nodup|done..].
      * eapply ok_bucket_range in Hs; [|done..]. lia.
  - intros i' ks1 k Hks1 Hk. rewrite (bucket_of_proper _ h) by reflexivity. destruct (decide (i' = i)) as [->|].
    + rewrite list_lookup_insert_eq in Hks1 by done. simplify_eq.
      apply elem_of_app in Hk as [?|?%list_elem_of_singleton]; [by eapply Hh|by subst].
    + rewrite list_lookup_insert_ne in Hks1 by done. by eapply Hh.
  - unfold l'. rewrite concat_insert_app by done.
    by rewrite Hp, Nat.add_assoc, (seq_app _ d).
  - intros s Hs Hs'. rewrite Hf; [apply Hfree; [|done]|].
    + unfold ASSOCIATIVITY in *. lia.
    + unfold l'. rewrite elem_of_app, elem_of_seq.
      assert (num_buckets h + last_ext h + d <= s / ASSOCIATIVITY).
      { apply Nat.div_le_lower_bound; [done|]. unfold ASSOCIATIVITY in *. lia. }
      intros [Hb|?]; [|lia]. eapply ok_bucket_range in Hb; [|done..]. lia.
Qed.

(** The result of inserting a new key at slot [s]. *)
Record insert_post (h : htable) (m : gmap ikey_t nat) (key : ikey_t) (s : nat) (h' : htable) : Prop := {
  ip_rep : ht_rep h' (<[key := s]> m);
  ip_size : num_slots h' = num_slots h;
  ip_main : num_buckets h' = num_buckets h;
  ip_ext : num_buckets_ext h' = num_buckets_ext h;
  ip_last : last_ext h <= last_ext h' <= S (last_ext h);
  ip_ptr t : ptr_at (vertices h') t = ptr_at (vertices h) t
}.

Lemma insert_post_intro h ch ky m key l ks d vs' s :
  let i := bucket_of h key in
  let l' := l ++ seq (num_buckets h + last_ext h) d in
  let h' := HTable (num_slots h) (num_buckets h) (num_buckets_ext h) (last_ext h + d) vs' in
  ht_ok h ch ky → (∀ k s, m !! k = Some s ↔ located ch ky k s) →
  ch !! i = Some l → ky !! i = Some ks → key ∉ ks → m !! key = None →
  length ks <= length (slots_of l) → slots_of l' !! length ks = Some s → d <= 1 →
  ht_ok h' (<[i := l']> ch) (<[i := ks ++ [key]]> ky) →
  (∀ t, ptr_at vs' t = ptr_at (vertices h) t) → insert_post h m key s h'.
Proof.
  intros i l' h' H Hm Hl Hks Hin Hmk Hlen Hs Hd H' Hptr. split; [|reflexivity..|simpl; lia|done].
  exists (<[i := l']> ch), (<[i := ks ++ [key]]> ky). split; [done|].
  intros k t. unfold l'. rewrite (located_insert ch ky i l _ ks key s) by done.
  rewrite <-Hm, lookup_insert_Some. split; [naive_solver|].
  intros [[-> ->]|Hk]; [by left|]. right. split; [|done]. intros ->. congruence.
Qed.

(** Linking bucket [nb] behind a full chain and storing [key] in its first slot. *)
Lemma chain_ok_extend vs vs' i l ks key nb :
  chain_ok vs i l ks → NoDup l → nb ∉ l → 0 < nb →
  key_at vs <$> slots_of l = Some <$> ks → key ∉ ks → key ≠ empty_key →
  (∀ t, t / ASSOCIATIVITY = nb → key_at vs t = Some empty_key) →
  (∀ t, key_at vs' t = if decide (t = nb * ASSOCIATIVITY) then Some key
        else if decide (t = link_slot (List.last l i)) then Some (IKey (Z.of_nat nb) 0 0)
        else key_at vs t) →
  chain_ok vs' i (l ++ [nb]) (ks ++ [key]).
Proof.
  intros [Hp _ He Hnd] Hndl Hnb Hpos Hks Hin Hne Hfree Hvs'.
  assert (Hlink : ∀ b, link_slot b ≠ nb * ASSOCIATIVITY) by (unfold link_slot, ASSOCIATIVITY; lia).
  assert (Hdiv : nb * ASSOCIATIVITY / ASSOCIATIVITY = nb) by by apply Nat.div_mul.
  assert (Hlast : List.last l i ∈ l).
  { destruct (path_head _ _ _ Hp) as [l' ->]. apply last_elem_of. }
  split.
  - apply (path_snoc vs _ _ _ _ (IKey (Z.of_nat nb) 0 0)); [done..| | |intros [=]; lia|apply Nat2Z.id|].
    + intros b Hb Hbl. rewrite Hvs', !decide_False; [done| |by apply Hlink].
      intros E. apply Hbl. by rewrite <-(link_slot_div b), E, link_slot_div.
    + by rewrite Hvs', decide_False, decide_True by done.
    + rewrite Hvs', !decide_False; [apply Hfree, link_slot_div| |by apply Hlink].
      intros E. apply (f_equal (λ x, x / ASSOCIATIVITY)) in E. rewrite !link_slot_div in E. by subst.
  - exists 6. rewrite slots_of_app, !fmap_app, <-app_assoc. f_equal.
    + rewrite <-Hks. apply list_fmap_ext. intros j t Ht.
      apply list_elem_of_lookup_2, elem_of_slots_of in Ht as [Ht Hlk].
      rewrite Hvs', !decide_False; [done|intros ->; by rewrite link_slot_div in Hlk|].
      intros ->. by rewrite Hdiv in Ht.
    + assert (Ht : ∀ t, nb * ASSOCIATIVITY < t < link_slot nb → key_at vs' t = Some empty_key).
      { intros t Ht. unfold link_slot, ASSOCIATIVITY in Ht.
        assert (t / ASSOCIATIVITY = nb) as E.
        { symmetry. apply (Nat.div_unique _ _ _ (t - nb * 8)); unfold ASSOCIATIVITY; lia. }
        rewrite Hvs', !decide_False; [by apply Hfree| |unfold ASSOCIATIVITY; lia].
        intros ->. rewrite link_slot_div in E. by subst. }
      unfold slots_of. simpl. rewrite Hvs', decide_True by done.
      by rewrite !Ht by (unfold link_slot, ASSOCIATIVITY; lia).
  - set_solver.
  - apply NoDup_app. split_and!; [done|set_solver|apply NoDup_singleton].
Qed.

Lemma slots_of_range h ch ky i l s :
  ht_ok h ch ky → ch !! i = Some l → s / ASSOCIATIVITY ∈ l → s < num_slots h.
Proof.
  intros H Hl Hs. pose proof (ok_in_range _ _ _ _ _ H Hl) as Hr.
  rewrite Forall_forall in Hr. specialize (Hr _ Hs). cbv beta in Hr.
  pose proof (Nat.div_mod_eq s ASSOCIATIVITY). pose proof (Nat.mod_upper_bound s ASSOCIATIVITY).
  change ASSOCIATIVITY with 8 in *. lia.
Qed.

(** The two ways [insert_key] stores a new key in the chain [l] of keys [ks]. *)
Section insert_fresh.
  Context (h : htable) (ch : list (list nat)) (ky : list (list ikey_t)) (m : gmap ikey_t nat).
  Context (key : ikey_t) (l : list nat) (ks : list ikey_t).
  Abbreviation i := (bucket_of h key).
  Hypothesis H : ht_ok h ch ky.
  Hypothesis Hm : ∀ k s, m !! k = Some s ↔ located ch ky k s.
  Hypothesis Hl : ch !! i = Some l.
  Hypothesis Hks : ky !! i = Some ks.
  Hypothesis Hin : key ∉ ks.
  Hypothesis Hmk : m !! key = None.
  Hypothesis Hne : key ≠ empty_key.

Lemma fresh_chain : chain_ok (vertices h) i l ks ∧ NoDup l.
Proof.
  split; [by apply (ok_chain _ _ _ H)|]. eapply NoDup_concat_lookup; [by eapply ok_nodup|done].
Qed.

Lemma extend_chain_post :
  key_at (vertices h) <$> slots_of l = Some <$> ks → last_ext h < num_buckets_ext h →
  ∃ s h', extend_chain h key (List.last l i) = Ok (s, h') ∧ insert_post h m key s h'.
Proof.
  intros Hn Hx. destruct fresh_chain as [Hc Hndl]. unfold extend_chain.
  rewrite (proj2 (Nat.ltb_lt _ _) Hx). cbn [assert_that mbind outcome_bind].
  set (nb := num_buckets h + last_ext h).
  assert (Hnb : nb < num_buckets h + num_buckets_ext h) by lia.
  pose proof (ok_vid _ _ _ H). pose proof (ok_cap _ _ _ H). pose proof (ok_len _ _ _ H).
  rewrite Z.mod_small, Nat2Z.id by (change NBITS_VID with 46%Z; lia).
  assert (Hlast : List.last l i ∈ l).
  { destruct (path_head _ _ _ (co_path _ _ _ _ Hc)) as [l' ->]. apply last_elem_of. }
  destruct (write_key_total (vertices h) (link_slot (List.last l i)) (IKey (Z.of_nat nb) 0 0))
    as (vs1 & -> & Hlen1 & Hk1 & Hp1).
  { rewrite (ok_len _ _ _ H). eapply slots_of_range; [done..|]. by rewrite link_slot_div. }
  cbn [mbind outcome_bind].
  destruct (write_key_total vs1 (nb * ASSOCIATIVITY) key) as (vs2 & -> & Hlen2 & Hk2 & Hp2).
  { unfold ASSOCIATIVITY in *. lia. }
  cbn [mbind outcome_bind]. eexists _, _. split; [done|]. rewrite <-(Nat.add_1_r (last_ext h)).
  assert (Hnbl : nb ∉ l).
  { intros Hb. eapply ok_bucket_range in Hb; [|done..]. unfold nb in Hb. lia. }
  assert (Hlen : length (slots_of l) = length ks) by by rewrite <-(length_fmap (key_at (vertices h))), Hn, length_fmap.
  eapply insert_post_intro; [done..|lia| |lia| |intros t; by rewrite Hp2].
  { rewrite slots_of_app, lookup_app_r by lia. by rewrite Hlen, Nat.sub_diag. }
  eapply ht_ok_update; [done..|lia| |congruence|].
  - apply (chain_ok_extend (vertices h)); try done; [pose proof (ok_pos _ _ _ H); lia| |].
    + intros t Ht. pose proof (Nat.div_mod_eq t ASSOCIATIVITY).
      pose proof (Nat.mod_upper_bound t ASSOCIATIVITY).
      apply (ok_free _ _ _ H); change ASSOCIATIVITY with 8 in *; lia.
    + intros t. by rewrite Hk2, Hk1.
  - intros s [Hs1 Hs2]%not_elem_of_app. rewrite Hk2, Hk1, !decide_False; [done| |].
    + intros ->. by rewrite link_slot_div in Hs1.
    + intros ->. rewrite Nat.div_mul in Hs2 by done. set_solver.
Qed.

Lemma fill_slot_post n s :
  key_at (vertices h) <$> slots_of l = Some <$> (ks ++ replicate (S n) empty_key) →
  slots_of l !! length ks = Some s →
  ∃ vs', write_key (vertices h) s key = Ok vs' ∧ insert_post h m key s (set_vertices h vs').
Proof.
  intros Hn Hs. destruct fresh_chain as [Hc Hndl].
  assert (Hsl : s / ASSOCIATIVITY ∈ l).
  { apply list_elem_of_lookup_2, elem_of_slots_of in Hs. tauto. }
  destruct (write_key_total (vertices h) s key) as (vs' & -> & Hlen' & Hk' & Hp').
  { rewrite (ok_len _ _ _ H). by eapply slots_of_range. }
  exists vs'. split; [done|]. unfold set_vertices. rewrite <-(Nat.add_0_r (last_ext h)).
  eapply insert_post_intro; [done..| | |lia| |done].
  - apply (f_equal length) in Hn. rewrite !length_fmap, length_app in Hn. lia.
  - simpl. by rewrite app_nil_r.
  - apply ht_ok_update; [done..| | |done|].
    + rewrite Nat.add_0_r. apply (ok_ext _ _ _ H).
    + simpl. rewrite app_nil_r. by eapply chain_ok_fill.
    + simpl. rewrite app_nil_r. intros t Ht. rewrite Hk', decide_False; [done|]. by intros ->.
Qed.
End insert_fresh.

Lemma insert_loop_cases h m key cd :
  ht_rep h m → key ≠ empty_key →
  let r := insert_loop (chain_fuel h) h key cd (bucket_of h key * ASSOCIATIVITY) in
  match m !! key with
  | Some s => r = if cd then Err AssertFail else Ok (s, h)
  | None => (∃ s h', r = Ok (s, h') ∧ insert_post h m key s h') ∨
            (r = Err AssertFail ∧ last_ext h = num_buckets_ext h)
  end.
Proof.
  intros (ch & ky & H & Hm) Hne.
  destruct (home_cases h m ch ky key H Hm) as (l & ks & Hl & Hks & Hc & Hcases).
  pose proof Hc as [Hp [n Hn] He Hnd]. intros r. unfold r.
  rewrite (insert_loop_path _ _ _ _ _ l); [|done|by eapply ok_chain_length|by eapply ok_in_range].
  destruct (scan_slots_keys _ key _ _ _ Hn Hne He Hnd) as (Hhit & Hfull & Hfree).
  destruct Hcases as [(j & s & Hj & Hs & Hmk)|[Hin Hmk]]; rewrite Hmk.
  { destruct (Hhit j Hj) as (s' & ? & ->). by simplify_eq/=. }
  destruct n as [|n].
  - rewrite Hfull by done. cbn [mbind outcome_bind]. rewrite app_nil_r in Hn.
    destruct (decide (last_ext h < num_buckets_ext h)) as [Hx|Hx].
    + left. by eapply extend_chain_post.
    + right. pose proof (ok_ext _ _ _ H). split; [|lia]. unfold extend_chain.
      by rewrite (proj2 (Nat.ltb_ge _ _)) by lia.
  - left. destruct (Hfree Hin) as (s & Hs & ->); [lia|]. cbn [mbind outcome_bind].
    destruct (fill_slot_post h ch ky m key l ks H Hm Hl Hks Hin Hmk Hne n s Hn Hs) as (vs' & -> & Hpost).
    by exists s, (set_vertices h vs').
Qed.

(** [insert_key] on the abstract map: the final assertions of the function hold. *)
Lemma insert_key_cases h m key cd :
  ht_rep h m → key ≠ empty_key →
  match m !! key with
  | Some s => insert_key h key cd = if cd then Err AssertFail else Ok (s, h)
  | None => (∃ s h', insert_key h key cd = Ok (s, h') ∧ insert_post h m key s h') ∨
            (insert_key h key cd = Err AssertFail ∧ last_ext h = num_buckets_ext h)
  end.
Proof.
  intros Hrep Hne. unfold insert_key.
  assert (Hfin : ∀ h' m' s, ht_rep h' m' → m' !! key = Some s →
    (ASSERT (s <? num_slots h'); v ← read (vertices h') s;
     ASSERT (key_eqb (v_key v) key); Ok (s, h')) = Ok (s, h')).
  { intros h' m' s Hr Hs. destruct (ht_rep_slot _ _ _ _ Hr Hs) as (v & Hv & Hvk).
    assert (s < num_slots h').
    { destruct Hr as (? & ? & Hr & _). rewrite <-(ok_len _ _ _ Hr). by eapply lookup_lt_Some. }
    rewrite (proj2 (Nat.ltb_lt _ _)) by done. unfold read. rewrite Hv. simpl.
    by destruct (key_eqb_spec (v_key v) key). }
  pose proof (insert_loop_cases h m key cd Hrep Hne) as Hc. cbv zeta in Hc.
  destruct (m !! key) as [s|] eqn:Hmk.
  - rewrite Hc. destruct cd; [done|]. by eapply Hfin.
  - destruct Hc as [(s & h' & -> & Hpost)|[-> ?]]; [left|by right].
    exists s, h'. split; [|done]. eapply Hfin; [apply Hpost|]. apply lookup_insert_eq.
Qed.

(** ** Writing values and clearing the table *)

Lemma ht_rep_keys h m vs' :
  ht_rep h m → length vs' = length (vertices h) →
  (∀ s, key_at vs' s = key_at (vertices h) s) → ht_rep (set_vertices h vs') m.
Proof.
  intros (ch & ky & H & Hm) Hlen Hk. exists ch, ky. split; [|done].
  pose proof H as [? ? ? ? ? ? ? Hch Hh ? Hfree].
  split; cbn [set_vertices num_slots num_buckets num_buckets_ext last_ext vertices];
    [congruence|assumption..| | | |].
  - intros i l ks Hl Hks. apply (chain_ok_frame (vertices h)); [by apply Hch|done].
  - intros i ks k. rewrite (bucket_of_proper _ h) by reflexivity. apply Hh.
  - assumption.
  - intros s ? ?. rewrite Hk. by apply Hfree.
Qed.

Lemma write_ptr_total vs s p :
  s < length vs → ∃ vs', write_ptr vs s p = Ok vs' ∧ length vs' = length vs ∧
    (∀ t, key_at vs' t = key_at vs t) ∧
    (∀ t, ptr_at vs' t = if decide (t = s) then Some p else ptr_at vs t).
Proof.
  intros Hs. destruct (lookup_lt_is_Some_2 _ _ Hs) as [v Hv].
  unfold write_ptr, read, write. rewrite Hv. simpl. rewrite bool_decide_true by done.
  eexists. split_and!; [done|by rewrite length_insert|..]; intros t; unfold key_at, ptr_at;
    (destruct (decide (t = s)) as [->|]; [rewrite list_lookup_insert_eq by done|
       by rewrite list_lookup_insert_ne]); [by rewrite Hv|done].
Qed.

(** [vertices[slot].ptr = ptr] at the slot of a stored key. *)
Lemma write_ptr_rep h m key s p :
  ht_rep h m → m !! key = Some s →
  ∃ vs', write_ptr (vertices h) s p = Ok vs' ∧ ht_rep (set_vertices h vs') m ∧
    ∀ t, ptr_at vs' t = if decide (t = s) then Some p else ptr_at (vertices h) t.
Proof.
  intros Hrep Hs. destruct (ht_rep_slot _ _ _ _ Hrep Hs) as (v & Hv & _).
  destruct (write_ptr_total (vertices h) s p) as (vs' & E & Hlen & Hk & Hp).
  { by eapply lookup_lt_Some. }
  exists vs'. split_and!; [done| |done]. by apply ht_rep_keys.
Qed.

Lemma key_at_replicate n s : s < n → key_at (replicate n empty_vertex) s = Some empty_key.
Proof. intros. unfold key_at. by rewrite lookup_replicate_2. Qed.

(** The sizes of a header region. *)
Record header_sizes (h : htable) : Prop := {
  hs_cap : (num_buckets h + num_buckets_ext h) * ASSOCIATIVITY <= num_slots h;
  hs_pos : 0 < num_buckets h;
  hs_vid : (Z.of_nat (num_buckets h + num_buckets_ext h) < 2 ^ 46)%Z
}.

Lemma fmap_const {A B} (f : A → B) l c : (∀ x, x ∈ l → f x = c) → f <$> l = replicate (length l) c.
Proof.
  induction l as [|a l IH]; intros Hf; [done|]. rewrite fmap_cons, Hf by set_solver. simpl.
  f_equal. apply IH. set_solver.
Qed.

Lemma concat_singletons (l : list nat) : concat ((λ i, [i]) <$> l) = l.
Proof. induction l as [|a l IH]; simpl; [done|]. by f_equal. Qed.

(** [refresh] gives the empty map. *)
Lemma refresh_header_rep h : header_sizes h → ht_rep (refresh_header h) ∅.
Proof.
  intros [Hcap Hpos Hvid].
  exists ((λ i, [i]) <$> seq 0 (num_buckets h)), (replicate (num_buckets h) []).
  assert (Hkey : ∀ s, s < num_slots h → key_at (vertices (refresh_header h)) s = Some empty_key).
  { intros s Hs. by apply key_at_replicate. }
  split; [split; cbn [refresh_header num_slots num_buckets num_buckets_ext last_ext vertices]|].
  - apply length_replicate.
  - assumption.
  - lia.
  - assumption.
  - assumption.
  - by rewrite length_fmap, length_seq.
  - apply length_replicate.
  - intros i l ks Hl Hks. rewrite list_lookup_fmap in Hl.
    apply fmap_Some in Hl as (b & Hb & ->). apply lookup_seq in Hb as [-> Hi]. simpl.
    apply lookup_replicate in Hks as [-> _].
    assert (Hr : ∀ s, s / ASSOCIATIVITY = i → key_at (replicate (num_slots h) empty_vertex) s = Some empty_key).
    { intros s Hs. apply key_at_replicate. pose proof (Nat.div_mod_eq s ASSOCIATIVITY).
      pose proof (Nat.mod_upper_bound s ASSOCIATIVITY). change ASSOCIATIVITY with 8 in *. lia. }
    split; [apply path_end, Hr, link_slot_div| |set_solver|constructor].
    exists 7. rewrite (fmap_const _ _ (Some empty_key)); [done|].
    intros s [Hs _]%elem_of_slots_of. apply Hr. set_solver.
  - intros i ks k Hks Hk. apply lookup_replicate in Hks as [-> _]. set_solver.
  - by rewrite concat_singletons, Nat.add_0_r.
  - intros s _ Hs. by apply Hkey.
  - intros k s. rewrite lookup_empty. split; [done|]. intros (i & l & ks & j & _ & Hks & Hj & _).
    apply lookup_replicate in Hks as [-> _]. done.
Qed.

(** ** The contract of the table *)

(** C8: [insert_key] implements insertion into a finite map from keys to slots.
    A key that is present aborts when duplicates are checked and otherwise yields
    its slot; a new key gets a slot of its own and leaves the other slots, their
    pointers and the sizes alone; the only other abort is an exhausted
    indirect-header region. *)
Theorem insert_key_spec (h : htable) (m : gmap ikey_t nat) (key : ikey_t) (check_dup : bool) :
  ht_rep h m → key ≠ empty_key →
  match m !! key with
  | Some s => insert_key h key check_dup = if check_dup then Err AssertFail else Ok (s, h)
  | None =>
      (∃ s h', insert_key h key check_dup = Ok (s, h') ∧ insert_post h m key s h' ∧
               ∀ k, m !! k ≠ Some s) ∨
      (insert_key h key check_dup = Err AssertFail ∧ last_ext h = num_buckets_ext h)
  end.
Proof.
  intros Hrep Hne. pose proof (insert_key_cases h m key check_dup Hrep Hne) as Hc.
  destruct (m !! key) as [s|] eqn:Hmk; [done|].
  destruct Hc as [(s & h' & E & Hpost)|?]; [left|by right]. exists s, h'. split_and!; [done..|].
  intros k Hk. destruct (decide (k = key)) as [->|Hkk]; [congruence|].
  apply Hkk. apply (ht_rep_inj h' (<[key := s]> m) k key s); [apply Hpost| |apply lookup_insert_eq].
  by rewrite lookup_insert_ne.
Qed.

(** a header region of two main and two indirect buckets *)
Definition small_header : htable := HTable 32 2 2 0 [].

Lemma small_header_sizes : header_sizes small_header.
Proof. split; simpl; unfold ASSOCIATIVITY; lia. Qed.

Lemma insert_key_witness :
  ∃ s h', insert_key (refresh_header small_header) (IKey 131072 2 1) true = Ok (s, h') ∧
          insert_post (refresh_header small_header) ∅ (IKey 131072 2 1) s h'.
Proof.
  destruct (insert_key_spec (refresh_header small_header) ∅ (IKey 131072 2 1) true)
    as [(s & h' & E & Hp & _)|[_ Hx]]; [apply refresh_header_rep, small_header_sizes|done| |].
  - exists s, h'. exact (conj E Hp).
  - discriminate Hx.
Defined.

(** [get_vertex_local] finds exactly the stored keys: the vertex in the slot
    of the key, and an all-empty vertex for a key that was never inserted. *)
Theorem get_vertex_local_spec (h : htable) (m : gmap ikey_t nat) (key : ikey_t) :
  ht_rep h m → key ≠ empty_key →
  match m !! key with
  | Some s => ∃ v, vertices h !! s = Some v ∧ v_key v = key ∧ get_vertex_local h key = Ok v
  | None => get_vertex_local h key = Ok empty_vertex
  end.
Proof. apply get_vertex_local_lookup. Qed.

Lemma get_vertex_local_witness :
  get_vertex_local (refresh_header small_header) (IKey 131072 2 1) = Ok empty_vertex.
Proof.
  refine (get_vertex_local_spec (refresh_header small_header) ∅ (IKey 131072 2 1) _ _);
    [apply refresh_header_rep, small_header_sizes|done].
Defined.

(** a sequence of insertions *)
Definition insert_keys (h : htable) (ks : list ikey_t) : outcome htable :=
  foldM (λ h k, '(_, h') ← insert_key h k true; Ok h') h ks.

(** starting from a refreshed header, inserting distinct keys always succeeds
    while there are as many indirect buckets as keys, whatever the collisions, and
    then [check_key_exist] decides membership in the inserted keys. *)
Theorem insert_keys_total (h : htable) (ks : list ikey_t) :
  header_sizes h → NoDup ks → empty_key ∉ ks → length ks <= num_buckets_ext h →
  ∃ h', insert_keys (refresh_header h) ks = Ok h' ∧
    ∀ key, key ≠ empty_key → check_key_exist h' key = Ok (bool_decide (key ∈ ks)).
Proof.
  intros Hs Hnd He Hlen.
  destruct (foldM_total (λ h k, '(_, h') ← insert_key h k true; Ok h')
    (λ l h', last_ext h' <= length l ∧ num_buckets_ext h' = num_buckets_ext h ∧
       ∃ m, ht_rep h' m ∧ ∀ k, is_Some (m !! k) ↔ k ∈ l) (refresh_header h) ks)
    as (h' & E & _ & _ & m & Hrep & Hm).
  - split_and!; [done..|]. exists ∅. split; [by apply refresh_header_rep|].
    intros k. rewrite lookup_empty, elem_of_nil. split; [by intros [? ?]|done].
  - intros l1 k l2 h1 -> (Hl & Hx & m & Hrep & Hm). rewrite length_app in Hlen. simpl in Hlen.
    apply NoDup_app in Hnd as (_ & Hnd & _).
    assert (m !! k = None) as Hk.
    { apply eq_None_not_Some. rewrite Hm. intros Hk. apply (Hnd _ Hk). set_solver. }
    pose proof (insert_key_cases h1 m k true Hrep ltac:(set_solver)) as Hc. rewrite Hk in Hc.
    destruct Hc as [(s & h2 & -> & [Hr _ _ ? ? _])|[_ ?]]; [|lia].
    exists h2. split; [done|]. rewrite length_app. simpl. split_and!; [lia|lia|].
    exists (<[k := s]> m). split; [done|]. intros k'.
    rewrite lookup_insert_is_Some', Hm. set_solver.
  - exists h'. split; [done|]. intros key Hne. rewrite (check_key_exist_lookup h' m) by done.
    f_equal. by apply bool_decide_ext.
Qed.

Lemma insert_keys_witness :
  ∃ h', insert_keys (refresh_header small_header) [IKey 131072 2 1; IKey 0 3 0] = Ok h' ∧
    ∀ key, key ≠ empty_key → check_key_exist h' key = Ok (bool_decide (key ∈ [IKey 131072 2 1; IKey 0 3 0])).
Proof.
  apply (insert_keys_total small_header [IKey 131072 2 1; IKey 0 3 0]);
    [apply small_header_sizes| |set_solver|simpl; lia].
  apply NoDup_cons. split; [set_solver|apply NoDup_singleton].
Defined.
