(* ===== verification/GStore.v ===== *)
(** [core/gstore.hpp], the local key/value store of a server: the header region
    of [HashTable], the entry region with its bump allocator, the insertion of
    normal and index vertices, and the local reads. Static build
    ([DYNAMIC_GSTORE] off); [VERSATILE] is the argument [versatile]. *)

From S2P Require Import Prelude Types MyMath Keys HashTable.
Local Open Scope nat_scope.

Record gstore := GStore {
  hdr : htable;
  num_entries : nat;
  last_entry : nat;
  edges : list sid_t
}.

(** ** Layout: the constructor and [refresh] *)

Definition MHD_RATIO : Z := 80.
Definition HD_RATIO : Z := 128 * 100 / (128 + 3 * 32).
Definition sizeof_vertex : Z := 16.
Definition sizeof_edge : Z := 4.

Definition new_gstore (kvstore_size : Z) : gstore :=
  let header_region := (u64 (kvstore_size * HD_RATIO) / 100)%Z in
  let entry_region := u64 (kvstore_size - header_region) in
  (* header region *)
  let num_slots := (header_region / sizeof_vertex)%Z in
  let num_buckets :=
    hash_prime_u64 (u64 (num_slots / Z.of_nat ASSOCIATIVITY * MHD_RATIO) / 100)%Z in
  let num_buckets_ext := u64 (num_slots / Z.of_nat ASSOCIATIVITY - num_buckets) in
  (* entry region *)
  let num_entries := (entry_region / sizeof_edge)%Z in
  (* the regions are zeroed memory *)
  GStore (HTable (Z.to_nat num_slots) (Z.to_nat num_buckets) (Z.to_nat num_buckets_ext) 0
            (replicate (Z.to_nat num_slots) empty_vertex))
         (Z.to_nat num_entries) 0 (replicate (Z.to_nat num_entries) 0%Z).

Definition refresh (g : gstore) : gstore :=
  GStore (refresh_header (hdr g)) (num_entries g) 0 (edges g).

(** ** Writing *)

Definition alloc_edges (g : gstore) (n : nat) : outcome (nat * gstore) :=
  let orig := last_entry g in
  let g := GStore (hdr g) (num_entries g) (last_entry g + n) (edges g) in
  ASSERT (last_entry g <? num_entries g);
  Ok (orig, g).

(** [for (v : vals) edges[off++].val = v] *)
Fixpoint store_edges (es : list sid_t) (off : nat) (vals : list sid_t) : outcome (list sid_t) :=
  match vals with
  | [] => Ok es
  | v :: vals => es ← write es off v; store_edges es (S off) vals
  end.

(** insert a vertex, set its pointer and write its edges at [off] *)
Definition insert_vertex (g : gstore) (key : ikey_t) (off : nat) (type : Z) (vals : list sid_t)
  : outcome gstore :=
  '(slot_id, h) ← insert_key (hdr g) key true;
  ptr ← mk_iptr (Z.of_nat (length vals)) (Z.of_nat off) type;
  vs ← write_ptr (vertices h) slot_id ptr;
  es ← store_edges (edges g) off vals;
  Ok (GStore (set_vertices h vs) (num_entries g) (last_entry g) es).

(** one key/value pair of [insert_normal]: the key first, then the edges *)
Definition put_normal (g : gstore) (vid pid : sid_t) (d : dir_t) (vals : list sid_t)
  : outcome gstore :=
  key ← mk_ikey vid pid d;
  '(off, g) ← alloc_edges g (length vals);
  insert_vertex g key off SID_t vals.

(** one key/value pair of [insert_index_map] and [insert_index_set]: the edges first *)
Definition put_index (g : gstore) (pid : sid_t) (d : dir_t) (vals : list sid_t) : outcome gstore :=
  '(off, g) ← alloc_edges g (length vals);
  key ← mk_ikey 0 pid d;
  insert_vertex g key off SID_t vals.

(** [while (e < size && same(l[s], l[e])) e++]: the run of [t] and what follows it *)
Fixpoint split_run (same : triple_t → bool) (l : list triple_t) : list triple_t * list triple_t :=
  match l with
  | t :: l' => if same t then let '(r, l2) := split_run same l' in (t :: r, l2) else ([], l)
  | [] => ([], [])
  end.

Section insert_normal.
  Context (versatile : bool).

  (** The two loops of [insert_normal] on the triples that are left. [v] and [o]
      select the vertex and the neighbour of a triple. *)
Fixpoint normal_loop (fuel : nat) (v o : triple_t → sid_t) (d : dir_t)
    (g : gstore) (predicates : list sid_t) (l : list triple_t) : outcome gstore :=
  match fuel, l with
  | _, [] => Ok g
  | O, _ => Err OutOfFuel
  | S fuel, t :: l =>
      let '(run, rest) := split_run (λ t', (v t =? v t') && (tr_p t =? tr_p t'))%Z l in
      g ← put_normal g (v t) (tr_p t) d (o <$> t :: run);
      if versatile then
        let predicates := predicates ++ [tr_p t] in (* add a new predicate *)
        if (match rest with [] => true | t' :: _ => negb (v t =? v t')%Z end) then
          (* insert a special PREDICATE triple *)
          g ← put_normal g (v t) PREDICATE_ID d predicates;
          normal_loop fuel v o d g [] rest
        else normal_loop fuel v o d g predicates rest
      else normal_loop fuel v o d g predicates rest
  end.

  (** [while (type_triples < ops.size() && is_tpid(ops[type_triples].o))] *)
Fixpoint skip_types (ops : list triple_t) : list triple_t :=
  match ops with
  | t :: ops' => if is_tpid (i32 (tr_o t)) then skip_types ops' else ops
  | [] => []
  end.

Definition insert_normal (g : gstore) (spo ops : list triple_t) : outcome gstore :=
  g ← normal_loop (length spo) tr_s tr_o OUT g [] spo;
  let ops := skip_types ops in
  normal_loop (length ops) tr_o tr_s IN g [] ops.
End insert_normal.

(** ** Local reads *)

(** the [sz] edges at [off] *)
Definition read_edges (g : gstore) (off sz : nat) : outcome (list sid_t) :=
  if off + sz <=? length (edges g) then Ok (take sz (drop off (edges g))) else Err OutOfBounds.

Definition get_edges_local (g : gstore) (vid : sid_t) (d : dir_t) (pid : sid_t)
  : outcome (list sid_t) :=
  key ← mk_ikey vid pid d;
  v ← get_vertex_local (hdr g) key;
  if is_empty (v_key v) then Ok []
  else read_edges g (Z.to_nat (p_off (v_ptr v))) (Z.to_nat (p_size (v_ptr v))).

Definition get_index_edges_local (g : gstore) (pid : sid_t) (d : dir_t) : outcome (list sid_t) :=
  get_edges_local g 0 d pid.

(** ** Abstraction: the store is a finite map from keys to edge lists *)

Record entry_ok (g : gstore) (p : iptr_t) (vals : list sid_t) : Prop := {
  en_size : p_size p = Z.of_nat (length vals);
  en_off : (0 <= p_off p)%Z;
  en_range : Z.to_nat (p_off p) + length vals <= last_entry g;
  en_vals : take (length vals) (drop (Z.to_nat (p_off p)) (edges g)) = vals
}.

(** the number of edges in a map of edge lists *)
Definition kv_total `{Countable K} (kv : gmap K (list sid_t)) : nat :=
  sum_list_with (λ e, length e.2) (map_to_list kv).

Record gs_ok (g : gstore) (m : gmap ikey_t nat) (kv : gmap ikey_t (list sid_t)) : Prop := {
  gs_hdr : ht_rep (hdr g) m;
  gs_dom : dom m = dom kv;
  gs_len : length (edges g) = num_entries g;
  gs_last : last_entry g <= num_entries g;
  gs_total : kv_total kv <= last_entry g;
  gs_wf k : k ∈ dom kv → key_wf k;
  gs_entry k s vals : m !! k = Some s → kv !! k = Some vals →
    ∃ p, ptr_at (vertices (hdr g)) s = Some p ∧ entry_ok g p vals
}.

Definition gs_rep (g : gstore) (kv : gmap ikey_t (list sid_t)) : Prop := ∃ m, gs_ok g m kv.

(** Resources that are enough for [n] more keys with [e] edges in all. *)
Record room (g : gstore) (n e : nat) : Prop := {
  rm_ext : last_ext (hdr g) + n <= num_buckets_ext (hdr g);
  rm_entry : last_entry g + e < num_entries g;
  rm_size : (Z.of_nat e < 2 ^ 28)%Z;
  rm_off : (Z.of_nat (num_entries g) <= 2 ^ 34)%Z
}.

(** [g'] comes from [g] by adding at most [n] indirect buckets and [e] edges. *)
Record consumes (g : gstore) (n e : nat) (g' : gstore) : Prop := {
  cs_ext : last_ext (hdr g') <= last_ext (hdr g) + n;
  cs_next : num_buckets_ext (hdr g') = num_buckets_ext (hdr g);
  cs_entry : last_entry g' <= last_entry g + e;
  cs_nentry : num_entries g' = num_entries g
}.

Lemma room_consume g n e a b g' : room g (a + n) (b + e) → consumes g a b g' → room g' n e.
Proof. intros [] []. split; lia. Qed.

Lemma room_le g n e n' e' : room g n e → n' <= n → e' <= e → room g n' e'.
Proof. intros [] ? ?. split; lia. Qed.

Lemma consumes_refl g : consumes g 0 0 g.
Proof. split; lia. Qed.

Lemma consumes_trans g1 g2 g3 n e n' e' n2 e2 :
  consumes g1 n e g2 → consumes g2 n' e' g3 → n + n' <= n2 → e + e' <= e2 → consumes g1 n2 e2 g3.
Proof. intros [] [] ? ?. split; lia. Qed.

Lemma kv_total_insert `{Countable K} (kv : gmap K (list sid_t)) k vals :
  kv !! k = None → kv_total (<[k := vals]> kv) = length vals + kv_total kv.
Proof. intros Hk. unfold kv_total. by rewrite map_to_list_insert. Qed.

Lemma store_edges_Ok es off vals :
  off + length vals <= length es →
  store_edges es off vals = Ok (take off es ++ vals ++ drop (off + length vals) es).
Proof.
  revert es off. induction vals as [|v vals IH]; intros es off Hl; simpl in *.
  - by rewrite Nat.add_0_r, take_drop.
  - unfold write. rewrite bool_decide_true by lia. simpl. rewrite IH by solve_len. f_equal.
    rewrite (take_S_r _ _ v) by (apply list_lookup_insert_eq; lia).
    rewrite take_insert_ge, drop_insert_lt by lia. rewrite <-app_assoc. simpl.
    by rewrite Nat.add_succ_r.
Qed.

(** the store after [alloc_edges g n] *)
Definition bump (g : gstore) (n : nat) : gstore :=
  GStore (hdr g) (num_entries g) (last_entry g + n) (edges g).

Lemma alloc_edges_ok g n : last_entry g + n < num_entries g →
  alloc_edges g n = Ok (last_entry g, bump g n).
Proof. intros Hn. unfold alloc_edges, bump. simpl. by rewrite (proj2 (Nat.ltb_lt _ _) Hn). Qed.

(** An entry survives writes behind the allocated part of the entry region. *)
Lemma entry_ok_frame g p vals off new hd :
  entry_ok g p vals → off = last_entry g → off + length new <= length (edges g) →
  entry_ok (GStore hd (num_entries g) (last_entry g + length new)
    (take off (edges g) ++ new ++ drop (off + length new) (edges g))) p vals.
Proof.
  intros [Hs Ho Hr Hv] -> Hl. split; simpl; try done; [lia|].
  rewrite drop_app_le by solve_len.
  rewrite take_app_le by (rewrite length_drop, length_take; lia).
  rewrite skipn_firstn_comm, take_take, Nat.min_l by lia. done.
Qed.

Lemma entry_ok_new g hd new ty :
  last_entry g + length new <= length (edges g) →
  entry_ok (GStore hd (num_entries g) (last_entry g + length new)
    (take (last_entry g) (edges g) ++ new ++ drop (last_entry g + length new) (edges g)))
    (IPtr (Z.of_nat (length new)) (Z.of_nat (last_entry g)) ty) new.
Proof.
  intros Hl. split; simpl; [done|lia|lia|]. rewrite Nat2Z.id.
  rewrite drop_app_length' by (rewrite length_take; lia). by rewrite take_app_length.
Qed.

(** the type in the pointer of a stored key *)
Definition vertex_type (g : gstore) (key : ikey_t) : option Z :=
  match get_vertex_local (hdr g) key with Ok v => Some (p_type (v_ptr v)) | Err _ => None end.

Lemma vertex_type_slot g m key s : ht_rep (hdr g) m → m !! key = Some s →
  vertex_type g key = p_type <$> ptr_at (vertices (hdr g)) s.
Proof.
  intros Hh Hs. pose proof (get_vertex_local_lookup (hdr g) m key Hh) as Hg. rewrite Hs in Hg.
  destruct Hg as (v & Hv & _ & E); [by eapply ht_rep_nonempty|].
  unfold vertex_type, ptr_at. by rewrite E, Hv.
Qed.

Lemma insert_vertex_ok g kv key ty vals :
  gs_rep g kv → kv !! key = None → key_wf key → key ≠ empty_key →
  room g 1 (length vals) → (0 <= ty < 4)%Z →
  ∃ g', insert_vertex (bump g (length vals)) key (last_entry g) ty vals = Ok g' ∧
        gs_rep g' (<[key := vals]> kv) ∧ consumes g 1 (length vals) g' ∧
        vertex_type g' key = Some ty ∧ ∀ k, k ∈ dom kv → vertex_type g' k = vertex_type g k.
Proof.
  intros [m [Hh Hd Hlen Hlast Htot Hwf He]] Hk Hkw Hne [Hr1 Hr2 Hr3 Hr4] Hty.
  assert (Hmk : m !! key = None) by (apply not_elem_of_dom; rewrite Hd; by apply not_elem_of_dom).
  pose proof (insert_key_cases (hdr g) m key true Hh Hne) as Hc. rewrite Hmk in Hc.
  destruct Hc as [(s & h' & E & [Hrep Hsz _ Hext Hlx Hptr])|[_ ?]]; [|lia].
  unfold insert_vertex. simpl. rewrite E. simpl.
  replace (mk_iptr _ _ _) with (Ok (IPtr (Z.of_nat (length vals)) (Z.of_nat (last_entry g)) ty))
    by (symmetry; apply mk_iptr_Ok; split_and!; [done|lia..]). simpl.
  destruct (write_ptr_rep h' _ key s (IPtr (Z.of_nat (length vals)) (Z.of_nat (last_entry g)) ty) Hrep)
    as (vs & -> & Hrep' & Hp); [by rewrite lookup_insert_eq|]. simpl.
  rewrite store_edges_Ok by lia. simpl. eexists. split; [done|].
  assert (Hother : ∀ k s', m !! k = Some s' → s' ≠ s).
  { intros k s' Hs' ->. assert (k = key) as ->; [|congruence].
    apply (ht_rep_inj h' (<[key := s]> m) k key s); [done| |by apply lookup_insert_eq].
    rewrite lookup_insert_ne; [done|congruence]. }
  split_and!.
  - exists (<[key := s]> m). split; simpl.
    + done.
    + by rewrite !dom_insert_L, Hd.
    + rewrite !length_app, length_take, length_drop. lia.
    + lia.
    + rewrite kv_total_insert by done. lia.
    + intros k. rewrite dom_insert_L. intros [->%elem_of_singleton|?]%elem_of_union; [done|by apply Hwf].
    + intros k s' vals' Hs' Hv'. rewrite Hp. destruct (decide (k = key)) as [->|Hkk].
      * rewrite lookup_insert_eq in Hs'. rewrite lookup_insert_eq in Hv'. simplify_eq. rewrite decide_True by done.
        eexists. split; [done|]. apply entry_ok_new. lia.
      * rewrite lookup_insert_ne in Hs' by done. rewrite lookup_insert_ne in Hv' by done.
        rewrite decide_False by (by eapply Hother).
        destruct (He k s' vals' Hs' Hv') as (p & Hps & Hen). exists p.
        rewrite Hptr. split; [done|]. apply entry_ok_frame; [done|done|lia].
  - split; simpl; lia.
  - rewrite (vertex_type_slot _ (<[key := s]> m) key s); [|done|by apply lookup_insert_eq].
    simpl. by rewrite Hp, decide_True.
  - intros k Hkd. rewrite <-Hd in Hkd. apply elem_of_dom in Hkd as [s' Hs'].
    rewrite (vertex_type_slot g m k s') by done.
    rewrite (vertex_type_slot _ (<[key := s]> m) k s'); [|done|rewrite lookup_insert_ne; congruence].
    simpl. rewrite Hp, decide_False by (by eapply Hother). by rewrite Hptr.
Qed.

Lemma put_normal_ok g kv vid pid d vals :
  gs_rep g kv → kv !! IKey vid pid (dir_val d) = None →
  key_wf (IKey vid pid (dir_val d)) → IKey vid pid (dir_val d) ≠ empty_key →
  room g 1 (length vals) →
  ∃ g', put_normal g vid pid d vals = Ok g' ∧
        gs_rep g' (<[IKey vid pid (dir_val d) := vals]> kv) ∧ consumes g 1 (length vals) g'.
Proof.
  intros Hg Hk Hw Hne Hr. unfold put_normal.
  rewrite (proj2 (mk_ikey_Ok vid pid d _)) by done. simpl.
  rewrite alloc_edges_ok by (destruct Hr; lia). simpl.
  destruct (insert_vertex_ok g kv _ SID_t vals Hg Hk Hw Hne Hr) as (g' & E & ? & ? & _); [done|by exists g'].
Qed.

(** the types of the stored vertices stay *)
Definition types_kept (kv : gmap ikey_t (list sid_t)) (g g' : gstore) : Prop := ∀ k, k ∈ dom kv → vertex_type g' k = vertex_type g k.

Lemma types_kept_trans kv kv' g g1 g2 : dom kv ⊆ dom kv' → types_kept kv g g1 → types_kept kv' g1 g2 → types_kept kv g g2.
Proof. intros Hd H1 H2 k Hk. rewrite H2, H1; [done|done|]. by apply Hd. Qed.

Lemma put_index_ok g kv pid d vals :
  gs_rep g kv → kv !! IKey 0 pid (dir_val d) = None →
  key_wf (IKey 0 pid (dir_val d)) → IKey 0 pid (dir_val d) ≠ empty_key →
  room g 1 (length vals) →
  ∃ g', put_index g pid d vals = Ok g' ∧
        gs_rep g' (<[IKey 0 pid (dir_val d) := vals]> kv) ∧ consumes g 1 (length vals) g' ∧ types_kept kv g g'.
Proof.
  intros Hg Hk Hw Hne Hr. unfold put_index.
  rewrite alloc_edges_ok by (destruct Hr; lia). simpl.
  rewrite (proj2 (mk_ikey_Ok 0 pid d _)) by done. simpl.
  destruct (insert_vertex_ok g kv _ SID_t vals Hg Hk Hw Hne Hr) as (g' & E & ? & ? & _ & ?); [done|by exists g'].
Qed.

(** ** Reads see the abstract map *)

Lemma get_edges_local_rep g kv vid d pid :
  gs_rep g kv → key_wf (IKey vid pid (dir_val d)) → IKey vid pid (dir_val d) ≠ empty_key →
  get_edges_local g vid d pid = Ok (default [] (kv !! IKey vid pid (dir_val d))).
Proof.
  intros [m [Hh Hd Hlen Hlast Htot Hwf He]] Hw Hne. unfold get_edges_local.
  rewrite (proj2 (mk_ikey_Ok vid pid d _)) by done. simpl.
  set (k := IKey vid pid (dir_val d)) in *.
  pose proof (get_vertex_local_lookup (hdr g) m k Hh Hne) as Hg.
  destruct (m !! k) as [s|] eqn:Hs.
  - destruct Hg as (v & Hv & Hvk & ->). simpl.
    destruct (is_empty_spec (v_key v)) as [?|_]; [congruence|].
    destruct (kv !! k) as [vals|] eqn:Hkv.
    + destruct (He k s vals Hs Hkv) as (p & Hp & [Hsz ? Hr Hvals]).
      unfold ptr_at in Hp. rewrite Hv in Hp. simplify_eq/=. rewrite Hsz, Nat2Z.id.
      unfold read_edges. rewrite (proj2 (Nat.leb_le _ _)) by lia. by rewrite Hvals.
    + apply not_elem_of_dom in Hkv. rewrite <-Hd in Hkv. apply not_elem_of_dom in Hkv. congruence.
  - rewrite Hg. simpl. apply not_elem_of_dom in Hs. rewrite Hd in Hs.
    by apply not_elem_of_dom in Hs as ->.
Qed.
