(* ===== verification/Runs.v ===== *)
(** The grouping that [GStore::insert_normal] relies on: the triples arrive
    sorted by vertex and predicate, so the adjacent runs are exactly the groups
    of equal vertex and predicate. This file proves what the two loops of
    [insert_normal] insert, as a list of key/value pairs. *)

From stdpp Require Import sorting.
From S2P Require Import Prelude Types MyMath Keys HashTable GStore.
Local Open Scope nat_scope.

(** Lexicographic order on vertex and predicate. *)
Definition vp_le (v : triple_t → sid_t) (a b : triple_t) : Prop :=
  (v a < v b ∨ v a = v b ∧ tr_p a <= tr_p b)%Z.

Fixpoint dedup_adj (l : list Z) : list Z :=
  match l with
  | [] => []
  | x :: l' =>
      match dedup_adj l' with
      | y :: r => if (x =? y)%Z then y :: r else x :: y :: r
      | [] => [x]
      end
  end.

Section runs.
  Context (versatile : bool) (v o : triple_t → sid_t).

  (** The pairs that [normal_loop] inserts, in its order. *)
Fixpoint loop_kvs (fuel : nat) (predicates : list sid_t) (l : list triple_t)
    : list (sid_t * sid_t * list sid_t) :=
  match fuel, l with
  | S fuel, t :: l =>
      let '(run, rest) := split_run (λ t', (v t =? v t') && (tr_p t =? tr_p t'))%Z l in
      (v t, tr_p t, o <$> t :: run) ::
      if versatile then
        let predicates := predicates ++ [tr_p t] in
        if (match rest with [] => true | t' :: _ => negb (v t =? v t')%Z end) then
          (v t, PREDICATE_ID, predicates) :: loop_kvs fuel [] rest
        else loop_kvs fuel predicates rest
      else loop_kvs fuel predicates rest
  | _, _ => []
  end.

Definition put_kv (d : dir_t) (g : gstore) (e : sid_t * sid_t * list sid_t) : outcome gstore :=
  put_normal g e.1.1 e.1.2 d e.2.

Lemma put_kv_eq d g x p vals : put_kv d g (x, p, vals) = put_normal g x p d vals.
Proof. done. Qed.

Lemma split_run_app same l run rest :
  split_run same l = (run, rest) →
  l = run ++ rest ∧ Forall (λ t, same t = true) run ∧
  (∀ t rest', rest = t :: rest' → same t = false).
Proof.
  revert run. induction l as [|t l IH]; intros run; simpl.
  - intros [= <- <-]. split_and!; [done|constructor|done].
  - destruct (same t) eqn:Ht.
    + destruct (split_run same l) as [r l2]. intros [= <- <-].
      destruct (IH r eq_refl) as (-> & Hr & Hh). split_and!; [done|by constructor|done].
    + intros [= <- <-]. split_and!; [done|constructor|naive_solver].
Qed.

Lemma normal_loop_kvs fuel d g predicates l :
  length l <= fuel →
  normal_loop versatile fuel v o d g predicates l =
  foldM (put_kv d) g (loop_kvs fuel predicates l).
Proof.
  revert g predicates l. induction fuel as [|fuel IH]; intros g preds l Hl.
  { by destruct l; [|simpl in Hl; lia]. }
  destruct l as [|t l]; [done|]. simpl in Hl. cbn [normal_loop loop_kvs].
  destruct (split_run _ l) as [run rest] eqn:E. apply split_run_app in E as (-> & _ & _).
  rewrite length_app in Hl. simpl. rewrite put_kv_eq.
  destruct (put_normal g _ _ _ _) as [g1|]; simpl; [|done].
  destruct versatile; [|apply IH; lia].
  destruct (match rest with [] => _ | _ => _ end); [|apply IH; lia].
  simpl. rewrite put_kv_eq. destruct (put_normal g1 _ _ _ _) as [g2|]; simpl; [|done].
  apply IH. lia.
Qed.

  (** What the sorted triples [l] say about vertex [x] and predicate [p]. *)
Definition vp_edges (l : list triple_t) (x p : sid_t) : list sid_t :=
  if versatile && (p =? PREDICATE_ID)%Z then
    dedup_adj (tr_p <$> filter (λ t, v t = x) l)
  else o <$> filter (λ t, v t = x ∧ tr_p t = p) l.

Definition head_is (l : list triple_t) (x : sid_t) : bool :=
  match l with t :: _ => (v t =? x)%Z | [] => false end.

  (** ... when the predicates [predicates] of its first vertex are pending *)
Definition pending_edges (predicates : list sid_t) (l : list triple_t) (x p : sid_t) : list sid_t :=
  (if versatile && (p =? PREDICATE_ID)%Z && head_is l x then predicates else []) ++ vp_edges l x p.

Lemma sorted_run t l run rest :
  StronglySorted (vp_le v) (t :: l) →
  split_run (λ t', (v t =? v t') && (tr_p t =? tr_p t'))%Z l = (run, rest) →
  Forall (λ t', v t' = v t ∧ tr_p t' = tr_p t) run ∧
  Forall (λ t', v t < v t' ∨ v t = v t' ∧ tr_p t < tr_p t')%Z rest ∧
  StronglySorted (vp_le v) rest.
Proof.
  intros Hs E. apply split_run_app in E as (-> & Hrun & Hrest).
  apply StronglySorted_cons in Hs as [Ht Hs].
  apply StronglySorted_app in Hs as (Hrr & _ & Hs2).
  rewrite Forall_app in Ht. destruct Ht as [_ Ht].
  split_and!; [| |done].
  - eapply Forall_impl; [exact Hrun|]. intros t' [H1 H2]%andb_true_iff. lia.
  - destruct rest as [|t' rest]; [constructor|].
    pose proof (Hrest t' rest eq_refl) as Hne. apply Forall_cons_iff in Ht as [Ht _].
    apply StronglySorted_cons in Hs2 as [Ht' _].
    assert (v t < v t' ∨ v t = v t' ∧ tr_p t < tr_p t')%Z as Hlt by (unfold vp_le in *; lia).
    constructor; [done|]. eapply Forall_impl; [exact Ht'|]. unfold vp_le. simpl. lia.
Qed.

  (** ** The first run of sorted triples *)
Section first_run.
  Context (t : triple_t) (run rest : list triple_t).
  Hypothesis Hrun : Forall (λ t', v t' = v t ∧ tr_p t' = tr_p t) run.
  Hypothesis Hrest : Forall (λ t', v t < v t' ∨ v t = v t' ∧ tr_p t < tr_p t')%Z rest.
  Abbreviation l := (t :: run ++ rest).

Lemma run_all : Forall (λ t', v t' = v t ∧ tr_p t' = tr_p t) (t :: run).
Proof. by constructor. Qed.

Lemma filter_run_same : filter (λ t', v t' = v t ∧ tr_p t' = tr_p t) l = t :: run.
Proof.
  change l with ((t :: run) ++ rest). rewrite filter_app, (filter_all _ (t :: run)) by apply run_all.
  rewrite filter_none, app_nil_r; [done|]. eapply Forall_impl; [exact Hrest|]. simpl. lia.
Qed.

Lemma filter_run_other x p : (x, p) ≠ (v t, tr_p t) →
  filter (λ t', v t' = x ∧ tr_p t' = p) l = filter (λ t', v t' = x ∧ tr_p t' = p) rest.
Proof.
  intros Hne. change l with ((t :: run) ++ rest). rewrite filter_app, (filter_none _ (t :: run)); [done|].
  eapply Forall_impl; [exact run_all|]. intros t' [E1 E2] [E3 E4]. apply Hne. congruence.
Qed.

Lemma dedup_adj_run (n : nat) p ps :
  Forall (λ q, p < q)%Z ps → dedup_adj (p :: (replicate n p ++ ps)) = p :: dedup_adj ps.
Proof.
  intros Hps. induction n as [|n IH].
  - simpl. destruct ps as [|q ps]; [done|]. apply Forall_cons_iff in Hps as [Hq _].
    assert (∃ r, dedup_adj (q :: ps) = q :: r) as [r ->].
    { simpl. destruct (dedup_adj ps) as [|y r]; [by eauto|]. destruct (Z.eqb_spec q y); subst; eauto. }
    destruct (Z.eqb_spec p q); [lia|done].
  - cbn [replicate app]. change (dedup_adj (p :: ?x)) with
      (match dedup_adj x with y :: r => if (p =? y)%Z then y :: r else p :: y :: r | [] => [p] end).
    rewrite IH. by rewrite Z.eqb_refl.
Qed.

Lemma preds_run_same :
  dedup_adj (tr_p <$> filter (λ t', v t' = v t) l) =
  tr_p t :: dedup_adj (tr_p <$> filter (λ t', v t' = v t) rest).
Proof.
  change l with ((t :: run) ++ rest). rewrite filter_app, (filter_all _ (t :: run)).
  2: { eapply Forall_impl; [exact run_all|]. naive_solver. }
  rewrite fmap_app, fmap_cons.
  replace (tr_p <$> run) with (replicate (length run) (tr_p t)).
  - simpl. apply dedup_adj_run. apply Forall_fmap, Forall_forall. intros t' [Hv Ht']%list_elem_of_filter.
    rewrite Forall_forall in Hrest. specialize (Hrest t' Ht'). simpl in *. lia.
  - symmetry. apply fmap_const. intros t' Ht'. rewrite Forall_forall in Hrun. by apply Hrun.
Qed.

Lemma filter_vertex_other x : x ≠ v t →
  filter (λ t', v t' = x) l = filter (λ t', v t' = x) rest.
Proof.
  intros Hx. change l with ((t :: run) ++ rest). rewrite filter_app, (filter_none _ (t :: run)); [done|].
  eapply Forall_impl; [exact run_all|]. naive_solver.
Qed.

  (** the vertex of the run occurs again only at the head of what follows *)
Lemma filter_vertex_done : StronglySorted (vp_le v) rest → head_is rest (v t) = false →
  filter (λ t', v t' = v t) rest = [].
Proof.
  intros Hs Hh. apply filter_none. destruct rest as [|t' rest']; [constructor|]. simpl in Hh.
  apply Forall_cons_iff in Hrest as [Ht' _]. apply StronglySorted_cons in Hs as [Hs _].
  constructor; [lia|]. eapply Forall_impl; [exact Hs|]. unfold vp_le. lia.
Qed.
End first_run.

  (** ** The inserted pairs are the groups *)

  (** The pairs [kvs] have distinct keys and list the nonempty values of [E]. *)
Definition kvs_of (kvs : list (sid_t * sid_t * list sid_t)) (E : sid_t * sid_t → list sid_t) : Prop :=
  NoDup kvs.*1 ∧ ∀ k vals, (k, vals) ∈ kvs ↔ vals = E k ∧ vals ≠ [].

Lemma kvs_of_cons kvs E E' k vals :
  kvs_of kvs E → E k = [] → vals ≠ [] → E' k = vals → (∀ k', k' ≠ k → E' k' = E k') →
  kvs_of ((k, vals) :: kvs) E'.
Proof.
  intros [Hnd Hkvs] Hk Hv Hk' Hne. split.
  - rewrite fmap_cons. apply NoDup_cons. split; [|done]. simpl.
    intros ([k' vals'] & -> & Hin)%list_elem_of_fmap. apply Hkvs in Hin as [-> []]. done.
  - intros k' vals'. rewrite elem_of_cons. destruct (decide (k' = k)) as [->|Hkk].
    + rewrite Hkvs, Hk. naive_solver.
    + rewrite Hkvs, Hne by done. naive_solver.
Qed.

Lemma kvs_of_proper kvs E E' : kvs_of kvs E → (∀ k, E' k = E k) → kvs_of kvs E'.
Proof. intros [Hnd Hk] HE. split; [done|]. intros k vals. by rewrite HE. Qed.

Lemma vp_edges_absent l x p : (∀ t, t ∈ l → v t ≠ x) → vp_edges l x p = [].
Proof.
  intros Hl. unfold vp_edges. case_match.
  - rewrite filter_none; [done|]. by apply Forall_forall.
  - rewrite filter_none; [done|]. apply Forall_forall. naive_solver.
Qed.

Lemma pending_nil predicates x p : pending_edges predicates [] x p = [].
Proof.
  unfold pending_edges. cbn [head_is]. rewrite andb_false_r. apply vp_edges_absent.
  intros t Ht. by apply elem_of_nil in Ht.
Qed.

Lemma kvs_of_nil predicates : kvs_of [] (λ k, pending_edges predicates [] k.1 k.2).
Proof. split; [constructor|]. intros k vals. rewrite pending_nil, elem_of_nil. naive_solver. Qed.

Lemma pending_pred predicates l x : versatile = true →
  pending_edges predicates l x PREDICATE_ID =
  (if head_is l x then predicates else []) ++ dedup_adj (tr_p <$> filter (λ t, v t = x) l).
Proof. intros Ev. unfold pending_edges, vp_edges. by rewrite Ev. Qed.

Lemma pending_norm predicates l x p : versatile = false ∨ p ≠ PREDICATE_ID →
  pending_edges predicates l x p = o <$> filter (λ t, v t = x ∧ tr_p t = p) l.
Proof.
  intros H. unfold pending_edges, vp_edges. destruct versatile; [|done]. simpl.
  destruct (Z.eqb_spec p PREDICATE_ID); [naive_solver|done].
Qed.

  (** One iteration: what is inserted for the first run, and what is left. *)
Lemma first_run_kvs predicates t run rest kvs :
  StronglySorted (vp_le v) rest →
  Forall (λ t', v t' = v t ∧ tr_p t' = tr_p t) run →
  Forall (λ t', v t < v t' ∨ v t = v t' ∧ tr_p t < tr_p t')%Z rest →
  (versatile = true → tr_p t ≠ PREDICATE_ID) →
  kvs_of kvs (λ k, if versatile && negb (head_is rest (v t)) && bool_decide (k = (v t, PREDICATE_ID))
    then predicates ++ [tr_p t]
    else pending_edges (if versatile && head_is rest (v t) then predicates ++ [tr_p t] else []) rest k.1 k.2) →
  kvs_of ((v t, tr_p t, o <$> t :: run) :: kvs)
    (λ k, pending_edges predicates (t :: run ++ rest) k.1 k.2).
Proof.
  intros Hs Hrun Hrest Hp Hkvs.
  assert (Hnp : versatile = false ∨ tr_p t ≠ PREDICATE_ID) by (destruct versatile; naive_solver).
  eapply kvs_of_cons; [exact Hkvs| |done|..].
  - cbv beta. destruct (versatile && _ && _) eqn:Eb.
    + apply andb_true_iff in Eb as [Eb [= E2]%bool_decide_eq_true_1].
      apply andb_true_iff in Eb as [Ev _]. naive_solver.
    + simpl. rewrite pending_norm by done.
      rewrite filter_none; [done|]. eapply Forall_impl; [exact Hrest|]. simpl. lia.
  - simpl. rewrite pending_norm by done. by rewrite filter_run_same.
  - intros [x p] Hne. simpl. destruct (decide (versatile = true ∧ p = PREDICATE_ID)) as [[Ev ->]|Hn].
    + rewrite !pending_pred by done. rewrite Ev. cbn [andb head_is].
      destruct (decide (x = v t)) as [->|Hx].
      * rewrite Z.eqb_refl, preds_run_same by done. rewrite bool_decide_true by done.
        destruct (head_is rest (v t)) eqn:Eh; simpl; [by rewrite <-app_assoc|].
        by rewrite filter_vertex_done.
      * rewrite filter_vertex_other by done. rewrite bool_decide_false by congruence.
        rewrite andb_false_r. destruct (Z.eqb_spec (v t) x); [congruence|].
        destruct (head_is rest (v t)) eqn:Eh; [|by destruct (head_is rest x)].
        destruct rest as [|t' rest']; simpl in *; [done|].
        destruct (Z.eqb_spec (v t') x); [lia|done].
    + rewrite pending_norm by (destruct versatile; naive_solver). rewrite filter_run_other by done.
      destruct (versatile && _ && _) eqn:Eb.
      * apply andb_true_iff in Eb as [Eb E2%bool_decide_eq_true_1].
        apply andb_true_iff in Eb as [-> _]. naive_solver.
      * by rewrite pending_norm by (destruct versatile; naive_solver).
Qed.

Lemma loop_kvs_spec fuel predicates l :
  length l <= fuel → StronglySorted (vp_le v) l →
  (versatile = true → Forall (λ t, tr_p t ≠ PREDICATE_ID) l) →
  kvs_of (loop_kvs fuel predicates l) (λ k, pending_edges predicates l k.1 k.2).
Proof.
  revert predicates l. induction fuel as [|fuel IH]; intros preds l Hl Hs Hp.
  { destruct l; [|simpl in Hl; lia]. apply kvs_of_nil. }
  destruct l as [|t l]; [apply kvs_of_nil|].
  cbn [loop_kvs]. destruct (split_run _ l) as [run rest] eqn:E.
  destruct (sorted_run _ _ _ _ Hs E) as (Hrun & Hrest & Hsr).
  apply split_run_app in E as (-> & _ & _). simpl in Hl. rewrite length_app in Hl.
  assert (Hp' : versatile = true → tr_p t ≠ PREDICATE_ID ∧ Forall (λ t, tr_p t ≠ PREDICATE_ID) rest).
  { intros Ev. specialize (Hp Ev). apply Forall_cons_iff in Hp as [? Hp].
    by apply Forall_app in Hp as [_ ?]. }
  apply first_run_kvs; [done..|naive_solver|].
  replace (match rest with [] => true | t' :: _ => negb (v t =? v t')%Z end)
    with (negb (head_is rest (v t))) by (destruct rest; simpl; [done|by rewrite Z.eqb_sym]).
  pose proof (λ ps, IH ps rest ltac:(lia) Hsr ltac:(naive_solver)) as IH'.
  destruct versatile eqn:Ev; cbn [andb].
  - destruct (head_is rest (v t)) eqn:Eh; cbn [negb andb].
    + apply (kvs_of_proper _ _ _ (IH' _)). done.
    + eapply kvs_of_cons; [exact (IH' [])| | | |].
      * simpl. rewrite pending_pred by done. by rewrite filter_vertex_done, Eh.
      * by destruct preds.
      * by rewrite bool_decide_true.
      * intros k Hk. by rewrite bool_decide_false.
  - apply (kvs_of_proper _ _ _ (IH' preds)). intros k. simpl. rewrite !pending_norm; auto.
Qed.

  (** ** The space the pairs need *)
Definition kvs_size (kvs : list (sid_t * sid_t * list sid_t)) : nat :=
  sum_list (length <$> kvs.*2).
Definition kv_weight : nat := if versatile then 2 else 1.

Lemma kvs_size_cons k vals kvs : kvs_size ((k, vals) :: kvs) = length vals + kvs_size kvs.
Proof. done. Qed.

Lemma loop_kvs_length fuel predicates l :
  length (loop_kvs fuel predicates l) <= kv_weight * length l.
Proof.
  revert predicates l. induction fuel as [|fuel IH]; intros preds l; simpl; [lia|].
  destruct l as [|t l]; simpl; [lia|]. destruct (split_run _ l) as [run rest] eqn:E.
  apply split_run_app in E as (-> & _ & _). simpl. rewrite length_app.
  pose proof (λ ps, IH ps rest) as IH'. unfold kv_weight in *.
  destruct versatile; [destruct (match rest with [] => _ | _ => _ end)|]; simpl;
    [specialize (IH' [])|specialize (IH' (preds ++ [tr_p t]))|specialize (IH' preds)]; lia.
Qed.

Lemma loop_kvs_size fuel predicates l :
  kvs_size (loop_kvs fuel predicates l) <=
  kv_weight * length l + (if versatile then length predicates else 0).
Proof.
  revert predicates l. induction fuel as [|fuel IH]; intros preds l; [unfold kvs_size; simpl; lia|].
  destruct l as [|t l]; [unfold kvs_size; simpl; lia|]. cbn [loop_kvs].
  destruct (split_run _ l) as [run rest] eqn:E.
  apply split_run_app in E as (-> & _ & _). rewrite kvs_size_cons.
  rewrite length_fmap, !length_cons, length_app.
  pose proof (λ ps, IH ps rest) as IH'. unfold kv_weight in *.
  destruct versatile; [destruct (match rest with [] => _ | _ => _ end)|]; rewrite ?kvs_size_cons;
    [specialize (IH' [])|specialize (IH' (preds ++ [tr_p t]))|specialize (IH' preds)];
    rewrite ?length_app in *; simpl in *; lia.
Qed.

  (** Inserting pairs with fresh, distinct keys extends the abstract map by them. *)
Lemma put_kvs_ok d g kv kvs :
  gs_rep g kv → NoDup kvs.*1 →
  (∀ x p vals, (x, p, vals) ∈ kvs →
     kv !! IKey x p (dir_val d) = None ∧ key_wf (IKey x p (dir_val d)) ∧
     IKey x p (dir_val d) ≠ empty_key) →
  room g (length kvs) (kvs_size kvs) →
  ∃ g' kv', foldM (put_kv d) g kvs = Ok g' ∧ gs_rep g' kv' ∧
    consumes g (length kvs) (kvs_size kvs) g' ∧
    (∀ x p vals, (x, p, vals) ∈ kvs → kv' !! IKey x p (dir_val d) = Some vals) ∧
    (∀ k, (∀ x p vals, (x, p, vals) ∈ kvs → k ≠ IKey x p (dir_val d)) → kv' !! k = kv !! k).
Proof.
  revert g kv. induction kvs as [|[[x p] vals] kvs IH]; intros g kv Hg Hnd Hf Hr.
  { exists g, kv. split_and!; [done..|apply consumes_refl|set_solver|done]. }
  rewrite kvs_size_cons, length_cons in Hr |- *. rewrite fmap_cons in Hnd. cbn [foldM].
  apply NoDup_cons in Hnd as [Hx Hnd].
  destruct (Hf x p vals) as (Hk & Hw & Hne); [set_solver|].
  destruct (put_normal_ok g kv x p d vals Hg Hk Hw Hne) as (g1 & E & Hg1 & Hc1);
    [eapply room_le; [done|lia|lia]|].
  rewrite put_kv_eq, E. simpl.
  destruct (IH g1 (<[IKey x p (dir_val d) := vals]> kv)) as (g' & kv' & -> & Hg' & Hc' & Hin & Hout);
    [done|done| |by eapply (room_consume g _ _ 1)|].
  - intros x' p' vals' Hin. destruct (Hf x' p' vals') as (? & ? & ?); [set_solver|].
    split_and!; [|done..]. rewrite lookup_insert_ne; [done|]. intros [= -> ->].
    apply Hx. apply list_elem_of_fmap. by exists (x', p', vals').
  - exists g', kv'. split_and!; [done..|by eapply consumes_trans| |].
    + intros x' p' vals' [[= -> -> ->]|Hin']%elem_of_cons; [|by apply Hin].
      rewrite Hout; [apply lookup_insert_eq|]. intros x2 p2 vals2 H2 [= -> ->].
      apply Hx. apply list_elem_of_fmap. by exists (x2, p2, vals2).
    + intros k Hk'. rewrite Hout by set_solver. apply lookup_insert_ne.
      intros <-. apply (Hk' x p vals); set_solver.
Qed.

Lemma vp_edges_occ l x p : vp_edges l x p ≠ [] →
  ∃ t, t ∈ l ∧ v t = x ∧ (tr_p t = p ∨ p = PREDICATE_ID).
Proof.
  intros Hne. unfold vp_edges in Hne. destruct (versatile && _) eqn:Eb.
  - destruct (filter (λ t, v t = x) l) as [|t l'] eqn:E; [done|].
    assert (t ∈ filter (λ t, v t = x) l) as [? ?]%list_elem_of_filter by (rewrite E; left).
    exists t. apply andb_true_iff in Eb as [_ ?%Z.eqb_eq]. auto.
  - destruct (filter (λ t, v t = x ∧ tr_p t = p) l) as [|t l'] eqn:E; [done|].
    assert (t ∈ filter (λ t, v t = x ∧ tr_p t = p) l) as [[? ?] ?]%list_elem_of_filter by (rewrite E; left).
    eauto.
Qed.

  (** A loop of [insert_normal] on sorted triples. *)
Lemma normal_loop_ok d g kv l :
  gs_rep g kv → StronglySorted (vp_le v) l →
  Forall (λ t, 0 < v t < 2 ^ 46 ∧ 0 < tr_p t < 2 ^ 17)%Z l → d ≠ CORUN →
  (∀ t p, t ∈ l → kv !! IKey (v t) p (dir_val d) = None) →
  room g (kv_weight * length l) (kv_weight * length l) →
  ∃ g' kv', normal_loop versatile (length l) v o d g [] l = Ok g' ∧ gs_rep g' kv' ∧
    consumes g (kv_weight * length l) (kv_weight * length l) g' ∧
    ∀ k, kv' !! k = match (if bool_decide (k_dir k = dir_val d) then vp_edges l (k_vid k) (k_pid k) else []) with
                    | [] => kv !! k | vals => Some vals end.
Proof.
  intros Hg Hs Hw Hd Hf Hr. rewrite normal_loop_kvs by done.
  destruct (loop_kvs_spec (length l) [] l) as [Hnd Hkvs]; [done|done| |].
  { intros _. eapply Forall_impl; [exact Hw|]. unfold PREDICATE_ID. simpl. lia. }
  assert (Hin : ∀ x p vals, (x, p, vals) ∈ loop_kvs (length l) [] l ↔ vals = vp_edges l x p ∧ vals ≠ []).
  { intros x p vals. rewrite Hkvs. unfold pending_edges. simpl.
    by replace (if _ && _ then [] else []) with (@nil sid_t) by by destruct (_ && _). }
  rewrite Forall_forall in Hw.
  assert (Hn1 := loop_kvs_length (length l) [] l). assert (Hn2 := loop_kvs_size (length l) [] l).
  replace (if versatile then length [] else 0) with 0 in Hn2 by by destruct versatile.
  rewrite Nat.add_0_r in Hn2.
  destruct (put_kvs_ok d g kv (loop_kvs (length l) [] l) Hg Hnd) as (g' & kv' & E & Hg' & Hc' & H1 & H2).
  - intros x p vals [-> Hne]%Hin. destruct (vp_edges_occ l x p Hne) as (t & Ht & <- & Hp).
    destruct (Hw t Ht) as [Hv1 Hv2]. split_and!; [by apply Hf| |].
    + unfold key_wf. simpl. destruct Hp as [<- | ->]; unfold PREDICATE_ID; destruct d; simpl; try done; lia.
    + intros [=]. lia.
  - by eapply room_le.
  - exists g', kv'. split_and!; [done..|destruct Hc'; split; lia|]. intros [x p dd]. simpl. case_bool_decide as Hdd.
    + subst dd. destruct (vp_edges l x p) as [|y r] eqn:Ev.
      * apply H2. intros x' p' vals [-> Hne]%Hin [= -> ->]. congruence.
      * apply H1, Hin. by rewrite Ev.
    + apply H2. intros x' p' vals _ [= -> -> ->]. done.
Qed.
End runs.

(** ** [insert_normal] *)

(** A loaded triple: the subject is a normal vertex, the predicate is below
    [2^17], the object is a type or a normal vertex. *)
Record triple_wf (t : triple_t) : Prop := {
  wf_s : (2 ^ 17 <= tr_s t < 2 ^ 32)%Z;
  wf_p : (0 < tr_p t < 2 ^ 17)%Z;
  wf_o : (1 < tr_o t < 2 ^ 32)%Z
}.

Lemma is_tpid_sid x : (1 < x < 2 ^ 32)%Z → is_tpid (i32 x) = (x <? 2 ^ 17)%Z.
Proof.
  intros Hx. unfold is_tpid. change (Z.shiftl 1 NBITS_IDX) with (2 ^ 17)%Z.
  destruct (Z.ltb_spec x (2 ^ 31)).
  - rewrite i32_id by lia. by rewrite (proj2 (Z.ltb_lt 1 x)) by lia.
  - unfold i32. replace ((x + 2 ^ 31) mod 2 ^ 32)%Z with (x - 2 ^ 31)%Z.
    + destruct (Z.ltb_spec 1 (x - 2 ^ 31 - 2 ^ 31)); [lia|]. simpl. symmetry. apply Z.ltb_ge. lia.
    + rewrite <-(Z.mod_small (x - 2 ^ 31) (2 ^ 32)) by lia.
      replace (x + 2 ^ 31)%Z with (x - 2 ^ 31 + 1 * 2 ^ 32)%Z by lia. by rewrite Z.mod_add.
Qed.

(** The type triples lead the triples sorted by object. *)
Lemma skip_types_filter ops :
  StronglySorted (vp_le tr_o) ops → Forall triple_wf ops →
  skip_types ops = filter (λ t, 2 ^ 17 <= tr_o t)%Z ops.
Proof.
  intros Hs. induction Hs as [|t ops Hs IH Ht]; intros Hw; [done|].
  apply Forall_cons_iff in Hw as [Hw1 Hw]. simpl. rewrite is_tpid_sid by apply Hw1.
  destruct (Z.ltb_spec (tr_o t) (2 ^ 17)).
  - rewrite filter_cons_False by lia. by apply IH.
  - symmetry. apply filter_all. constructor; [done|].
    eapply Forall_impl; [exact Ht|]. unfold vp_le. lia.
Qed.

Lemma skip_types_sorted ops :
  StronglySorted (vp_le tr_o) ops → StronglySorted (vp_le tr_o) (skip_types ops).
Proof. induction 1; simpl; [constructor|]. case_match; [done|by constructor]. Qed.

Lemma skip_types_length ops : length (skip_types ops) <= length ops.
Proof. induction ops as [|t ops IH]; simpl; [done|]. case_match; simpl; lia. Qed.

(** the value [insert_normal] gives to a key *)
Definition normal_value (versatile : bool) (spo ops : list triple_t) (k : ikey_t) : list sid_t :=
  if bool_decide (k_dir k = dir_val OUT) then vp_edges versatile tr_s tr_o spo (k_vid k) (k_pid k)
  else if bool_decide (k_dir k = dir_val IN) then
    vp_edges versatile tr_o tr_s (skip_types ops) (k_vid k) (k_pid k)
  else [].

Lemma insert_normal_rep versatile g kv spo ops :
  gs_rep g kv →
  StronglySorted (vp_le tr_s) spo → StronglySorted (vp_le tr_o) ops →
  Forall triple_wf spo → Forall triple_wf ops →
  (∀ t p, t ∈ spo → kv !! IKey (tr_s t) p (dir_val OUT) = None) →
  (∀ t p, t ∈ ops → kv !! IKey (tr_o t) p (dir_val IN) = None) →
  let w := kv_weight versatile * (length spo + length ops) in
  room g w w →
  ∃ g' kv', insert_normal versatile g spo ops = Ok g' ∧ gs_rep g' kv' ∧ consumes g w w g' ∧
    ∀ k, kv' !! k = match normal_value versatile spo ops k with [] => kv !! k | vals => Some vals end.
Proof.
  intros Hg Hs Ho Hws Hwo Hfs Hfo w Hr. unfold insert_normal.
  pose proof (skip_types_length ops) as Hsk.
  assert (Hsub : skip_types ops ⊆ ops) by (rewrite skip_types_filter by done; apply list_subseteq_filter).
  set (ops' := skip_types ops) in *. set (c := kv_weight versatile) in *.
  assert (Hnm : c * length spo + c * length ops' <= w).
  { unfold w. rewrite Nat.mul_add_distr_l. by apply Nat.add_le_mono_l, Nat.mul_le_mono_l. }
  destruct (normal_loop_ok versatile tr_s tr_o OUT g kv spo)
    as (g1 & kv1 & -> & Hg1 & Hc1 & Hk1); [done|done| |done|done| |].
  { eapply Forall_impl; [exact Hws|]. intros t [? ? ?]. lia. }
  { eapply room_le; [exact Hr|unfold c in *; lia..]. }
  simpl. destruct (normal_loop_ok versatile tr_o tr_s IN g1 kv1 ops')
    as (g2 & kv2 & -> & Hg2 & Hc2 & Hk2); [done|by apply skip_types_sorted| |done| |
      eapply room_consume; [|exact Hc1]; by eapply room_le|].
  { apply Forall_forall. intros t Ht. rewrite Forall_forall in Hwo.
    destruct (Hwo t); [by apply Hsub|]. lia. }
  { intros t p Ht. rewrite Hk1. simpl. by apply Hfo, Hsub. }
  exists g2, kv2. split_and!; [done..|by eapply consumes_trans|]. intros k. rewrite Hk2, Hk1. unfold normal_value.
  fold ops'. repeat case_bool_decide; try done; simplify_eq/=. congruence.
Qed.

Lemma refresh_rep g :
  header_sizes (hdr g) → length (edges g) = num_entries g → gs_rep (refresh g) ∅.
Proof.
  intros Hs Hl. exists ∅. split; simpl; [by apply refresh_header_rep|set_solver|done|lia|done|set_solver|].
  intros k s vals. by rewrite lookup_empty.
Qed.

Lemma vp_edges_norm versatile v o l x p : (0 < p)%Z →
  vp_edges versatile v o l x p = o <$> filter (λ t, v t = x ∧ tr_p t = p) l.
Proof.
  intros Hp. unfold vp_edges, PREDICATE_ID. destruct (Z.eqb_spec p 0); [lia|]. by rewrite andb_false_r.
Qed.

(** C7: loading triples sorted by subject and by object into a refreshed store
    succeeds when the regions have room, and then the neighbours read under a
    vertex and a predicate are exactly those of the loaded triples, in order: the
    objects of the subject for [OUT], the subjects of the object for [IN]. In the
    [VERSATILE] build the reserved key also lists the distinct predicates. *)
Theorem insert_normal_reads (versatile : bool) (g : gstore) (spo ops : list triple_t) :
  header_sizes (hdr g) → length (edges g) = num_entries g →
  StronglySorted (vp_le tr_s) spo → StronglySorted (vp_le tr_o) ops →
  Forall triple_wf spo → Forall triple_wf ops →
  room (refresh g) (kv_weight versatile * (length spo + length ops))
                   (kv_weight versatile * (length spo + length ops)) →
  ∃ g', insert_normal versatile (refresh g) spo ops = Ok g' ∧
    ∀ x, (2 ^ 17 <= x < 2 ^ 32)%Z →
      (∀ p, (0 < p < 2 ^ 17)%Z →
        get_edges_local g' x OUT p = Ok (tr_o <$> filter (λ t, tr_s t = x ∧ tr_p t = p) spo) ∧
        get_edges_local g' x IN p = Ok (tr_s <$> filter (λ t, tr_o t = x ∧ tr_p t = p) ops)) ∧
      (versatile = true →
        get_edges_local g' x OUT PREDICATE_ID = Ok (dedup_adj (tr_p <$> filter (λ t, tr_s t = x) spo))).
Proof.
  intros Hh Hl Hs Ho Hws Hwo Hr.
  destruct (insert_normal_rep versatile (refresh g) ∅ spo ops)
    as (g' & kv' & -> & Hg' & _ & Hk); [by apply refresh_rep|done..|].
  exists g'. split; [done|]. intros x Hx.
  assert (Hread : ∀ d p, (0 <= p < 2 ^ 17)%Z → d ≠ CORUN →
    get_edges_local g' x d p = Ok (normal_value versatile spo ops (IKey x p (dir_val d)))).
  { intros d p Hp Hd. rewrite (get_edges_local_rep g' kv'); [|done| |intros [=]; lia].
    - rewrite Hk. by destruct (normal_value _ _ _ _) eqn:E.
    - unfold key_wf. simpl. destruct d; simpl; try done; lia. }
  split; [intros p Hp; split|intros ->].
  - rewrite Hread by (done || lia). unfold normal_value. simpl. by rewrite vp_edges_norm by lia.
  - rewrite Hread by (done || lia). unfold normal_value. simpl. rewrite vp_edges_norm by lia.
    rewrite skip_types_filter, list_filter_filter_l by (done || lia). done.
  - rewrite Hread by (done || (unfold PREDICATE_ID; lia)). done.
Qed.

(** one triple loaded by subject and by object *)
Definition small_store : gstore := GStore small_header 64 0 (replicate 64 0%Z).

Lemma insert_normal_reads_witness :
  ∃ g', insert_normal false (refresh small_store) [Triple 131072 5 131073] [Triple 131072 5 131073] = Ok g' ∧
        get_edges_local g' 131073 IN 5 = Ok [131072%Z].
Proof.
  assert (Hw : Forall triple_wf [Triple 131072 5 131073]).
  { repeat constructor; simpl; lia. }
  destruct (insert_normal_reads false small_store [Triple 131072 5 131073] [Triple 131072 5 131073])
    as (g' & E & Hg); [apply small_header_sizes|done|repeat constructor|repeat constructor|exact Hw|exact Hw| |].
  { split; simpl; lia. }
  exists g'. split; [exact E|]. apply (Hg 131073%Z); lia.
Defined.

(** ** The constructor *)

Lemma hash_prime_le u : (0 < u)%Z → (0 < hash_prime_u64 u <= u)%Z.
Proof.
  intros Hu. unfold hash_prime_u64.
  repeat (match goal with |- context [if (?a <=? ?b)%Z then _ else _] =>
            destruct (Z.leb_spec a b) end; [lia|]). lia.
Qed.

(** the constructor splits a key/value region of 1 GiB to 2^50 bytes into a
    header and an entry region that fit in it; every bucket number is a slot range
    of the header and fits the 46 bits of a link, some indirect buckets exist, and the
    header has at least as many bytes as there are entries. *)
Theorem new_gstore_layout (kvs : Z) :
  (2 ^ 30 <= kvs < 2 ^ 50)%Z →
  let g := new_gstore kvs in
  header_sizes (hdr g) ∧ length (edges g) = num_entries g ∧ 0 < num_buckets_ext (hdr g) ∧
  (Z.of_nat (num_slots (hdr g)) * sizeof_vertex + Z.of_nat (num_entries g) * sizeof_edge <= kvs)%Z ∧
  (Z.of_nat (num_entries g) <= Z.of_nat (num_slots (hdr g)) * sizeof_vertex)%Z.
Proof.
  intros Hk. unfold new_gstore. change HD_RATIO with 57%Z. change (Z.of_nat ASSOCIATIVITY) with 8%Z.
  unfold MHD_RATIO, sizeof_vertex, sizeof_edge. rewrite (u64_id (kvs * 57)) by lia.
  set (hd := (kvs * 57 / 100)%Z). assert (Hh : (kvs * 57 - 100 < 100 * hd <= kvs * 57)%Z).
  { pose proof (Z.mod_pos_bound (kvs * 57) 100). pose proof (Z.div_mod (kvs * 57) 100). unfold hd. lia. }
  rewrite (u64_id (kvs - hd)) by lia.
  set (ns := (hd / 16)%Z). set (b := (ns / 8)%Z). set (ne := ((kvs - hd) / 4)%Z).
  assert (Hns : (hd - 16 < 16 * ns <= hd)%Z) by (unfold ns; Z.to_euclidean_division_equations; lia).
  assert (Hb : (ns - 8 < 8 * b <= ns)%Z) by (unfold b; Z.to_euclidean_division_equations; lia).
  assert (Hne : (0 <= ne ∧ 4 * ne <= kvs - hd)%Z) by (unfold ne; Z.to_euclidean_division_equations; lia).
  rewrite (u64_id (b * 80)) by lia. set (up := (b * 80 / 100)%Z).
  assert (Hup : (b * 80 - 100 < 100 * up <= b * 80)%Z) by (unfold up; Z.to_euclidean_division_equations; lia).
  pose proof (hash_prime_le up) as Hp. set (nb := hash_prime_u64 up) in *.
  rewrite (u64_id (b - nb)) by lia. split_and!; cbn [hdr num_slots num_buckets num_buckets_ext edges num_entries].
  - split; cbn [num_slots num_buckets num_buckets_ext]; unfold ASSOCIATIVITY; lia.
  - apply length_replicate.
  - lia.
  - lia.
  - lia.
Qed.

Lemma new_gstore_layout_witness :
  (2 ^ 30 <= 2 ^ 34 < 2 ^ 50)%Z ∧ header_sizes (hdr (new_gstore (2 ^ 34))).
Proof. split; [lia|]. apply (new_gstore_layout (2 ^ 34)). lia. Defined.
