(* ===== verification/Index.v ===== *)
(** [GStore::insert_index] ([core/gstore.hpp]): the predicate and type indexes are
    collected by scanning the header region and inserted as vertices of id 0. The
    scan is an OpenMP loop over the buckets and the indexes are TBB containers:
    the order of the buckets and the iteration orders are arguments. *)

From S2P Require Import Prelude Types MyMath Keys HashTable GStore Runs.
Local Open Scope nat_scope.

Abbreviation index_map := (gmap sid_t (list sid_t)).

(** Iteration over [tbb::concurrent_hash_map] and [tbb::concurrent_unordered_set]
    visits every element once, in an order that is not specified. *)
Class TbbOrder := {
  iter_map : index_map → list (sid_t * list sid_t);
  iter_set : gset sid_t → list sid_t;
  iter_map_perm m : iter_map m ≡ₚ map_to_list m;
  iter_set_perm s : iter_set s ≡ₚ elements s
}.

Record index_data := IndexData {
  pidx_in_map : index_map;   (* predicate-index (IN) *)
  pidx_out_map : index_map;  (* predicate-index (OUT) *)
  tidx_map : index_map;      (* type-index *)
  v_set : gset sid_t;        (* all of subjects and objects *)
  t_set : gset sid_t;        (* all of types *)
  p_set : gset sid_t         (* all of predicates *)
}.

Definition empty_index : index_data := IndexData ∅ ∅ ∅ ∅ ∅ ∅.

(** [map.insert(a, id); a->second.push_back(vid)] *)
Definition push_back (m : index_map) (id vid : sid_t) : index_map :=
  <[id := default [] (m !! id) ++ [vid]]> m.

Section insert_index.
  Context (versatile : bool) `{TbbOrder}.

  (** the body of the scan for a non-empty slot with key [k] and edges [vals] *)
Definition collect_entry (ix : index_data) (k : ikey_t) (vals : list sid_t) : outcome index_data :=
  let '(IndexData pin pout tix vs ts ps) := ix in
  let vid := k_vid k in
  let pid := k_pid k in
  if (k_dir k =? dir_val IN)%Z then
    if (pid =? PREDICATE_ID)%Z then
      if versatile then Ok (IndexData pin pout tix ({[vid]} ∪ vs) ts (list_to_set vals ∪ ps))
      else Ok ix
    else if (pid =? TYPE_ID)%Z then Err AssertFail (* (IN) type triples should be skipped *)
    else Ok (IndexData pin (push_back pout pid vid) tix vs ts ps)
  else
    if (pid =? PREDICATE_ID)%Z then
      if versatile then Ok (IndexData pin pout tix ({[vid]} ∪ vs) ts (list_to_set vals ∪ ps))
      else Ok ix
    else if (pid =? TYPE_ID)%Z then
      let tix := foldl (λ m t, push_back m t vid) tix vals in
      if versatile then Ok (IndexData pin pout tix ({[vid]} ∪ vs) (list_to_set vals ∪ ts) ps)
      else Ok (IndexData pin pout tix vs ts ps)
    else Ok (IndexData (push_back pin pid vid) pout tix vs ts ps).

  (** [for (i < ASSOCIATIVITY - 1)]: it leaves the bucket at an empty slot *)
Fixpoint collect_bucket (n : nat) (g : gstore) (ix : index_data) (slot_id : nat)
    : outcome index_data :=
  match n with
  | O => Ok ix
  | S n =>
      v ← read (vertices (hdr g)) slot_id;
      if is_empty (v_key v) then Ok ix
      else
        vals ← read_edges g (Z.to_nat (p_off (v_ptr v))) (Z.to_nat (p_size (v_ptr v)));
        ix ← collect_entry ix (v_key v) vals;
        collect_bucket n g ix (S slot_id)
  end.

  (** the scan of the buckets [bs] *)
Definition collect_index (g : gstore) (bs : list nat) : outcome index_data :=
  foldM (λ ix b, collect_bucket (ASSOCIATIVITY - 1) g ix (b * ASSOCIATIVITY)) empty_index bs.

Definition insert_index_map (g : gstore) (m : index_map) (d : dir_t) : outcome gstore :=
  foldM (λ g e, put_index g e.1 d e.2) g (iter_map m).

Definition insert_index_set (g : gstore) (s : gset sid_t) (tpid : sid_t) (d : dir_t) : outcome gstore :=
  put_index g tpid d (iter_set s).

Definition insert_index (g : gstore) (bs : list nat) : outcome gstore :=
  ix ← collect_index g bs;
  g ← insert_index_map g (tidx_map ix) IN;
  g ← insert_index_map g (pidx_in_map ix) IN;
  g ← insert_index_map g (pidx_out_map ix) OUT;
  if versatile then
    g ← insert_index_set g (v_set ix) TYPE_ID IN;
    g ← insert_index_set g (t_set ix) TYPE_ID OUT;
    insert_index_set g (p_set ix) PREDICATE_ID OUT
  else Ok g.
End insert_index.

(** ** The scan visits every stored key once *)

(** the slots of a bucket before its first empty slot *)
Fixpoint used_slots (vs : list vertex_t) (sl : list nat) : list nat :=
  match sl with
  | [] => []
  | s :: sl =>
      match key_at vs s with
      | Some k => if is_empty k then [] else s :: used_slots vs sl
      | None => []
      end
  end.

Definition visited (vs : list vertex_t) (bs : list nat) : list nat :=
  bs ≫= λ b, used_slots vs (data_slots b).

Lemma used_slots_sublist vs sl : used_slots vs sl `sublist_of` sl.
Proof.
  induction sl as [|s sl IH]; simpl; [done|].
  destruct (key_at vs s) as [k|]; [destruct (is_empty k)|]; [apply sublist_nil_l| |apply sublist_nil_l].
  by apply sublist_skip.
Qed.

Lemma elem_of_used_slots vs sl s :
  s ∈ used_slots vs sl ↔
  ∃ j, sl !! j = Some s ∧ ∀ i t, i <= j → sl !! i = Some t → ∃ k, key_at vs t = Some k ∧ k ≠ empty_key.
Proof.
  induction sl as [|a sl IH]; simpl; [rewrite elem_of_nil; naive_solver|]. split.
  - destruct (key_at vs a) as [k|] eqn:Ek; [|by intros ?%elem_of_nil].
    destruct (is_empty_spec k) as [|Hk]; [by intros ?%elem_of_nil|].
    intros [->|(j & Hj & Hi)%IH]%elem_of_cons.
    + exists 0. split; [done|]. intros [|i] t ? Ht; [|lia]. simplify_eq/=. eauto.
    + exists (S j). split; [done|]. intros [|i] t ? Ht; simplify_eq/=; [eauto|]. apply (Hi i); [lia|done].
  - intros (j & Hj & Hi). destruct (Hi 0 a ltac:(lia) eq_refl) as (k & -> & Hk).
    destruct (is_empty_spec k); [done|]. destruct j as [|j]; simplify_eq/=; [by left|]. right.
    apply IH. exists j. split; [done|]. intros i t Hij Ht. apply (Hi (S i)); [lia|done].
Qed.

Lemma NoDup_visited vs bs : NoDup bs → NoDup (visited vs bs).
Proof.
  intros Hbs. eapply sublist_NoDup; [apply (NoDup_slots_of bs Hbs)|].
  unfold visited, slots_of. clear Hbs. induction bs as [|b bs IH]; [done|].
  rewrite !bind_cons. by apply sublist_app; [apply used_slots_sublist|].
Qed.

(** The slots of a chain that hold a key are its first ones. *)
Lemma chain_slot_used vs i l ks j s :
  chain_ok vs i l ks → slots_of l !! j = Some s →
  (∃ k, key_at vs s = Some k ∧ k ≠ empty_key) ↔ j < length ks.
Proof.
  intros [_ [n Hn] He _] Hs.
  assert (Hl : Some (key_at vs s) = (Some <$> (ks ++ replicate n empty_key)) !! j).
  { rewrite <-Hn, list_lookup_fmap, Hs. done. }
  rewrite list_lookup_fmap in Hl. destruct (decide (j < length ks)) as [Hj|Hj].
  - rewrite lookup_app_l in Hl by done. destruct (lookup_lt_is_Some_2 _ _ Hj) as [k Hk].
    rewrite Hk in Hl. simpl in Hl. injection Hl as ->. split; [done|]. intros _. exists k.
    split; [done|]. intros ->. by apply He, (list_elem_of_lookup_2 _ j).
  - rewrite lookup_app_r in Hl by lia. split; [|done]. intros (k & Hk & Hne).
    destruct (replicate n empty_key !! (j - length ks)) as [k'|] eqn:E; [|done].
    apply lookup_replicate in E as [-> _]. simpl in Hl. congruence.
Qed.

(** A data slot that is not empty holds a key of the table. *)
Lemma used_slot_key h m b s k :
  ht_rep h m → b < num_buckets h + last_ext h → s ∈ data_slots b → key_at (vertices h) s = Some k → k ≠ empty_key → ∃ k', m !! k' = Some s.
Proof.
  intros (ch & ky & Hok & Hm) Hb Hs Hk Hne.
  assert (b ∈ concat ch) as Hbc by (rewrite (ok_perm _ _ _ Hok), elem_of_seq; lia).
  apply list_elem_of_In, in_concat in Hbc as (l & Hl & Hbl). apply list_elem_of_In in Hl, Hbl.
  apply list_elem_of_lookup in Hl as [i Hi].
  assert (i < num_buckets h) as Hlt by (rewrite <-(ok_ch _ _ _ Hok); by eapply lookup_lt_Some).
  rewrite <-(ok_ky _ _ _ Hok) in Hlt. destruct (lookup_lt_is_Some_2 _ _ Hlt) as [ks Hks].
  pose proof (ok_chain _ _ _ Hok _ _ _ Hi Hks) as Hc.
  assert (s ∈ slots_of l) as Hsl by (unfold slots_of; apply list_elem_of_bind; by exists b).
  apply list_elem_of_lookup in Hsl as [j' Hj'].
  assert (j' < length ks) as Hj2 by (apply (chain_slot_used _ _ _ _ _ _ Hc Hj'); eauto).
  destruct (lookup_lt_is_Some_2 _ _ Hj2) as [k' Hk']. exists k'. apply Hm. by exists i, l, ks, j'.
Qed.

Lemma elem_of_visited h m bs s :
  ht_rep h m → bs ≡ₚ seq 0 (num_buckets h + last_ext h) →
  s ∈ visited (vertices h) bs ↔ ∃ k, m !! k = Some s.
Proof.
  intros Hrep Hbs. pose proof Hrep as (ch & ky & Hok & Hm). unfold visited. rewrite list_elem_of_bind. split.
  - intros (b & (j & Hj & Hall)%elem_of_used_slots & Hb). rewrite Hbs, elem_of_seq in Hb.
    destruct (Hall j s) as (k & Hk & Hne); [done..|].
    eapply used_slot_key; [done| |by eapply list_elem_of_lookup_2|done|done]. lia.
  - intros (k & Hk%Hm). destruct Hk as (i & l & ks & j & Hi & Hks & Hj & Hs).
    pose proof (ok_chain _ _ _ Hok _ _ _ Hi Hks) as Hc.
    apply list_elem_of_lookup_2 in Hs as Hsl. unfold slots_of in Hsl.
    apply list_elem_of_bind in Hsl as (b & Hsb & Hbl). exists b. split.
    2: { rewrite Hbs, <-(ok_perm _ _ _ Hok). by eapply elem_of_concat_lookup. }
    apply list_elem_of_lookup in Hsb as [j0 Hj0]. apply elem_of_used_slots. exists j0. split; [done|].
    intros i0 t Hi0 Ht. apply list_elem_of_split in Hbl as (l1 & l2 & ->).
    rewrite slots_of_app, slots_of_cons in Hs.
    assert (Hpos : ∀ n x, data_slots b !! n = Some x →
      slots_of (l1 ++ b :: l2) !! (length (slots_of l1) + n) = Some x).
    { intros n x Hn. rewrite slots_of_app, slots_of_cons, lookup_app_r by lia.
      rewrite Nat.add_comm, Nat.add_sub. by apply lookup_app_l_Some. }
    apply (chain_slot_used _ _ _ _ (length (slots_of l1) + i0) _ Hc); [by apply Hpos|].
    assert (length (slots_of l1) + j0 = j) as <-.
    { eapply NoDup_lookup; [|by apply Hpos|by rewrite slots_of_app, slots_of_cons].
      apply NoDup_slots_of. eapply NoDup_concat_lookup; [by eapply ok_nodup|done]. }
    apply lookup_lt_Some in Hj. lia.
Qed.

(** ** The collected indexes *)

(** the key and the edges of a slot *)
Definition entry_of (g : gstore) (s : nat) : option (ikey_t * list sid_t) :=
  (λ v, (v_key v, take (Z.to_nat (p_size (v_ptr v))) (drop (Z.to_nat (p_off (v_ptr v))) (edges g))))
    <$> vertices (hdr g) !! s.

Definition scan_entries (g : gstore) (bs : list nat) : list (ikey_t * list sid_t) :=
  omap (entry_of g) (visited (vertices (hdr g)) bs).

(** A used slot of a represented store holds a pair of the map. *)
Lemma entry_of_rep g m kv s k :
  gs_ok g m kv → m !! k = Some s →
  ∃ v vals, vertices (hdr g) !! s = Some v ∧ v_key v = k ∧ kv !! k = Some vals ∧
    read_edges g (Z.to_nat (p_off (v_ptr v))) (Z.to_nat (p_size (v_ptr v))) = Ok vals ∧
    entry_of g s = Some (k, vals).
Proof.
  intros [Hh Hd Hlen Hlast _ Hwf He] Hs.
  destruct (ht_rep_slot _ _ _ _ Hh Hs) as (v & Hv & Hk).
  assert (is_Some (kv !! k)) as [vals Hvals].
  { apply elem_of_dom. rewrite <-Hd. apply elem_of_dom. eauto. }
  destruct (He k s vals Hs Hvals) as (p & Hp & [Hsz _ Hr Hval]).
  unfold ptr_at in Hp. rewrite Hv in Hp. simplify_eq/=. exists v, vals.
  unfold entry_of, read_edges. rewrite Hv. simpl. rewrite Hsz, Nat2Z.id, Hval.
  rewrite (proj2 (Nat.leb_le _ _)) by lia. done.
Qed.

Lemma scan_entries_perm g kv bs :
  gs_rep g kv → bs ≡ₚ seq 0 (num_buckets (hdr g) + last_ext (hdr g)) →
  scan_entries g bs ≡ₚ map_to_list kv.
Proof.
  intros [m Hg] Hbs. pose proof (gs_hdr _ _ _ Hg) as Hh.
  assert (Hel : ∀ s, s ∈ visited (vertices (hdr g)) bs ↔ ∃ k, m !! k = Some s).
  { intros s. by apply elem_of_visited. }
  assert (Hnd : NoDup (visited (vertices (hdr g)) bs)).
  { apply NoDup_visited. rewrite Hbs. apply NoDup_seq. }
  apply NoDup_Permutation.
  - unfold scan_entries. revert Hel Hnd. generalize (visited (vertices (hdr g)) bs). intros sl Hel Hnd.
    assert (Hel' : ∀ s, s ∈ sl → ∃ k, m !! k = Some s) by naive_solver. clear Hel.
    induction Hnd as [|s sl Hs Hnd IH]; [constructor|]. simpl.
    destruct (Hel' s) as [k Hk]; [set_solver|].
    destruct (entry_of_rep g m kv s k Hg Hk) as (v & vals & _ & _ & _ & _ & ->).
    apply NoDup_cons. split; [|apply IH; set_solver].
    intros (s' & Hs' & E)%list_elem_of_omap. destruct (Hel' s') as [k' Hk']; [set_solver|].
    destruct (entry_of_rep g m kv s' k' Hg Hk') as (? & ? & _ & _ & _ & _ & E').
    rewrite E' in E. simplify_eq. by simplify_map_eq.
  - apply NoDup_map_to_list.
  - intros [k vals]. unfold scan_entries. rewrite list_elem_of_omap, elem_of_map_to_list. split.
    + intros (s & [k' Hk']%Hel & E). destruct (entry_of_rep g m kv s k' Hg Hk') as (? & ? & _ & _ & ? & _ & E').
      rewrite E' in E. by simplify_eq.
    + intros Hkv. assert (is_Some (m !! k)) as [s Hs].
      { apply elem_of_dom. rewrite (gs_dom _ _ _ Hg). apply elem_of_dom. eauto. }
      exists s. split; [apply Hel; eauto|].
      destruct (entry_of_rep g m kv s k Hg Hs) as (? & ? & _ & _ & ? & _ & ->). by simplify_eq.
Qed.

Lemma collect_bucket_entries versatile g m kv ix s n :
  gs_ok g m kv → s + n <= length (vertices (hdr g)) →
  (∀ t, t ∈ used_slots (vertices (hdr g)) (seq s n) → ∃ k, m !! k = Some t) →
  collect_bucket versatile n g ix s =
  foldM (λ ix e, collect_entry versatile ix e.1 e.2) ix
    (omap (entry_of g) (used_slots (vertices (hdr g)) (seq s n))).
Proof.
  intros Hg. revert s ix. induction n as [|n IH]; intros s ix Hl Hu; [done|].
  cbn [collect_bucket seq used_slots] in *.
  destruct (lookup_lt_is_Some_2 (vertices (hdr g)) s) as [v Hv]; [lia|].
  unfold read. unfold key_at in *. rewrite Hv in *. simpl in *.
  destruct (is_empty (v_key v)) eqn:Ee; [done|].
  destruct (Hu s) as [k Hk]; [by left|].
  destruct (entry_of_rep g m kv s k Hg Hk) as (v' & vals & Hv' & <- & _ & E1 & E2).
  rewrite Hv in Hv'. injection Hv' as <-. cbn [omap list_omap]. rewrite E1, E2. simpl.
  destruct (collect_entry _ _ _ _) as [ix'|]; simpl; [|done].
  apply IH; [lia|]. intros t Ht. apply Hu. by right.
Qed.

Lemma foldM_bind {A B S} (f : S → B → outcome S) (h : A → list B) s l :
  foldM (λ s a, foldM f s (h a)) s l = foldM f s (l ≫= h).
Proof.
  revert s. induction l as [|a l IH]; intros s; [done|]. rewrite bind_cons, foldM_app. simpl.
  destruct (foldM f s (h a)); simpl; [apply IH|done].
Qed.

Lemma foldM_ext {A S} (f f' : S → A → outcome S) s l :
  (∀ s x, x ∈ l → f s x = f' s x) → foldM f s l = foldM f' s l.
Proof.
  revert s. induction l as [|a l IH]; intros s Hf; simpl; [done|]. rewrite Hf by set_solver.
  destruct (f' s a); simpl; [|done]. apply IH. set_solver.
Qed.

Lemma omap_bind {A B C} (f : B → option C) (h : A → list B) l :
  omap f (l ≫= h) = l ≫= λ a, omap f (h a).
Proof. induction l as [|a l IH]; [done|]. by rewrite !bind_cons, omap_app, IH. Qed.

(** The scan is a fold over the pairs of the store, in some order. *)
Lemma collect_index_entries versatile g kv bs :
  gs_rep g kv → bs ≡ₚ seq 0 (num_buckets (hdr g) + last_ext (hdr g)) →
  collect_index versatile g bs =
  foldM (λ ix e, collect_entry versatile ix e.1 e.2) empty_index (scan_entries g bs).
Proof.
  intros [m Hg] Hbs. unfold scan_entries, visited, collect_index.
  rewrite omap_bind, <-foldM_bind. apply foldM_ext. intros ix b Hb.
  apply (collect_bucket_entries versatile g m kv ix _ _ Hg).
  - destruct (gs_hdr _ _ _ Hg) as (ch & ky & Hok & _). rewrite Hbs, elem_of_seq in Hb.
    pose proof (ok_len _ _ _ Hok). pose proof (ok_cap _ _ _ Hok). pose proof (ok_ext _ _ _ Hok).
    change ASSOCIATIVITY with 8 in *. lia.
  - intros t Ht. apply (elem_of_visited (hdr g) m bs); [apply (gs_hdr _ _ _ Hg)|done|].
    apply list_elem_of_bind. by exists b.
Qed.

(** ** What the index maps hold *)

Definition opt_list (l : list sid_t) : option (list sid_t) := match l with [] => None | _ => Some l end.

(** the map lists the nonempty values of [f] *)
Definition index_is (m : index_map) (f : sid_t → list sid_t) : Prop := ∀ id, m !! id = opt_list (f id).

Lemma opt_list_default l : default [] (opt_list l) = l.
Proof. by destruct l. Qed.
Lemma opt_list_snoc l x : opt_list (l ++ [x]) = Some (l ++ [x]).
Proof. by destruct l. Qed.

Lemma push_back_is m f id vid :
  index_is m f → index_is (push_back m id vid) (λ i, f i ++ if bool_decide (i = id) then [vid] else []).
Proof.
  intros Hm i. unfold push_back. rewrite Hm, opt_list_default. destruct (decide (i = id)) as [->|].
  - by rewrite lookup_insert_eq, bool_decide_true, opt_list_snoc.
  - by rewrite lookup_insert_ne, bool_decide_false, app_nil_r.
Qed.

Lemma push_all_is m f vals vid :
  index_is m f →
  index_is (foldl (λ m t, push_back m t vid) m vals) (λ i, f i ++ ((λ _, vid) <$> filter (λ t, t = i) vals)).
Proof.
  revert m f. induction vals as [|t vals IH]; intros m f Hm i; simpl.
  - by rewrite app_nil_r.
  - rewrite (IH _ _ (push_back_is m f t vid Hm) i). f_equal. rewrite <-app_assoc. f_equal.
    rewrite filter_cons. by destruct (decide (t = i)) as [->|]; case_bool_decide.
Qed.

Lemma push_back_total m id vid : kv_total (push_back m id vid) = S (kv_total m).
Proof.
  unfold push_back. destruct (m !! id) as [l|] eqn:E; simpl.
  - rewrite <-insert_delete_eq, kv_total_insert by apply lookup_delete_eq.
    rewrite <-(insert_delete_id m id l) at 2 by done.
    rewrite kv_total_insert by apply lookup_delete_eq. rewrite length_app. simpl. lia.
  - by rewrite kv_total_insert.
Qed.

Lemma push_all_total m vals vid :
  kv_total (foldl (λ m t, push_back m t vid) m vals) = length vals + kv_total m.
Proof.
  revert m. induction vals as [|t vals IH]; intros m; simpl; [done|].
  rewrite IH, push_back_total. lia.
Qed.

Lemma index_size m f : index_is m f → size m <= kv_total m.
Proof.
  intros Hm. rewrite <-length_map_to_list. unfold kv_total.
  assert (Hne : ∀ e, e ∈ map_to_list m → 1 <= length e.2).
  { intros [i l] Hi%elem_of_map_to_list. rewrite Hm in Hi. simpl. destruct (f i); simplify_eq/=. lia. }
  induction (map_to_list m) as [|e l IH]; simpl; [done|].
  pose proof (Hne e ltac:(set_solver)). pose proof (IH ltac:(set_solver)). lia.
Qed.

(** *** Predicate- and type-index of a list of pairs *)
Definition is_pred (k : ikey_t) : bool := negb (k_pid k =? PREDICATE_ID)%Z && negb (k_pid k =? TYPE_ID)%Z.
Definition dir_in (k : ikey_t) : bool := (k_dir k =? dir_val IN)%Z.

Definition pred_vids (inc : bool) (es : list (ikey_t * list sid_t)) (p : sid_t) : list sid_t :=
  k_vid <$> filter (λ k, is_pred k = true ∧ dir_in k = inc ∧ k_pid k = p) es.*1.
Definition type_vids (es : list (ikey_t * list sid_t)) (t : sid_t) : list sid_t :=
  es ≫= λ e, if negb (dir_in e.1) && (k_pid e.1 =? TYPE_ID)%Z
             then (λ _, k_vid e.1) <$> filter (λ x, x = t) e.2 else [].

(** The indexes collected from the pairs [es]. *)
Record index_of (versatile : bool) (es : list (ikey_t * list sid_t)) (ix : index_data) : Prop := {
  ix_in : index_is (pidx_in_map ix) (pred_vids false es);
  ix_out : index_is (pidx_out_map ix) (pred_vids true es);
  ix_type : index_is (tidx_map ix) (type_vids es);
  ix_total : kv_total (pidx_in_map ix) + kv_total (pidx_out_map ix) + kv_total (tidx_map ix)
             <= sum_list_with (λ e, length e.2) es;
  ix_v x : x ∈ v_set ix ↔ versatile = true ∧ ∃ k vals, (k, vals) ∈ es ∧ is_pred k = false ∧ k_vid k = x;
  ix_t x : x ∈ t_set ix ↔ versatile = true ∧ ∃ k vals, (k, vals) ∈ es ∧ k_pid k = TYPE_ID ∧ x ∈ vals;
  ix_p x : x ∈ p_set ix ↔ versatile = true ∧ ∃ k vals, (k, vals) ∈ es ∧ k_pid k = PREDICATE_ID ∧ x ∈ vals;
  ix_vn : size (v_set ix) <= length es;
  ix_tn : size (t_set ix) <= sum_list_with (λ e, length e.2) es;
  ix_pn : size (p_set ix) <= sum_list_with (λ e, length e.2) es
}.

Lemma pred_vids_snoc inc es k vals p :
  pred_vids inc (es ++ [(k, vals)]) p =
  pred_vids inc es p ++ if is_pred k && eqb (dir_in k) inc && bool_decide (p = k_pid k) then [k_vid k] else [].
Proof.
  unfold pred_vids. rewrite fmap_app, filter_app, fmap_app. f_equal. simpl. rewrite filter_cons.
  destruct (decide _) as [(H1 & H2 & H3)|Hn].
  - rewrite H1, H2, H3, eqb_reflx, bool_decide_true by done. done.
  - destruct (is_pred k && _ && _) eqn:E; [|done]. exfalso. apply Hn.
    apply andb_true_iff in E as [E E3%bool_decide_eq_true_1].
    apply andb_true_iff in E as [E1 E2%eqb_prop]. done.
Qed.

Lemma type_vids_snoc es k vals t :
  type_vids (es ++ [(k, vals)]) t =
  type_vids es t ++ if negb (dir_in k) && (k_pid k =? TYPE_ID)%Z
                    then (λ _, k_vid k) <$> filter (λ x, x = t) vals else [].
Proof. unfold type_vids. rewrite bind_app. simpl. by rewrite app_nil_r. Qed.

Lemma size_union_le (X Y : gset sid_t) : size (X ∪ Y) <= size X + size Y.
Proof. rewrite size_union_alt. assert (size (Y ∖ X) <= size Y) by (apply subseteq_size; set_solver). lia. Qed.

Lemma size_list_union (vals : list sid_t) (s : gset sid_t) :
  size (list_to_set vals ∪ s) <= length vals + size s.
Proof.
  induction vals as [|x vals IH]; simpl; [by rewrite union_empty_l_L|].
  rewrite <-union_assoc_L. pose proof (size_union_le {[x]} (list_to_set vals ∪ s)).
  rewrite size_singleton in *. lia.
Qed.

Lemma exists_snoc (P : ikey_t → list sid_t → Prop) es k vals :
  (∃ k' vals', (k', vals') ∈ es ++ [(k, vals)] ∧ P k' vals') ↔
  (∃ k' vals', (k', vals') ∈ es ∧ P k' vals') ∨ P k vals.
Proof. setoid_rewrite elem_of_app. setoid_rewrite list_elem_of_singleton. naive_solver. Qed.

Lemma index_is_ext m f f' : index_is m f → (∀ i, f' i = f i) → index_is m f'.
Proof. intros Hm Hf i. by rewrite Hf. Qed.

(** One more pair in the scan. *)
Lemma collect_entry_of versatile es ix k vals :
  index_of versatile es ix → vals ≠ [] → ¬ (dir_in k = true ∧ k_pid k = TYPE_ID) →
  ∃ ix', collect_entry versatile ix k vals = Ok ix' ∧ index_of versatile (es ++ [(k, vals)]) ix'.
Proof.
  intros [Hin Hout Hty Htot Hv Ht Hp Hvn Htn Hpn] Hne Hk.
  assert (1 <= length vals) by (destruct vals; simpl; [done|lia]).
  pose proof (size_list_union vals (t_set ix)). pose proof (size_list_union vals (p_set ix)).
  pose proof (size_union_le {[k_vid k]} (v_set ix)) as Hsv. rewrite size_singleton in Hsv.
  destruct ix as [pin pout tix vs ts ps]. unfold collect_entry. fold (dir_in k).
  assert (Hpr : is_pred k = negb (k_pid k =? PREDICATE_ID)%Z && negb (k_pid k =? TYPE_ID)%Z) by done.
  pose proof (λ i, pred_vids_snoc false es k vals i) as S1.
  pose proof (λ i, pred_vids_snoc true es k vals i) as S2.
  pose proof (λ i, type_vids_snoc es k vals i) as S3.
  destruct (dir_in k) eqn:Ed; destruct (Z.eqb_spec (k_pid k) PREDICATE_ID) as [Ep|Ep];
    destruct (Z.eqb_spec (k_pid k) TYPE_ID) as [Et|Et];
    try (by destruct Hk); try (rewrite Ep in Et; discriminate);
    rewrite Hpr in S1, S2; cbn [negb andb eqb] in S1, S2, S3, Hpr;
    destruct versatile;
    (eexists; split; [reflexivity|]); split;
    cbn [pidx_in_map pidx_out_map tidx_map v_set t_set p_set] in *;
    rewrite ?sum_list_with_app, ?push_back_total, ?push_all_total, ?length_app; simpl; try lia;
    try (eapply index_is_ext; [eassumption|intros i; rewrite ?S1, ?S2, ?S3; by rewrite ?app_nil_r]);
    try (eapply index_is_ext; [apply push_back_is; eassumption|intros i; by rewrite ?S1, ?S2]);
    try (eapply index_is_ext; [apply push_all_is; eassumption|intros i; by rewrite ?S3]);
    intros x; rewrite exists_snoc, ?elem_of_union, ?elem_of_list_to_set, ?elem_of_singleton, ?Hv, ?Ht, ?Hp, ?Hpr;
    try naive_solver.
Qed.

Lemma collect_entries versatile es :
  (∀ k vals, (k, vals) ∈ es → vals ≠ [] ∧ ¬ (dir_in k = true ∧ k_pid k = TYPE_ID)) →
  ∃ ix, foldM (λ ix e, collect_entry versatile ix e.1 e.2) empty_index es = Ok ix ∧
        index_of versatile es ix.
Proof.
  intros Hes. apply (foldM_total _ (index_of versatile)).
  - split; simpl; try (intros i; apply lookup_empty); try done;
      intros x; setoid_rewrite elem_of_nil; rewrite elem_of_empty; naive_solver.
  - intros l1 [k vals] l2 ix -> Hix. destruct (Hes k vals) as [? ?]; [set_solver|].
    by apply collect_entry_of.
Qed.
