(* ===== verification/IndexInsert.v ===== *)
(** [GStore::insert_index], second part: the index vertices are inserted on top of
    the normal ones, and what is read back under an index key. *)

From stdpp Require Import sorting.
From S2P Require Import Prelude Types MyMath Keys HashTable GStore Runs Index.
Local Open Scope nat_scope.

(** ** Inserting the index vertices *)

Section insert_maps.
  Context `{TbbOrder}.

Lemma put_index_list g kv d es :
  gs_rep g kv → NoDup es.*1 → d ≠ CORUN →
  (∀ p vals, (p, vals) ∈ es → kv !! IKey 0 p (dir_val d) = None ∧ (1 < p < 2 ^ 17)%Z) →
  room g (length es) (sum_list_with (λ e, length e.2) es) →
  ∃ g' kv', foldM (λ g e, put_index g e.1 d e.2) g es = Ok g' ∧ gs_rep g' kv' ∧
    consumes g (length es) (sum_list_with (λ e, length e.2) es) g' ∧
    (∀ p vals, (p, vals) ∈ es → kv' !! IKey 0 p (dir_val d) = Some vals) ∧
    (∀ k, (∀ p vals, (p, vals) ∈ es → k ≠ IKey 0 p (dir_val d)) → kv' !! k = kv !! k) ∧ dom kv ⊆ dom kv' ∧ types_kept kv g g'.
Proof.
  intros Hg Hnd Hd. revert g kv Hg. induction es as [|[p vals] es IH]; intros g kv Hg Hf Hr; simpl in *.
  { exists g, kv. split_and!; [done..|apply consumes_refl|set_solver|done|done|done]. }
  apply NoDup_cons in Hnd as [Hx Hnd]. destruct (Hf p vals) as [Hk Hp]; [set_solver|].
  destruct (put_index_ok g kv p d vals Hg Hk) as (g1 & -> & Hg1 & Hc1 & Ht1).
  { unfold key_wf. simpl. destruct d; simpl; try done; lia. }
  { intros [=]. lia. }
  { eapply room_le; [done|lia..]. }
  simpl. destruct (IH Hnd g1 _ Hg1) as (g' & kv' & -> & Hg' & Hc' & Hin & Hout & Hdom & Ht').
  - intros p' vals' Hin. destruct (Hf p' vals') as [? ?]; [set_solver|]. split; [|done].
    rewrite lookup_insert_ne; [done|]. intros [= ->]. apply Hx. apply list_elem_of_fmap. by exists (p', vals').
  - by eapply (room_consume g _ _ 1).
  - exists g', kv'. split_and!; [done..|by eapply consumes_trans| | |rewrite dom_insert_L in Hdom; set_solver|eapply types_kept_trans; [|done|done]; rewrite dom_insert_L; set_solver].
    + intros p' vals' [[= -> ->]|Hin']%elem_of_cons; [|by apply Hin].
      rewrite Hout; [apply lookup_insert_eq|]. intros p2 vals2 H2 [= ->].
      apply Hx. apply list_elem_of_fmap. by exists (p2, vals2).
    + intros k Hk'. rewrite Hout by set_solver. apply lookup_insert_ne.
      intros <-. apply (Hk' p vals); set_solver.
Qed.

  (** the map extended by an index *)
Definition with_index (kv : gmap ikey_t (list sid_t)) (m : index_map) (d : dir_t) (k : ikey_t)
    : option (list sid_t) :=
  if bool_decide (k_vid k = 0%Z ∧ k_dir k = dir_val d) then
    match m !! k_pid k with Some vals => Some vals | None => kv !! k end
  else kv !! k.

Lemma insert_index_map_ok g kv m d :
  gs_rep g kv → d ≠ CORUN →
  (∀ p vals, m !! p = Some vals → kv !! IKey 0 p (dir_val d) = None ∧ (1 < p < 2 ^ 17)%Z) →
  room g (size m) (kv_total m) →
  ∃ g' kv', insert_index_map g m d = Ok g' ∧ gs_rep g' kv' ∧ consumes g (size m) (kv_total m) g' ∧
    (∀ k, kv' !! k = with_index kv m d k) ∧ dom kv ⊆ dom kv' ∧ types_kept kv g g'.
Proof.
  intros Hg Hd Hf. unfold insert_index_map.
  assert (Hperm := iter_map_perm m).
  assert (Hin : ∀ p vals, (p, vals) ∈ iter_map m ↔ m !! p = Some vals).
  { intros p vals. by rewrite Hperm, elem_of_map_to_list. }
  replace (size m) with (length (iter_map m)) by by rewrite Hperm, length_map_to_list.
  replace (kv_total m) with (sum_list_with (λ e, length e.2) (iter_map m))
    by (unfold kv_total; by rewrite Hperm).
  intros Hr. destruct (put_index_list g kv d (iter_map m) Hg) as (g' & kv' & -> & Hg' & Hc & H1 & H2 & Hdom & Hty).
  - rewrite Hperm. apply NoDup_fst_map_to_list.
  - done.
  - intros p vals ?%Hin. by eapply Hf.
  - done.
  - exists g', kv'. split_and!; [done..| |done|done]. intros [x p dd]. unfold with_index. simpl.
    case_bool_decide as E; [destruct E as [-> ->]; destruct (m !! p) as [vals|] eqn:Em|].
    + apply H1. by apply Hin.
    + apply H2. intros p' vals' Hp'%Hin [= ->]. congruence.
    + apply H2. intros p' vals' _ [= -> -> ->]. naive_solver.
Qed.
End insert_maps.

(** ** [insert_index] *)

(** A store that holds normal vertices only. *)
Record normal_kv (kv : gmap ikey_t (list sid_t)) : Prop := {
  nk_vid k vals : kv !! k = Some vals → (0 < k_vid k)%Z;
  nk_vals k vals : kv !! k = Some vals → vals ≠ [];
  nk_dir k vals : kv !! k = Some vals → ¬ (dir_in k = true ∧ k_pid k = TYPE_ID);
  nk_type k vals t : kv !! k = Some vals → k_pid k = TYPE_ID → t ∈ vals → (1 < t < 2 ^ 17)%Z;
  nk_disj k vals k' vals' t : kv !! k = Some vals → k_pid k = TYPE_ID → t ∈ vals →
    kv !! k' = Some vals' → dir_in k' = false → k_pid k' ≠ t
}.

(** The contents of the index keys over the pairs [es]. *)
Definition index_value (es : list (ikey_t * list sid_t)) (k : ikey_t) : list sid_t :=
  if dir_in k then type_vids es (k_pid k) ++ pred_vids false es (k_pid k)
  else pred_vids true es (k_pid k).

Lemma pred_vids_elem inc es p x :
  x ∈ pred_vids inc es p ↔ ∃ k vals, (k, vals) ∈ es ∧ is_pred k = true ∧ dir_in k = inc ∧ k_pid k = p ∧ k_vid k = x.
Proof.
  unfold pred_vids. rewrite list_elem_of_fmap. split.
  - intros (k & -> & [(? & ? & ?) Hk]%list_elem_of_filter). apply list_elem_of_fmap in Hk as ([k' vals] & -> & ?).
    by exists k', vals.
  - intros (k & vals & Hk & ? & ? & ? & <-). exists k. split; [done|]. apply list_elem_of_filter.
    split; [done|]. apply list_elem_of_fmap. by exists (k, vals).
Qed.

Lemma type_vids_elem es t x :
  x ∈ type_vids es t ↔ ∃ k vals, (k, vals) ∈ es ∧ dir_in k = false ∧ k_pid k = TYPE_ID ∧ t ∈ vals ∧ k_vid k = x.
Proof.
  unfold type_vids. rewrite list_elem_of_bind. split.
  - intros ([k vals] & Hx & Hk). simpl in Hx. destruct (negb _ && _) eqn:E; [|by apply elem_of_nil in Hx].
    apply andb_true_iff in E as [E1%negb_true_iff E2%Z.eqb_eq].
    apply list_elem_of_fmap in Hx as (t' & -> & [-> ?]%list_elem_of_filter). by exists k, vals.
  - intros (k & vals & Hk & E1 & E2 & Ht & <-). exists (k, vals). split; [|done]. simpl.
    rewrite E1, E2. simpl. apply list_elem_of_fmap. exists t. split; [done|]. by apply list_elem_of_filter.
Qed.

Lemma opt_list_Some l vals : opt_list l = Some vals → vals = l ∧ ∃ x, x ∈ l.
Proof. destruct l as [|x l]; simpl; [done|]. intros [= <-]. split; [done|]. exists x. left. Qed.

Lemma opt_list_app l1 l2 : l1 = [] ∨ l2 = [] →
  match opt_list l2 with Some v => Some v | None => match opt_list l1 with Some v => Some v | None => None end end
  = opt_list (l1 ++ l2).
Proof. intros [->| ->]; simpl; [by destruct l2|rewrite app_nil_r; by destruct l1]. Qed.

Lemma kv_size_total `{Countable K} (kv : gmap K (list sid_t)) :
  (∀ k vals, kv !! k = Some vals → vals ≠ []) → size kv <= kv_total kv.
Proof.
  intros Hne. rewrite <-length_map_to_list. unfold kv_total.
  assert (Hne' : ∀ e, e ∈ map_to_list kv → 1 <= length e.2).
  { intros [i l] Hi%elem_of_map_to_list. apply Hne in Hi. simpl. destruct l; simpl; [done|lia]. }
  induction (map_to_list kv) as [|e l IH]; simpl; [done|].
  pose proof (Hne' e ltac:(set_solver)). pose proof (IH ltac:(set_solver)). lia.
Qed.

Section insert_index_ok.
  Context `{TbbOrder} (g : gstore) (kv : gmap ikey_t (list sid_t)).
  Hypothesis Hg : gs_rep g kv.
  Hypothesis Hkv : normal_kv kv.

  (** The three index maps on top of the normal vertices. *)
Lemma insert_maps_ok versatile es ix :
  es ≡ₚ map_to_list kv → index_of versatile es ix →
  room g (kv_total kv) (kv_total kv) →
  ∃ g' kv', (g1 ← insert_index_map g (tidx_map ix) IN; g2 ← insert_index_map g1 (pidx_in_map ix) IN;
             insert_index_map g2 (pidx_out_map ix) OUT) = Ok g' ∧
    gs_rep g' kv' ∧ consumes g (kv_total kv) (kv_total kv) g' ∧ dom kv ⊆ dom kv' ∧ types_kept kv g g' ∧
    ∀ k, kv' !! k = if bool_decide (k_vid k = 0%Z ∧ (k_dir k = 0%Z ∨ k_dir k = 1%Z))
                    then opt_list (index_value es k) else kv !! k.
Proof.
  intros Hes [Hin Hout Hty Htot _ _ _ _ _ _] Hr.
  assert (Hel : ∀ k vals, (k, vals) ∈ es ↔ kv !! k = Some vals).
  { intros k vals. by rewrite Hes, elem_of_map_to_list. }
  replace (sum_list_with _ es) with (kv_total kv) in Htot by (unfold kv_total; by rewrite Hes).
  pose proof (index_size _ _ Hin). pose proof (index_size _ _ Hout). pose proof (index_size _ _ Hty).
  assert (Hno : ∀ p d, kv !! IKey 0 p d = None).
  { intros p d. apply eq_None_not_Some. intros [vals Hv]. apply (nk_vid _ Hkv) in Hv. simpl in Hv. lia. }
  assert (Hpids : ∀ inc p x, x ∈ pred_vids inc es p → (1 < p < 2 ^ 17)%Z).
  { intros inc p x (k & vals & Hk%Hel & Hp & _ & <- & _)%pred_vids_elem.
    destruct Hg as [m Hg']. assert (key_wf k) as (_ & ? & _) by (eapply gs_wf; [done|]; by apply elem_of_dom_2 in Hk).
    unfold is_pred, PREDICATE_ID, TYPE_ID in Hp. lia. }
  destruct (insert_index_map_ok g kv (tidx_map ix) IN Hg) as (g1 & kv1 & -> & Hg1 & Hc1 & Hk1 & D1 & T1); [done| | |].
  { intros p vals Hp. split; [done|]. rewrite Hty in Hp.
    apply opt_list_Some in Hp as [-> [x Hx]]. apply type_vids_elem in Hx as (k & vals & Hk%Hel & _ & ? & ? & _).
    by eapply (nk_type _ Hkv). }
  { eapply room_le; [done|lia..]. }
  assert (Hdisj : ∀ p, type_vids es p = [] ∨ pred_vids false es p = []).
  { intros p. destruct (type_vids es p) as [|x l] eqn:Et; [by left|]. right.
    destruct (pred_vids false es p) as [|y l'] eqn:Ep; [done|]. exfalso.
    assert (x ∈ type_vids es p) as (k & vals & Hk%Hel & _ & ? & ? & _)%type_vids_elem by (rewrite Et; left).
    assert (y ∈ pred_vids false es p) as (k' & vals' & Hk'%Hel & _ & ? & ? & _)%pred_vids_elem by (rewrite Ep; left).
    by eapply (nk_disj _ Hkv k vals k' vals' p). }
  cbn [mbind outcome_bind].
  destruct (insert_index_map_ok g1 kv1 (pidx_in_map ix) IN Hg1) as (g2 & kv2 & -> & Hg2 & Hc2 & Hk2 & D2 & T2); [done| | |].
  { intros p vals Hp. rewrite Hin in Hp. apply opt_list_Some in Hp as [-> [x Hx]].
    split; [|by eapply Hpids]. rewrite Hk1. unfold with_index. simpl. rewrite Hty.
    destruct (Hdisj p) as [->|E]; [by simpl|]. rewrite E in Hx. by apply elem_of_nil in Hx. }
  { eapply room_consume; [|exact Hc1]. eapply room_le; [done|lia..]. }
  cbn [mbind outcome_bind].
  destruct (insert_index_map_ok g2 kv2 (pidx_out_map ix) OUT Hg2) as (g3 & kv3 & -> & Hg3 & Hc3 & Hk3 & D3 & T3); [done| | |].
  { intros p vals Hp. rewrite Hout in Hp. apply opt_list_Some in Hp as [-> [x Hx]].
    split; [|by eapply Hpids]. rewrite Hk2. unfold with_index. simpl. rewrite Hk1. unfold with_index. simpl. done. }
  { eapply room_consume; [|exact Hc2]. eapply room_consume; [|exact Hc1].
    eapply room_le; [exact Hr|lia..]. }
  exists g3, kv3. split_and!; [done..| |set_solver|eapply types_kept_trans; [|done|eapply types_kept_trans; [|done|done]]; set_solver|].
  - destruct Hc1, Hc2, Hc3. split; lia.
  - intros [x p d]. rewrite Hk3. unfold with_index. simpl. rewrite Hk2. unfold with_index. simpl.
    rewrite Hk1. unfold with_index. simpl. rewrite Hin, Hout. unfold index_value, dir_in. simpl.
    destruct (decide (x = 0%Z)) as [->|]; [|by rewrite !bool_decide_false by tauto].
    rewrite Hno. destruct (Z.eqb_spec d 0) as [->|]; simpl.
    + rewrite Hty. apply opt_list_app, Hdisj.
    + rewrite !(bool_decide_false (_ ∧ d = 0%Z)) by tauto.
      destruct (decide (d = 1%Z)) as [->|]; [|by rewrite !bool_decide_false by tauto].
      rewrite !bool_decide_true by tauto. by destruct (pred_vids true es p).
Qed.

  (** the reserved index keys of the [VERSATILE] build *)
Definition K_VERTS : ikey_t := IKey 0 TYPE_ID (dir_val IN).
Definition K_TYPES : ikey_t := IKey 0 TYPE_ID (dir_val OUT).
Definition K_PREDS : ikey_t := IKey 0 PREDICATE_ID (dir_val OUT).

Lemma put_set_ok g0 kv0 s tpid d :
  gs_rep g0 kv0 → kv0 !! IKey 0 tpid (dir_val d) = None →
  (d = IN ∨ d = OUT) → (tpid = TYPE_ID ∨ tpid = PREDICATE_ID ∧ d = OUT) →
  room g0 1 (size s) →
  ∃ g', insert_index_set g0 s tpid d = Ok g' ∧
    gs_rep g' (<[IKey 0 tpid (dir_val d) := iter_set s]> kv0) ∧ consumes g0 1 (size s) g' ∧ types_kept kv0 g0 g'.
Proof.
  intros Hg0 Hk Hd Ht Hr. unfold insert_index_set.
  assert (E : size s = length (iter_set s)) by by rewrite (iter_set_perm s). rewrite E in *.
  apply put_index_ok; [done|done| | |done].
  - unfold key_wf, TYPE_ID, PREDICATE_ID in *. simpl. destruct Hd as [-> | ->], Ht as [->|[-> ?]]; simpl; lia.
  - unfold TYPE_ID, PREDICATE_ID in *. destruct Hd as [-> | ->], Ht as [->|[-> ?]]; done.
Qed.

Lemma reserved_unused es : es ≡ₚ map_to_list kv →
  index_value es K_VERTS = [] ∧ index_value es K_TYPES = [] ∧ index_value es K_PREDS = [].
Proof.
  intros Hes. assert (Hel : ∀ k vals, (k, vals) ∈ es ↔ kv !! k = Some vals).
  { intros k vals. by rewrite Hes, elem_of_map_to_list. }
  assert (Hp : ∀ inc p, p = TYPE_ID ∨ p = PREDICATE_ID → pred_vids inc es p = []).
  { intros inc p Hp. destruct (pred_vids inc es p) as [|x l] eqn:E; [done|]. exfalso.
    assert (x ∈ pred_vids inc es p) as (k & ? & _ & Hk & _ & <- & _)%pred_vids_elem by (rewrite E; left).
    unfold is_pred, PREDICATE_ID, TYPE_ID in *. lia. }
  unfold index_value, K_VERTS, K_TYPES, K_PREDS, dir_in. simpl. rewrite !Hp by tauto.
  split_and!; [|done..]. rewrite app_nil_r.
  destruct (type_vids es TYPE_ID) as [|x l] eqn:E; [done|]. exfalso.
  assert (x ∈ type_vids es TYPE_ID) as (k & ? & Hk%Hel & _ & ? & Ht & _)%type_vids_elem by (rewrite E; left).
  pose proof (nk_type _ Hkv _ _ _ Hk ltac:(done) Ht). unfold TYPE_ID in *. lia.
Qed.

Lemma insert_index_rep versatile bs :
  bs ≡ₚ seq 0 (num_buckets (hdr g) + last_ext (hdr g)) →
  room g (kv_total kv + 3) (4 * kv_total kv) →
  ∃ g' kv' es ix, insert_index versatile g bs = Ok g' ∧ gs_rep g' kv' ∧ es ≡ₚ map_to_list kv ∧
    index_of versatile es ix ∧ types_kept kv g g' ∧
    ∀ k, kv' !! k =
      if versatile && bool_decide (k = K_VERTS) then Some (iter_set (v_set ix))
      else if versatile && bool_decide (k = K_TYPES) then Some (iter_set (t_set ix))
      else if versatile && bool_decide (k = K_PREDS) then Some (iter_set (p_set ix))
      else if bool_decide (k_vid k = 0%Z ∧ (k_dir k = 0%Z ∨ k_dir k = 1%Z))
           then opt_list (index_value es k) else kv !! k.
Proof.
  intros Hbs Hr. pose proof (scan_entries_perm g kv bs Hg Hbs) as Hes.
  set (es := scan_entries g bs) in *. unfold insert_index.
  rewrite (collect_index_entries versatile g kv bs Hg Hbs). fold es.
  destruct (collect_entries versatile es) as (ix & -> & Hix).
  { intros k vals. rewrite Hes, elem_of_map_to_list. intros Hk.
    split; [by eapply (nk_vals _ Hkv)|by eapply (nk_dir _ Hkv)]. }
  cbn [mbind outcome_bind].
  destruct (insert_maps_ok versatile es ix Hes Hix) as (g3 & kv3 & E & Hg3 & Hc3 & D3 & T3 & Hk3).
  { eapply room_le; [done|lia..]. }
  apply bind_Ok in E as (g1 & -> & E). apply bind_Ok in E as (g2 & E2 & E3).
  cbn [mbind outcome_bind]. rewrite E2. cbn [mbind outcome_bind]. rewrite E3. cbn [mbind outcome_bind].
  destruct versatile; [|exists g3, kv3, es, ix; split_and!; done].
  destruct (reserved_unused es Hes) as (R1 & R2 & R3).
  pose proof (ix_vn _ _ _ Hix) as Hvn. pose proof (ix_tn _ _ _ Hix) as Htn. pose proof (ix_pn _ _ _ Hix) as Hpn.
  replace (sum_list_with _ es) with (kv_total kv) in Htn, Hpn by (unfold kv_total; by rewrite Hes).
  assert (length es <= kv_total kv) as Hen.
  { rewrite Hes, length_map_to_list. apply (kv_size_total kv). apply (nk_vals _ Hkv). }
  assert (Hr3 : room g3 3 (3 * kv_total kv)) by (eapply room_consume; [|exact Hc3]; eapply room_le; [done|lia..]).
  assert (N1 : kv3 !! K_VERTS = None) by (rewrite Hk3, bool_decide_true by (simpl; auto); by rewrite R1).
  assert (N2 : kv3 !! K_TYPES = None) by (rewrite Hk3, bool_decide_true by (simpl; auto); by rewrite R2).
  assert (N3 : kv3 !! K_PREDS = None) by (rewrite Hk3, bool_decide_true by (simpl; auto); by rewrite R3).
  destruct (put_set_ok g3 kv3 (v_set ix) TYPE_ID IN Hg3) as (g4 & -> & Hg4 & Hc4 & T4);
    [exact N1|tauto|tauto|eapply room_le; [done|lia..]|].
  cbn [mbind outcome_bind].
  destruct (put_set_ok g4 _ (t_set ix) TYPE_ID OUT Hg4) as (g5 & -> & Hg5 & Hc5 & T5);
    [by rewrite lookup_insert_ne by done|tauto|tauto| |].
  { eapply room_consume; [|exact Hc4]. eapply room_le; [done|lia..]. }
  cbn [mbind outcome_bind].
  destruct (put_set_ok g5 _ (p_set ix) PREDICATE_ID OUT Hg5) as (g6 & -> & Hg6 & Hc6 & T6);
    [by rewrite !lookup_insert_ne by done|tauto|tauto| |].
  { eapply room_consume; [|exact Hc5]. eapply room_consume; [|exact Hc4].
    eapply room_le; [exact Hr3|lia..]. }
  eexists g6, _, es, ix. split_and!; [done..| |].
  { eapply types_kept_trans; [exact D3|exact T3|]. eapply types_kept_trans; [|exact T4|]; [|eapply types_kept_trans; [|exact T5|exact T6]]; rewrite dom_insert_L; set_solver. }
  intros k. simpl.
  rewrite !lookup_insert. fold K_VERTS K_TYPES K_PREDS. rewrite Hk3.
  repeat case_bool_decide; repeat case_decide; try done; subst; done.
Qed.
End insert_index_ok.

(** ** From triples to the indexes *)

(** The ids of types and of predicates are used consistently. *)
Record typed (spo ops : list triple_t) : Prop := {
  ty_spo t : t ∈ spo → tr_p t = TYPE_ID → (tr_o t < 2 ^ 17)%Z;
  ty_ops t : t ∈ ops → tr_p t = TYPE_ID → (tr_o t < 2 ^ 17)%Z;
  ty_disj t t' : t ∈ spo → t' ∈ spo → tr_p t = TYPE_ID → tr_o t ≠ tr_p t'
}.

Section from_triples.
  Context (versatile : bool) (spo ops : list triple_t).
  Hypothesis Hso : StronglySorted (vp_le tr_o) ops.
  Hypothesis Hws : Forall triple_wf spo.
  Hypothesis Hwo : Forall triple_wf ops.
  Hypothesis Hty : typed spo ops.
  Abbreviation nv := (normal_value versatile spo ops).

Lemma normal_value_elem x p y : (0 < p)%Z →
  (y ∈ nv (IKey x p (dir_val OUT)) ↔ ∃ t, t ∈ spo ∧ tr_s t = x ∧ tr_p t = p ∧ tr_o t = y) ∧
  (y ∈ nv (IKey x p (dir_val IN)) ↔ ∃ t, t ∈ ops ∧ (2 ^ 17 <= tr_o t)%Z ∧ tr_o t = x ∧ tr_p t = p ∧ tr_s t = y).
Proof.
  intros Hp. unfold normal_value. simpl. rewrite !vp_edges_norm by done.
  rewrite skip_types_filter by done. rewrite !list_elem_of_fmap.
  setoid_rewrite list_elem_of_filter. setoid_rewrite list_elem_of_filter. naive_solver.
Qed.

(** what a nonempty value says about its key *)
Lemma normal_value_occ k : nv k ≠ [] →
  (k_dir k = dir_val OUT ∧ ∃ t, t ∈ spo ∧ tr_s t = k_vid k ∧ (tr_p t = k_pid k ∨ k_pid k = PREDICATE_ID)) ∨
  (k_dir k = dir_val IN ∧ ∃ t, t ∈ ops ∧ (2 ^ 17 <= tr_o t)%Z ∧ tr_o t = k_vid k ∧
     (tr_p t = k_pid k ∨ k_pid k = PREDICATE_ID)).
Proof.
  unfold normal_value. case_bool_decide as E1; [|case_bool_decide as E2; [|done]]; intros Hne;
    apply vp_edges_occ in Hne as (t & Ht & Hv & Hp); [left|right]; (split; [done|]).
  - by exists t.
  - rewrite skip_types_filter in Ht by done. apply list_elem_of_filter in Ht as [? ?]. by exists t.
Qed.

Lemma normal_value_normal kv : (∀ k, kv !! k = opt_list (nv k)) → normal_kv kv.
Proof.
  intros Hkv. pose proof (proj1 (Forall_forall _ _) Hws) as Hw.
  assert (Hv : ∀ k vals, kv !! k = Some vals → vals = nv k ∧ nv k ≠ []).
  { intros k vals Hk. rewrite Hkv in Hk. by destruct (nv k); simplify_eq/=. }
  assert (Hdir : ∀ k, nv k ≠ [] → ¬ (dir_in k = true ∧ k_pid k = TYPE_ID)).
  { intros k Hne [Hd Hp]. unfold dir_in in Hd. apply Z.eqb_eq in Hd.
    destruct (normal_value_occ k Hne) as [[E _]|[_ (t & Ht & ? & _ & Hpt)]]; [by rewrite Hd in E|].
    destruct Hpt as [Hpt|Hpt]; [|by rewrite Hp in Hpt].
    pose proof (ty_ops _ _ Hty t Ht ltac:(congruence)). lia. }
  assert (Htype : ∀ k t, nv k ≠ [] → k_pid k = TYPE_ID → t ∈ nv k → ∃ tr, tr ∈ spo ∧ tr_p tr = TYPE_ID ∧ tr_o tr = t).
  { intros [x p d] t Hne Hp Ht. simpl in Hp. subst p.
    destruct (normal_value_occ _ Hne) as [[E _]|[E _]]; simpl in E; subst d.
    - apply (normal_value_elem x TYPE_ID t) in Ht as (tr & ? & _ & ? & ?); [by exists tr|done].
    - destruct (Hdir _ Hne). done. }
  split.
  - intros k vals [-> Hne]%Hv. destruct (normal_value_occ k Hne) as [[_ (t & Ht & <- & _)]|[_ (t & Ht & ? & <- & _)]].
    + pose proof (wf_s _ (Hw t Ht)). lia.
    + lia.
  - intros k vals [-> Hne]%Hv. done.
  - intros k vals [-> Hne]%Hv. by apply Hdir.
  - intros k vals t [-> Hne]%Hv Hp Ht. destruct (Htype k t Hne Hp Ht) as (tr & Htr & ? & <-).
    pose proof (ty_spo _ _ Hty tr Htr ltac:(done)). pose proof (wf_o _ (Hw tr Htr)). lia.
  - intros k vals k' vals' t [-> Hne]%Hv Hp Ht [-> Hne']%Hv Hd'.
    destruct (Htype k t Hne Hp Ht) as (tr & Htr & Htp & <-). unfold dir_in in Hd'. apply Z.eqb_neq in Hd'.
    destruct (normal_value_occ k' Hne') as [[_ (t' & Ht' & _ & [<-|E])]|[E _]]; [..|done].
    + intros E. by apply (ty_disj _ _ Hty tr t').
    + rewrite E. pose proof (wf_o _ (Hw tr Htr)). unfold PREDICATE_ID. lia.
Qed.

  (** the members of the indexes in terms of the triples *)
Lemma index_members kv es p x :
  (∀ k, kv !! k = opt_list (nv k)) → es ≡ₚ map_to_list kv → (1 < p)%Z →
  (x ∈ type_vids es p ++ pred_vids false es p ↔
     ∃ t, t ∈ spo ∧ tr_s t = x ∧ (tr_p t = p ∨ tr_p t = TYPE_ID ∧ tr_o t = p)) ∧
  (x ∈ pred_vids true es p ↔ ∃ t, t ∈ ops ∧ tr_o t = x ∧ tr_p t = p ∧ (2 ^ 17 <= x)%Z).
Proof.
  intros Hkv Hes Hp.
  assert (Hel : ∀ k vals, (k, vals) ∈ es ↔ kv !! k = Some vals).
  { intros k vals. by rewrite Hes, elem_of_map_to_list. }
  assert (Hout : ∀ x p, (0 < p)%Z → (∃ k vals, (k, vals) ∈ es ∧ dir_in k = false ∧ k_pid k = p ∧ k_vid k = x) →
    ∃ t, t ∈ spo ∧ tr_s t = x ∧ tr_p t = p).
  { intros x' p' Hp' (k & vals & Hk%Hel & Hd & <- & <-). rewrite Hkv in Hk.
    destruct (normal_value_occ k) as [[_ (t & ? & ? & [?|E])]|[E _]]; [by destruct (nv k)|by exists t| |].
    - unfold PREDICATE_ID in E. lia.
    - unfold dir_in in Hd. by rewrite E in Hd. }
  assert (Hstored : ∀ k y, y ∈ nv k → ∃ vals, (k, vals) ∈ es ∧ y ∈ vals).
  { intros k y Hy. exists (nv k). split; [|done]. apply Hel. rewrite Hkv. by destruct (nv k); [set_solver|]. }
  assert (Hpred : ∀ x d, is_pred (IKey x p d) = true).
  { intros. unfold is_pred, PREDICATE_ID, TYPE_ID. simpl. lia. }
  split.
  - rewrite elem_of_app, type_vids_elem, pred_vids_elem. split.
    + intros [(k & vals & Hk%Hel & Hd & Ht & Hin & <-)|(k & vals & Hk & _ & Hd & Hkp & <-)].
      * rewrite Hkv in Hk. destruct k as [x p' d]. simpl in *. subst p'.
        destruct (normal_value_occ (IKey x TYPE_ID d)) as [[E _]|[E _]]; [by destruct (nv _)| |];
          simpl in E; subst d; [|done].
        assert (vals = nv (IKey x TYPE_ID (dir_val OUT))) as -> by by destruct (nv _); simplify_eq/=.
        apply normal_value_elem in Hin as (t & ? & ? & ? & ?); [|done]. exists t. auto.
      * destruct (Hout (k_vid k) p) as (t & ? & ? & ?); [lia|naive_solver|]. exists t. auto.
    + intros (t & Ht & <- & [<-|[Htp <-]]).
      * right. destruct (Hstored (IKey (tr_s t) (tr_p t) (dir_val OUT)) (tr_o t)) as (vals & ? & _).
        { apply normal_value_elem; [lia|]. by exists t. }
        eexists _, vals. split_and!; [done|apply Hpred|done..].
      * left. destruct (Hstored (IKey (tr_s t) TYPE_ID (dir_val OUT)) (tr_o t)) as (vals & ? & ?).
        { apply normal_value_elem; [done|]. by exists t. }
        by eexists _, vals.
  - rewrite pred_vids_elem. split.
    + intros (k & vals & Hk%Hel & _ & Hd & <- & <-). rewrite Hkv in Hk.
      destruct (normal_value_occ k) as [[E _]|[_ (t & ? & ? & ? & [?|E])]]; [by destruct (nv k)| | |].
      * unfold dir_in in Hd. by rewrite E in Hd.
      * exists t. split_and!; [done..|lia].
      * unfold PREDICATE_ID in E. lia.
    + intros (t & Ht & <- & <- & Hx).
      destruct (Hstored (IKey (tr_o t) (tr_p t) (dir_val IN)) (tr_s t)) as (vals & ? & _).
      { apply normal_value_elem; [lia|]. by exists t. }
      eexists _, vals. split_and!; [done|apply Hpred|done..].
Qed.
End from_triples.


Lemma NoDup_pred_vids kv inc es p :
  es ≡ₚ map_to_list kv → (∀ k vals, kv !! k = Some vals → k_dir k = 0%Z ∨ k_dir k = 1%Z) →
  NoDup (pred_vids inc es p).
Proof.
  intros Hes Hd. unfold pred_vids.
  assert (Hin : ∀ k, k ∈ es.*1 → k_dir k = 0%Z ∨ k_dir k = 1%Z).
  { intros k ([k' vals] & -> & Hk)%list_elem_of_fmap. rewrite Hes, elem_of_map_to_list in Hk. by eapply Hd. }
  apply NoDup_fmap_2_strong; [|apply NoDup_filter; rewrite Hes; apply NoDup_fst_map_to_list].
  intros [x1 p1 d1] [x2 p2 d2] [(_ & H1 & Hp1) Hi1]%list_elem_of_filter [(_ & H2 & Hp2) Hi2]%list_elem_of_filter.
  apply Hin in Hi1, Hi2. unfold dir_in in *. simpl in *. intros ->. f_equal; [congruence|].
  destruct Hi1 as [-> | ->], Hi2 as [-> | ->]; simpl in *; congruence.
Qed.

(** C6: after [insert_normal] on sorted triples and [insert_index] over the
    buckets in any order, the index vertex of a predicate lists exactly the
    subjects ([IN]) and the objects ([OUT]) that have it, without duplicates; the
    index vertex of a type lists exactly the instances of the type; and the normal
    vertices read as before. *)
Theorem insert_index_reads `{TbbOrder} (versatile : bool) (g : gstore) (spo ops : list triple_t) :
  header_sizes (hdr g) → length (edges g) = num_entries g →
  StronglySorted (vp_le tr_s) spo → StronglySorted (vp_le tr_o) ops →
  Forall triple_wf spo → Forall triple_wf ops → typed spo ops →
  let n := kv_weight versatile * (length spo + length ops) in
  room (refresh g) (2 * n + 3) (5 * n) →
  ∃ g1, insert_normal versatile (refresh g) spo ops = Ok g1 ∧
    ∀ bs, bs ≡ₚ seq 0 (num_buckets (hdr g1) + last_ext (hdr g1)) →
    ∃ g2, insert_index versatile g1 bs = Ok g2 ∧
      (∀ x d p, (2 ^ 17 <= x < 2 ^ 32)%Z → (0 < p < 2 ^ 17)%Z → d ≠ CORUN →
         get_edges_local g2 x d p = get_edges_local g1 x d p) ∧
      ∀ p, (1 < p < 2 ^ 17)%Z → ∃ li lo,
        get_index_edges_local g2 p IN = Ok li ∧ get_index_edges_local g2 p OUT = Ok lo ∧
        (∀ x, x ∈ li ↔ ∃ t, t ∈ spo ∧ tr_s t = x ∧ (tr_p t = p ∨ tr_p t = TYPE_ID ∧ tr_o t = p)) ∧
        (∀ x, x ∈ lo ↔ ∃ t, t ∈ ops ∧ tr_o t = x ∧ tr_p t = p ∧ (2 ^ 17 <= x)%Z) ∧
        NoDup lo ∧ ((∀ t, t ∈ spo → tr_p t = TYPE_ID → tr_o t ≠ p) → NoDup li).
Proof.
  intros Hh Hl Hs Ho Hws Hwo Hty n Hr.
  destruct (insert_normal_rep versatile (refresh g) ∅ spo ops)
    as (g1 & kv1 & -> & Hg1 & Hc1 & Hk1); [by apply refresh_rep|done..|eapply room_le; [done|unfold n; lia..]|].
  assert (Hkv1 : ∀ k, kv1 !! k = opt_list (normal_value versatile spo ops k)).
  { intros k. rewrite Hk1. by destruct (normal_value _ _ _ _). }
  pose proof (normal_value_normal versatile spo ops Ho Hws Hwo Hty kv1 Hkv1) as Hnk.
  assert (Htot : kv_total kv1 <= n).
  { destruct Hg1 as [m Hg1]. pose proof (gs_total _ _ _ Hg1). pose proof (cs_entry _ _ _ _ Hc1).
    simpl in *. unfold n. lia. }
  exists g1. split; [done|]. intros bs Hbs.
  destruct (insert_index_rep g1 kv1 Hg1 Hnk versatile bs Hbs) as (g2 & kv2 & es & ix & -> & Hg2 & Hes & _ & _ & Hk2).
  { eapply room_consume; [|exact Hc1]. eapply room_le; [done|fold n; lia..]. }
  assert (Hel : ∀ k vals, (k, vals) ∈ es ↔ kv1 !! k = Some vals).
  { intros k vals. by rewrite Hes, elem_of_map_to_list. }
  assert (Hdirs : ∀ k vals, kv1 !! k = Some vals → k_dir k = 0%Z ∨ k_dir k = 1%Z).
  { intros k vals Hk. rewrite Hkv1 in Hk. destruct (normal_value_occ versatile spo ops Ho Hwo k) as [[? _]|[? _]];
      [by destruct (normal_value _ _ _ _)|by right|by left]. }
  exists g2. split; [done|]. split.
  - intros x d p Hx Hp Hd.
    assert (key_wf (IKey x p (dir_val d))) by (unfold key_wf; simpl; destruct d; simpl; try done; lia).
    rewrite (get_edges_local_rep g2 kv2), (get_edges_local_rep g1 kv1); try done; try (intros [=]; lia).
    do 2 f_equal. rewrite Hk2. rewrite !(bool_decide_false (_ = _)) by (unfold K_VERTS, K_TYPES, K_PREDS; intros [=]; lia).
    rewrite bool_decide_false by (simpl; lia). by rewrite !andb_false_r.
  - intros p Hp. exists (type_vids es p ++ pred_vids false es p), (pred_vids true es p).
    assert (Hread : ∀ d, d = IN ∨ d = OUT →
      get_index_edges_local g2 p d = Ok (index_value es (IKey 0 p (dir_val d)))).
    { intros d Hd. unfold get_index_edges_local. rewrite (get_edges_local_rep g2 kv2); [|done| |intros [=]; lia].
      - rewrite Hk2. rewrite !(bool_decide_false (_ = _))
          by (unfold K_VERTS, K_TYPES, K_PREDS, TYPE_ID, PREDICATE_ID; intros [=]; lia).
        rewrite !andb_false_r, bool_decide_true by (destruct Hd as [-> | ->]; simpl; auto).
        by rewrite opt_list_default.
      - unfold key_wf. simpl. destruct Hd as [-> | ->]; simpl; lia. }
    pose proof (λ x, index_members versatile spo ops Ho Hws Hwo Hty kv1 es p x Hkv1 Hes ltac:(lia)) as Hmem.
    split_and!; [apply Hread; auto|apply Hread; auto|apply Hmem|apply Hmem|by eapply NoDup_pred_vids|].
    intros Hnt. replace (type_vids es p) with (@nil sid_t); [by eapply NoDup_pred_vids|].
    destruct (type_vids es p) as [|y l] eqn:E; [done|]. exfalso.
    assert (y ∈ type_vids es p) as (k & vals & Hk%Hel & Hd & Hkt & Hin & _)%type_vids_elem by (rewrite E; left).
    rewrite Hkv1 in Hk. destruct k as [x kp d]. simpl in *. subst kp.
    destruct (Hdirs (IKey x TYPE_ID d) vals) as [Ed|Ed]; [by rewrite Hkv1| |];
      simpl in Ed; subst d; [done|].
    assert (vals = normal_value versatile spo ops (IKey x TYPE_ID (dir_val OUT))) as ->
      by by destruct (normal_value _ _ _ _); simplify_eq/=.
    apply (normal_value_elem versatile spo ops Ho Hwo) in Hin as (t & ? & _ & ? & ?); [|done].
    by apply (Hnt t).
Qed.

(** a TBB order: the one of stdpp's finite maps *)
#[export] Instance list_order : TbbOrder := {|
  iter_map := map_to_list;
  iter_set := elements;
  iter_map_perm m := reflexivity (map_to_list m);
  iter_set_perm s := reflexivity (elements s)
|}.

(** a person of a type, with one other triple *)
Definition typed_triples : list triple_t := [Triple 131072 1 7; Triple 131072 5 131073].

Definition bigger_store : gstore := GStore (HTable 256 2 30 0 []) 64 0 (replicate 64 0%Z).

Lemma insert_index_reads_witness :
  ∃ g1, insert_normal false (refresh bigger_store) typed_triples typed_triples = Ok g1 ∧
  ∃ g2, insert_index (H := list_order) false g1 (seq 0 (num_buckets (hdr g1) + last_ext (hdr g1))) = Ok g2 ∧
  ∃ li, get_index_edges_local g2 7 IN = Ok li ∧ 131072%Z ∈ li.
Proof.
  destruct (insert_index_reads (H := list_order) false bigger_store typed_triples typed_triples) as (g1 & E1 & Hg1).
  - split; simpl; unfold ASSOCIATIVITY; lia.
  - done.
  - repeat constructor; unfold vp_le; simpl; lia.
  - repeat constructor; unfold vp_le; simpl; lia.
  - repeat constructor; simpl; lia.
  - repeat constructor; simpl; lia.
  - split.
    + intros t Ht. unfold typed_triples in Ht. set_unfold. destruct Ht as [->|[->|[]]]; simpl; [lia|done].
    + intros t Ht. unfold typed_triples in Ht. set_unfold. destruct Ht as [->|[->|[]]]; simpl; [lia|done].
    + intros t t' Ht Ht'. unfold typed_triples in Ht, Ht'. set_unfold.
      destruct Ht as [->|[->|[]]], Ht' as [->|[->|[]]]; simpl; done.
  - split; simpl; lia.
  - exists g1. split; [exact E1|].
    destruct (Hg1 (seq 0 (num_buckets (hdr g1) + last_ext (hdr g1)))) as (g2 & E2 & _ & Hp); [reflexivity|].
    exists g2. split; [exact E2|]. destruct (Hp 7%Z ltac:(lia)) as (li & lo & Hli & _ & Hin & _).
    exists li. split; [exact Hli|]. apply Hin. exists (Triple 131072 1 7).
    split; [apply list_elem_of_here|]. split; [reflexivity|]. right. split; reflexivity.
Defined.
