(* ===== verification/Remote.v ===== *)
(** [core/gstore.hpp], reads across the cluster: the location cache [RDMA_Cache],
    one-sided reads of a remote header and entry region, and vertex attributes.
    The memory of the servers is a list of stores; an RDMA read copies the bytes
    of the remote region at an offset that the reader computes from its own
    sizes. *)

From S2P Require Import Prelude Types MyMath Keys HashTable GStore Runs.
Local Open Scope nat_scope.

(** ** The location cache *)

Definition NUM_ITEMS : Z := 100000.

(** the items; one that was never written holds an empty vertex *)
Definition rdma_cache : Type := gmap Z vertex_t.
Definition cache_item (c : rdma_cache) (idx : Z) : vertex_t := default empty_vertex (c !! idx).

Section remote.
  Context `{Config}.

Definition cache_lookup (c : rdma_cache) (key : ikey_t) : option vertex_t :=
  if negb global_enable_caching then None
  else
    let idx := i32 (key_hash key mod NUM_ITEMS) in
    if key_eqb (v_key (cache_item c idx)) key then Some (cache_item c idx) else None.

Definition cache_insert (c : rdma_cache) (v : vertex_t) : rdma_cache :=
  if negb global_enable_caching then c
  else <[i32 (key_hash (v_key v) mod NUM_ITEMS) := v]> c.

Definition cache_invalidate (c : rdma_cache) (key : ikey_t) : rdma_cache :=
  if negb global_enable_caching then c
  else
    let idx := i32 (key_hash key mod NUM_ITEMS) in
    if key_eqb (v_key (cache_item c idx)) key
    then <[idx := Vertex empty_key (v_ptr (cache_item c idx))]> c else c.

  (** ** One-sided reads *)

  (** the stores of the servers, this server, the size of the RDMA buffer *)
  Context (stores : list gstore) (sid : nat) (buf_sz : Z).

Definition bucket_size : Z := Z.of_nat ASSOCIATIVITY * sizeof_vertex.

  (** an RDMA read of a whole bucket *)
Definition read_bucket (g : gstore) (bucket_id : nat) : outcome (list vertex_t) :=
  if (bucket_id + 1) * ASSOCIATIVITY <=? length (vertices (hdr g))
  then Ok (take ASSOCIATIVITY (drop (bucket_id * ASSOCIATIVITY) (vertices (hdr g))))
  else Err OutOfBounds.

Fixpoint find_vertex (verts : list vertex_t) (key : ikey_t) : option vertex_t :=
  match verts with
  | [] => None
  | v :: verts => if key_eqb (v_key v) key then Some v else find_vertex verts key
  end.

Fixpoint remote_loop (fuel : nat) (g : gstore) (key : ikey_t) (bucket_id : nat) : outcome (option vertex_t) :=
  match fuel with
  | O => Err OutOfFuel
  | S fuel =>
      ASSERT (bucket_size <? buf_sz)%Z; (* enough space to host the vertices *)
      verts ← read_bucket g bucket_id;
      match find_vertex (take (ASSOCIATIVITY - 1) verts) key with
      | Some v => Ok (Some v)
      | None =>
          v ← read verts (ASSOCIATIVITY - 1);
          if is_empty (v_key v) then Ok None (* not found *)
          else remote_loop fuel g key (Z.to_nat (k_vid (v_key v))) (* move to next bucket *)
      end
  end.

Definition get_vertex_remote (c : rdma_cache) (key : ikey_t) : outcome (vertex_t * rdma_cache) :=
  me ← read stores sid;
  dst_sid ← hash_mod (k_vid key) global_num_servers;
  let bucket_id := bucket_of (hdr me) key in
  ASSERT global_use_rdma;
  match cache_lookup c key with
  | Some v => Ok (v, c)
  | None =>
      remote ← read stores (Z.to_nat dst_sid);
      r ← remote_loop (chain_fuel (hdr remote)) remote key bucket_id;
      match r with
      | Some v => Ok (v, cache_insert c v)
      | None => Ok (empty_vertex, c)
      end
  end.

  (** [rdma_get_edges]: the offset is in bytes from the start of the region, with
      the number of slots of the reader *)
Definition rdma_get_edges (dst_sid : Z) (v : vertex_t) : outcome (list sid_t) :=
  me ← read stores sid;
  ASSERT global_use_rdma;
  let r_off := (Z.of_nat (num_slots (hdr me)) * sizeof_vertex + p_off (v_ptr v) * sizeof_edge)%Z in
  let r_sz := (p_size (v_ptr v) * sizeof_edge)%Z in
  ASSERT (r_sz <? buf_sz)%Z; (* enough space to host the edges *)
  remote ← read stores (Z.to_nat dst_sid);
  let base := (Z.of_nat (num_slots (hdr remote)) * sizeof_vertex)%Z in
  if (base <=? r_off)%Z && ((r_off - base) mod sizeof_edge =? 0)%Z
  then read_edges remote (Z.to_nat ((r_off - base) / sizeof_edge)) (Z.to_nat (p_size (v_ptr v)))
  else Err OutOfBounds.

Definition get_edges_remote (c : rdma_cache) (vid : sid_t) (d : dir_t) (pid : sid_t)
    : outcome (list sid_t * rdma_cache) :=
  dst_sid ← hash_mod vid global_num_servers;
  key ← mk_ikey vid pid d;
  '(v, c) ← get_vertex_remote c key;
  if is_empty (v_key v) then Ok ([], c) (* not found *)
  else
    es ← rdma_get_edges dst_sid v;
    Ok (es, c).

Definition get_edges_global_at (c : rdma_cache) (vid : sid_t) (d : dir_t) (pid : sid_t)
    : outcome (list sid_t * rdma_cache) :=
  dst_sid ← hash_mod vid global_num_servers;
  if (dst_sid =? Z.of_nat sid)%Z then
    me ← read stores sid;
    es ← get_edges_local me vid d pid;
    Ok (es, c)
  else get_edges_remote c vid d pid.

  (** ** Coherence *)

  (** Every server holds the pairs [kv i], and the regions have one geometry. *)
Record cluster_ok (kv : nat → gmap ikey_t (list sid_t)) : Prop := {
  cl_len : Z.of_nat (length stores) = global_num_servers;
  cl_small : (0 < global_num_servers < 2 ^ 31)%Z;
  cl_sid : sid < length stores;
  cl_rdma : global_num_servers ≠ 1%Z → global_use_rdma = true;
  cl_buf : global_num_servers ≠ 1%Z → (bucket_size < buf_sz)%Z;
  cl_rep i g : stores !! i = Some g → gs_rep g (kv i);
  cl_slots i g g' : stores !! i = Some g → stores !! sid = Some g' → num_slots (hdr g) = num_slots (hdr g');
  cl_buckets i g g' : stores !! i = Some g → stores !! sid = Some g' → num_buckets (hdr g) = num_buckets (hdr g');
  cl_fit i k vals : global_num_servers ≠ 1%Z → kv i !! k = Some vals → (Z.of_nat (length vals) * sizeof_edge < buf_sz)%Z
}.

  (** the server of a vertex *)
Definition owner (vid : sid_t) : nat := Z.to_nat (vid mod global_num_servers).

  (** A cached vertex is the one its owner stores. *)
Definition cache_coherent (c : rdma_cache) : Prop :=
  ∀ idx v, c !! idx = Some v → v_key v ≠ empty_key →
    ∃ g, stores !! owner (k_vid (v_key v)) = Some g ∧ get_vertex_local (hdr g) (v_key v) = Ok v.

Lemma cache_lookup_coherent c key v :
  cache_coherent c → key ≠ empty_key → cache_lookup c key = Some v →
  v_key v = key ∧ ∃ g, stores !! owner (k_vid key) = Some g ∧ get_vertex_local (hdr g) key = Ok v.
Proof.
  intros Hc Hne. unfold cache_lookup, cache_item. generalize (i32 (key_hash key mod NUM_ITEMS)). intros idx.
  destruct global_enable_caching; cbn [negb]; [|done].
  destruct (key_eqb_spec (v_key (default empty_vertex (c !! idx))) key) as [E|]; [|done].
  intros Hv. injection Hv as <-. split; [done|].
  destruct (c !! idx) as [v'|] eqn:Ec; simpl in *; [|by subst].
  destruct (Hc _ _ Ec) as (g & Hg & Hv); [by rewrite E|]. rewrite E in *. by exists g.
Qed.

Lemma cache_lookup_key c key v : cache_lookup c key = Some v → v_key v = key.
Proof.
  unfold cache_lookup. generalize (i32 (key_hash key mod NUM_ITEMS)). intros idx.
  destruct (negb _); [done|]. destruct (key_eqb_spec (v_key (cache_item c idx)) key); [|done].
  by intros [= <-].
Qed.

Lemma cache_insert_coherent c v g :
  cache_coherent c → stores !! owner (k_vid (v_key v)) = Some g →
  get_vertex_local (hdr g) (v_key v) = Ok v → cache_coherent (cache_insert c v).
Proof.
  intros Hc Hg Hv. unfold cache_insert. generalize (i32 (key_hash (v_key v) mod NUM_ITEMS)). intros i.
  destruct global_enable_caching; cbn [negb]; [|done].
  intros idx v' Hl Hne. apply lookup_insert_Some in Hl as [[_ <-]|[_ Hl]]; [by exists g|by eapply Hc].
Qed.

Lemma cache_invalidate_coherent c key : cache_coherent c → cache_coherent (cache_invalidate c key).
Proof.
  intros Hc. unfold cache_invalidate. generalize (i32 (key_hash key mod NUM_ITEMS)). intros i.
  destruct (negb _); [done|]. destruct (key_eqb _ _); [|done].
  intros idx v' Hl Hne. apply lookup_insert_Some in Hl as [[_ <-]|[_ Hl]]; [done|by eapply Hc].
Qed.

  (** ** A remote lookup is the local lookup of the owner *)

Lemma find_in_bucket_list vs key s n : s + n <= length vs →
  find_in_bucket vs key s n = Ok (find_vertex (take n (drop s vs)) key).
Proof.
  revert s. induction n as [|n IH]; intros s Hl; [done|].
  destruct (lookup_lt_is_Some_2 vs s) as [v Hv]; [lia|].
  rewrite (drop_S vs v s) by done. cbn [find_in_bucket take find_vertex]. unfold read. rewrite Hv.
  cbn [mbind outcome_bind]. destruct (key_eqb (v_key v) key); [done|]. apply IH. lia.
Qed.

Lemma remote_loop_path fuel g key b l :
  path (vertices (hdr g)) b l → length l <= fuel → (bucket_size < buf_sz)%Z →
  Forall (λ b, (b + 1) * ASSOCIATIVITY <= length (vertices (hdr g))) l →
  remote_loop fuel g key b = find_slots (vertices (hdr g)) key (slots_of l).
Proof.
  intros Hp. revert fuel. induction Hp as [b Hl|b k l Hl Hk Hp IH]; intros fuel Hf Hbuf Hb;
    (destruct fuel as [|fuel]; [simpl in Hf; lia|]); simpl in Hf;
    apply Forall_cons_iff in Hb as [Hb0 Hb];
    rewrite slots_of_cons; unfold data_slots; rewrite find_in_bucket_slots;
    (rewrite find_in_bucket_list by (unfold ASSOCIATIVITY in *; lia));
    cbn [remote_loop]; rewrite (proj2 (Z.ltb_lt _ _) Hbuf); cbn [assert_that mbind outcome_bind];
    unfold read_bucket; rewrite (proj2 (Nat.leb_le _ _) Hb0); cbn [mbind outcome_bind];
    rewrite take_take, Nat.min_l by (unfold ASSOCIATIVITY; lia);
    (destruct (find_vertex _ key) as [v|]; [done|]);
    apply key_at_read in Hl as (v & Hv & Hvk);
    assert (read (take ASSOCIATIVITY (drop (b * ASSOCIATIVITY) (vertices (hdr g)))) (ASSOCIATIVITY - 1) = Ok v) as ->
      by (apply read_Ok; apply read_Ok in Hv; rewrite lookup_take_lt, lookup_drop by (unfold ASSOCIATIVITY; lia); done);
    cbn [mbind outcome_bind].
  - by destruct (is_empty_spec (v_key v)) as [E'|]; [|congruence].
  - destruct (is_empty_spec (v_key v)) as [E'|]; [congruence|]. rewrite Hvk. apply IH; [lia|done..].
Qed.

Lemma find_slots_key vs key sl v : find_slots vs key sl = Ok (Some v) → v_key v = key.
Proof.
  induction sl as [|s sl IH]; simpl; [done|]. destruct (read vs s) as [v'|]; simpl; [|done].
  destruct (key_eqb_spec (v_key v') key); [by intros [= <-]|apply IH].
Qed.

Lemma find_slots_total vs key sl : Forall (λ s, s < length vs) sl → ∃ r, find_slots vs key sl = Ok r.
Proof.
  induction 1 as [|s sl Hs _ [r IH]]; simpl; [by eexists|].
  destruct (lookup_lt_is_Some_2 vs s Hs) as [v Hv]. unfold read. rewrite Hv. simpl. destruct (key_eqb _ _); by eauto.
Qed.

  (** the lookup of a key along its chain, locally and by remote reads: both find
      the same vertex, which has the key *)
Lemma home_find g m key : ht_rep (hdr g) m →
  (bucket_size < buf_sz)%Z →
  ∃ r, get_vertex_local (hdr g) key = Ok (default empty_vertex r) ∧
       remote_loop (chain_fuel (hdr g)) g key (bucket_of (hdr g) key) = Ok r ∧
       ∀ v, r = Some v → v_key v = key.
Proof.
  intros (ch & ky & Hok & _) Hbuf. destruct (ok_home _ _ _ key Hok) as (l & ks & Hl & _ & [Hp _ _ _]).
  destruct (find_slots_total (vertices (hdr g)) key (slots_of l)) as [r Hr].
  { apply Forall_forall. intros s [Hs _]%elem_of_slots_of. rewrite (ok_len _ _ _ Hok). by eapply slots_of_range. }
  exists r. split_and!.
  - unfold get_vertex_local. rewrite (get_vertex_loop_path _ _ _ _ l); [|done|by eapply ok_chain_length].
    by rewrite Hr.
  - rewrite (remote_loop_path _ _ _ _ l); [done|done|by eapply ok_chain_length|done|].
    rewrite (ok_len _ _ _ Hok). by eapply ok_in_range.
  - intros v ->. by eapply find_slots_key.
Qed.

  (** the reserved empty key is never found *)
Lemma get_vertex_local_empty g m : ht_rep (hdr g) m →
  ∃ v, get_vertex_local (hdr g) empty_key = Ok v ∧ v_key v = empty_key.
Proof.
  intros (ch & ky & Hok & _). destruct (ok_home _ _ _ empty_key Hok) as (l & ks & Hl & _ & [Hp _ _ _]).
  destruct (find_slots_total (vertices (hdr g)) empty_key (slots_of l)) as [r Hr].
  { apply Forall_forall. intros s [Hs _]%elem_of_slots_of. rewrite (ok_len _ _ _ Hok). by eapply slots_of_range. }
  exists (default empty_vertex r). split.
  - unfold get_vertex_local. rewrite (get_vertex_loop_path _ _ _ _ l); [|done|by eapply ok_chain_length].
    by rewrite Hr.
  - destruct r as [v|]; [by eapply find_slots_key|done].
Qed.

Lemma get_vertex_remote_ok kv c key :
  cluster_ok kv → cache_coherent c → global_num_servers ≠ 1%Z → key_wf key →
  ∃ g v c', stores !! owner (k_vid key) = Some g ∧ get_vertex_remote c key = Ok (v, c') ∧
    cache_coherent c' ∧ (key ≠ empty_key → get_vertex_local (hdr g) key = Ok v) ∧
    (key = empty_key → v_key v = empty_key).
Proof.
  intros Hcl Hc Hmany Hkw. destruct Hcl as [Hlen Hsm Hsid Hrdma Hbuf Hrep Hsl Hbk _].
  specialize (Hrdma Hmany). specialize (Hbuf Hmany).
  destruct (lookup_lt_is_Some_2 stores sid Hsid) as [me Hme].
  assert (Hown : owner (k_vid key) < length stores).
  { unfold owner. pose proof (Z.mod_pos_bound (k_vid key) global_num_servers). lia. }
  destruct (lookup_lt_is_Some_2 _ _ Hown) as [g Hg]. exists g.
  unfold get_vertex_remote. assert (read stores sid = Ok me) as -> by (by apply read_Ok). cbn [mbind outcome_bind].
  rewrite hash_mod_Ok by (unfold key_wf in Hkw; lia). cbn [mbind outcome_bind]. rewrite Hrdma. cbn [assert_that mbind outcome_bind].
  destruct (cache_lookup c key) as [v|] eqn:El.
  - exists v, c. split_and!; [done|done|done| |].
    + intros Hne. apply cache_lookup_coherent in El as (_ & g' & Hg' & Hv); [|done..]. by simplify_eq.
    + intros ->. by eapply cache_lookup_key.
  - change (Z.to_nat (k_vid key mod global_num_servers)) with (owner (k_vid key)).
    assert (read stores (owner (k_vid key)) = Ok g) as -> by (by apply read_Ok). cbn [mbind outcome_bind]. destruct (Hrep _ _ Hg) as [m Hgs].
    rewrite (bucket_of_proper (hdr me) (hdr g)) by (symmetry; by eapply Hbk).
    destruct (home_find g m key (gs_hdr _ _ _ Hgs) Hbuf) as (r & Hloc & -> & Hk). cbn [mbind outcome_bind].
    destruct r as [v'|]; cbn [default from_option] in *; [|by exists empty_vertex, c].
    specialize (Hk v' eq_refl). exists v', (cache_insert c v'). split_and!; [done|done| |done|congruence].
    eapply cache_insert_coherent; [done|by rewrite Hk|by rewrite Hk].
Qed.

  (** the edges of a local vertex, read with the geometry of another server *)
Lemma rdma_get_edges_ok kv dst g v :
  cluster_ok kv → global_num_servers ≠ 1%Z → stores !! dst = Some g →
  (0 <= p_off (v_ptr v))%Z → (p_size (v_ptr v) * sizeof_edge < buf_sz)%Z →
  rdma_get_edges (Z.of_nat dst) v = read_edges g (Z.to_nat (p_off (v_ptr v))) (Z.to_nat (p_size (v_ptr v))).
Proof.
  intros Hcl Hmany Hg Hoff Hfit. destruct Hcl as [Hlen Hsm Hsid Hrdma Hbuf Hrep Hsl Hbk _].
  specialize (Hrdma Hmany).
  destruct (lookup_lt_is_Some_2 stores sid Hsid) as [me Hme]. unfold rdma_get_edges.
  assert (read stores sid = Ok me) as -> by (by apply read_Ok). rewrite Hrdma.
  assert (read stores (Z.to_nat (Z.of_nat dst)) = Ok g) as -> by (rewrite Nat2Z.id; by apply read_Ok).
  rewrite (proj2 (Z.ltb_lt _ _) Hfit). cbn [assert_that mbind outcome_bind].
  rewrite (Hsl _ _ _ Hg Hme). unfold sizeof_edge.
  rewrite (proj2 (Z.leb_le _ _)) by lia.
  replace (_ + p_off (v_ptr v) * 4 - _)%Z with (p_off (v_ptr v) * 4)%Z by lia.
  by rewrite Z.mod_mul, Z.div_mul by lia.
Qed.

  (** what a lookup returns for a stored and for an absent key *)
Lemma get_vertex_local_entry g kv key v :
  gs_rep g kv → key ≠ empty_key → get_vertex_local (hdr g) key = Ok v →
  match kv !! key with
  | Some vals => v_key v = key ∧ entry_ok g (v_ptr v) vals
  | None => v_key v = empty_key
  end.
Proof.
  intros [m Hg] Hne E. pose proof (get_vertex_local_lookup (hdr g) m key (gs_hdr _ _ _ Hg) Hne) as Hl.
  destruct (m !! key) as [s|] eqn:Hs.
  - destruct Hl as (v' & Hv' & Hk & E'). rewrite E in E'. injection E' as <-.
    assert (Hd : key ∈ dom kv) by (rewrite <-(gs_dom _ _ _ Hg); by apply elem_of_dom).
    apply elem_of_dom in Hd as [vals Hvals]. rewrite Hvals. split; [done|].
    destruct (gs_entry _ _ _ Hg key s vals Hs Hvals) as (p & Hp & Hen).
    unfold ptr_at in Hp. rewrite Hv' in Hp. by injection Hp as <-.
  - apply not_elem_of_dom in Hs. rewrite (gs_dom _ _ _ Hg) in Hs. apply not_elem_of_dom in Hs as ->.
    rewrite Hl in E. by injection E as <-.
Qed.

Lemma gs_rep_no_empty g kv : gs_rep g kv → kv !! empty_key = None.
Proof.
  intros [m Hg]. apply not_elem_of_dom. rewrite <-(gs_dom _ _ _ Hg). intros [s Hs]%elem_of_dom.
  by apply (ht_rep_nonempty _ _ _ _ (gs_hdr _ _ _ Hg)) in Hs.
Qed.

Lemma get_edges_local_ok g kv vid d pid :
  gs_rep g kv → key_wf (IKey vid pid (dir_val d)) →
  get_edges_local g vid d pid = Ok (default [] (kv !! IKey vid pid (dir_val d))).
Proof.
  intros Hg Hw. destruct (decide (IKey vid pid (dir_val d) = empty_key)) as [E|]; [|by apply get_edges_local_rep].
  unfold get_edges_local. rewrite (proj2 (mk_ikey_Ok vid pid d _)) by done. cbn [mbind outcome_bind]. rewrite E.
  rewrite (gs_rep_no_empty g kv Hg). destruct Hg as [m Hg].
  destruct (get_vertex_local_empty g m (gs_hdr _ _ _ Hg)) as (v & -> & Hv). cbn [mbind outcome_bind].
  by rewrite Hv.
Qed.

  (** one read, with any coherent cache *)
Lemma get_edges_global_ok kv c vid d pid :
  cluster_ok kv → cache_coherent c → key_wf (IKey vid pid (dir_val d)) →
  ∃ c', get_edges_global_at c vid d pid =
          Ok (default [] (kv (owner vid) !! IKey vid pid (dir_val d)), c') ∧
        cache_coherent c'.
Proof.
  intros Hcl Hc Hw. pose proof Hcl as [Hlen Hsm Hsid Hr Hbuf Hrep Hsl Hbk Hfit].
  unfold get_edges_global_at, get_edges_remote.
  rewrite hash_mod_Ok by (destruct Hw; simpl in *; lia). cbn [mbind outcome_bind].
  pose proof (Z.mod_pos_bound vid global_num_servers) as Hm.
  destruct (Z.eqb_spec (vid mod global_num_servers) (Z.of_nat sid)) as [E|E].
  - exists c. split; [|done]. destruct (lookup_lt_is_Some_2 stores sid Hsid) as [me Hme].
    assert (read stores sid = Ok me) as -> by (by apply read_Ok). cbn [mbind outcome_bind].
    rewrite (get_edges_local_ok me (kv (owner vid))); [done|..|done].
    apply Hrep. unfold owner. by rewrite E, Nat2Z.id.
  - assert (Hmany : global_num_servers ≠ 1%Z) by (intros E1; rewrite E1, Z.mod_1_r in E, Hm; lia).
    rewrite (proj2 (mk_ikey_Ok vid pid d _)) by done. cbn [mbind outcome_bind].
    set (key := IKey vid pid (dir_val d)) in *.
    destruct (get_vertex_remote_ok kv c key Hcl Hc Hmany Hw) as (g & v & c' & Hg & -> & Hc' & Hv & Hempty).
    cbn [mbind outcome_bind]. change (k_vid key) with vid in Hg. exists c'. split; [|done].
    destruct (decide (key = empty_key)) as [Ek|Hne].
    { rewrite (Hempty Ek), Ek, (gs_rep_no_empty g _ (Hrep _ _ Hg)). done. }
    pose proof (get_vertex_local_entry g _ key v (Hrep _ _ Hg) Hne (Hv Hne)) as Hen.
    destruct (kv (owner vid) !! key) as [vals|] eqn:Hkv.
    + destruct Hen as [Hvk [Hsz Hoff Hin Hvals]].
      destruct (is_empty_spec (v_key v)) as [?|_]; [congruence|].
      assert (vid mod global_num_servers = Z.of_nat (owner vid))%Z as -> by (unfold owner; lia).
      rewrite (rdma_get_edges_ok kv _ g v Hcl Hmany Hg Hoff) by (rewrite Hsz; by eapply Hfit).
      destruct (Hrep _ _ Hg) as [m Hgs].
      unfold read_edges. rewrite Hsz, Nat2Z.id, (proj2 (Nat.leb_le _ _)), Hvals; [done|].
      rewrite (gs_len _ _ _ Hgs). pose proof (gs_last _ _ _ Hgs). lia.
    + by rewrite Hen.
Qed.

  (** a sequence of reads of one engine, which share the cache *)
Fixpoint read_all (c : rdma_cache) (ks : list (sid_t * dir_t * sid_t)) : outcome (list (list sid_t) * rdma_cache) :=
  match ks with
  | [] => Ok ([], c)
  | (vid, d, pid) :: ks =>
      '(es, c) ← get_edges_global_at c vid d pid;
      '(l, c) ← read_all c ks;
      Ok (es :: l, c)
  end.

(** C13: reads are location transparent: any sequence of [get_edges_global] calls,
    from an empty cache or any coherent one, returns for each key the edges that the
    owner of the vertex stores (none for an absent key), whether a call reads the
    local header, follows the chain of the remote header bucket by bucket, or takes
    a location cached by an earlier call; and the cache stays coherent. *)
Theorem get_edges_global_transparent kv c ks :
  cluster_ok kv → cache_coherent c →
  Forall (λ '(vid, d, pid), key_wf (IKey vid pid (dir_val d))) ks →
  ∃ c', read_all c ks =
          Ok ((λ '(vid, d, pid), default [] (kv (owner vid) !! IKey vid pid (dir_val d))) <$> ks, c') ∧
        cache_coherent c'.
Proof.
  intros Hcl Hc Hks. revert c Hc. induction Hks as [|[[vid d] pid] ks Hk _ IH]; intros c Hc; [by exists c|].
  destruct (get_edges_global_ok kv c vid d pid Hcl Hc Hk) as (c1 & E1 & Hc1).
  destruct (IH c1 Hc1) as (c2 & E2 & Hc2). exists c2. split; [|done].
  cbn [read_all fmap list_fmap]. rewrite E1. cbn [mbind outcome_bind]. rewrite E2. done.
Qed.
End remote.

(** two servers, the second of which holds one key *)
Definition two_servers : Config := {|
  global_num_servers := 2; global_num_threads := 2; global_num_proxies := 1; global_num_engines := 1;
  global_use_rdma := true; global_enable_caching := true; global_mt_threshold := 1;
  global_rdma_threshold := 300; global_enable_vattr := false |}.

Definition one_key_store : gstore :=
  match put_normal (refresh small_store) 131073 5 IN [131072%Z] with Ok g => g | Err _ => small_store end.

Definition second_kv (kv : gmap ikey_t (list sid_t)) (i : nat) : gmap ikey_t (list sid_t) :=
  match i with 1 => kv | _ => ∅ end.

Lemma pair_cluster_ok (cfg := two_servers) kv g0 g1 :
  gs_rep g0 ∅ → gs_rep g1 kv →
  num_slots (hdr g1) = num_slots (hdr g0) → num_buckets (hdr g1) = num_buckets (hdr g0) →
  map_Forall (λ _ vals, Z.of_nat (length vals) * sizeof_edge < 1024)%Z kv →
  cluster_ok [g0; g1] 0 1024 (second_kv kv).
Proof.
  intros H0 H1 Hs Hb Hf. split; [done|done|simpl; lia|done|done| | | |].
  - intros [|[|i]] g Hi; simpl in Hi; by simplify_eq.
  - intros [|[|i]] g g' Hi Hi'; simpl in *; by simplify_eq.
  - intros [|[|i]] g g' Hi Hi'; simpl in *; by simplify_eq.
  - intros [|[|i]] k vals; simpl; [done|intros _; apply Hf|done].
Qed.

Lemma two_cluster_ok : @cluster_ok two_servers [refresh small_store; one_key_store] 0 1024 (second_kv {[IKey 131073 5 0 := [131072%Z]]}).
Proof.
  assert (Hr0 : gs_rep (refresh small_store) ∅) by (apply refresh_rep; [apply small_header_sizes|done]).
  apply pair_cluster_ok; [exact Hr0| |by vm_compute|by vm_compute|by apply map_Forall_singleton].
  destruct (put_normal_ok (refresh small_store) ∅ 131073 5 IN [131072%Z] Hr0) as (g' & E & Hg' & _); [done| |done| |].
  - split_and!; simpl; lia.
  - split; simpl; lia.
  - unfold one_key_store. rewrite E. exact Hg'.
Qed.

Lemma get_edges_global_transparent_witness :
  ∃ c', @read_all two_servers [refresh small_store; one_key_store] 0 1024 ∅
          [(131073, IN, 5); (131072, OUT, 5); (131073, IN, 5)]%Z = Ok ([[131072]; []; [131072]]%Z, c').
Proof.
  destruct (@get_edges_global_transparent two_servers [refresh small_store; one_key_store] 0 1024
    (second_kv {[IKey 131073 5 0 := [131072%Z]]}) ∅ [(131073, IN, 5); (131072, OUT, 5); (131073, IN, 5)]%Z) as (c' & E & _).
  - exact two_cluster_ok.
  - intros idx v Hv. done.
  - repeat constructor; simpl; lia.
  - exists c'. exact E.
Defined.
