(* ===== verification/Attr.v ===== *)
(** [core/gstore.hpp], vertex attributes: [insert_vertex_attr] writes the value of
    an attribute into the entry region and its type into the pointer of the
    vertex; [get_vertex_attr_local] reads it back by that type. *)

From S2P Require Import Prelude Types MyMath Keys HashTable GStore Runs Remote.
Local Open Scope nat_scope.

(** The words that [*(int * )(edges + off) = v] and its siblings write (little endian);
    [i] is an [int], a floating value is its bit pattern. *)
Definition attr_words (v : attr_t) : list sid_t :=
  match v with
  | attr_int i => [u32 i]
  | attr_float bits => [u32 bits]
  | attr_double bits => [u32 bits; u32 (bits / 2 ^ 32)]
  end.

(** a value of the C++ type *)
Definition attr_wf (v : attr_t) : Prop :=
  match v with
  | attr_int i => (-2 ^ 31 <= i < 2 ^ 31)%Z
  | attr_float bits => (0 <= bits < 2 ^ 32)%Z
  | attr_double bits => (0 <= bits < 2 ^ 64)%Z
  end.

(** the number of entries of a value: [(get_sizeof(type) - 1) / sizeof(edge_t) + 1] *)
Definition attr_size (type : Z) : nat := Z.to_nat (u64 (get_sizeof type - 1) / sizeof_edge + 1).

Definition insert_attr (g : gstore) (attr : triple_attr_t) : outcome gstore :=
  (* allocate a vertex and edges *)
  key ← mk_ikey (ta_s attr) (ta_a attr) OUT;
  let type := get_type (ta_v attr) in
  let sz := attr_size type in
  '(off, g) ← alloc_edges g sz;
  (* insert a vertex *)
  '(slot_id, h) ← insert_key (hdr g) key true;
  ptr ← mk_iptr (Z.of_nat sz) (Z.of_nat off) type;
  vs ← write_ptr (vertices h) slot_id ptr;
  (* insert edges (attributes) *)
  es ← store_edges (edges g) off (attr_words (ta_v attr));
  Ok (GStore (set_vertices h vs) (num_entries g) (last_entry g) es).

Definition insert_vertex_attr (g : gstore) (attrs : list triple_attr_t) : outcome gstore :=
  foldM insert_attr g attrs.

(** read the value of type [type] at the entry [off] of [es]; an unsupported type
    is logged and leaves the default-constructed [attr_t] *)
Definition read_attr (es : list sid_t) (off : nat) (type : Z) : outcome attr_t :=
  if (type =? INT_t)%Z then w ← read es off; Ok (attr_int (i32 w))
  else if (type =? FLOAT_t)%Z then w ← read es off; Ok (attr_float w)
  else if (type =? DOUBLE_t)%Z then
    lo ← read es off; hi ← read es (S off); Ok (attr_double (lo + hi * 2 ^ 32))
  else Ok (attr_int 0).

(** [None] is [has_value = false] *)
Definition get_vertex_attr_local (g : gstore) (vid : sid_t) (d : dir_t) (pid : sid_t) : outcome (option attr_t) :=
  key ← mk_ikey vid pid d;
  v ← get_vertex_local (hdr g) key;
  if is_empty (v_key v) then Ok None (* not found *)
  else
    let off := Z.to_nat (p_off (v_ptr v)) in
    r ← read_attr (edges g) off (p_type (v_ptr v));
    Ok (Some r).

Section remote_attr.
  Context `{Config}.
  Context (stores : list gstore) (sid : nat) (buf_sz : Z).

  (** The vertex and its edges are read from the owner, but the value is then taken
      from [edges[r_off]] of this server, with a byte offset as the index. *)
Definition get_vertex_attr_remote (c : rdma_cache) (vid : sid_t) (d : dir_t) (pid : sid_t)
    : outcome (option attr_t * rdma_cache) :=
  dst_sid ← hash_mod vid global_num_servers;
  key ← mk_ikey vid pid d;
  '(v, c) ← get_vertex_remote stores sid buf_sz c key;
  if is_empty (v_key v) then Ok (None, c) (* not found *)
  else
    _ ← rdma_get_edges stores sid buf_sz dst_sid v;
    me ← read stores sid;
    let r_off := (Z.of_nat (num_slots (hdr me)) * sizeof_vertex + p_off (v_ptr v) * sizeof_edge)%Z in
    r ← read_attr (edges me) (Z.to_nat r_off) (p_type (v_ptr v));
    Ok (Some r, c).

Definition get_vertex_attr_global_at (c : rdma_cache) (vid : sid_t) (d : dir_t) (pid : sid_t)
    : outcome (option attr_t * rdma_cache) :=
  dst_sid ← hash_mod vid global_num_servers;
  if (Z.of_nat sid =? dst_sid)%Z then
    me ← read stores sid;
    r ← get_vertex_attr_local me vid d pid;
    Ok (r, c)
  else get_vertex_attr_remote c vid d pid.
End remote_attr.

(** ** Round trip *)

Lemma attr_words_length v : length (attr_words v) = attr_size (get_type v).
Proof. by destruct v. Qed.

Lemma get_type_range v : (0 <= get_type v < 4)%Z.
Proof. destruct v; simpl; unfold INT_t, FLOAT_t, DOUBLE_t; lia. Qed.

(** [insert_attr] is a typed [insert_vertex] *)
Lemma insert_attr_vertex g a key :
  mk_ikey (ta_s a) (ta_a a) OUT = Ok key →
  last_entry g + length (attr_words (ta_v a)) < num_entries g →
  insert_attr g a = insert_vertex (bump g (length (attr_words (ta_v a)))) key (last_entry g) (get_type (ta_v a)) (attr_words (ta_v a)).
Proof.
  intros Hk Hl. unfold insert_attr. rewrite Hk. cbn [mbind outcome_bind]. rewrite <-attr_words_length.
  by rewrite alloc_edges_ok.
Qed.

Lemma read_take (es : list sid_t) off n l k : take n (drop off es) = l → k < n → read es (off + k) = read l k.
Proof. intros <- Hk. unfold read. by rewrite lookup_take_lt, lookup_drop by done. Qed.

Lemma read_attr_words es off v :
  attr_wf v → take (length (attr_words v)) (drop off es) = attr_words v →
  read_attr es off (get_type v) = Ok v.
Proof.
  intros Hw Ht. pose proof (read_take es off _ _ 0 Ht) as H0. rewrite Nat.add_0_r in H0.
  destruct v as [i|b|b]; simpl in *; unfold read_attr; simpl; rewrite H0 by lia; simpl.
  - f_equal. f_equal. unfold i32, u32. Z.div_mod_to_equations. lia.
  - pose proof (read_take es off _ _ 1 Ht) as H1. rewrite Nat.add_1_r in H1. rewrite H1 by lia. simpl.
    f_equal. f_equal. unfold u32. Z.div_mod_to_equations. lia.
  - f_equal. f_equal. unfold u32. rewrite Z.mod_small; lia.
Qed.

Lemma get_vertex_attr_local_rep g kv vid d pid v :
  gs_rep g kv → key_wf (IKey vid pid (dir_val d)) → IKey vid pid (dir_val d) ≠ empty_key →
  attr_wf v → kv !! IKey vid pid (dir_val d) = Some (attr_words v) →
  vertex_type g (IKey vid pid (dir_val d)) = Some (get_type v) →
  get_vertex_attr_local g vid d pid = Ok (Some v).
Proof.
  intros Hg Hw Hne Hv Hkv Ht. unfold get_vertex_attr_local.
  rewrite (proj2 (mk_ikey_Ok vid pid d _)) by done. cbn [mbind outcome_bind].
  unfold vertex_type in Ht. destruct (get_vertex_local (hdr g) _) as [x|] eqn:Ex; [|done].
  pose proof (get_vertex_local_entry g kv _ x Hg Hne Ex) as He. rewrite Hkv in He.
  destruct He as [Hk [Hsz Hoff Hin Hvals]]. cbn [mbind outcome_bind].
  destruct (is_empty_spec (v_key x)) as [?|_]; [congruence|]. injection Ht as ->.
  by rewrite read_attr_words.
Qed.

(** the key of an attribute *)
Definition attr_key (a : triple_attr_t) : ikey_t := IKey (ta_s a) (ta_a a) 1.
Definition attr_ok (a : triple_attr_t) : Prop :=
  key_wf (attr_key a) ∧ attr_wf (ta_v a).
Definition attrs_size (attrs : list triple_attr_t) : nat := sum_list_with (λ a, length (attr_words (ta_v a))) attrs.

Definition put_attrs (kv : gmap ikey_t (list sid_t)) (attrs : list triple_attr_t) : gmap ikey_t (list sid_t) :=
  foldl (λ kv a, <[attr_key a := attr_words (ta_v a)]> kv) kv attrs.

Lemma put_attrs_lookup kv attrs k : k ∉ attr_key <$> attrs → put_attrs kv attrs !! k = kv !! k.
Proof.
  revert kv. induction attrs as [|a attrs IH]; intros kv Hk; [done|]. simpl in *.
  apply not_elem_of_cons in Hk as [Hk Hk']. unfold put_attrs in *. simpl. rewrite IH by done.
  by rewrite lookup_insert_ne.
Qed.

Lemma insert_vertex_attr_ok attrs g kv :
  gs_rep g kv → Forall attr_ok attrs → NoDup (attr_key <$> attrs) →
  (∀ a, a ∈ attrs → kv !! attr_key a = None) →
  room g (length attrs) (attrs_size attrs) →
  ∃ g', insert_vertex_attr g attrs = Ok g' ∧ gs_rep g' (put_attrs kv attrs) ∧
    (∀ k, k ∈ dom kv → vertex_type g' k = vertex_type g k) ∧
    (∀ a, a ∈ attrs → vertex_type g' (attr_key a) = Some (get_type (ta_v a)) ∧
                      put_attrs kv attrs !! attr_key a = Some (attr_words (ta_v a))) ∧
    consumes g (length attrs) (attrs_size attrs) g'.
Proof.
  revert g kv. induction attrs as [|a attrs IH]; intros g kv Hg Hok Hnd Hk Hr.
  { exists g. split_and!; [done|done|done| |apply consumes_refl]. by intros a ?%elem_of_nil. }
  apply Forall_cons in Hok as [[Hw Hv] Hok]. rewrite fmap_cons, NoDup_cons in Hnd. destruct Hnd as [Hni Hnd].
  assert (Hne : attr_key a ≠ empty_key) by done.
  destruct (insert_vertex_ok g kv (attr_key a) (get_type (ta_v a)) (attr_words (ta_v a)) Hg) as (g1 & E1 & Hg1 & Hc1 & Ht1 & Hto);
    [apply Hk; set_solver|done|done| |apply get_type_range|].
  { eapply room_le; [exact Hr|simpl; lia|unfold attrs_size; simpl; lia]. }
  destruct (IH g1 _ Hg1 Hok Hnd) as (g2 & E2 & Hg2 & Htk & Hall & Hc2).
  { intros a' Ha'. rewrite lookup_insert_ne; [apply Hk; set_solver|].
    intros E. apply Hni. rewrite E. by apply list_elem_of_fmap_2. }
  { eapply room_consume; [|exact Hc1]. exact Hr. }
  exists g2. unfold insert_vertex_attr. simpl. rewrite (insert_attr_vertex _ _ (attr_key a)), E1.
  - split_and!; [done|done| | |by eapply consumes_trans].
    + intros k Hkd. rewrite Htk by (rewrite dom_insert_L; set_solver). by apply Hto.
    + intros a' [->|Ha']%elem_of_cons; [|by apply Hall]. split.
      * by rewrite Htk by (rewrite dom_insert_L; set_solver).
      * rewrite put_attrs_lookup by done. by rewrite lookup_insert_eq.
  - apply mk_ikey_Ok. done.
  - destruct Hr as [_ Hr _ _]. unfold attrs_size in Hr. simpl in Hr. lia.
Qed.

(** C37: vertex attributes round trip: after [insert_vertex_attr] of attributes with
    distinct keys, [get_vertex_attr_local] returns each value with its type
    ([int], [float] or [double]), and the edges of every key stored before are
    unchanged. *)
Theorem vertex_attr_roundtrip g kv attrs :
  gs_rep g kv → Forall attr_ok attrs → NoDup (attr_key <$> attrs) →
  (∀ a, a ∈ attrs → kv !! attr_key a = None) →
  room g (length attrs) (attrs_size attrs) →
  ∃ g', insert_vertex_attr g attrs = Ok g' ∧
    (∀ a, a ∈ attrs → get_vertex_attr_local g' (ta_s a) OUT (ta_a a) = Ok (Some (ta_v a))) ∧
    (∀ vid d pid, is_Some (kv !! IKey vid pid (dir_val d)) →
       get_edges_local g' vid d pid = get_edges_local g vid d pid).
Proof.
  intros Hg Hok Hnd Hk Hr. destruct (insert_vertex_attr_ok attrs g kv Hg Hok Hnd Hk Hr) as (g' & E & Hg' & Ht & Ha & _).
  exists g'. split_and!; [done| |].
  - intros a Hin. destruct (proj1 (Forall_forall _ _) Hok a Hin) as [Hw Hv]. destruct (Ha a Hin) as [Hta Hkva].
    by apply (get_vertex_attr_local_rep g' (put_attrs kv attrs)).
  - intros vid d pid [vals Hvals]. destruct (Hg) as [m Hgs].
    assert (Hw : key_wf (IKey vid pid (dir_val d))) by (eapply gs_wf; [exact Hgs|by apply elem_of_dom]).
    assert (Hne : IKey vid pid (dir_val d) ≠ empty_key).
    { assert (Hd : IKey vid pid (dir_val d) ∈ dom m) by (rewrite (gs_dom _ _ _ Hgs); by apply elem_of_dom).
      apply elem_of_dom in Hd as [s Hs]. by eapply ht_rep_nonempty; [apply (gs_hdr _ _ _ Hgs)|]. }
    rewrite (get_edges_local_rep g' (put_attrs kv attrs)), (get_edges_local_rep g kv) by done.
    rewrite put_attrs_lookup; [done|]. intros (a & Ea & Hin)%list_elem_of_fmap. rewrite Ea, Hk in Hvals; done.
Qed.

Lemma vertex_attr_roundtrip_witness :
  ∃ g', insert_vertex_attr (refresh small_store) [TripleAttr 131072 5 (attr_int (-7)); TripleAttr 131072 6 (attr_double (2 ^ 62))] = Ok g' ∧
        get_vertex_attr_local g' 131072 OUT 5 = Ok (Some (attr_int (-7))).
Proof.
  destruct (vertex_attr_roundtrip (refresh small_store) ∅
    [TripleAttr 131072 5 (attr_int (-7)); TripleAttr 131072 6 (attr_double (2 ^ 62))]) as (g' & E & Ha & _).
  - apply refresh_rep; [apply small_header_sizes|done].
  - repeat constructor; simpl; lia.
  - apply NoDup_cons. split; [|apply NoDup_singleton]. by intros ?%list_elem_of_singleton.
  - intros a _. apply lookup_empty.
  - split; simpl; lia.
  - exists g'. split; [exact E|]. apply (Ha (TripleAttr 131072 5 (attr_int (-7)))). by apply list_elem_of_here.
Defined.

(** a remote attribute read never returns the attribute: [get_vertex_attr_remote]
    finds the vertex on its owner, but indexes its own edge array with a byte offset
    that counts the header region, so in every layout whose header has at least as
    many bytes as there are entries (as the constructor computes it) the access lies
    behind the entry region. *)
Theorem get_vertex_attr_remote_out_of_bounds `{Config} stores sid buf_sz kv c vid d pid me g v :
  cluster_ok stores sid buf_sz kv → cache_coherent stores c → global_num_servers ≠ 1%Z →
  key_wf (IKey vid pid (dir_val d)) → IKey vid pid (dir_val d) ≠ empty_key →
  stores !! sid = Some me → stores !! owner vid = Some g →
  (Z.of_nat (num_entries me) <= Z.of_nat (num_slots (hdr me)) * sizeof_vertex)%Z →
  kv (owner vid) !! IKey vid pid (dir_val d) = Some (attr_words v) →
  vertex_type g (IKey vid pid (dir_val d)) = Some (get_type v) →
  get_vertex_attr_remote stores sid buf_sz c vid d pid = Err OutOfBounds.
Proof.
  intros Hcl Hc Hrdma Hw Hne Hme Hg Hgeo Hkv Hty. unfold get_vertex_attr_remote.
  pose proof Hcl as [Hlen Hsm Hsid _ _ Hrep _ _ Hfit].
  rewrite hash_mod_Ok by (destruct Hw; simpl in *; lia). cbn [mbind outcome_bind].
  rewrite (proj2 (mk_ikey_Ok vid pid d _)) by done. cbn [mbind outcome_bind].
  set (key := IKey vid pid (dir_val d)) in *.
  destruct (get_vertex_remote_ok stores sid buf_sz kv c key Hcl Hc Hrdma Hw) as (g' & x & c' & Hg' & -> & _ & Hx & _).
  specialize (Hx Hne).
  change (k_vid key) with vid in Hg'. rewrite Hg in Hg'. injection Hg' as <-. cbn [mbind outcome_bind].
  pose proof (get_vertex_local_entry g _ key x (Hrep _ _ Hg) Hne Hx) as He. rewrite Hkv in He.
  destruct He as [Hk [Hsz Hoff Hin Hvals]]. destruct (is_empty_spec (v_key x)) as [?|_]; [congruence|].
  pose proof (Z.mod_pos_bound vid global_num_servers).
  assert (vid mod global_num_servers = Z.of_nat (owner vid))%Z as -> by (unfold owner; lia).
  rewrite (rdma_get_edges_ok stores sid buf_sz kv _ g x Hcl Hrdma Hg Hoff) by (rewrite Hsz; by eapply Hfit).
  destruct (Hrep _ _ Hg) as [m Hgs]. destruct (Hrep _ _ Hme) as [m' Hgs'].
  unfold read_edges. rewrite (proj2 (Nat.leb_le _ _))
    by (rewrite Hsz, Nat2Z.id, (gs_len _ _ _ Hgs); pose proof (gs_last _ _ _ Hgs); lia).
  cbn [mbind outcome_bind]. assert (read stores sid = Ok me) as -> by (by apply read_Ok). cbn [mbind outcome_bind].
  unfold vertex_type in Hty. rewrite Hx in Hty. injection Hty as ->.
  set (i := Z.to_nat _).
  assert (Hi : read (edges me) i = Err OutOfBounds).
  { unfold read. rewrite lookup_ge_None_2; [done|]. rewrite (gs_len _ _ _ Hgs'). subst i. unfold sizeof_vertex, sizeof_edge in *. lia. }
  destruct v; unfold read_attr; simpl; by rewrite Hi.
Qed.

Definition one_attr_store : gstore :=
  match insert_attr (refresh small_store) (TripleAttr 131073 5 (attr_int 7)) with Ok g => g | Err _ => small_store end.

Lemma get_vertex_attr_remote_out_of_bounds_witness :
  @get_vertex_attr_remote two_servers [refresh small_store; one_attr_store] 0 1024 ∅ 131073 OUT 5 = Err OutOfBounds.
Proof.
  assert (Hr0 : gs_rep (refresh small_store) ∅) by (apply refresh_rep; [apply small_header_sizes|done]).
  assert (Hr1 : gs_rep one_attr_store {[IKey 131073 5 1 := [7%Z]]} ∧ vertex_type one_attr_store (IKey 131073 5 1) = Some INT_t).
  { destruct (insert_vertex_attr_ok [TripleAttr 131073 5 (attr_int 7)] (refresh small_store) ∅ Hr0) as (g' & E & Hg' & _ & Ht & _).
    - repeat constructor; simpl; lia.
    - apply NoDup_singleton.
    - intros a _. apply lookup_empty.
    - split; simpl; lia.
    - unfold insert_vertex_attr in E. cbn [foldM] in E. apply bind_Ok in E as (g1 & E1 & E2). injection E2 as ->.
      unfold one_attr_store. rewrite E1. split; [exact Hg'|].
      by apply (Ht (TripleAttr 131073 5 (attr_int 7))), list_elem_of_here. }
  refine (@get_vertex_attr_remote_out_of_bounds two_servers [refresh small_store; one_attr_store] 0 1024 (second_kv {[IKey 131073 5 1 := [7%Z]]}) ∅ 131073 OUT 5
    (refresh small_store) one_attr_store (attr_int 7) _ _ _ _ _ eq_refl eq_refl _ _ (proj2 Hr1)).
  - apply pair_cluster_ok; [exact Hr0|exact (proj1 Hr1)|by vm_compute|by vm_compute|by apply map_Forall_singleton].
  - intros idx v Hv. done.
  - done.
  - split_and!; simpl; lia.
  - done.
  - simpl. unfold sizeof_vertex. lia.
  - exact (lookup_singleton_eq (IKey 131073 5 1) [7%Z]).
Defined.
