(* ===== verification/Query.v ===== *)
(** [core/query.hpp]: SPARQL queries, their results and the operations on them.

    Counts and steps ([int] in the code) are [nat]; a variable id is negative and
    stays a [Z]; a table is the flat vector of the code. The variable map of a
    result is initialised lazily by the code ([v2c_map.resize(nvars, NO_RESULT)]
    in every accessor): the accessors here read the initialised map. *)

From Stdlib Require Import String.
From S2P Require Import Prelude Types MyMath Keys.
Local Open Scope nat_scope.

Definition const_pair (t1 t2 : Z) : Z := Z.lor (Z.shiftl t1 4) t2.

Inductive var_type := known_var | unknown_var | const_var.

#[export] Instance var_type_eq_dec : EqDecision var_type.
Proof. solve_decision. Defined.

Definition NBITS_COL : Z := 16.
Definition NO_RESULT : Z := Z.shiftl 1 NBITS_COL - 1.

Definition col2ext (col t : Z) : Z := Z.lor (Z.shiftl t NBITS_COL) col.
Definition ext2col (ext : Z) : Z := Z.land ext (Z.shiftl 1 NBITS_COL - 1).
Definition ext2type (ext : Z) : Z := Z.land (Z.shiftr ext NBITS_COL) (Z.shiftl 1 NBITS_COL - 1).

Inductive SQState := SQ_PATTERN | SQ_UNION | SQ_FILTER | SQ_OPTIONAL | SQ_FINAL | SQ_REPLY.
Inductive PGType := BASIC | UNION | OPTIONAL.

#[export] Instance SQState_eq_dec : EqDecision SQState.
Proof. solve_decision. Defined.
#[export] Instance PGType_eq_dec : EqDecision PGType.
Proof. solve_decision. Defined.

Record Pattern := MkPattern {
  subject : ssid_t;
  predicate : ssid_t;
  object : ssid_t;
  direction : dir_t;
  pred_type : Z
}.

Inductive FilterType :=
| Or | And | Equal | NotEqual | Less | LessOrEqual | Greater
| GreaterOrEqual | Plus | Minus | Mul | Div | Not | UnaryPlus | UnaryMinus
| Literal | Variable_ | IRI | Function_ | ArgumentList | Builtin_str
| Builtin_lang | Builtin_langmatches | Builtin_datatype | Builtin_bound
| Builtin_sameterm | Builtin_isiri | Builtin_isblank | Builtin_isliteral
| Builtin_regex | Builtin_in.

#[export] Instance FilterType_eq_dec : EqDecision FilterType.
Proof. solve_decision. Defined.

Inductive Filter := MkFilter {
  f_type : FilterType;
  arg1 : option Filter;
  arg2 : option Filter;
  arg3 : option Filter;
  f_value : string;
  valueArg : Z
}.

Inductive PatternGroup := MkGroup {
  parallel : bool;
  patterns : list Pattern;
  unions : list PatternGroup;
  filters : list Filter;
  optional : list PatternGroup;
  optional_new_vars : gset ssid_t
}.

Definition empty_group : PatternGroup := MkGroup false [] [] [] [] ∅.

(** used to calculate [dst_sid] *)
Fixpoint get_start (g : PatternGroup) : outcome ssid_t :=
  match patterns g with
  | p :: _ => Ok (subject p)
  | [] =>
      match unions g with
      | u :: _ => get_start u
      | [] => match optional g with o :: _ => get_start o | [] => Err AssertFail end
      end
  end.

Record Order := MkOrder { o_id : ssid_t; descending : bool }.

(** ** Results *)

Record Result := MkResult {
  col_num : nat;
  row_num : nat;
  attr_col_num : nat;
  blind : bool;
  nvars : nat;
  v2c_map : list Z;               (* from variable id to column *)
  required_vars : list ssid_t;
  result_table : list sid_t;
  attr_res_table : list attr_t;
  optional_matched_rows : list bool
}.

Definition empty_result : Result := MkResult 0 0 0 false 0 [] [] [] [] [].

Definition set_table (t : list sid_t) (r : Result) : Result :=
  MkResult (col_num r) (row_num r) (attr_col_num r) (blind r) (nvars r) (v2c_map r)
    (required_vars r) t (attr_res_table r) (optional_matched_rows r).
Definition set_attr_table (t : list attr_t) (r : Result) : Result :=
  MkResult (col_num r) (row_num r) (attr_col_num r) (blind r) (nvars r) (v2c_map r)
    (required_vars r) (result_table r) t (optional_matched_rows r).
Definition set_matched (b : list bool) (r : Result) : Result :=
  MkResult (col_num r) (row_num r) (attr_col_num r) (blind r) (nvars r) (v2c_map r)
    (required_vars r) (result_table r) (attr_res_table r) b.
Definition set_v2c (m : list Z) (r : Result) : Result :=
  MkResult (col_num r) (row_num r) (attr_col_num r) (blind r) (nvars r) m
    (required_vars r) (result_table r) (attr_res_table r) (optional_matched_rows r).
Definition set_col_num (n : nat) (r : Result) : Result :=
  MkResult n (row_num r) (attr_col_num r) (blind r) (nvars r) (v2c_map r)
    (required_vars r) (result_table r) (attr_res_table r) (optional_matched_rows r).
Definition set_attr_col_num (n : nat) (r : Result) : Result :=
  MkResult (col_num r) (row_num r) n (blind r) (nvars r) (v2c_map r)
    (required_vars r) (result_table r) (attr_res_table r) (optional_matched_rows r).
Definition set_row_num (n : nat) (r : Result) : Result :=
  MkResult (col_num r) n (attr_col_num r) (blind r) (nvars r) (v2c_map r)
    (required_vars r) (result_table r) (attr_res_table r) (optional_matched_rows r).
Definition set_blind (b : bool) (r : Result) : Result :=
  MkResult (col_num r) (row_num r) (attr_col_num r) b (nvars r) (v2c_map r)
    (required_vars r) (result_table r) (attr_res_table r) (optional_matched_rows r).
Definition set_nvars (n : nat) (r : Result) : Result :=
  MkResult (col_num r) (row_num r) (attr_col_num r) (blind r) n (v2c_map r)
    (required_vars r) (result_table r) (attr_res_table r) (optional_matched_rows r).

(** [Result::clear] *)
Definition clear_result (r : Result) : Result :=
  MkResult (col_num r) (row_num r) (attr_col_num r) (blind r) (nvars r) (v2c_map r)
    [] [] [] (optional_matched_rows r).

(** the variable map after its lazy initialisation *)
Definition v2c (r : Result) : list Z :=
  match v2c_map r with [] => replicate (nvars r) NO_RESULT | m => m end.

(** [idx = -(vid + 1)] *)
Definition var_idx (vid : ssid_t) : nat := Z.to_nat (- (vid + 1)).

Definition var_ext (r : Result) (vid : ssid_t) : outcome Z :=
  ASSERT (vid <? 0)%Z;
  ASSERT (var_idx vid <? nvars r);
  read (v2c r) (var_idx vid).

Definition var2col (r : Result) (vid : ssid_t) : outcome Z :=
  ext ← var_ext r vid; Ok (ext2col ext).

Definition is_attr_col (r : Result) (vid : ssid_t) : outcome bool :=
  ext ← var_ext r vid; Ok (negb (ext2type ext =? 0)%Z).

Definition variable_type (r : Result) (vid : ssid_t) : outcome var_type :=
  if (0 <=? vid)%Z then Ok const_var
  else c ← var2col r vid; Ok (if (c =? NO_RESULT)%Z then unknown_var else known_var).

Definition add_var2col (r : Result) (vid : ssid_t) (col : nat) (t : Z) : outcome Result :=
  ASSERT (vid <? 0)%Z; (* col >= 0 *)
  ASSERT (var_idx vid <? nvars r);
  e ← read (v2c r) (var_idx vid);
  ASSERT (e =? NO_RESULT)%Z; (* col should not be set *)
  m ← write (v2c r) (var_idx vid) (col2ext (Z.of_nat col) t);
  Ok (set_v2c m r).

Definition get_row_num (r : Result) : nat :=
  match col_num r with
  | O => match attr_col_num r with O => 0 | n => length (attr_res_table r) / n end
  | n => length (result_table r) / n
  end.

Definition get_row_col (r : Result) (i c : nat) : outcome sid_t :=
  read (result_table r) (col_num r * i + c).

Definition get_attr_row_col (r : Result) (i c : nat) : outcome attr_t :=
  read (attr_res_table r) (attr_col_num r * i + c).

(** [for (c < n) update.push_back(get(c))] *)
Definition append_cells {A} (get : nat → outcome A) (n : nat) (update : list A) : outcome (list A) :=
  foldM (λ u c, x ← get c; Ok (u ++ [x])) update (seq 0 n).

Definition append_row_to (r : Result) (i : nat) (update : list sid_t) : outcome (list sid_t) :=
  append_cells (get_row_col r i) (col_num r) update.

Definition append_attr_row_to (r : Result) (i : nat) (update : list attr_t) : outcome (list attr_t) :=
  append_cells (get_attr_row_col r i) (attr_col_num r) update.

(** [v.insert(v.end(), t.begin() + a, t.begin() + b)] *)
Definition slice {A} (t : list A) (a b : nat) : outcome (list A) :=
  if (a <=? b) && (b <=? length t) then Ok (take (b - a) (drop a t)) else Err OutOfBounds.

Definition insert_blank_col (r : Result) (col : nat) : outcome Result :=
  t ← foldM (λ t i,
        a ← slice (result_table r) (i * col_num r) (i * col_num r + col);
        b ← slice (result_table r) (i * col_num r + col) ((i + 1) * col_num r);
        Ok (t ++ a ++ [BLANK_ID] ++ b)) [] (seq 0 (get_row_num r));
  Ok (set_table t r).

(** [v.resize(n, x)] *)
Definition resize {A} (n : nat) (x : A) (v : list A) : list A :=
  take n v ++ replicate (n - length v) x.

(** the column loop of [merge_union]: [this] and [col_map] (-1 is [None]) *)
Definition merge_column (result : Result) (st : Result * list (option nat)) (i : nat)
  : outcome (Result * list (option nat)) :=
  let '(r, col_map) := st in
  let vid := (-1 - Z.of_nat i)%Z in
  mine ← read (v2c_map r) i;
  yours ← read (v2c_map result) i;
  if (mine =? NO_RESULT)%Z && negb (yours =? NO_RESULT)%Z then
    r ← insert_blank_col r (col_num r);
    r ← add_var2col r vid (col_num r) SID_t;
    c ← var2col result vid;
    col_map ← write col_map (col_num r) (Some (Z.to_nat c));
    Ok (set_col_num (S (col_num r)) r, col_map)
  else if negb (mine =? NO_RESULT)%Z && (yours =? NO_RESULT)%Z then
    c ← var2col r vid;
    col_map ← write col_map (Z.to_nat c) None;
    Ok (r, col_map)
  else if negb (mine =? NO_RESULT)%Z && negb (yours =? NO_RESULT)%Z then
    c ← var2col r vid;
    c' ← var2col result vid;
    col_map ← write col_map (Z.to_nat c) (Some (Z.to_nat c'));
    Ok (r, col_map)
  else Ok (r, col_map).

Definition merge_row (result : Result) (n : nat) (col_map : list (option nat)) (t : list sid_t) (i : nat)
  : outcome (list sid_t) :=
  append_cells (λ j, c ← read col_map j;
    match c with
    | None => Ok BLANK_ID
    | Some c => read (result_table result) (i * col_num result + c)
    end) n t.

Definition merge_union (this result : Result) : outcome Result :=
  let this := MkResult (col_num this) (row_num this + row_num result) (attr_col_num result)
    (blind result) (nvars result) (resize (nvars result) NO_RESULT (v2c_map this))
    (required_vars this) (result_table this) (attr_res_table this) (optional_matched_rows this) in
  '(this, col_map) ← foldM (merge_column result) (this, replicate (nvars this) None)
                       (seq 0 (length (v2c_map result)));
  t ← foldM (merge_row result (col_num this) col_map) (result_table this) (seq 0 (row_num result));
  Ok (set_attr_table (attr_res_table this ++ attr_res_table result) (set_table t this)).

Definition append_result (this result : Result) : Result :=
  let this := MkResult (col_num result) (row_num this + row_num result) (attr_col_num result)
    (blind result) (nvars this) (v2c_map result) (required_vars this)
    (result_table this) (attr_res_table this) (optional_matched_rows this) in
  if blind this then this
  else set_attr_table (attr_res_table this ++ attr_res_table result)
         (set_table (result_table this ++ result_table result) this).

(** ** Queries *)

Record SPARQLQuery := MkQuery {
  q_id : Z;
  q_pid : Z;
  q_tid : Z;
  pg_type : PGType;
  state : SQState;
  mt_factor : Z;
  priority : Z;
  pattern_step : nat;
  local_var : ssid_t;
  corun_enabled : bool;
  corun_step : nat;
  fetch_step : nat;
  union_done : bool;
  optional_step : nat;
  limit : Z;
  offset : Z;
  distinct : bool;
  pattern_group : PatternGroup;
  orders : list Order;
  result : Result
}.

(** [SPARQLQuery()] *)
Definition new_query : SPARQLQuery :=
  MkQuery (-1) (-1) 0 BASIC SQ_PATTERN 1 0 0 0 false 0 0 false 0 (-1) 0 false empty_group [] empty_result.

(** [SPARQLQuery(PatternGroup g, int n)] *)
Definition query_of (g : PatternGroup) (n : nat) : SPARQLQuery :=
  MkQuery (-1) (-1) 0 BASIC SQ_PATTERN 1 0 0 0 false 0 0 false 0 (-1) 0 false g []
    (set_v2c (replicate n NO_RESULT) (set_nvars n empty_result)).

Definition set_result (r : Result) (q : SPARQLQuery) : SPARQLQuery :=
  MkQuery (q_id q) (q_pid q) (q_tid q) (pg_type q) (state q) (mt_factor q) (priority q) (pattern_step q)
    (local_var q) (corun_enabled q) (corun_step q) (fetch_step q) (union_done q) (optional_step q)
    (limit q) (offset q) (distinct q) (pattern_group q) (orders q) r.
Definition set_pattern_step (n : nat) (q : SPARQLQuery) : SPARQLQuery :=
  MkQuery (q_id q) (q_pid q) (q_tid q) (pg_type q) (state q) (mt_factor q) (priority q) n
    (local_var q) (corun_enabled q) (corun_step q) (fetch_step q) (union_done q) (optional_step q)
    (limit q) (offset q) (distinct q) (pattern_group q) (orders q) (result q).
Definition set_local_var (v : ssid_t) (q : SPARQLQuery) : SPARQLQuery :=
  MkQuery (q_id q) (q_pid q) (q_tid q) (pg_type q) (state q) (mt_factor q) (priority q) (pattern_step q)
    v (corun_enabled q) (corun_step q) (fetch_step q) (union_done q) (optional_step q)
    (limit q) (offset q) (distinct q) (pattern_group q) (orders q) (result q).
Definition set_state (s : SQState) (q : SPARQLQuery) : SPARQLQuery :=
  MkQuery (q_id q) (q_pid q) (q_tid q) (pg_type q) s (mt_factor q) (priority q) (pattern_step q)
    (local_var q) (corun_enabled q) (corun_step q) (fetch_step q) (union_done q) (optional_step q)
    (limit q) (offset q) (distinct q) (pattern_group q) (orders q) (result q).
Definition set_id (i : Z) (q : SPARQLQuery) : SPARQLQuery :=
  MkQuery i (q_pid q) (q_tid q) (pg_type q) (state q) (mt_factor q) (priority q) (pattern_step q)
    (local_var q) (corun_enabled q) (corun_step q) (fetch_step q) (union_done q) (optional_step q)
    (limit q) (offset q) (distinct q) (pattern_group q) (orders q) (result q).
Definition set_tid (t : Z) (q : SPARQLQuery) : SPARQLQuery :=
  MkQuery (q_id q) (q_pid q) t (pg_type q) (state q) (mt_factor q) (priority q) (pattern_step q)
    (local_var q) (corun_enabled q) (corun_step q) (fetch_step q) (union_done q) (optional_step q)
    (limit q) (offset q) (distinct q) (pattern_group q) (orders q) (result q).
Definition set_group (g : PatternGroup) (q : SPARQLQuery) : SPARQLQuery :=
  MkQuery (q_id q) (q_pid q) (q_tid q) (pg_type q) (state q) (mt_factor q) (priority q) (pattern_step q)
    (local_var q) (corun_enabled q) (corun_step q) (fetch_step q) (union_done q) (optional_step q)
    (limit q) (offset q) (distinct q) g (orders q) (result q).
Definition set_mt_factor (m : Z) (q : SPARQLQuery) : SPARQLQuery :=
  MkQuery (q_id q) (q_pid q) (q_tid q) (pg_type q) (state q) m (priority q) (pattern_step q)
    (local_var q) (corun_enabled q) (corun_step q) (fetch_step q) (union_done q) (optional_step q)
    (limit q) (offset q) (distinct q) (pattern_group q) (orders q) (result q).
Definition set_union_done (b : bool) (q : SPARQLQuery) : SPARQLQuery :=
  MkQuery (q_id q) (q_pid q) (q_tid q) (pg_type q) (state q) (mt_factor q) (priority q) (pattern_step q)
    (local_var q) (corun_enabled q) (corun_step q) (fetch_step q) b (optional_step q)
    (limit q) (offset q) (distinct q) (pattern_group q) (orders q) (result q).
Definition set_optional_step (n : nat) (q : SPARQLQuery) : SPARQLQuery :=
  MkQuery (q_id q) (q_pid q) (q_tid q) (pg_type q) (state q) (mt_factor q) (priority q) (pattern_step q)
    (local_var q) (corun_enabled q) (corun_step q) (fetch_step q) (union_done q) n
    (limit q) (offset q) (distinct q) (pattern_group q) (orders q) (result q).

(** [SPARQLQuery::get_pattern] *)
Definition get_pattern_at (q : SPARQLQuery) (step : nat) : outcome Pattern :=
  ASSERT (step <? length (patterns (pattern_group q)));
  read (patterns (pattern_group q)) step.
Definition get_pattern (q : SPARQLQuery) : outcome Pattern := get_pattern_at q (pattern_step q).

Definition shrink_query (q : SPARQLQuery) : SPARQLQuery :=
  let g := pattern_group q in
  let g := MkGroup (parallel g) (take 1 (patterns g)) [] [] [] (optional_new_vars g) in
  let r := if blind (result q) then clear_result (result q) else result q in
  MkQuery (q_id q) (q_pid q) (q_tid q) (pg_type q) (state q) (mt_factor q) (priority q) (pattern_step q)
    (local_var q) (corun_enabled q) (corun_step q) (fetch_step q) (union_done q) (optional_step q)
    (limit q) (offset q) (distinct q) g [] r.

Definition has_pattern (q : SPARQLQuery) : bool := 0 <? length (patterns (pattern_group q)).
Definition has_union (q : SPARQLQuery) : bool := 0 <? length (unions (pattern_group q)).
Definition has_optional (q : SPARQLQuery) : bool := 0 <? length (optional (pattern_group q)).
Definition has_filter (q : SPARQLQuery) : bool := 0 <? length (filters (pattern_group q)).

Definition done (q : SPARQLQuery) (s : SQState) : outcome bool :=
  match s with
  | SQ_PATTERN => Ok (length (patterns (pattern_group q)) <=? pattern_step q)
  | SQ_UNION => Ok (union_done q)
  | SQ_OPTIONAL => Ok (length (optional (pattern_group q)) <=? optional_step q)
  | SQ_FILTER | SQ_FINAL | SQ_REPLY => Err AssertFail (* DEAD CODE currently *)
  end.

Definition start_from_index (q : SPARQLQuery) : outcome bool :=
  match patterns (pattern_group q) with
  | [] => Ok false
  | p :: _ =>
      if is_tpid (subject p) then
        ASSERT ((predicate p =? PREDICATE_ID) || (predicate p =? TYPE_ID))%Z;
        Ok true
      else Ok false
  end.

(** ** UNION and OPTIONAL sub-queries *)

Section inherit.
  Context `{Config}.

  (** the engines share the work of a query that starts from an index *)
Definition inherit_mt (q r : SPARQLQuery) : outcome SPARQLQuery :=
  b ← start_from_index q;
  Ok (if b && (1 <? i32 (global_mt_threshold * global_num_servers))%Z
      then set_mt_factor (mt_factor r) q else q).

Definition set_pid_type (pid : Z) (t : PGType) (q : SPARQLQuery) : SPARQLQuery :=
  MkQuery (q_id q) pid (q_tid q) t (state q) (mt_factor q) (priority q) (pattern_step q)
    (local_var q) (corun_enabled q) (corun_step q) (fetch_step q) (union_done q) (optional_step q)
    (limit q) (offset q) (distinct q) (pattern_group q) (orders q) (result q).

Definition inherit_union (q r : SPARQLQuery) (idx : nat) : outcome SPARQLQuery :=
  let q := set_pid_type (q_id r) UNION q in
  g ← read (unions (pattern_group r)) idx;
  q ← inherit_mt (set_group g q) r;
  Ok (set_result (set_blind false (result r)) q).

Definition unknown_in (r : Result) (v : ssid_t) : outcome bool :=
  if (v <? 0)%Z then c ← var2col r v; Ok (c =? NO_RESULT)%Z else Ok false.

Definition count_optional_new_vars (q : SPARQLQuery) (r : Result) : outcome SPARQLQuery :=
  let g := pattern_group q in
  let add s v := b ← unknown_in r v; Ok (if b : bool then {[v]} ∪ s else s) in
  vars ← foldM (λ s p, s ← add s (subject p); s ← add s (predicate p); add s (object p))
           (optional_new_vars g) (patterns g);
  Ok (set_group (MkGroup (parallel g) (patterns g) (unions g) (filters g) (optional g) vars) q).

(** the class of a pattern in [reorder_optional_patterns] *)
Inductive opt_class := restricting | known_unknown | const_unknown | unknown_other.

#[export] Instance opt_class_eq_dec : EqDecision opt_class.
Proof. solve_decision. Defined.

Definition classify (r : Result) (p : Pattern) : outcome opt_class :=
  if is_tpid (subject p) then
    ASSERT ((predicate p =? PREDICATE_ID) || (predicate p =? TYPE_ID))%Z;
    c ← var2col r (object p);
    Ok (if (c =? NO_RESULT)%Z then const_unknown else restricting)
  else
    s ← variable_type r (subject p);
    o ← variable_type r (object p);
    Ok match s, o with
       | const_var, known_var | known_var, const_var | known_var, known_var => restricting
       | const_var, unknown_var => const_unknown
       | known_var, unknown_var => known_unknown
       | _, _ => unknown_other
       end.

Definition reorder_step (r : Result)
    (st : list Pattern * list Pattern * list Pattern * list Pattern) (p : Pattern)
  : outcome (list Pattern * list Pattern * list Pattern * list Pattern) :=
  let '(updated, ku, cu, un) := st in
  c ← classify r p;
  Ok match c with
     | restricting => (updated ++ [p], ku, cu, un)
     | known_unknown => (updated, ku ++ [p], cu, un)
     | const_unknown => (updated, ku, cu ++ [p], un)
     | unknown_other => (updated, ku, cu, un ++ [p])
     end.

Definition reorder_optional_patterns (q : SPARQLQuery) (r : Result) : outcome SPARQLQuery :=
  let g := pattern_group q in
  '(updated, ku, cu, un) ← foldM (reorder_step r) ([], [], [], []) (patterns g);
  Ok (set_group (MkGroup (parallel g) (updated ++ ku ++ cu ++ un) (unions g) (filters g)
        (optional g) (optional_new_vars g)) q).

Definition inherit_optional (q r : SPARQLQuery) : outcome SPARQLQuery :=
  let q := set_pid_type (q_id r) OPTIONAL q in
  g ← read (optional (pattern_group r)) (optional_step r);
  q ← inherit_mt (set_group g q) r;
  q ← count_optional_new_vars q (result r);
  q ← reorder_optional_patterns q (result r);
  Ok (set_result (set_blind false
        (set_matched (replicate (get_row_num (result r)) true) (result r))) q).

Definition correct_optional_result (q : SPARQLQuery) (row : nat) : outcome SPARQLQuery :=
  t ← foldM (λ t v,
        col ← var2col (result q) v;
        if (col =? NO_RESULT)%Z then Ok t
        else write t (row * col_num (result q) + Z.to_nat col) BLANK_ID)
      (result_table (result q)) (elements (optional_new_vars (pattern_group q)));
  Ok (set_result (set_table t (result q)) q).
End inherit.

(** ** Templates *)

Record SPARQLQuery_Template := MkTemplate {
  t_group : PatternGroup;
  t_nvars : nat;
  ptypes_str : list string;
  ptypes_pos : list nat;
  ptypes_grp : list (list sid_t)
}.

Definition set_component (pos : nat) (x : ssid_t) (p : Pattern) : Pattern :=
  match pos mod 4 with
  | 0 => MkPattern x (predicate p) (object p) (direction p) (pred_type p)
  | 1 => MkPattern (subject p) x (object p) (direction p) (pred_type p)
  | 3 => MkPattern (subject p) (predicate p) x (direction p) (pred_type p)
  | _ => p
  end.

(** [instantiate(seed)] for a non-negative seed *)
Definition instantiate (t : SPARQLQuery_Template) (seed : nat) : outcome (SPARQLQuery * SPARQLQuery_Template) :=
  let g := t_group t in
  ps ← foldM (λ ps i,
         pos ← read (ptypes_pos t) i;
         grp ← read (ptypes_grp t) i;
         if decide (pos mod 4 = 2) then Ok ps
         else
           x ← read grp (seed mod length grp);
           p ← read ps (pos / 4);
           write ps (pos / 4) (set_component pos (i32 x) p))
       (patterns g) (seq 0 (length (ptypes_pos t)));
  let g := MkGroup (parallel g) ps (unions g) (filters g) (optional g) (optional_new_vars g) in
  Ok (query_of g (t_nvars t), MkTemplate g (t_nvars t) (ptypes_str t) (ptypes_pos t) (ptypes_grp t)).
