(* ===== verification/Rows.v ===== *)
(** The relational view of a result ([core/query.hpp]): the flat table as a list
    of rows, and the loops over row numbers as folds over rows. *)

From S2P Require Import Prelude Types MyMath Keys Query.
Local Open Scope nat_scope.

Definition grid {A} (n : nat) (rows : list (list A)) : Prop := Forall (λ row, length row = n) rows.

Lemma grid_length {A} n (rows : list (list A)) : grid n rows → length (concat rows) = n * length rows.
Proof. induction 1; simpl; [lia|]. rewrite length_app. lia. Qed.

Lemma grid_lookup {A} n (rows : list (list A)) i row c :
  grid n rows → rows !! i = Some row → c < n → concat rows !! (n * i + c) = row !! c.
Proof.
  intros Hg. revert i. induction Hg as [|row' rows Hr Hg IH]; intros i Hi Hc; [done|].
  destruct i as [|i]; simplify_eq/=.
  - rewrite Nat.mul_0_r. simpl. by rewrite lookup_app_l by lia.
  - rewrite lookup_app_r by lia. rewrite <-(IH i) by done. f_equal. lia.
Qed.

Lemma grid_app {A} n (l1 l2 : list (list A)) : grid n (l1 ++ l2) ↔ grid n l1 ∧ grid n l2.
Proof. apply Forall_app. Qed.

(** ** Results as rows *)

Record res_rows (r : Result) (rows : list (list sid_t)) : Prop := {
  rr_cols : 0 < col_num r;
  rr_grid : grid (col_num r) rows;
  rr_table : result_table r = concat rows
}.

(** the attribute rows that go with the rows *)
Record res_attrs (r : Result) (n : nat) (arows : list (list attr_t)) : Prop := {
  ra_len : length arows = n;
  ra_grid : grid (attr_col_num r) arows;
  ra_table : attr_res_table r = concat arows
}.

Lemma get_row_num_rows r rows : res_rows r rows → get_row_num r = length rows.
Proof.
  intros [Hc Hg Ht]. unfold get_row_num. destruct (col_num r) as [|n] eqn:E; [lia|].
  rewrite Ht, (grid_length (S n)) by done. rewrite Nat.mul_comm. by apply Nat.div_mul.
Qed.

Lemma get_row_col_rows r rows i row c :
  res_rows r rows → rows !! i = Some row → c < col_num r → get_row_col r i c = read row c.
Proof.
  intros [Hc Hg Ht] Hi Hlt. unfold get_row_col, read. rewrite Ht. by rewrite (grid_lookup (col_num r) rows i row).
Qed.

Lemma append_cells_all {A} (get : nat → outcome A) (row u : list A) :
  (∀ c x, row !! c = Some x → get c = Ok x) → append_cells get (length row) u = Ok (u ++ row).
Proof.
  unfold append_cells. revert u get. induction row as [|x row IH] using rev_ind; intros u get Hget.
  { by rewrite app_nil_r. }
  rewrite length_app, Nat.add_1_r, seq_S, foldM_snoc.
  rewrite IH by (intros; apply Hget; by apply lookup_app_l_Some). simpl.
  rewrite (Hget _ x); [by rewrite app_assoc|]. by apply list_lookup_middle.
Qed.

Lemma append_row_to_rows r rows i row u :
  res_rows r rows → rows !! i = Some row → append_row_to r i u = Ok (u ++ row).
Proof.
  intros Hr Hi. pose proof (proj1 (Forall_lookup _ _) (rr_grid _ _ Hr) _ _ Hi) as Hl. simpl in Hl.
  unfold append_row_to. rewrite <-Hl. apply append_cells_all. intros c x Hx.
  rewrite (get_row_col_rows r rows i row) by (done || (rewrite <-Hl; by eapply lookup_lt_Some)).
  by apply read_Ok.
Qed.

Lemma append_attr_row_to_rows r n arows i row u :
  res_attrs r n arows → arows !! i = Some row → append_attr_row_to r i u = Ok (u ++ row).
Proof.
  intros [_ Hg Ht] Hi. pose proof (proj1 (Forall_lookup _ _) Hg _ _ Hi) as Hl. simpl in Hl.
  unfold append_attr_row_to. rewrite <-Hl. apply append_cells_all. intros c x Hx.
  unfold get_attr_row_col. apply read_Ok. rewrite Ht.
  rewrite (grid_lookup (attr_col_num r) arows i row); [done..|]. rewrite <-Hl. by eapply lookup_lt_Some.
Qed.

(** A loop over row numbers is a fold over rows, under an invariant of its state. *)
Lemma foldM_rows {A S} (I : S → Prop) (f : S → nat → outcome S) (g : S → A → S) (rows : list A) s :
  I s → (∀ i row s, I s → rows !! i = Some row → f s i = Ok (g s row) ∧ I (g s row)) →
  foldM f s (seq 0 (length rows)) = Ok (foldl g s rows) ∧ I (foldl g s rows).
Proof.
  intros HI Hf. induction rows as [|row rows IH] using rev_ind; [done|].
  rewrite length_app, Nat.add_1_r, seq_S, foldM_snoc, foldl_app. simpl.
  destruct IH as [-> HI'].
  { intros i row' s' Hs' Hi. apply Hf; [done|]. by apply lookup_app_l_Some. }
  simpl. apply Hf; [done|]. by apply list_lookup_middle.
Qed.

(** ** The variable map *)

(** the encoding of a column and a type in one [int] *)
Lemma ext2col_col2ext col t : (0 <= col < 2 ^ 16)%Z → (0 <= t)%Z → ext2col (col2ext col t) = col.
Proof.
  intros Hc Ht. unfold ext2col, col2ext. change (Z.shiftl 1 NBITS_COL - 1)%Z with (Z.ones 16).
  rewrite Z.land_ones by lia. change NBITS_COL with 16%Z.
  apply Z.bits_inj'. intros n Hn. destruct (decide (n < 16)%Z).
  - rewrite Z.mod_pow2_bits_low, Z.lor_spec, Z.shiftl_spec_low by lia. done.
  - rewrite Z.mod_pow2_bits_high by lia. symmetry. apply Z.bits_above_log2; [lia|].
    destruct (decide (col = 0%Z)) as [->|]; [simpl; lia|]. apply Z.log2_lt_pow2; [lia|].
    assert (2 ^ 16 <= 2 ^ n)%Z by (apply Z.pow_le_mono_r; lia). lia.
Qed.

Lemma ext2type_col2ext col t : (0 <= col < 2 ^ 16)%Z → (0 <= t < 2 ^ 16)%Z → ext2type (col2ext col t) = t.
Proof.
  intros Hc Ht. unfold ext2type, col2ext. change (Z.shiftl 1 NBITS_COL - 1)%Z with (Z.ones 16).
  rewrite Z.land_ones by lia. change NBITS_COL with 16%Z.
  rewrite Z.shiftr_lor, Z.shiftr_shiftl_l by lia.
  rewrite (Z.shiftr_div_pow2 col) by lia. rewrite Z.div_small, Z.lor_0_r by lia.
  change (16 - 16)%Z with 0%Z. rewrite Z.shiftl_0_r. apply Z.mod_small. lia.
Qed.

(** [vid] is bound to column [c] of the table *)
Definition bound (r : Result) (vid : ssid_t) (c : nat) : Prop :=
  var2col r vid = Ok (Z.of_nat c) ∧ c < col_num r.
