(* ===== verification/Serial.v ===== *)
(** [core/query.hpp], transmission: the [save]/[load] pairs of the query classes and
    [Bundle]. The binary archive of Boost is an interface: what is written is read
    back, in order. *)

From stdpp Require Import strings sorting.
From Stdlib Require Import Ascii.
From S2P Require Import Prelude Types MyMath Keys Query.
Local Open Scope nat_scope.

(** The archive: integers (also [bool], [char] and enumerations), strings and
    attribute values. A vector is written as its size and its items, a set as its
    size and its items in ascending order, and a pointer as a mark and its target. *)
Class Archive := {
  token : Type;
  put_int : Z → list token;
  put_str : string → list token;
  put_attr : attr_t → list token;
  get_int : list token → option (Z * list token);
  get_str : list token → option (string * list token);
  get_attr : list token → option (attr_t * list token);
  get_put_int z rest : get_int (put_int z ++ rest) = Some (z, rest);
  get_put_str s rest : get_str (put_str s ++ rest) = Some (s, rest);
  get_put_attr a rest : get_attr (put_attr a ++ rest) = Some (a, rest)
}.

Section serial.
  Context `{Archive}.

(** readers of an input archive *)
Definition reader (A : Type) : Type := list token → option (A * list token).
Definition ret {A} (a : A) : reader A := λ s, Some (a, s).
Definition bind {A B} (m : reader A) (k : A → reader B) : reader B := λ s,
  match m s with Some (a, s) => k a s | None => None end.
Local Notation "x <-- m ; k" := (bind m (λ x, k)) (at level 100, m at next level, k at level 200, right associativity).

Definition put_nat (n : nat) : list token := put_int (Z.of_nat n).
Definition put_bool (b : bool) : list token := put_int (if b then 1 else 0)%Z.
Definition get_nat : reader nat := z <-- get_int; ret (Z.to_nat z).
Definition get_bool : reader bool := z <-- get_int; ret (negb (z =? 0)%Z).

(** a vector with the writer [p] and the reader [g] of its items *)
Definition put_vec {A} (p : A → list token) (l : list A) : list token := put_nat (length l) ++ concat (p <$> l).
Fixpoint get_items {A} (g : reader A) (n : nat) : reader (list A) :=
  match n with
  | O => ret []
  | S n => x <-- g; l <-- get_items g n; ret (x :: l)
  end.
Definition get_vec {A} (g : reader A) : reader (list A) := n <-- get_nat; get_items g n.

Definition put_set (s : gset ssid_t) : list token := put_vec put_int (merge_sort Z.le (elements s)).
Definition get_set : reader (gset ssid_t) := l <-- get_vec get_int; ret (list_to_set l).

(** an enumeration by the numbers of its members *)
Definition put_enum {A} `{EqDecision A} (members : list A) (x : A) : list token :=
  put_nat (default 0 (fst <$> list_find (λ y, y = x) members)).
Definition get_enum {A} (members : list A) (d : A) : reader A := n <-- get_nat; ret (nth n members d).

Definition dirs : list dir_t := [IN; OUT; CORUN].
Definition pg_types : list PGType := [BASIC; UNION; OPTIONAL].
Definition states : list SQState := [SQ_PATTERN; SQ_UNION; SQ_FILTER; SQ_OPTIONAL; SQ_FINAL; SQ_REPLY].
Definition filter_types : list FilterType :=
  [Or; And; Equal; NotEqual; Less; LessOrEqual; Greater; GreaterOrEqual; Plus; Minus; Mul; Div; Not; UnaryPlus;
   UnaryMinus; Literal; Variable_; IRI; Function_; ArgumentList; Builtin_str; Builtin_lang; Builtin_langmatches;
   Builtin_datatype; Builtin_bound; Builtin_sameterm; Builtin_isiri; Builtin_isblank; Builtin_isliteral;
   Builtin_regex; Builtin_in].

(** [char occupied = 0; char empty = 1] *)
Definition occupied : Z := 0.
Definition empty : Z := 1.
(** an optional vector: a mark, and the vector when it has items *)
Definition put_some {A} (p : list A → list token) (l : list A) : list token :=
  match l with [] => put_int empty | _ => put_int occupied ++ p l end.
Definition get_some {A} (g : reader (list A)) : reader (list A) :=
  temp <-- get_int; if (temp =? occupied)%Z then g else ret [].

(** ** Patterns, filters, groups *)

Definition save_pattern (t : Pattern) : list token :=
  put_int (subject t) ++ put_int (predicate t) ++ put_int (object t) ++ put_enum dirs (direction t) ++ put_int (pred_type t).
Definition load_pattern : reader Pattern :=
  s <-- get_int; p <-- get_int; o <-- get_int; d <-- get_enum dirs IN; ty <-- get_int;
  ret (MkPattern s p o d ty).

(** [Filter::serialize] with the pointers to its arguments *)
Fixpoint save_filter (f : Filter) : list token :=
  let put_ptr (p : option Filter) :=
    match p with None => put_bool false | Some f => put_bool true ++ save_filter f end in
  put_enum filter_types (f_type f) ++ put_ptr (arg1 f) ++ put_ptr (arg2 f) ++ put_ptr (arg3 f) ++
  put_str (f_value f) ++ put_int (valueArg f).
Fixpoint load_filter (fuel : nat) : reader Filter :=
  match fuel with
  | O => λ _, None
  | S fuel =>
      let get_ptr : reader (option Filter) :=
        b <-- get_bool; if b : bool then f <-- load_filter fuel; ret (Some f) else ret None in
      ty <-- get_enum filter_types Or; a1 <-- get_ptr; a2 <-- get_ptr; a3 <-- get_ptr;
      v <-- get_str; n <-- get_int;
      ret (MkFilter ty a1 a2 a3 v n)
  end.

Fixpoint save_group (g : PatternGroup) : list token :=
  put_bool (parallel g) ++ put_vec save_pattern (patterns g) ++ put_set (optional_new_vars g) ++
  put_some (put_vec save_filter) (filters g) ++
  put_some (put_vec save_group) (optional g) ++
  put_some (put_vec save_group) (unions g).
Fixpoint load_group (fuel : nat) : reader PatternGroup :=
  match fuel with
  | O => λ _, None
  | S fuel =>
      par <-- get_bool; ps <-- get_vec load_pattern; vars <-- get_set;
      fs <-- get_some (get_vec (load_filter fuel));
      opt <-- get_some (get_vec (load_group fuel));
      un <-- get_some (get_vec (load_group fuel));
      ret (MkGroup par ps un fs opt vars)
  end.

Definition save_order (o : Order) : list token := put_int (o_id o) ++ put_bool (descending o).
Definition load_order : reader Order := i <-- get_int; d <-- get_bool; ret (MkOrder i d).

(** ** Results and queries *)

Definition save_result (t : Result) : list token :=
  put_nat (col_num t) ++ put_nat (row_num t) ++ put_nat (attr_col_num t) ++ put_bool (blind t) ++
  put_nat (nvars t) ++ put_vec put_int (v2c_map t) ++ put_vec put_bool (optional_matched_rows t) ++
  (if negb (blind t) then put_vec put_int (required_vars t) else []) ++
  (* attr_res_table may not be empty if result_table is empty *)
  (if (0 <? length (result_table t)) || (0 <? length (attr_res_table t))
   then put_int occupied ++ put_vec put_int (result_table t) ++ put_vec put_attr (attr_res_table t)
   else put_int empty).
Definition load_result : reader Result :=
  col <-- get_nat; row <-- get_nat; acol <-- get_nat; bl <-- get_bool; nv <-- get_nat;
  m <-- get_vec get_int; om <-- get_vec get_bool;
  req <-- (if negb bl then get_vec get_int else ret []);
  temp <-- get_int;
  if (temp =? occupied)%Z
  then t <-- get_vec get_int; ats <-- get_vec get_attr; ret (MkResult col row acol bl nv m req t ats om)
  else ret (MkResult col row acol bl nv m req [] [] om).

Definition save_query (t : SPARQLQuery) : list token :=
  put_int (q_id t) ++ put_int (q_pid t) ++ put_int (q_tid t) ++ put_int (limit t) ++ put_int (offset t) ++
  put_bool (distinct t) ++ put_enum pg_types (pg_type t) ++ put_nat (pattern_step t) ++ put_bool (union_done t) ++
  put_nat (optional_step t) ++ put_nat (corun_step t) ++ put_nat (fetch_step t) ++ put_int (local_var t) ++
  put_int (mt_factor t) ++ put_int (priority t) ++ put_enum states (state t) ++ save_group (pattern_group t) ++
  put_some (put_vec save_order) (orders t) ++ save_result (result t).
(** [load] into a default-constructed query *)
Definition load_query (fuel : nat) : reader SPARQLQuery :=
  id <-- get_int; pid <-- get_int; tid <-- get_int; lim <-- get_int; off <-- get_int;
  dist <-- get_bool; pg <-- get_enum pg_types BASIC; ps <-- get_nat; ud <-- get_bool;
  os <-- get_nat; cs <-- get_nat; fs <-- get_nat; lv <-- get_int;
  mt <-- get_int; pr <-- get_int; st <-- get_enum states SQ_PATTERN; g <-- load_group fuel;
  ords <-- get_some (get_vec load_order); r <-- load_result;
  ret (MkQuery id pid tid pg st mt pr ps lv (corun_enabled new_query) cs fs ud os lim off dist g ords r).

  (** ** The other requests, and bundles *)

Record GStoreCheck := MkCheck { gc_pid : Z; check_ret : Z; index_check : bool; normal_check : bool }.
Definition new_check (i n : bool) : GStoreCheck := MkCheck (-1) 0 i n.
Definition save_check (t : GStoreCheck) : list token :=
  put_int (gc_pid t) ++ put_int (check_ret t) ++ put_bool (index_check t) ++ put_bool (normal_check t).
Definition load_check : reader GStoreCheck :=
  p <-- get_int; c <-- get_int; i <-- get_bool; n <-- get_bool; ret (MkCheck p c i n).

Record RDFLoad := MkLoad { rl_pid : Z; load_dname : string; load_ret : Z; check_dup : bool }.
Definition new_load (s : string) (b : bool) : RDFLoad := MkLoad (-1) s 0 b.
Definition save_load (t : RDFLoad) : list token :=
  put_int (rl_pid t) ++ put_str (load_dname t) ++ put_int (load_ret t) ++ put_bool (check_dup t).
Definition load_load : reader RDFLoad :=
  p <-- get_int; s <-- get_str; c <-- get_int; d <-- get_bool; ret (MkLoad p s c d).

Inductive req_type := SPARQL_QUERY | DYNAMIC_LOAD | GSTORE_CHECK.
#[export] Instance req_type_eq_dec : EqDecision req_type.
Proof. solve_decision. Defined.

(** a message on the wire: the character of its type, and the archive *)
Definition wire : Type := ascii * list token.
Record Bundle := MkBundle { b_type : req_type; b_data : list token }.

Definition query_bundle (r : SPARQLQuery) : Bundle := MkBundle SPARQL_QUERY (save_query r).
Definition load_bundle (r : RDFLoad) : Bundle := MkBundle DYNAMIC_LOAD (save_load r).
Definition check_bundle (r : GStoreCheck) : Bundle := MkBundle GSTORE_CHECK (save_check r).

Definition bundle_type_char (t : req_type) : ascii :=
  match t with SPARQL_QUERY => "0" | DYNAMIC_LOAD => "1" | GSTORE_CHECK => "2" end%char.
(** another character leaves the type as it was *)
Definition set_type (c : ascii) (b : Bundle) : Bundle :=
  MkBundle (if bool_decide (c = "0"%char) then SPARQL_QUERY
            else if bool_decide (c = "1"%char) then DYNAMIC_LOAD
            else if bool_decide (c = "2"%char) then GSTORE_CHECK else b_type b) (b_data b).

(** [bundle.get_type() + bundle.data] of [Adaptor::send], and [tryrecv] *)
Definition to_wire (b : Bundle) : wire := (bundle_type_char (b_type b), b_data b).
Definition of_wire (w : wire) (old : Bundle) : Bundle := set_type w.1 (MkBundle (b_type old) w.2).

(** a truncated archive raises [archive_exception] *)
Definition run_reader {A} (g : reader A) (data : list token) : outcome A :=
  match g data with Some (x, _) => Ok x | None => Err Uncaught end.
Definition get_sparql_query (fuel : nat) (b : Bundle) : outcome SPARQLQuery :=
  ASSERT (bool_decide (b_type b = SPARQL_QUERY)); run_reader (load_query fuel) (b_data b).
Definition get_rdf_load (b : Bundle) : outcome RDFLoad :=
  ASSERT (bool_decide (b_type b = DYNAMIC_LOAD)); run_reader load_load (b_data b).
Definition get_gstore_check (b : Bundle) : outcome GStoreCheck :=
  ASSERT (bool_decide (b_type b = GSTORE_CHECK)); run_reader load_check (b_data b).

  (** ** Round trips *)

(** the reader [g] reads [x] from what was written as [p] *)
Definition reads {A} (g : reader A) (p : list token) (x : A) : Prop := ∀ rest, g (p ++ rest) = Some (x, rest).

Lemma reads_ret {A} (x : A) : reads (ret x) [] x.
Proof. done. Qed.
Lemma reads_bind {A B} (m : reader A) (k : A → reader B) p1 p2 a b :
  reads m p1 a → reads (k a) p2 b → reads (bind m k) (p1 ++ p2) b.
Proof. intros H1 H2 rest. unfold bind. by rewrite <-app_assoc, H1, H2. Qed.
Lemma reads_last {A B} (m : reader A) (f : A → B) p a :
  reads m p a → reads (bind m (λ x, ret (f x))) p (f a).
Proof. intros H1 rest. unfold bind. by rewrite H1. Qed.

Lemma reads_int z : reads get_int (put_int z) z.
Proof. intros rest. apply get_put_int. Qed.
Lemma reads_str s : reads get_str (put_str s) s.
Proof. intros rest. apply get_put_str. Qed.
Lemma reads_attr a : reads get_attr (put_attr a) a.
Proof. intros rest. apply get_put_attr. Qed.
Lemma reads_nat n : reads get_nat (put_nat n) n.
Proof. unfold get_nat, put_nat. rewrite <-(Nat2Z.id n) at 2. apply (reads_last _ Z.to_nat), reads_int. Qed.
Lemma reads_bool b : reads get_bool (put_bool b) b.
Proof.
  unfold get_bool, put_bool. replace b with (negb ((if b then 1 else 0) =? 0)%Z) at 2 by (by destruct b).
  apply (reads_last _ (λ z, negb (z =? 0)%Z)), reads_int.
Qed.

Lemma reads_vec {A} (g : reader A) p (l : list A) : Forall (λ x, reads g (p x) x) l → reads (get_vec g) (put_vec p l) l.
Proof.
  intros Hl. unfold get_vec, put_vec. eapply reads_bind; [apply reads_nat|].
  induction Hl as [|x l Hx _ IH]; simpl; [apply reads_ret|].
  eapply reads_bind; [exact Hx|]. by apply (reads_last _ (cons x)).
Qed.

Lemma reads_vec_all {A} (g : reader A) p (l : list A) : (∀ x, reads g (p x) x) → reads (get_vec g) (put_vec p l) l.
Proof. intros Hg. apply reads_vec, Forall_true, Hg. Qed.

Lemma reads_set s : reads get_set (put_set s) s.
Proof.
  unfold get_set, put_set.
  replace s with (list_to_set (merge_sort Z.le (elements s)) : gset ssid_t) at 2.
  - apply (reads_last _ list_to_set), reads_vec_all, reads_int.
  - apply set_eq. intros x. by rewrite elem_of_list_to_set, merge_sort_Permutation, elem_of_elements.
Qed.

Lemma reads_enum {A} `{EqDecision A} (members : list A) d (x : A) : x ∈ members →
  reads (get_enum members d) (put_enum members x) x.
Proof.
  intros Hx. unfold get_enum, put_enum.
  destruct (list_find_elem_of (λ y, y = x) members x Hx eq_refl) as [[i y] E]. rewrite E. simpl.
  apply list_find_Some in E as (Hi & -> & _).
  rewrite <-(nth_lookup_Some members i d x Hi). apply (reads_last _ (λ n, nth n members d)), reads_nat.
Qed.

Lemma reads_some {A} (g : reader (list A)) p (l : list A) : reads g (p l) l → reads (get_some g) (put_some p l) l.
Proof.
  intros Hg. unfold get_some, put_some. destruct l as [|x l].
  - rewrite <-(app_nil_r (put_int empty)). eapply reads_bind; [apply reads_int|]. apply reads_ret.
  - eapply reads_bind; [apply reads_int|]. exact Hg.
Qed.

Lemma reads_pattern t : reads load_pattern (save_pattern t) t.
Proof.
  destruct t as [s p o d ty]. unfold load_pattern, save_pattern. simpl.
  do 3 (eapply reads_bind; [apply reads_int|]). eapply reads_bind; [apply reads_enum; destruct d; set_solver|].
  apply (reads_last _ (MkPattern s p o d)), reads_int.
Qed.

Lemma reads_order o : reads load_order (save_order o) o.
Proof.
  destruct o as [i d]. unfold load_order, save_order. simpl. eapply reads_bind; [apply reads_int|].
  apply (reads_last _ (MkOrder i)), reads_bool.
Qed.

(** the depth of a filter and of a group: enough fuel for their readers *)
Fixpoint filter_depth (f : Filter) : nat :=
  let d p := match p with None => 0 | Some f => filter_depth f end in
  S ((d (arg1 f) `max` d (arg2 f)) `max` d (arg3 f)).
Fixpoint group_depth (g : PatternGroup) : nat :=
  S ((max_list_with filter_depth (filters g) `max` max_list_with group_depth (optional g)) `max`
     max_list_with group_depth (unions g)).

Lemma reads_filter : ∀ f fuel, filter_depth f <= fuel → reads (load_filter fuel) (save_filter f) f.
Proof.
  fix IH 1. intros [ty a1 a2 a3 v n] [|fuel] Hf; simpl in Hf; [lia|].
  set (get_ptr := bind get_bool (λ b, if b : bool then bind (load_filter fuel) (λ f, ret (Some f)) else ret None)).
  assert (Hptr : ∀ a, (match a with None => 0 | Some f => filter_depth f end) <= fuel →
    reads (load_filter fuel) (match a with None => [] | Some f => save_filter f end) (default (MkFilter ty a1 a2 a3 v n) a) ∨ a = None →
    reads get_ptr (match a with None => put_bool false | Some f => put_bool true ++ save_filter f end) a).
  { intros [f|] Hd Hr; unfold get_ptr.
    - destruct Hr as [Hr|]; [|done]. eapply reads_bind; [apply reads_bool|]. by apply (reads_last _ Some).
    - rewrite <-(app_nil_r (put_bool false)). eapply reads_bind; [apply reads_bool|]. apply reads_ret. }
  cbn [load_filter save_filter f_type arg1 arg2 arg3 f_value valueArg].
  eapply reads_bind; [apply reads_enum; destruct ty; set_solver|]. fold get_ptr.
  eapply reads_bind; [apply Hptr; [lia|]; destruct a1 as [f|]; [left; apply IH; simpl; lia|by right]|].
  eapply reads_bind; [apply Hptr; [lia|]; destruct a2 as [f|]; [left; apply IH; simpl; lia|by right]|].
  eapply reads_bind; [apply Hptr; [lia|]; destruct a3 as [f|]; [left; apply IH; simpl; lia|by right]|].
  eapply reads_bind; [apply reads_str|]. apply (reads_last _ (MkFilter ty a1 a2 a3 v)), reads_int.
Qed.

Lemma max_list_with_le {A} (f : A → nat) l x : x ∈ l → f x <= max_list_with f l.
Proof. induction l as [|y l IH]; intros Hx; [by apply elem_of_nil in Hx|]. apply elem_of_cons in Hx as [->|Hx]; simpl; [|specialize (IH Hx)]; lia. Qed.

Lemma reads_group : ∀ g fuel, group_depth g <= fuel → reads (load_group fuel) (save_group g) g.
Proof.
  fix IH 1. intros [par ps un fs opt vars] [|fuel] Hf; simpl in Hf; [lia|].
  assert (Hgs : ∀ l, (∀ g, g ∈ l → reads (load_group fuel) (save_group g) g) →
    reads (get_some (get_vec (load_group fuel))) (put_some (put_vec save_group) l) l).
  { intros l Hl. apply reads_some, reads_vec, Forall_forall, Hl. }
  cbn [load_group save_group parallel patterns optional_new_vars filters optional unions].
  eapply reads_bind; [apply reads_bool|]. eapply reads_bind; [apply reads_vec_all, reads_pattern|].
  eapply reads_bind; [apply reads_set|].
  eapply reads_bind.
  { apply reads_some, reads_vec, Forall_forall. intros f Hin. apply reads_filter.
    pose proof (max_list_with_le filter_depth fs f Hin). lia. }
  eapply reads_bind.
  - apply Hgs. assert (Hd : max_list_with group_depth opt <= fuel) by lia. clear -IH Hd.
    induction opt as [|g opt IHl]; intros g' Hin; [by apply elem_of_nil in Hin|]. simpl in Hd.
    apply elem_of_cons in Hin as [->|Hin]; [apply IH; lia|apply IHl; [lia|done]].
  - apply (reads_last _ (λ un, MkGroup par ps un fs opt vars)), Hgs.
    assert (Hd : max_list_with group_depth un <= fuel) by lia. clear -IH Hd.
    induction un as [|g un IHl]; intros g' Hin; [by apply elem_of_nil in Hin|]. simpl in Hd.
    apply elem_of_cons in Hin as [->|Hin]; [apply IH; lia|apply IHl; [lia|done]].
Qed.

(** the result that arrives: a blind result has lost its required variables *)
Definition received_result (r : Result) : Result :=
  if blind r then MkResult (col_num r) (row_num r) (attr_col_num r) true (nvars r) (v2c_map r) []
    (result_table r) (attr_res_table r) (optional_matched_rows r) else r.

(** the query that arrives: [corun_enabled] is not written *)
Definition received (q : SPARQLQuery) : SPARQLQuery :=
  MkQuery (q_id q) (q_pid q) (q_tid q) (pg_type q) (state q) (mt_factor q) (priority q) (pattern_step q)
    (local_var q) false (corun_step q) (fetch_step q) (union_done q) (optional_step q)
    (limit q) (offset q) (distinct q) (pattern_group q) (orders q) (received_result (result q)).

Lemma reads_result r : reads load_result (save_result r) (received_result r).
Proof.
  destruct r as [col row acol bl nv m req t ats om]. unfold load_result, save_result, received_result. cbn [col_num row_num attr_col_num blind nvars v2c_map required_vars result_table attr_res_table optional_matched_rows].
  do 3 (eapply reads_bind; [apply reads_nat|]). eapply reads_bind; [apply reads_bool|]. eapply reads_bind; [apply reads_nat|].
  eapply reads_bind; [apply reads_vec_all, reads_int|]. eapply reads_bind; [apply reads_vec_all, reads_bool|].
  apply (reads_bind _ _ _ _ (if bl then [] else req)).
  { destruct bl; simpl; [apply reads_ret|apply reads_vec_all, reads_int]. }
  replace (if bl then _ else _) with (MkResult col row acol bl nv m (if bl then [] else req) t ats om) by (by destruct bl).
  destruct ((0 <? length t) || (0 <? length ats)) eqn:E.
  - eapply reads_bind; [apply reads_int|]. simpl. eapply reads_bind; [apply reads_vec_all, reads_int|].
    apply (reads_last _ (λ ats, MkResult col row acol bl nv m _ t ats om)), reads_vec_all, reads_attr.
  - assert (t = [] ∧ ats = []) as [-> ->] by (destruct t, ats; done).
    rewrite <-(app_nil_r (put_int empty)). eapply reads_bind; [apply reads_int|]. apply reads_ret.
Qed.

Lemma reads_query q fuel : group_depth (pattern_group q) <= fuel → reads (load_query fuel) (save_query q) (received q).
Proof.
  intros Hf.
  destruct q as [id pid tid pg st mt pr ps lv co cs fs ud os lim off dist g ords r].
  unfold load_query, save_query, received. cbn [q_id q_pid q_tid pg_type state mt_factor priority pattern_step local_var
    corun_enabled corun_step fetch_step union_done optional_step limit offset distinct pattern_group orders result] in *.
  do 5 (eapply reads_bind; [apply reads_int|]). eapply reads_bind; [apply reads_bool|].
  eapply reads_bind; [apply reads_enum; destruct pg; set_solver|]. eapply reads_bind; [apply reads_nat|].
  eapply reads_bind; [apply reads_bool|]. do 3 (eapply reads_bind; [apply reads_nat|]).
  do 3 (eapply reads_bind; [apply reads_int|]). eapply reads_bind; [apply reads_enum; destruct st; set_solver|].
  eapply reads_bind; [by apply reads_group|].
  eapply reads_bind; [apply reads_some, reads_vec_all, reads_order|].
  apply (reads_last _ (MkQuery id pid tid pg st mt pr ps lv false cs fs ud os lim off dist g ords)), reads_result.
Qed.

Lemma run_reads {A} (g : reader A) p x : reads g p x → run_reader g p = Ok x.
Proof. intros Hr. unfold run_reader. by rewrite <-(app_nil_r p), Hr. Qed.

Lemma reads_load l : reads load_load (save_load l) l.
Proof.
  destruct l as [p s r d]. unfold load_load, save_load. simpl.
  eapply reads_bind; [apply reads_int|]. eapply reads_bind; [apply reads_str|]. eapply reads_bind; [apply reads_int|].
  apply (reads_last _ (MkLoad p s r)), reads_bool.
Qed.
Lemma reads_check c : reads load_check (save_check c) c.
Proof.
  destruct c as [p r i n]. unfold load_check, save_check. simpl.
  do 2 (eapply reads_bind; [apply reads_int|]). eapply reads_bind; [apply reads_bool|].
  apply (reads_last _ (MkCheck p r i)), reads_bool.
Qed.

(** C25: requests survive their transmission. What [get_sparql_query] reads from the
    message of a query is the same query, for every nesting of UNION, OPTIONAL and
    FILTER, except that [corun_enabled] is reset and that a blind result loses its
    required variables; load and check requests arrive unchanged. *)
Theorem bundle_roundtrip q l c old fuel : group_depth (pattern_group q) <= fuel →
  get_sparql_query fuel (of_wire (to_wire (query_bundle q)) old) = Ok (received q) ∧
  get_rdf_load (of_wire (to_wire (load_bundle l)) old) = Ok l ∧
  get_gstore_check (of_wire (to_wire (check_bundle c)) old) = Ok c.
Proof.
  intros Hf. split_and!.
  - by apply run_reads, reads_query.
  - apply run_reads, reads_load.
  - apply run_reads, reads_check.
Qed.
End serial.

(** an archive of tokens *)
Inductive tok := TInt (z : Z) | TStr (s : string) | TAttr (a : attr_t).
#[export] Instance token_archive : Archive := {|
  token := tok;
  put_int z := [TInt z]; put_str s := [TStr s]; put_attr a := [TAttr a];
  get_int l := match l with TInt z :: l => Some (z, l) | _ => None end;
  get_str l := match l with TStr s :: l => Some (s, l) | _ => None end;
  get_attr l := match l with TAttr a :: l => Some (a, l) | _ => None end;
  get_put_int z rest := eq_refl; get_put_str s rest := eq_refl; get_put_attr a rest := eq_refl
|}.

(** a query with an OPTIONAL group and a co-run hint *)
Definition hinted_query : SPARQLQuery :=
  MkQuery 7 (-1) 0 BASIC SQ_PATTERN 1 0 1 0 true 1 2 false 0 (-1) 0 false
    (MkGroup false [MkPattern 5 0 (-1) IN 0] [] [] [MkGroup false [MkPattern (-1) 6 (-2) OUT 0] [] [] [] ∅] ∅) []
    (MkResult 1 0 0 false 2 [0; 65535]%Z [(-1)%Z] [131072%Z] [] []).

Lemma bundle_roundtrip_witness :
  ∃ q, get_sparql_query 2 (of_wire (to_wire (query_bundle (H := token_archive) hinted_query)) (MkBundle GSTORE_CHECK [])) = Ok q ∧
    pattern_group q = pattern_group hinted_query ∧ corun_enabled q = false.
Proof.
  exists (received hinted_query). split; [|split; reflexivity].
  apply (bundle_roundtrip (H := token_archive) hinted_query (new_load EmptyString false) (new_check true true) (MkBundle GSTORE_CHECK []) 2).
  vm_compute. lia.
Defined.
