(* ===== verification/Tcp.v ===== *)
(** [core/tcp_adaptor.hpp] and [core/adaptor.hpp]: messages between threads over ZeroMQ,
    and the bundles that the proxies and engines send with them. ZeroMQ is seen as its
    documentation describes it: a socket that is bound at an address of its machine, and
    for every socket that is connected to it a pipe, from which messages come out in the
    order in which they went in; [send] refuses a message when the pipe has no room, and a
    receiver takes from any of its pipes that has a message. *)

From stdpp Require Import strings pretty.
From Stdlib Require Import Ascii.
From S2P Require Import Prelude Types Serial.
Local Open Scope Z_scope.

(** a machine, and an address that is bound there *)
Definition endpoint : Type := string * string.

(** the sockets of a cluster: the bound addresses, and the pipes by the adaptor that sends
    and the endpoint that receives *)
Record network (msg : Type) := MkNetwork { bound : gset endpoint; pipes : gmap (Z * endpoint) (list msg) }.
Arguments MkNetwork {msg}.
Arguments bound {msg}.
Arguments pipes {msg}.

Definition set_pipe {msg} (k : Z * endpoint) (l : list msg) (n : network msg) : network msg := MkNetwork (bound n) (<[k := l]> (pipes n)).
Definition pipe {msg} (n : network msg) (k : Z * endpoint) : list msg := default [] (pipes n !! k).

(** ** [TCP_Adaptor] *)

(** the number of an adaptor stands for its ZeroMQ context *)
Record TCP_Adaptor := MkTcp {
  t_id : Z;
  port_base : Z;
  ipset : list string;
  receivers : list endpoint;
  senders : gmap Z endpoint
}.

Definition port_code (sid tid : Z) : outcome Z := add_int (sid * 200) tid.

(** [snprintf(address, 32, ..)] *)
Definition address (s : string) : string := String.substring 0 31 s.
Definition bind_address (port : Z) : string := address ("tcp://*:" +:+ pretty port).
Definition connect_address (ip : string) (port : Z) : string := address ("tcp://" +:+ ip +:+ ":" +:+ pretty port).

Definition in_vector {A} (l : list A) (i : Z) : outcome A := if i <? 0 then Err OutOfBounds else read l (Z.to_nat i).
Definition ip_of (t : TCP_Adaptor) (sid : Z) : outcome string := in_vector (ipset t) sid.

Section tcp.
  Context {msg : Type}.
  (* the endpoint that an address to connect to denotes; the other addresses raise an error *)
  Context (denotes : string → option endpoint).

(** a socket that is bound at a port of a machine; [EADDRINUSE] and an address that is none
    are raised as exceptions *)
Definition bind_socket (here : string) (port : Z) (n : network msg) : outcome (endpoint * network msg) :=
  let e := (here, bind_address port) in
  if bool_decide (1 <= port <= 65535) then
    if bool_decide (e ∈ bound n) then Err Uncaught else Ok (e, MkNetwork ({[e]} ∪ bound n) (pipes n))
  else Err Uncaught.

(** the constructor, on the machine [here] *)
Definition new_tcp (id sid : Z) (here : string) (hostfile : list string) (num_threads : nat) (base : Z) (n : network msg) : outcome (TCP_Adaptor * network msg) :=
  '(rs, n) ← foldM (λ '(rs, n) tid,
      pid ← port_code sid (Z.of_nat tid); port ← add_int base pid;
      '(e, n) ← bind_socket here port n; Ok (rs ++ [e], n)) ([], n) (seq 0 num_threads);
  Ok (MkTcp id base hostfile rs ∅, n).

(** a sender socket is made on demand *)
Definition sender (t : TCP_Adaptor) (sid pid : Z) : outcome (endpoint * TCP_Adaptor) :=
  match senders t !! pid with
  | Some e => Ok (e, t)
  | None =>
      ip ← ip_of t sid; port ← add_int (port_base t) pid;
      match denotes (connect_address ip port) with
      | Some e => Ok (e, MkTcp (t_id t) (port_base t) (ipset t) (receivers t) (<[pid := e]> (senders t)))
      | None => Err Uncaught
      end
  end.

(** [room]: whether the pipe takes a further message; [locks[tid]] has an item for every
    thread of this server *)
Definition tcp_send (room : bool) (t : TCP_Adaptor) (sid tid : Z) (m : msg) (n : network msg) : outcome (bool * (TCP_Adaptor * network msg)) :=
  pid ← port_code sid tid;
  _ ← in_vector (receivers t) tid;
  '(e, t) ← sender t sid pid;
  Ok (room, (t, if room then set_pipe (t_id t, e) (pipe n (t_id t, e) ++ [m]) n else n)).

(** the first message of the pipe of the adaptor [from]; nothing without a message *)
Definition pull (t : TCP_Adaptor) (tid : Z) (from : option Z) (n : network msg) : outcome (option msg * network msg) :=
  e ← in_vector (receivers t) tid;
  match from with
  | None => Ok (None, n)
  | Some id => match pipe n (id, e) with [] => Ok (None, n) | m :: l => Ok (Some m, set_pipe (id, e) l n) end
  end.

(** [None] while [recv] waits *)
Definition tcp_recv (t : TCP_Adaptor) (tid : Z) (from : option Z) (n : network msg) : outcome (option msg * network msg) := pull t tid from n.
(** [None] for [false] *)
Definition tcp_tryrecv (t : TCP_Adaptor) (tid : Z) (from : option Z) (n : network msg) : outcome (option msg * network msg) := pull t tid from n.
End tcp.

(** ** [Adaptor]

    of the thread [tid], over the RDMA adaptor, whose rings are those of [Ring.v] and which
    is here what it offers to its clients, or over TCP *)
Section adaptor.
  Context `{Archive} (denotes : string → option endpoint).
  Context (use_rdma : bool) {rdma : Type} (rdma_init : rdma → bool).
  Context (rdma_send : rdma → Z → Z → Z → wire → outcome (bool * rdma)) (rdma_recv rdma_tryrecv : rdma → Z → outcome (option wire * rdma)).

Record channel := MkChannel { ch_tcp : TCP_Adaptor; ch_net : network wire; ch_rdma : rdma }.
Definition over_rdma (c : channel) : bool := use_rdma && rdma_init (ch_rdma c).

Definition bundle_send (room : bool) (c : channel) (tid dst_sid dst_tid : Z) (b : Bundle) : outcome (bool * channel) :=
  if over_rdma c then '(ok, r) ← rdma_send (ch_rdma c) tid dst_sid dst_tid (to_wire b); Ok (ok, MkChannel (ch_tcp c) (ch_net c) r)
  else '(ok, (t, n)) ← tcp_send denotes room (ch_tcp c) dst_sid dst_tid (to_wire b) (ch_net c); Ok (ok, MkChannel t n (ch_rdma c)).

(** [Bundle(str)]: the character of its type is one of the three *)
Definition new_bundle (w : wire) : Bundle := of_wire w (MkBundle SPARQL_QUERY []).

Definition bundle_recv (from : option Z) (c : channel) (tid : Z) : outcome (option Bundle * channel) :=
  if over_rdma c then '(w, r) ← rdma_recv (ch_rdma c) tid; Ok (new_bundle <$> (w : option wire), MkChannel (ch_tcp c) (ch_net c) r)
  else '(w, n) ← tcp_recv (ch_tcp c) tid from (ch_net c); Ok (new_bundle <$> (w : option wire), MkChannel (ch_tcp c) n (ch_rdma c)).

(** into the bundle [old] *)
Definition bundle_tryrecv (from : option Z) (c : channel) (tid : Z) (old : Bundle) : outcome (option Bundle * channel) :=
  if over_rdma c then '(w, r) ← rdma_tryrecv (ch_rdma c) tid; Ok ((λ w, of_wire w old) <$> (w : option wire), MkChannel (ch_tcp c) (ch_net c) r)
  else '(w, n) ← tcp_tryrecv (ch_tcp c) tid from (ch_net c); Ok ((λ w, of_wire w old) <$> (w : option wire), MkChannel (ch_tcp c) n (ch_rdma c)).
End adaptor.

(** * What holds of it

    The cluster over TCP: all servers start, and whatever the threads send and receive, in
    any order, every thread gets from every server exactly the bundles that this server has
    sent to it, in their order. With more than 200 threads a message may reach another
    server. *)

(** ** Addresses *)

Lemma substring_all n s : (String.length s ≤ n)%nat → String.substring 0 n s = s.
Proof. revert n. induction s as [|c s IH]; intros [|n] Hn; cbn in *; [done|done|lia|]. f_equal. apply IH. lia. Qed.

Lemma length_string_app s1 s2 : String.length (s1 +:+ s2) = (String.length s1 + String.length s2)%nat.
Proof. induction s1 as [|c s IH]; [done|]. change (S (String.length (s +:+ s2)) = S (String.length s + String.length s2)). by rewrite IH. Qed.

(** the digits of a number below a power of ten, and of a port *)
Lemma digits_length (k : nat) (x : N) s : (x < 10 ^ N.of_nat k)%N → (String.length (pretty_N_go x s) ≤ k + String.length s)%nat.
Proof.
  revert x s. induction k as [|k IH]; intros x s Hx; [by replace x with 0%N by (cbn in Hx; lia)|].
  destruct (decide (x = 0%N)) as [->|Hne]; [rewrite pretty_N_go_0; lia|]. rewrite pretty_N_go_step by lia. etrans; [apply IH|cbn; lia].
  apply N.Div0.div_lt_upper_bound. by rewrite <-N.pow_succ_r', <-Nat2N.inj_succ.
Qed.

Lemma pretty_port (port : Z) : 1 <= port <= 65535 → (String.length (pretty port) ≤ 5)%nat.
Proof.
  intros Hp. destruct port as [|p|p]; [lia| |lia]. unfold pretty, pretty_Z, pretty, pretty_positive, pretty, pretty_N. rewrite decide_False by done.
  etrans; [apply (digits_length 5); cbn; lia|cbn; lia].
Qed.

Lemma bind_address_port port : 1 <= port <= 65535 → bind_address port = "tcp://*:" +:+ pretty port.
Proof. intros Hp. apply substring_all. rewrite length_string_app. pose proof (pretty_port port Hp). cbn [String.length]. lia. Qed.

Lemma connect_address_port ip port : (String.length ip ≤ 19)%nat → 1 <= port <= 65535 → connect_address ip port = "tcp://" +:+ ip +:+ ":" +:+ pretty port.
Proof. intros Hi Hp. apply substring_all. rewrite !length_string_app. pose proof (pretty_port port Hp). cbn [String.length]. lia. Qed.

Lemma in_vector_nat {A} (l : list A) (i : nat) : in_vector l (Z.of_nat i) = read l i.
Proof. unfold in_vector. rewrite (proj2 (Z.ltb_ge _ _)) by lia. by rewrite Nat2Z.id. Qed.

(** ** A cluster *)

Section cluster.
  Context `{Archive} (denotes : string → option endpoint).
  Context (use_rdma : bool) {rdma : Type} (rdma_init : rdma → bool).
  Context (rdma_send : rdma → Z → Z → Z → wire → outcome (bool * rdma)) (rdma_recv rdma_tryrecv : rdma → Z → outcome (option wire * rdma)).
  (* the host file, the threads of a server and the base of the ports *)
  Context (hosts : list string) (T : nat) (base : Z).

Definition cluster : Type := list TCP_Adaptor * network wire.

(** every server starts on its host *)
Definition start : outcome cluster :=
  foldM (λ '(ts, n) '(sid, h),
    '(t, n) ← new_tcp (Z.of_nat sid) (Z.of_nat sid) h hosts T base n; Ok (ts ++ [t], n)) ([], MkNetwork ∅ ∅) (imap pair hosts).

(** what a thread does: send a bundle to a thread, with or without room in the pipe; wait
    for a bundle or try to get one, where the pipe of the server [from] is picked *)
Inductive act :=
| Send (sid tid dst_sid dst_tid : nat) (b : Bundle) (room : bool)
| Recv (sid tid : nat) (from : option nat)
| TryRecv (sid tid : nat) (from : option nat) (old : Bundle).

Inductive answer :=
| Sent (ok : bool)
| Received (b : option Bundle).

(** the adaptors of the threads of a server share its TCP adaptor *)
Definition run_act (r : rdma) (cl : cluster) (a : act) : outcome (answer * cluster) :=
  let on sid {A} (f : channel → outcome (A * channel)) (g : A → answer) : outcome (answer * cluster) :=
    t ← read cl.1 sid; '(x, c) ← f (MkChannel t cl.2 r); Ok (g x, (<[sid := ch_tcp c]> cl.1, ch_net c)) in
  match a with
  | Send sid tid dst_sid dst_tid b room =>
      on sid (λ c, bundle_send denotes use_rdma rdma_init rdma_send room c (Z.of_nat tid) (Z.of_nat dst_sid) (Z.of_nat dst_tid) b) Sent
  | Recv sid tid from => on sid (λ c, bundle_recv use_rdma rdma_init rdma_recv (Z.of_nat <$> from) c (Z.of_nat tid)) Received
  | TryRecv sid tid from old => on sid (λ c, bundle_tryrecv use_rdma rdma_init rdma_tryrecv (Z.of_nat <$> from) c (Z.of_nat tid) old) Received
  end.

Fixpoint run_acts (r : rdma) (cl : cluster) (l : list act) : outcome (list answer * cluster) :=
  match l with
  | [] => Ok ([], cl)
  | a :: l => '(x, cl) ← run_act r cl a; '(xs, cl) ← run_acts r cl l; Ok (x :: xs, cl)
  end.

(** ** What it promises: a mailbox for every server that sends and every thread *)

Definition mailboxes : Type := nat → nat → nat → list Bundle.
Definition set_box (s d t : nat) (l : list Bundle) (q : mailboxes) : mailboxes :=
  λ s' d' t', if bool_decide (s' = s ∧ d' = d ∧ t' = t) then l else q s' d' t'.

Definition take_from (q : mailboxes) (sid tid : nat) (from : option nat) : answer * mailboxes :=
  match from with
  | None => (Received None, q)
  | Some s => match q s sid tid with [] => (Received None, q) | b :: l => (Received (Some b), set_box s sid tid l q) end
  end.
Definition spec_act (q : mailboxes) (a : act) : answer * mailboxes :=
  match a with
  | Send s _ d t b room => (Sent room, if room then set_box s d t (q s d t ++ [b]) q else q)
  | Recv sid tid from | TryRecv sid tid from _ => take_from q sid tid from
  end.
Fixpoint spec_acts (q : mailboxes) (l : list act) : list answer * mailboxes :=
  match l with
  | [] => ([], q)
  | a :: l => let '(x, q) := spec_act q a in let '(xs, q) := spec_acts q l in (x :: xs, q)
  end.

Definition act_in_range (a : act) : Prop :=
  match a with
  | Send s t d dt _ _ => (s < length hosts ∧ t < T ∧ d < length hosts ∧ dt < T)%nat
  | Recv d t from | TryRecv d t from _ => (d < length hosts ∧ t < T)%nat ∧ (∀ s, from = Some s → s < length hosts)%nat
  end.

(** the ports exist and no two threads share one; the hosts fit into an address, and ZeroMQ
    finds the socket that is bound at a port of a host *)
Record cluster_ok : Prop := {
  few_threads : (T ≤ 200)%nat;
  ports_from : 1 <= base;
  ports_to : base + Z.of_nat (length hosts) * 200 <= 65535;
  hosts_fit : Forall (λ h, String.length h ≤ 19)%nat hosts;
  host_found : ∀ h port, h ∈ hosts → 1 <= port <= 65535 →
    denotes ("tcp://" +:+ h +:+ ":" +:+ pretty port) = Some (h, "tcp://*:" +:+ pretty port)
}.

(** ** The endpoint of a thread *)

Definition port_of (sid tid : nat) : Z := base + (Z.of_nat sid * 200 + Z.of_nat tid).
Definition endpoint_of (h : string) (sid tid : nat) : endpoint := (h, "tcp://*:" +:+ pretty (port_of sid tid)).

Hypothesis ok : cluster_ok.
Context (r : rdma) (no_rdma : use_rdma && rdma_init r = false).

Lemma port_range sid tid : (sid < length hosts)%nat → (tid < T)%nat → 1 <= port_of sid tid <= 65535.
Proof. intros Hs Ht. destruct ok. unfold port_of. lia. Qed.

Lemma endpoint_inj h h' s t s' t' : (t < T)%nat → (t' < T)%nat → endpoint_of h s t = endpoint_of h' s' t' → s = s' ∧ t = t'.
Proof.
  intros Ht Ht' E%(f_equal snd). cbn [snd endpoint_of] in E. apply (inj (String.append "tcp://*:")), (inj pretty) in E. pose proof (few_threads ok). unfold port_of in E. lia.
Qed.

Lemma code_port sid tid : (sid < length hosts)%nat → (tid < T)%nat →
  port_code (Z.of_nat sid) (Z.of_nat tid) = Ok (Z.of_nat sid * 200 + Z.of_nat tid) ∧ add_int base (Z.of_nat sid * 200 + Z.of_nat tid) = Ok (port_of sid tid).
Proof.
  intros Hs Ht. pose proof (port_range _ _ Hs Ht) as Hp. pose proof (ports_from ok). unfold port_of in *. unfold port_code, add_int, int_max.
  split; (rewrite (proj2 (Z.leb_le _ _)) by lia; rewrite (proj2 (Z.leb_le _ _)) by lia; done).
Qed.

(** ** Starting *)

Definition bound_below (sid n : nat) (e : endpoint) : Prop :=
  ∃ h s t, e = endpoint_of h s t ∧ (t < T)%nat ∧ (s < sid ∨ s = sid ∧ t < n)%nat.

Lemma new_tcp_ok (sid : nat) h (n : network wire) : (sid < length hosts)%nat → (∀ e, e ∈ bound n → bound_below sid 0 e) →
  ∃ n', new_tcp (Z.of_nat sid) (Z.of_nat sid) h hosts T base n = Ok (MkTcp (Z.of_nat sid) base hosts (endpoint_of h sid <$> seq 0 T) ∅, n') ∧
    pipes n' = pipes n ∧ ∀ e, e ∈ bound n' → bound_below (S sid) 0 e.
Proof.
  intros Hs Hn. unfold new_tcp.
  edestruct (foldM_total (λ '(rs, n) tid, pid ← port_code (Z.of_nat sid) (Z.of_nat tid); port ← add_int base pid;
      '(e, n) ← bind_socket h port n; Ok (rs ++ [e], n))
    (λ l '(rs, n1), rs = endpoint_of h sid <$> l ∧ pipes n1 = pipes n ∧ ∀ e, e ∈ bound n1 → bound_below sid (length l) e) ([], n) (seq 0 T))
    as ([rs n1] & Ef & Ers & Ep & Hb).
  - done.
  - intros l1 tid l2 [rs n1] El (-> & Ep & Hb).
    assert (tid = length l1 ∧ (tid < T)%nat) as [Etid Ht].
    { assert (seq 0 T !! length l1 = Some tid) as Hl by (rewrite El; apply list_lookup_middle; done). apply lookup_seq in Hl. lia. }
    destruct (code_port sid tid Hs Ht) as [-> Ebase]. cbn [mbind outcome_bind]. rewrite Ebase. cbn [mbind outcome_bind]. unfold bind_socket.
    rewrite bool_decide_true by (by apply port_range). rewrite bind_address_port by (by apply port_range). rewrite bool_decide_false.
    + eexists. split; [reflexivity|]. rewrite fmap_app. cbn. split; [done|]. split; [done|]. rewrite length_app. cbn.
      intros e [->%elem_of_singleton|He]%elem_of_union; [exists h, sid, tid; split; [done|lia]|].
      destruct (Hb e He) as (h' & s & t & -> & Ht' & Hst). exists h', s, t. split; [done|]. lia.
    + intros Hin. destruct (Hb _ Hin) as (h' & s & t & E & Ht' & Hst). apply (endpoint_inj h h' sid tid s t Ht Ht') in E. lia.
  - rewrite Ef. cbn [mbind outcome_bind]. exists n1. split; [by rewrite Ers|]. split; [done|]. intros e He. destruct (Hb e He) as (h' & s & t & -> & Ht' & Hst).
    exists h', s, t. split; [done|]. lia.
Qed.

Definition fresh_tcp (sid : nat) (h : string) : TCP_Adaptor := MkTcp (Z.of_nat sid) base hosts (endpoint_of h sid <$> seq 0 T) ∅.

Lemma servers_start : ∃ n, start = Ok (imap fresh_tcp hosts, n) ∧ pipes n = ∅.
Proof.
  unfold start.
  edestruct (foldM_total (λ '(ts, n) '(sid, h), '(t, n) ← new_tcp (Z.of_nat sid) (Z.of_nat sid) h hosts T base n; Ok (ts ++ [t], n))
    (λ l '(ts, n), ts = (λ '(s, h), fresh_tcp s h) <$> l ∧ pipes n = ∅ ∧ ∀ e, e ∈ bound n → bound_below (length l) 0 e) ([], MkNetwork ∅ ∅ : network wire) (imap pair hosts))
    as ([ts n] & Ef & Ets & Ep & _).
  - split; [done|]. split; [done|]. intros e He. by apply elem_of_empty in He.
  - intros l1 [sid h] l2 [ts n] El (-> & Ep & Hb).
    assert (sid = length l1 ∧ (sid < length hosts)%nat) as [Es Hs].
    { assert (imap pair hosts !! length l1 = Some (sid, h)) as Hl by (rewrite El; apply list_lookup_middle; done).
      rewrite list_lookup_imap in Hl. destruct (hosts !! length l1) as [h0|] eqn:E0; [|done]. cbn in Hl. injection Hl as <- <-. split; [done|]. by eapply lookup_lt_Some. }
    destruct (new_tcp_ok sid h n Hs) as (n' & -> & Ep' & Hb'); [by rewrite Es|]. cbn [mbind outcome_bind]. eexists. split; [reflexivity|].
    rewrite fmap_app, length_app. cbn. split; [done|]. split; [congruence|]. by rewrite Nat.add_1_r, <-Es.
  - exists n. split; [|done]. rewrite Ef, Ets. do 2 f_equal. apply list_eq. intros i. rewrite list_lookup_fmap, !list_lookup_imap. by destruct (hosts !! i).
Qed.

(** ** Every act does what it does to the mailboxes *)

Record adaptor_ok (sid : nat) (h : string) (t : TCP_Adaptor) : Prop := {
  tcp_id : t_id t = Z.of_nat sid;
  tcp_base : port_base t = base;
  tcp_hosts : ipset t = hosts;
  tcp_receivers : receivers t = endpoint_of h sid <$> seq 0 T;
  tcp_senders : ∀ s d, (s < length hosts)%nat → (d < T)%nat → ∀ e, senders t !! (Z.of_nat s * 200 + Z.of_nat d) = Some e →
    ∃ h', hosts !! s = Some h' ∧ e = endpoint_of h' s d
}.

Record represents (cl : cluster) (q : mailboxes) : Prop := {
  rep_servers : length cl.1 = length hosts;
  rep_adaptors : ∀ sid h t, hosts !! sid = Some h → cl.1 !! sid = Some t → adaptor_ok sid h t;
  rep_pipes : ∀ s d h t, (s < length hosts)%nat → hosts !! d = Some h → (t < T)%nat → pipe cl.2 (Z.of_nat s, endpoint_of h d t) = to_wire <$> q s d t
}.

Lemma started cl : start = Ok cl → represents cl (λ _ _ _, []).
Proof.
  destruct servers_start as (n & -> & Ep). intros [= <-]. split; cbn [fst snd].
  - apply length_imap.
  - intros sid h t Eh Et. rewrite list_lookup_imap, Eh in Et. cbn in Et. injection Et as <-. by split.
  - intros s d h t _ _ _. unfold pipe. by rewrite Ep.
Qed.

Lemma of_to_wire b old : of_wire (to_wire b) old = b.
Proof. by destruct b as [[] data]. Qed.

Lemma server_at cl q sid : represents cl q → (sid < length hosts)%nat → ∃ h t, hosts !! sid = Some h ∧ read cl.1 sid = Ok t ∧ adaptor_ok sid h t.
Proof.
  intros Hr Hs. destruct (lookup_lt_is_Some_2 hosts sid Hs) as [h Eh]. destruct (lookup_lt_is_Some_2 cl.1 sid) as [t Et]; [by rewrite (rep_servers _ _ Hr)|].
  exists h, t. split; [done|]. split; [by apply read_Ok|]. by eapply rep_adaptors.
Qed.

Lemma receiver_at sid h t (tid : nat) : adaptor_ok sid h t → (tid < T)%nat → in_vector (receivers t) (Z.of_nat tid) = Ok (endpoint_of h sid tid).
Proof. intros Ht Htid. rewrite in_vector_nat. apply read_Ok. rewrite (tcp_receivers _ _ _ Ht), list_lookup_fmap, lookup_seq_lt by done. done. Qed.

(** the pipes of another pair stay as they are *)
Lemma set_pipe_rep cl q s d h dt l ts : represents cl q → hosts !! d = Some h → (s < length hosts)%nat → (dt < T)%nat →
  length ts = length hosts → (∀ sid h t, hosts !! sid = Some h → ts !! sid = Some t → adaptor_ok sid h t) →
  represents (ts, set_pipe (Z.of_nat s, endpoint_of h d dt) (to_wire <$> l) cl.2) (set_box s d dt l q).
Proof.
  intros Hr Eh Hs Hdt Hlen Hts. split; cbn [fst snd]; [done|done|]. intros s' d' h' t' Hs' Eh' Ht'. unfold pipe, set_pipe, set_box. cbn [pipes].
  case_bool_decide as E.
  - destruct E as (-> & -> & ->). rewrite Eh in Eh'. injection Eh' as <-. by rewrite lookup_insert_eq.
  - rewrite lookup_insert_ne; [apply (rep_pipes _ _ Hr); done|]. intros Ek. apply E.
    pose proof (f_equal fst Ek) as E1. apply (f_equal snd) in Ek. cbn [fst snd] in E1, Ek. apply endpoint_inj in Ek as [-> ->]; [|done..]. split; [lia|done].
Qed.

Lemma keep_adaptors cl q sid h t : represents cl q → hosts !! sid = Some h → adaptor_ok sid h t →
  length (<[sid := t]> cl.1) = length hosts ∧ ∀ s' h' t', hosts !! s' = Some h' → <[sid := t]> cl.1 !! s' = Some t' → adaptor_ok s' h' t'.
Proof.
  intros Hr Eh Ht. split; [rewrite length_insert; apply (rep_servers _ _ Hr)|]. intros s' h' t' Eh' Et'. destruct (decide (s' = sid)) as [->|Hne].
  - rewrite list_lookup_insert_eq in Et' by (rewrite (rep_servers _ _ Hr); by eapply lookup_lt_Some). congruence.
  - rewrite list_lookup_insert_ne in Et' by done. by eapply rep_adaptors.
Qed.

Lemma sender_ok sid h t (d dt : nat) hd : adaptor_ok sid h t → hosts !! d = Some hd → (dt < T)%nat →
  ∃ t', sender denotes t (Z.of_nat d) (Z.of_nat d * 200 + Z.of_nat dt) = Ok (endpoint_of hd d dt, t') ∧ adaptor_ok sid h t'.
Proof.
  intros Ht Ed Hdt. assert (d < length hosts)%nat as Hd by (by eapply lookup_lt_Some). unfold sender. destruct (senders t !! _) as [e|] eqn:Es.
  - destruct (tcp_senders _ _ _ Ht d dt Hd Hdt e Es) as (h' & Eh' & ->). exists t. split; [congruence|done].
  - unfold ip_of. rewrite (tcp_hosts _ _ _ Ht), in_vector_nat, (proj2 (read_Ok _ _ _) Ed). cbn [mbind outcome_bind].
    rewrite (tcp_base _ _ _ Ht), (proj2 (code_port d dt Hd Hdt)). cbn [mbind outcome_bind].
    rewrite connect_address_port; [|exact (proj1 (Forall_forall _ _) (hosts_fit ok) hd (list_elem_of_lookup_2 _ _ _ Ed))|by apply port_range].
    rewrite (host_found ok); [|by eapply list_elem_of_lookup_2|by apply port_range]. eexists. split; [reflexivity|].
    destruct Ht as [H1 H2 H3 H4 H5]. split; cbn; [done..|]. intros s t2 Hs Ht2 e He. destruct (decide (Z.of_nat s * 200 + Z.of_nat t2 = Z.of_nat d * 200 + Z.of_nat dt)) as [E|Hne].
    + rewrite E, lookup_insert_eq in He. injection He as <-. pose proof (few_threads ok). assert (s = d ∧ t2 = dt) as [-> ->] by lia. eauto.
    + rewrite lookup_insert_ne in He by done. by apply H5.
Qed.

Lemma pull_ok cl q sid h t tid from : represents cl q → hosts !! sid = Some h → adaptor_ok sid h t → (tid < T)%nat → (∀ s, from = Some s → s < length hosts)%nat →
  ∃ x n q', pull t (Z.of_nat tid) (Z.of_nat <$> from) cl.2 = Ok (to_wire <$> x, n) ∧ take_from q sid tid from = (Received x, q') ∧ represents (<[sid := t]> cl.1, n) q'.
Proof.
  intros Hr Eh Ht Htid Hf. destruct (keep_adaptors cl q sid h t Hr Eh Ht) as [Hlen Hts].
  assert (represents (<[sid := t]> cl.1, cl.2) q) as Hsame by (split; [done|done|apply (rep_pipes _ _ Hr)]).
  unfold pull. rewrite (receiver_at sid h t tid Ht Htid). cbn [mbind outcome_bind]. destruct from as [s|]; cbn [fmap option_fmap option_map take_from]; [|by eexists None, _, q].
  specialize (Hf s eq_refl). rewrite (rep_pipes _ _ Hr s sid h tid Hf Eh Htid). destruct (q s sid tid) as [|b l]; cbn [fmap list_fmap]; [by eexists None, _, q|].
  eexists (Some b), _, _. split; [reflexivity|]. split; [reflexivity|]. by eapply set_pipe_rep.
Qed.

Lemma run_act_ok cl q a : represents cl q → act_in_range a → ∃ cl', run_act r cl a = Ok ((spec_act q a).1, cl') ∧ represents cl' (spec_act q a).2.
Proof.
  intros Hr Ha. destruct a as [s tid d dt b room|sid tid from|sid tid from old]; cbn [run_act spec_act act_in_range fst snd] in *.
  - destruct Ha as (Hs & Htid & Hd & Hdt). destruct (server_at cl q s Hr Hs) as (h & t & Eh & -> & Ht). cbn [mbind outcome_bind].
    destruct (lookup_lt_is_Some_2 hosts d Hd) as [hd Ed]. unfold bundle_send, over_rdma. cbn [ch_rdma ch_tcp ch_net]. rewrite no_rdma. unfold tcp_send.
    rewrite (proj1 (code_port d dt Hd Hdt)). cbn [mbind outcome_bind]. rewrite (receiver_at s h t dt Ht Hdt). cbn [mbind outcome_bind].
    destruct (sender_ok s h t d dt hd Ht Ed Hdt) as (t' & -> & Ht'). cbn [mbind outcome_bind ch_tcp ch_net]. eexists. split; [reflexivity|].
    destruct (keep_adaptors cl q s h t' Hr Eh Ht') as [Hlen Hts]. destruct room; [|by split; [done|done|apply (rep_pipes _ _ Hr)]].
    rewrite (tcp_id _ _ _ Ht'), (rep_pipes _ _ Hr s d hd dt Hs Ed Hdt). change [to_wire b] with (to_wire <$> [b]). rewrite <-fmap_app. by eapply set_pipe_rep.
  - destruct Ha as [[Hs Htid] Hf]. destruct (server_at cl q sid Hr Hs) as (h & t & Eh & -> & Ht). cbn [mbind outcome_bind]. unfold bundle_recv, over_rdma, tcp_recv.
    cbn [ch_rdma ch_tcp ch_net]. rewrite no_rdma. destruct (pull_ok cl q sid h t tid from Hr Eh Ht Htid Hf) as (x & n & q' & -> & Eq & Hr'). cbn [mbind outcome_bind ch_tcp ch_net].
    rewrite Eq. eexists. split; [|exact Hr']. do 3 f_equal. destruct x as [b|]; cbn; [|done]. unfold new_bundle. by rewrite of_to_wire.
  - destruct Ha as [[Hs Htid] Hf]. destruct (server_at cl q sid Hr Hs) as (h & t & Eh & -> & Ht). cbn [mbind outcome_bind]. unfold bundle_tryrecv, over_rdma, tcp_tryrecv.
    cbn [ch_rdma ch_tcp ch_net]. rewrite no_rdma. destruct (pull_ok cl q sid h t tid from Hr Eh Ht Htid Hf) as (x & n & q' & -> & Eq & Hr'). cbn [mbind outcome_bind ch_tcp ch_net].
    rewrite Eq. eexists. split; [|exact Hr']. do 3 f_equal. destruct x as [b|]; cbn; [|done]. by rewrite of_to_wire.
Qed.

Lemma run_acts_ok cl q l : represents cl q → Forall act_in_range l → ∃ cl', run_acts r cl l = Ok ((spec_acts q l).1, cl') ∧ represents cl' (spec_acts q l).2.
Proof.
  intros Hr Hl. revert cl q Hr. induction Hl as [|a l Ha Hl IH]; intros cl q Hr; [by exists cl|]. cbn [run_acts spec_acts].
  destruct (run_act_ok cl q a Hr Ha) as (cl1 & -> & Hr1). cbn [mbind outcome_bind]. destruct (spec_act q a) as [x q1]. cbn [fst snd] in *.
  destruct (IH cl1 q1 Hr1) as (cl2 & -> & Hr2). cbn [mbind outcome_bind]. destruct (spec_acts q1 l) as [xs q2]. by exists cl2.
Qed.

(** C26: over TCP every thread has a mailbox for every server: a cluster of servers with at
    most 200 threads starts, and after any sequence of sends, waits and tries of its
    threads every answer is that of the mailboxes, so each bundle that was accepted is
    received once, unchanged, by the thread it was sent to, those of one server in their
    order; what has not been received is in the pipe. *)
Theorem bundles_in_order (l : list act) : Forall act_in_range l →
  ∃ cl0 cl, start = Ok cl0 ∧ run_acts r cl0 l = Ok ((spec_acts (λ _ _ _, []) l).1, cl) ∧
    ∀ s d h t, (s < length hosts)%nat → hosts !! d = Some h → (t < T)%nat →
      pipe cl.2 (Z.of_nat s, endpoint_of h d t) = to_wire <$> (spec_acts (λ _ _ _, []) l).2 s d t.
Proof.
  intros Hl. destruct servers_start as (n & Es & _). destruct (run_acts_ok _ _ l (started _ Es) Hl) as (cl & Er & Hr).
  exists (imap fresh_tcp hosts, n), cl. split; [done|]. split; [done|]. apply (rep_pipes _ _ Hr).
Qed.
End cluster.

(** *** Two servers *)

(** addresses of this form, as ZeroMQ reads them *)
Fixpoint split_colon (s : string) : option (string * string) :=
  match s with
  | EmptyString => None
  | String c s => if Ascii.eqb c ":"%char then Some ("", s) else '(a, b) ← split_colon s; Some (String c a, b)
  end.
Definition resolve (s : string) : option endpoint :=
  match s with
  | String "t" (String "c" (String "p" (String ":" (String "/" (String "/" rest))))) => '(h, p) ← split_colon rest; Some (h, "tcp://*:" +:+ p)
  | _ => None
  end%char.

Definition two_hosts : list string := ["h0"; "h1"].

Lemma two_hosts_ok : cluster_ok resolve two_hosts 3 5500.
Proof.
  split; [lia|lia|cbn; lia|repeat constructor; cbn; lia|]. intros h port Hh _. unfold two_hosts in *.
  apply elem_of_cons in Hh as [->|Hh]; [|apply elem_of_cons in Hh as [->|Hh]; [|by apply elem_of_nil in Hh]].
  all: done.
Qed.

Definition some_bundle (z : Z) : @Bundle token_archive := @load_bundle token_archive (MkLoad z "data" 0 true).
Definition some_acts : list (@act token_archive) :=
  [Send 0 1 1 2 (some_bundle 1) true; Send 0 0 1 2 (some_bundle 2) true; Send 1 0 1 2 (some_bundle 3) true; Send 0 0 1 2 (some_bundle 4) false;
   TryRecv 1 1 (Some 0%nat) (some_bundle 0); Recv 1 2 (Some 1%nat); Recv 1 2 (Some 0%nat); TryRecv 1 2 (Some 0%nat) (some_bundle 0); Recv 1 2 (Some 0%nat)].

(* without RDMA *)
Abbreviation tcp_only f := (f false unit (λ _, false) (λ r _ _ _ _, Ok (false, r)) (λ r _, Ok (None, r)) (λ r _, Ok (None, r))) (only parsing).

Lemma bundles_in_order_witness : ∃ cl0 cl, @start token_archive two_hosts 3 5500 = Ok cl0 ∧
  tcp_only (@run_acts token_archive resolve) tt cl0 some_acts =
    Ok ([Sent true; Sent true; Sent true; Sent false; Received None; Received (Some (some_bundle 3)); Received (Some (some_bundle 1)); Received (Some (some_bundle 2)); Received None], cl).
Proof.
  destruct (tcp_only (@bundles_in_order token_archive resolve) two_hosts 3%nat 5500 two_hosts_ok tt eq_refl some_acts) as (cl0 & cl & E0 & E & _).
  - unfold some_acts. repeat (apply Forall_cons; split); [..|by apply Forall_nil]; cbn [act_in_range length two_hosts]; (split; [|intros s [= <-]]) || idtac; lia.
  - exists cl0, cl. split; [exact E0|exact E].
Defined.

(** With 201 threads the last thread of the first server and the first thread of the second
    have the same code: what is sent to the second goes to the first, and two such servers
    do not start on one machine. *)
Lemma other_server :
  (cl0 ← @start token_archive two_hosts 201 5500;
   '(xs, _) ← tcp_only (@run_acts token_archive resolve) tt cl0
     [Send 0 0 0 200 (some_bundle 1) true; Send 0 0 1 0 (some_bundle 2) true; Recv 1 0 (Some 0%nat); Recv 0 200 (Some 0%nat); Recv 0 200 (Some 0%nat)];
   Ok xs) = Ok [Sent true; Sent true; Received None; Received (Some (some_bundle 1)); Received (Some (some_bundle 2))] ∧
  (_ ← @start token_archive ["h0"; "h0"] 201 5500; Ok ()) = Err Uncaught.
Proof. split; vm_compute; reflexivity. Qed.
