(* ===== verification/Broadcast.v ===== *)
(** Commands to all servers ([dynamic_load_data] and [gstore_check] of [core/proxy.hpp],
    [execute] of [core/engine.hpp]): a proxy sends a request to one engine of every server
    and collects one reply of each, while the engines serve what they receive, in any
    interleaving. The network is that of the mailboxes of [Tcp.v]; what the graph does is
    an argument, whose implementations are in [DynLoad.v] and [StoreCheck.v].

    A step of a thread is one call of the adaptor with what follows it; [room] says whether
    the network accepts a message. *)

From stdpp Require Import strings.
From S2P Require Import Prelude Types Coder Serial Tcp.
Local Open Scope Z_scope.

Section broadcast.
  Context `{Config} `{Archive} {G : Type}.
  (* [DGraph::dynamic_load_data], in the build with DYNAMIC_GSTORE, and [DGraph::gstore_check] *)
  Context (dynamic workstealing : bool) (load : G → string → bool → outcome (Z * G)) (check : G → bool → bool → outcome Z).

Inductive command :=
| CmdLoad (dname : string) (dup : bool)
| CmdCheck (i_enable n_enable : bool).

(** the request with its [pid] *)
Definition request (c : command) (pid : Z) : Bundle :=
  match c with
  | CmdLoad dname dup => load_bundle (MkLoad pid dname 0 dup)
  | CmdCheck i n => check_bundle (MkCheck pid 0 i n)
  end.

(** the code in a reply *)
Definition reply_code (c : command) (b : Bundle) : outcome Z :=
  match c with
  | CmdLoad _ _ => ASSERT (bool_decide (b_type b = DYNAMIC_LOAD)); r ← get_rdf_load b; Ok (load_ret r)
  | CmdCheck _ _ => ASSERT (bool_decide (b_type b = GSTORE_CHECK)); r ← get_gstore_check b; Ok (check_ret r)
  end.

(** ** Engines *)

(** a message to a thread of a server *)
Definition envelope : Type := Z * Z * Bundle.

Definition execute_load_data (g : G) (r : RDFLoad) : outcome (envelope * G) :=
  '(ret, g) ← load g (load_dname r) (check_dup r);
  Ok ((sid_of (rl_pid r), tid_of (rl_pid r), load_bundle (MkLoad (rl_pid r) (load_dname r) (i32 ret) (check_dup r))), g).

Definition execute_gstore_check (g : G) (r : GStoreCheck) : outcome (envelope * G) :=
  ret ← check g (index_check r) (normal_check r);
  Ok ((sid_of (gc_pid r), tid_of (gc_pid r), check_bundle (MkCheck (gc_pid r) ret (index_check r) (normal_check r))), g).

(** [execute] without the queries, which are those of [Server.v] *)
Definition execute (g : G) (b : Bundle) : outcome (option envelope * G) :=
  match b_type b with
  | SPARQL_QUERY => Ok (None, g)
  | DYNAMIC_LOAD => if dynamic then r ← get_rdf_load b; '(m, g) ← execute_load_data g r; Ok (Some m, g) else Ok (None, g)
  | GSTORE_CHECK => r ← get_gstore_check b; '(m, g) ← execute_gstore_check g r; Ok (Some m, g)
  end.

(** ** The system *)

Record system := MkSystem {
  boxes : mailboxes;
  stores : list G;                            (* the graphs of the servers *)
  stashed : nat → nat → list envelope;        (* pending_msgs of the engines *)
  p_sent : nat;                               (* servers that the first loop has passed *)
  p_stash : list envelope;                    (* pending_msgs of the proxy *)
  p_replies : nat;                            (* replies that the second loop has taken *)
  p_ret : Z
}.

Definition fn_update {A} (s t : nat) (x : A) (f : nat → nat → A) : nat → nat → A :=
  λ s' t', if bool_decide (s' = s ∧ t' = t) then x else f s' t'.

(** [adaptor->send] of a thread of the server [src] *)
Definition net_post (q : mailboxes) (src : nat) (m : envelope) (room : bool) : bool * mailboxes :=
  let '(d, t, b) := m in
  if room then (true, set_box src (Z.to_nat d) (Z.to_nat t) (q src (Z.to_nat d) (Z.to_nat t) ++ [b]) q) else (false, q).

(** the first engine that the network takes the request for *)
Fixpoint first_room (n : nat) (i : nat) (rooms : nat → bool) : option nat :=
  match n with
  | O => None
  | S n => if rooms i then Some i else first_room n (S i) rooms
  end.

Inductive action :=
| PSend (random : Z) (rooms : nat → bool)
| PRecv (from : nat)
| EServe (sid tid by_tid : nat) (room : bool)
| ESweep (sid tid : nat) (rooms : nat → bool).

(* the proxy *)
Context (p_sid p_tid : nat) (cmd : command) (pid : Z).
Local Abbreviation servers := (Z.to_nat global_num_servers).

(** [send(bundle, i)] of the proxy *)
Definition proxy_send (random : Z) (rooms : nat → bool) (x : system) : outcome system :=
  let b := request cmd pid in
  let range := Z.quot global_num_engines global_num_proxies in
  ASSERT (0 <? range);
  let base := global_num_proxies + range * Z.of_nat p_tid in
  let dst_eid := random mod range in
  let dst := Z.of_nat (p_sent x) in
  Ok match first_room (Z.to_nat range) 0 rooms with
     | Some i => MkSystem (net_post (boxes x) p_sid (dst, base + (dst_eid + Z.of_nat i) mod range, b) true).2 (stores x) (stashed x) (S (p_sent x)) (p_stash x) (p_replies x) (p_ret x)
     | None => MkSystem (boxes x) (stores x) (stashed x) (S (p_sent x)) (p_stash x ++ [(dst, base + dst_eid, b)]) (p_replies x) (p_ret x)
     end.

(** a reply, when there is one *)
Definition proxy_recv (from : nat) (x : system) : outcome (option system) :=
  match boxes x from p_sid p_tid with
  | [] => Ok None
  | b :: l =>
      code ← reply_code cmd b;
      Ok (Some (MkSystem (set_box from p_sid p_tid l (boxes x)) (stores x) (stashed x) (p_sent x) (p_stash x) (S (p_replies x)) (if code <? 0 then code else p_ret x)))
  end.

(** the engine whose messages the engine [tid] may steal *)
Definition neighbour (tid : nat) : Z := global_num_engines - 1 - (Z.of_nat tid - global_num_proxies) + global_num_proxies.
Definition is_engine (tid : nat) : bool := (global_num_proxies <=? Z.of_nat tid) && (Z.of_nat tid <? global_num_proxies + global_num_engines).

(** the engine [by_tid] takes a message of the engine [tid] from the server of the proxy *)
Definition engine_serve (sid tid by_tid : nat) (room : bool) (x : system) : outcome (option system) :=
  if negb (is_engine tid && (bool_decide (by_tid = tid) || workstealing && is_engine by_tid && (neighbour by_tid =? Z.of_nat tid))) then Ok None
  else match boxes x p_sid sid tid with
       | [] => Ok None
       | b :: l =>
           let q := set_box p_sid sid tid l (boxes x) in
           g ← read (stores x) sid;
           '(m, g) ← execute g b;
           let st := <[sid := g]> (stores x) in
           Ok (Some match (m : option envelope) with
                    | None => MkSystem q st (stashed x) (p_sent x) (p_stash x) (p_replies x) (p_ret x)
                    | Some m =>
                        let '(ok, q) := net_post q sid m room in
                        MkSystem q st (if ok then stashed x else fn_update sid by_tid (stashed x sid by_tid ++ [m]) (stashed x)) (p_sent x) (p_stash x) (p_replies x) (p_ret x)
                    end)
       end.

(** [sweep_msgs] of an engine *)
Definition engine_sweep (sid tid : nat) (rooms : nat → bool) (x : system) : system :=
  let '(l, q) := foldl (λ '(l, q) '(i, m), let '(ok, q) := net_post q sid m (rooms i) in (if ok : bool then l else l ++ [m], q)) ([], boxes x) (imap pair (stashed x sid tid)) in
  MkSystem q (stores x) (fn_update sid tid l (stashed x)) (p_sent x) (p_stash x) (p_replies x) (p_ret x).

(** the proxy sends to all servers, and then takes a reply of each; [None] while the thread
    has nothing to do *)
Definition step (a : action) (x : system) : outcome (option system) :=
  match a with
  | PSend random rooms => if (p_sent x <? servers)%nat then Some <$> proxy_send random rooms x else Ok None
  | PRecv from => if (servers <=? p_sent x)%nat && (p_replies x <? servers)%nat then proxy_recv from x else Ok None
  | EServe sid tid by_tid room => engine_serve sid tid by_tid room x
  | ESweep sid tid rooms => Ok (Some (engine_sweep sid tid rooms x))
  end.

(** what the call returns, when it does *)
Definition returned (x : system) : option Z := if (servers <=? p_sent x)%nat && (servers <=? p_replies x)%nat then Some (p_ret x) else None.

Definition call (graphs : list G) : system := MkSystem (λ _ _ _, []) graphs (λ _ _, []) 0 [] 0 0.

Inductive reachable (graphs : list G) : system → Prop :=
| reach_call : reachable graphs (call graphs)
| reach_step x a x' : reachable graphs x → step a x = Ok (Some x') → reachable graphs x'.
End broadcast.

(** * What holds of it

    Commands to all servers, in every interleaving of the proxy, the engines and the
    network: where the request of each server is, an invariant of the steps, and what
    follows from it: every graph does the work once, and the call returns unless a request
    was refused when it was sent. *)

(** ** One part of a sum changes *)

Lemma sum_same {A} (f g : A → nat) l : (∀ y, y ∈ l → f y = g y) → sum_list_with f l = sum_list_with g l.
Proof. induction l as [|y l IH]; intros Hfg; [done|]. cbn. rewrite Hfg by left. f_equal. apply IH. intros z Hz. apply Hfg. by right. Qed.

Lemma sum_change {A} (f g : A → nat) l x : NoDup l → x ∈ l → (∀ y, y ≠ x → f y = g y) → (sum_list_with f l + g x = sum_list_with g l + f x)%nat.
Proof.
  intros Hnd Hx Hfg. induction Hnd as [|y l Hy _ IH]; [by apply not_elem_of_nil in Hx|]. cbn. apply elem_of_cons in Hx as [->|Hx].
  - rewrite (sum_same f g l); [lia|]. intros z Hz. apply Hfg. by intros ->.
  - rewrite Hfg by (by intros ->). specialize (IH Hx). lia.
Qed.

Lemma sum_bound {A} (f g : A → nat) l : (∀ y, f y ≤ g y)%nat → (sum_list_with f l ≤ sum_list_with g l)%nat.
Proof. intros Hfg. induction l as [|y l IH]; [done|]. cbn. pose proof (Hfg y). lia. Qed.

Lemma sum_ones {A} (l : list A) : sum_list_with (λ _, 1%nat) l = length l.
Proof. induction l as [|y l IH]; [done|]. cbn. by rewrite IH. Qed.

Lemma sum_zero {A} (f : A → nat) l : sum_list_with f l = 0%nat ↔ ∀ x, x ∈ l → f x = 0%nat.
Proof.
  induction l as [|y l IH]; cbn; [split; [intros _ x Hx; by apply not_elem_of_nil in Hx|done]|]. split.
  - intros E x [->|Hx]%elem_of_cons; [lia|]. apply (proj1 IH); [lia|done].
  - intros Hf. rewrite (Hf y) by left. apply IH. intros x Hx. apply Hf. by right.
Qed.

Section broadcast.
  Context `{Config} `{Archive} {G : Type}.
  Context (dynamic workstealing : bool) (load : G → string → bool → outcome (Z * G)) (check : G → bool → bool → outcome Z).
  Context (p_sid p_tid : nat) (cmd : command) (pid : Z) (graphs : list G).
  (* what the graphs do: their codes, and the graphs after it *)
  Context (code : nat → Z) (after : nat → G).

Local Abbreviation servers := (Z.to_nat global_num_servers).
Local Abbreviation post := (step dynamic workstealing load check p_sid p_tid cmd pid).
Local Abbreviation reached := (reachable dynamic workstealing load check p_sid p_tid cmd pid graphs).

(** the work of one server *)
Definition perform (g : G) : outcome (Z * G) :=
  match cmd with
  | CmdLoad dname dup => '(ret, g) ← load g dname dup; Ok (i32 ret, g)
  | CmdCheck i n => ret ← check g i n; Ok (ret, g)
  end.
Definition reply (c : Z) : Bundle :=
  match cmd with
  | CmdLoad dname dup => load_bundle (MkLoad pid dname c dup)
  | CmdCheck i n => check_bundle (MkCheck pid c i n)
  end.

Record call_ok : Prop := {
  enough_engines : 0 < global_num_proxies <= global_num_engines;
  on_server : (p_sid < servers)%nat;
  is_proxy : Z.of_nat p_tid < global_num_proxies;
  pid_sid : sid_of pid = Z.of_nat p_sid;
  pid_tid : tid_of pid = Z.of_nat p_tid;
  one_graph : length graphs = servers;
  build : (∃ dname dup, cmd = CmdLoad dname dup) → dynamic = true;
  performs : ∀ i g, graphs !! i = Some g → perform g = Ok (code i, after i)
}.
Hypothesis ok : call_ok.

(** ** Where the request of a server is *)

Inductive phase :=
| Unsent
| Refused                  (* with the proxy, which does not try again *)
| Waiting (tid : nat)      (* in the mailbox of an engine *)
| Stashed (tid : nat)      (* served, its reply is with an engine *)
| Replied                  (* its reply is in the mailbox of the proxy *)
| Done.
#[local] Instance phase_eq_dec : EqDecision phase.
Proof. solve_decision. Defined.

Definition served (p : phase) : bool := match p with Stashed _ | Replied | Done => true | _ => false end.
Definition weight (p : phase) : nat := match p with Unsent => 4 | Refused => 0 | Waiting _ => 3 | Stashed _ => 2 | Replied => 1 | Done => 0 end.
Definition move (i : nat) (p : phase) (ph : nat → phase) : nat → phase := λ j, if bool_decide (j = i) then p else ph j.

Lemma move_eq i p ph : move i p ph i = p.
Proof. unfold move. by rewrite bool_decide_true. Qed.
Lemma move_ne i j p ph : j ≠ i → move i p ph j = ph j.
Proof. intros. unfold move. by rewrite bool_decide_false. Qed.

(** the servers in another phase stay what they are *)
Lemma move_other o i p ph : ph i ≠ o → p ≠ o → ∀ j, move i p ph j = o ↔ ph j = o.
Proof. intros Hi Hp j. destruct (decide (j = i)) as [->|Hj]; [rewrite move_eq; tauto|by rewrite move_ne]. Qed.

(** the requests and replies in a mailbox *)
Definition box_of (ph : nat → phase) (s d t : nat) : list Bundle :=
  (if bool_decide (s = p_sid ∧ ph d = Waiting t) then [request cmd pid] else []) ++
  (if bool_decide (d = p_sid ∧ t = p_tid ∧ ph s = Replied) then [reply (code s)] else []).

Definition stash_of (ph : nat → phase) (s t : nat) : list envelope :=
  if bool_decide (ph s = Stashed t) then [(Z.of_nat p_sid, Z.of_nat p_tid, reply (code s))] else [].

Definition is_done (p : phase) : nat := match p with Done => 1 | _ => 0 end.
(** over all servers *)
Definition total (w : phase → nat) (ph : nat → phase) : nat := sum_list_with (λ i, w (ph i)) (seq 0 servers).
Definition number_done (ph : nat → phase) : nat := total is_done ph.

Record inv (x : system) (ph : nat → phase) : Prop := {
  i_sent : (p_sent x ≤ servers)%nat;
  i_unsent : ∀ i, ph i = Unsent ↔ (p_sent x ≤ i)%nat;
  i_boxes : ∀ s d t, boxes x s d t = box_of ph s d t;
  i_engines : ∀ i t, ph i = Waiting t → is_engine t = true;
  i_stashed : ∀ s t, stashed x s t = stash_of ph s t;
  i_length : length (stores x) = servers;
  i_stores : ∀ i g, graphs !! i = Some g → stores x !! i = Some (if served (ph i) then after i else g);
  i_refused : p_stash x = [] ↔ ∀ i, ph i ≠ Refused;
  i_replies : p_replies x = number_done ph;
  i_ret : (p_ret x = 0 ∧ ∀ i, ph i = Done → 0 <= code i) ∨ ∃ i, ph i = Done ∧ code i < 0 ∧ p_ret x = code i
}.

Lemma call_inv : inv (call graphs) (λ _, Unsent).
Proof.
  split; cbn; try done; try lia.
  - intros i. split; [lia|done].
  - intros s d t. unfold box_of. rewrite !bool_decide_false by naive_solver. done.
  - apply (one_graph ok).
  - symmetry. by apply sum_zero.
  - left. split; [done|]. intros i [=].
Qed.

Lemma engine_not_proxy t : is_engine t = true → t ≠ p_tid.
Proof. intros Ht ->. pose proof (is_proxy ok). unfold is_engine in Ht. lia. Qed.

Lemma phase_below x ph i : inv x ph → ph i ≠ Unsent → (i < servers)%nat.
Proof. intros Hx Hi. pose proof (i_sent _ _ Hx). destruct (decide (p_sent x ≤ i)%nat) as [E|E]; [by apply (i_unsent _ _ Hx) in E|lia]. Qed.

(** ** Messages *)

Lemma reply_read c : reply_code cmd (reply c) = Ok c.
Proof.
  unfold reply_code, reply. destruct cmd; cbn [b_type load_bundle check_bundle]; rewrite bool_decide_true by done; cbn [assert_that mbind outcome_bind].
  - unfold get_rdf_load. cbn [b_type b_data load_bundle]. rewrite bool_decide_true by done. cbn [assert_that mbind outcome_bind]. by rewrite (run_reads _ _ _ (reads_load _)).
  - unfold get_gstore_check. cbn [b_type b_data check_bundle]. rewrite bool_decide_true by done. cbn [assert_that mbind outcome_bind]. by rewrite (run_reads _ _ _ (reads_check _)).
Qed.

Lemma execute_request g c g' : perform g = Ok (c, g') → execute dynamic load check g (request cmd pid) = Ok (Some (Z.of_nat p_sid, Z.of_nat p_tid, reply c), g').
Proof.
  unfold perform, execute, request, reply. pose proof (build ok) as Hb. destruct cmd as [dname dup|i n]; cbn [b_type load_bundle check_bundle]; intros E.
  - rewrite Hb by eauto. unfold get_rdf_load. cbn [b_type b_data load_bundle]. rewrite bool_decide_true by done. cbn [assert_that mbind outcome_bind].
    rewrite (run_reads _ _ _ (reads_load _)). cbn [mbind outcome_bind]. unfold execute_load_data. cbn [load_dname check_dup rl_pid].
    apply bind_Ok in E as ([r g1] & -> & [= <- <-]). cbn [mbind outcome_bind]. by rewrite (pid_sid ok), (pid_tid ok).
  - unfold get_gstore_check. cbn [b_type b_data check_bundle]. rewrite bool_decide_true by done. cbn [assert_that mbind outcome_bind].
    rewrite (run_reads _ _ _ (reads_check _)). cbn [mbind outcome_bind]. unfold execute_gstore_check. cbn [index_check normal_check gc_pid].
    apply bind_Ok in E as (r & -> & [= <- <-]). cbn [mbind outcome_bind]. by rewrite (pid_sid ok), (pid_tid ok).
Qed.

(** what waits for an engine, and for the proxy *)
Lemma box_engine ph s t : is_engine t = true → box_of ph p_sid s t = if bool_decide (ph s = Waiting t) then [request cmd pid] else [].
Proof.
  intros Ht%engine_not_proxy. unfold box_of. rewrite (bool_decide_false (s = p_sid ∧ _)) by naive_solver. rewrite app_nil_r. repeat case_bool_decide; naive_solver.
Qed.
Lemma box_proxy x ph s : inv x ph → box_of ph s p_sid p_tid = if bool_decide (ph s = Replied) then [reply (code s)] else [].
Proof.
  intros Hx. unfold box_of. rewrite (bool_decide_false (s = p_sid ∧ _)); [repeat case_bool_decide; naive_solver|].
  intros [_ E]. by apply (i_engines _ _ Hx), engine_not_proxy in E.
Qed.

Lemma total_move w ph i p : (i < servers)%nat → (total w (move i p ph) + w (ph i) = total w ph + w p)%nat.
Proof.
  intros Hi. unfold total. pose proof (sum_change (λ j, w (move i p ph j)) (λ j, w (ph j)) (seq 0 servers) i (NoDup_seq _ _)) as E.
  cbn beta in E. rewrite move_eq in E. apply E; [apply elem_of_seq; lia|]. intros j Hj. by rewrite move_ne.
Qed.

(** ** The mailboxes when one request moves on *)

Lemma if_iff {A} (P Q : Prop) `{Decision P, Decision Q} (x y : A) : (P ↔ Q) → (if bool_decide P then x else y) = (if bool_decide Q then x else y).
Proof. intros E. by rewrite (bool_decide_ext P Q E). Qed.

(** a mailbox is unchanged where no request comes or goes *)
Lemma box_same ph ph' s d t : (s = p_sid → ph' d = Waiting t ↔ ph d = Waiting t) → (d = p_sid → t = p_tid → ph' s = Replied ↔ ph s = Replied) →
  box_of ph' s d t = box_of ph s d t.
Proof. intros H1 H2. unfold box_of. f_equal; apply if_iff; tauto. Qed.

Lemma box_sent ph i t : ph i = Unsent → is_engine t = true → ∀ s d t',
  box_of (move i (Waiting t) ph) s d t' = set_box p_sid i t (box_of ph p_sid i t ++ [request cmd pid]) (box_of ph) s d t'.
Proof.
  intros Hi Ht s d t'. unfold set_box. case_bool_decide as E.
  - destruct E as (-> & -> & ->). rewrite !box_engine by done. rewrite move_eq, Hi. by rewrite bool_decide_true, bool_decide_false.
  - apply box_same; unfold move; case_bool_decide as Ej; [|tauto| |tauto]; subst; rewrite Hi; [|done]. intros ->. split; [intros [= ->]; by destruct E|done].
Qed.

Lemma box_served ph i t t0 : ph i = Waiting t → is_engine t = true → ∀ s d t',
  box_of (move i (Stashed t0) ph) s d t' = set_box p_sid i t [] (box_of ph) s d t'.
Proof.
  intros Hi Ht s d t'. unfold set_box. case_bool_decide as E.
  - destruct E as (-> & -> & ->). rewrite !box_engine by done. by rewrite move_eq, bool_decide_false.
  - apply box_same; unfold move; case_bool_decide as Ej; [|tauto| |tauto]; subst; rewrite Hi; [|done]. intros ->. split; [done|intros [= ->]; by destruct E].
Qed.

(** a reply comes to the mailbox of the proxy, or leaves it *)
Lemma box_reply ph i p : (∀ t, ph i ≠ Waiting t) → (∀ t, p ≠ Waiting t) → ∀ s d t',
  box_of (move i p ph) s d t' = set_box i p_sid p_tid (if bool_decide (p = Replied) then [reply (code i)] else []) (box_of ph) s d t'.
Proof.
  intros Hi Hp s d t'. unfold set_box. case_bool_decide as E.
  - destruct E as (-> & -> & ->). unfold box_of. rewrite move_eq, (bool_decide_false (i = p_sid ∧ _)).
    + apply if_iff. tauto.
    + intros [-> E]. rewrite move_eq in E. by apply Hp in E.
  - apply box_same; unfold move; case_bool_decide as Ej; [|tauto| |tauto]; subst.
    + intros _. split; intros E1; [by apply Hp in E1|by apply Hi in E1].
    + intros -> ->. by destruct E.
Qed.

(** ** The steps *)

(** a request that is not done moves to a place where it is not done either *)
Lemma move_inv x ph i p q st sh : inv x ph → ph i ≠ Unsent → ph i ≠ Refused → ph i ≠ Done → p ≠ Unsent → p ≠ Refused → p ≠ Done →
  (∀ t, p = Waiting t → is_engine t = true) →
  (∀ s d t, q s d t = box_of (move i p ph) s d t) → (∀ s t, sh s t = stash_of (move i p ph) s t) →
  length st = servers → (∀ j g, graphs !! j = Some g → st !! j = Some (if served (move i p ph j) then after j else g)) →
  inv (MkSystem q st sh (p_sent x) (p_stash x) (p_replies x) (p_ret x)) (move i p ph).
Proof.
  intros Hx Hu Hr Hd Hu' Hr' Hd' Hw Hq Hsh Hlen Hst. split; cbn; try done.
  - apply (i_sent _ _ Hx).
  - intros j. rewrite <-(i_unsent _ _ Hx). by apply move_other.
  - intros j t. unfold move. case_bool_decide; [apply Hw|apply (i_engines _ _ Hx)].
  - rewrite (i_refused _ _ Hx). split; intros Hj j Ej; apply (Hj j); by apply (move_other Refused i p ph).
  - rewrite (i_replies _ _ Hx). unfold number_done. pose proof (total_move is_done ph i p (phase_below _ _ _ Hx Hu)) as E. destruct (ph i), p; cbn in *; (lia || done).
  - pose proof (move_other Done i p ph Hd Hd') as E.
    destruct (i_ret _ _ Hx) as [[E0 Hj]|(j & Ej & Hj)]; [left; split; [done|]; intros j Ej%E; by apply Hj|right; exists j; by rewrite E].
Qed.

Lemma first_room_some n i rooms j : first_room n i rooms = Some j → (i ≤ j < i + n)%nat.
Proof. revert i. induction n as [|n IH]; intros i; cbn; [done|]. destruct (rooms i); [intros [= <-]; lia|]. intros E%IH. lia. Qed.

(** the engines of a proxy *)
Lemma engine_of k : 0 <= k < Z.quot global_num_engines global_num_proxies → is_engine (Z.to_nat (global_num_proxies + Z.quot global_num_engines global_num_proxies * Z.of_nat p_tid + k)) = true.
Proof.
  pose proof (enough_engines ok) as He. pose proof (is_proxy ok) as Hp. rewrite Z.quot_div_nonneg by lia. intros Hk.
  assert (global_num_proxies * (global_num_engines / global_num_proxies) <= global_num_engines) as Hm by (apply Z.mul_div_le; lia).
  set (range := global_num_engines / global_num_proxies) in *. assert (range * (Z.of_nat p_tid + 1) <= global_num_proxies * range) by nia.
  unfold is_engine. rewrite Z2Nat.id by nia. apply andb_true_intro. split; [apply Z.leb_le; nia|apply Z.ltb_lt; nia].
Qed.

Lemma range_pos : 0 < Z.quot global_num_engines global_num_proxies.
Proof. pose proof (enough_engines ok). rewrite Z.quot_div_nonneg by lia. apply Z.div_str_pos. lia. Qed.

Lemma stash_same ph i p s t : (∀ t, ph i ≠ Stashed t) → (∀ t, p ≠ Stashed t) → stash_of (move i p ph) s t = stash_of ph s t.
Proof. intros Hi Hp. unfold stash_of. destruct (decide (s = i)) as [->|Hne]; [by rewrite move_eq, !bool_decide_false by auto|by rewrite move_ne]. Qed.

Lemma send_inv x ph random rooms : inv x ph → (p_sent x < servers)%nat →
  ∃ x', proxy_send p_sid p_tid cmd pid random rooms x = Ok x' ∧ ∃ p, (if first_room (Z.to_nat (Z.quot global_num_engines global_num_proxies)) 0 rooms is Some _ then ∃ t, p = Waiting t else p = Refused) ∧ inv x' (move (p_sent x) p ph).
Proof.
  intros Hx Hs. assert (ph (p_sent x) = Unsent) as Hu by (by apply (i_unsent _ _ Hx)). unfold proxy_send. pose proof range_pos as Hrange.
  rewrite (proj2 (Z.ltb_lt _ _)) by done. cbn [assert_that mbind outcome_bind].
  set (range := Z.quot global_num_engines global_num_proxies) in *. set (base := global_num_proxies + range * Z.of_nat p_tid).
  assert (∀ p, p ≠ Unsent → p ≠ Done → (∀ t, p ≠ Stashed t) → served p = false → (∀ t, p = Waiting t → is_engine t = true) → ∀ q sh,
    (∀ s d t, q s d t = box_of (move (p_sent x) p ph) s d t) → (sh = [] ↔ ∀ i, move (p_sent x) p ph i ≠ Refused) →
    inv (MkSystem q (stores x) (stashed x) (S (p_sent x)) sh (p_replies x) (p_ret x)) (move (p_sent x) p ph)) as Hmove.
  { intros p Hp Hd Hst Hv Hw q sh Hq Hsh. split; cbn; try done.
    - intros i. unfold move. case_bool_decide; [subst; split; [done|lia]|]. rewrite (i_unsent _ _ Hx). lia.
    - intros i t. unfold move. case_bool_decide; [apply Hw|apply (i_engines _ _ Hx)].
    - intros s t. rewrite stash_same; [apply (i_stashed _ _ Hx)|by rewrite Hu|done].
    - apply (i_length _ _ Hx).
    - intros i g Hg. rewrite (i_stores _ _ Hx i g Hg). unfold move. case_bool_decide; [subst; by rewrite Hu, Hv|done].
    - rewrite (i_replies _ _ Hx). unfold number_done. pose proof (total_move is_done ph (p_sent x) p Hs) as E. rewrite Hu in E. destruct p; cbn in *; (lia || done).
    - assert (∀ j, move (p_sent x) p ph j = Done ↔ ph j = Done) as E by (apply move_other; congruence).
      destruct (i_ret _ _ Hx) as [[E0 Hj]|(j & Ej & Hj)]; [left; split; [done|]; intros j Ej%E; by apply Hj|right; exists j; by rewrite E]. }
  destruct (first_room (Z.to_nat range) 0 rooms) as [k|] eqn:Ek.
  - apply first_room_some in Ek. set (t := Z.to_nat (base + (random mod range + Z.of_nat k) mod range)).
    assert (is_engine t = true) as Ht by (apply engine_of, Z.mod_pos_bound; done).
    eexists. split; [reflexivity|]. exists (Waiting t). split; [by exists t|]. apply Hmove; try done; [by intros t' [= <-]| |].
    + intros s d t'. unfold net_post. cbn [snd]. rewrite Nat2Z.id. fold t. rewrite box_sent by done. unfold set_box. case_bool_decide; [by rewrite (i_boxes _ _ Hx)|apply (i_boxes _ _ Hx)].
    + rewrite (i_refused _ _ Hx). split; intros Hj j; specialize (Hj j); unfold move in *; case_bool_decide; subst; congruence.
  - eexists. split; [reflexivity|]. exists Refused. split; [done|]. apply Hmove; try done.
    + intros s d t'. rewrite (i_boxes _ _ Hx). symmetry. apply box_same; unfold move; case_bool_decide; subst; rewrite ?Hu; done.
    + split; [by intros []%app_eq_nil|]. intros Hj. by destruct (Hj (p_sent x)); rewrite move_eq.
Qed.

Lemma inv_ext x ph ph' : (∀ i, ph' i = ph i) → inv x ph → inv x ph'.
Proof.
  intros E Hx. assert (∀ s d t, box_of ph' s d t = box_of ph s d t) as Eb by (intros; apply box_same; by rewrite E).
  split; try apply Hx; intros *; rewrite ?E; try apply Hx.
  - rewrite Eb. apply (i_boxes _ _ Hx).
  - unfold stash_of. rewrite E. apply (i_stashed _ _ Hx).
  - rewrite (i_refused _ _ Hx). split; intros Hj j; specialize (Hj j); by rewrite E in *.
  - rewrite (i_replies _ _ Hx). apply sum_same. intros. by rewrite E.
  - destruct (i_ret _ _ Hx) as [[E0 Hj]|(j & Ej & Hj)]; [left; split; [done|]; intros j; rewrite E; apply Hj|right; exists j; by rewrite E].
Qed.

Lemma stash_to ph i t s t' : (∀ t, ph i ≠ Stashed t) → stash_of (move i (Stashed t) ph) s t' = fn_update i t [(Z.of_nat p_sid, Z.of_nat p_tid, reply (code i))] (stash_of ph) s t'.
Proof.
  intros Hi. unfold fn_update. case_bool_decide as E; [destruct E as [-> ->]; unfold stash_of; by rewrite move_eq, bool_decide_true|].
  unfold stash_of. destruct (decide (s = i)) as [->|Hne]; [|by rewrite move_ne]. rewrite move_eq, !bool_decide_false; [done|auto|]. intros [= ->]. by destruct E.
Qed.

Lemma stash_from ph i t p s t' : ph i = Stashed t → (∀ t, p ≠ Stashed t) → stash_of (move i p ph) s t' = fn_update i t [] (stash_of ph) s t'.
Proof.
  intros Hi Hp. unfold fn_update, stash_of. destruct (decide (s = i)) as [->|Hne].
  - rewrite move_eq, (bool_decide_false (p = _)) by auto. rewrite Hi. destruct (decide (t' = t)) as [->|Hn]; [by rewrite bool_decide_true|]. rewrite !bool_decide_false; [done|congruence|tauto].
  - rewrite move_ne by done. rewrite (bool_decide_false (s = i ∧ _)) by tauto. done.
Qed.

(** nothing for the proxy from a server whose request is with an engine *)
Lemma box_of_none ph s t : ph s = Stashed t → box_of ph s p_sid p_tid = [].
Proof.
  intros Es. unfold box_of. rewrite !bool_decide_false; [done|rewrite Es; naive_solver|]. intros [-> E]. congruence.
Qed.

(** an engine serves the request, and its reply is sent or stashed *)
Lemma serve_inv x ph sid tid by_tid room : inv x ph →
  ∃ r, engine_serve dynamic workstealing load check p_sid sid tid by_tid room x = Ok r ∧
    (ph sid = Waiting tid → by_tid = tid → r ≠ None) ∧ ∀ x', r = Some x' → ph sid = Waiting tid ∧ inv x' (move sid (if room then Replied else Stashed by_tid) ph).
Proof.
  intros Hx. unfold engine_serve. destruct (negb _) eqn:Ee.
  { exists None. split; [done|]. split; [|done]. intros Ew ->. apply (i_engines _ _ Hx) in Ew. by rewrite Ew, bool_decide_true in Ee. }
  assert (is_engine tid = true) as Ht by (destruct (is_engine tid); done).
  rewrite (i_boxes _ _ Hx), box_engine by done. destruct (decide (ph sid = Waiting tid)) as [Ew|Ew]; [rewrite bool_decide_true by done|rewrite bool_decide_false by done; by exists None].
  assert (sid < servers)%nat as Hs by (apply (phase_below _ _ _ Hx); congruence). destruct (lookup_lt_is_Some_2 graphs sid) as [g Eg]; [by rewrite (one_graph ok)|].
  rewrite (proj2 (read_Ok _ _ _) (i_stores _ _ Hx sid g Eg)), Ew. cbn [served mbind outcome_bind]. rewrite (execute_request g _ _ (performs ok sid g Eg)). cbn [mbind outcome_bind].
  eexists. split; [reflexivity|]. split; [done|]. intros x' [= <-]. split; [done|].
  assert (∀ p, p ≠ Unsent → p ≠ Refused → p ≠ Done → served p = true → ∀ j g0, graphs !! j = Some g0 → <[sid:=after sid]> (stores x) !! j = Some (if served (move sid p ph j) then after j else g0)) as Hst.
  { intros p _ _ _ Hv j g0 Hj. destruct (decide (j = sid)) as [->|Hne]; [rewrite list_lookup_insert_eq, move_eq, Hv by (by rewrite (i_length _ _ Hx)); done|].
    rewrite list_lookup_insert_ne, move_ne by done. by apply (i_stores _ _ Hx). }
  assert (∀ s d t, set_box p_sid sid tid [] (boxes x) s d t = box_of (move sid (Stashed by_tid) ph) s d t) as Hq.
  { intros s d t. rewrite (box_served ph sid tid by_tid Ew Ht). unfold set_box. by rewrite (i_boxes _ _ Hx). }
  assert (∀ s t, fn_update sid by_tid (stashed x sid by_tid ++ [(Z.of_nat p_sid, Z.of_nat p_tid, reply (code sid))]) (stashed x) s t = stash_of (move sid (Stashed by_tid) ph) s t) as Hsh.
  { intros s t. rewrite stash_to by (by rewrite Ew). unfold fn_update. rewrite !(i_stashed _ _ Hx). assert (stash_of ph sid by_tid = []) as -> by (unfold stash_of; by rewrite Ew, bool_decide_false). done. }
  assert (length (<[sid:=after sid]> (stores x)) = servers) as Hl by (rewrite length_insert; apply (i_length _ _ Hx)).
  destruct room; cbn [net_post].
  - apply move_inv; try done; [by rewrite Ew..| | |by apply Hst].
    + intros s d t. rewrite !Nat2Z.id. apply eq_trans with (box_of (move sid Replied (move sid (Stashed by_tid) ph)) s d t).
      * rewrite box_reply; [|by rewrite move_eq|done]. rewrite bool_decide_true by done. revert Hq. generalize (set_box p_sid sid tid [] (boxes x)). intros q Hq.
        unfold set_box. rewrite !Hq. by rewrite (box_of_none (move sid (Stashed by_tid) ph) sid by_tid) by apply move_eq.
      * apply box_same; unfold move; repeat case_bool_decide; done.
    + intros s t. rewrite (i_stashed _ _ Hx). symmetry. apply stash_same; [by rewrite Ew|done].
  - apply move_inv; try done; [by rewrite Ew..|by apply Hst].
Qed.

(** an engine sends its replies again *)
Lemma sweep_inv x ph sid tid rooms : inv x ph → ∃ ph', inv (engine_sweep sid tid rooms x) ph' ∧ (∀ i, ph' i = ph i ∨ ph i = Stashed tid ∧ ph' i = Replied) ∧ (rooms 0%nat = true → ph sid = Stashed tid → ph' sid = Replied).
Proof.
  intros Hx. unfold engine_sweep. rewrite (i_stashed _ _ Hx sid tid). unfold stash_of. case_bool_decide as Es; cbn [imap foldl net_post].
  - assert (sid < servers)%nat as Hs by (apply (phase_below _ _ _ Hx); congruence). destruct (rooms 0%nat); cbn.
    + exists (move sid Replied ph). split; [|split; [|intros _ _; apply move_eq]].
      * rewrite !Nat2Z.id. apply move_inv; try done; [by rewrite Es..| | |apply (i_length _ _ Hx)|].
        -- intros s d t. rewrite box_reply by (rewrite ?Es; done). rewrite bool_decide_true by done. unfold set_box. rewrite !(i_boxes _ _ Hx), (box_proxy x) by done.
           by rewrite (bool_decide_false (ph sid = _)) by congruence.
        -- intros s t. rewrite (stash_from _ _ _ _ _ _ Es) by done. unfold fn_update. by rewrite (i_stashed _ _ Hx).
        -- intros j g Hj. rewrite (i_stores _ _ Hx j g Hj). unfold move. case_bool_decide; [subst; by rewrite Es|done].
      * intros i. unfold move. case_bool_decide; [subst; auto|auto].
    + exists ph. split; [|split; [by left|done]]. split; try apply Hx. intros s t. cbn. unfold fn_update. case_bool_decide as E; [|apply (i_stashed _ _ Hx)].
      destruct E as [-> ->]. unfold stash_of. by rewrite bool_decide_true.
  - exists ph. split; [|split; [by left|done]]. split; try apply Hx. intros s t. cbn. unfold fn_update. case_bool_decide as E; [|apply (i_stashed _ _ Hx)].
    destruct E as [-> ->]. unfold stash_of. by rewrite bool_decide_false.
Qed.

(** the proxy takes a reply *)
Lemma recv_inv x ph from : inv x ph → ∃ r, proxy_recv p_sid p_tid cmd from x = Ok r ∧
  (ph from = Replied → r ≠ None) ∧ ∀ x', r = Some x' → ph from = Replied ∧ p_sent x' = p_sent x ∧ p_stash x' = p_stash x ∧ inv x' (move from Done ph).
Proof.
  intros Hx. unfold proxy_recv. rewrite (i_boxes _ _ Hx), (box_proxy x) by done. destruct (decide (ph from = Replied)) as [Er|Er]; [rewrite bool_decide_true by done|rewrite bool_decide_false by done; by exists None].
  rewrite reply_read. cbn [mbind outcome_bind]. eexists. split; [reflexivity|]. split; [done|]. intros x' [= <-]. split; [done|]. split; [done|]. split; [done|].
  assert (from < servers)%nat as Hs by (apply (phase_below _ _ _ Hx); congruence). split; cbn.
  - apply (i_sent _ _ Hx).
  - intros j. rewrite <-(i_unsent _ _ Hx). apply move_other; congruence.
  - intros s d t. rewrite box_reply by (rewrite ?Er; done). rewrite bool_decide_false by done. unfold set_box. by rewrite (i_boxes _ _ Hx).
  - intros j t. unfold move. case_bool_decide; [done|apply (i_engines _ _ Hx)].
  - intros s t. rewrite stash_same by (rewrite ?Er; done). apply (i_stashed _ _ Hx).
  - apply (i_length _ _ Hx).
  - intros j g Hj. rewrite (i_stores _ _ Hx j g Hj). unfold move. case_bool_decide; [subst; by rewrite Er|done].
  - rewrite (i_refused _ _ Hx). split; intros Hj j Ej; apply (Hj j); apply (move_other Refused from Done ph); congruence.
  - rewrite (i_replies _ _ Hx). unfold number_done. pose proof (total_move is_done ph from Done Hs) as E. rewrite Er in E. cbn in E. lia.
  - destruct (code from <? 0) eqn:Ec; [right; exists from; rewrite move_eq; split; [done|]; split; [lia|done]|].
    destruct (i_ret _ _ Hx) as [[E0 Hj]|(j & Ej & Hj)].
    + left. split; [done|]. intros j. unfold move. case_bool_decide; [subst; lia|apply Hj].
    + right. exists j. rewrite move_ne; [done|]. congruence.
Qed.

(** ** The call *)

Lemma step_inv x ph a : inv x ph → ∃ r, post a x = Ok r ∧ ∀ x', r = Some x' → ∃ ph', inv x' ph' ∧ ∀ i, ph i = Refused → ph' i = Refused.
Proof.
  intros Hx. destruct a as [random rooms|from|sid tid by_tid room|sid tid rooms]; cbn [step].
  - destruct (Nat.ltb_spec (p_sent x) servers) as [Hs|Hs]; [|by exists None]. destruct (send_inv x ph random rooms Hx Hs) as (x' & -> & p & _ & Hx').
    eexists. split; [reflexivity|]. intros ? [= <-]. exists (move (p_sent x) p ph). split; [done|]. intros i Ei. rewrite move_ne; [done|].
    intros ->. pose proof (proj2 (i_unsent _ _ Hx (p_sent x)) (le_n _)). congruence.
  - destruct (_ && _); [|by exists None]. destruct (recv_inv x ph from Hx) as (r & -> & _ & Hr). exists r. split; [done|]. intros x' E. destruct (Hr x' E) as (Ep & _ & _ & Hx').
    exists (move from Done ph). split; [done|]. intros i Ei. rewrite move_ne; congruence.
  - destruct (serve_inv x ph sid tid by_tid room Hx) as (r & -> & _ & Hr). exists r. split; [done|]. intros x' E. destruct (Hr x' E) as (Ep & Hx').
    eexists. split; [exact Hx'|]. intros i Ei. rewrite move_ne; congruence.
  - eexists. split; [reflexivity|]. intros ? [= <-]. destruct (sweep_inv x ph sid tid rooms Hx) as (ph' & Hx' & Hph & _). exists ph'. split; [done|].
    intros i Ei. destruct (Hph i) as [->|[E _]]; congruence.
Qed.

Definition next (x x' : system) : Prop := ∃ a, post a x = Ok (Some x').

Lemma reached_inv x : reached x → ∃ ph, inv x ph.
Proof.
  induction 1 as [|x a x' _ [ph Hx] E]; [exists (λ _, Unsent); apply call_inv|]. destruct (step_inv x ph a Hx) as (r & E' & Hr). rewrite E in E'. injection E' as <-.
  destruct (Hr x' eq_refl) as (ph' & ? & _). by exists ph'.
Qed.

Lemma refused_stays x ph x' i : inv x ph → ph i = Refused → rtc next x x' → ∃ ph', inv x' ph' ∧ ph' i = Refused.
Proof.
  intros Hx Hi Hn. revert ph Hx Hi. induction Hn as [x|x y z [a E] _ IH]; intros ph Hx Hi; [by exists ph|]. destruct (step_inv x ph a Hx) as (r & E' & Hr).
  rewrite E in E'. injection E' as <-. destruct (Hr y eq_refl) as (ph' & Hy & Href). apply (IH ph'); [done|]. by apply Href.
Qed.

Lemma returned_done x ph ret : inv x ph → returned x = Some ret → ret = p_ret x ∧ ∀ i, (i < servers)%nat → ph i = Done.
Proof.
  intros Hx. unfold returned. destruct (_ && _) eqn:E; [|done]. intros [= <-]. split; [done|]. apply andb_prop in E as [Es%Nat.leb_le Er%Nat.leb_le]. intros i Hi.
  rewrite (i_replies _ _ Hx) in Er. destruct (decide (ph i = Done)) as [|Hne]; [done|exfalso].
  pose proof (total_move is_done ph i Done Hi) as Em. cbn in Em. assert (total is_done (move i Done ph) ≤ servers)%nat.
  { unfold total. etrans; [apply (sum_bound _ (λ _, 1%nat)); intros j; by destruct (move i Done ph j); cbn; lia|]. by rewrite sum_ones, length_seq. }
  unfold number_done in Er. destruct (ph i); cbn in Em; (lia || done).
Qed.

Lemma not_returned x ph : inv x ph → returned x = None → (p_sent x < servers)%nat ∨ p_sent x = servers ∧ (p_replies x < servers)%nat ∧ ∃ i, (i < servers)%nat ∧ ph i ≠ Done.
Proof.
  intros Hx. unfold returned. pose proof (i_sent _ _ Hx). destruct (Nat.leb_spec servers (p_sent x)) as [Hs|Hs]; [|by left]. destruct (Nat.leb_spec servers (p_replies x)) as [Hr|Hr]; [done|].
  intros _. right. split; [lia|]. split; [done|]. destruct (decide (Forall (λ i, ph i = Done) (seq 0 servers))) as [Hall|Hex].
  - rewrite (i_replies _ _ Hx) in Hr. unfold number_done, total in Hr. rewrite (sum_same _ (λ _, 1%nat)) in Hr; [|intros j Hj; by rewrite (proj1 (Forall_forall _ _) Hall j Hj)].
    rewrite sum_ones, length_seq in Hr. lia.
  - apply not_Forall_Exists in Hex; [|apply _]. apply Exists_exists in Hex as (i & Hi%elem_of_seq & Hne). exists i. split; [lia|done].
Qed.

(** while no request was refused, one of them can move on *)
Lemma progress x ph : inv x ph → (∀ i, ph i ≠ Refused) → returned x = None →
  ∃ x' ph', next x x' ∧ inv x' ph' ∧ (∀ i, ph' i ≠ Refused) ∧ (total weight ph' < total weight ph)%nat.
Proof.
  intros Hx Hnr Hret.
  assert (∀ i p, (i < servers)%nat → (weight p < weight (ph i))%nat → (total weight (move i p ph) < total weight ph)%nat) as Hw by (intros i p Hi Hp; pose proof (total_move weight ph i p Hi); lia).
  assert (∀ i p, p ≠ Refused → ∀ j, move i p ph j ≠ Refused) as Hm by (intros i p Hp j; unfold move; case_bool_decide; auto).
  destruct (not_returned x ph Hx Hret) as [Hs|(Es & Hr & i & Hi & Hd)].
  - destruct (send_inv x ph 0 (λ _, true) Hx Hs) as (x' & E & p & Hp & Hx'). assert (∃ t, p = Waiting t) as [t ->].
    { revert Hp. pose proof range_pos. destruct (Z.to_nat (Z.quot global_num_engines global_num_proxies)) eqn:En; [lia|]. done. }
    exists x', (move (p_sent x) (Waiting t) ph). split; [exists (PSend 0 (λ _, true)); cbn [step]; by rewrite (proj2 (Nat.ltb_lt _ _) Hs), E|]. split; [done|]. split; [by apply Hm|].
    apply Hw; [done|]. rewrite (proj2 (i_unsent _ _ Hx (p_sent x)) (le_n _)). cbn. lia.
  - destruct (ph i) as [| |t|t| |] eqn:Ep; [apply (i_unsent _ _ Hx) in Ep; lia|by apply Hnr in Ep| | | |done].
    + destruct (serve_inv x ph i t t true Hx) as ([x'|] & E & Hn & Hx'); [|by destruct (Hn Ep eq_refl)]. destruct (Hx' x' eq_refl) as [_ Hx1].
      exists x', (move i Replied ph). split; [by exists (EServe i t t true)|]. split; [done|]. split; [by apply Hm|]. apply Hw; [done|]. rewrite Ep. cbn. lia.
    + destruct (sweep_inv x ph i t (λ _, true) Hx) as (ph' & Hx' & Hph & Hi'). specialize (Hi' eq_refl Ep). exists (engine_sweep i t (λ _, true) x), ph'.
      split; [by exists (ESweep i t (λ _, true))|]. split; [done|]. split; [intros j; destruct (Hph j) as [->|[_ ->]]; auto|].
      apply Nat.le_lt_trans with (total weight (move i Replied ph)); [|apply Hw; [done|rewrite Ep; cbn; lia]].
      apply sum_bound. intros j. unfold move. case_bool_decide; [subst; by rewrite Hi'|]. destruct (Hph j) as [->|[-> ->]]; cbn; lia.
    + destruct (recv_inv x ph i Hx) as ([x'|] & E & Hn & Hx'); [|by destruct (Hn Ep)]. destruct (Hx' x' eq_refl) as (_ & _ & _ & Hx1).
      exists x', (move i Done ph). split; [exists (PRecv i); cbn [step]; by rewrite Es, Nat.leb_refl, (proj2 (Nat.ltb_lt _ _) Hr)|]. split; [done|]. split; [by apply Hm|].
      apply Hw; [done|]. rewrite Ep. cbn. lia.
Qed.

Lemma completes x ph : inv x ph → (∀ i, ph i ≠ Refused) → ∃ x' ret, rtc next x x' ∧ returned x' = Some ret.
Proof.
  remember (total weight ph) as n eqn:En. revert x ph En. induction n as [n IH] using lt_wf_ind. intros x ph En Hx Hnr. destruct (returned x) as [ret|] eqn:Er; [by exists x, ret|].
  destruct (progress x ph Hx Hnr Er) as (x1 & ph1 & Hn & Hx1 & Hnr1 & Hlt). destruct (IH (total weight ph1) ltac:(lia) x1 ph1 eq_refl Hx1 Hnr1) as (x' & ret & Hsteps & E).
  exists x', ret. split; [by eapply rtc_l|done].
Qed.

(** C27: a command to all servers, in every interleaving of the proxy, the engines (stealing
    or not) and the network: no thread fails; when the call returns, every server has done
    the work exactly once, and the code is that of a server that failed, or 0 if none did;
    as long as no request was refused when it was sent the call can be completed from
    every state, but a request that all engines of its server refused is never sent again,
    and the call does not return. *)
Theorem command_to_all x : reached x →
  (∀ a, ∃ r, post a x = Ok r) ∧
  (∀ ret, returned x = Some ret → stores x = after <$> seq 0 servers ∧
    (ret = 0 ∧ (∀ i, (i < servers)%nat → 0 <= code i) ∨ ∃ i, (i < servers)%nat ∧ code i < 0 ∧ ret = code i)) ∧
  (p_stash x = [] → ∃ x' ret, rtc next x x' ∧ returned x' = Some ret) ∧
  (p_stash x ≠ [] → ∀ x', rtc next x x' → returned x' = None).
Proof.
  intros (ph & Hx)%reached_inv. split; [intros a; destruct (step_inv x ph a Hx) as (r & E & _); by exists r|]. split; [|split].
  - intros ret Er. destruct (returned_done x ph ret Hx Er) as [-> Hd]. split.
    + apply list_eq. intros i. rewrite list_lookup_fmap. destruct (decide (i < servers)%nat) as [Hi|Hi].
      * rewrite lookup_seq_lt by done. cbn. destruct (lookup_lt_is_Some_2 graphs i) as [g Eg]; [by rewrite (one_graph ok)|]. by rewrite (i_stores _ _ Hx i g Eg), Hd.
      * rewrite lookup_ge_None_2 by (rewrite (i_length _ _ Hx); lia). symmetry. rewrite fmap_None. apply lookup_ge_None_2. rewrite length_seq. lia.
    + destruct (i_ret _ _ Hx) as [[-> Hc]|(i & Ei & Hc & ->)]; [left; split; [done|]; intros i Hi; by apply Hc, Hd|]. right. exists i. split; [|done]. apply (phase_below _ _ _ Hx). congruence.
  - intros Hn. apply (completes x ph Hx). by apply (i_refused _ _ Hx).
  - intros Hn x' Hs. destruct (decide (Forall (λ i, ph i ≠ Refused) (seq 0 servers))) as [Hall|Hex].
    + destruct Hn. apply (i_refused _ _ Hx). intros i Ei. assert (i < servers)%nat by (apply (phase_below _ _ _ Hx); congruence). by apply (proj1 (Forall_forall _ _) Hall i); [apply elem_of_seq; lia|].
    + apply not_Forall_Exists in Hex; [|apply _]. apply Exists_exists in Hex as (i & Hi%elem_of_seq & Hne%dec_stable). destruct (refused_stays x ph x' i Hx Hne Hs) as (ph' & Hx' & E).
      destruct (returned x') as [ret|] eqn:Er; [|done]. destruct (returned_done x' ph' ret Hx' Er) as [_ Hd]. rewrite Hd in E by lia. done.
Qed.
End broadcast.

(** *** Two servers, one of which fails *)

(** one proxy and two engines on each of two servers *)
Definition two_engines : Config := MkConfig 2 3 1 2 false false 2 0 false.

(** a graph is the code of its check *)
Local Abbreviation of_graphs f := (f two_engines token_archive Z false true (λ (g : Z) (_ : string) (_ : bool), Ok (0, g)) (λ (g : Z) (_ _ : bool), Ok g) 0%nat 0%nat (CmdCheck true true) 0) (only parsing).

Definition run_two (l : list action) : option (@system token_archive Z) :=
  foldl (λ x a, match x with Some x => match of_graphs (@step) a x with Ok r => r | Err _ => None end | None => None end) (Some (call [5; -3])) l.

Lemma run_two_reached l x : run_two l = Some x → of_graphs (@reachable) [5; -3] x.
Proof.
  unfold run_two. revert x. induction l as [|a l IH] using rev_ind; intros x; [intros [= <-]; apply reach_call|]. rewrite foldl_app. cbn [foldl].
  destruct (foldl _ _ l) as [y|]; [|done]. destruct (of_graphs (@step) a y) as [r|e] eqn:E; [|done]. intros ->. eapply reach_step; [by apply IH|exact E].
Qed.

Lemma two_engines_ok : @call_ok two_engines Z false (λ (g : Z) (_ : string) (_ : bool), Ok (0, g)) (λ (g : Z) (_ _ : bool), Ok g) 0 0 (CmdCheck true true) 0 [5; -3] (λ i, nth i [5; -3] 0) (λ i, nth i [5; -3] 0).
Proof.
  split; cbn; try done; [lia|by intros (? & ? & ?)|]. intros [|[|i]] g Hg; cbn in Hg; [injection Hg as <-; done|injection Hg as <-; done|by destruct i].
Qed.

(** a complete run, with a stolen request and a reply that is sent late, and one in which a
    request is refused *)
Definition good_run : list action := [PSend 0 (λ _, true); PSend 1 (λ i, i =? 1)%nat; EServe 1 1 1 false; EServe 0 1 2 true; PRecv 0; ESweep 1 1 (λ _, true); PRecv 1].
Definition refused_run : list action := [PSend 0 (λ _, true); PSend 0 (λ _, false)].

Lemma command_to_all_witness :
  (∃ x, run_two good_run = Some x ∧ @returned two_engines token_archive Z x = Some (-3) ∧ stores x = [5; -3]) ∧
  (∃ x, run_two refused_run = Some x ∧ ∀ x', rtc (of_graphs (@next)) x x' → @returned two_engines token_archive Z x' = None).
Proof.
  pose proof (@command_to_all two_engines token_archive Z false true (λ g _ _, Ok (0, g)) (λ g _ _, Ok g) 0 0 (CmdCheck true true) 0 [5; -3] _ _ two_engines_ok) as Hall. split.
  - assert (@returned two_engines token_archive Z <$> run_two good_run = Some (Some (-3))) as Er by (vm_compute; reflexivity).
    destruct (run_two good_run) as [x|] eqn:E; [|discriminate Er]. cbn in Er. injection Er as Er. exists x. split; [reflexivity|]. split; [exact Er|].
    destruct (Hall x (run_two_reached _ _ E)) as (_ & Hret & _). exact (proj1 (Hret (-3) Er)).
  - assert ((λ x, length (@p_stash token_archive Z x)) <$> run_two refused_run = Some 1%nat) as Es by (vm_compute; reflexivity).
    destruct (run_two refused_run) as [x|] eqn:E; [|discriminate Es]. cbn in Es. injection Es as Es. exists x. split; [reflexivity|].
    destruct (Hall x (run_two_reached _ _ E)) as (_ & _ & _ & Href). apply Href. intros E0. rewrite E0 in Es. discriminate Es.
Defined.
