(* ===== verification/Engine.v ===== *)
(** [core/engine.hpp], the graph-exploration steps of an engine: each function
    takes the query after the previous step and extends or prunes its table with
    the current triple pattern. The graph is the interface [Graph]. *)

From S2P Require Import Prelude Types MyMath Keys Query.
Local Open Scope nat_scope.

(** What the engine uses of [DGraph]. A missing list is the empty list; a missing
    attribute is [None] ([has_value == false]). *)
Class Graph := {
  get_edges_global : sid_t → dir_t → sid_t → outcome (list sid_t);
  get_index_edges : sid_t → dir_t → outcome (list sid_t);
  get_vertex_attr_global : sid_t → dir_t → sid_t → outcome (option attr_t)
}.

Section steps.
  Context `{Config} `{Graph}.

  (** [res.get_row_col(i, res.var2col(var))] *)
Definition row_var (r : Result) (i : nat) (var : ssid_t) : outcome sid_t :=
  c ← var2col r var; get_row_col r i (Z.to_nat c).

Definition next_step (q : SPARQLQuery) : SPARQLQuery := set_pattern_step (S (pattern_step q)) q.

Definition is_optional (q : SPARQLQuery) : bool := bool_decide (pg_type q = OPTIONAL).

  (** the row [i] of an OPTIONAL query matches or not: a row that fails for the
      first time loses its optional bindings *)
Definition mark_optional (q : SPARQLQuery) (i : nat) (matched : bool) : outcome SPARQLQuery :=
  m ← read (optional_matched_rows (result q)) i;
  q ← (if m && negb matched then correct_optional_result q i else Ok q);
  ms ← write (optional_matched_rows (result q)) i (matched && m);
  Ok (set_result (set_matched ms (result q)) q).

  (** the edges [sz / mt_factor] per thread, and the rest for the last one *)
Definition index_part (q : SPARQLQuery) (edges : list sid_t) : outcome (list sid_t) :=
  if (mt_factor q =? 0)%Z then Err OutOfBounds
  else
    let start := Z.to_nat (Z.rem (q_tid q) (mt_factor q)) in
    let len := Z.to_nat (Z.of_nat (length edges) / mt_factor q) in
    let part := take len (drop (start * len) edges) in
    Ok (if (Z.of_nat start =? mt_factor q - 1)%Z then part ++ drop ((start + 1) * len) edges else part).

  (** keep the rows whose column [col] is in [set]; the body that
      [index_to_known] and [const_to_known] share *)
Definition match_rows (q : SPARQLQuery) (col : nat) (set : list sid_t) : outcome SPARQLQuery :=
  if is_optional q then
    foldM (λ q i, x ← get_row_col (result q) i col;
             mark_optional q i (bool_decide (x ∈ set))) q (seq 0 (get_row_num (result q)))
  else
    t ← foldM (λ t i, x ← get_row_col (result q) i col;
                if bool_decide (x ∈ set) then append_row_to (result q) i t else Ok t)
          [] (seq 0 (get_row_num (result q)));
    Ok (set_result (set_table t (result q)) q).

Definition index_to_known (q : SPARQLQuery) : outcome SPARQLQuery :=
  p ← get_pattern q;
  col ← var2col (result q) (object p);
  ASSERT (negb (col =? NO_RESULT))%Z;
  ASSERT ((predicate p =? PREDICATE_ID) || (predicate p =? TYPE_ID))%Z;
  edges ← get_index_edges (u32 (subject p)) (direction p);
  set ← index_part q edges;
  q ← match_rows q (Z.to_nat col) set;
  Ok (next_step q).

Definition index_to_unknown (q : SPARQLQuery) : outcome SPARQLQuery :=
  p ← get_pattern q;
  ASSERT ((predicate p =? PREDICATE_ID) || (predicate p =? TYPE_ID))%Z;
  ASSERT (col_num (result q) =? 0);
  edges ← get_index_edges (u32 (subject p)) (direction p);
  t ← index_part q edges;
  r ← add_var2col (set_col_num 1 (set_table t (result q))) (object p) 0 SID_t;
  Ok (set_local_var (-1) (next_step (set_result r q))).

Definition const_to_known (q : SPARQLQuery) : outcome SPARQLQuery :=
  p ← get_pattern q;
  col ← var2col (result q) (object p);
  ASSERT (negb (col =? NO_RESULT))%Z;
  edges ← get_edges_global (u32 (subject p)) (direction p) (u32 (predicate p));
  ASSERT (negb (is_optional q) || (get_row_num (result q) =? length (optional_matched_rows (result q))));
  q ← match_rows q (Z.to_nat col) edges;
  Ok (next_step q).

Definition const_to_unknown (q : SPARQLQuery) : outcome SPARQLQuery :=
  p ← get_pattern q;
  ASSERT (col_num (result q) =? 0);
  edges ← get_edges_global (u32 (subject p)) (direction p) (u32 (predicate p));
  let r := set_table edges (result q) in
  r ← add_var2col r (object p) (col_num r) SID_t;
  Ok (next_step (set_result (set_col_num (S (col_num r)) r) q)).

Definition const_to_unknown_attr (q : SPARQLQuery) : outcome SPARQLQuery :=
  p ← get_pattern q;
  ASSERT (bool_decide (direction p = OUT)); (* attribute always uses OUT *)
  v ← get_vertex_attr_global (u32 (subject p)) (direction p) (u32 (predicate p));
  let '(t, type) := match v with Some v => ([v], get_type v) | None => ([], INT_t) end in
  r ← add_var2col (set_attr_table t (result q)) (object p) 0 type;
  Ok (next_step (set_result (set_attr_col_num 1 r) q)).

  (** the cached neighbours of the last vertex: [cached], [edges] *)
Definition cache : Type := sid_t * list sid_t.
Definition lookup_cached (c : cache) (cur : sid_t) (d : dir_t) (pid : sid_t) : outcome cache :=
  if (cur =? c.1)%Z then Ok c
  else e ← get_edges_global cur d pid; Ok (cur, e).

  (** the tables built by [known_to_unknown]: results, optional marks, attributes *)
Definition tables : Type := list sid_t * list bool * list attr_t.

  (** one more row: the row [i] extended by [x] *)
Definition emit_row (r : Result) (i : nat) (x : sid_t) (t : list sid_t) : outcome (list sid_t) :=
  t ← append_row_to r i t; Ok (t ++ [x]).

Definition extend_row (q : SPARQLQuery) (p : Pattern) (st : tables * cache) (i : nat)
    : outcome (tables * cache) :=
  let '((t, ms, ats), c) := st in
  let r := result q in
  cur ← row_var r i (subject p);
  skip ← (if is_optional q then m ← read (optional_matched_rows r) i; Ok (negb m || (cur =? BLANK_ID)%Z)
          else Ok false);
  if skip : bool then
    m ← read (optional_matched_rows r) i;
    t ← emit_row r i BLANK_ID t;
    Ok ((t, ms ++ [m], ats), c)
  else
    c ← lookup_cached c cur (direction p) (u32 (predicate p));
    if is_optional q then
      t ← foldM (λ t x, emit_row r i x t) t (match c.2 with [] => [BLANK_ID] | es => es end);
      Ok ((t, ms ++ replicate (length (match c.2 with [] => [BLANK_ID] | es => es end)) true, ats), c)
    else
      '(t, ats) ← foldM (λ '(t, ats) x,
          t ← append_row_to r i t;
          ats ← (if global_enable_vattr then append_attr_row_to r i ats else Ok ats);
          Ok (t ++ [x], ats)) (t, ats) c.2;
      Ok ((t, ms, ats), c).

Definition known_to_unknown (q : SPARQLQuery) : outcome SPARQLQuery :=
  p ← get_pattern q;
  '((t, ms, ats), _) ← foldM (extend_row q p) (([], [], []), (BLANK_ID, []))
                         (seq 0 (get_row_num (result q)));
  let r := set_table t (result q) in
  let r := if is_optional q then set_matched ms r else r in
  let r := if global_enable_vattr then set_attr_table ats r else r in
  r ← add_var2col r (object p) (col_num r) SID_t;
  Ok (next_step (set_result (set_col_num (S (col_num r)) r) q)).

Definition attr_row (q : SPARQLQuery) (p : Pattern) (st : list sid_t * list attr_t * Z) (i : nat)
    : outcome (list sid_t * list attr_t * Z) :=
  let '(t, ats, type) := st in
  prev_id ← row_var (result q) i (subject p);
  v ← get_vertex_attr_global prev_id (direction p) (u32 (predicate p));
  match v with
  | Some v =>
      t ← append_row_to (result q) i t;
      ats ← append_attr_row_to (result q) i ats;
      Ok (t, ats ++ [v], get_type v)
  | None => Ok (t, ats, type)
  end.

Definition known_to_unknown_attr (q : SPARQLQuery) : outcome SPARQLQuery :=
  p ← get_pattern q;
  ASSERT (bool_decide (direction p = OUT)); (* attribute always uses OUT *)
  '(t, ats, type) ← foldM (attr_row q p) ([], [], pred_type p) (seq 0 (get_row_num (result q)));
  let r := set_attr_table ats (set_table t (result q)) in
  r ← add_var2col r (object p) (attr_col_num r) type;
  Ok (next_step (set_result (set_attr_col_num (S (attr_col_num r)) r) q)).

  (** the state of the pruning loops: the query, the new tables, the cache *)
Definition prune_state : Type := SPARQLQuery * (list sid_t * list attr_t) * cache.

  (** a matched row of a non-OPTIONAL query *)
Definition keep_row (q : SPARQLQuery) (i : nat) (st : list sid_t * list attr_t)
    : outcome (list sid_t * list attr_t) :=
  t ← append_row_to (result q) i st.1;
  ats ← (if global_enable_vattr then append_attr_row_to (result q) i st.2 else Ok st.2);
  Ok (t, ats).

Definition known_row (p : Pattern) (st : prune_state) (i : nat) : outcome prune_state :=
  let '(q, ts, c) := st in
  cur ← row_var (result q) i (subject p);
  c ← lookup_cached c cur (direction p) (u32 (predicate p));
  known ← row_var (result q) i (object p);
  let matched := bool_decide (known ∈ c.2) in
  if is_optional q then q ← mark_optional q i matched; Ok (q, ts, c)
  else if matched then ts ← keep_row q i ts; Ok (q, ts, c)
  else Ok (q, ts, c).

  (** the new tables replace the old ones, except in an OPTIONAL query *)
Definition swap_tables (q : SPARQLQuery) (ts : list sid_t * list attr_t) : SPARQLQuery :=
  if is_optional q then q
  else
    let r := set_table ts.1 (result q) in
    set_result (if global_enable_vattr then set_attr_table ts.2 r else r) q.

Definition known_to_known (q : SPARQLQuery) : outcome SPARQLQuery :=
  p ← get_pattern q;
  '(q, ts, _) ← foldM (known_row p) (q, ([], []), (BLANK_ID, [])) (seq 0 (get_row_num (result q)));
  Ok (next_step (swap_tables q ts)).

  (** [known_to_const] also caches whether the constant was found *)
Definition const_row (p : Pattern) (st : prune_state * bool) (i : nat) : outcome (prune_state * bool) :=
  let '((q, ts, c), found) := st in
  cur ← row_var (result q) i (subject p);
  '(c, found) ← (if negb (cur =? c.1)%Z then
      e ← get_edges_global cur (direction p) (u32 (predicate p));
      Ok ((cur, e), bool_decide (u32 (object p) ∈ e))
    else Ok (c, found));
  if is_optional q then q ← mark_optional q i found; Ok ((q, ts, c), found)
  else if found : bool then ts ← keep_row q i ts; Ok ((q, ts, c), found)
  else Ok ((q, ts, c), found).

Definition known_to_const (q : SPARQLQuery) : outcome SPARQLQuery :=
  p ← get_pattern q;
  '((q, ts, _), _) ← foldM (const_row p) ((q, ([], []), (BLANK_ID, [])), false)
                       (seq 0 (get_row_num (result q)));
  Ok (next_step (swap_tables q ts)).

  (** *** Patterns with an unknown predicate (VERSATILE) *)

  (** the predicates of [v] with their neighbours *)
Definition pred_edges (v : sid_t) (d : dir_t) : outcome (list (sid_t * list sid_t)) :=
  pids ← get_edges_global v d PREDICATE_ID;
  foldM (λ acc p, e ← get_edges_global v d p; Ok (acc ++ [(p, e)])) [] pids.

Definition const_unknown_unknown (q : SPARQLQuery) : outcome SPARQLQuery :=
  p ← get_pattern q;
  pes ← pred_edges (u32 (subject p)) (direction p);
  let t := foldl (λ t pe, foldl (λ t x, t ++ [pe.1; x]) t pe.2) [] pes in
  r ← add_var2col (set_col_num 2 (set_table t (result q))) (predicate p) 0 SID_t;
  r ← add_var2col r (object p) 1 SID_t;
  Ok (next_step (set_result r q)).

Definition known_unknown_unknown (q : SPARQLQuery) : outcome SPARQLQuery :=
  p ← get_pattern q;
  t ← foldM (λ t i,
        cur ← row_var (result q) i (subject p);
        pes ← pred_edges cur (direction p);
        foldM (λ t pe, foldM (λ t x, t ← append_row_to (result q) i t; Ok (t ++ [pe.1; x])) t pe.2) t pes)
      [] (seq 0 (get_row_num (result q)));
  let r := set_table t (result q) in
  r ← add_var2col r (predicate p) (col_num r) SID_t;
  r ← add_var2col r (object p) (col_num r + 1) SID_t;
  Ok (next_step (set_result (set_col_num (col_num r + 2) r) q)).

Definition known_unknown_const (q : SPARQLQuery) : outcome SPARQLQuery :=
  p ← get_pattern q;
  t ← foldM (λ t i,
        prev_id ← row_var (result q) i (subject p);
        pes ← pred_edges prev_id (direction p);
        foldM (λ t pe, if bool_decide (u32 (object p) ∈ pe.2) then emit_row (result q) i pe.1 t else Ok t) t pes)
      [] (seq 0 (get_row_num (result q)));
  let r := set_table t (result q) in
  r ← add_var2col r (predicate p) (col_num r) SID_t;
  Ok (next_step (set_result (set_col_num (S (col_num r)) r) q)).

Definition const_unknown_const (q : SPARQLQuery) : outcome SPARQLQuery :=
  p ← get_pattern q;
  ASSERT (col_num (result q) =? 0);
  pes ← pred_edges (u32 (subject p)) (direction p);
  let t := foldl (λ t pe, if bool_decide (u32 (object p) ∈ pe.2) then t ++ [pe.1] else t) [] pes in
  r ← add_var2col (set_col_num 1 (set_table t (result q))) (predicate p) 0 SID_t;
  Ok (next_step (set_result r q)).
End steps.
