(* ===== verification/EngineSteps.v ===== *)
(** The exploration steps of [core/engine.hpp] as relational operators on rows.

    A step that meets a new variable is a join of the rows with the neighbour
    lists of the graph; a step between bound variables or to a constant is a
    filter. The one-entry neighbour cache of the loops is invisible. *)

From S2P Require Import Prelude Types MyMath Keys Query Rows Engine.
Local Open Scope nat_scope.

(** What the engine relies on: reads are total functions of the graph on string
    ids, [BLANK_ID] is no vertex, and neighbours are string ids. *)
Class GraphOk `{Graph} := {
  edge_list : sid_t → dir_t → sid_t → list sid_t;
  index_list : sid_t → dir_t → list sid_t;
  edge_list_ok v d p : is_sid v → (0 <= p < 2 ^ 17)%Z → d ≠ CORUN →
    get_edges_global v d p = Ok (edge_list v d p);
  edge_list_blank d p : edge_list BLANK_ID d p = [];
  edge_list_sid v d p : Forall is_sid (edge_list v d p);
  index_list_ok p d : (1 < p < 2 ^ 17)%Z → d ≠ CORUN → get_index_edges p d = Ok (index_list p d);
  index_list_sid p d : Forall is_sid (index_list p d)
}.

(** The value of a column in a row. *)
Definition cell (row : list sid_t) (c : nat) : sid_t := default BLANK_ID (row !! c).

Section specs.
  Context `{Config} `{GraphOk}.

Lemma is_sid_blank : is_sid BLANK_ID.
Proof. unfold is_sid, BLANK_ID. lia. Qed.

Lemma cell_sid row c : Forall is_sid row → is_sid (cell row c).
Proof.
  intros Hr. unfold cell. destruct (row !! c) eqn:E; [|apply is_sid_blank].
  by eapply Forall_lookup_1 in E.
Qed.

Lemma row_var_rows r rows i row v c :
  res_rows r rows → rows !! i = Some row → bound r v c → row_var r i v = Ok (cell row c).
Proof.
  intros Hr Hi [Hv Hc]. unfold row_var. rewrite Hv. simpl. rewrite Nat2Z.id.
  rewrite (get_row_col_rows r rows i row) by done. unfold cell, read.
  destruct (row !! c) eqn:E; [done|]. apply lookup_ge_None in E.
  pose proof (proj1 (Forall_lookup _ _) (rr_grid _ _ Hr) _ _ Hi). simpl in *. lia.
Qed.

Lemma append_no_attrs r i u : attr_col_num r = 0 → append_attr_row_to r i u = Ok u.
Proof. intros E. unfold append_attr_row_to. by rewrite E. Qed.

(** A pattern the exploration steps can run: a known predicate and a direction. *)
Record pattern_ok (p : Pattern) : Prop := {
  po_pred : (0 <= predicate p < 2 ^ 17)%Z;
  po_dir : direction p ≠ CORUN
}.

(** the neighbours that the pattern looks up *)
Definition nbrs (p : Pattern) (v : sid_t) : list sid_t := edge_list v (direction p) (predicate p).

Lemma get_nbrs p v : pattern_ok p → is_sid v →
  get_edges_global v (direction p) (u32 (predicate p)) = Ok (nbrs p v).
Proof. intros [Hp Hd] Hv. rewrite u32_id by lia. by apply edge_list_ok. Qed.

(** The cache holds the neighbours of its vertex. *)
Definition cache_ok (p : Pattern) (c : cache) : Prop := c.2 = nbrs p c.1.

Lemma cache_init p : cache_ok p (BLANK_ID, []).
Proof. unfold cache_ok, nbrs. simpl. by rewrite edge_list_blank. Qed.

Lemma lookup_cached_ok p c cur :
  pattern_ok p → cache_ok p c → is_sid cur →
  lookup_cached c cur (direction p) (u32 (predicate p)) = Ok (cur, nbrs p cur).
Proof.
  intros Hp Hc Hcur. unfold lookup_cached. destruct (Z.eqb_spec cur c.1) as [->|_].
  - unfold cache_ok in Hc. rewrite <-Hc. by destruct c.
  - by rewrite get_nbrs.
Qed.

(** ** [known_to_unknown] is a join *)

Definition join (p : Pattern) (c : nat) (rows : list (list sid_t)) : list (list sid_t) :=
  rows ≫= λ row, (λ x, row ++ [x]) <$> nbrs p (cell row c).

Lemma emit_edges r rows i row t ats es :
  res_rows r rows → attr_col_num r = 0 → rows !! i = Some row →
  foldM (λ '(t, ats) x,
    t ← append_row_to r i t;
    ats ← (if global_enable_vattr then append_attr_row_to r i ats else Ok ats);
    Ok (t ++ [x], ats)) (t, ats) es = Ok (t ++ concat ((λ x, row ++ [x]) <$> es), ats).
Proof.
  intros Hr Ha Hi. revert t. induction es as [|x es IH]; intros t; simpl.
  { by rewrite app_nil_r. }
  rewrite (append_row_to_rows r rows i row) by done. simpl.
  replace (if global_enable_vattr then append_attr_row_to r i ats else Ok ats) with (Ok ats)
    by (rewrite append_no_attrs by done; by destruct global_enable_vattr). simpl.
  rewrite IH. by rewrite <-!app_assoc.
Qed.

Definition join_row (p : Pattern) (c : nat) (st : tables * cache) (row : list sid_t) : tables * cache :=
  let '((t, ms, ats), _) := st in
  let cur := cell row c in
  ((t ++ concat ((λ x, row ++ [x]) <$> nbrs p cur), ms, ats), (cur, nbrs p cur)).

Lemma foldl_join_row p c st rows :
  (foldl (join_row p c) st rows).1 = ((st.1.1.1 ++ concat (join p c rows), st.1.1.2), st.1.2).
Proof.
  revert st. induction rows as [|row rows IH]; intros [[[t ms] ats] ch]; simpl.
  { by rewrite app_nil_r. }
  rewrite IH. simpl. rewrite concat_app. by rewrite <-app_assoc.
Qed.

Lemma known_to_unknown_rows q p rows c r' :
  get_pattern q = Ok p → pattern_ok p → pg_type q ≠ OPTIONAL →
  res_rows (result q) rows → attr_col_num (result q) = 0 → attr_res_table (result q) = [] →
  Forall (Forall is_sid) rows → bound (result q) (subject p) c →
  add_var2col (set_table (concat (join p c rows)) (result q)) (object p) (col_num (result q)) SID_t = Ok r' →
  known_to_unknown q = Ok (next_step (set_result (set_col_num (S (col_num r')) r') q)).
Proof.
  intros Hp Hpo Hpg Hr Ha Hat Hs Hb Hadd. unfold known_to_unknown. rewrite Hp. simpl.
  assert (Hopt : is_optional q = false) by by apply bool_decide_eq_false_2.
  rewrite (get_row_num_rows _ rows) by done.
  destruct (foldM_rows (λ st : tables * cache, cache_ok p st.2) (extend_row q p) (join_row p c)
    rows ([], [], [], (BLANK_ID, []))) as [-> _].
  - apply cache_init.
  - intros i row [[[t ms] ats] ch] Hch Hi. simpl in *.
    assert (Forall is_sid row) as Hrs by by eapply Forall_lookup_1 in Hi.
    rewrite (row_var_rows (result q) rows i row (subject p) c) by done. simpl. rewrite Hopt. simpl.
    rewrite lookup_cached_ok by (done || by apply cell_sid). simpl.
    rewrite (emit_edges (result q) rows i row) by done. done.
  - pose proof (foldl_join_row p c ([], [], [], (BLANK_ID, [])) rows) as E. simpl.
    destruct (foldl _ _ _) as [[[t ms] ats] ch]. simpl in *. injection E as -> -> ->.
    rewrite Hopt.
    replace (if global_enable_vattr then set_attr_table [] (set_table (concat (join p c rows)) (result q))
             else set_table (concat (join p c rows)) (result q))
      with (set_table (concat (join p c rows)) (result q))
      by (destruct global_enable_vattr; [|done]; unfold set_attr_table, set_table; simpl; by rewrite Hat).
    cbn [col_num set_table]. rewrite Hadd. done.
Qed.

(** ** The pruning steps are filters *)

Section prune.
  Context (q : SPARQLQuery) (p : Pattern) (rows : list (list sid_t)).
  Hypothesis Hpo : pattern_ok p.
  Hypothesis Hpg : pg_type q ≠ OPTIONAL.
  Hypothesis Hr : res_rows (result q) rows.
  Hypothesis Ha : attr_col_num (result q) = 0.
  Hypothesis Hat : attr_res_table (result q) = [].
  Hypothesis Hs : Forall (Forall is_sid) rows.

Lemma not_optional : is_optional q = false.
Proof. by apply bool_decide_eq_false_2. Qed.

Lemma keep_row_rows i row ts :
  rows !! i = Some row → keep_row q i ts = Ok (ts.1 ++ row, ts.2).
Proof.
  intros Hi. unfold keep_row. rewrite (append_row_to_rows (result q) rows i row) by done. simpl.
  by replace (if global_enable_vattr then append_attr_row_to (result q) i ts.2 else Ok ts.2) with (Ok ts.2)
    by (rewrite append_no_attrs by done; by destruct global_enable_vattr).
Qed.

(** the table of a filter *)
Definition keep_rows (P : list sid_t → Prop) `{∀ row, Decision (P row)} : SPARQLQuery :=
  set_result (set_table (concat (filter P rows)) (result q)) q.

Lemma swap_tables_keep t : swap_tables q (t, []) = set_result (set_table t (result q)) q.
Proof.
  unfold swap_tables. rewrite not_optional. simpl. destruct global_enable_vattr; [|done].
  unfold set_attr_table, set_table. simpl. by rewrite Hat.
Qed.

Definition prune_row (P : list sid_t → Prop) `{∀ row, Decision (P row)} (c : nat)
    (st : prune_state) (row : list sid_t) : prune_state :=
  let '(q, ts, _) := st in
  (q, if decide (P row) then (ts.1 ++ row, ts.2) else ts, (cell row c, nbrs p (cell row c))).

Lemma foldl_prune_row (P : list sid_t → Prop) `{∀ row, Decision (P row)} c t ch l :
  (foldl (prune_row P c) (q, (t, []), ch) l).1 = (q, (t ++ concat (filter P l), [])).
Proof.
  revert t ch. induction l as [|row l IH]; intros t ch; simpl; [by rewrite app_nil_r|].
  rewrite filter_cons. destruct (decide (P row)); rewrite IH; [|done].
  simpl. by rewrite <-app_assoc.
Qed.

Lemma known_to_known_rows c c' :
  get_pattern q = Ok p → bound (result q) (subject p) c → bound (result q) (object p) c' →
  known_to_known q = Ok (next_step (keep_rows (λ row, cell row c' ∈ nbrs p (cell row c)))).
Proof.
  intros Hp Hb Hb'. unfold known_to_known. rewrite Hp. simpl. rewrite (get_row_num_rows _ rows) by done.
  destruct (foldM_rows (λ st : prune_state, st.1.1 = q ∧ cache_ok p st.2) (known_row p)
    (prune_row (λ row, cell row c' ∈ nbrs p (cell row c)) c) rows (q, ([], []), (BLANK_ID, []))) as [-> _].
  - split; [done|apply cache_init].
  - intros i row [[q' ts] ch] [Hq Hch] Hi. simpl in *. subst q'.
    assert (Forall is_sid row) as Hrs by by eapply Forall_lookup_1 in Hi.
    rewrite (row_var_rows (result q) rows i row (subject p) c) by done. simpl.
    rewrite lookup_cached_ok by (done || by apply cell_sid). simpl.
    rewrite (row_var_rows (result q) rows i row (object p) c') by done. simpl.
    rewrite not_optional. case_bool_decide; [|by rewrite decide_False].
    rewrite (keep_row_rows i row) by done. simpl. by rewrite decide_True.
  - pose proof (foldl_prune_row (λ row, cell row c' ∈ nbrs p (cell row c)) c [] (BLANK_ID, []) rows) as E.
    simpl. destruct (foldl _ _ _) as [[q' ts] ch]. simpl in E. injection E as -> ->. simpl.
    by rewrite swap_tables_keep.
Qed.

Definition const_prune_row (P : list sid_t → Prop) `{∀ row, Decision (P row)} (c : nat)
    (st : prune_state * bool) (row : list sid_t) : prune_state * bool :=
  (prune_row P c st.1 row, bool_decide (P row)).

Lemma foldl_const_prune_row (P : list sid_t → Prop) `{∀ row, Decision (P row)} c st b l :
  (foldl (const_prune_row P c) (st, b) l).1 = foldl (prune_row P c) st l.
Proof. revert st b. induction l as [|row l IH]; intros st b; [done|]. cbn [foldl]. apply IH. Qed.

Lemma known_to_const_rows c :
  get_pattern q = Ok p → bound (result q) (subject p) c →
  known_to_const q = Ok (next_step (keep_rows (λ row, u32 (object p) ∈ nbrs p (cell row c)))).
Proof.
  intros Hp Hb. unfold known_to_const. rewrite Hp. simpl. rewrite (get_row_num_rows _ rows) by done.
  set (P := λ row, u32 (object p) ∈ nbrs p (cell row c)).
  destruct (foldM_rows (λ st : prune_state * bool, st.1.1.1 = q ∧ cache_ok p st.1.2 ∧
      st.2 = bool_decide (u32 (object p) ∈ st.1.2.2)) (const_row p)
    (const_prune_row P c) rows ((q, ([], []), (BLANK_ID, [])), false)) as [-> _].
  - split_and!; [done|apply cache_init|done].
  - intros i row [[[q' ts] ch] b] (Hq & Hch & Hb2) Hi. simpl in *. subst q'.
    assert (Forall is_sid row) as Hrs by by eapply Forall_lookup_1 in Hi.
    rewrite (row_var_rows (result q) rows i row (subject p) c) by done. simpl.
    assert ((if negb (cell row c =? ch.1)%Z then
        e ← get_edges_global (cell row c) (direction p) (u32 (predicate p));
        Ok (cell row c, e, bool_decide (u32 (object p) ∈ e)) else Ok (ch, b))
      = Ok ((cell row c, nbrs p (cell row c)), bool_decide (P row))) as ->.
    { destruct (Z.eqb_spec (cell row c) ch.1) as [E|_]; simpl.
      - unfold cache_ok in Hch. destruct ch as [x es]. simpl in *. subst x es b. done.
      - by rewrite get_nbrs by (done || by apply cell_sid). }
    cbn [mbind outcome_bind]. rewrite not_optional. unfold const_prune_row, prune_row. cbn [fst snd].
    destruct (decide (P row)) as [HP|HP].
    + rewrite (bool_decide_eq_true_2 (P row) HP), (keep_row_rows i row) by done.
      split; [done|]. split_and!; [done..|]. symmetry. by apply bool_decide_eq_true_2.
    + rewrite (bool_decide_eq_false_2 (P row) HP).
      split; [done|]. split_and!; [done..|]. symmetry. by apply bool_decide_eq_false_2.
  - pose proof (foldl_prune_row P c [] (BLANK_ID, []) rows) as E.
    rewrite <-(foldl_const_prune_row P c _ false) in E.
    simpl. destruct (foldl _ _ _) as [[[q' ts] ch] b]. simpl in E. injection E as -> ->. simpl.
    by rewrite swap_tables_keep.
Qed.

Lemma match_rows_keep c set : c < col_num (result q) →
  match_rows q c set = Ok (keep_rows (λ row, cell row c ∈ set)).
Proof.
  intros Hc. unfold match_rows. rewrite not_optional, (get_row_num_rows _ rows) by done.
  set (P := λ row, cell row c ∈ set).
  destruct (foldM_rows (λ _ : list sid_t, True) (λ t i, x ← get_row_col (result q) i c;
     if bool_decide (x ∈ set) then append_row_to (result q) i t else Ok t)
    (λ t row, if decide (P row) then t ++ row else t) rows []) as [-> _]; [done| |].
  - intros i row t _ Hi. split; [|done]. rewrite (get_row_col_rows (result q) rows i row) by done.
    pose proof (proj1 (Forall_lookup _ _) (rr_grid _ _ Hr) _ _ Hi) as Hl. simpl in Hl.
    unfold read. destruct (row !! c) as [x|] eqn:Ex; [|apply lookup_ge_None in Ex; lia]. simpl.
    unfold P, cell. rewrite Ex. simpl. case_bool_decide; [|by rewrite decide_False].
    rewrite decide_True by done. by apply (append_row_to_rows (result q) rows).
  - assert (∀ l t, foldl (λ t row, if decide (P row) then t ++ row else t) t l = t ++ concat (filter P l)) as E.
    { induction l as [|row l IH]; intros t; simpl; [by rewrite app_nil_r|]. rewrite IH, filter_cons.
      destruct (decide (P row)); [|done]. simpl. by rewrite <-app_assoc. }
    rewrite E. done.
Qed.
End prune.
End specs.
