(* ===== verification/Exec.v ===== *)
(** [core/engine.hpp], the control of a query on an engine: the dispatch on the
    shape of a pattern, fork-join execution, the co-run optimisation and the
    replies. *)

From S2P Require Import Prelude Types MyMath Tuple Keys Coder Query Engine.
Local Open Scope nat_scope.

(** ** One pattern *)

Section one_pattern.
  Context (versatile : bool) `{Config} `{Graph}.

Definition execute_one_pattern (q : SPARQLQuery) : outcome SPARQLQuery :=
  d ← done q SQ_PATTERN;
  ASSERT (negb d);
  p ← get_pattern q;
  index ← (if pattern_step q =? 0 then start_from_index q else Ok false);
  if index : bool then
    c ← var2col (result q) (object p);
    if negb (c =? NO_RESULT)%Z then index_to_known q else index_to_unknown q
  else
  tp ← variable_type (result q) (predicate p);
  if bool_decide (tp ≠ const_var) then
    (* triple pattern with UNKNOWN predicate/attribute *)
    if versatile then
      ASSERT (negb global_enable_vattr);
      s ← variable_type (result q) (subject p);
      o ← variable_type (result q) (object p);
      match s, o with
      | const_var, unknown_var => const_unknown_unknown q
      | const_var, const_var => const_unknown_const q
      | known_var, unknown_var => known_unknown_unknown q
      | known_var, const_var => known_unknown_const q
      | _, _ => Err AssertFail (* unsupported triple pattern *)
      end
    else Err AssertFail (* unsupported variable at predicate *)
  else if global_enable_vattr && (0 <? pred_type p)%Z then
    (* triple pattern with attribute *)
    s ← variable_type (result q) (subject p);
    o ← variable_type (result q) (object p);
    match s, o with
    | const_var, unknown_var => const_to_unknown_attr q
    | known_var, unknown_var => known_to_unknown_attr q
    | _, _ => Err AssertFail
    end
  else
    (* triple pattern with KNOWN predicate *)
    s ← variable_type (result q) (subject p);
    o ← variable_type (result q) (object p);
    match s, o with
    | const_var, known_var => const_to_known q
    | const_var, unknown_var => const_to_unknown q
    | known_var, const_var => known_to_const q
    | known_var, known_var => known_to_known q
    | known_var, unknown_var => known_to_unknown q
    | _, _ => Err AssertFail (* unsupported triple pattern *)
    end.

  (** [while (true) { execute_one_pattern(r); if (r.done(SQ_PATTERN)) break; }] *)
Fixpoint run_patterns (fuel : nat) (q : SPARQLQuery) : outcome SPARQLQuery :=
  match fuel with
  | O => Err OutOfFuel
  | S fuel =>
      q ← execute_one_pattern q;
      d ← done q SQ_PATTERN;
      if d : bool then Ok q else run_patterns fuel q
  end.

  (** ** Fork-join *)

Definition sub_query (q : SPARQLQuery) (start : ssid_t) : SPARQLQuery :=
  let r := result q in
  MkQuery (-1) (q_id q) 0 (if bool_decide (pg_type q = UNION) then BASIC else pg_type q)
    SQ_PATTERN 1 (i32 (priority q + 1)) (pattern_step q) start false (corun_step q) (fetch_step q)
    false 0 (-1) 0 false (pattern_group q) []
    (MkResult (col_num r) 0 (attr_col_num r) (blind r) (nvars r) (v2c_map r) [] [] [] []).

  (** the row [i] goes to the server of its start vertex *)
Definition group_row (q : SPARQLQuery) (start : ssid_t) (subs : list SPARQLQuery) (i : nat)
    : outcome (list SPARQLQuery) :=
  v ← row_var (result q) i start;
  dst_sid ← hash_mod v global_num_servers;
  sub ← read subs (Z.to_nat dst_sid);
  t ← append_row_to (result q) i (result_table (result sub));
  let r := set_table t (result sub) in
  r ← (if is_optional q then
         m ← read (optional_matched_rows (result q)) i;
         Ok (set_matched (optional_matched_rows r ++ [m]) r)
       else Ok r);
  ats ← append_attr_row_to (result q) i (attr_res_table r);
  write subs (Z.to_nat dst_sid) (set_result (set_attr_table ats r) sub).

Definition generate_sub_query (q : SPARQLQuery) : outcome (list SPARQLQuery) :=
  p ← get_pattern q;
  foldM (group_row q (subject p)) (replicate (Z.to_nat global_num_servers) (sub_query q (subject p)))
    (seq 0 (get_row_num (result q))).

Definition need_fork_join (q : SPARQLQuery) : outcome bool :=
  if (global_num_servers =? 1)%Z then Ok false
  else if negb global_use_rdma then Ok true
  else
    p ← get_pattern q;
    t ← variable_type (result q) (subject p);
    ASSERT (bool_decide (t = known_var));
    Ok (global_rdma_threshold <=? Z.of_nat (get_row_num (result q)))%Z.

  (** ** Co-run *)

  (** the iteration order of a [boost::unordered_set] *)
Context (uset_iter : gset sid_t → list sid_t).

  (** the renaming of pattern variables in step 2: [sub_pvars] and [pvars_map] *)
Definition remap (r : Result) (st : gmap ssid_t ssid_t * list nat) (id : ssid_t)
    : outcome (ssid_t * (gmap ssid_t ssid_t * list nat)) :=
  let '(sub_pvars, pvars_map) := st in
  if (id <? 0)%Z then
    match sub_pvars !! id with
    | Some new_id => Ok (new_id, st)
    | None =>
        let new_id := (- (Z.of_nat (size sub_pvars) + 1))%Z in
        c ← var2col r id;
        Ok (new_id, (<[id := new_id]> sub_pvars, pvars_map ++ [Z.to_nat c]))
    end
  else Ok (id, st).

Definition corun_pattern (q : SPARQLQuery)
    (st : list Pattern * (gmap ssid_t ssid_t * list nat)) (i : nat)
    : outcome (list Pattern * (gmap ssid_t ssid_t * list nat)) :=
  let '(ps, vars) := st in
  p ← get_pattern_at q i;
  '(s, vars) ← remap (result q) vars (subject p);
  '(pr, vars) ← remap (result q) vars (predicate p);
  '(o, vars) ← remap (result q) vars (object p);
  Ok (ps ++ [MkPattern s pr o (direction p) 0], vars).

  (** [tmp_vec.resize(n); for (c) tmp_vec[c] = get_row_col(i, pvars_map[c])] *)
Definition row_tuple (r : Result) (i n : nat) (pvars_map : list nat) : outcome (list sid_t) :=
  foldM (λ v ck, x ← get_row_col r i ck.2; write v ck.1 x) (replicate n 0%Z) (imap pair pvars_map).

Definition do_corun (q : SPARQLQuery) : outcome SPARQLQuery :=
  let r := result q in
  (* step.1 remove dup *)
  p ← get_pattern_at q (corun_step q);
  ASSERT (subject p <? 0)%Z;
  col_idx ← var2col r (subject p);
  xs ← foldM (λ s i, x ← get_row_col r i (Z.to_nat col_idx); Ok ({[x]} ∪ s : gset sid_t)) ∅ (seq 0 (get_row_num r));
  (* step.2 generate cmd_chain for sub-reqs *)
  '(ps, (sub_pvars, pvars_map)) ← foldM (corun_pattern q) ([], (∅, []))
       (seq (corun_step q) (fetch_step q - corun_step q));
  (* step.3 make sub-req *)
  let sub := MkResult 1 0 0 false (length pvars_map) [] [] (uset_iter xs) [] [] in
  sub ← add_var2col sub (default 0%Z (sub_pvars !! subject p)) 0 SID_t;
  let sub_req := set_result sub (set_group (MkGroup false ps [] [] [] ∅) new_query) in
  (* step.4 execute sub-req *)
  sub_req ← run_patterns (S (length ps)) sub_req;
  let sub := result sub_req in
  t ← (if 2 <? col_num sub then
         sorted ← qsort_tuple (col_num sub) (result_table sub);
         foldM (λ t i,
           tmp ← row_tuple r i (col_num sub) pvars_map;
           b ← binary_search_tuple (col_num sub) sorted tmp;
           if b : bool then append_row_to r i t else Ok t) [] (seq 0 (get_row_num r))
       else
         pairs ← foldM (λ s i, a ← get_row_col sub i 0; b ← get_row_col sub i 1; Ok (s ++ [(a, b)])) []
                   (seq 0 (get_row_num sub));
         foldM (λ t i,
           tmp ← row_tuple r i (col_num sub) pvars_map;
           a ← read tmp 0; b ← read tmp 1;
           if bool_decide ((a, b) ∈ pairs) then append_row_to r i t else Ok t) [] (seq 0 (get_row_num r)));
  Ok (set_pattern_step (fetch_step q) (set_result (set_table t r) q)).
End one_pattern.
