(* ===== verification/Regex.v ===== *)
(** The part of [std::regex] that the FILTER functions of [core/engine.hpp] use:
    [regex_match] of a whole string against a pattern, by derivatives, with its
    correctness; and the two fixed patterns of [is_IRI_filter] and
    [is_literal_filter]. *)

From Stdlib Require Import Ascii.
From S2P Require Import Prelude.
Local Open Scope nat_scope.

(** a pattern; a character class is a predicate on characters *)
Inductive regex :=
| RNone
| REps
| RChar (f : ascii → bool)
| RSeq (a b : regex)
| RAlt (a b : regex)
| RStar (a : regex).

Definition RPlus (a : regex) : regex := RSeq a (RStar a).
Definition ROpt (a : regex) : regex := RAlt REps a.

(** the language of a pattern *)
Inductive matches : regex → list ascii → Prop :=
| m_eps : matches REps []
| m_char f c : f c = true → matches (RChar f) [c]
| m_seq a b s t : matches a s → matches b t → matches (RSeq a b) (s ++ t)
| m_alt_l a b s : matches a s → matches (RAlt a b) s
| m_alt_r a b s : matches b s → matches (RAlt a b) s
| m_star_nil a : matches (RStar a) []
| m_star_cons a s t : matches a s → matches (RStar a) t → matches (RStar a) (s ++ t).

Fixpoint nullable (r : regex) : bool :=
  match r with
  | RNone | RChar _ => false
  | REps | RStar _ => true
  | RSeq a b => nullable a && nullable b
  | RAlt a b => nullable a || nullable b
  end.

Fixpoint deriv (c : ascii) (r : regex) : regex :=
  match r with
  | RNone | REps => RNone
  | RChar f => if f c then REps else RNone
  | RSeq a b => if nullable a then RAlt (RSeq (deriv c a) b) (deriv c b) else RSeq (deriv c a) b
  | RAlt a b => RAlt (deriv c a) (deriv c b)
  | RStar a => RSeq (deriv c a) (RStar a)
  end.

Definition regex_match (s : list ascii) (r : regex) : bool := nullable (foldl (λ r c, deriv c r) r s).

Lemma nullable_spec r : nullable r = true ↔ matches r [].
Proof.
  induction r as [| |f|a IHa b IHb|a IHa b IHb|a IHa]; simpl.
  - split; [done|inversion 1].
  - split; [constructor|done].
  - split; [done|inversion 1].
  - rewrite andb_true_iff, IHa, IHb. split.
    + intros [Ha Hb]. by apply (m_seq a b [] []).
    + inversion 1 as [| |x y s t Hs Ht Hst E| | | |]; subst. by apply app_nil in E as [-> ->].
  - rewrite orb_true_iff, IHa, IHb. split.
    + intros [?|?]; [by apply m_alt_l|by apply m_alt_r].
    + inversion 1; subst; auto.
  - split; [constructor|done].
Qed.

(** a nonempty word of a star starts with a nonempty word of its body *)
Lemma star_cons a c s : matches (RStar a) (c :: s) →
  ∃ s1 s2, s = s1 ++ s2 ∧ matches a (c :: s1) ∧ matches (RStar a) s2.
Proof.
  remember (RStar a) as r eqn:Er. remember (c :: s) as w eqn:Ew. intros Hm. revert c s Ew.
  induction Hm as [| | | | | |a' s1 s2 H1 _ H2 IH]; intros c0 s0 Ew; simplify_eq.
  destruct s1 as [|c' s1]; simpl in *; [by eapply IH|]. simplify_eq. by exists s1, s2.
Qed.

Lemma deriv_spec r c s : matches (deriv c r) s ↔ matches r (c :: s).
Proof.
  revert s. induction r as [| |f|a IHa b IHb|a IHa b IHb|a IHa]; intros s; simpl.
  - split; inversion 1.
  - split; inversion 1.
  - destruct (f c) eqn:E; split; inversion 1; subst; [by constructor|constructor|congruence].
  - assert (Hseq : matches (RSeq (deriv c a) b) s ↔ ∃ s1 s2, s = s1 ++ s2 ∧ matches a (c :: s1) ∧ matches b s2).
    { split.
      - inversion 1 as [| |x y s1 s2 H1 H2| | | |]; subst. exists s1, s2. by rewrite <-IHa.
      - intros (s1 & s2 & -> & H1 & H2). apply m_seq; [by apply IHa|done]. }
    assert (Hcons : matches (RSeq a b) (c :: s) ↔
      matches a [] ∧ matches b (c :: s) ∨ ∃ s1 s2, s = s1 ++ s2 ∧ matches a (c :: s1) ∧ matches b s2).
    { split.
      - inversion 1 as [| |x y s1 s2 H1 H2 E Ew| | | |]; subst. destruct s1 as [|c' s1]; simpl in Ew; simplify_eq; [by left|].
        right. by exists s1, s2.
      - intros [[Ha Hb]|(s1 & s2 & -> & H1 & H2)]; [by apply (m_seq a b [])|]. by apply (m_seq a b (c :: s1)). }
    rewrite Hcons. destruct (nullable a) eqn:En.
    + apply nullable_spec in En. split.
      * inversion 1; subst; [right; by apply Hseq|left; by rewrite <-IHb].
      * intros [[_ Hb]|Hs]; [apply m_alt_r; by apply IHb|apply m_alt_l; by apply Hseq].
    + rewrite Hseq. split; [by right|]. intros [[Ha _]|?]; [|done].
      apply nullable_spec in Ha. congruence.
  - split.
    + inversion 1; subst; [apply m_alt_l; by apply IHa|apply m_alt_r; by apply IHb].
    + inversion 1; subst; [apply m_alt_l; by apply IHa|apply m_alt_r; by apply IHb].
  - split.
    + inversion 1 as [| |x y s1 s2 H1 H2| | | |]; subst. apply (m_star_cons a (c :: s1)); [by apply IHa|done].
    + intros (s1 & s2 & -> & H1 & H2)%star_cons. apply m_seq; [by apply IHa|done].
Qed.

Lemma regex_match_spec s r : regex_match s r = true ↔ matches r s.
Proof.
  unfold regex_match. revert r. induction s as [|c s IH]; intros r; simpl; [apply nullable_spec|].
  by rewrite IH, deriv_spec.
Qed.

(** ** Characters *)

Definition code (c : ascii) : nat := nat_of_ascii c.
Definition chr (n : nat) : regex := RChar (λ c, code c =? n).
Definition none_of (l : list nat) : regex := RChar (λ c, negb (bool_decide (code c ∈ l))).
Definition one_of (l : list nat) : regex := RChar (λ c, bool_decide (code c ∈ l)).
Definition range (a b : nat) (c : ascii) : bool := (a <=? code c) && (code c <=? b).
(** any character but a line terminator *)
Definition dot : regex := none_of [10; 13].
Definition RAlts (l : list regex) : regex := foldr RAlt RNone l.
Definition RSeqs (l : list regex) : regex := foldr RSeq REps l.

(** ** The patterns of the engine *)

(** angle brackets around anything but brackets, quotes, braces, bar, caret,
    backquote and backslash *)
Definition IRI_REF : regex := RSeqs [chr 60; RStar (none_of [60; 62; 92; 34; 123; 125; 124; 94; 96]); chr 62].
(** anything with a colon *)
Definition prefixed_name : regex := RSeqs [RStar dot; chr 58; RStar dot].
Definition IRI_pattern : regex := RAlt IRI_REF prefixed_name.

Definition alpha : ascii → bool := λ c, range 97 122 c || range 65 90 c.
Definition alnum : ascii → bool := λ c, alpha c || range 48 57 c.
Definition langtag_pattern : regex :=
  RSeqs [chr 64; RPlus (RChar alpha); RStar (RSeqs [chr 45; RPlus (RChar alnum)])].

(** a backslash and one of: t b n r f, quote, apostrophe *)
Definition escape : regex := RSeq (chr 92) (one_of [116; 98; 110; 114; 102; 34; 39]).
(** a literal between two quotes [q] on one line *)
Definition literal_short (q : nat) : regex :=
  RSeqs [chr q; RStar (RAlt (none_of [q; 92; 10; 13]) escape); chr q].
(** a literal between two triples of quotes [q] *)
Definition literal_long (q : nat) : regex :=
  RSeqs [chr q; chr q; chr q;
         RStar (RSeq (ROpt (RAlt (chr q) (RSeq (chr q) (chr q)))) (RAlt (none_of [q; 92]) escape));
         chr q; chr q; chr q].
Definition literal_pattern : regex :=
  RAlts [literal_short 39; literal_short 34; literal_long 39; literal_long 34].
Definition RDFLiteral_pattern : regex :=
  RSeq literal_pattern (ROpt (RAlt langtag_pattern (RSeqs [chr 94; chr 94; IRI_pattern]))).
