(* ===== verification/StringServer.v ===== *)
(** [core/string_server.hpp]: the mapping between strings and string ids, loaded
    from the files [str_index], [str_normal] and [str_attr_index]. Reading a
    directory and parsing its lines is I/O: a file is given as its records. *)

From stdpp Require Import strings.
From S2P Require Import Prelude Types.
Local Open Scope nat_scope.

Record String_Server := MkStrings {
  str2id : gmap string sid_t;
  id2str : gmap sid_t string;
  pid2type : gmap sid_t Z;   (* sid=0, integer=1, float=2, double=3 *)
  next_index_id : Z;
  next_normal_id : Z
}.

Definition empty_strings : String_Server := MkStrings ∅ ∅ ∅ 0 0.

Definition exist (s : String_Server) (id : sid_t) : bool := bool_decide (is_Some (id2str s !! id)).
Definition exist_str (s : String_Server) (str : string) : bool := bool_decide (is_Some (str2id s !! str)).

Inductive id_file :=
| StrIndex (l : list (string * sid_t))
| StrNormal (l : list (string * sid_t))
| StrAttr (l : list (string * sid_t * Z)).

Definition add_string (s : String_Server) (str : string) (id : sid_t) : String_Server :=
  MkStrings (<[str := id]> (str2id s)) (<[id := str]> (id2str s)) (pid2type s)
    (next_index_id s) (next_normal_id s).
Definition set_pid2type (s : String_Server) (id : sid_t) (type : Z) : String_Server :=
  MkStrings (str2id s) (id2str s) (<[id := type]> (pid2type s)) (next_index_id s) (next_normal_id s).

(** [++id]: one more than the id of the last line; of an empty file [id] was never
    assigned *)
Definition next_id (l : list (string * sid_t)) : outcome Z :=
  match last l with Some (_, id) => Ok (u32 (id + 1)) | None => Err Undefined end.

Definition load_file (s : String_Server) (f : id_file) : outcome String_Server :=
  match f with
  | StrIndex l =>
      let s := foldl (λ s '(str, id), set_pid2type (add_string s str id) id SID_t) s l in
      id ← next_id l;
      Ok (MkStrings (str2id s) (id2str s) (pid2type s) id (next_normal_id s))
  | StrNormal l =>
      let s := foldl (λ s '(str, id), add_string s str id) s l in
      id ← next_id l;
      Ok (MkStrings (str2id s) (id2str s) (pid2type s) (next_index_id s) id)
  | StrAttr l => Ok (foldl (λ s '(str, id, type), set_pid2type (add_string s str id) id type) s l)
  end.

Definition load_strings (files : list id_file) : outcome String_Server := foldM load_file empty_strings files.

(** ** The two maps are inverse *)

Definition entries (f : id_file) : list (string * sid_t) :=
  match f with StrIndex l | StrNormal l => l | StrAttr l => (λ '(str, id, _), (str, id)) <$> l end.

(** the lines [l] have been loaded *)
Record mapped (s : String_Server) (l : list (string * sid_t)) : Prop := {
  mp_id str id : str2id s !! str = Some id ↔ (str, id) ∈ l;
  mp_str str id : id2str s !! id = Some str ↔ (str, id) ∈ l
}.

Lemma mapped_add s l str id : mapped s l → str ∉ l.*1 → id ∉ l.*2 → mapped (add_string s str id) (l ++ [(str, id)]).
Proof.
  intros [H1 H2] Hs Hi. split; intros str' id'; simpl; rewrite elem_of_app, list_elem_of_singleton.
  - destruct (decide (str = str')) as [<-|].
    + rewrite lookup_insert_eq. split; [by intros [= <-]; right|]. intros [Hin|E]; [|by simplify_eq].
      destruct Hs. by apply (list_elem_of_fmap_2 fst) in Hin.
    + rewrite lookup_insert_ne by done. rewrite H1. split; [by left|]. intros [?|E]; [done|by simplify_eq].
  - destruct (decide (id = id')) as [<-|].
    + rewrite lookup_insert_eq. split; [by intros [= <-]; right|]. intros [Hin|E]; [|by simplify_eq].
      destruct Hi. by apply (list_elem_of_fmap_2 snd) in Hin.
    + rewrite lookup_insert_ne by done. rewrite H2. split; [by left|]. intros [?|E]; [done|by simplify_eq].
Qed.

(** what a file load does to the two maps *)
Lemma load_file_maps s f s' : load_file s f = Ok s' →
  let t := foldl (λ s '(str, id), add_string s str id) s (entries f) in
  str2id s' = str2id t ∧ id2str s' = id2str t.
Proof.
  assert (Hproj : ∀ {A} (step : String_Server → A → String_Server) (e : A → string * sid_t),
    (∀ s a, str2id (step s a) = <[(e a).1 := (e a).2]> (str2id s) ∧ id2str (step s a) = <[(e a).2 := (e a).1]> (id2str s)) →
    ∀ l s s0, str2id s = str2id s0 → id2str s = id2str s0 →
      let t := foldl (λ s '(str, id), add_string s str id) s0 (e <$> l) in
      str2id (foldl step s l) = str2id t ∧ id2str (foldl step s l) = id2str t).
  { intros A step e Hst. induction l as [|a l IH]; intros s1 s0 E1 E2; [done|]. simpl.
    destruct (Hst s1 a) as [P Q]. apply IH; destruct (e a); simpl in *; congruence. }
  destruct f as [l|l|l]; simpl; intros E.
  - apply bind_Ok in E as (i & _ & [= <-]). simpl.
    pose proof (Hproj _ (λ s '(str, id), set_pid2type (add_string s str id) id SID_t) id) as Hl.
    rewrite <-(list_fmap_id l) at 2 4. by apply Hl; [intros ? [? ?]|..].
  - by apply bind_Ok in E as (i & _ & [= <-]).
  - injection E as <-. by apply (Hproj _ _ (λ '(str, id, _), (str, id))); [intros ? [[? ?] ?]|..].
Qed.

Lemma add_strings_mapped l s l0 :
  mapped s l0 → NoDup ((l0 ++ l).*1) → NoDup ((l0 ++ l).*2) →
  mapped (foldl (λ s '(str, id), add_string s str id) s l) (l0 ++ l).
Proof.
  revert s l0. induction l as [|[str id] l IH]; intros s l0 Hm H1 H2; [by rewrite app_nil_r|].
  rewrite cons_middle, app_assoc in H1, H2 |- *. simpl. apply IH; [|done|done].
  rewrite fmap_app in H1. rewrite fmap_app in H2. apply NoDup_app in H1 as (H1 & _ & _). apply NoDup_app in H2 as (H2 & _ & _).
  rewrite fmap_app in H1. rewrite fmap_app in H2. apply NoDup_app in H1 as (_ & H1 & _). apply NoDup_app in H2 as (_ & H2 & _).
  apply mapped_add; [done|..]; intros Hin; [apply (H1 _ Hin)|apply (H2 _ Hin)]; by left.
Qed.

Lemma mapped_proper s s' l : str2id s = str2id s' → id2str s = id2str s' → mapped s l → mapped s' l.
Proof. intros E1 E2 [H1 H2]. split; [by rewrite <-E1|by rewrite <-E2]. Qed.

Lemma load_files_mapped files s l0 s' :
  mapped s l0 → NoDup ((l0 ++ (files ≫= entries)).*1) → NoDup ((l0 ++ (files ≫= entries)).*2) →
  foldM load_file s files = Ok s' → mapped s' (l0 ++ (files ≫= entries)).
Proof.
  revert s l0. induction files as [|f files IH]; intros s l0 Hm H1 H2; simpl.
  { intros [= <-]. by rewrite app_nil_r. }
  intros (s1 & E1 & E2)%bind_Ok. simpl in *. rewrite app_assoc in H1, H2 |- *.
  apply (IH s1); [|done..]. destruct (load_file_maps s f s1 E1) as [P Q].
  eapply mapped_proper; [symmetry; exact P|symmetry; exact Q|]. apply add_strings_mapped; [done|..].
  - rewrite fmap_app in H1. by apply NoDup_app in H1 as (? & _ & _).
  - rewrite fmap_app in H2. by apply NoDup_app in H2 as (? & _ & _).
Qed.

(** with unique strings and unique ids over all files, the two maps that loading
    builds are inverse to each other and hold exactly the lines of the files; so
    translating an id to its string and back gives the id. *)
Theorem string_server_roundtrip files s :
  load_strings files = Ok s →
  NoDup ((files ≫= entries).*1) → NoDup ((files ≫= entries).*2) →
  (∀ str id, str2id s !! str = Some id ↔ id2str s !! id = Some str) ∧
  (∀ str id, (str, id) ∈ files ≫= entries → exist s id = true ∧ exist_str s str = true ∧
     str2id s !! str = Some id ∧ id2str s !! id = Some str).
Proof.
  intros E H1 H2. assert (Hm : mapped s (files ≫= entries)).
  { apply (load_files_mapped files empty_strings []); [|done..].
    split; intros str id; simpl; rewrite lookup_empty, elem_of_nil; done. }
  destruct Hm as [P Q]. split; [intros str id; by rewrite P, Q|].
  intros str id Hin. apply P in Hin as E1. apply Q in Hin as E2. unfold exist, exist_str.
  rewrite E1, E2. split_and!; [by apply bool_decide_eq_true_2..|done|done].
Qed.

Lemma string_server_roundtrip_witness :
  ∃ s, load_strings [StrIndex [("type"%string, 1%Z); ("knows"%string, 2%Z)]; StrNormal [("alice"%string, 131072%Z)]] = Ok s ∧
       str2id s !! "alice"%string = Some 131072%Z ∧ next_normal_id s = 131073%Z.
Proof.
  eexists. split; [reflexivity|].
  destruct (string_server_roundtrip [StrIndex [("type"%string, 1%Z); ("knows"%string, 2%Z)]; StrNormal [("alice"%string, 131072%Z)]] _ eq_refl)
    as [_ H].
  - apply (bool_decide_unpack _). vm_compute. exact I.
  - apply (bool_decide_unpack _). vm_compute. exact I.
  - split; [|reflexivity]. apply (H "alice"%string 131072%Z). simpl. do 2 apply list_elem_of_further. apply list_elem_of_here.
Defined.
