(* ===== verification/Datagen.v ===== *)
(** The data generator ([datagen/generate_data.cpp]): triples of strings become triples of
    ids, with the files that map the strings to their ids.

    The files are given as their records. The counters are 64 bits wide and count
    strings, so that they do not overflow. *)

From stdpp Require Import strings.
From Stdlib Require Import Ascii.
From S2P Require Import Prelude Types StringServer.
Local Open Scope Z_scope.

(** a line of the input: subject, predicate and object *)
Record raw_triple := Raw { raw_s : string; raw_p : string; raw_o : string }.

(** a line of an attribute file: the ids of subject and predicate, the type, the text of the value *)
Record attr_row := AttrRow { ar_s : Z; ar_p : Z; ar_type : Z; ar_value : string }.

Definition rdf_type : string := "<http://www.w3.org/1999/02/22-rdf-syntax-ns#type>".
Definition predicate_str : string := "__PREDICATE__".

(** ** Literals *)

(** [str.find(pat) != string::npos] *)
Definition contains (str pat : string) : bool :=
  match String.index 0 pat str with Some _ => true | None => false end.

Definition find_type (str : string) : Z :=
  if contains str "^^xsd:int" || contains str "^^<http://www.w3.org/2001/XMLSchema#int>" then 1
  else if contains str "^^xsd:float" || contains str "^^<http://www.w3.org/2001/XMLSchema#float>" then 2
  else if contains str "^^xsd:double" || contains str "^^<http://www.w3.org/2001/XMLSchema#double>" then 3
  else 0.

Definition quote : string := String "034" "".

(** the text between the first two quotes; a wrong format is reported, with no value *)
Definition find_value (str : string) : string :=
  match String.index 0 quote str with
  | None => ""
  | Some b =>
      match String.index (S b) quote str with
      | None => ""
      | Some e => String.substring (S b) (e - b - 1) str
      end
  end.

(** ** The tables *)

Record Gen := MkGen {
  str_to_id : gmap string Z;
  normal_str : list string;
  index_str : list string;
  attr_index_str : list string;
  index_to_type : gmap string Z;
  gen_index_id : Z;    (* next_index_id *)
  gen_normal_id : Z    (* next_normal_id *)
}.

(** the first two ids are reserved *)
Definition new_gen : Gen :=
  MkGen (<[rdf_type := 1]> {[predicate_str := 0]}) [] [predicate_str; rdf_type] [] ∅ 2 (Z.shiftl 1 17).

Definition id_of (g : Gen) (str : string) : Z := default 0 (str_to_id g !! str).

(** a new normal vertex *)
Definition add_normal (g : Gen) (str : string) : Gen :=
  match str_to_id g !! str with
  | Some _ => g
  | None => MkGen (<[str := gen_normal_id g]> (str_to_id g)) (normal_str g ++ [str]) (index_str g) (attr_index_str g) (index_to_type g)
              (gen_index_id g) (gen_normal_id g + 1)
  end.

(** a new index vertex *)
Definition add_index (g : Gen) (str : string) : Gen :=
  match str_to_id g !! str with
  | Some _ => g
  | None => MkGen (<[str := gen_index_id g]> (str_to_id g)) (normal_str g) (index_str g ++ [str]) (attr_index_str g) (index_to_type g)
              (gen_index_id g + 1) (gen_normal_id g)
  end.

(** a new attribute *)
Definition add_attr (g : Gen) (str : string) (type : Z) : Gen :=
  match str_to_id g !! str with
  | Some _ => g
  | None => MkGen (<[str := gen_index_id g]> (str_to_id g)) (normal_str g) (index_str g) (attr_index_str g ++ [str]) (<[str := type]> (index_to_type g))
              (gen_index_id g + 1) (gen_normal_id g)
  end.

(** ** The lines *)

(** what a line adds to the tables *)
Definition add_line (g : Gen) (r : raw_triple) : Gen :=
  let type := find_type (raw_o r) in
  if negb (type =? 0) then add_attr (add_normal g (raw_s r)) (raw_p r) type
  else
    let g := add_index (add_normal g (raw_s r)) (raw_p r) in
    if String.eqb (raw_p r) rdf_type then add_index g (raw_o r) else add_normal g (raw_o r).

(** the files of one input file: [id_...] and [attr_...] *)
Record out_file := MkOut { of_ids : list triple_t; of_attrs : list attr_row }.

Definition process_line (st : Gen * out_file) (r : raw_triple) : Gen * out_file :=
  let g := add_line st.1 r in
  let type := find_type (raw_o r) in
  (g, if negb (type =? 0)
      then MkOut (of_ids st.2) (of_attrs st.2 ++ [AttrRow (id_of g (raw_s r)) (id_of g (raw_p r)) type (find_value (raw_o r))])
      else MkOut (of_ids st.2 ++ [Triple (id_of g (raw_s r)) (id_of g (raw_p r)) (id_of g (raw_o r))]) (of_attrs st.2)).

Definition process_file (st : Gen * list out_file) (lines : list raw_triple) : Gen * list out_file :=
  let '(g, out) := foldl process_line (st.1, MkOut [] []) lines in (g, st.2 ++ [out]).

(** the mapping files *)
Definition mapping_files (g : Gen) : list id_file :=
  [StrNormal ((λ s, (s, id_of g s)) <$> normal_str g);
   StrIndex ((λ s, (s, id_of g s)) <$> index_str g);
   StrAttr ((λ s, (s, id_of g s, default 0 (index_to_type g !! s))) <$> attr_index_str g)].

(** [main] *)
Definition generate_data (files : list (list raw_triple)) : list out_file * list id_file :=
  let '(g, outs) := foldl process_file (new_gen, []) files in (outs, mapping_files g).

(** * What holds of it

    The ids of the data generator: with fewer than 2^17 predicates, types and attributes
    every string has an id of its own, the string server reads the mapping files back,
    and the ids of a triple lead back to its strings. *)

(** ** The tables *)

(** [L] are the strings with an index id, in the order of their ids. *)
Record gen_ok (g : Gen) (L : list string) : Prop := {
  go_index : L ≡ₚ index_str g ++ attr_index_str g;
  go_once : NoDup (L ++ normal_str g);
  go_ids s i : str_to_id g !! s = Some i ↔
    (∃ n, L !! n = Some s ∧ i = Z.of_nat n) ∨ ∃ n, normal_str g !! n = Some s ∧ i = 2 ^ 17 + Z.of_nat n;
  go_next_index : gen_index_id g = Z.of_nat (length L);
  go_next_normal : gen_normal_id g = 2 ^ 17 + Z.of_nat (length (normal_str g))
}.

Lemma lookup_snoc {A} (l : list A) x n y : (l ++ [x]) !! n = Some y ↔ l !! n = Some y ∨ n = length l ∧ y = x.
Proof.
  rewrite lookup_app_Some, list_lookup_singleton_Some. split; [|intros [?|[-> ->]]; [by left|right; split; [lia|split; [lia|done]]]].
  intros [?|(? & ? & <-)]; [by left|right]. split; [lia|done].
Qed.

Lemma gen_ok_dom g L s : gen_ok g L → is_Some (str_to_id g !! s) ↔ s ∈ L ∨ s ∈ normal_str g.
Proof.
  intros Hg. split.
  - intros [i [(n & Hn & _)|(n & Hn & _)]%(go_ids _ _ Hg)]; [left|right]; by eapply list_elem_of_lookup_2.
  - intros [[n Hn]%list_elem_of_lookup|[n Hn]%list_elem_of_lookup]; eexists; apply (go_ids _ _ Hg); [left|right]; by exists n.
Qed.

Lemma fresh_once g L s : gen_ok g L → str_to_id g !! s = None → s ∉ L ++ normal_str g.
Proof. intros Hg Hs. rewrite elem_of_app, <-(gen_ok_dom g L s Hg), Hs. by intros [? ?]. Qed.

Lemma new_gen_ok : gen_ok new_gen [predicate_str; rdf_type].
Proof.
  assert (Hne : predicate_str ≠ rdf_type) by done. split; [done| | |done|done].
  - repeat constructor; [set_solver|set_solver].
  - intros s i. unfold new_gen. simpl. split.
    + rewrite lookup_insert_Some. intros [[<- <-]|[_ [<- <-]%lookup_singleton_Some]]; left; [by exists 1%nat|by exists 0%nat].
    + intros [(n & Hn & ->)|(n & Hn & _)]; [|done]. destruct n as [|[|n]]; simplify_eq/=; [|by rewrite lookup_insert_eq].
      rewrite lookup_insert_ne by done. by rewrite lookup_singleton_eq.
Qed.

(** the tables after a string was added: nothing new, or one more id *)
Lemma add_normal_ok g L s : gen_ok g L → let g' := add_normal g s in
  gen_ok g' L ∧ str_to_id g ⊆ str_to_id g' ∧ is_Some (str_to_id g' !! s) ∧ ∀ x, x ∈ normal_str g' → x ∈ normal_str g ∨ x = s.
Proof.
  intros Hg. unfold add_normal. destruct (str_to_id g !! s) eqn:Es; cbv zeta; [split_and!; [done|done|by rewrite Es|by left]|].
  pose proof (fresh_once g L s Hg Es) as Hfr. destruct Hg as [Hi Ho Hids Hn1 Hn2]. split_and!; simpl.
  - split; simpl; [done| | |done|rewrite length_app; simpl; lia].
    + rewrite app_assoc. apply NoDup_app. split_and!; [done|set_solver|apply NoDup_singleton].
    + intros x i. rewrite lookup_insert_Some, Hids. setoid_rewrite lookup_snoc. split.
      * intros [[<- <-]|[Hne [?|(n & ? & ?)]]]; [right; exists (length (normal_str g)); split; [by right|lia]|by left|right; exists n; auto].
      * intros [(n & Hx & ->)|(n & [Hx|[-> ->]] & ->)].
        -- right. split; [intros <-; apply Hfr, elem_of_app; left; by eapply list_elem_of_lookup_2|]. left. by exists n.
        -- right. split; [intros <-; apply Hfr, elem_of_app; right; by eapply list_elem_of_lookup_2|]. right. by exists n.
        -- left. split; [done|lia].
  - by apply insert_subseteq.
  - by rewrite lookup_insert_eq.
  - intros x [?|?%list_elem_of_singleton]%elem_of_app; auto.
Qed.

Lemma index_ok g g' L s : gen_ok g L → str_to_id g !! s = None →
  index_str g' ++ attr_index_str g' ≡ₚ (index_str g ++ attr_index_str g) ++ [s] → str_to_id g' = <[s := gen_index_id g]> (str_to_id g) →
  normal_str g' = normal_str g → gen_index_id g' = gen_index_id g + 1 → gen_normal_id g' = gen_normal_id g →
  gen_ok g' (L ++ [s]) ∧ str_to_id g ⊆ str_to_id g' ∧ is_Some (str_to_id g' !! s).
Proof.
  intros Hg Es Hp Eid En Ei1 Ei2. pose proof (fresh_once g L s Hg Es) as Hfr. destruct Hg as [Hi Ho Hids Hn1 Hn2]. rewrite Eid. split_and!.
  - split; rewrite ?En, ?Ei1, ?Ei2, ?Eid; [by rewrite Hp, Hi| | |rewrite length_app; simpl; lia|done].
    + rewrite <-app_assoc. apply NoDup_app in Ho as (Ho1 & Ho2 & Ho3). apply NoDup_app. rewrite elem_of_app in Hfr. split_and!; [done|set_solver|].
      apply NoDup_app. split_and!; [apply NoDup_singleton|set_solver|done].
    + intros x i. rewrite lookup_insert_Some, Hids. setoid_rewrite lookup_snoc. split.
      * intros [[<- <-]|[Hne [(n & ? & ?)|?]]]; [left; exists (length L); split; [by right|done]|left; exists n; auto|by right].
      * intros [(n & [Hx|[-> ->]] & ->)|(n & Hx & ->)].
        -- right. split; [intros <-; apply Hfr, elem_of_app; left; by eapply list_elem_of_lookup_2|]. left. by exists n.
        -- left. done.
        -- right. split; [intros <-; apply Hfr, elem_of_app; right; by eapply list_elem_of_lookup_2|]. right. by exists n.
  - by apply insert_subseteq.
  - by rewrite lookup_insert_eq.
Qed.

Lemma add_index_ok g L s : gen_ok g L → let g' := add_index g s in
  ∃ L', gen_ok g' L' ∧ str_to_id g ⊆ str_to_id g' ∧ is_Some (str_to_id g' !! s) ∧ normal_str g' = normal_str g ∧ ∀ x, x ∈ L' → x ∈ L ∨ x = s.
Proof.
  intros Hg. unfold add_index. destruct (str_to_id g !! s) eqn:Es; cbv zeta; [exists L; split_and!; [done|done|by rewrite Es|done|by left]|].
  exists (L ++ [s]). destruct (index_ok g (add_index g s) L s) as (H1 & H2 & H3); unfold add_index in *; rewrite ?Es in *; simpl in *; try done.
  { rewrite <-!app_assoc. apply Permutation_app_head, Permutation_app_comm. }
  split_and!; [done..|]. intros x [?|?%list_elem_of_singleton]%elem_of_app; auto.
Qed.

Lemma add_attr_ok g L s type : gen_ok g L → let g' := add_attr g s type in
  ∃ L', gen_ok g' L' ∧ str_to_id g ⊆ str_to_id g' ∧ is_Some (str_to_id g' !! s) ∧ normal_str g' = normal_str g ∧ ∀ x, x ∈ L' → x ∈ L ∨ x = s.
Proof.
  intros Hg. unfold add_attr. destruct (str_to_id g !! s) eqn:Es; cbv zeta; [exists L; split_and!; [done|done|by rewrite Es|done|by left]|].
  exists (L ++ [s]). destruct (index_ok g (add_attr g s type) L s) as (H1 & H2 & H3); unfold add_attr in *; rewrite ?Es in *; simpl in *; try done.
  { by rewrite app_assoc. }
  split_and!; [done..|]. intros x [?|?%list_elem_of_singleton]%elem_of_app; auto.
Qed.

(** ** The roles of the strings *)

Definition is_attr (r : raw_triple) : bool := negb (find_type (raw_o r) =? 0).
Definition is_type (r : raw_triple) : bool := negb (is_attr r) && String.eqb (raw_p r) rdf_type.

(** the strings of a line that become vertices, and those that become indexes *)
Definition vertices_of (r : raw_triple) : list string := raw_s r :: (if is_attr r || is_type r then [] else [raw_o r]).
Definition indexes_of (r : raw_triple) : list string := raw_p r :: (if is_type r then [raw_o r] else []).

Definition has_ids (g : Gen) (r : raw_triple) : Prop := ∀ s, s ∈ vertices_of r ++ indexes_of r → is_Some (str_to_id g !! s).

Lemma has_ids_mono g g' r : str_to_id g ⊆ str_to_id g' → has_ids g r → has_ids g' r.
Proof. intros Hsub Hr s Hs. destruct (Hr s Hs) as [i Hi]. exists i. by eapply lookup_weaken. Qed.

Lemma add_line_ok g L r : gen_ok g L → let g' := add_line g r in
  ∃ L', gen_ok g' L' ∧ str_to_id g ⊆ str_to_id g' ∧ has_ids g' r ∧
    (∀ x, x ∈ normal_str g' → x ∈ normal_str g ∨ x ∈ vertices_of r) ∧ ∀ x, x ∈ L' → x ∈ L ∨ x ∈ indexes_of r.
Proof.
  intros Hg. unfold add_line, has_ids, vertices_of, indexes_of, is_type, is_attr.
  destruct (add_normal_ok g L (raw_s r) Hg) as (Hg1 & S1 & D1 & N1). destruct (negb (find_type (raw_o r) =? 0)) eqn:Ea; cbn [negb andb orb app].
  - destruct (add_attr_ok _ L (raw_p r) (find_type (raw_o r)) Hg1) as (L2 & Hg2 & S2 & D2 & N2 & I2). exists L2. split_and!; [done|by etrans| | |].
    + intros s Hs. rewrite !elem_of_cons, elem_of_nil in Hs. destruct Hs as [->|[->|[]]]; eauto using lookup_weaken_is_Some.
    + intros x. rewrite N2. intros Hx. apply N1 in Hx. set_solver.
    + intros x Hx. apply I2 in Hx. set_solver.
  - destruct (add_index_ok _ L (raw_p r) Hg1) as (L2 & Hg2 & S2 & D2 & N2 & I2).
    destruct (String.eqb (raw_p r) rdf_type); cbn [negb andb orb app].
    + destruct (add_index_ok _ L2 (raw_o r) Hg2) as (L3 & Hg3 & S3 & D3 & N3 & I3). exists L3. split_and!; [done|by do 2 (etrans; [eassumption|])| | |].
      * intros s Hs. rewrite !elem_of_cons, elem_of_nil in Hs. destruct Hs as [->|[->|[->|[]]]]; eauto using lookup_weaken_is_Some.
      * intros x. rewrite N3, N2. intros Hx. apply N1 in Hx. set_solver.
      * intros x Hx. apply I3 in Hx as [Hx| ->]; [apply I2 in Hx|]; set_solver.
    + destruct (add_normal_ok _ L2 (raw_o r) Hg2) as (Hg3 & S3 & D3 & N3). exists L2. split_and!; [done|by do 2 (etrans; [eassumption|])| | |].
      * intros s Hs. rewrite !elem_of_cons, elem_of_nil in Hs. destruct Hs as [->|[->|[->|[]]]]; eauto using lookup_weaken_is_Some.
      * intros x Hx. apply N3 in Hx as [Hx| ->]; [rewrite N2 in Hx; apply N1 in Hx|]; set_solver.
      * intros x Hx. apply I2 in Hx. set_solver.
Qed.

(** all lines *)
Record run_ok (raws : list raw_triple) (g : Gen) (L : list string) : Prop := {
  ro_gen : gen_ok g L;
  ro_ids r : r ∈ raws → has_ids g r;
  ro_normal x : x ∈ normal_str g → ∃ r, r ∈ raws ∧ x ∈ vertices_of r;
  ro_index x : x ∈ L → x = predicate_str ∨ x = rdf_type ∨ ∃ r, r ∈ raws ∧ x ∈ indexes_of r;
  ro_reserved : predicate_str ∈ index_str g;
  ro_base : str_to_id new_gen ⊆ str_to_id g
}.

Lemma add_line_index g r x : x ∈ index_str g → x ∈ index_str (add_line g r).
Proof.
  assert (Hn : ∀ g s, index_str (add_normal g s) = index_str g) by (intros g' s; unfold add_normal; by destruct (str_to_id g' !! s)).
  assert (Ha : ∀ g s t, index_str (add_attr g s t) = index_str g) by (intros g' s t; unfold add_attr; by destruct (str_to_id g' !! s)).
  assert (Hi : ∀ g s, x ∈ index_str g → x ∈ index_str (add_index g s)) by (intros g' s ?; unfold add_index; destruct (str_to_id g' !! s); set_solver).
  intros Hx. unfold add_line. destruct (negb _); [by rewrite Ha, Hn|]. destruct (String.eqb _ _); [apply Hi|rewrite Hn]; apply Hi; by rewrite Hn.
Qed.

Lemma lines_ok raws : ∃ L, run_ok raws (foldl add_line new_gen raws) L.
Proof.
  induction raws as [|r raws [L [Hg Hi Hn Hx Hp Hb]]] using rev_ind.
  { exists [predicate_str; rdf_type]. split; [apply new_gen_ok|intros r Hr; by apply elem_of_nil in Hr|intros x Hx; by apply elem_of_nil in Hx| |left|done]. simpl. intros x Hx.
    rewrite !elem_of_cons, elem_of_nil in Hx. tauto. }
  rewrite foldl_snoc. destruct (add_line_ok _ L r Hg) as (L' & Hg' & Hsub & Hr & HN & HI). exists L'. split; [done|..].
  - intros r' [Hr'| ->%list_elem_of_singleton]%elem_of_app; [|done]. eapply has_ids_mono; [exact Hsub|by apply Hi].
  - intros x [Hx'|Hx']%HN; [apply Hn in Hx' as (r' & ? & ?); exists r'|exists r]; set_solver.
  - intros x [Hx'|Hx']%HI; [apply Hx in Hx' as [?|[?|(r' & ? & ?)]]; [by left|by right; left|]|]; right; right; [exists r'|exists r]; set_solver.
  - by apply add_line_index.
  - by etrans.
Qed.

(** *** What is written *)

Lemma lines_mono raws g L : gen_ok g L → str_to_id g ⊆ str_to_id (foldl add_line g raws) ∧ ∃ L', gen_ok (foldl add_line g raws) L'.
Proof.
  revert g L. induction raws as [|r raws IH]; intros g L Hg; simpl; [by eauto|]. destruct (add_line_ok g L r Hg) as (L' & Hg' & Hsub & _).
  destruct (IH _ _ Hg') as [Hs ?]. split; [by etrans|done].
Qed.

Definition row (g : Gen) (r : raw_triple) : triple_t := Triple (id_of g (raw_s r)) (id_of g (raw_p r)) (id_of g (raw_o r)).

Lemma id_of_mono g g' s : str_to_id g ⊆ str_to_id g' → is_Some (str_to_id g !! s) → id_of g' s = id_of g s.
Proof. intros Hsub [i Hi]. unfold id_of. by rewrite Hi, (lookup_weaken _ _ _ _ Hi Hsub). Qed.

Lemma row_mono g g' r : is_attr r = false → has_ids g r → str_to_id g ⊆ str_to_id g' → row g' r = row g r.
Proof.
  intros Ha Hr Hsub. unfold row. f_equal; apply id_of_mono; try done; apply Hr; unfold vertices_of, indexes_of; [set_solver|set_solver|].
  rewrite Ha. destruct (is_type r); set_solver.
Qed.

Definition plain (raws : list raw_triple) : list raw_triple := filter (λ r, is_attr r = false) raws.

Lemma lines_out raws g L out : gen_ok g L →
  let st := foldl process_line (g, out) raws in
  st.1 = foldl add_line g raws ∧ of_ids st.2 = of_ids out ++ (row st.1 <$> plain raws).
Proof.
  revert g L out. induction raws as [|r raws IH]; intros g L out Hg; cbn [foldl]; [simpl; by rewrite app_nil_r|].
  destruct (add_line_ok g L r Hg) as (L' & Hg' & Hsub & Hr & _). set (o := (process_line (g, out) r).2).
  change (process_line (g, out) r) with (add_line g r, o). destruct (IH (add_line g r) L' o Hg') as [E1 E2]. split; [done|]. rewrite E2, E1. unfold o, process_line. cbn [fst snd].
  unfold plain. rewrite filter_cons. change (negb (find_type (raw_o r) =? 0)) with (is_attr r). destruct (is_attr r) eqn:Ea; [by rewrite decide_False by done|].
  rewrite decide_True by done. cbn [of_ids fmap list_fmap]. rewrite <-app_assoc. do 2 f_equal.
  destruct (lines_mono raws _ _ Hg') as [Hs _]. change (row (add_line g r) r :: (row (foldl add_line (add_line g r) raws) <$> filter (λ r, is_attr r = false) raws) =
    row (foldl add_line (add_line g r) raws) r :: (row (foldl add_line (add_line g r) raws) <$> filter (λ r, is_attr r = false) raws)).
  f_equal. symmetry. by apply row_mono.
Qed.

Lemma lines_ids raws g L r : gen_ok g L → r ∈ raws → has_ids (foldl add_line g raws) r.
Proof.
  revert g L. induction raws as [|r' raws IH]; intros g L Hg Hr; [by apply elem_of_nil in Hr|]. simpl. destruct (add_line_ok g L r' Hg) as (L' & Hg' & _ & Hids & _).
  apply elem_of_cons in Hr as [->|Hr]; [|by eapply IH]. eapply has_ids_mono; [|exact Hids]. by eapply lines_mono.
Qed.

Lemma rows_mono g g' L raws : gen_ok g L → str_to_id (foldl add_line g raws) ⊆ str_to_id g' → row g' <$> plain raws = row (foldl add_line g raws) <$> plain raws.
Proof.
  intros Hg Hsub. apply list_fmap_ext. intros i r Hr%list_elem_of_lookup_2. apply list_elem_of_filter in Hr as [Ha Hr]. apply row_mono; [done| |done]. by eapply lines_ids.
Qed.

Lemma files_out files g L outs : gen_ok g L →
  let st := foldl process_file (g, outs) files in
  st.1 = foldl add_line g (concat files) ∧ concat (of_ids <$> st.2) = concat (of_ids <$> outs) ++ (row st.1 <$> plain (concat files)).
Proof.
  revert g L outs. induction files as [|f files IH]; intros g L outs Hg; cbn [foldl concat]; [simpl; by rewrite app_nil_r|].
  destruct (lines_out f g L (MkOut [] []) Hg) as [E1 E2]. destruct (lines_mono f g L Hg) as [_ [L1 Hg1]].
  assert (Ep : process_file (g, outs) f = (foldl add_line g f, outs ++ [(foldl process_line (g, MkOut [] []) f).2])).
  { unfold process_file. cbn [fst snd]. destruct (foldl process_line (g, MkOut [] []) f) as [g' o]. simpl in *. by subst. }
  rewrite Ep. destruct (IH _ L1 (outs ++ [(foldl process_line (g, MkOut [] []) f).2]) Hg1) as [E3 E4]. rewrite <-foldl_app in E3. split; [done|].
  rewrite E4, fmap_app, concat_app. cbn [fmap list_fmap concat]. rewrite app_nil_r, E2, E1. cbn [of_ids app].
  rewrite <-app_assoc. f_equal. unfold plain. rewrite filter_app, fmap_app. f_equal.
  symmetry. apply rows_mono with (L := L); [done|]. rewrite E3, foldl_app. by eapply lines_mono.
Qed.

(** ** Every string has an id of its own *)

Definition index_strings (raws : list raw_triple) : gset string := {[predicate_str; rdf_type]} ∪ list_to_set (raws ≫= indexes_of).
Definition vertex_strings (raws : list raw_triple) : gset string := list_to_set (raws ≫= vertices_of).

(** The data set: no string has two roles, the reserved strings are not used otherwise,
    and the ids fit: 17 bits for indexes, 31 for all. *)
Record raw_ok (raws : list raw_triple) : Prop := {
  rw_some : raws ≠ [];
  rw_apart : vertex_strings raws ## index_strings raws;
  rw_pred r : r ∈ raws → raw_p r ≠ predicate_str;
  rw_types r r' : r ∈ raws → r' ∈ raws → is_type r = true → raw_o r ≠ raw_p r' ∧ raw_o r ≠ predicate_str;
  rw_index : Z.of_nat (size (index_strings raws)) <= 2 ^ 17;
  rw_vertex : 2 ^ 17 + Z.of_nat (size (vertex_strings raws)) <= 2 ^ 31
}.

Lemma length_size (l : list string) (X : gset string) : NoDup l → (∀ x, x ∈ l → x ∈ X) → (length l <= size X)%nat.
Proof. intros Hnd Hl. rewrite <-(size_list_to_set (C := gset string) l) by done. apply subseteq_size. intros x Hx%elem_of_list_to_set. by apply Hl. Qed.

Section generated.
  Context (raws : list raw_triple) (Hraw : raw_ok raws) (g : Gen) (L : list string) (Hrun : run_ok raws g L).

Lemma in_indexes x : x ∈ L → x ∈ index_strings raws.
Proof.
  intros [->|[->|(r & Hr & Hx)]]%(ro_index _ _ _ Hrun); unfold index_strings; [set_solver..|]. apply elem_of_union. right.
  apply elem_of_list_to_set, list_elem_of_bind. by exists r.
Qed.

Lemma in_vertices x : x ∈ normal_str g → x ∈ vertex_strings raws.
Proof. intros (r & Hr & Hx)%(ro_normal _ _ _ Hrun). apply elem_of_list_to_set, list_elem_of_bind. by exists r. Qed.

Lemma tables_fit : Z.of_nat (length L) <= 2 ^ 17 ∧ 2 ^ 17 + Z.of_nat (length (normal_str g)) <= 2 ^ 31.
Proof.
  destruct (NoDup_app L (normal_str g)) as [Hnd _]. destruct (Hnd (go_once _ _ (ro_gen _ _ _ Hrun))) as (H1 & _ & H2).
  pose proof (length_size L _ H1 in_indexes). pose proof (length_size _ _ H2 in_vertices). destruct Hraw as [_ _ _ _ Hi Hv]. lia.
Qed.

Lemma id_range s i : str_to_id g !! s = Some i → 0 <= i < 2 ^ 31 ∧ (i < 2 ^ 17 ↔ s ∈ L).
Proof.
  intros Hi. pose proof tables_fit as [Hf1 Hf2]. pose proof (go_once _ _ (ro_gen _ _ _ Hrun)) as (_ & Hap & _)%NoDup_app.
  apply (go_ids _ _ (ro_gen _ _ _ Hrun)) in Hi as [(n & Hn & ->)|(n & Hn & ->)]; pose proof (lookup_lt_Some _ _ _ Hn); (split; [lia|]).
  - split; [|lia]. intros _. by eapply list_elem_of_lookup_2.
  - split; [lia|]. intros Hs. destruct (Hap s Hs). by eapply list_elem_of_lookup_2.
Qed.

Lemma id_unique s s' i : str_to_id g !! s = Some i → str_to_id g !! s' = Some i → s = s'.
Proof.
  pose proof tables_fit as [Hf1 _]. intros [(n & Hn & ->)|(n & Hn & ->)]%(go_ids _ _ (ro_gen _ _ _ Hrun)) [(n' & Hn' & E)|(n' & Hn' & E)]%(go_ids _ _ (ro_gen _ _ _ Hrun));
    pose proof (lookup_lt_Some _ _ _ Hn); pose proof (lookup_lt_Some _ _ _ Hn'); try lia; assert (n' = n) as -> by lia; congruence.
Qed.

(** the strings of the mapping files *)
Definition all_strings : list string := normal_str g ++ index_str g ++ attr_index_str g.

Lemma all_strings_ok : NoDup all_strings ∧ ∀ s, s ∈ all_strings ↔ is_Some (str_to_id g !! s).
Proof.
  assert (Hp : all_strings ≡ₚ L ++ normal_str g).
  { unfold all_strings. by rewrite <-(go_index _ _ (ro_gen _ _ _ Hrun)), Permutation_app_comm. }
  split; [rewrite Hp; apply Hrun|]. intros s. rewrite Hp, (gen_ok_dom g L s (ro_gen _ _ _ Hrun)). apply elem_of_app.
Qed.

Lemma mapping_entries : mapping_files g ≫= entries = (λ s, (s, id_of g s)) <$> all_strings.
Proof.
  unfold mapping_files, all_strings. cbn [mbind list_bind entries]. rewrite !app_nil_r, !fmap_app, <-list_fmap_compose. done.
Qed.

Lemma entries_unique files : files ≡ₚ mapping_files g → NoDup ((files ≫= entries).*1) ∧ NoDup ((files ≫= entries).*2) ∧
  ∀ s i, (s, i) ∈ files ≫= entries ↔ str_to_id g !! s = Some i.
Proof.
  intros Hp. destruct all_strings_ok as [Hnd Hall]. assert (He : files ≫= entries ≡ₚ (λ s, (s, id_of g s)) <$> all_strings) by (by rewrite Hp, mapping_entries).
  assert (E1 : ((λ s, (s, id_of g s)) <$> all_strings).*1 = all_strings) by (rewrite <-list_fmap_compose; apply list_fmap_id).
  split_and!.
  - by rewrite He, E1.
  - rewrite He, <-list_fmap_compose. apply NoDup_fmap_2_strong; [|done]. intros s s' [i Hi]%Hall [i' Hi']%Hall E. simpl in E. unfold id_of in E. rewrite Hi, Hi' in E. simpl in E. subst i'. by eapply id_unique.
  - intros s i. rewrite He, list_elem_of_fmap. split.
    + intros (s' & [= -> ->] & [i' Hi]%Hall). unfold id_of. by rewrite Hi.
    + intros Hi. exists s. split; [unfold id_of; by rewrite Hi|]. apply Hall. by eexists.
Qed.

(** *** The string server reads the files back *)

Lemma normal_some : normal_str g ≠ [].
Proof.
  assert (Hsome : ∃ r, r ∈ raws) by (pose proof (rw_some _ Hraw) as Hne; clear -Hne; destruct raws as [|r l]; [done|exists r; left]). destruct Hsome as [r Hr].
  assert (Hs : raw_s r ∈ vertex_strings raws) by (apply elem_of_list_to_set, list_elem_of_bind; exists r; split; [left|done]).
  assert (Hd : is_Some (str_to_id g !! raw_s r)) by (apply (ro_ids _ _ _ Hrun r Hr); left).
  apply (gen_ok_dom g L _ (ro_gen _ _ _ Hrun)) in Hd as [Hd|Hd]; [|by intros E; rewrite E in Hd; apply elem_of_nil in Hd].
  apply in_indexes in Hd. destruct (rw_apart _ Hraw _ Hs Hd).
Qed.

Lemma next_id_some l : l ≠ [] → ∃ id, next_id l = Ok id.
Proof. intros Hl. unfold next_id. destruct (last l) as [[? id]|] eqn:E; [by eexists|]. by apply last_None in E. Qed.

Lemma load_total files s : files ⊆ mapping_files g → ∃ s', foldM load_file s files = Ok s'.
Proof.
  revert s. induction files as [|f files IH]; intros s Hf; [by exists s|]. cbn [foldM].
  assert (Hone : ∃ s', load_file s f = Ok s').
  { specialize (Hf f ltac:(left)). unfold mapping_files in Hf. rewrite !elem_of_cons, elem_of_nil in Hf. destruct Hf as [->|[->|[->|[]]]]; cbn [load_file].
    - destruct (next_id_some ((λ s, (s, id_of g s)) <$> normal_str g)) as [id ->]; [intros E%fmap_nil_inv; by apply normal_some|]. by eexists.
    - destruct (next_id_some ((λ s, (s, id_of g s)) <$> index_str g)) as [id ->]; [|by eexists]. intros E%fmap_nil_inv.
      pose proof (ro_reserved _ _ _ Hrun) as Hp. rewrite E in Hp. by apply elem_of_nil in Hp.
    - by eexists. }
  destruct Hone as [s' ->]. cbn [mbind outcome_bind]. apply IH. set_solver.
Qed.

Lemma strings_loaded files : files ≡ₚ mapping_files g → ∃ s, load_strings files = Ok s.
Proof. intros Hp. apply load_total. intros f Hf. by rewrite <-Hp. Qed.

Lemma strings_ok files s : files ≡ₚ mapping_files g → load_strings files = Ok s →
  str2id s = str_to_id g ∧ ∀ str id, id2str s !! id = Some str ↔ str_to_id g !! str = Some id.
Proof.
  intros Hp E. destruct (entries_unique files Hp) as (H1 & H2 & He).
  destruct (load_files_mapped files empty_strings [] s) as [M1 M2]; [|done|done|done|].
  { split; intros str id; simpl; rewrite lookup_empty, elem_of_nil; done. }
  split; [|intros str id; by rewrite M2, He]. apply map_eq. intros str. apply option_eq. intros id. by rewrite M1, He.
Qed.
End generated.

(** ** From ids back to strings *)

Definition decode (s : String_Server) (t : triple_t) : option raw_triple :=
  a ← id2str s !! tr_s t; b ← id2str s !! tr_p t; c ← id2str s !! tr_o t; Some (Raw a b c).

Lemma generated files : ∃ g L, run_ok (concat files) g L ∧ (generate_data files).2 = mapping_files g ∧
  concat (of_ids <$> (generate_data files).1) = row g <$> plain (concat files).
Proof.
  destruct (lines_ok (concat files)) as [L Hrun]. exists (foldl add_line new_gen (concat files)), L. split; [done|]. unfold generate_data.
  destruct (files_out files new_gen _ [] new_gen_ok) as [E1 E2]. destruct (foldl process_file (new_gen, []) files) as [g outs]. simpl in *. by subst.
Qed.

Lemma row_known raws g L r s : run_ok raws g L → r ∈ plain raws → s ∈ [raw_s r; raw_p r; raw_o r] → str_to_id g !! s = Some (id_of g s).
Proof.
  intros Hrun [Ha Hr]%list_elem_of_filter Hs. assert (His : is_Some (str_to_id g !! s)); [|destruct His as [i Hi]; unfold id_of; by rewrite Hi].
  apply (ro_ids _ _ _ Hrun r Hr). unfold vertices_of, indexes_of. rewrite Ha. rewrite !elem_of_cons, elem_of_nil in Hs. destruct (is_type r); cbn [orb]; set_solver.
Qed.

(** C33: the data generator loses nothing: for a data set whose strings have one role each
    and fit the ids, the string server loads the mapping files in any order, its two maps
    are inverse to each other, and the ids of the data files lead back to exactly the
    lines that are no attributes, in their order. *)
Theorem generated_roundtrip (files : list (list raw_triple)) (maps : list id_file) :
  raw_ok (concat files) → maps ≡ₚ (generate_data files).2 →
  ∃ s, load_strings maps = Ok s ∧ (∀ str id, str2id s !! str = Some id ↔ id2str s !! id = Some str) ∧
    mapM (decode s) (concat (of_ids <$> (generate_data files).1)) = Some (plain (concat files)).
Proof.
  intros Hraw Hp. destruct (generated files) as (g & L & Hrun & E1 & E2). rewrite E1 in Hp. destruct (strings_loaded _ Hraw g L Hrun maps Hp) as [s Es]. exists s.
  destruct (strings_ok _ Hraw g L Hrun maps s Hp Es) as [H1 H2]. split_and!; [done|intros str id; by rewrite H1, H2|].
  rewrite E2. apply mapM_Some, Forall2_fmap_l, Forall_Forall2_diag, Forall_forall. intros r Hr. unfold decode, row.
  assert (Hk : ∀ x, x ∈ [raw_s r; raw_p r; raw_o r] → id2str s !! id_of g x = Some x) by (intros x Hx; apply H2; by eapply row_known).
  cbn [compose tr_s tr_p tr_o]. rewrite (Hk (raw_s r)) by set_solver. cbn [mbind option_bind]. rewrite (Hk (raw_p r)) by set_solver. cbn [mbind option_bind].
  rewrite (Hk (raw_o r)) by set_solver. by destruct r.
Qed.

(** *** A small data set *)

Definition small_raws : list (list raw_triple) :=
  [[Raw "<a>" "<http://knows>" "<b>"; Raw "<b>" rdf_type "<t>"]; [Raw "<a>" "<age>" (quote +:+ "7" +:+ quote +:+ "^^xsd:int")]].

Lemma small_raws_ok : raw_ok (concat small_raws).
Proof.
  split.
  - done.
  - apply (bool_decide_unpack _). vm_compute. exact I.
  - assert (H : Forall (λ r, raw_p r ≠ predicate_str) (concat small_raws)) by (apply (bool_decide_unpack _); vm_compute; exact I). by apply Forall_forall.
  - assert (H : Forall (λ r, Forall (λ r', is_type r = true → raw_o r ≠ raw_p r' ∧ raw_o r ≠ predicate_str) (concat small_raws)) (concat small_raws))
      by (apply (bool_decide_unpack _); vm_compute; exact I).
    intros r r' Hr Hr'. by apply (proj1 (Forall_forall _ _) (proj1 (Forall_forall _ _) H r Hr)).
  - vm_compute. discriminate.
  - vm_compute. discriminate.
Qed.

Lemma generated_roundtrip_witness : ∃ s, load_strings (generate_data small_raws).2 = Ok s ∧
  mapM (decode s) (concat (of_ids <$> (generate_data small_raws).1)) = Some [Raw "<a>" "<http://knows>" "<b>"; Raw "<b>" rdf_type "<t>"].
Proof.
  destruct (generated_roundtrip small_raws (generate_data small_raws).2 small_raws_ok (reflexivity _)) as (s & Es & _ & Ed). exists s. split; [exact Es|exact Ed].
Defined.
