(* ===== verification/Filter.v ===== *)
(** [core/engine.hpp], FILTER: [relational_filter], [bound_filter], the test and
    regex filters, [general_filter] and [filter]. A filter clears the flags of the
    rows that fail; the rows whose flag is still set survive. *)

From stdpp Require Import strings.
From Stdlib Require Import Ascii.
From S2P Require Import Prelude Types MyMath Keys Query Rows Engine EngineSteps Regex StringServer.
Local Open Scope nat_scope.

Section filter.
  Context (strs : String_Server).
  (** The compiler of [std::regex] for user-given patterns, with its [icase] flag;
      [None] is [std::regex_error]. *)
  Context (regex_compile : bool → string → option regex).

Definition quote : ascii := ascii_of_nat 34.

  (** [str_server->exist(id) ? str_server->id2str[id] : ""] *)
Definition str_of (id : sid_t) : string := default ""%string (id2str strs !! id).

  (** [*p] of a pointer to a filter *)
Definition deref (p : option Filter) : outcome Filter :=
  match p with Some f => Ok f | None => Err Undefined end.

  (** the column of a variable; [-1] for other arguments *)
Definition arg_col (r : Result) (f : Filter) : outcome Z :=
  if bool_decide (f_type f = Variable_) then var2col r (valueArg f) else Ok (-1)%Z.

Definition get_str (r : Result) (f : Filter) (row : nat) (col : Z) : outcome string :=
  match f_type f with
  | Variable_ => id ← get_row_col r row (Z.to_nat col); Ok (str_of id)
  | Literal => Ok (String quote (f_value f ++ String quote ""))%string
  | _ => Err AssertFail (* unsupported FILTER type *)
  end.

  (** the comparison that a relational operator asks for *)
Definition rel_holds (t : FilterType) (a b : string) : bool :=
  match t with
  | Equal => bool_decide (a = b)
  | NotEqual => negb (bool_decide (a = b))
  | Less => String.ltb a b
  | LessOrEqual => String.leb a b
  | Greater => String.ltb b a
  | GreaterOrEqual => String.leb b a
  | _ => true
  end.

  (** [for (row < n) if (is_satisfy[row] && !test(row)) is_satisfy[row] = false] *)
Definition clear_rows (n : nat) (test : nat → outcome bool) (sat : list bool) : outcome (list bool) :=
  foldM (λ sat row,
    s ← read sat row;
    if s : bool then
      b ← test row;
      if b : bool then Ok sat else write sat row false
    else Ok sat) sat (seq 0 n).

Definition relational_filter (f : Filter) (r : Result) (sat : list bool) : outcome (list bool) :=
  a1 ← deref (arg1 f);
  a2 ← deref (arg2 f);
  col1 ← arg_col r a1;
  col2 ← arg_col r a2;
  clear_rows (get_row_num r) (λ row,
    s1 ← get_str r a1 row col1;
    s2 ← get_str r a2 row col2;
    Ok (rel_holds (f_type f) s1 s2)) sat.

  (** a test of the value of the variable in the first argument *)
Definition value_filter (f : Filter) (r : Result) (test : sid_t → outcome bool) (sat : list bool)
    : outcome (list bool) :=
  a1 ← deref (arg1 f);
  col ← var2col r (valueArg a1);
  clear_rows (length sat) (λ row, id ← get_row_col r row (Z.to_nat col); test id) sat.

Definition bound_filter (f : Filter) (r : Result) (sat : list bool) : outcome (list bool) :=
  value_filter f r (λ id, Ok (negb (id =? BLANK_ID)%Z)) sat.

Definition is_IRI_filter (f : Filter) (r : Result) (sat : list bool) : outcome (list bool) :=
  value_filter f r (λ id, Ok (regex_match (String.list_ascii_of_string (str_of id)) IRI_pattern)) sat.

Definition is_literal_filter (f : Filter) (r : Result) (sat : list bool) : outcome (list bool) :=
  value_filter f r (λ id, Ok (regex_match (String.list_ascii_of_string (str_of id)) RDFLiteral_pattern)) sat.

  (** the string without its quotes; [front()] of an empty string is undefined, and
      a string that is not quoted is matched as it is, after a log message *)
Definition unquote (s : list ascii) : outcome (list ascii) :=
  match s with
  | [] => Err Undefined
  | c :: t =>
      if bool_decide (c = quote) && bool_decide (last s = Some quote)
      then Ok (take (length s - 2) t) (* substr(1, length - 2) *)
      else Ok s
  end.

Definition regex_filter (f : Filter) (r : Result) (sat : list bool) : outcome (list bool) :=
  a2 ← deref (arg2 f);
  let icase := match arg3 f with Some a3 => bool_decide (f_value a3 = "i"%string) | None => false end in
  match regex_compile icase (f_value a2) with
  | None => Err Uncaught
  | Some pattern =>
      value_filter f r (λ id,
        s ← unquote (String.list_ascii_of_string (str_of id));
        Ok (regex_match s pattern)) sat
  end.

Fixpoint general_filter (f : Filter) (r : Result) (sat : list bool) : outcome (list bool) :=
  match f_type f with
  | And =>
      match arg1 f, arg2 f with
      | Some a1, Some a2 => sat ← general_filter a1 r sat; general_filter a2 r sat
      | _, _ => Err Undefined
      end
  | Or =>
      match arg1 f, arg2 f with
      | Some a1, Some a2 =>
          sat1 ← general_filter a1 r (replicate (get_row_num r) true);
          sat2 ← general_filter a2 r (replicate (get_row_num r) true);
          foldM (λ sat i,
            s ← read sat i; s1 ← read sat1 i; s2 ← read sat2 i;
            write sat i (s && (s1 || s2))) sat (seq 0 (length sat))
      | _, _ => Err Undefined
      end
  | Equal | NotEqual | Less | LessOrEqual | Greater | GreaterOrEqual => relational_filter f r sat
  | Builtin_bound => bound_filter f r sat
  | Builtin_isiri => is_IRI_filter f r sat
  | Builtin_isliteral => is_literal_filter f r sat
  | Builtin_regex => regex_filter f r sat
  | _ => Ok sat (* other filters are ignored *)
  end.

Definition filter_query (q : SPARQLQuery) : outcome SPARQLQuery :=
  ASSERT (has_filter q);
  let r := result q in
  (* during filtering, the flags of unsatisfied rows are set to false one by one *)
  sat ← foldM (λ sat f, general_filter f r sat) (replicate (get_row_num r) true) (filters (pattern_group q));
  t ← foldM (λ t row, s ← read sat row; if s : bool then append_row_to r row t else Ok t) []
        (seq 0 (get_row_num r));
  let r := set_table t r in
  Ok (set_result (set_row_num (get_row_num r) r) q).

  (** ** The meaning of a filter on one row *)

Definition var_col (r : Result) (v : ssid_t) : nat := match var2col r v with Ok c => Z.to_nat c | Err _ => 0 end.

Definition arg_str (r : Result) (row : list sid_t) (f : Filter) : string :=
  match f_type f with
  | Variable_ => str_of (cell row (var_col r (valueArg f)))
  | _ => (String quote (f_value f ++ String quote ""))%string
  end.

Definition arg_value (r : Result) (row : list sid_t) (f : option Filter) : sid_t :=
  match f with Some a => cell row (var_col r (valueArg a)) | None => 0%Z end.

Definition regex_holds (f : Filter) (id : sid_t) : bool :=
  match arg2 f, unquote (String.list_ascii_of_string (str_of id)) with
  | Some a2, Ok s =>
      let icase := match arg3 f with Some a3 => bool_decide (f_value a3 = "i"%string) | None => false end in
      match regex_compile icase (f_value a2) with Some p => regex_match s p | None => false end
  | _, _ => false
  end.

Fixpoint filter_holds (r : Result) (row : list sid_t) (f : Filter) : bool :=
  match f_type f with
  | And => match arg1 f, arg2 f with Some a, Some b => filter_holds r row a && filter_holds r row b | _, _ => false end
  | Or => match arg1 f, arg2 f with Some a, Some b => filter_holds r row a || filter_holds r row b | _, _ => false end
  | Equal | NotEqual | Less | LessOrEqual | Greater | GreaterOrEqual =>
      match arg1 f, arg2 f with
      | Some a, Some b => rel_holds (f_type f) (arg_str r row a) (arg_str r row b)
      | _, _ => false
      end
  | Builtin_bound => negb (arg_value r row (arg1 f) =? BLANK_ID)%Z
  | Builtin_isiri => regex_match (String.list_ascii_of_string (str_of (arg_value r row (arg1 f)))) IRI_pattern
  | Builtin_isliteral => regex_match (String.list_ascii_of_string (str_of (arg_value r row (arg1 f)))) RDFLiteral_pattern
  | Builtin_regex => regex_holds f (arg_value r row (arg1 f))
  | _ => false (* not evaluated *)
  end.

  (** ** Correctness *)

  (** A loop that rewrites each cell from its own value. *)
Lemma foldM_update {A} (f : list A → nat → outcome (list A)) (F : nat → A → A) (l : list A) :
  (∀ l' i x, length l' = length l → l' !! i = Some x → f l' i = Ok (<[i := F i x]> l')) →
  foldM f l (seq 0 (length l)) = Ok (imap F l).
Proof.
  intros Hf. assert (Hk : ∀ k, k <= length l → foldM f l (seq 0 k) = Ok (imap F (take k l) ++ drop k l)).
  { induction k as [|k IH]; intros Hk; [done|]. rewrite seq_S, foldM_snoc, IH by lia. simpl.
    destruct (lookup_lt_is_Some_2 l k) as [x Hx]; [lia|].
    assert (Hl : length (imap F (take k l)) = k) by (rewrite length_imap, length_take; lia).
    rewrite (Hf _ k x).
    - rewrite (drop_S l x k) by done. rewrite (take_S_r l k x) by done.
      rewrite insert_app_r_alt by lia. rewrite Hl, Nat.sub_diag. simpl.
      rewrite imap_app, <-app_assoc. simpl. do 3 f_equal. rewrite length_take. by replace (k `min` length l + 0) with k by lia.
    - rewrite length_app, Hl, length_drop. lia.
    - rewrite lookup_app_r, Hl, Nat.sub_diag, lookup_drop, Nat.add_0_r by lia. done. }
  rewrite Hk by lia. by rewrite take_ge, drop_ge, app_nil_r by lia.
Qed.

  (** the flags after a test of every row *)
Definition keep_flags (P : list sid_t → bool) (rows : list (list sid_t)) (sat : list bool) : list bool :=
  zip_with (λ s row, s && P row) sat rows.

Lemma imap_flags (P : list sid_t → bool) (rows : list (list sid_t)) sat F :
  length sat = length rows → (∀ i x row, rows !! i = Some row → F i x = x && P row) →
  imap F sat = keep_flags P rows sat.
Proof.
  intros Hl HF. apply list_eq. intros i. unfold keep_flags. rewrite list_lookup_imap, lookup_zip_with.
  destruct (sat !! i) as [x|] eqn:E; [|done]. simpl.
  destruct (lookup_lt_is_Some_2 rows i) as [row Hr]; [rewrite <-Hl; by eapply lookup_lt_Some|].
  rewrite Hr. simpl. by rewrite (HF i x row).
Qed.

Lemma keep_flags_length P rows sat : length sat = length rows → length (keep_flags P rows sat) = length rows.
Proof. intros Hl. unfold keep_flags. rewrite length_zip_with. lia. Qed.

Lemma clear_rows_spec (P : list sid_t → bool) rows test sat :
  length sat = length rows → (∀ i row, rows !! i = Some row → test i = Ok (P row)) →
  clear_rows (length rows) test sat = Ok (keep_flags P rows sat).
Proof.
  intros Hl Ht. unfold clear_rows. rewrite <-Hl.
  rewrite <-(imap_flags P rows sat (λ i x, x && default true (P <$> rows !! i))); [|done|].
  - apply foldM_update. intros sat' i x Hl' Hx. unfold read. rewrite Hx. simpl.
    destruct (lookup_lt_is_Some_2 rows i) as [row Hr]; [rewrite <-Hl, <-Hl'; by eapply lookup_lt_Some|].
    rewrite (Ht i row Hr), Hr. simpl. destruct x; simpl; [|by rewrite list_insert_id].
    destruct (P row); [by rewrite list_insert_id|]. unfold write. by rewrite bool_decide_true by (by eapply lookup_lt_Some).
  - intros i x row Hr. by rewrite Hr.
Qed.

Lemma foldl_keep {A} (P : list A → bool) (rows : list (list A)) t :
  foldl (λ t row, if P row then t ++ row else t) t rows = t ++ concat (filter (λ row, P row = true) rows).
Proof.
  revert t. induction rows as [|row rows IH]; intros t; simpl; [by rewrite app_nil_r|].
  rewrite filter_cons. destruct (P row).
  - rewrite decide_True, IH by done. simpl. by rewrite app_assoc.
  - rewrite decide_False by done. apply IH.
Qed.

Section spec.
  Context (r : Result) (rows : list (list sid_t)).
  Hypothesis Hr : res_rows r rows.

  (** an argument the relational filters support *)
Definition arg_ok (f : Filter) : Prop :=
  f_type f = Literal ∨ f_type f = Variable_ ∧ ∃ c, bound r (valueArg f) c.

  (** the first argument is a bound variable *)
Definition var_ok (f : option Filter) : Prop := ∃ a c, f = Some a ∧ bound r (valueArg a) c.

  (** A filter that the engine evaluates on these rows. *)
Fixpoint filter_ok (f : Filter) : Prop :=
  match f_type f with
  | And | Or => match arg1 f, arg2 f with Some a, Some b => filter_ok a ∧ filter_ok b | _, _ => False end
  | Equal | NotEqual | Less | LessOrEqual | Greater | GreaterOrEqual =>
      match arg1 f, arg2 f with Some a, Some b => arg_ok a ∧ arg_ok b | _, _ => False end
  | Builtin_bound | Builtin_isiri | Builtin_isliteral => var_ok (arg1 f)
  | Builtin_regex =>
      var_ok (arg1 f) ∧
      (∃ a2 p, arg2 f = Some a2 ∧
         regex_compile (match arg3 f with Some a3 => bool_decide (f_value a3 = "i"%string) | None => false end) (f_value a2) = Some p) ∧
      (∀ row, row ∈ rows → str_of (arg_value r row (arg1 f)) ≠ ""%string)
  | _ => False
  end.

  (** A filter of another kind, such as [!], arithmetic, [sameTerm], [lang] or [datatype]:
      the engine passes over it. *)
Definition ignored (f : Filter) : bool :=
  match f_type f with
  | And | Or | Equal | NotEqual | Less | LessOrEqual | Greater | GreaterOrEqual
  | Builtin_bound | Builtin_isiri | Builtin_isliteral | Builtin_regex => false
  | _ => true
  end.

Lemma bound_cell v c i row : bound r v c → rows !! i = Some row →
  get_row_col r i (var_col r v) = Ok (cell row (var_col r v)).
Proof.
  intros [Hv Hc] Hi. unfold var_col. rewrite Hv, Nat2Z.id.
  rewrite (get_row_col_rows r rows i row) by done. unfold cell, read.
  destruct (row !! c) eqn:E; [done|]. apply lookup_ge_None in E.
  pose proof (proj1 (Forall_lookup _ _) (rr_grid _ _ Hr) _ _ Hi). simpl in *. lia.
Qed.

Lemma arg_get_str f : arg_ok f → ∃ col, arg_col r f = Ok col ∧
  ∀ i row, rows !! i = Some row → get_str r f i col = Ok (arg_str r row f).
Proof.
  intros [E|[E (c & Hb)]]; unfold arg_col, get_str, arg_str; rewrite E; simpl.
  - by eexists.
  - exists (Z.of_nat (var_col r (valueArg f))). split.
    + unfold var_col. destruct Hb as [Hv _]. by rewrite Hv, Nat2Z.id.
    + intros i row Hi. by rewrite Nat2Z.id, (bound_cell _ c i row Hb Hi).
Qed.

Lemma relational_filter_ok f a b sat : arg1 f = Some a → arg2 f = Some b → arg_ok a → arg_ok b →
  length sat = length rows →
  relational_filter f r sat = Ok (keep_flags (λ row, rel_holds (f_type f) (arg_str r row a) (arg_str r row b)) rows sat).
Proof.
  intros E1 E2 Ha Hb Hl. unfold relational_filter. rewrite E1, E2. simpl.
  destruct (arg_get_str a Ha) as (c1 & -> & H1). destruct (arg_get_str b Hb) as (c2 & -> & H2). simpl.
  rewrite (get_row_num_rows r rows) by done. apply clear_rows_spec; [done|].
  intros i row Hi. by rewrite (H1 i row Hi), (H2 i row Hi).
Qed.

Lemma value_filter_ok f sat test (P : sid_t → bool) : var_ok (arg1 f) → length sat = length rows →
  (∀ row, row ∈ rows → test (arg_value r row (arg1 f)) = Ok (P (arg_value r row (arg1 f)))) →
  value_filter f r test sat = Ok (keep_flags (λ row, P (arg_value r row (arg1 f))) rows sat).
Proof.
  intros (a & c & E & Hb) Hl Ht. unfold value_filter. rewrite E in Ht |- *. simpl in *.
  assert (Hv : var2col r (valueArg a) = Ok (Z.of_nat (var_col r (valueArg a)))).
  { unfold var_col. destruct Hb as [Hv _]. by rewrite Hv, Nat2Z.id. }
  rewrite Hv. simpl. rewrite Hl. apply clear_rows_spec; [done|].
  intros i row Hi. rewrite Nat2Z.id, (bound_cell _ c i row Hb Hi). simpl. apply Ht. by eapply list_elem_of_lookup_2.
Qed.

Lemma regex_filter_ok f sat : f_type f = Builtin_regex → filter_ok f → length sat = length rows →
  regex_filter f r sat = Ok (keep_flags (λ row, regex_holds f (arg_value r row (arg1 f))) rows sat).
Proof.
  intros Et Hok Hl. destruct f as [t a1 a2 a3 v va]. simpl in Et. subst t. simpl in Hok.
  destruct Hok as (Hv & (x & p & -> & Hp) & Hne). unfold regex_filter, regex_holds. simpl. rewrite Hp.
  apply (value_filter_ok (MkFilter Builtin_regex a1 (Some x) a3 v va) sat _
    (λ id, match unquote (String.list_ascii_of_string (str_of id)) with Ok s => regex_match s p | Err _ => false end));
    [done|done|].
  intros row Hrow. specialize (Hne row Hrow). simpl in *. generalize dependent (str_of (arg_value r row a1)).
  intros [|ch s] Hs; [done|]. simpl. by destruct (bool_decide (ch = quote) && _).
Qed.

Lemma keep_flags_ext P Q sat : (∀ row, P row = Q row) → keep_flags P rows sat = keep_flags Q rows sat.
Proof. intros HPQ. unfold keep_flags. apply zip_with_ext; [by intros s row; rewrite HPQ|done|done]. Qed.

Lemma keep_flags_and P Q sat : length sat = length rows →
  keep_flags Q rows (keep_flags P rows sat) = keep_flags (λ row, P row && Q row) rows sat.
Proof.
  intros Hl. unfold keep_flags. apply list_eq. intros i. rewrite !lookup_zip_with.
  destruct (sat !! i); [|done]. simpl. destruct (rows !! i); [|done]. simpl. by rewrite andb_assoc.
Qed.

Lemma keep_flags_true sat : length sat = length rows → keep_flags (λ _, true) rows sat = sat.
Proof.
  intros Hl. unfold keep_flags. apply list_eq. intros i. rewrite lookup_zip_with.
  destruct (sat !! i) eqn:E; [|done]. simpl.
  destruct (lookup_lt_is_Some_2 rows i) as [row Hi]; [rewrite <-Hl; by eapply lookup_lt_Some|].
  rewrite Hi. simpl. by rewrite andb_true_r.
Qed.

Lemma or_flags P Q sat : length sat = length rows →
  foldM (λ sat i,
    s ← read sat i; s1 ← read (keep_flags P rows (replicate (length rows) true)) i;
    s2 ← read (keep_flags Q rows (replicate (length rows) true)) i;
    write sat i (s && (s1 || s2))) sat (seq 0 (length sat)) = Ok (keep_flags (λ row, P row || Q row) rows sat).
Proof.
  intros Hl. rewrite <-(imap_flags (λ row, P row || Q row) rows sat
    (λ i x, x && default true ((λ row, P row || Q row) <$> rows !! i))); [|done|by intros i x row ->].
  apply foldM_update. intros sat' i x Hl' Hx.
  destruct (lookup_lt_is_Some_2 rows i) as [row Hi]; [rewrite <-Hl, <-Hl'; by eapply lookup_lt_Some|].
  unfold read, keep_flags. rewrite Hx, !lookup_zip_with, Hi. simpl.
  rewrite lookup_replicate_2 by (by eapply lookup_lt_Some). simpl.
  unfold write. by rewrite bool_decide_true by (by eapply lookup_lt_Some).
Qed.

Lemma general_filter_ok : ∀ f sat, filter_ok f → length sat = length rows →
  general_filter f r sat = Ok (keep_flags (λ row, filter_holds r row f) rows sat).
Proof.
  fix IH 1. intros f sat Hok Hl. destruct f as [t a1 a2 a3 v va].
  destruct t; try (simpl in Hok; destruct a1 as [a|]; [|done]; destruct a2 as [b|]; [|done]; destruct Hok as [Ha Hb];
                   exact (relational_filter_ok (MkFilter _ (Some a) (Some b) a3 v va) a b sat eq_refl eq_refl Ha Hb Hl));
    try (by destruct Hok).
  - simpl in Hok. destruct a1 as [a|], a2 as [b|]; [|done..]. destruct Hok as [Ha Hb]. simpl.
    rewrite (get_row_num_rows r rows) by done.
    rewrite (IH a), (IH b) by (done || by rewrite length_replicate). simpl. by apply or_flags.
  - simpl in Hok. destruct a1 as [a|], a2 as [b|]; [|done..]. destruct Hok as [Ha Hb]. simpl.
    rewrite (IH a) by done. simpl. rewrite (IH b) by (done || by apply keep_flags_length). by rewrite keep_flags_and.
  - exact (value_filter_ok (MkFilter Builtin_bound a1 a2 a3 v va) sat _ (λ id, negb (id =? BLANK_ID)%Z) Hok Hl (λ _ _, eq_refl)).
  - exact (value_filter_ok (MkFilter Builtin_isiri a1 a2 a3 v va) sat _
      (λ id, regex_match (String.list_ascii_of_string (str_of id)) IRI_pattern) Hok Hl (λ _ _, eq_refl)).
  - exact (value_filter_ok (MkFilter Builtin_isliteral a1 a2 a3 v va) sat _
      (λ id, regex_match (String.list_ascii_of_string (str_of id)) RDFLiteral_pattern) Hok Hl (λ _ _, eq_refl)).
  - exact (regex_filter_ok (MkFilter Builtin_regex a1 a2 a3 v va) sat eq_refl Hok Hl).
Qed.

Lemma general_filter_ignored f sat : ignored f = true → general_filter f r sat = Ok sat.
Proof. destruct f as [t a1 a2 a3 v va]. by destruct t. Qed.
Lemma filter_ok_not_ignored f : filter_ok f → ignored f = false.
Proof. destruct f as [t a1 a2 a3 v va]. by destruct t. Qed.

Lemma filters_ok fs sat : Forall (λ f, ignored f = true ∨ filter_ok f) fs → length sat = length rows →
  foldM (λ sat f, general_filter f r sat) sat fs =
    Ok (keep_flags (λ row, forallb (filter_holds r row) (filter (λ f, ignored f = false) fs)) rows sat).
Proof.
  intros Hok. revert sat. induction Hok as [|f fs [Hi|Hf] _ IH]; intros sat Hl.
  - exact (f_equal Ok (eq_sym (keep_flags_true sat Hl))).
  - cbn [foldM]. rewrite general_filter_ignored by done. cbn [mbind outcome_bind]. rewrite IH by done. by rewrite filter_cons_False by (by rewrite Hi).
  - cbn [foldM]. rewrite general_filter_ok by done. cbn [mbind outcome_bind].
    rewrite IH by (by apply keep_flags_length). rewrite filter_cons_True by (by apply filter_ok_not_ignored). by rewrite keep_flags_and.
Qed.

Lemma keep_by_flags (P : list sid_t → bool) :
  foldM (λ t row, s ← read (keep_flags P rows (replicate (length rows) true)) row;
           if s : bool then append_row_to r row t else Ok t) [] (seq 0 (length rows)) =
  Ok (concat (filter (λ row, P row = true) rows)).
Proof.
  destruct (foldM_rows (λ _, True)
    (λ t row, s ← read (keep_flags P rows (replicate (length rows) true)) row;
       if s : bool then append_row_to r row t else Ok t)
    (λ t row, if P row then t ++ row else t) rows []) as [-> _]; [done| |].
  - intros i row t _ Hi. split; [|done]. unfold read, keep_flags. rewrite lookup_zip_with, Hi.
    rewrite lookup_replicate_2 by (by eapply lookup_lt_Some). simpl. destruct (P row); [|done].
    by apply (append_row_to_rows r rows).
  - by rewrite foldl_keep.
Qed.
End spec.

(** C29: FILTER keeps exactly the rows on which every filter of the group that the engine
    evaluates holds, in their order, and updates the number of rows; the attribute table
    is left as it is. Evaluated are [&&] and [||] of evaluated filters, comparisons of
    strings, [bound], [isIRI], [isLiteral] and [regex], on bound variables; a filter of
    any other kind, [!] among them, has no effect on the rows. *)
Theorem filter_query_rows q rows :
  res_rows (result q) rows → filters (pattern_group q) ≠ [] →
  Forall (λ f, ignored f = true ∨ filter_ok (result q) rows f) (filters (pattern_group q)) →
  ∃ q', filter_query q = Ok q' ∧
    let evaluated := filter (λ f, ignored f = false) (filters (pattern_group q)) in
    let kept := filter (λ row, forallb (filter_holds (result q) row) evaluated = true) rows in
    res_rows (result q') kept ∧ row_num (result q') = length kept ∧
    attr_res_table (result q') = attr_res_table (result q).
Proof.
  intros Hr Hne Hok. unfold filter_query, has_filter.
  assert ((0 <? length (filters (pattern_group q))) = true) as -> by (by destruct (filters _)).
  cbn [assert_that mbind outcome_bind]. rewrite (get_row_num_rows _ rows Hr).
  rewrite (filters_ok _ rows Hr) by (done || by rewrite length_replicate). cbn [mbind outcome_bind].
  rewrite (keep_by_flags _ rows Hr). cbn [mbind outcome_bind]. eexists. split; [reflexivity|]. cbv zeta.
  set (kept := filter _ rows).
  assert (Hk : res_rows (set_table (concat kept) (result q)) kept).
  { destruct Hr as [Hc Hg _]. split; [done| |done]. apply Forall_forall. intros row [_ Hin]%list_elem_of_filter.
    unfold grid in Hg. rewrite Forall_forall in Hg. by apply Hg. }
  split_and!; [by destruct Hk; split| |done]. simpl. by apply (get_row_num_rows _ kept).
Qed.
End filter.

(** *** FILTER ((?x = ?y || bound(?x)) && regex(?x, ...)) and FILTER (! bound(?x)) on a table of two columns *)

Definition abc_strings : String_Server :=
  MkStrings ∅ {[131072%Z := String quote (String "a" (String quote EmptyString)); 131073%Z := "b"%string]} ∅ 0 0.
Definition var_arg (v : Z) : Filter := MkFilter Variable_ None None None "" v.
Definition sample_filter : Filter :=
  MkFilter And
    (Some (MkFilter Or (Some (MkFilter Equal (Some (var_arg (-1))) (Some (MkFilter Literal None None None "a" 0)) None "" 0))
                       (Some (MkFilter Builtin_bound (Some (var_arg (-2))) None None "" 0)) None "" 0))
    (Some (MkFilter Builtin_regex (Some (var_arg (-1))) (Some (MkFilter Literal None None None "a" 0)) None "" 0)) None "" 0.
Definition negated_filter : Filter := MkFilter Not (Some (MkFilter Builtin_bound (Some (var_arg (-1))) None None "" 0)) None None "" 0.
Definition sample_query : SPARQLQuery :=
  set_result (MkResult 2 0 0 false 2 [0; 1]%Z [] [131072; BLANK_ID; 131073; 131073]%Z [] [])
    (set_group (MkGroup false [] [] [sample_filter; negated_filter] [] ∅) new_query).
(** a compiler that knows one pattern *)
Definition compile_a (icase : bool) (s : string) : option regex := Some (chr 97).

Lemma filter_query_rows_witness :
  ∃ q', filter_query abc_strings compile_a sample_query = Ok q' ∧ res_rows (result q') [[131072; BLANK_ID]%Z].
Proof.
  destruct (filter_query_rows abc_strings compile_a sample_query [[131072; BLANK_ID]; [131073; 131073]]%Z) as (q' & E & Hr & _).
  - split; [simpl; lia|repeat constructor|reflexivity].
  - done.
  - apply Forall_cons. split; [|by apply Forall_singleton; left]. right. split; [split|].
    + split; [right; split; [done|]; exists 0; split; [reflexivity|simpl; lia]|by left].
    + exists (var_arg (-2)), 1. split; [done|]. split; [reflexivity|simpl; lia].
    + split; [exists (var_arg (-1)), 0; split; [done|]; split; [reflexivity|simpl; lia]|]. split; [by eexists _, _|].
      intros row Hrow. apply elem_of_cons in Hrow as [->|Hrow]; [discriminate|]. apply list_elem_of_singleton in Hrow as ->. discriminate.
  - exists q'. split; [exact E|exact Hr].
Defined.
