(* ===== verification/Final.v ===== *)
(** [core/engine.hpp], the solution modifiers: DISTINCT, ORDER BY, OFFSET, LIMIT and
    the projection to the required variables ([final_process]). [std::sort] is an
    interface with its documented guarantee. *)

From stdpp Require Import strings sorting.
From S2P Require Import Prelude Types MyMath Keys Query Rows Engine EngineSteps StringServer.
Local Open Scope nat_scope.

(** A strict weak ordering of the elements of [l], as [std::sort] demands of its
    comparator. *)
Record strict_weak {A} (l : list A) (lt : A → A → bool) : Prop := {
  sw_irrefl x : x ∈ l → lt x x = false;
  sw_trans x y z : x ∈ l → y ∈ l → z ∈ l → lt x y = true → lt y z = true → lt x z = true;
  sw_incomp x y z : x ∈ l → y ∈ l → z ∈ l →
    lt x y = false → lt y x = false → lt y z = false → lt z y = false → lt x z = false ∧ lt z x = false
}.

(** [std::sort(begin, end, lt)]: a permutation, ordered when [lt] is a strict weak
    ordering (nothing else is guaranteed, and nothing at all for another [lt]). *)
Class StdSort := {
  std_sort : ∀ A : Type, (A → A → bool) → list A → list A;
  std_sort_perm A lt (l : list A) : strict_weak l lt → std_sort A lt l ≡ₚ l;
  std_sort_sorted A lt (l : list A) : strict_weak l lt →
    StronglySorted (λ x y, lt y x = false) (std_sort A lt l)
}.

Section final.
  Context `{StdSort} (strs : String_Server).

(** [ReduceCmp]: the rows in lexicographic order of their columns *)
Fixpoint ReduceCmp (a b : list Z) : bool :=
  match a, b with
  | x :: a, y :: b => if (x =? y)%Z then ReduceCmp a b else (x <? y)%Z
  | _, _ => false
  end.

(** [Compare]: both strings are tested with the id of [a] *)
Fixpoint Compare (r : Result) (orders : list Order) (a b : list Z) : outcome bool :=
  match orders with
  | [] => Ok false
  | o :: orders =>
      col ← var2col r (o_id o);
      x ← read a (Z.to_nat col);
      y ← read b (Z.to_nat col);
      let str_a := if exist strs (u32 x) then default ""%string (id2str strs !! u32 x) else ""%string in
      (* [id2str[y]] of an absent id is the empty string *)
      let str_b := if exist strs (u32 x) then default ""%string (id2str strs !! u32 y) else ""%string in
      match String.compare str_a str_b with
      | Eq => Compare r orders a b
      | Lt => Ok (negb (descending o))
      | Gt => Ok (descending o)
      end
  end.

(** the comparator that [std::sort] calls *)
Definition compare_rows (r : Result) (orders : list Order) (a b : list Z) : bool :=
  match Compare r orders a b with Ok b => b | Err _ => false end.

(** [equal]: the rows agree on the required variables *)
Fixpoint equal_rows (r : Result) (vars : list ssid_t) (a b : list Z) : outcome bool :=
  match vars with
  | [] => Ok true
  | v :: vars =>
      col ← var2col r v;
      x ← read a (Z.to_nat col);
      y ← read b (Z.to_nat col);
      if negb (x =? y)%Z then Ok false else equal_rows r vars a b
  end.

Definition swap_rows (table : list (list Z)) (p q : nat) : outcome (list (list Z)) :=
  x ← read table p; y ← read table q;
  table ← write table p y;
  write table q x.

(** the two nested [while] loops of DISTINCT, up to the label [out] *)
Fixpoint distinct_loop (fuel : nat) (r : Result) (table : list (list Z)) (p q : nat)
    : outcome (list (list Z) * nat) :=
  match fuel with
  | O => Err OutOfFuel
  | S fuel =>
      if q <? length table then
        a ← read table p; b ← read table q;
        e ← equal_rows r (required_vars r) a b;
        if e : bool then distinct_loop fuel r table p (S q)
        else
          table ← swap_rows table (S p) q;
          distinct_loop fuel r table (S p) (S q)
      else Ok (table, S p)
  end.

(** [table[i][j] = get_row_col(i, j)] *)
Definition int_row (r : Result) (i : nat) : outcome (list Z) :=
  foldM (λ row j, x ← get_row_col r i j; Ok (row ++ [i32 x])) [] (seq 0 (col_num r)).

(** every id that ORDER BY reads has a string *)
Definition ordered_exist (r : Result) (orders : list Order) (table : list (list Z)) : bool :=
  forallb (λ row, forallb (λ o,
    match var2col r (o_id o) with
    | Ok col => match row !! Z.to_nat col with Some x => exist strs (u32 x) | None => false end
    | Err _ => false
    end) orders) table.

(** DISTINCT and ORDER BY. An id without a string makes [Compare] no strict weak
    ordering ([compare_not_strict_weak] below), for which [std::sort] is undefined. *)
Definition sort_table (q : SPARQLQuery) : outcome SPARQLQuery :=
  let r := result q in
  table ← mapM (int_row r) (seq 0 (get_row_num r));
  '(table, new_size) ←
    (if distinct q then
       let table := std_sort _ ReduceCmp table in
       distinct_loop (S (length table)) r table 0 1
     else Ok (table, length table));
  table ←
    (if 0 <? length (orders q) then
       if (new_size <=? 1) || ordered_exist r (orders q) (take new_size table)
       then Ok (std_sort _ (compare_rows r (orders q)) (take new_size table))
       else Err Undefined
     else Ok (take new_size table));
  (* write back the data *)
  Ok (set_result (set_table ((u32 <$> concat table) ++ drop (get_row_num r * col_num r) (result_table r)) r) q).

(** [erase(begin, min(begin + offset * col_num, end))], in unsigned arithmetic *)
Definition skip_offset (q : SPARQLQuery) : SPARQLQuery :=
  let r := result q in
  if (0 <? offset q)%Z
  then set_result (set_table (drop (Z.to_nat (u32 (offset q * Z.of_nat (col_num r)))) (result_table r)) r) q else q.

(** [erase(min(begin + limit * col_num, end), end)], in signed arithmetic *)
Definition take_limit (q : SPARQLQuery) : outcome SPARQLQuery :=
  let r := result q in
  if (0 <=? limit q)%Z then
    let n := (limit q * Z.of_nat (col_num r))%Z in
    if (n <? 2 ^ 31)%Z then Ok (set_result (set_table (take (Z.to_nat n) (result_table r)) r) q)
    else Err Undefined
  else Ok q.

(** the columns [vars] of [n] rows, by [get] *)
Definition project_cells {A} (r : Result) (get : nat → nat → outcome A) (vars : list ssid_t) (n : nat)
    : outcome (list A) :=
  foldM (λ t i, foldM (λ t v, c ← var2col r v; x ← get i (Z.to_nat c); Ok (t ++ [x])) t vars) [] (seq 0 n).

(** remove unrequested variables *)
Definition project (q : SPARQLQuery) : outcome SPARQLQuery :=
  let r := result q in
  kinds ← mapM (λ v, b ← is_attr_col r v; Ok (v, b)) (required_vars r);
  let normal_var := (filter (λ vb, vb.2 = false) kinds).*1 in
  let attr_var := (filter (λ vb, vb.2 = true) kinds).*1 in
  let n := get_row_num r in
  t ← project_cells r (get_row_col r) normal_var n;
  let r' := set_col_num (length normal_var) (set_table t r) in
  let r' := set_row_num (get_row_num r') r' in
  ats ← project_cells r' (get_attr_row_col r') attr_var n;
  Ok (set_result (set_attr_col_num (length attr_var) (set_attr_table ats r')) q).

Definition final_process (q : SPARQLQuery) : outcome SPARQLQuery :=
  if blind (result q) || (length (result_table (result q)) =? 0) then Ok q
  else
    q ← (if distinct q || (0 <? length (orders q)) then sort_table q else Ok q);
    let q := skip_offset q in
    q ← take_limit q;
    project q.

  (** ** Rows *)

Lemma mapM_rows {A B} (f : nat → outcome B) (g : A → B) (rows : list A) k :
  (∀ i row, rows !! i = Some row → f (k + i) = Ok (g row)) →
  mapM f (seq k (length rows)) = Ok (g <$> rows).
Proof.
  revert k. induction rows as [|row rows IH]; intros k Hf; [done|]. simpl.
  pose proof (Hf 0 row eq_refl) as E. rewrite Nat.add_0_r in E. rewrite E. simpl.
  rewrite (IH (S k)); [done|]. intros i row' Hi. rewrite <-(Hf (S i) row') by done. f_equal. lia.
Qed.

Lemma int_row_rows r rows i row : res_rows r rows → rows !! i = Some row → int_row r i = Ok (i32 <$> row).
Proof.
  intros Hr Hi. pose proof (proj1 (Forall_lookup _ _) (rr_grid _ _ Hr) _ _ Hi) as Hl. simpl in Hl.
  unfold int_row. rewrite <-Hl.
  assert (Hk : ∀ k, k <= length row →
    foldM (λ row j, x ← get_row_col r i j; Ok (row ++ [i32 x])) [] (seq 0 k) = Ok (i32 <$> take k row)).
  { induction k as [|k IH]; intros Hk; [done|]. rewrite seq_S, foldM_snoc, IH by lia. simpl.
    destruct (lookup_lt_is_Some_2 row k) as [x Hx]; [lia|].
    rewrite (get_row_col_rows r rows i row) by (done || lia). unfold read. rewrite Hx. simpl.
    by rewrite (take_S_r row k x), fmap_app. }
  rewrite Hk by lia. by rewrite take_ge.
Qed.

Lemma sid_i32 x : is_sid x → u32 (i32 x) = x.
Proof. unfold is_sid, u32, i32. intros Hx. Z.div_mod_to_equations. lia. Qed.

(** the projection of a row to the columns [cols] *)
Definition proj (cols : list nat) (row : list sid_t) : list sid_t := cell row <$> cols.

Lemma project_row r vars cols (get : nat → outcome sid_t) row t :
  Forall2 (bound r) vars cols → (∀ c, c ∈ cols → get c = Ok (cell row c)) →
  foldM (λ t v, c ← var2col r v; x ← get (Z.to_nat c); Ok (t ++ [x])) t vars = Ok (t ++ proj cols row).
Proof.
  intros Hb. revert t. induction Hb as [|v c vars cols [Hv _] _ IH]; intros t Hget; simpl; [by rewrite app_nil_r|].
  rewrite Hv. simpl. rewrite Nat2Z.id, Hget by set_solver. simpl. rewrite IH by set_solver. by rewrite <-app_assoc.
Qed.

Lemma project_cells_rows r rows vars cols :
  res_rows r rows → Forall2 (bound r) vars cols →
  project_cells r (get_row_col r) vars (length rows) = Ok (concat (proj cols <$> rows)).
Proof.
  intros Hr Hb. unfold project_cells.
  destruct (foldM_rows (λ _, True)
    (λ t i, foldM (λ t v, c ← var2col r v; x ← get_row_col r i (Z.to_nat c); Ok (t ++ [x])) t vars)
    (λ t row, t ++ proj cols row) rows []) as [-> _]; [done| |].
  - intros i row t _ Hi. split; [|done]. apply (project_row r vars cols (get_row_col r i)); [done|].
    intros c Hc. assert (Hlt : c < col_num r).
    { apply list_elem_of_lookup in Hc as [j Hj]. by destruct (Forall2_lookup_r _ _ _ _ _ Hb Hj) as (v & _ & _ & ?). }
    rewrite (get_row_col_rows r rows i row) by done. unfold cell, read.
    destruct (row !! c) eqn:E; [done|]. apply lookup_ge_None in E.
    pose proof (proj1 (Forall_lookup _ _) (rr_grid _ _ Hr) _ _ Hi). simpl in *. lia.
  - f_equal. change (concat (proj cols <$> rows)) with ([] ++ concat (proj cols <$> rows)). generalize (@nil sid_t).
    clear Hr. induction rows as [|row rows IH]; intros t; simpl; [by rewrite app_nil_r|]. by rewrite IH, <-app_assoc.
Qed.

(** what a query needs for its projection: the required variables are bound to the
    columns [cols] of the id table *)
Record projects (r : Result) (cols : list nat) : Prop := {
  pj_bound : Forall2 (bound r) (required_vars r) cols;
  pj_normal v : v ∈ required_vars r → is_attr_col r v = Ok false;
  pj_some : required_vars r ≠ []
}.

Lemma project_rows q rows cols :
  res_rows (result q) rows → projects (result q) cols →
  ∃ r', project q = Ok (set_result r' q) ∧ res_rows r' (proj cols <$> rows) ∧ row_num r' = length rows ∧
    blind r' = blind (result q).
Proof.
  intros Hr [Hb Hn Hs]. unfold project.
  assert (mapM (λ v, b ← is_attr_col (result q) v; Ok (v, b)) (required_vars (result q)) =
    Ok ((λ v, (v, false)) <$> required_vars (result q))) as ->.
  { clear Hb Hs. induction (required_vars (result q)) as [|v l IH]; [done|]. simpl. rewrite (Hn v) by set_solver.
    simpl. rewrite IH; [done|]. intros w Hw. apply Hn. set_solver. }
  cbn [mbind outcome_bind].
  assert ((filter (λ vb : ssid_t * bool, vb.2 = false) ((λ v, (v, false)) <$> required_vars (result q))).*1 = required_vars (result q)) as ->.
  { clear. induction (required_vars (result q)) as [|v l IH]; [done|]. rewrite fmap_cons, filter_cons_True by done. by rewrite fmap_cons, IH. }
  assert (filter (λ vb : ssid_t * bool, vb.2 = true) ((λ v, (v, false)) <$> required_vars (result q)) = []) as ->.
  { clear. induction (required_vars (result q)) as [|v l IH]; [done|]. by rewrite fmap_cons, filter_cons_False by done. }
  rewrite (get_row_num_rows _ rows Hr), (project_cells_rows _ rows _ cols Hr Hb). cbn [mbind outcome_bind fmap list_fmap].
  pose proof (Forall2_length _ _ _ Hb) as Hlen.
  set (r' := set_col_num (length (required_vars (result q))) (set_table (concat (proj cols <$> rows)) (result q))).
  assert (Hr' : res_rows r' (proj cols <$> rows)).
  { split; [simpl; destruct (required_vars (result q)); simpl; [done|lia]| |done].
    apply Forall_fmap, Forall_true. intros row. simpl. unfold proj. by rewrite length_fmap. }
  assert (∀ r0 get n, project_cells (A:=attr_t) r0 get [] n = Ok []) as ->.
  { intros r0 get n. unfold project_cells. generalize 0. clear. induction n as [|n IH]; intros k; simpl; [done|apply IH]. }
  cbn [mbind outcome_bind]. eexists. split; [reflexivity|]. split; [by destruct Hr'; split|].
  split; [|done]. simpl. rewrite (get_row_num_rows r' _ Hr'). by rewrite length_fmap.
Qed.

Lemma rows_drop r rows n : res_rows r rows → drop (n * col_num r) (result_table r) = concat (drop n rows).
Proof.
  intros [_ Hg ->]. revert n. induction Hg as [|row rows Hl _ IH]; intros n; [simpl; by rewrite !drop_nil|].
  destruct n as [|n]; [done|]. simpl. rewrite drop_app_ge by lia. rewrite <-IH. f_equal. lia.
Qed.

Lemma rows_take r rows n : res_rows r rows → take (n * col_num r) (result_table r) = concat (take n rows).
Proof.
  intros [_ Hg ->]. revert n. induction Hg as [|row rows Hl _ IH]; intros n; [simpl; by rewrite !take_nil|].
  destruct n as [|n]; [done|]. simpl. rewrite take_app_ge by lia. rewrite <-IH. do 2 f_equal. lia.
Qed.

Lemma projects_table r cols t : projects r cols → projects (set_table t r) cols.
Proof. intros [? ? ?]. by split. Qed.

(** the rows that OFFSET and LIMIT leave *)
Definition window (q : SPARQLQuery) (rows : list (list sid_t)) : list (list sid_t) :=
  let rows := drop (Z.to_nat (offset q)) rows in
  if (0 <=? limit q)%Z then take (Z.to_nat (limit q)) rows else rows.

Lemma window_ok q rows cols :
  res_rows (result q) rows → projects (result q) cols →
  (0 <= offset q)%Z → (offset q * Z.of_nat (col_num (result q)) < 2 ^ 32)%Z →
  (limit q * Z.of_nat (col_num (result q)) < 2 ^ 31)%Z →
  ∃ r', (q ← take_limit (skip_offset q); project q) = Ok (set_result r' q) ∧
    res_rows r' (proj cols <$> window q rows) ∧ row_num r' = length (window q rows) ∧ blind r' = blind (result q).
Proof.
  intros Hr Hp Ho1 Ho2 Hl. set (rows1 := drop (Z.to_nat (offset q)) rows).
  assert (Hq1 : ∃ t, skip_offset q = set_result (set_table t (result q)) q ∧ res_rows (set_table t (result q)) rows1).
  { unfold skip_offset, rows1. destruct (Z.ltb_spec 0 (offset q)).
    - eexists. split; [done|]. destruct Hr as [Hc Hg Ht]. split; [done| |].
      + apply Forall_drop, Hg.
      + simpl. rewrite <-(rows_drop (result q)) by (by split). f_equal. unfold u32. rewrite Z.mod_small by lia. lia.
    - exists (result_table (result q)). replace (Z.to_nat (offset q)) with 0 by lia. rewrite drop_0.
      by destruct q as [? ? ? ? ? ? ? ? ? ? ? ? ? ? ? ? ? ? ? []]. }
  destruct Hq1 as (t & -> & Hr1). unfold take_limit, window. cbn [result set_result limit set_table col_num]. fold rows1.
  destruct (Z.leb_spec 0 (limit q)) as [Hl0|Hl0].
  - rewrite (proj2 (Z.ltb_lt _ _)) by done. cbn [mbind outcome_bind].
    replace (Z.to_nat (limit q * Z.of_nat (col_num (result q)))) with (Z.to_nat (limit q) * col_num (result q)) by lia.
    pose proof (rows_take _ _ (Z.to_nat (limit q)) Hr1) as E. cbn [result_table set_table col_num] in E |- *. rewrite E.
    destruct (project_rows (set_result (set_table (concat (take (Z.to_nat (limit q)) rows1)) (result q)) q)
      (take (Z.to_nat (limit q)) rows1) cols) as (r' & Eq & Hq' & Hn); [|by apply projects_table|by exists r'].
    destruct Hr1 as [? Hg ?]. split; [done| |done]. by apply Forall_take.
  - cbn [mbind outcome_bind].
    destruct (project_rows (set_result (set_table t (result q)) q) rows1 cols Hr1) as (r' & Eq & Hq' & Hn);
      [by apply projects_table|by exists r'].
Qed.

Lemma empty_table r rows : res_rows r rows → (length (result_table r) =? 0) = bool_decide (rows = []).
Proof.
  intros [Hc Hg Ht]. rewrite Ht, (grid_length (col_num r)) by done.
  destruct rows; [by rewrite Nat.mul_0_r|]. rewrite bool_decide_false by done. apply Nat.eqb_neq. simpl. lia.
Qed.

(** without DISTINCT and ORDER BY, also when there are no rows *)
Lemma final_process_plain q rows cols :
  blind (result q) = false → distinct q = false → orders q = [] →
  res_rows (result q) rows → projects (result q) cols →
  (0 <= offset q)%Z → (offset q * Z.of_nat (col_num (result q)) < 2 ^ 32)%Z →
  (limit q * Z.of_nat (col_num (result q)) < 2 ^ 31)%Z →
  ∃ r', final_process q = Ok (set_result r' q) ∧ blind r' = false ∧
    (rows ≠ [] → row_num r' = length (window q rows)) ∧
    if bool_decide (rows = []) then r' = result q else res_rows r' (proj cols <$> window q rows).
Proof.
  intros Hb Hd Ho Hr Hp Ho1 Ho2 Hl. unfold final_process. rewrite Hb, Hd, Ho, (empty_table _ rows Hr).
  case_bool_decide as Hne; cbn [orb length Nat.ltb Nat.leb mbind outcome_bind].
  - exists (result q). split_and!; [by destruct q|done|done|done].
  - destruct (window_ok q rows cols) as (r' & E & Hr' & Hn & Hb'); [done..|]. exists r'. by rewrite Hb', Hb.
Qed.

(** without DISTINCT and ORDER BY the final processing returns the rows from
    OFFSET on, at most LIMIT of them, in their order and projected to the required
    variables, and counts them. *)
Theorem final_process_window q rows cols :
  blind (result q) = false → distinct q = false → orders q = [] →
  res_rows (result q) rows → rows ≠ [] → projects (result q) cols →
  (0 <= offset q)%Z → (offset q * Z.of_nat (col_num (result q)) < 2 ^ 32)%Z →
  (limit q * Z.of_nat (col_num (result q)) < 2 ^ 31)%Z →
  ∃ q', final_process q = Ok q' ∧
    res_rows (result q') (proj cols <$> window q rows) ∧ row_num (result q') = length (window q rows).
Proof.
  intros Hb Hd Ho Hr Hne Hp Ho1 Ho2 Hl.
  destruct (final_process_plain q rows cols) as (r' & E & _ & Hn & Hr'); [done..|].
  rewrite bool_decide_false in Hr' by done. exists (set_result r' q). split; [done|]. split; [done|]. by apply Hn.
Qed.

  (** ** DISTINCT *)

Lemma reduce_irrefl a : ReduceCmp a a = false.
Proof. induction a as [|x a IH]; simpl; [done|]. by rewrite Z.eqb_refl. Qed.

Lemma reduce_trans a b c : ReduceCmp a b = true → ReduceCmp b c = true → ReduceCmp a c = true.
Proof.
  revert b c. induction a as [|x a IH]; intros [|y b] [|z c]; simpl; try done.
  destruct (Z.eqb_spec x y), (Z.eqb_spec y z), (Z.eqb_spec x z); subst; try done; rewrite ?Z.ltb_lt; try lia.
  by apply IH.
Qed.

Lemma reduce_antisym a b : length a = length b → ReduceCmp a b = false → ReduceCmp b a = false → a = b.
Proof.
  revert b. induction a as [|x a IH]; intros [|y b]; simpl; try done. intros [= Hl].
  destruct (Z.eqb_spec x y), (Z.eqb_spec y x); subst; try done; [intros; f_equal; by apply IH|].
  rewrite !Z.ltb_ge. lia.
Qed.

Lemma reduce_strict_weak n l : Forall (λ row, length row = n) l → strict_weak l ReduceCmp.
Proof.
  intros Hl. rewrite Forall_forall in Hl. split.
  - intros x _. apply reduce_irrefl.
  - intros x y z _ _ _. apply reduce_trans.
  - intros x y z Hx Hy Hz H1 H2 H3 H4.
    assert (x = y) as -> by (apply reduce_antisym; [rewrite !Hl|..]; done).
    assert (y = z) as -> by (apply reduce_antisym; [rewrite !Hl|..]; done). by rewrite reduce_irrefl.
Qed.

  (** what the loop keeps: [x], and then each element that differs from the last kept *)
Fixpoint adjacent {A} (e : A → A → bool) (x : A) (l : list A) : list A :=
  match l with
  | [] => [x]
  | y :: l => if e x y then adjacent e x l else x :: adjacent e y l
  end.

Lemma swap_rows_ok table p q K x y :
  p < q → take (S p) table = K ++ [x] → table !! q = Some y →
  ∃ table', swap_rows table (S p) q = Ok table' ∧ length table' = length table ∧
    take (S (S p)) table' = (K ++ [x]) ++ [y] ∧ drop (S q) table' = drop (S q) table ∧
    (∀ a, a ∈ table' → a ∈ table).
Proof.
  intros Hpq Ht Hq. pose proof (lookup_lt_Some _ _ _ Hq) as Hlt.
  destruct (lookup_lt_is_Some_2 table (S p)) as [z Hz]; [lia|].
  exists (<[q := z]> (<[S p := y]> table)). unfold swap_rows, read, write. rewrite Hz, Hq. simpl.
  rewrite (bool_decide_true (S p < length table)) by lia. simpl.
  rewrite bool_decide_true by (rewrite length_insert; lia). split_and!; [done|by rewrite !length_insert| | |].
  - rewrite (take_S_r _ (S p) y).
    + f_equal. rewrite take_insert_ge, take_insert_ge by lia. done.
    + destruct (decide (S p = q)) as [<-|].
      * rewrite list_lookup_insert_eq by (rewrite length_insert; lia). congruence.
      * rewrite list_lookup_insert_ne, list_lookup_insert_eq by lia. done.
  - by rewrite !drop_insert_lt by lia.
  - intros a [i Hi]%list_elem_of_lookup.
    apply list_lookup_insert_Some in Hi as [(_ & <- & _)|[_ Hi]]; [by eapply list_elem_of_lookup_2|].
    apply list_lookup_insert_Some in Hi as [(_ & <- & _)|[_ Hi]]; by eapply list_elem_of_lookup_2.
Qed.

Lemma distinct_loop_ok r e fuel table p q K x :
  (∀ a b, a ∈ table → b ∈ table → equal_rows r (required_vars r) a b = Ok (e a b)) →
  p < q → q <= length table → take (S p) table = K ++ [x] → length table - q < fuel →
  ∃ table' n, distinct_loop fuel r table p q = Ok (table', n) ∧
    take n table' = K ++ adjacent e x (drop q table).
Proof.
  revert table p q K x. induction fuel as [|fuel IH]; intros table p q K x He Hpq Hq Ht Hf; [lia|].
  cbn [distinct_loop]. destruct (Nat.ltb_spec q (length table)) as [Hlt|Hge].
  - destruct (lookup_lt_is_Some_2 table q Hlt) as [y Hy]. rewrite (drop_S table y q) by done.
    assert (Hx : table !! p = Some x).
    { rewrite <-(lookup_take_lt table (S p)), Ht by lia. apply list_lookup_middle.
      assert (length (take (S p) table) = length (K ++ [x])) as E by (by rewrite Ht).
      rewrite length_take, length_app, Nat.min_l in E by lia. cbn [length] in E. lia. }
    unfold read. rewrite Hx, Hy. simpl. rewrite (He x y) by (by eapply list_elem_of_lookup_2). simpl.
    destruct (e x y).
    + apply (IH table p (S q)); [done|lia|lia|done|lia].
    + destruct (swap_rows_ok table p q K x y Hpq Ht Hy) as (table' & -> & Hl & Ht' & Hd & Hin). simpl.
      destruct (IH table' (S p) (S q) (K ++ [x]) y) as (t2 & n & -> & E); [|lia|lia|done|lia|].
      * intros a b Ha Hb. apply He; by apply Hin.
      * exists t2, n. split; [done|]. rewrite E, Hd. by rewrite <-app_assoc.
  - exists table, (S p). split; [done|]. rewrite drop_ge by lia. done.
Qed.

Section adjacent.
  Context {A : Type} (e : A → A → bool).

Lemma adjacent_sub x l y : y ∈ adjacent e x l → y ∈ x :: l.
Proof. revert x. induction l as [|z l IH]; intros x; simpl; [done|]. destruct (e x z); [|]; set_solver. Qed.

(** each element is represented by a kept one *)
Lemma adjacent_rep x l y : (∀ a, e a a = true) → y ∈ x :: l → ∃ z, z ∈ adjacent e x l ∧ e z y = true.
Proof.
  intros Hr. revert x. induction l as [|w l IH]; intros x Hy; simpl.
  - apply list_elem_of_singleton in Hy as ->. exists x. split; [set_solver|done].
  - apply elem_of_cons in Hy as [->|Hy].
    + destruct (e x w).
      * apply IH. set_solver.
      * exists x. split; [set_solver|done].
    + destruct (e x w) eqn:E.
      * apply elem_of_cons in Hy as [->|Hy]; [|apply IH; set_solver].
        exists x. split; [|done]. clear -x. induction l as [|w' l IH]; simpl; [set_solver|]. destruct (e x w'); set_solver.
      * destruct (IH w Hy) as (z & Hz & Hzy). exists z. split; [set_solver|done].
Qed.

(** on a sorted list, when [e] is equality, there are no duplicates left *)
Lemma adjacent_nodup (R : A → A → Prop) x l :
  StronglySorted R (x :: l) → (∀ a b, a ∈ x :: l → b ∈ x :: l → R a b → R b a → a = b) →
  (∀ a b, a ∈ x :: l → b ∈ x :: l → e a b = true ↔ a = b) → NoDup (adjacent e x l).
Proof.
  revert x. induction l as [|y l IH]; intros x Hs Hanti He; simpl; [apply NoDup_singleton|].
  apply StronglySorted_inv in Hs as [Hs Hx]. rewrite Forall_forall in Hx.
  destruct (e x y) eqn:E.
  - apply He in E as ->; [|set_solver..]. apply IH; [done|set_solver|set_solver].
  - apply NoDup_cons. split.
    + intros Hin%adjacent_sub. assert (Hne : x ≠ y) by (intros ->; rewrite (proj2 (He y y ltac:(set_solver) ltac:(set_solver)) eq_refl) in E; done).
      apply elem_of_cons in Hin as [?|Hin]; [done|]. apply Hne. apply Hanti; [set_solver..|apply Hx; set_solver|].
      apply StronglySorted_inv in Hs as [_ Hy]. rewrite Forall_forall in Hy. by apply Hy.
    + apply IH; [done|set_solver|set_solver].
Qed.
End adjacent.

(** agreement on the columns [cols] *)
Definition same_on (cols : list nat) (a b : list Z) : bool := forallb (λ c, bool_decide (a !! c = b !! c)) cols.

Lemma equal_rows_ok r vars cols a b :
  Forall2 (bound r) vars cols → length a = col_num r → length b = col_num r →
  equal_rows r vars a b = Ok (same_on cols a b).
Proof.
  intros Hb Ha Hlb. induction Hb as [|v c vars cols [Hv Hc] _ IH]; [done|]. simpl. rewrite Hv. simpl.
  rewrite Nat2Z.id. destruct (lookup_lt_is_Some_2 a c) as [x Hx]; [lia|]. destruct (lookup_lt_is_Some_2 b c) as [y Hy]; [lia|].
  unfold read. rewrite Hx, Hy. simpl. rewrite IH.
  destruct (Z.eqb_spec x y) as [->|Hne]; simpl; [by rewrite bool_decide_true|].
  by rewrite bool_decide_false by congruence.
Qed.

Lemma same_on_cells n cols (a b : list sid_t) :
  length a = n → length b = n → Forall is_sid a → Forall is_sid b → Forall (λ c, c < n) cols →
  same_on cols (i32 <$> a) (i32 <$> b) = true ↔ proj cols a = proj cols b.
Proof.
  intros Ha Hb Hsa Hsb Hc. unfold same_on, proj. rewrite forallb_forall.
  assert (Hcell : ∀ c, c < n → (i32 <$> a) !! c = (i32 <$> b) !! c ↔ cell a c = cell b c).
  { intros c Hlt. destruct (lookup_lt_is_Some_2 a c) as [x Hx]; [lia|]. destruct (lookup_lt_is_Some_2 b c) as [y Hy]; [lia|].
    rewrite !list_lookup_fmap. unfold cell. rewrite Hx, Hy. simpl.
    pose proof (Forall_lookup_1 _ _ _ _ Hsa Hx) as Sx. pose proof (Forall_lookup_1 _ _ _ _ Hsb Hy) as Sy.
    split; [|by intros ->]. intros [= E]. rewrite <-(sid_i32 x), <-(sid_i32 y) by done. by rewrite E. }
  split.
  - intros Hall. apply list_eq. intros i. rewrite !list_lookup_fmap. destruct (cols !! i) as [c|] eqn:E; [|done]. simpl. f_equal.
    apply Hcell; [by eapply Forall_lookup_1 in Hc|]. eapply bool_decide_eq_true_1, Hall, list_elem_of_In. by eapply list_elem_of_lookup_2.
  - intros E c Hin%list_elem_of_In. apply bool_decide_eq_true_2. rewrite Forall_forall in Hc. apply Hcell; [by apply Hc|].
    apply list_elem_of_lookup in Hin as [i Hi].
    assert (Hl : (cell a <$> cols) !! i = (cell b <$> cols) !! i) by (by rewrite E).
    rewrite !list_lookup_fmap, Hi in Hl. by injection Hl.
Qed.

(** the table as [int]s, and back *)
Definition int_table (rows : list (list sid_t)) : list (list Z) := (λ row : list sid_t, i32 <$> row) <$> rows.
Definition sid_table (table : list (list Z)) : list (list sid_t) := (λ row : list Z, u32 <$> row) <$> table.

Lemma int_row_inv (row : list sid_t) : Forall is_sid row → u32 <$> (i32 <$> row) = row.
Proof.
  intros Hs. rewrite <-list_fmap_compose. rewrite <-(list_fmap_id row) at 2. apply list_fmap_ext.
  intros i y Hy. simpl. apply sid_i32. by eapply Forall_lookup_1 in Hs.
Qed.

Lemma same_on_refl cols a : same_on cols a a = true.
Proof. apply forallb_forall. intros c _. by apply bool_decide_eq_true_2. Qed.

Section dedup.
  Context (n : nat) (rows : list (list sid_t)) (cols : list nat).
  Hypothesis Hg : grid n rows.
  Hypothesis Hsid : Forall (Forall is_sid) rows.
  Hypothesis Hcols : Forall (λ c, c < n) cols.
  (** the sorted table *)
  Context (x : list Z) (l : list (list Z)).
  Hypothesis Hperm : x :: l ≡ₚ int_table rows.
  Hypothesis Hsort : StronglySorted (λ a b, ReduceCmp b a = false) (x :: l).
  Abbreviation kept := (adjacent (same_on cols) x l).

Lemma table_row a : a ∈ x :: l → ∃ row, a = i32 <$> row ∧ row ∈ rows ∧ length row = n ∧ Forall is_sid row.
Proof.
  rewrite Hperm. unfold int_table. intros (row & -> & Hin)%list_elem_of_fmap. exists row.
  unfold grid in Hg. rewrite Forall_forall in Hg, Hsid. split_and!; [done|done|by apply Hg|by apply Hsid].
Qed.

Lemma kept_row a : a ∈ kept → ∃ row, a = i32 <$> row ∧ row ∈ rows ∧ length row = n ∧ Forall is_sid row.
Proof. intros Ha. by apply table_row, (adjacent_sub (same_on cols)). Qed.

Lemma kept_sub row : row ∈ sid_table kept → row ∈ rows.
Proof.
  unfold sid_table. intros (a & -> & Ha)%list_elem_of_fmap. destruct (kept_row a Ha) as (row & -> & Hin & _ & Hs).
  by rewrite int_row_inv.
Qed.

Lemma kept_rep row : row ∈ rows → ∃ row', row' ∈ sid_table kept ∧ proj cols row' = proj cols row.
Proof.
  intros Hin. destruct (adjacent_rep (same_on cols) x l (i32 <$> row)) as (z & Hz & He); [apply same_on_refl| |].
  { rewrite Hperm. apply list_elem_of_fmap. by exists row. }
  destruct (kept_row z Hz) as (rz & -> & _ & Lz & Sz). exists rz. split.
  - apply list_elem_of_fmap. exists (i32 <$> rz). by rewrite int_row_inv.
  - pose proof Hg as Hg'. pose proof Hsid as Hs'. unfold grid in Hg'. rewrite Forall_forall in Hg', Hs'.
    apply (same_on_cells n); [done|by apply Hg'|done|by apply Hs'|done|done].
Qed.

Lemma same_on_all a b : (∀ c, c < n → c ∈ cols) → length a = n → length b = n → same_on cols a b = true → a = b.
Proof.
  intros Hcov Ha Hb. unfold same_on. rewrite forallb_forall. intros Hall. apply list_eq. intros i.
  destruct (decide (i < n)) as [Hi|Hi].
  - eapply bool_decide_eq_true_1, Hall, list_elem_of_In. by apply Hcov.
  - by rewrite !lookup_ge_None_2 by lia.
Qed.

Lemma kept_nodup : (∀ c, c < n → c ∈ cols) → NoDup (proj cols <$> sid_table kept).
Proof.
  intros Hcov. unfold sid_table. rewrite <-list_fmap_compose. apply NoDup_fmap_2_strong.
  - intros a b Ha Hb E. simpl in E.
    destruct (kept_row a Ha) as (ra & -> & _ & La & Sa). destruct (kept_row b Hb) as (rb & -> & _ & Lb & Sb).
    rewrite !int_row_inv in E by done. apply same_on_all; [done|by rewrite length_fmap..|]. by apply (same_on_cells n).
  - apply (adjacent_nodup (same_on cols) (λ a b, ReduceCmp b a = false)); [done|..]; intros a b Ha Hb;
      destruct (table_row a Ha) as (ra & -> & _ & La & _); destruct (table_row b Hb) as (rb & -> & _ & Lb & _).
    + intros. apply reduce_antisym; [by rewrite !length_fmap, La, Lb|done|done].
    + split; [|intros ->; apply same_on_refl]. apply same_on_all; [done|by rewrite length_fmap..].
Qed.
End dedup.

Lemma concat_sid_table t : u32 <$> concat t = concat (sid_table t).
Proof. induction t as [|row t IH]; [done|]. simpl. by rewrite fmap_app, IH. Qed.

(** the distinct rows [D] that [sort_table] leaves *)
Lemma sort_table_distinct q rows cols :
  res_rows (result q) rows → Forall (Forall is_sid) rows → projects (result q) cols →
  distinct q = true → orders q = [] → rows ≠ [] →
  ∃ D, sort_table q = Ok (set_result (set_table (concat D) (result q)) q) ∧
    (∀ row, row ∈ D → row ∈ rows) ∧ (∀ row, row ∈ rows → ∃ row', row' ∈ D ∧ proj cols row' = proj cols row) ∧
    ((∀ c, c < col_num (result q) → c ∈ cols) → NoDup (proj cols <$> D)).
Proof.
  intros Hr Hsid [Hb _ _] Hd Ho Hne. unfold sort_table. rewrite (get_row_num_rows _ rows Hr).
  rewrite (mapM_rows _ (λ row : list sid_t, i32 <$> row) rows 0) by (intros; by eapply int_row_rows). cbn [mbind outcome_bind].
  rewrite Hd, Ho. fold (int_table rows). pose proof (rr_grid _ _ Hr) as Hg.
  assert (Hcols : Forall (λ c, c < col_num (result q)) cols).
  { apply Forall_forall. intros c [i Hi]%list_elem_of_lookup. by destruct (Forall2_lookup_r _ _ _ _ _ Hb Hi) as (v & _ & _ & ?). }
  assert (Hsw : strict_weak (int_table rows) ReduceCmp).
  { apply (reduce_strict_weak (col_num (result q))). apply Forall_fmap. eapply Forall_impl; [exact Hg|].
    intros row Hl. simpl. by rewrite length_fmap. }
  pose proof (std_sort_perm _ _ _ Hsw) as Hperm. pose proof (std_sort_sorted _ _ _ Hsw) as Hsort.
  destruct (std_sort _ ReduceCmp (int_table rows)) as [|x l].
  { symmetry in Hperm. apply Permutation_nil_r in Hperm. by destruct rows. }
  pose proof (table_row _ rows Hg Hsid x l Hperm) as HT.
  destruct (distinct_loop_ok (result q) (same_on cols) (S (length (x :: l))) (x :: l) 0 1 [] x) as (T' & k & -> & Hk).
  { intros a b Ha Hab. destruct (HT a Ha) as (ra & -> & _ & La & _). destruct (HT b Hab) as (rb & -> & _ & Lb & _).
    apply equal_rows_ok; [done|by rewrite length_fmap..]. }
  { lia. } { simpl; lia. } { done. } { lia. }
  cbn [mbind outcome_bind length Nat.ltb Nat.leb]. rewrite Hk. cbn [app drop].
  exists (sid_table (adjacent (same_on cols) x l)). split_and!.
  - rewrite drop_0. do 3 f_equal. rewrite drop_ge, app_nil_r; [apply concat_sid_table|].
    rewrite (rr_table _ _ Hr), (grid_length (col_num (result q))) by done. lia.
  - intros row. by eapply kept_sub.
  - intros row. by eapply kept_rep.
  - by eapply kept_nodup.
Qed.

(** C30: DISTINCT (without ORDER BY): the rows returned, before OFFSET and LIMIT cut
    them, have exactly the projections of the rows of the query; and when every
    column of the table is required, no projection is returned twice. *)
Theorem final_process_distinct q rows cols :
  blind (result q) = false → distinct q = true → orders q = [] →
  res_rows (result q) rows → Forall (Forall is_sid) rows → rows ≠ [] → projects (result q) cols →
  (0 <= offset q)%Z → (offset q * Z.of_nat (col_num (result q)) < 2 ^ 32)%Z →
  (limit q * Z.of_nat (col_num (result q)) < 2 ^ 31)%Z →
  ∃ q' D, final_process q = Ok q' ∧ res_rows (result q') (proj cols <$> window q D) ∧
    (∀ y, y ∈ proj cols <$> D ↔ y ∈ proj cols <$> rows) ∧
    ((∀ c, c < col_num (result q) → c ∈ cols) → NoDup (proj cols <$> D)).
Proof.
  intros Hb Hd Ho Hr Hsid Hne Hp Ho1 Ho2 Hl. unfold final_process. rewrite Hb, Hd.
  rewrite (empty_table _ rows Hr), bool_decide_false by done.
  cbn [orb]. destruct (sort_table_distinct q rows cols Hr Hsid Hp Hd Ho Hne) as (D & -> & Hsub & Hrep & Hnd).
  cbn [mbind outcome_bind].
  destruct (window_ok (set_result (set_table (concat D) (result q)) q) D cols) as (r' & E & Hq' & _);
    [|by apply projects_table|done..|].
  { destruct Hr as [Hc Hg _]. split; [done| |done]. apply Forall_forall. intros row Hin. unfold grid in Hg.
    rewrite Forall_forall in Hg. by apply Hg, Hsub. }
  exists (set_result r' (set_result (set_table (concat D) (result q)) q)), D. split_and!; [exact E|exact Hq'| |done]. intros y. rewrite !list_elem_of_fmap. split.
  - intros (row & -> & Hin). exists row. split; [done|by apply Hsub].
  - intros (row & -> & Hin). destruct (Hrep row Hin) as (row' & Hin' & <-). by exists row'.
Qed.
End final.

(** ** A sort that meets the contract of [std::sort] *)

Section insertion.
  Context {A : Type} (lt : A → A → bool).

Fixpoint insert_sorted (x : A) (l : list A) : list A :=
  match l with
  | [] => [x]
  | y :: l' => if lt y x then y :: insert_sorted x l' else x :: y :: l'
  end.
Definition insertion_sort (l : list A) : list A := foldr insert_sorted [] l.

Lemma insert_sorted_perm x l : insert_sorted x l ≡ₚ x :: l.
Proof. induction l as [|y l IH]; simpl; [done|]. destruct (lt y x); [|done]. rewrite IH. apply Permutation_swap. Qed.

Lemma insertion_sort_perm l : insertion_sort l ≡ₚ l.
Proof. induction l as [|x l IH]; simpl; [done|]. by rewrite insert_sorted_perm, IH. Qed.

(** the order [not (y < x)] of a strict weak ordering is transitive *)
Lemma strict_weak_trans U x y z : strict_weak U lt → x ∈ U → y ∈ U → z ∈ U →
  lt y x = false → lt z y = false → lt z x = false.
Proof.
  intros [_ Ht Hi] Hx Hy Hz H1 H2. destruct (lt z x) eqn:E; [|done].
  destruct (lt x y) eqn:Exy; [by rewrite (Ht z x y) in H2|].
  destruct (lt y z) eqn:Eyz; [by rewrite (Ht y z x) in H1|].
  destruct (Hi x y z Hx Hy Hz Exy H1 Eyz H2). congruence.
Qed.

Lemma insert_sorted_sorted U x l : strict_weak U lt → x ∈ U → (∀ y, y ∈ l → y ∈ U) →
  StronglySorted (λ a b, lt b a = false) l → StronglySorted (λ a b, lt b a = false) (insert_sorted x l).
Proof.
  intros Hsw Hx Hl Hs. pose proof Hsw as [Hirr Ht _].
  induction Hs as [|y l Hs IH Hy]; simpl; [by repeat constructor|].
  assert (HyU : y ∈ U) by (apply Hl; left). assert (HlU : ∀ z, z ∈ l → z ∈ U) by (intros z Hz; apply Hl; by right).
  destruct (lt y x) eqn:E; constructor.
  - by apply IH.
  - apply Forall_forall. intros z. rewrite insert_sorted_perm. intros [->|Hz]%elem_of_cons.
    + destruct (lt x y) eqn:E'; [|done]. pose proof (Ht x y x Hx HyU Hx E' E) as E2. by rewrite Hirr in E2.
    + rewrite Forall_forall in Hy. by apply Hy.
  - by constructor.
  - constructor; [done|]. rewrite Forall_forall in Hy |- *. intros z Hz.
    by apply (strict_weak_trans U x y z); auto.
Qed.

Lemma insertion_sort_sorted l : strict_weak l lt → StronglySorted (λ a b, lt b a = false) (insertion_sort l).
Proof.
  intros Hsw. assert (Hu : ∀ k, (∀ x, x ∈ k → x ∈ l) → StronglySorted (λ a b, lt b a = false) (insertion_sort k)).
  { induction k as [|x k IH]; intros Hk; [constructor|]. simpl. apply (insert_sorted_sorted l); [done|apply Hk; left| |].
    - intros y Hy. apply Hk. right. by rewrite <-insertion_sort_perm.
    - apply IH. intros y Hy. apply Hk. by right. }
  by apply Hu.
Qed.
End insertion.

#[export] Instance insertion_std_sort : StdSort := {|
  std_sort A lt l := insertion_sort lt l;
  std_sort_perm A lt l _ := insertion_sort_perm lt l;
  std_sort_sorted A lt l Hsw := insertion_sort_sorted lt l Hsw
|}.

(** *** A table of three rows, of which the second column is required *)

Definition pairs_query (dist : bool) (req : list ssid_t) (limit offset : Z) : SPARQLQuery :=
  MkQuery (-1) (-1) 0 BASIC SQ_FINAL 1 0 0 0 false 0 0 false 0 limit offset dist empty_group []
    (MkResult 2 3 0 false 2 [0; 1]%Z req [1; 5; 2; 6; 3; 5]%Z [] []).
Definition pairs_rows : list (list sid_t) := [[1; 5]; [2; 6]; [3; 5]]%Z.

Lemma pairs_res dist req limit offset : res_rows (result (pairs_query dist req limit offset)) pairs_rows.
Proof. split; [simpl; lia|repeat constructor|reflexivity]. Qed.

Lemma final_process_window_witness :
  ∃ q', final_process (H := insertion_std_sort) empty_strings (pairs_query false [(-2)%Z] 2 1) = Ok q' ∧
    res_rows (result q') [[6]; [5]]%Z.
Proof.
  destruct (final_process_window (H := insertion_std_sort) empty_strings (pairs_query false [(-2)%Z] 2 1) pairs_rows [1]) as (q' & E & Hr & _);
    [reflexivity|reflexivity|reflexivity|apply pairs_res|discriminate| |vm_compute; discriminate|vm_compute; reflexivity|vm_compute; reflexivity|].
  - split; [|by intros v ->%list_elem_of_singleton|discriminate]. repeat constructor.
  - exists q'. split; [exact E|exact Hr].
Defined.

Lemma final_process_distinct_witness :
  ∃ q' D, final_process (H := insertion_std_sort) empty_strings (pairs_query true [(-2)%Z; (-1)%Z] 2 1) = Ok q' ∧
    res_rows (result q') (proj [1; 0] <$> window (pairs_query true [(-2)%Z; (-1)%Z] 2 1) D) ∧ NoDup (proj [1; 0] <$> D).
Proof.
  destruct (final_process_distinct (H := insertion_std_sort) empty_strings (pairs_query true [(-2)%Z; (-1)%Z] 2 1) pairs_rows [1; 0])
    as (q' & D & E & Hr & _ & Hnd);
    [reflexivity|reflexivity|reflexivity|apply pairs_res| |discriminate| |vm_compute; discriminate|vm_compute; reflexivity|vm_compute; reflexivity|].
  - repeat constructor; simpl; unfold is_sid; lia.
  - split; [|intros v Hv; apply elem_of_cons in Hv as [->|Hv]; [reflexivity|by apply list_elem_of_singleton in Hv as ->]|discriminate].
    repeat constructor; simpl; lia.
  - exists q', D. split; [exact E|]. split; [exact Hr|]. apply Hnd. intros c Hc. simpl in Hc.
    destruct c as [|[|c]]; [by right; left|by left|lia].
Defined.

(** DISTINCT does not remove all duplicates when a column of the table is not
    required: the rows are sorted by all columns but compared, neighbour by
    neighbour, on the required ones only. The rows (1,5), (2,6), (3,5) projected to
    the second column come back as 5, 6, 5, whatever [std::sort] does. *)
Theorem distinct_projection_duplicates `{StdSort} :
  ∃ q', final_process empty_strings (pairs_query true [(-2)%Z] (-1) 0) = Ok q' ∧
    res_rows (result q') [[5]; [6]; [5]]%Z.
Proof.
  assert (Hlen : Forall (λ row, length row = 2) pairs_rows) by repeat constructor.
  pose proof (reduce_strict_weak 2 pairs_rows Hlen) as Hsw.
  assert (Hs : std_sort _ ReduceCmp pairs_rows = pairs_rows).
  { apply (StronglySorted_unique_strong (λ a b, ReduceCmp b a = false)).
    - intros a b Ha Hb H1 H2. rewrite std_sort_perm in Ha by done. rewrite Forall_forall in Hlen.
      apply reduce_antisym; [by rewrite !Hlen|done|done].
    - by apply std_sort_sorted.
    - repeat constructor.
    - by apply std_sort_perm. }
  assert (Hst : sort_table empty_strings (pairs_query true [(-2)%Z] (-1) 0) = Ok (pairs_query true [(-2)%Z] (-1) 0)).
  { unfold sort_table. set (r := result _).
    assert (mapM (int_row r) (seq 0 (get_row_num r)) = Ok pairs_rows) as -> by reflexivity.
    cbn [mbind outcome_bind distinct pairs_query]. rewrite Hs. vm_compute. reflexivity. }
  unfold final_process. cbn [blind result pairs_query distinct orders orb length result_table Nat.eqb]. rewrite Hst.
  eexists. split; [vm_compute; reflexivity|]. split; [simpl; lia|repeat constructor|reflexivity].
Qed.

(** [Compare] is no strict weak ordering when an id has no string, as the
    [BLANK_ID] of an unbound OPTIONAL or UNION variable: it tests the id of the
    first row for both rows, so a blank value is neither before nor after any other
    value, while the other values are ordered. [std::sort] is then undefined. *)
Theorem compare_not_strict_weak (strs : String_Server) (x y : sid_t) (sx sy : string) :
  id2str strs !! x = Some sx → id2str strs !! y = Some sy → String.compare sx sy = Lt →
  is_sid x → is_sid y → id2str strs !! BLANK_ID = None →
  let r := MkResult 1 3 0 false 1 [0%Z] [] [x; BLANK_ID; y] [] [] in
  ¬ strict_weak (int_table [[x]; [BLANK_ID]; [y]]) (compare_rows strs r [MkOrder (-1) false]).
Proof.
  intros Hx Hy Hlt Sx Sy Hb r [_ _ Hi].
  assert (Hblank : is_sid BLANK_ID) by (unfold is_sid, BLANK_ID; lia).
  assert (Hcmp : ∀ a b, is_sid a → is_sid b → compare_rows strs r [MkOrder (-1) false] [i32 a] [i32 b] =
    match String.compare (if exist strs a then default ""%string (id2str strs !! a) else ""%string)
                         (if exist strs a then default ""%string (id2str strs !! b) else ""%string)
    with Lt => true | _ => false end).
  { intros a b Ha Hb'. unfold compare_rows. cbn [Compare o_id descending]. change (var2col r (-1)) with (@Ok Z 0%Z).
    cbn [mbind outcome_bind]. unfold read. simpl. rewrite !sid_i32 by done.
    set (c := String.compare _ _). by destruct c. }
  assert (Ex : exist strs x = true) by (unfold exist; by rewrite Hx).
  assert (Ey : exist strs y = true) by (unfold exist; by rewrite Hy).
  assert (Eb : exist strs BLANK_ID = false) by (unfold exist; rewrite Hb; apply bool_decide_eq_false_2; by intros [? ?]).
  assert (Hemp : ∀ s, String.compare s ""%string ≠ Lt) by (by intros []).
  destruct (Hi [i32 x] [i32 BLANK_ID] [i32 y]) as [E _]; [left|right; left|right; right; left|..].
  - rewrite Hcmp, Ex, Hb by done. cbn [default from_option].
    set (c := String.compare _ _). destruct c eqn:E; [done|by apply Hemp in E|done].
  - by rewrite Hcmp, Eb.
  - by rewrite Hcmp, Eb.
  - rewrite Hcmp, Ey, Hb by done. cbn [default from_option].
    set (c := String.compare _ _). destruct c eqn:E; [done|by apply Hemp in E|done].
  - rewrite Hcmp, Ex, Hx, Hy in E by done. simpl in E. by rewrite Hlt in E.
Qed.

Lemma compare_not_strict_weak_witness :
  ¬ strict_weak (int_table [[131072]; [BLANK_ID]; [131073]]%Z)
      (compare_rows (MkStrings ∅ {[131072%Z := "a"%string; 131073%Z := "b"%string]} ∅ 0 0)
         (MkResult 1 3 0 false 1 [0%Z] [] [131072; BLANK_ID; 131073]%Z [] []) [MkOrder (-1) false]).
Proof.
  apply (compare_not_strict_weak _ 131072 131073 "a" "b");
    [reflexivity|reflexivity|reflexivity|unfold is_sid; lia|unfold is_sid; lia|reflexivity].
Defined.
