(* ===== verification/Server.v ===== *)
(** [core/engine.hpp], an engine as a server of requests: the reply map of fork-join
    execution, message sending with its stash, [execute_patterns] and
    [execute_sparql_query], and one round of [Engine::run].

    A server is the list of its engines; the handler of one engine works on the
    reply map of another one when it has stolen the request from it. Locks are not
    modelled: a handler is one step. *)

From stdpp Require Import strings.
From S2P Require Import Prelude Types MyMath Tuple Keys Coder Query Rows Serial Engine Exec Regex StringServer Filter Final.
Local Open Scope nat_scope.

(** ** The reply map *)

Record Item := MkItem { it_cnt : Z; it_parent : SPARQLQuery; it_reply : SPARQLQuery }.
Abbreviation Reply_Map := (gmap Z Item).

Definition put_parent_request (m : Reply_Map) (r : SPARQLQuery) (cnt : Z) : outcome Reply_Map :=
  ASSERT (bool_decide (m !! q_id r = None)); (* not exist *)
  Ok (<[q_id r := MkItem cnt r new_query]> m).

Definition put_reply (m : Reply_Map) (r : SPARQLQuery) : outcome Reply_Map :=
  match m !! q_pid r with
  | None => Err AssertFail (* exist *)
  | Some d =>
      let whole := result (it_reply d) in
      let part := result r in
      whole ← (if has_union (it_parent d) then merge_union whole part else Ok (append_result whole part));
      let reply := set_result whole (it_reply d) in
      (* keep inprogress *)
      let reply := if bool_decide (state (it_parent d) = SQ_PATTERN)
                   then set_pattern_step (pattern_step r) reply else reply in
      Ok (<[q_pid r := MkItem (it_cnt d - 1) (it_parent d) reply]> m)
  end.

(** [internal_map[pid]] of an absent id makes an item with an indeterminate count *)
Definition is_ready (m : Reply_Map) (pid : Z) : outcome bool :=
  match m !! pid with Some d => Ok (it_cnt d =? 0)%Z | None => Err Undefined end.

Definition get_merged_reply (m : Reply_Map) (pid : Z) : outcome (SPARQLQuery * Reply_Map) :=
  match m !! pid with
  | None => Err Undefined
  | Some d =>
      let r := it_parent d in
      let reply := it_reply d in
      (* copy the result *)
      let res := MkResult (col_num (result reply)) (row_num (result reply)) (attr_col_num (result reply))
        (blind (result reply)) (nvars (result r)) (v2c_map (result reply)) (required_vars (result r))
        (result_table (result reply)) (attr_res_table (result reply)) (optional_matched_rows (result r)) in
      let r' := set_result res r in
      let r' := if bool_decide (state r = SQ_PATTERN) then set_pattern_step (pattern_step reply) r' else r' in
      Ok (r', delete pid m)
  end.

(** ** Messages *)

Record Message := MkMessage { m_sid : Z; m_tid : Z; m_query : SPARQLQuery }.

(** The network below an engine: [send] may refuse a message when the buffer of the
    destination is full. [delivered] lists what it has accepted. *)
Class Adaptor := {
  net : Type;
  net_send : net → Message → bool * net;
  delivered : net → list Message;
  net_send_ok n m : delivered (net_send n m).2 = delivered n ++ (if (net_send n m).1 then [m] else [])
}.

Section engine.
  Context (versatile : bool) `{Config} `{Graph} `{Adaptor} `{StdSort} (strs : String_Server).
  Context (regex_compile : bool → string → option regex) (uset_iter : gset sid_t → list sid_t).

Record engine := MkEngine {
  e_sid : Z;
  e_tid : Z;
  e_coder : coder;
  e_rmap : Reply_Map;
  e_fast : list SPARQLQuery;      (* msg_fast_path *)
  e_queue : list SPARQLQuery;     (* runqueue *)
  e_pending : list Message;       (* pending_msgs *)
  e_net : net
}.

Definition set_rmap (m : Reply_Map) (e : engine) : engine :=
  MkEngine (e_sid e) (e_tid e) (e_coder e) m (e_fast e) (e_queue e) (e_pending e) (e_net e).
Definition set_coder (c : coder) (e : engine) : engine :=
  MkEngine (e_sid e) (e_tid e) c (e_rmap e) (e_fast e) (e_queue e) (e_pending e) (e_net e).
Definition set_fast (l : list SPARQLQuery) (e : engine) : engine :=
  MkEngine (e_sid e) (e_tid e) (e_coder e) (e_rmap e) l (e_queue e) (e_pending e) (e_net e).
Definition set_queue (l : list SPARQLQuery) (e : engine) : engine :=
  MkEngine (e_sid e) (e_tid e) (e_coder e) (e_rmap e) (e_fast e) l (e_pending e) (e_net e).
Definition set_msgs (l : list Message) (n : net) (e : engine) : engine :=
  MkEngine (e_sid e) (e_tid e) (e_coder e) (e_rmap e) (e_fast e) (e_queue e) l n.

(** failed to send, then stash the message to avoid deadlock *)
Definition send_request (e : engine) (m : Message) : engine :=
  let '(ok, n) := net_send (e_net e) m in
  if ok then set_msgs (e_pending e) n e else set_msgs (e_pending e ++ [m]) n e.

(** retry the pending messages, in order *)
Definition sweep_msgs (e : engine) : engine :=
  let '(l, n) := foldl (λ '(l, n) m,
      let '(ok, n) := net_send n m in (if ok then l else l ++ [m], n)) ([], e_net e) (e_pending e) in
  set_msgs l n e.

(** send to another server, or take the fast path on this one *)
Definition dispatch (e : engine) (dst_sid : Z) (q : SPARQLQuery) : engine :=
  if negb (dst_sid =? e_sid e)%Z then send_request e (MkMessage dst_sid (e_tid e) q)
  else set_fast (e_fast e ++ [q]) e.

Definition dispatch_all (e : engine) (subs : list SPARQLQuery) : engine :=
  foldl (λ e '(i, q), dispatch e (Z.of_nat i) q) e (imap pair subs).

(** ** Patterns *)

(** start from the next engine thread *)
Definition fork_tid (tid j : Z) : Z :=
  i32 (Z.rem (tid + j + 1 - global_num_proxies) global_num_engines + global_num_proxies).

(** the sub-query for thread [tid] of a query that starts from an index *)
Definition index_sub_query (r : SPARQLQuery) (tid : Z) : SPARQLQuery :=
  let g := pattern_group r in
  MkQuery (-1) (q_id r) tid (pg_type r) (state r) (mt_factor r) (priority r) (pattern_step r)
    (local_var r) (corun_enabled r) (corun_step r) (fetch_step r) (union_done r) (optional_step r)
    (limit r) (offset r) (distinct r)
    (MkGroup true (patterns g) (unions g) (filters g) (optional g) (optional_new_vars g)) (orders r) (result r).

Definition fork_index (e : engine) (r : SPARQLQuery) : engine :=
  foldl (λ e i, foldl (λ e j,
      let q := index_sub_query r (fork_tid (e_tid e) (Z.of_nat j)) in
      send_request e (MkMessage (Z.of_nat i) (q_tid q) q)) e (seq 0 (Z.to_nat (mt_factor r))))
    e (seq 0 (Z.to_nat global_num_servers)).

(** does the query start from an index on several servers or threads? *)
Definition forks_index (r : SPARQLQuery) : outcome bool :=
  if (pattern_step r =? 0) && negb (parallel (pattern_group r)) then
    b ← start_from_index r;
    Ok (b && (1 <? i32 (global_num_servers * mt_factor r))%Z)
  else Ok false.

(** fork the query into the sub-queries [subs], one per server *)
Definition fork_join (e : engine) (r : SPARQLQuery) (subs : list SPARQLQuery) : outcome engine :=
  m ← put_parent_request (e_rmap e) r (Z.of_nat (length subs));
  Ok (dispatch_all (set_rmap m e) subs).

(** the [do ... while (true)] of [execute_patterns]; [true] when all patterns are done *)
Fixpoint patterns_loop (fuel : nat) (e : engine) (r : SPARQLQuery) : outcome (bool * SPARQLQuery * engine) :=
  match fuel with
  | O => Err OutOfFuel
  | S fuel =>
      r ← execute_one_pattern versatile r;
      (* co-run optimization *)
      r ← (if corun_enabled r && (pattern_step r =? corun_step r) then do_corun versatile uset_iter r else Ok r);
      d ← done r SQ_PATTERN;
      if d : bool then
        (* only send back row_num in blind mode *)
        Ok (true, set_result (set_row_num (get_row_num (result r)) (result r)) r, e)
      else
        f ← need_fork_join r;
        if f : bool then
          subs ← generate_sub_query r;
          e ← fork_join e r subs;
          Ok (false, r, e)
        else patterns_loop fuel e r
  end.

Definition execute_patterns (e : engine) (r : SPARQLQuery) : outcome (bool * SPARQLQuery * engine) :=
  f ← forks_index r;
  if f : bool then
    m ← put_parent_request (e_rmap e) r (global_num_servers * mt_factor r);
    Ok (false, r, fork_index (set_rmap m e) r)
  else patterns_loop (S (length (patterns (pattern_group r)))) e r.

(** ** Requests *)

(** a server: the handler is the engine [me], and [eng] the engine whose reply map
    it uses (another one when the request was stolen) *)

Definition with_engine (s : list engine) (i : nat) (f : engine → outcome engine) : outcome (list engine) :=
  e ← read s i; e ← f e; write s i e.

Definition start_sid (q : SPARQLQuery) : outcome Z :=
  v ← get_start (pattern_group q); hash_mod v global_num_servers.

Definition union_requests (r : SPARQLQuery) : outcome (list (Z * SPARQLQuery)) :=
  foldM (λ l i, q ← inherit_union new_query r i; dst ← start_sid q; Ok (l ++ [(dst, q)])) []
    (seq 0 (length (unions (pattern_group r)))).

(** 2. Union *)
Definition do_union (s : list engine) (me eng : nat) (r : SPARQLQuery) : outcome (list engine) :=
  let r := set_union_done true (set_state SQ_UNION r) in
  s ← with_engine s eng (λ e, m ← put_parent_request (e_rmap e) r (Z.of_nat (length (unions (pattern_group r)))); Ok (set_rmap m e));
  reqs ← union_requests r;
  with_engine s me (λ e, Ok (foldl (λ e '(dst, q), dispatch e dst q) e reqs)).

(** 3. Optional *)
Definition do_optional (s : list engine) (me eng : nat) (r : SPARQLQuery) : outcome (list engine) :=
  let r := set_state SQ_OPTIONAL r in
  opt ← inherit_optional new_query r;
  let r := set_optional_step (S (optional_step r)) r in
  f ← need_fork_join opt;
  if f : bool then
    subs ← generate_sub_query (set_id (q_id r) opt);
    with_engine s me (λ e, fork_join e r subs)
  else
    s ← with_engine s eng (λ e, m ← put_parent_request (e_rmap e) r 1; Ok (set_rmap m e));
    dst ← start_sid opt;
    with_engine s me (λ e, Ok (dispatch e dst opt)).

Definition QUERY_FROM_PROXY (tid : Z) : bool := (tid <? global_num_proxies)%Z.

(** 4. Filter, 5. Final, 6. Reply *)
Definition finish (s : list engine) (me : nat) (r : SPARQLQuery) : outcome (list engine) :=
  r ← (if has_filter r then filter_query strs regex_compile (set_state SQ_FILTER r) else Ok r);
  r ← (if QUERY_FROM_PROXY (tid_of (q_pid r)) then final_process strs (set_state SQ_FINAL r) else Ok r);
  let r := set_state SQ_REPLY (shrink_query r) in
  with_engine s me (λ e, Ok (send_request e (MkMessage (sid_of (q_pid r)) (tid_of (q_pid r)) r))).

(** what follows the patterns *)
Definition after_patterns (s : list engine) (me eng : nat) (r : SPARQLQuery) : outcome (list engine) :=
  u ← done r SQ_UNION;
  if has_union r && negb u then do_union s me eng r
  else
    o ← done r SQ_OPTIONAL;
    if has_optional r && negb o then do_optional s me eng r
    else finish s me r.

Definition continue_query (s : list engine) (me eng : nat) (r : SPARQLQuery) : outcome (list engine) :=
  d ← done r SQ_PATTERN;
  if has_pattern r && negb d then
    e ← read s me;
    '(b, r, e) ← execute_patterns e (set_state SQ_PATTERN r);
    s ← write s me e;
    if b : bool then after_patterns s me eng r else Ok s
  else after_patterns s me eng r.

Definition execute_sparql_query (s : list engine) (me eng : nat) (r : SPARQLQuery) : outcome (list engine) :=
  (* encode the lineage of the query (server & thread) *)
  e ← read s me;
  let '(r, e) := if (q_id r =? -1)%Z
    then let '(id, c) := get_and_inc_qid (e_coder e) in (set_id id r, set_coder c e) else (r, e) in
  s ← write s me e;
  if bool_decide (state r = SQ_REPLY) then
    en ← read s eng;
    m ← put_reply (e_rmap en) r;
    ready ← is_ready m (q_pid r);
    if ready : bool then
      (* all sub-queries have done, continue to execute *)
      '(r, m) ← get_merged_reply m (q_pid r);
      s ← write s eng (set_rmap m en);
      continue_query s me eng r
    else write s eng (set_rmap m en) (* not ready (waiting for the rest) *)
  else continue_query s me eng r.

(** ** The engine loop *)

(** one round of [run] on the engine [own]: the fast path first; [arrived] are the
    queries that [tryrecv] returns in this round, up to the one that is executed *)
Fixpoint receive (s : list engine) (own : nat) (arrived : list SPARQLQuery) : outcome (bool * list engine) :=
  match arrived with
  | [] => Ok (false, s)
  | q :: arrived =>
      (* sub-queries first, to be fair *)
      if negb (priority q =? 0)%Z then s ← execute_sparql_query s own own q; Ok (true, s)
      else s ← with_engine s own (λ e, Ok (set_queue (e_queue e ++ [q]) e)); receive s own arrived
  end.

Definition run_round (s : list engine) (own : nat) (arrived : list SPARQLQuery) : outcome (list engine) :=
  s ← with_engine s own (λ e, Ok (sweep_msgs e));
  e ← read s own;
  match e_fast e with
  | q :: rest =>
      s ← write s own (set_fast rest e);
      execute_sparql_query s own own q
  | [] =>
      '(at_work, s) ← receive s own arrived;
      e ← read s own;
      match at_work : bool, e_queue e with
      | false, q :: rest =>
          s ← write s own (set_queue rest e);
          execute_sparql_query s own own q
      | _, _ => Ok s
      end
  end.
End engine.
