(* ===== verification/ForkJoin.v ===== *)
(** Fork-join execution ([core/engine.hpp]): the sub-queries of a fork partition the
    work, by the owner of the start vertex of each row, or by thread for an index. *)

From S2P Require Import Prelude Types MyMath Tuple Keys Coder HashTable GStore Remote Query Rows Serial Engine EngineSteps Exec.
From S2P Require Import Regex StringServer Filter Final Server.
Local Open Scope nat_scope.

(** ** By owner *)

Section by_owner.
  Context `{Config}.

(** the sub-query of server [i] after the rows [done] *)
Definition sub_at (q : SPARQLQuery) (start : ssid_t) (c : nat) (done : list (list sid_t)) (i : nat) : SPARQLQuery :=
  let base := sub_query q start in
  set_result (set_table (concat (filter (λ row, owner (cell row c) = i) done)) (result base)) base.

Lemma group_row_ok q start c rows i row done (N := Z.to_nat global_num_servers) :
  (0 < global_num_servers < 2 ^ 31)%Z → res_rows (result q) rows → Forall (Forall is_sid) rows →
  is_optional q = false → attr_col_num (result q) = 0 → bound (result q) start c → rows !! i = Some row →
  group_row q start (sub_at q start c done <$> seq 0 N) i = Ok (sub_at q start c (done ++ [row]) <$> seq 0 N).
Proof.
  intros HN Hr Hsid Hopt Hattr Hb Hi. unfold group_row. rewrite (row_var_rows _ rows i row start c Hr Hi Hb). cbn [mbind outcome_bind].
  assert (Hv : is_sid (cell row c)) by (apply cell_sid; by eapply Forall_lookup_1 in Hsid).
  rewrite hash_mod_Ok by (unfold is_sid in Hv; lia). cbn [mbind outcome_bind].
  change (Z.to_nat (cell row c mod global_num_servers)) with (owner (cell row c)).
  assert (Hown : owner (cell row c) < N).
  { unfold owner, N. pose proof (Z.mod_pos_bound (cell row c) global_num_servers). lia. }
  assert (read (sub_at q start c done <$> seq 0 N) (owner (cell row c)) = Ok (sub_at q start c done (owner (cell row c)))) as ->.
  { apply read_Ok. rewrite list_lookup_fmap, lookup_seq_lt by done. done. }
  cbn [mbind outcome_bind]. rewrite (append_row_to_rows _ rows i row) by done. cbn [mbind outcome_bind].
  rewrite Hopt. cbn [mbind outcome_bind]. rewrite append_no_attrs by done. cbn [mbind outcome_bind].
  unfold write. rewrite bool_decide_true by (rewrite length_fmap, length_seq; done). f_equal.
  apply list_eq. intros j. rewrite list_lookup_fmap. destruct (decide (j < N)) as [Hj|Hj].
  - rewrite lookup_seq_lt by done. simpl. destruct (decide (j = owner (cell row c))) as [->|Hne].
    + rewrite list_lookup_insert_eq by (rewrite length_fmap, length_seq; done). unfold sub_at.
      rewrite filter_app, concat_app, filter_cons_True by done. simpl. by rewrite app_nil_r.
    + rewrite list_lookup_insert_ne by done. rewrite list_lookup_fmap, lookup_seq_lt by done. simpl.
      unfold sub_at. rewrite filter_app, filter_cons_False by congruence. by rewrite filter_nil, app_nil_r.
  - rewrite lookup_ge_None_2 by (rewrite length_insert, length_fmap, length_seq; lia).
    by rewrite lookup_ge_None_2 by (rewrite length_seq; lia).
Qed.

Lemma generate_sub_query_ok q p c rows :
  (0 < global_num_servers < 2 ^ 31)%Z → get_pattern q = Ok p → bound (result q) (subject p) c →
  res_rows (result q) rows → Forall (Forall is_sid) rows →
  is_optional q = false → attr_col_num (result q) = 0 →
  generate_sub_query q = Ok (sub_at q (subject p) c rows <$> seq 0 (Z.to_nat global_num_servers)).
Proof.
  intros HN Hp Hb Hr Hsid Hopt Hattr. unfold generate_sub_query. rewrite Hp. cbn [mbind outcome_bind].
  rewrite (get_row_num_rows _ rows Hr).
  assert (Hk : ∀ k, k <= length rows →
    foldM (group_row q (subject p)) (replicate (Z.to_nat global_num_servers) (sub_query q (subject p))) (seq 0 k) =
    Ok (sub_at q (subject p) c (take k rows) <$> seq 0 (Z.to_nat global_num_servers))).
  { induction k as [|k IH]; intros Hk.
    - simpl. f_equal. apply list_eq. intros j. rewrite list_lookup_fmap. destruct (decide (j < Z.to_nat global_num_servers)).
      + by rewrite lookup_seq_lt, lookup_replicate_2 by done.
      + rewrite !lookup_ge_None_2 by (rewrite ?length_seq, ?length_replicate; lia). done.
    - rewrite seq_S, foldM_snoc, IH by lia. cbn [mbind outcome_bind]. destruct (lookup_lt_is_Some_2 rows k) as [row Hrow]; [lia|].
      rewrite (take_S_r rows k row) by done. by apply (group_row_ok q (subject p) c rows). }
  rewrite Hk by lia. by rewrite take_ge.
Qed.

(** distributing the rows over [N] classes loses none *)
Lemma classes_perm {A} (f : A → nat) (rows : list A) N : Forall (λ x, f x < N) rows →
  concat ((λ i, filter (λ x, f x = i) rows) <$> seq 0 N) ≡ₚ rows.
Proof.
  induction 1 as [|x rows Hx _ IH]; [by induction (seq 0 N)|].
  transitivity (x :: concat ((λ i, filter (λ y, f y = i) rows) <$> seq 0 N)); [|by rewrite IH].
  assert (Hsplit : seq 0 N = seq 0 (f x) ++ f x :: seq (S (f x)) (N - S (f x))).
  { replace N with (f x + S (N - S (f x))) at 1 by lia. by rewrite seq_app. }
  rewrite Hsplit, !fmap_app, !fmap_cons, !concat_app. simpl. rewrite filter_cons_True by done. simpl.
  rewrite <-Permutation_middle. constructor.
  assert (Hoff : ∀ l : list nat, f x ∉ l → (λ i, filter (λ y, f y = i) (x :: rows)) <$> l = (λ i, filter (λ y, f y = i) rows) <$> l).
  { intros l Hl. apply list_fmap_ext. intros k i Hi. simpl. rewrite filter_cons_False; [done|].
    intros <-. apply Hl. by eapply list_elem_of_lookup_2. }
  rewrite !Hoff; [done|..]; rewrite elem_of_seq; lia.
Qed.

(** C19: a fork-join step partitions the rows: the sub-query for server [i] carries
    exactly the rows whose start vertex is owned by [i], in their order, with the
    position in the plan and the variable map of the query; together the sub-queries
    carry every row exactly once. *)
Theorem generate_sub_query_partition q p c rows :
  (0 < global_num_servers < 2 ^ 31)%Z → get_pattern q = Ok p → bound (result q) (subject p) c →
  res_rows (result q) rows → Forall (Forall is_sid) rows →
  pg_type q ≠ OPTIONAL → attr_col_num (result q) = 0 →
  ∃ subs, generate_sub_query q = Ok subs ∧ length subs = Z.to_nat global_num_servers ∧
    (∀ i sub, subs !! i = Some sub →
       res_rows (result sub) (filter (λ row, owner (cell row c) = i) rows) ∧
       q_pid sub = q_id q ∧ pattern_step sub = pattern_step q ∧ pattern_group sub = pattern_group q ∧
       v2c_map (result sub) = v2c_map (result q)) ∧
    concat ((λ sub, result_table (result sub)) <$> subs) ≡ₚ result_table (result q).
Proof.
  intros HN Hp Hb Hr Hsid Hopt Hattr. set (N := Z.to_nat global_num_servers).
  exists (sub_at q (subject p) c rows <$> seq 0 N). split_and!.
  - apply generate_sub_query_ok; try done. unfold is_optional. by apply bool_decide_eq_false_2.
  - by rewrite length_fmap, length_seq.
  - intros i sub Hi. apply list_lookup_fmap_Some in Hi as (j & -> & Hj). apply lookup_seq in Hj as [-> Hj]. simpl.
    split_and!; try done. destruct Hr as [Hc Hg _]. split; [done| |done].
    apply Forall_forall. intros row [_ Hin]%list_elem_of_filter. unfold grid in Hg. rewrite Forall_forall in Hg. by apply Hg.
  - rewrite (rr_table _ _ Hr). rewrite <-list_fmap_compose. simpl.
    rewrite <-(classes_perm (λ row, owner (cell row c)) rows N) at 2.
    + clear. induction (seq 0 N) as [|i l IH]; [done|]. simpl. rewrite concat_app. by rewrite IH.
    + apply Forall_forall. intros row Hin. unfold owner, N. pose proof (Z.mod_pos_bound (cell row c) global_num_servers). lia.
Qed.
End by_owner.

(** *** Two servers, three rows *)

Definition forked_query : SPARQLQuery :=
  MkQuery 7 (-1) 0 BASIC SQ_PATTERN 1 0 1 0 false 0 0 false 0 (-1) 0 false
    (MkGroup false [MkPattern 5 0 (-1) IN 0; MkPattern (-1) 6 (-2) OUT 0] [] [] [] ∅) []
    (MkResult 1 0 0 false 2 [0; 65535]%Z [] [131072; 131073; 131074]%Z [] []).

Lemma generate_sub_query_partition_witness :
  ∃ subs, @generate_sub_query two_servers forked_query = Ok subs ∧ length subs = 2 ∧
    concat ((λ sub, result_table (result sub)) <$> subs) ≡ₚ [131072; 131073; 131074]%Z.
Proof.
  destruct (@generate_sub_query_partition two_servers forked_query (MkPattern (-1) 6 (-2) OUT 0) 0
    [[131072]; [131073]; [131074]]%Z) as (subs & E & Hl & _ & Hp).
  - simpl. lia.
  - reflexivity.
  - split; [reflexivity|simpl; lia].
  - split; [simpl; lia|repeat constructor|reflexivity].
  - repeat constructor; unfold is_sid; simpl; lia.
  - done.
  - reflexivity.
  - exists subs. split; [exact E|]. split; [exact Hl|exact Hp].
Defined.

(** ** By thread *)

Section by_thread.
  Context `{Config}.

(** the part of thread [s] of [m] *)
Definition part (edges : list sid_t) (m s : nat) : list sid_t :=
  let len := length edges / m in
  take len (drop (s * len) edges) ++ (if s =? m - 1 then drop (m * len) edges else []).

Lemma index_part_part q edges s m :
  mt_factor q = Z.of_nat m → 0 < m → Z.to_nat (Z.rem (q_tid q) (mt_factor q)) = s → s < m →
  index_part q edges = Ok (part edges m s).
Proof.
  intros Hm Hpos Hs Hlt. unfold index_part, part. rewrite Hs, Hm.
  rewrite (proj2 (Z.eqb_neq _ _)) by lia. rewrite <-Nat2Z.inj_div, Nat2Z.id.
  destruct (Nat.eqb_spec s (m - 1)) as [E|E].
  - rewrite (proj2 (Z.eqb_eq _ _)) by lia. by replace (s + 1) with m by lia.
  - rewrite (proj2 (Z.eqb_neq _ _)) by lia. by rewrite app_nil_r.
Qed.

Lemma parts_concat edges m : 0 < m → concat (part edges m <$> seq 0 m) = edges.
Proof.
  intros Hm. destruct m as [|m]; [lia|]. set (len := length edges / S m).
  assert (Hlen : S m * len <= length edges) by (apply Nat.Div0.mul_div_le).
  assert (Hk : ∀ k, k <= m → concat (part edges (S m) <$> seq 0 k) = take (k * len) edges).
  { induction k as [|k IH]; intros Hk; [done|]. rewrite seq_S, fmap_app, concat_app, IH by lia. simpl.
    unfold part. fold len. rewrite (proj2 (Nat.eqb_neq k _)) by lia. rewrite !app_nil_r.
    rewrite Nat.add_comm. by rewrite take_take_drop. }
  rewrite seq_S, fmap_app, concat_app, Hk by lia. simpl. unfold part. fold len.
  rewrite (proj2 (Nat.eqb_eq m _)) by lia. rewrite app_nil_r, app_assoc, take_take_drop.
  rewrite Nat.add_comm. apply (take_drop (S m * len)).
Qed.

(** the threads of a fork have consecutive residues, from anywhere *)
Lemma rotate_perm (b m : Z) : (0 < m)%Z → (λ j, (b + j) mod m)%Z <$> seqZ 0 m ≡ₚ seqZ 0 m.
Proof.
  intros Hm. apply NoDup_Permutation_bis.
  - apply NoDup_ListNoDup, NoDup_fmap_2_strong; [|apply NoDup_seqZ]. intros x y Hx%elem_of_seqZ Hy%elem_of_seqZ E.
    assert (Hd : ((x - y) mod m = 0)%Z).
    { replace (x - y)%Z with ((b + x) - (b + y))%Z by lia. rewrite Zminus_mod, E, Z.sub_diag. apply Z.mod_0_l. lia. }
    apply Z.mod_divide in Hd as [k Hk]; [|lia].
    destruct (Z.lt_trichotomy k 0) as [Hk0|[->|Hk0]]; [|lia|];
      [assert (k * m <= -1 * m)%Z by (apply Z.mul_le_mono_nonneg_r; lia)|assert (1 * m <= k * m)%Z by (apply Z.mul_le_mono_nonneg_r; lia)]; lia.
  - by rewrite length_fmap.
  - intros x Hx%list_elem_of_In. apply list_elem_of_fmap in Hx as (j & -> & _). apply list_elem_of_In, elem_of_seqZ.
    pose proof (Z.mod_pos_bound (b + j) m). lia.
Qed.

Lemma fork_tid_residue tid j m :
  (0 < m)%Z → (m | global_num_engines)%Z → (0 < global_num_engines)%Z → (0 <= global_num_proxies)%Z →
  (global_num_proxies <= tid)%Z → (global_num_engines + global_num_proxies < 2 ^ 31)%Z → (0 <= j)%Z →
  Z.rem (fork_tid tid j) m = ((tid + 1 + j) mod m)%Z.
Proof.
  intros Hm Hdiv Hne Hnp Ht Hsz Hj. unfold fork_tid.
  pose proof (Z.mod_pos_bound (tid + j + 1 - global_num_proxies) global_num_engines).
  rewrite (Z.rem_mod_nonneg (tid + j + 1 - _)) by lia. rewrite i32_id by lia.
  rewrite Z.rem_mod_nonneg by lia. rewrite Zplus_mod, Z.mod_mod_divide by done. rewrite <-Zplus_mod. f_equal. lia.
Qed.

(** the threads that share an index divide it: when the number of threads of a
    query divides the number of engines, the parts that the sub-queries of
    [execute_patterns] take of the index edges of one server hold every edge exactly
    once, whichever engine forks the query. *)
Theorem index_parts_cover q edges tid m :
  mt_factor q = Z.of_nat m → 0 < m → (Z.of_nat m | global_num_engines)%Z → (0 < global_num_engines)%Z →
  (0 <= global_num_proxies <= tid)%Z → (global_num_engines + global_num_proxies < 2 ^ 31)%Z →
  ∃ parts, Forall2 (λ j part, index_part (index_sub_query q (fork_tid tid j)) edges = Ok part) (seqZ 0 (Z.of_nat m)) parts ∧
    concat parts ≡ₚ edges.
Proof.
  intros Hm Hpos Hdiv Hne Hnp Hsz.
  exists ((λ j, part edges m (Z.to_nat ((tid + 1 + j) mod Z.of_nat m))) <$> seqZ 0 (Z.of_nat m)). split.
  - apply Forall2_fmap_r, Forall_Forall2_diag, Forall_forall. intros j Hj%elem_of_seqZ.
    pose proof (Z.mod_pos_bound (tid + 1 + j) (Z.of_nat m)).
    apply index_part_part; [done|done| |lia]. simpl. rewrite Hm. by rewrite fork_tid_residue by (done || lia).
  - transitivity (concat (part edges m <$> seq 0 m)); [|by rewrite parts_concat].
    assert (E : (λ j, part edges m (Z.to_nat ((tid + 1 + j) mod Z.of_nat m))) <$> seqZ 0 (Z.of_nat m) =
                (λ s, part edges m (Z.to_nat s)) <$> ((λ j, (tid + 1 + j) mod Z.of_nat m)%Z <$> seqZ 0 (Z.of_nat m)))
      by (by rewrite <-list_fmap_compose).
    rewrite E, rotate_perm by lia. unfold seqZ. rewrite <-list_fmap_compose, Nat2Z.id.
    apply reflexive_eq. f_equal. apply list_fmap_ext. intros i s Hs. simpl. f_equal. lia.
Qed.
End by_thread.

Definition four_engines (ne : Z) : Config := {|
  global_num_servers := 1; global_num_threads := 1 + ne; global_num_proxies := 1; global_num_engines := ne;
  global_use_rdma := false; global_enable_caching := true; global_mt_threshold := ne;
  global_rdma_threshold := 300; global_enable_vattr := false |}.

Definition two_threads : SPARQLQuery := set_mt_factor 2 forked_query.

Lemma index_parts_cover_witness :
  ∃ parts, Forall2 (λ j part, index_part (index_sub_query two_threads (@fork_tid (four_engines 4) 4 j)) [10; 11; 12; 13; 14]%Z = Ok part)
             (seqZ 0 2) parts ∧ concat parts ≡ₚ [10; 11; 12; 13; 14]%Z.
Proof.
  apply (@index_parts_cover (four_engines 4) two_threads [10; 11; 12; 13; 14]%Z 4 2); simpl; try lia.
  exists 2%Z. reflexivity.
Defined.

(** with three engines and a query on two threads, an engine whose successors
    wrap around gives both threads the same part of the index: half of the edges is
    read twice and the other half is lost. *)
Theorem index_parts_lost (edges : list sid_t) :
  let fork j := index_part (index_sub_query two_threads (@fork_tid (four_engines 3) 2 j)) edges in
  fork 0%Z = fork 1%Z ∧ fork 0%Z = Ok (drop (length edges / 2) edges).
Proof.
  intros fork. assert (H0 : fork 0%Z = Ok (part edges 2 1)) by (apply index_part_part; [reflexivity|lia|reflexivity|lia]).
  assert (H1 : fork 1%Z = Ok (part edges 2 1)) by (apply index_part_part; [reflexivity|lia|reflexivity|lia]).
  rewrite H0, H1. split; [done|]. f_equal. unfold part. simpl. rewrite !Nat.add_0_r.
  rewrite <-(take_drop (length edges / 2) (drop (length edges / 2) edges)) at 2. by rewrite drop_drop.
Qed.
