(* ===== verification/Frame.v ===== *)
(** What a step of the exploration leaves alone: every field of the query but the
    result, the step and the local variable; and of the result its required
    variables and its blindness. *)

From S2P Require Import Prelude Types MyMath Keys Tuple Query Rows Engine Exec.
Local Open Scope nat_scope.

Record framed (q q' : SPARQLQuery) : Prop := {
  fm_query : ∃ r s v, q' = set_local_var v (set_pattern_step s (set_result r q));
  fm_req : required_vars (result q') = required_vars (result q);
  fm_blind : blind (result q') = blind (result q)
}.

#[export] Instance framed_refl : Reflexive framed.
Proof. intros q. split; [|done|done]. exists (result q), (pattern_step q), (local_var q). by destruct q. Qed.

#[export] Instance framed_trans : Transitive framed.
Proof.
  intros q1 q2 q3 [(r & s & v & ->) Ha Hb] [(r' & s' & v' & ->) Ha' Hb'].
  split; [by exists r', s', v'|simpl in *; congruence|simpl in *; congruence].
Qed.

Lemma framed_result q r : required_vars r = required_vars (result q) → blind r = blind (result q) →
  framed q (set_result r q).
Proof. intros Ha Hb. split; [|done|done]. by exists r, (pattern_step q), (local_var q). Qed.

Lemma framed_next q q' : framed q q' → framed q (next_step q').
Proof. intros [(r & s & v & ->) ? ?]. split; [|done|done]. by exists r, (S s), v. Qed.

Lemma framed_local q q' v : framed q q' → framed q (set_local_var v q').
Proof. intros [(r & s & v' & ->) ? ?]. split; [|done|done]. by exists r, s, v. Qed.

Lemma add_var2col_frame r v c t r' : add_var2col r v c t = Ok r' →
  required_vars r' = required_vars r ∧ blind r' = blind r.
Proof.
  unfold add_var2col. intros E. repeat (apply bind_Ok in E as (? & ? & E)). by injection E as <-.
Qed.

(** take the binds of a computation that succeeded apart *)
Ltac inv_ok :=
  repeat match goal with
  | H : assert_that _ ≫= _ = Ok _ |- _ => apply bind_Ok in H as ([] & _ & H)
  | H : add_var2col _ _ _ _ ≫= _ = Ok _ |- _ =>
      let r := fresh "r" in let E := fresh "E" in
      apply bind_Ok in H as (r & E & H); apply add_var2col_frame in E as [? ?]
  | H : _ ≫= _ = Ok _ |- _ => apply bind_Ok in H as (? & ? & H)
  | H : (let '(_, _) := ?x in _) = Ok _ |- _ => destruct x
  | H : Ok _ = Ok _ |- _ => apply (inj Ok) in H; subst
  | H : (if ?b then _ else _) = Ok _ |- _ => destruct b eqn:?
  end.

Section frame.
  Context (versatile : bool) `{Config} `{Graph}.

Lemma mark_optional_framed q i b q' : mark_optional q i b = Ok q' → framed q q'.
Proof.
  unfold mark_optional, correct_optional_result. intros E. apply bind_Ok in E as (m & _ & E).
  apply bind_Ok in E as (q1 & E1 & E). apply bind_Ok in E as (ms & _ & E). injection E as <-.
  assert (H1 : framed q q1).
  { destruct (m && negb b); [|by injection E1 as <-]. apply bind_Ok in E1 as (t & _ & E1). injection E1 as <-.
    by apply framed_result. }
  etrans; [exact H1|]. by apply framed_result.
Qed.

Lemma foldM_framed {S} (get : S → SPARQLQuery) (f : S → nat → outcome S) s l s' :
  foldM f s l = Ok s' → (∀ s i s', f s i = Ok s' → framed (get s) (get s')) → framed (get s) (get s').
Proof.
  intros E Hf. apply (foldM_ind f (λ _ s', framed (get s) (get s')) s l s' E); [done|].
  intros l1 x l2 s1 s2 _ H1 H2. etrans; [exact H1|by eapply Hf].
Qed.

Lemma match_rows_framed q c set q' : match_rows q c set = Ok q' → framed q q'.
Proof.
  unfold match_rows. destruct (is_optional q); intros E.
  - apply (foldM_framed id) in E; [done|]. intros s i s' Es. apply bind_Ok in Es as (x & _ & Es).
    by eapply mark_optional_framed.
  - apply bind_Ok in E as (t & _ & E). injection E as <-. by apply framed_result.
Qed.

Lemma swap_tables_framed q ts : framed q (swap_tables q ts).
Proof. unfold swap_tables. destruct (is_optional q); [done|]. by apply framed_result; destruct global_enable_vattr. Qed.

Lemma prune_framed q q1 ts : framed q q1 → framed q (next_step (swap_tables q1 ts)).
Proof. intros Hq. apply framed_next. etrans; [exact Hq|apply swap_tables_framed]. Qed.

Lemma bind_framed q r r' : required_vars r' = required_vars r → blind r' = blind r →
  required_vars r = required_vars (result q) → blind r = blind (result q) →
  framed q (next_step (set_result r' q)).
Proof. intros. apply framed_next, framed_result; congruence. Qed.

Lemma known_to_known_framed q q' : known_to_known q = Ok q' → framed q q'.
Proof.
  unfold known_to_known. intros E. apply bind_Ok in E as (p & _ & E). apply bind_Ok in E as ([[q1 ts] c] & E1 & E).
  injection E as <-. apply prune_framed. apply (foldM_framed (λ st, st.1.1)) in E1; [done|].
  intros [[q2 ts2] c2] i s' Es. unfold known_row in Es. inv_ok; simpl; try done. by eapply mark_optional_framed.
Qed.

Lemma known_to_const_framed q q' : known_to_const q = Ok q' → framed q q'.
Proof.
  unfold known_to_const. intros E. apply bind_Ok in E as (p & _ & E). apply bind_Ok in E as ([[[q1 ts] c] f] & E1 & E).
  injection E as <-. apply prune_framed. apply (foldM_framed (λ st, st.1.1.1)) in E1; [done|].
  intros [[[q2 ts2] c2] f2] i s' Es. unfold const_row in Es. apply bind_Ok in Es as (x & _ & Es).
  apply bind_Ok in Es as ([c3 f3] & _ & Es). inv_ok; simpl; try done. by eapply mark_optional_framed.
Qed.

Lemma known_to_unknown_framed q q' : known_to_unknown q = Ok q' → framed q q'.
Proof.
  unfold known_to_unknown. intros E. apply bind_Ok in E as (p & _ & E).
  apply bind_Ok in E as ([[[t ms] ats] c] & _ & E). inv_ok. apply framed_next, framed_result; simpl;
    [etrans; [eassumption|]|etrans; [eassumption|]]; destruct (is_optional q), global_enable_vattr; done.
Qed.

Lemma one_pattern_framed q q' : execute_one_pattern versatile q = Ok q' → framed q q'.
Proof.
  unfold execute_one_pattern. intros E. apply bind_Ok in E as (d & _ & E). apply bind_Ok in E as ([] & _ & E).
  apply bind_Ok in E as (p & _ & E). apply bind_Ok in E as (ix & _ & E). destruct ix.
  { apply bind_Ok in E as (c & _ & E). destruct (negb _).
    - unfold index_to_known in E. inv_ok. apply framed_next. by eapply match_rows_framed.
    - unfold index_to_unknown in E. inv_ok. apply framed_local. by eapply bind_framed. }
  apply bind_Ok in E as (tp & _ & E). destruct (bool_decide (tp ≠ const_var)).
  { destruct versatile; [|done]. apply bind_Ok in E as ([] & _ & E). apply bind_Ok in E as (s & _ & E).
    apply bind_Ok in E as (o & _ & E).
    destruct s, o; try done; revert E;
      unfold const_unknown_unknown, const_unknown_const, known_unknown_unknown, known_unknown_const; intros E; inv_ok;
      apply framed_next, framed_result; simpl in *; congruence. }
  destruct (global_enable_vattr && (0 <? pred_type p)%Z).
  { apply bind_Ok in E as (s & _ & E). apply bind_Ok in E as (o & _ & E).
    destruct s, o; try done; revert E; unfold const_to_unknown_attr, known_to_unknown_attr; intros E.
    - inv_ok. apply framed_next, framed_result; simpl in *; congruence.
    - apply bind_Ok in E as (p' & _ & E). apply bind_Ok in E as ([] & _ & E). apply bind_Ok in E as (v & _ & E).
      destruct v; inv_ok; apply framed_next, framed_result; simpl in *; congruence. }
  apply bind_Ok in E as (s & _ & E). apply bind_Ok in E as (o & _ & E). destruct s, o; try done.
  - by apply known_to_known_framed.
  - by apply known_to_unknown_framed.
  - by apply known_to_const_framed.
  - unfold const_to_known in E. inv_ok. apply framed_next. by eapply match_rows_framed.
  - unfold const_to_unknown in E. inv_ok. apply framed_next, framed_result; simpl in *; congruence.
Qed.
End frame.
