(* ===== verification/Bgp.v ===== *)
(** Correctness of the graph exploration of [core/engine.hpp]: running the
    patterns of a plan one after the other, in place, computes exactly the
    solutions of the basic graph pattern. *)

From S2P Require Import Prelude Types MyMath Keys Query Rows Engine EngineSteps Exec.
Local Open Scope nat_scope.

(** ** The variable map *)

(** The variables in [known] are bound to columns, the other ones are free. *)
Record map_ok (r : Result) (n : nat) (known : gset ssid_t) : Prop := {
  mo_nvars : nvars r = n;
  mo_len : length (v2c r) = n;
  mo_pos : 0 < n;
  mo_cols : (Z.of_nat (col_num r) < NO_RESULT)%Z;
  mo_known v : v ∈ known → (- Z.of_nat n <= v < 0)%Z ∧
    ∃ c, v2c r !! var_idx v = Some (Z.of_nat c) ∧ c < col_num r;
  mo_free v : (- Z.of_nat n <= v < 0)%Z → v ∉ known → v2c r !! var_idx v = Some NO_RESULT
}.

(** writing the map initialises it *)
Lemma v2c_set m r : 0 < length m → v2c (set_v2c m r) = m.
Proof. unfold v2c. simpl. destruct m; simpl; [lia|done]. Qed.

Lemma ext2col_small c : (0 <= c < 2 ^ 16)%Z → ext2col c = c.
Proof.
  intros Hc. unfold ext2col. change (Z.shiftl 1 NBITS_COL - 1)%Z with (Z.ones 16).
  rewrite Z.land_ones by lia. by apply Z.mod_small.
Qed.

Lemma var_ext_lookup r n known v e :
  map_ok r n known → (- Z.of_nat n <= v < 0)%Z → v2c r !! var_idx v = Some e → var_ext r v = Ok e.
Proof.
  intros Hm Hv He. unfold var_ext. rewrite (mo_nvars _ _ _ Hm).
  rewrite (proj2 (Z.ltb_lt _ _)) by lia. simpl.
  rewrite (proj2 (Nat.ltb_lt _ _)) by (unfold var_idx; lia). simpl. by apply read_Ok.
Qed.

Lemma var2col_free r n known v :
  map_ok r n known → (- Z.of_nat n <= v < 0)%Z → v ∉ known → var2col r v = Ok NO_RESULT.
Proof.
  intros Hm Hv Hk. unfold var2col. rewrite (var_ext_lookup r n known v NO_RESULT); [done..|].
  by apply (mo_free _ _ _ Hm).
Qed.

Lemma bound_known r n known v :
  map_ok r n known → v ∈ known → ∃ c, bound r v c ∧ v2c r !! var_idx v = Some (Z.of_nat c).
Proof.
  intros Hm Hk. destruct (mo_known _ _ _ Hm v Hk) as (Hv & c & Hc & Hlt). exists c.
  split; [|done]. split; [|done]. unfold var2col. rewrite (var_ext_lookup r n known v (Z.of_nat c)) by done.
  simpl. rewrite ext2col_small; [done|]. pose proof (mo_cols _ _ _ Hm) as Hcol. change NO_RESULT with 65535%Z in Hcol. lia.
Qed.

Lemma var_type_const r v : (0 <= v)%Z → variable_type r v = Ok const_var.
Proof. intros Hv. unfold variable_type. by rewrite (proj2 (Z.leb_le _ _)). Qed.

Lemma var_type_known r n known v : map_ok r n known → v ∈ known → variable_type r v = Ok known_var.
Proof.
  intros Hm Hk. destruct (bound_known r n known v Hm Hk) as (c & [Hb Hc] & _).
  destruct (mo_known _ _ _ Hm v Hk) as [Hv _]. unfold variable_type.
  rewrite (proj2 (Z.leb_gt _ _)) by lia. rewrite Hb. simpl.
  pose proof (mo_cols _ _ _ Hm). destruct (Z.eqb_spec (Z.of_nat c) NO_RESULT); [lia|done].
Qed.

Lemma var_type_free r n known v :
  map_ok r n known → (- Z.of_nat n <= v < 0)%Z → v ∉ known → variable_type r v = Ok unknown_var.
Proof.
  intros Hm Hv Hk. unfold variable_type. rewrite (proj2 (Z.leb_gt _ _)) by lia.
  by rewrite (var2col_free r n known v).
Qed.

Lemma var_idx_inj v w : (v < 0)%Z → (w < 0)%Z → var_idx v = var_idx w → v = w.
Proof. unfold var_idx. lia. Qed.

(** the result with [v] bound to a new last column *)
Definition bind_var (r : Result) (v : ssid_t) : Result :=
  set_col_num (S (col_num r)) (set_v2c (<[var_idx v := Z.of_nat (col_num r)]> (v2c r)) r).

Lemma add_var2col_free r n known v c :
  map_ok r n known → (- Z.of_nat n <= v < 0)%Z → v ∉ known →
  add_var2col r v c SID_t = Ok (set_v2c (<[var_idx v := Z.of_nat c]> (v2c r)) r).
Proof.
  intros Hm Hv Hk. pose proof (mo_free _ _ _ Hm v Hv Hk) as Hf. unfold add_var2col.
  rewrite (proj2 (Z.ltb_lt _ _)) by lia. simpl. rewrite (mo_nvars _ _ _ Hm).
  rewrite (proj2 (Nat.ltb_lt _ _)) by (unfold var_idx; lia). simpl.
  unfold read, write. rewrite Hf. simpl. rewrite bool_decide_true by (by eapply lookup_lt_Some). done.
Qed.

Lemma v2c_bind_var r n known v : map_ok r n known → v2c (bind_var r v) = <[var_idx v := Z.of_nat (col_num r)]> (v2c r).
Proof. intros Hm. apply (v2c_set _ r). rewrite length_insert, (mo_len _ _ _ Hm). apply Hm. Qed.

Lemma bind_var_ok r n known v :
  map_ok r n known → (- Z.of_nat n <= v < 0)%Z → v ∉ known →
  (Z.of_nat (S (col_num r)) < NO_RESULT)%Z → map_ok (bind_var r v) n ({[v]} ∪ known).
Proof.
  intros Hm Hv Hk Hc. pose proof (lookup_lt_Some _ _ _ (mo_free _ _ _ Hm v Hv Hk)) as Hlt.
  pose proof Hm as [Hn Hl Hp _ Hkn Hfr]. split; rewrite ?(v2c_bind_var r n known v Hm); try done; [by rewrite length_insert|..].
  - intros w [->%elem_of_singleton|Hw]%elem_of_union.
    + split; [done|]. exists (col_num r). split; [|simpl; lia]. by apply list_lookup_insert_eq.
    + destruct (Hkn w Hw) as (Hw' & c & Hc' & ?). split; [done|]. exists c. split; [|simpl; lia].
      rewrite list_lookup_insert_ne; [done|]. intros E. apply Hk.
      by rewrite (var_idx_inj v w) by (done || lia).
  - intros w Hw Hnot. rewrite list_lookup_insert_ne; [apply Hfr; [done|set_solver]|].
    intros E. apply Hnot. rewrite (var_idx_inj v w) by (done || lia). set_solver.
Qed.

(** ** Assignments *)

Definition assignment : Type := ssid_t → sid_t.

Definition val (σ : assignment) (t : ssid_t) : sid_t := if (0 <=? t)%Z then u32 t else σ t.

(** The row gives the known variables their values under [σ]. *)
Definition agree (r : Result) (known : gset ssid_t) (row : list sid_t) (σ : assignment) : Prop :=
  ∀ v c, v ∈ known → v2c r !! var_idx v = Some (Z.of_nat c) → row !! c = Some (σ v).

Lemma agree_cell r n known row σ v c :
  map_ok r n known → agree r known row σ → v ∈ known → bound r v c → cell row c = σ v.
Proof.
  intros Hm Ha Hk [Hb Hc]. destruct (bound_known r n known v Hm Hk) as (c' & [Hb' _] & Hc').
  assert (c' = c) as -> by (rewrite Hb in Hb'; injection Hb'; lia).
  unfold cell. by rewrite (Ha v c Hk Hc').
Qed.

Lemma agree_bind r n known v row x σ :
  map_ok r n known → (- Z.of_nat n <= v < 0)%Z → v ∉ known → length row = col_num r →
  agree (bind_var r v) ({[v]} ∪ known) (row ++ [x]) σ ↔ agree r known row σ ∧ σ v = x.
Proof.
  intros Hm Hv Hk Hl. pose proof (lookup_lt_Some _ _ _ (mo_free _ _ _ Hm v Hv Hk)) as Hlt.
  unfold agree. rewrite (v2c_bind_var r n known v Hm). split.
  - intros Ha. split.
    + intros w c Hw Hc. destruct (mo_known _ _ _ Hm w Hw) as (Hw' & c' & Hc' & Hlt').
      assert (c' = c) as -> by (rewrite Hc in Hc'; injection Hc'; lia).
      assert ((row ++ [x]) !! c = Some (σ w)) as E.
      { apply Ha; [set_solver|]. rewrite list_lookup_insert_ne; [done|]. intros E. apply Hk.
        by rewrite (var_idx_inj v w) by (done || lia). }
      by rewrite lookup_app_l in E by lia.
    + assert ((row ++ [x]) !! col_num r = Some (σ v)) as E.
      { apply Ha; [set_solver|]. by apply list_lookup_insert_eq. }
      rewrite <-Hl, list_lookup_middle in E by done. by simplify_eq.
  - intros [Ha <-] w c [->%elem_of_singleton|Hw]%elem_of_union Hc.
    + rewrite list_lookup_insert_eq in Hc by done. assert (c = col_num r) as -> by (injection Hc; lia).
      rewrite <-Hl. by apply list_lookup_middle.
    + destruct (mo_known _ _ _ Hm w Hw) as (Hw' & _).
      rewrite list_lookup_insert_ne in Hc.
      * apply lookup_app_l_Some. by apply Ha.
      * intros E. apply Hk. by rewrite (var_idx_inj v w) by (done || lia).
Qed.

(** ** Plans and their solutions *)

Section bgp.
  Context (versatile : bool) `{Config} `{GraphOk}.

(** A pattern that the exploration supports: a constant predicate, terms that fit
    the map, and no attribute. *)
Definition pattern_okb (n : nat) (p : Pattern) : bool :=
  (0 <=? predicate p)%Z && (predicate p <? 2 ^ 17)%Z && bool_decide (direction p ≠ CORUN) &&
  (- Z.of_nat n <=? subject p)%Z && (subject p <? 2 ^ 31)%Z &&
  (- Z.of_nat n <=? object p)%Z && (object p <? 2 ^ 31)%Z && (pred_type p <=? 0)%Z.

(** The first pattern starts from an index or a constant and binds a variable; a
    later one starts from a bound variable or ends in one. *)
Definition step_ok (i : nat) (known : gset ssid_t) (p : Pattern) : bool :=
  match i with
  | O => (object p <? 0)%Z &&
         (if is_tpid (subject p) then (predicate p =? PREDICATE_ID) || (predicate p =? TYPE_ID)
          else 0 <=? subject p)%Z
  | S _ => bool_decide (subject p ∈ known) || ((0 <=? subject p)%Z && bool_decide (object p ∈ known))
  end.

Definition next_known (known : gset ssid_t) (p : Pattern) : gset ssid_t :=
  if (object p <? 0)%Z then {[object p]} ∪ known else known.

Fixpoint plan_ok (n i : nat) (known : gset ssid_t) (ps : list Pattern) : bool :=
  match ps with
  | [] => true
  | p :: ps => pattern_okb n p && step_ok i known p && plan_ok n (S i) (next_known known p) ps
  end.

(** The triple pattern holds of the graph under the assignment. *)
Definition pat_holds (i : nat) (σ : assignment) (p : Pattern) : Prop :=
  if (i =? 0) && is_tpid (subject p)
  then val σ (object p) ∈ index_list (subject p) (direction p)
  else val σ (object p) ∈ edge_list (val σ (subject p)) (direction p) (predicate p).

(** The first [k] patterns hold. *)
Definition solves (k : nat) (ps : list Pattern) (σ : assignment) : Prop :=
  ∀ i p, i < k → ps !! i = Some p → pat_holds i σ p.

Lemma solves_S k ps σ p : ps !! k = Some p → solves (S k) ps σ ↔ solves k ps σ ∧ pat_holds k σ p.
Proof.
  intros Hp. split.
  - intros Hs. split; [intros i p' Hi; apply Hs; lia|by apply Hs; [lia|]].
  - intros [Hs Hk] i p' Hi Hp'. destruct (decide (i = k)) as [->|]; [by simplify_eq|apply Hs; [lia|done]].
Qed.

(** The rows are the solutions of the first [k] patterns. *)
Record explored (n : nat) (ps : list Pattern) (q : SPARQLQuery) (known : gset ssid_t)
    (rows : list (list sid_t)) : Prop := {
  ex_patterns : patterns (pattern_group q) = ps;
  ex_pg : pg_type q ≠ OPTIONAL;
  ex_map : map_ok (result q) n known;
  ex_cols : col_num (result q) <= pattern_step q;
  ex_attr : attr_col_num (result q) = 0 ∧ attr_res_table (result q) = [];
  ex_rows : res_rows (result q) rows;
  ex_sid : Forall (Forall is_sid) rows;
  ex_sound row σ : row ∈ rows → agree (result q) known row σ → solves (pattern_step q) ps σ;
  ex_complete σ : (∀ v, is_sid (σ v)) → solves (pattern_step q) ps σ →
    ∃ row, row ∈ rows ∧ agree (result q) known row σ
}.

Lemma pattern_okb_ok n p : pattern_okb n p = true → pattern_ok p.
Proof.
  intros Hb. unfold pattern_okb in Hb. rewrite !andb_true_iff in Hb. destruct_and! Hb.
  split; [lia|]. by eapply bool_decide_eq_true_1.
Qed.

Lemma pattern_okb_terms n p : pattern_okb n p = true →
  (- Z.of_nat n <= subject p < 2 ^ 31)%Z ∧ (- Z.of_nat n <= object p < 2 ^ 31)%Z ∧ (pred_type p <= 0)%Z.
Proof. intros Hb. unfold pattern_okb in Hb. rewrite !andb_true_iff in Hb. lia. Qed.

Section step.
  Context (n : nat) (ps : list Pattern) (q : SPARQLQuery) (known : gset ssid_t) (rows : list (list sid_t)).
  Context (p : Pattern).
  Hypothesis Hex : explored n ps q known rows.
  Hypothesis Hp : ps !! pattern_step q = Some p.
  Hypothesis Hpok : pattern_okb n p = true.
  Hypothesis Hpos : 0 < pattern_step q.
  Hypothesis Hsize : (Z.of_nat (length ps) < NO_RESULT)%Z.

Lemma get_pattern_ok : get_pattern q = Ok p.
Proof.
  unfold get_pattern, get_pattern_at. rewrite (ex_patterns _ _ _ _ _ Hex).
  rewrite (proj2 (Nat.ltb_lt _ _)) by (by eapply lookup_lt_Some). simpl. by apply read_Ok.
Qed.

Lemma step_pattern_ok : pattern_ok p.
Proof. by apply (pattern_okb_ok n). Qed.

Lemma step_terms : (- Z.of_nat n <= subject p < 2 ^ 31)%Z ∧ (- Z.of_nat n <= object p < 2 ^ 31)%Z ∧ (pred_type p <= 0)%Z.
Proof. by apply pattern_okb_terms. Qed.

(** A filter that decides the pattern keeps the rows that are solutions. *)
Lemma prune_explored (P : list sid_t → Prop) `{∀ row, Decision (P row)} :
  (∀ row σ, row ∈ rows → agree (result q) known row σ → P row ↔ pat_holds (pattern_step q) σ p) →
  explored n ps (next_step (keep_rows q rows P)) known (filter P rows).
Proof.
  intros HP. destruct Hex as [? ? Hm ? [? ?] [? Hg ?] Hs Hsound Hcompl].
  split; simpl; try done.
  - by destruct Hm; split.
  - lia.
  - split; simpl; [done| |done]. apply Forall_forall. intros row [_ Hr]%list_elem_of_filter.
    unfold grid in Hg. rewrite Forall_forall in Hg. by apply Hg.
  - apply Forall_forall. intros row [_ Hr]%list_elem_of_filter. rewrite Forall_forall in Hs. by apply Hs.
  - intros row σ [HPr Hr]%list_elem_of_filter Ha. rewrite (solves_S _ _ _ p) by done.
    split; [by eapply Hsound|]. by apply (HP row).
  - intros σ Hσ. rewrite (solves_S _ _ _ p) by done. intros [Hk Hh].
    destruct (Hcompl σ Hσ Hk) as (row & Hr & Ha). exists row. split; [|done].
    apply list_elem_of_filter. split; [|done]. by apply (HP row σ).
Qed.

(** A join with the neighbours of a bound variable extends the rows. *)
Lemma join_explored c : subject p ∈ known → bound (result q) (subject p) c →
  (object p < 0)%Z → object p ∉ known →
  explored n ps (next_step (set_result (bind_var (set_table (concat (join p c rows)) (result q)) (object p)) q))
    ({[object p]} ∪ known) (join p c rows).
Proof.
  intros Hk Hb Ho Hnk. pose proof step_terms as (Hts & Hto & _).
  destruct Hex as [? ? Hm Hcol [? ?] [Hc0 Hg ?] Hs Hsound Hcompl].
  assert (Hlt : pattern_step q < length ps) by by eapply lookup_lt_Some.
  assert (Hm' : map_ok (set_table (concat (join p c rows)) (result q)) n known).
  { by destruct Hm; split. }
  assert (Hjoin : ∀ row', row' ∈ join p c rows ↔ ∃ row x, row' = row ++ [x] ∧ row ∈ rows ∧ x ∈ nbrs p (cell row c)).
  { intros row'. unfold join. rewrite list_elem_of_bind. setoid_rewrite list_elem_of_fmap. naive_solver. }
  unfold grid in Hg. rewrite Forall_forall in Hg. rewrite Forall_forall in Hs.
  assert (Hag : ∀ row x σ, row ∈ rows → agree (bind_var (set_table (concat (join p c rows)) (result q)) (object p))
      ({[object p]} ∪ known) (row ++ [x]) σ ↔ agree (result q) known row σ ∧ σ (object p) = x).
  { intros row x σ Hr. apply (agree_bind (set_table (concat (join p c rows)) (result q)) n); [done|lia|done|].
    by apply Hg. }
  assert (Hval : ∀ row σ, row ∈ rows → agree (result q) known row σ →
    pat_holds (pattern_step q) σ p ↔ σ (object p) ∈ nbrs p (cell row c)).
  { intros row σ Hr Ha. unfold pat_holds. destruct (Nat.eqb_spec (pattern_step q) 0); [lia|]. simpl.
    destruct (mo_known _ _ _ Hm _ Hk) as [Hneg _]. unfold val.
    rewrite !(proj2 (Z.leb_gt _ _)) by lia. unfold nbrs. by rewrite (agree_cell (result q) n known row σ (subject p) c). }
  split; simpl; try done.
  - apply bind_var_ok; [done|lia|done|]. simpl. lia.
  - lia.
  - split; simpl; [lia| |done]. apply Forall_forall. intros row' (row & x & -> & Hr & Hx)%Hjoin.
    rewrite length_app. simpl. rewrite (Hg row Hr). lia.
  - apply Forall_forall. intros row' (row & x & -> & Hr & Hx)%Hjoin. apply Forall_app. split; [by apply Hs|].
    apply Forall_singleton. pose proof (edge_list_sid (cell row c) (direction p) (predicate p)) as He.
    rewrite Forall_forall in He. by apply He.
  - intros row' σ (row & x & -> & Hr & Hx)%Hjoin [Ha <-]%Hag; [|done].
    rewrite (solves_S _ _ _ p) by done. split; [by eapply Hsound|]. by apply (Hval row).
  - intros σ Hσ. rewrite (solves_S _ _ _ p) by done. intros [Hks Hh].
    destruct (Hcompl σ Hσ Hks) as (row & Hr & Ha). exists (row ++ [σ (object p)]). split.
    + apply Hjoin. exists row, (σ (object p)). split_and!; [done..|]. by apply Hval.
    + by apply Hag.
Qed.

(** The dispatch of a later pattern. *)
Lemma execute_later_pattern s o :
  variable_type (result q) (subject p) = Ok s → variable_type (result q) (object p) = Ok o →
  execute_one_pattern versatile q =
  match s, o with
  | const_var, known_var => const_to_known q
  | const_var, unknown_var => const_to_unknown q
  | known_var, const_var => known_to_const q
  | known_var, known_var => known_to_known q
  | known_var, unknown_var => known_to_unknown q
  | _, _ => Err AssertFail
  end.
Proof.
  intros Es Eo. unfold execute_one_pattern, done. rewrite (ex_patterns _ _ _ _ _ Hex).
  rewrite (proj2 (Nat.leb_gt _ _)) by (by eapply lookup_lt_Some). simpl. rewrite get_pattern_ok. simpl.
  destruct (Nat.eqb_spec (pattern_step q) 0); [lia|]. simpl.
  rewrite (var_type_const _ (predicate p)) by (pose proof (po_pred _ step_pattern_ok); lia). simpl.
  destruct step_terms as (_ & _ & Hty). rewrite (proj2 (Z.ltb_ge _ _)) by done. rewrite andb_false_r.
  rewrite Es, Eo. done.
Qed.

Lemma later_step : step_ok (pattern_step q) known p = true →
  ∃ q' rows', execute_one_pattern versatile q = Ok q' ∧ explored n ps q' (next_known known p) rows' ∧
    pattern_step q' = S (pattern_step q).
Proof.
  intros Hstep. pose proof Hex as [? Hpg Hm Hcol [Ha Hat] Hr Hs _ _].
  pose proof step_terms as (Hts & Hto & _). pose proof step_pattern_ok as Hpo. pose proof get_pattern_ok as Hgp.
  assert (∃ k, pattern_step q = S k) as [k Ek] by (exists (pred (pattern_step q)); lia).
  unfold step_ok in Hstep. rewrite Ek in Hstep. unfold next_known.
  assert (Hph : ∀ σ, pat_holds (S k) σ p ↔ val σ (object p) ∈ nbrs p (val σ (subject p))) by done.
  assert (Hvneg : ∀ σ v, (v < 0)%Z → val σ v = σ v).
  { intros σ v Hv. unfold val. by rewrite (proj2 (Z.leb_gt _ _)). }
  assert (Hvpos : ∀ σ v, (0 <= v)%Z → val σ v = u32 v).
  { intros σ v Hv. unfold val. by rewrite (proj2 (Z.leb_le _ _)). }
  destruct (decide (subject p ∈ known)) as [Hsk|Hsk].
  - destruct (bound_known _ _ _ _ Hm Hsk) as (c & Hb & _).
    destruct (mo_known _ _ _ Hm _ Hsk) as [Hsneg _].
    assert (Hcell : ∀ row σ, agree (result q) known row σ → cell row c = val σ (subject p)).
    { intros row σ Hag. rewrite Hvneg by lia. by apply (agree_cell (result q) n known). }
    pose proof (var_type_known _ _ _ _ Hm Hsk) as Ets.
    destruct (decide (object p ∈ known)) as [Hok|Hok]; [|destruct (Z.ltb_spec (object p) 0)].
    + destruct (bound_known _ _ _ _ Hm Hok) as (c' & Hb' & _). destruct (mo_known _ _ _ Hm _ Hok) as [Honeg _].
      rewrite (proj2 (Z.ltb_lt _ _)) by lia. replace ({[object p]} ∪ known) with known by set_solver.
      rewrite (execute_later_pattern known_var known_var) by (done || by eapply var_type_known).
      rewrite (known_to_known_rows q p rows Hpo Hpg Hr Ha Hat Hs c c') by done.
      eexists _, _. split; [done|]. split; [|simpl; lia]. apply prune_explored.
      intros row σ Hrow Hag. rewrite Ek, Hph. rewrite (Hcell row σ Hag), (Hvneg _ (object p)) by lia.
      by rewrite (agree_cell (result q) n known row σ (object p) c').
    + rewrite (execute_later_pattern known_var unknown_var) by (done || (eapply var_type_free; [done|lia|done])).
      erewrite (known_to_unknown_rows q p rows c) by (done || (apply (add_var2col_free _ n known);
        [by destruct Hm; split|lia|done])).
      eexists _, _. split; [done|]. split; [|simpl; lia]. by apply join_explored.
    + rewrite (execute_later_pattern known_var const_var) by (done || by apply var_type_const).
      rewrite (known_to_const_rows q p rows Hpo Hpg Hr Ha Hat Hs c) by done.
      eexists _, _. split; [done|]. split; [|simpl; lia]. apply prune_explored.
      intros row σ Hrow Hag. rewrite Ek, Hph. by rewrite (Hcell row σ Hag), (Hvpos _ (object p)) by lia.
  - rewrite bool_decide_false in Hstep by done. simpl in Hstep.
    apply andb_true_iff in Hstep as [Hsp%Z.leb_le Hok%bool_decide_eq_true_1].
    destruct (bound_known _ _ _ _ Hm Hok) as (c' & Hb' & _). destruct (mo_known _ _ _ Hm _ Hok) as [Honeg _].
    rewrite (proj2 (Z.ltb_lt _ _)) by lia. replace ({[object p]} ∪ known) with known by set_solver.
    rewrite (execute_later_pattern const_var known_var) by (by eapply var_type_known || by apply var_type_const).
    unfold const_to_known. rewrite Hgp. simpl. destruct Hb' as [Hb' Hc']. rewrite Hb'. simpl.
    pose proof (mo_cols _ _ _ Hm). destruct (Z.eqb_spec (Z.of_nat c') NO_RESULT); [lia|]. simpl.
    rewrite get_nbrs by (done || (unfold is_sid; rewrite u32_id; lia)). simpl.
    rewrite (not_optional q Hpg). simpl. rewrite Nat2Z.id, (match_rows_keep q rows Hpg Hr) by done. simpl.
    eexists _, _. split; [done|]. split; [|simpl; lia]. apply prune_explored.
    intros row σ Hrow Hag. rewrite Ek, Hph. rewrite (Hvpos _ (subject p)), (Hvneg _ (object p)) by lia.
    by rewrite (agree_cell (result q) n known row σ (object p) c').
Qed.
End step.

(** ** The first pattern *)

Lemma grid_singletons (xs : list sid_t) : concat ((λ x, [x]) <$> xs) = xs.
Proof. induction xs as [|x xs IH]; [done|]. simpl. f_equal. exact IH. Qed.

(** A query before its first pattern: [n] variables, none bound, on one thread. *)
Record fresh (n : nat) (ps : list Pattern) (q : SPARQLQuery) : Prop := {
  fr_patterns : patterns (pattern_group q) = ps;
  fr_step : pattern_step q = 0;
  fr_pg : pg_type q ≠ OPTIONAL;
  fr_mt : mt_factor q = 1%Z;
  fr_nvars : nvars (result q) = n;
  fr_map : v2c (result q) = replicate n NO_RESULT;
  fr_col : col_num (result q) = 0;
  fr_attr : attr_col_num (result q) = 0 ∧ attr_res_table (result q) = []
}.

Lemma query_of_fresh g n : fresh n (patterns g) (query_of g n).
Proof. split; try done. by destruct n. Qed.

Lemma fresh_map n ps q : fresh n ps q → 0 < n → map_ok (result q) n ∅.
Proof.
  intros [_ _ _ _ Hnv Hm Hc _] Hn. split; [done| |done|by rewrite Hc|set_solver|].
  - by rewrite Hm, length_replicate.
  - intros v Hv _. rewrite Hm. apply lookup_replicate_2. unfold var_idx. lia.
Qed.

Lemma map_ok_table r n known t : map_ok r n known → map_ok (set_table t r) n known.
Proof. intros []. by split. Qed.

Lemma index_part_one q edges : mt_factor q = 1%Z → index_part q edges = Ok edges.
Proof.
  intros Hm. unfold index_part. rewrite Hm, Z.rem_1_r, Z.div_1_r, Nat2Z.id. simpl.
  by rewrite Nat.add_0_r, drop_0, firstn_all, drop_all, app_nil_r.
Qed.

(** Binding the first variable to the list [xs]. *)
Lemma first_explored n p ps q xs :
  fresh n (p :: ps) q → 0 < n → pattern_okb n p = true → (object p < 0)%Z → Forall is_sid xs →
  (∀ σ, pat_holds 0 σ p ↔ σ (object p) ∈ xs) →
  explored n (p :: ps) (next_step (set_result (bind_var (set_table xs (result q)) (object p)) q))
    {[object p]} ((λ x, [x]) <$> xs).
Proof.
  intros Hq Hn Hpok Ho Hxs Hph. set (r0 := set_table xs (result q)). pose proof Hq as [Hps Hst Hpg _ _ _ Hc Ha].
  assert (Hm0 : map_ok r0 n ∅) by (by apply map_ok_table, (fresh_map n (p :: ps))).
  destruct (pattern_okb_terms n p Hpok) as (_ & Hto & _).
  assert (Hag : ∀ x σ, agree (bind_var r0 (object p)) {[object p]} [x] σ ↔ σ (object p) = x).
  { intros x σ. replace {[object p]} with ({[object p]} ∪ ∅ : gset ssid_t) by set_solver.
    rewrite (agree_bind r0 n ∅ (object p) [] x σ) by (done || set_solver || lia).
    split; [by intros [_ ?]|]. split; [|done]. intros v c Hv. by apply elem_of_empty in Hv. }
  assert (Hs1 : ∀ σ, solves 1 (p :: ps) σ ↔ pat_holds 0 σ p).
  { intros σ. rewrite (solves_S 0 _ _ p) by done. split; [by intros [_ ?]|]. intros Hp. split; [|done].
    intros i p' Hi. lia. }
  split; simpl; rewrite ?Hst; try done.
  - replace {[object p]} with ({[object p]} ∪ ∅ : gset ssid_t) by set_solver.
    apply bind_var_ok; [done|lia|set_solver|]. simpl. by rewrite Hc.
  - rewrite Hc. lia.
  - split; simpl; rewrite ?Hc; [lia| |by rewrite grid_singletons]. apply Forall_forall.
    intros row (x & -> & _)%list_elem_of_fmap. done.
  - apply Forall_fmap. eapply Forall_impl; [exact Hxs|]. simpl. intros x Hx. by apply Forall_singleton.
  - intros row σ (x & -> & Hx)%list_elem_of_fmap Hrow%Hag. apply Hs1, (Hph σ). by subst.
  - intros σ Hσ Hsol. pose proof (proj1 (Hph σ) (proj1 (Hs1 σ) Hsol)). exists [σ (object p)]. split; [|by apply Hag].
    apply list_elem_of_fmap. by exists (σ (object p)).
Qed.

Lemma explored_local_var n ps q known rows v :
  explored n ps q known rows → explored n ps (set_local_var v q) known rows.
Proof. intros []. by split. Qed.

(** the two ways the first step adds its column *)
Lemma first_bind n ps q v xs k :
  fresh n ps q → (- Z.of_nat n <= v < 0)%Z → (Z.of_nat k < NO_RESULT)%Z →
  add_var2col (set_col_num k (set_table xs (result q))) v 0 SID_t =
    Ok (set_col_num k (set_v2c (<[var_idx v := 0%Z]> (v2c (result q))) (set_table xs (result q)))).
Proof.
  intros Hq Hv Hk. assert (Hn : 0 < n) by lia. pose proof (fresh_map n ps q Hq Hn) as [? ? ? ? _ ?].
  rewrite (add_var2col_free _ n ∅); [done|by split|done|set_solver].
Qed.

Lemma first_step n p ps q :
  fresh n (p :: ps) q → pattern_okb n p = true → step_ok 0 ∅ p = true →
  ∃ q' rows', execute_one_pattern versatile q = Ok q' ∧
    explored n (p :: ps) q' (next_known ∅ p) rows' ∧ pattern_step q' = 1.
Proof.
  intros Hq Hpok Hstep. destruct (pattern_okb_terms n p Hpok) as (Hts & Hto & Hty).
  pose proof (pattern_okb_ok n p Hpok) as Hpo. pose proof Hq as [Hps Hst Hpg Hmt _ _ Hc _].
  simpl in Hstep. apply andb_true_iff in Hstep as [Ho%Z.ltb_lt Hstep].
  assert (Hn : 0 < n) by lia. pose proof (fresh_map n _ q Hq Hn) as Hm.
  unfold next_known. rewrite (proj2 (Z.ltb_lt _ _) Ho), union_empty_r_L.
  assert (Hget : get_pattern q = Ok p) by (unfold get_pattern, get_pattern_at; by rewrite Hps, Hst).
  assert (Hval : ∀ σ, val σ (object p) = σ (object p)).
  { intros σ. unfold val. by rewrite (proj2 (Z.leb_gt _ _)). }
  assert (Hbv : ∀ xs, bind_var (set_table xs (result q)) (object p) =
     set_col_num 1 (set_v2c (<[var_idx (object p) := 0%Z]> (v2c (result q))) (set_table xs (result q)))).
  { intros xs. unfold bind_var. simpl. by rewrite Hc. }
  unfold execute_one_pattern, done. rewrite Hps, Hst. simpl. rewrite Hget. simpl.
  unfold start_from_index. rewrite Hps. destruct (is_tpid (subject p)) eqn:Etp.
  - rewrite Hstep. simpl. rewrite (var2col_free _ n ∅) by (done || lia || set_solver). simpl.
    unfold index_to_unknown. rewrite Hget. simpl. rewrite Hstep, Hc. simpl.
    assert (1 < subject p < 2 ^ 17)%Z as Hsub.
    { unfold is_tpid in Etp. change (Z.shiftl 1 NBITS_IDX) with (2 ^ 17)%Z in Etp. lia. }
    rewrite u32_id by lia. rewrite index_list_ok by (done || apply Hpo). cbn [mbind outcome_bind].
    rewrite index_part_one by done. cbn [mbind outcome_bind].
    rewrite (first_bind n (p :: ps) q) by (done || lia). cbn [mbind outcome_bind]. rewrite <-Hbv.
    eexists _, _. split; [reflexivity|]. split; [|simpl; by rewrite Hst].
    apply explored_local_var, first_explored; try done; [apply index_list_sid|].
    intros σ. unfold pat_holds. by rewrite Etp, Hval.
  - apply Z.leb_le in Hstep. simpl.
    rewrite (var_type_const _ (predicate p)) by (pose proof (po_pred _ Hpo); lia). simpl.
    rewrite (proj2 (Z.ltb_ge _ _)) by done. rewrite andb_false_r.
    rewrite (var_type_const _ (subject p)) by done. simpl.
    rewrite (var_type_free _ n ∅) by (done || lia || set_solver). simpl.
    unfold const_to_unknown. rewrite Hget. simpl. rewrite Hc. simpl.
    rewrite get_nbrs by (done || (unfold is_sid; rewrite u32_id; lia)). simpl.
    rewrite u32_id by lia.
    replace (set_table (nbrs p (subject p)) (result q)) with (set_col_num 0 (set_table (nbrs p (subject p)) (result q)))
      by (unfold set_col_num; simpl; by rewrite <-Hc).
    rewrite (first_bind n (p :: ps) q) by (done || lia). cbn [mbind outcome_bind col_num set_col_num].
    eexists _, _. split; [reflexivity|]. split; [|simpl; by rewrite Hst].
    replace (set_col_num 1 _) with (bind_var (set_table (nbrs p (subject p)) (result q)) (object p)) by (by rewrite Hbv).
    apply first_explored; try done; [apply edge_list_sid|].
    intros σ. unfold pat_holds. rewrite Etp, Hval. simpl. unfold val, nbrs.
    by rewrite (proj2 (Z.leb_le _ _)), u32_id by lia.
Qed.

(** ** The whole plan *)

Lemma explored_done n ps q known rows : explored n ps q known rows →
  done q SQ_PATTERN = Ok (length ps <=? pattern_step q).
Proof. intros Hex. unfold done. by rewrite (ex_patterns _ _ _ _ _ Hex). Qed.

Lemma run_later n ps q known rows fuel :
  explored n ps q known rows → 0 < pattern_step q → (Z.of_nat (length ps) < NO_RESULT)%Z →
  plan_ok n (pattern_step q) known (drop (pattern_step q) ps) = true →
  pattern_step q < length ps → length ps - pattern_step q <= fuel →
  ∃ q' rows', run_patterns versatile fuel q = Ok q' ∧
    explored n ps q' (foldl next_known known (drop (pattern_step q) ps)) rows' ∧ length ps <= pattern_step q'.
Proof.
  revert q known rows. induction fuel as [|fuel IH]; intros q known rows Hex Hpos Hsz Hplan Hlt Hf; [lia|].
  destruct (lookup_lt_is_Some_2 _ _ Hlt) as [p Hp]. rewrite (drop_S ps p (pattern_step q)) in Hplan |- * by done.
  cbn [plan_ok foldl] in Hplan |- *. rewrite !andb_true_iff in Hplan. destruct Hplan as [[Hpok Hstep] Hplan].
  destruct (later_step n ps q known rows p Hex Hp Hpok Hpos Hsz Hstep) as (q1 & rows1 & E & Hex1 & Hs1).
  cbn [run_patterns]. rewrite E. cbn [mbind outcome_bind]. rewrite (explored_done n ps q1 _ rows1 Hex1). cbn [mbind outcome_bind].
  destruct (Nat.leb_spec (length ps) (pattern_step q1)) as [Hd|Hd].
  - exists q1, rows1. rewrite drop_ge by lia. by split_and!.
  - rewrite <-Hs1 in Hplan |- *. apply (IH q1 _ rows1); [done|lia|done|done|lia|lia].
Qed.

(** The variables of a plan. *)
Definition plan_vars (ps : list Pattern) : gset ssid_t := foldl next_known ∅ ps.

Lemma run_patterns_bgp n ps q :
  fresh n ps q → ps ≠ [] → plan_ok n 0 ∅ ps = true → (Z.of_nat (length ps) < NO_RESULT)%Z →
  ∃ q' rows, run_patterns versatile (length ps) q = Ok q' ∧
    explored n ps q' (plan_vars ps) rows ∧ length ps <= pattern_step q' ∧
    ∀ σ, (∀ v, is_sid (σ v)) →
      solves (length ps) ps σ ↔ ∃ row, row ∈ rows ∧ agree (result q') (plan_vars ps) row σ.
Proof.
  intros Hq Hne Hplan Hsz. destruct ps as [|p ps]; [done|]. clear Hne.
  cbn [plan_ok] in Hplan. rewrite !andb_true_iff in Hplan. destruct Hplan as [[Hpok Hstep] Hplan].
  destruct (first_step n p ps q Hq Hpok Hstep) as (q1 & rows1 & E & Hex1 & Hs1).
  assert (∃ q' rows', run_patterns versatile (length (p :: ps)) q = Ok q' ∧
    explored n (p :: ps) q' (plan_vars (p :: ps)) rows' ∧ length (p :: ps) <= pattern_step q')
    as (q' & rows' & Hrun & Hex & Hd).
  { cbn [run_patterns length]. rewrite E. cbn [mbind outcome_bind].
    rewrite (explored_done n (p :: ps) q1 _ rows1 Hex1), Hs1. cbn [mbind outcome_bind].
    destruct ps as [|p2 ps]; [by exists q1, rows1; rewrite Hs1|]. cbn [length Nat.leb].
    pose proof (run_later n (p :: p2 :: ps) q1 (next_known ∅ p) rows1 (length (p2 :: ps)) Hex1) as Hl.
    rewrite Hs1 in Hl. apply Hl; [lia|done|done|simpl; lia|simpl; lia]. }
  exists q', rows'. split_and!; [done|done|done|].
  assert (Hsol : ∀ σ, solves (length (p :: ps)) (p :: ps) σ ↔ solves (pattern_step q') (p :: ps) σ).
  { intros σ. split; intros Hs i p' Hi Hp'; apply Hs; try done; [by eapply lookup_lt_Some|lia]. }
  intros σ Hσ. split.
  - intros Hs. apply (ex_complete _ _ _ _ _ Hex σ Hσ). by apply Hsol.
  - intros (row & Hr & Ha). apply Hsol. by eapply (ex_sound _ _ _ _ _ Hex).
Qed.

(** C5: running a valid plan on a fresh query terminates without an error, and its
    table holds exactly the solutions of the basic graph pattern: an assignment of
    string ids satisfies every triple pattern of the plan if and only if some row
    gives the variables of the plan these values. *)
Theorem run_patterns_solutions (n : nat) (ps : list Pattern) (q : SPARQLQuery) :
  fresh n ps q → ps ≠ [] → plan_ok n 0 ∅ ps = true → (Z.of_nat (length ps) < NO_RESULT)%Z →
  ∃ q' rows, run_patterns versatile (length ps) q = Ok q' ∧
    res_rows (result q') rows ∧ map_ok (result q') n (plan_vars ps) ∧
    ∀ σ, (∀ v, is_sid (σ v)) →
      solves (length ps) ps σ ↔ ∃ row, row ∈ rows ∧ agree (result q') (plan_vars ps) row σ.
Proof.
  intros Hq Hne Hplan Hsz. destruct (run_patterns_bgp n ps q Hq Hne Hplan Hsz) as (q' & rows & Hrun & Hex & _ & Hsol).
  exists q', rows. split_and!; [done|apply Hex|apply Hex|done].
Qed.
End bgp.

(** *** A plan over one triple *)

Definition one_server : Config := {|
  global_num_servers := 1; global_num_threads := 2; global_num_proxies := 1; global_num_engines := 1;
  global_use_rdma := false; global_enable_caching := true; global_mt_threshold := 1;
  global_rdma_threshold := 300; global_enable_vattr := false
|}.

(** the triple [131072 5 131073] *)
Definition tiny_graph : Graph := {|
  get_edges_global v d p := Ok (if (v =? 131072)%Z && bool_decide (d = OUT) && (p =? 5)%Z then [131073%Z] else []);
  get_index_edges p d := Ok (if (p =? 5)%Z && bool_decide (d = IN) then [131072%Z] else []);
  get_vertex_attr_global _ _ _ := Ok None
|}.

Lemma tiny_sid b x : is_sid x → Forall is_sid (if b : bool then [x] else []).
Proof. intros Hx. destruct b; [by apply Forall_singleton|constructor]. Qed.

Definition tiny_graph_ok : @GraphOk tiny_graph := @Build_GraphOk tiny_graph
  (λ v d p, if (v =? 131072)%Z && bool_decide (d = OUT) && (p =? 5)%Z then [131073%Z] else [])
  (λ p d, if (p =? 5)%Z && bool_decide (d = IN) then [131072%Z] else [])
  (λ _ _ _ _ _ _, eq_refl) (λ _ _, eq_refl)
  (λ _ _ _, tiny_sid _ 131073 ltac:(unfold is_sid; lia))
  (λ _ _ _ _, eq_refl)
  (λ _ _, tiny_sid _ 131072 ltac:(unfold is_sid; lia)).

Definition tiny_plan : PatternGroup :=
  MkGroup false [MkPattern 5 PREDICATE_ID (-1) IN 0; MkPattern (-1) 5 (-2) OUT 0] [] [] [] ∅.

Lemma run_patterns_solutions_witness :
  ∃ q' rows, @run_patterns false one_server tiny_graph 2 (query_of tiny_plan 2) = Ok q' ∧
    res_rows (result q') rows ∧ ∃ row, row ∈ rows ∧ agree (result q') (plan_vars (patterns tiny_plan)) row
      (λ v, if (v =? -1)%Z then 131072%Z else 131073%Z).
Proof.
  destruct (@run_patterns_solutions false one_server tiny_graph tiny_graph_ok 2 (patterns tiny_plan) (query_of tiny_plan 2))
    as (q' & rows & Hrun & Hrows & _ & Hsol); [by split|done|vm_compute; reflexivity|vm_compute; reflexivity|].
  exists q', rows. split; [exact Hrun|]. split; [exact Hrows|]. apply Hsol.
  - intros v. unfold is_sid. cbv beta. destruct (v =? -1)%Z; lia.
  - intros [|[|i]] p Hi Hp; simpl in Hi, Hp; [..|lia]; injection Hp as <-; vm_compute; left.
Defined.
