(* ===== verification/EndToEnd.v ===== *)
(** From the loaded triples to the answers: the store that [DGraph] loads meets the
    interface the engine relies on, so a plan run in place computes the solutions of
    the basic graph pattern over the triples themselves.

    This is the default build ([VERSATILE] off) on one server; the interface is
    discharged for any cluster. *)

From stdpp Require Import sorting.
From S2P Require Import Prelude Types MyMath Keys HashTable GStore Runs Index IndexInsert Remote Attr.
From S2P Require Import Query Rows Engine EngineSteps Exec Bgp.
Local Open Scope nat_scope.

(** ** The stores of a cluster as the engine's graph *)

Section cluster.
  Context `{Config} (stores : list gstore) (sid : nat) (buf_sz : Z) (c : rdma_cache).

  (** the reads of an engine on server [sid] whose location cache is [c] *)
Definition cluster_graph : Graph := {|
  get_edges_global v d p := '(es, _) ← get_edges_global_at stores sid buf_sz c v d p; Ok es;
  get_index_edges p d := me ← read stores sid; get_index_edges_local me p d;
  get_vertex_attr_global v d p := '(a, _) ← get_vertex_attr_global_at stores sid buf_sz c v d p; Ok a
|}.

  (** no key of the reserved id, and the values are string ids *)
Record kv_plain (kv : gmap ikey_t (list sid_t)) : Prop := {
  kp_blank k : k_vid k = BLANK_ID → kv !! k = None;
  kp_sid k vals : kv !! k = Some vals → Forall is_sid vals
}.

Lemma kv_plain_sid kv k : kv_plain kv → Forall is_sid (default [] (kv !! k)).
Proof. intros Hk. destruct (kv !! k) eqn:E; [by eapply kp_sid|constructor]. Qed.

Lemma edge_key_wf v d p : is_sid v → (0 <= p < 2 ^ 17)%Z → d ≠ CORUN → key_wf (IKey v p (dir_val d)).
Proof. unfold is_sid, key_wf. simpl. destruct d; simpl; try done; lia. Qed.

  (** A cluster that holds the pairs [kv] meets the engine's interface, with any
      coherent cache. *)
Program Definition cluster_graph_ok (kv : nat → gmap ikey_t (list sid_t))
    (Hcl : cluster_ok stores sid buf_sz kv) (Hc : cache_coherent stores c) (Hkv : ∀ i, kv_plain (kv i))
    : @GraphOk cluster_graph := {|
  edge_list v d p := default [] (kv (owner v) !! IKey v p (dir_val d));
  index_list p d := default [] (kv sid !! IKey 0 p (dir_val d))
|}.
Next Obligation.
  intros kv Hcl Hc Hkv v d p Hv Hp Hd. simpl.
  destruct (get_edges_global_ok stores sid buf_sz kv c v d p Hcl Hc (edge_key_wf v d p Hv Hp Hd)) as (c' & -> & _).
  done.
Qed.
Next Obligation. intros kv Hcl Hc Hkv d p. simpl. by rewrite (kp_blank _ (Hkv _)). Qed.
Next Obligation. intros kv Hcl Hc Hkv v d p. simpl. by apply kv_plain_sid. Qed.
Next Obligation.
  intros kv Hcl Hc Hkv p d Hp Hd. simpl. destruct (lookup_lt_is_Some_2 stores sid (cl_sid _ _ _ _ Hcl)) as [me Hme].
  assert (read stores sid = Ok me) as -> by (by apply read_Ok). cbn [mbind outcome_bind].
  apply get_edges_local_ok; [by eapply cl_rep|]. apply edge_key_wf; [unfold is_sid; lia|lia|done].
Qed.
Next Obligation. intros kv Hcl Hc Hkv p d. simpl. by apply kv_plain_sid. Qed.
End cluster.

(** ** The loaded store *)

(** the triples in use: no reserved id *)
Definition no_blank (l : list triple_t) : Prop := ∀ t, t ∈ l → tr_s t ≠ BLANK_ID ∧ tr_o t ≠ BLANK_ID.

(** What the store of one server holds after loading. *)
Record loaded (spo ops : list triple_t) (kv : gmap ikey_t (list sid_t)) : Prop := {
  ld_plain : kv_plain kv;
  ld_out x p y : x ≠ 0%Z → (0 < p)%Z →
    y ∈ default [] (kv !! IKey x p (dir_val OUT)) ↔ Triple x p y ∈ spo;
  ld_in x p y : x ≠ 0%Z → (0 < p)%Z →
    y ∈ default [] (kv !! IKey x p (dir_val IN)) ↔ Triple y p x ∈ ops ∧ (2 ^ 17 <= x)%Z;
  ld_idx_in p y : (1 < p)%Z → y ∈ default [] (kv !! IKey 0 p (dir_val IN)) ↔
    ∃ t, t ∈ spo ∧ tr_s t = y ∧ (tr_p t = p ∨ tr_p t = TYPE_ID ∧ tr_o t = p);
  ld_idx_out p y : (1 < p)%Z → y ∈ default [] (kv !! IKey 0 p (dir_val OUT)) ↔
    ∃ t, t ∈ ops ∧ tr_o t = y ∧ tr_p t = p ∧ (2 ^ 17 <= y)%Z
}.

Section load.
  Context (spo ops : list triple_t).
  Hypothesis Hso : StronglySorted (vp_le tr_o) ops.
  Hypothesis Hws : Forall triple_wf spo.
  Hypothesis Hwo : Forall triple_wf ops.
  Hypothesis Hty : typed spo ops.
  Hypothesis Hbs : no_blank spo.
  Hypothesis Hbo : no_blank ops.
  Abbreviation nv := (normal_value false spo ops).

Lemma normal_key_sid k : nv k ≠ [] → is_sid (k_vid k) ∧ k_vid k ≠ BLANK_ID ∧ k_vid k ≠ 0%Z.
Proof.
  pose proof (proj1 (Forall_forall _ _) Hws) as Ws. pose proof (proj1 (Forall_forall _ _) Hwo) as Wo.
  unfold is_sid. intros Hne. destruct (normal_value_occ false spo ops Hso Hwo k Hne) as [[_ (t & Ht & <- & _)]|[_ (t & Ht & _ & <- & _)]].
  - destruct (Ws t Ht), (Hbs t Ht). split_and!; [lia..|done|lia].
  - destruct (Wo t Ht), (Hbo t Ht). split_and!; [lia..|done|lia].
Qed.

Lemma normal_value_sid k : Forall is_sid (nv k).
Proof.
  pose proof (proj1 (Forall_forall _ _) Hws) as Ws. pose proof (proj1 (Forall_forall _ _) Hwo) as Wo.
  apply Forall_forall. intros y Hy.
  unfold normal_value, vp_edges in Hy. case_bool_decide; [|case_bool_decide; [|by apply elem_of_nil in Hy]];
    simpl in Hy; apply list_elem_of_fmap in Hy as (t & -> & [_ Ht]%list_elem_of_filter).
  - destruct (Ws t Ht). unfold is_sid. lia.
  - rewrite skip_types_filter in Ht by done. apply list_elem_of_filter in Ht as [_ Ht].
    destruct (Wo t Ht). unfold is_sid. lia.
Qed.

Lemma loaded_kv kv1 kv es :
  (∀ k, kv1 !! k = opt_list (nv k)) → es ≡ₚ map_to_list kv1 →
  (∀ k, kv !! k = if bool_decide (k_vid k = 0%Z ∧ (k_dir k = 0%Z ∨ k_dir k = 1%Z))
                  then opt_list (index_value es k) else kv1 !! k) →
  loaded spo ops kv.
Proof.
  intros Hkv1 Hes Hkv.
  assert (Hnz : ∀ x p d, x ≠ 0%Z → default [] (kv !! IKey x p d) = nv (IKey x p d)).
  { intros x p d Hx. rewrite Hkv, bool_decide_false by (simpl; tauto). by rewrite Hkv1, opt_list_default. }
  assert (Hz : ∀ p d, d = IN ∨ d = OUT → default [] (kv !! IKey 0 p (dir_val d)) = index_value es (IKey 0 p (dir_val d))).
  { intros p d Hd. rewrite Hkv, bool_decide_true; [by rewrite opt_list_default|].
    by destruct Hd as [-> | ->]; simpl; auto. }
  assert (Hvid : ∀ k vals, (k, vals) ∈ es → is_sid (k_vid k)).
  { intros k vals Hk. rewrite Hes, elem_of_map_to_list, Hkv1 in Hk. apply normal_key_sid. by destruct (nv k). }
  pose proof (λ p x Hp, index_members false spo ops Hso Hws Hwo Hty kv1 es p x Hkv1 Hes Hp) as Hmem.
  split.
  - split.
    + intros k Hk. rewrite Hkv, bool_decide_false by (rewrite Hk; unfold BLANK_ID; lia). rewrite Hkv1.
      destruct (nv k) eqn:E; [done|]. destruct (normal_key_sid k) as (_ & ? & _); [by rewrite E|done].
    + intros k vals Hk. rewrite Hkv in Hk. case_bool_decide.
      * assert (vals = index_value es k) as -> by (by destruct (index_value es k); simplify_eq/=).
        apply Forall_forall. intros y. unfold index_value. destruct (dir_in k); [rewrite elem_of_app|].
        -- intros [(k' & v' & Hin & _ & _ & _ & <-)%type_vids_elem|(k' & v' & Hin & _ & _ & _ & <-)%pred_vids_elem]; by eapply Hvid.
        -- intros (k' & v' & Hin & _ & _ & _ & <-)%pred_vids_elem; by eapply Hvid.
      * rewrite Hkv1 in Hk. assert (vals = nv k) as -> by (by destruct (nv k); simplify_eq/=). apply normal_value_sid.
  - intros x p y Hx Hp. rewrite Hnz by done. rewrite (proj1 (normal_value_elem false spo ops Hso Hwo x p y Hp)).
    split; [by intros ([? ? ?] & ? & <- & <- & <-)|]. intros Ht. by exists (Triple x p y).
  - intros x p y Hx Hp. rewrite Hnz by done. rewrite (proj2 (normal_value_elem false spo ops Hso Hwo x p y Hp)).
    split; [by intros ([? ? ?] & ? & ? & <- & <- & <-)|]. intros [Ht ?]. by exists (Triple y p x).
  - intros p y Hp. rewrite Hz by auto. apply (Hmem p y Hp).
  - intros p y Hp. rewrite Hz by auto. apply (Hmem p y Hp).
Qed.
End load.

(** ** Answers over the triples *)

(** A data set on one server: the same triples sorted both ways, encoded by the
    rules of [gstore.hpp]. *)
Record dataset_ok (spo ops : list triple_t) : Prop := {
  ds_spo : StronglySorted (vp_le tr_s) spo;
  ds_ops : StronglySorted (vp_le tr_o) ops;
  ds_same t : t ∈ ops ↔ t ∈ spo;
  ds_wf : Forall triple_wf spo;
  ds_typed : typed spo ops;
  ds_normal t : t ∈ spo → tr_p t ≠ TYPE_ID → (2 ^ 17 <= tr_o t)%Z;
  ds_blank : no_blank spo
}.

(** what of it does not depend on the order *)
Record triples_ok (spo ops : list triple_t) : Prop := {
  tk_same t : t ∈ ops ↔ t ∈ spo;
  tk_wf : Forall triple_wf spo;
  tk_normal t : t ∈ spo → tr_p t ≠ TYPE_ID → (2 ^ 17 <= tr_o t)%Z
}.

Lemma dataset_triples spo ops : dataset_ok spo ops → triples_ok spo ops.
Proof. intros []. by split. Qed.

(** The triple pattern at position [i] holds in the data set [T]: the first one may
    be the dummy pattern that stands for an index. *)
Definition triple_holds (T : list triple_t) (i : nat) (σ : assignment) (p : Pattern) : Prop :=
  if (i =? 0) && is_tpid (subject p) then
    match direction p with
    | IN => ∃ t, t ∈ T ∧ tr_s t = val σ (object p) ∧
              (tr_p t = subject p ∨ tr_p t = TYPE_ID ∧ tr_o t = subject p)
    | OUT => ∃ t, t ∈ T ∧ tr_o t = val σ (object p) ∧ tr_p t = subject p
    | CORUN => False
    end
  else
    match direction p with
    | OUT => Triple (val σ (subject p)) (predicate p) (val σ (object p)) ∈ T
    | IN => Triple (val σ (object p)) (predicate p) (val σ (subject p)) ∈ T
    | CORUN => False
    end.

(** The pattern starts from a normal vertex by a proper predicate; types are only
    read from the instances. *)
Definition source_ok (i : nat) (p : Pattern) : bool :=
  (i =? 0) && is_tpid (subject p) ||
  (0 <? predicate p)%Z && ((subject p <? 0)%Z || (2 ^ 17 <=? subject p)%Z) &&
  (bool_decide (direction p = OUT) || negb (predicate p =? TYPE_ID)%Z).

Section graph.
  Context (gr : Graph) (gok : GraphOk) (kv : gmap ikey_t (list sid_t)) (spo ops : list triple_t).
  Hypothesis Hed : ∀ v d p, edge_list v d p = default [] (kv !! IKey v p (dir_val d)).
  Hypothesis Hix : ∀ p d, index_list p d = default [] (kv !! IKey 0 p (dir_val d)).
  Hypothesis Hds : triples_ok spo ops.
  Hypothesis Hld : loaded spo ops kv.

Lemma pat_holds_triple n i σ p :
  pattern_okb n p = true → source_ok i p = true →
  (if (i =? 0) && is_tpid (subject p) then True else (subject p < 0)%Z → is_sid (σ (subject p)) ∧ σ (subject p) ≠ 0%Z) →
  pat_holds i σ p ↔ triple_holds spo i σ p.
Proof.
  intros Hpok Hsrc Hσ. destruct Hds as [Hsame Hwf Hnorm].
  pose proof (pattern_okb_ok n p Hpok) as [Hpp Hpd]. destruct (pattern_okb_terms n p Hpok) as (Hts & _ & _).
  rewrite Forall_forall in Hwf. unfold pat_holds, triple_holds, source_ok in *.
  destruct ((i =? 0) && is_tpid (subject p)) eqn:Ei.
  - apply andb_true_iff in Ei as [_ Et]. unfold is_tpid in Et. apply andb_true_iff in Et as [Et%Z.ltb_lt _].
    rewrite Hix. destruct (direction p); [|rewrite (ld_idx_out _ _ _ Hld _ _ Et)|done].
    + apply (ld_idx_in _ _ _ Hld _ _ Et).
    + split; intros (t & Ht & Ho & Hp).
      * destruct Hp as [Hp _]. exists t. by rewrite <-Hsame.
      * exists t. split_and!; [by apply Hsame|done|done|]. rewrite <-Ho. apply Hnorm; [done|].
        rewrite Hp. unfold TYPE_ID. lia.
  - simpl in Hsrc. rewrite !andb_true_iff, !orb_true_iff in Hsrc. destruct Hsrc as [[Hp0%Z.ltb_lt Hs] Hdir].
    rewrite Hed. assert (Hv : val σ (subject p) ≠ 0%Z).
    { unfold val. destruct (Z.leb_spec 0 (subject p)); [|by apply Hσ].
      unfold u32. rewrite Z.mod_small by lia. destruct Hs as [?%Z.ltb_lt|?%Z.leb_le]; lia. }
    destruct (direction p); [rewrite (ld_in _ _ _ Hld)|rewrite (ld_out _ _ _ Hld)|]; try done.
    rewrite Hsame. split; [by intros [? _]|]. intros Ht. split; [done|].
    destruct Hdir as [?%bool_decide_eq_true_1|Hdir]; [done|]. apply negb_true_iff, Z.eqb_neq in Hdir.
    by apply (Hnorm _ Ht).
Qed.

Lemma plan_ok_lookup n j known ps i p : plan_ok n j known ps = true → ps !! i = Some p → pattern_okb n p = true.
Proof.
  revert j known i. induction ps as [|p' ps IH]; intros j known i Hp Hi; [done|].
  cbn [plan_ok] in Hp. rewrite !andb_true_iff in Hp. destruct Hp as [[? _] Hp].
  destruct i as [|i]; [by simplify_eq/=|by eapply IH].
Qed.

(** running a plan over the triples *)
Lemma graph_query_ok `{Config} (n : nat) (pg : PatternGroup) :
  patterns pg ≠ [] → plan_ok n 0 ∅ (patterns pg) = true → (Z.of_nat (length (patterns pg)) < NO_RESULT)%Z →
  (∀ i p, patterns pg !! i = Some p → source_ok i p = true) →
  ∃ q' rows, run_patterns false (length (patterns pg)) (query_of pg n) = Ok q' ∧
    res_rows (result q') rows ∧
    ∀ σ, (∀ v, is_sid (σ v) ∧ σ v ≠ 0%Z) →
      (∀ i p, patterns pg !! i = Some p → triple_holds spo i σ p) ↔
      ∃ row, row ∈ rows ∧ agree (result q') (plan_vars (patterns pg)) row σ.
Proof.
  intros Hne Hplan Hsz Hsrc.
  destruct (run_patterns_bgp false n (patterns pg) (query_of pg n) (query_of_fresh pg n) Hne Hplan Hsz)
    as (q' & rows & Hrun & Hex & _ & Hsol).
  exists q', rows. split_and!; [done|apply Hex|]. intros σ Hσ. rewrite <-(Hsol σ) by apply Hσ.
  assert (Hpat : ∀ i p, patterns pg !! i = Some p → pat_holds i σ p ↔ triple_holds spo i σ p).
  { intros i p Hp. apply (pat_holds_triple n); [by eapply plan_ok_lookup|by apply Hsrc|]. case_match; [done|]. intros _. apply Hσ. }
  split; intros Hs i p.
  - intros _ Hp. by apply Hpat, Hs.
  - intros Hp. apply Hpat; [done|]. apply Hs; [by eapply lookup_lt_Some|done].
Qed.
End graph.

(** A store of its own, as a cluster of one server. *)
Lemma single_cluster_ok (cfg := one_server) g kv buf_sz :
  gs_rep g kv → cluster_ok [g] 0 buf_sz (λ _, kv).
Proof.
  intros Hg. split; try done.
  - simpl. lia.
  - intros [|i] g' Hi; by simplify_eq/=.
  - intros [|i] g1 g2 H1 H2; by simplify_eq/=.
  - intros [|i] g1 g2 H1 H2; by simplify_eq/=.
Qed.

(** the normal keys of the triples, and over them the index keys *)
Record loaded_exactly (spo ops : list triple_t) (kv : gmap ikey_t (list sid_t)) (kv1 : gmap ikey_t (list sid_t)) (es : list (ikey_t * list sid_t)) : Prop := {
  le_normal k : kv1 !! k = opt_list (normal_value false spo ops k);
  le_entries : es ≡ₚ map_to_list kv1;
  le_index k : kv !! k = if bool_decide (k_vid k = 0%Z ∧ (k_dir k = 0%Z ∨ k_dir k = 1%Z)) then opt_list (index_value es k) else kv1 !! k
}.

Lemma dataset_ops_wf spo ops : dataset_ok spo ops → Forall triple_wf ops ∧ no_blank ops.
Proof.
  intros Hds. pose proof (ds_wf _ _ Hds) as Hws. rewrite Forall_forall in Hws.
  split; [apply Forall_forall; intros t Ht; by apply Hws, (ds_same _ _ Hds)|]. intros t Ht. by apply (ds_blank _ _ Hds), (ds_same _ _ Hds).
Qed.

Lemma load_exact `{TbbOrder} g spo ops :
  dataset_ok spo ops → header_sizes (hdr g) → length (edges g) = num_entries g →
  room (refresh g) (2 * (length spo + length ops) + 3) (5 * (length spo + length ops)) →
  ∃ g1, insert_normal false (refresh g) spo ops = Ok g1 ∧
    ∀ bs, bs ≡ₚ seq 0 (num_buckets (hdr g1) + last_ext (hdr g1)) →
    ∃ g2 kv kv1 es, insert_index false g1 bs = Ok g2 ∧ gs_rep g2 kv ∧ loaded_exactly spo ops kv kv1 es.
Proof.
  intros Hds Hh Hl Hr. destruct (dataset_ops_wf _ _ Hds) as [Hwo _]. destruct Hds as [Hs Ho Hsame Hws Hty _ Hbs].
  destruct (insert_normal_rep false (refresh g) ∅ spo ops)
    as (g1 & kv1 & -> & Hg1 & Hc1 & Hk1); [by apply refresh_rep|done..| |].
  { unfold kv_weight. eapply room_le; [done|lia..]. }
  assert (Hkv1 : ∀ k, kv1 !! k = opt_list (normal_value false spo ops k)).
  { intros k. rewrite Hk1. by destruct (normal_value _ _ _ _). }
  pose proof (normal_value_normal false spo ops Ho Hws Hwo Hty kv1 Hkv1) as Hnk.
  exists g1. split; [done|]. intros bs Hbuckets.
  assert (Htot : kv_total kv1 <= length spo + length ops).
  { destruct Hg1 as [m Hg1]. pose proof (gs_total _ _ _ Hg1). pose proof (cs_entry _ _ _ _ Hc1).
    unfold kv_weight in *. simpl in *. lia. }
  destruct (insert_index_rep g1 kv1 Hg1 Hnk false bs Hbuckets) as (g2 & kv2 & es & ix & E & Hg2 & Hes & _ & _ & Hk2).
  { eapply room_consume; [|exact Hc1]. unfold kv_weight. eapply room_le; [done|lia..]. }
  exists g2, kv2, kv1, es. done.
Qed.

(** Loading a data set into a refreshed store gives the pairs of [loaded], for every
    order of the parallel scan and of the hash maps. *)
Lemma load_ok `{TbbOrder} g spo ops :
  dataset_ok spo ops → header_sizes (hdr g) → length (edges g) = num_entries g →
  room (refresh g) (2 * (length spo + length ops) + 3) (5 * (length spo + length ops)) →
  ∃ g1, insert_normal false (refresh g) spo ops = Ok g1 ∧
    ∀ bs, bs ≡ₚ seq 0 (num_buckets (hdr g1) + last_ext (hdr g1)) →
    ∃ g2 kv, insert_index false g1 bs = Ok g2 ∧ gs_rep g2 kv ∧ loaded spo ops kv.
Proof.
  intros Hds Hh Hl Hr. destruct (load_exact g spo ops Hds Hh Hl Hr) as (g1 & E1 & Hg1). exists g1. split; [done|]. intros bs Hbs.
  destruct (Hg1 bs Hbs) as (g2 & kv & kv1 & es & E2 & Hg2 & [Hn He Hi]). exists g2, kv. split_and!; [done|done|].
  destruct (dataset_ops_wf _ _ Hds) as [Hwo Hbo]. destruct Hds. by eapply loaded_kv.
Qed.

(** running a plan over a loaded store *)
Lemma store_query_ok (g : gstore) (kv : gmap ikey_t (list sid_t)) (spo ops : list triple_t) (buf_sz : Z) (n : nat) (pg : PatternGroup) :
  dataset_ok spo ops → gs_rep g kv → loaded spo ops kv →
  patterns pg ≠ [] → plan_ok n 0 ∅ (patterns pg) = true → (Z.of_nat (length (patterns pg)) < NO_RESULT)%Z →
  (∀ i p, patterns pg !! i = Some p → source_ok i p = true) →
  let _ := one_server in
  let _ := cluster_graph [g] 0 buf_sz ∅ in
  ∃ q' rows, run_patterns false (length (patterns pg)) (query_of pg n) = Ok q' ∧
    res_rows (result q') rows ∧
    ∀ σ, (∀ v, is_sid (σ v) ∧ σ v ≠ 0%Z) →
      (∀ i p, patterns pg !! i = Some p → triple_holds spo i σ p) ↔
      ∃ row, row ∈ rows ∧ agree (result q') (plan_vars (patterns pg)) row σ.
Proof.
  intros Hds Hg2 Hld Hne Hplan Hsz Hsrc cfg gr.
  pose proof (single_cluster_ok g kv buf_sz Hg2) as Hcl.
  assert (Hc : @cache_coherent cfg [g] ∅) by (intros idx v Hv; done).
  assert (Hown : ∀ v, @owner cfg v = 0) by (intros v; unfold owner; simpl; by rewrite Z.mod_1_r).
  apply (graph_query_ok gr (@cluster_graph_ok cfg [g] 0 buf_sz ∅ (λ _, kv) Hcl Hc (λ _, ld_plain _ _ _ Hld)) kv spo ops); try done.
  by apply dataset_triples.
Qed.

(** C2: loading a data set and running a plan answers the query over the triples:
    the load succeeds when the regions have room, the run succeeds, and an
    assignment of ids satisfies every triple pattern of the plan in the data set if
    and only if some row of the result gives the variables these values. The id 0 is
    the one of the index vertices and is no answer. *)
Theorem load_and_query `{TbbOrder} (g : gstore) (spo ops : list triple_t) (buf_sz : Z) (n : nat) (pg : PatternGroup) :
  dataset_ok spo ops → header_sizes (hdr g) → length (edges g) = num_entries g →
  room (refresh g) (2 * (length spo + length ops) + 3) (5 * (length spo + length ops)) →
  patterns pg ≠ [] → plan_ok n 0 ∅ (patterns pg) = true → (Z.of_nat (length (patterns pg)) < NO_RESULT)%Z →
  (∀ i p, patterns pg !! i = Some p → source_ok i p = true) →
  ∃ g1, insert_normal false (refresh g) spo ops = Ok g1 ∧
    ∀ bs, bs ≡ₚ seq 0 (num_buckets (hdr g1) + last_ext (hdr g1)) →
    ∃ g2, insert_index false g1 bs = Ok g2 ∧
      let _ := one_server in
      let _ := cluster_graph [g2] 0 buf_sz ∅ in
      ∃ q' rows, run_patterns false (length (patterns pg)) (query_of pg n) = Ok q' ∧
        res_rows (result q') rows ∧
        ∀ σ, (∀ v, is_sid (σ v) ∧ σ v ≠ 0%Z) →
          (∀ i p, patterns pg !! i = Some p → triple_holds spo i σ p) ↔
          ∃ row, row ∈ rows ∧ agree (result q') (plan_vars (patterns pg)) row σ.
Proof.
  intros Hds Hh Hl Hr Hne Hplan Hsz Hsrc. destruct (load_ok g spo ops Hds Hh Hl Hr) as (g1 & E1 & Hg1).
  exists g1. split; [done|]. intros bs Hbs. destruct (Hg1 bs Hbs) as (g2 & kv & E2 & Hg2 & Hld).
  exists g2. split; [done|]. by apply (store_query_ok g2 kv spo ops buf_sz n pg).
Qed.

(** the plan [?x a 7 . ?x 5 ?y] on two triples *)
Definition typed_plan : PatternGroup :=
  MkGroup false [MkPattern 7 TYPE_ID (-1) IN 0; MkPattern (-1) 5 (-2) OUT 0] [] [] [] ∅.

Lemma typed_dataset : dataset_ok typed_triples typed_triples.
Proof.
  assert (Hall : ∀ t, t ∈ typed_triples → t = Triple 131072 1 7 ∨ t = Triple 131072 5 131073).
  { intros t Ht. unfold typed_triples in Ht. set_solver. }
  split; [repeat constructor; unfold vp_le; simpl; lia| |done|repeat constructor; simpl; lia| | |].
  - repeat constructor; unfold vp_le; simpl; lia.
  - split; intros t; [| |intros t' Ht Ht']; [intros Ht|intros Ht|destruct (Hall t' Ht') as [-> | ->]];
      destruct (Hall t Ht) as [-> | ->]; simpl; done || lia.
  - intros t Ht. destruct (Hall t Ht) as [-> | ->]; simpl; done || lia.
  - intros t Ht. destruct (Hall t Ht) as [-> | ->]; simpl; unfold BLANK_ID; lia.
Qed.

Lemma load_and_query_witness :
  ∃ g1, insert_normal false (refresh bigger_store) typed_triples typed_triples = Ok g1 ∧
  ∃ g2, insert_index (H := list_order) false g1 (seq 0 (num_buckets (hdr g1) + last_ext (hdr g1))) = Ok g2 ∧
  ∃ q' (rows : list (list sid_t)), @run_patterns false one_server (@cluster_graph one_server [g2] 0 0 ∅) 2 (query_of typed_plan 2) = Ok q' ∧
    ∃ row, row ∈ rows ∧ agree (result q') (plan_vars (patterns typed_plan)) row
      (λ v, if (v =? -1)%Z then 131072%Z else 131073%Z).
Proof.
  destruct (load_and_query (H := list_order) bigger_store typed_triples typed_triples 0 2 typed_plan) as (g1 & E1 & Hg1).
  - exact typed_dataset.
  - split; simpl; unfold ASSOCIATIVITY; lia.
  - done.
  - split; simpl; lia.
  - done.
  - vm_compute. reflexivity.
  - vm_compute. reflexivity.
  - intros [|[|i]] p Hp; simpl in Hp; [injection Hp as <-; vm_compute; reflexivity..|done].
  - exists g1. split; [exact E1|].
    destruct (Hg1 (seq 0 (num_buckets (hdr g1) + last_ext (hdr g1)))) as (g2 & E2 & q' & rows & Hrun & _ & Hsol); [reflexivity|].
    exists g2. split; [exact E2|]. exists q', rows. split; [exact Hrun|].
    refine (proj1 (Hsol (λ v, if (v =? -1)%Z then 131072%Z else 131073%Z) _) _).
    + intros v. unfold is_sid. cbv beta. destruct (v =? -1)%Z; lia.
    + intros [|[|i]] p Hp; simpl in Hp; [..|done]; injection Hp as <-.
      * exists (Triple 131072 1 7). split; [apply list_elem_of_here|]. split; [reflexivity|]. right. split; reflexivity.
      * apply list_elem_of_further, list_elem_of_here.
Defined.
