(* ===== verification/Replies.v ===== *)
(** The request handling of [core/engine.hpp]: messages are not lost, a fork-join
    collects all its replies, and a query on one server is answered. *)

From stdpp Require Import strings.
From S2P Require Import Prelude Types MyMath Tuple Keys Coder Query Rows Serial Engine EngineSteps Exec.
From S2P Require Import Regex StringServer Filter Final Server ForkJoin Frame Bgp.
Local Open Scope nat_scope.

(** ** Messages *)

Section messages.
  Context `{Adaptor}.

(** every message of an engine: accepted by the network or pending *)
Definition all_msgs (e : engine) : list Message := delivered (e_net e) ++ e_pending e.

Lemma send_request_msgs e m : all_msgs (send_request e m) ≡ₚ all_msgs e ++ [m].
Proof.
  unfold all_msgs, send_request. pose proof (net_send_ok (e_net e) m) as Hn.
  destruct (net_send (e_net e) m) as [[] n]; simpl in *; rewrite Hn; solve_Permutation.
Qed.

Lemma sweep_msgs_msgs e : all_msgs (sweep_msgs e) ≡ₚ all_msgs e.
Proof.
  unfold all_msgs, sweep_msgs.
  assert (Hf : ∀ ms l n, let '(l', n') := foldl (λ '(l, n) m,
      let '(ok, n) := net_send n m in (if ok then l else l ++ [m], n)) (l, n) ms in
      delivered n' ++ l' ≡ₚ delivered n ++ l ++ ms).
  { induction ms as [|m ms IH]; intros l n; simpl; [by rewrite app_nil_r|].
    pose proof (net_send_ok n m) as Hn. destruct (net_send n m) as [[] n1]; simpl in Hn.
    - specialize (IH l n1). destruct (foldl _ _ _). rewrite IH, Hn. solve_Permutation.
    - specialize (IH (l ++ [m]) n1). destruct (foldl _ _ _). rewrite IH, Hn. solve_Permutation. }
  specialize (Hf (e_pending e) [] (e_net e)). destruct (foldl _ _ _) as [l' n']. simpl. exact Hf.
Qed.

Inductive msg_op := OpSend (m : Message) | OpSweep.
Definition run_op (e : engine) (op : msg_op) : engine :=
  match op with OpSend m => send_request e m | OpSweep => sweep_msgs e end.
Definition sent (ops : list msg_op) : list Message :=
  omap (λ op, match op with OpSend m => Some m | OpSweep => None end) ops.

(** C21: no message is lost or sent twice: after any sequence of sends and sweeps the
    messages that the network has accepted together with the pending ones are the
    messages of before and the sent ones, whatever the network refuses. *)
Theorem messages_kept e ops :
  all_msgs (foldl run_op e ops) ≡ₚ all_msgs e ++ sent ops.
Proof.
  revert e. induction ops as [|op ops IH]; intros e; simpl; [by rewrite app_nil_r|].
  rewrite IH. destruct op as [m|]; simpl.
  - rewrite send_request_msgs. solve_Permutation.
  - by rewrite sweep_msgs_msgs.
Qed.
End messages.

(** ** Replies of a fork *)

(** the replies [rs] appended to a result *)
Definition appended (r : Result) (rs : list SPARQLQuery) : Result := foldl (λ r q, append_result r (result q)) r rs.

Lemma appended_table r rs : Forall (λ q, blind (result q) = false) rs →
  result_table (appended r rs) = result_table r ++ concat ((λ q, result_table (result q)) <$> rs) ∧
  row_num (appended r rs) = row_num r + sum_list_with (λ q, row_num (result q)) rs.
Proof.
  intros Hb. revert r. induction Hb as [|q rs Hq _ IH]; intros r; simpl; [rewrite app_nil_r; split; [done|lia]|].
  destruct (IH (append_result r (result q))) as [-> ->].
  unfold append_result. simpl. rewrite Hq. simpl. rewrite <-app_assoc. split; [done|lia].
Qed.

(** the item of a fork after the replies [rs] *)
Definition collected (r : SPARQLQuery) (n : nat) (rs : list SPARQLQuery) : Item :=
  MkItem (Z.of_nat n - Z.of_nat (length rs)) r
    (set_pattern_step (if bool_decide (state r = SQ_PATTERN) then default 0 (pattern_step <$> last rs) else 0)
      (set_result (appended empty_result rs) new_query)).

Lemma put_replies m r n rs :
  has_union r = false → Forall (λ q, q_pid q = q_id r) rs →
  foldM put_reply (<[q_id r := MkItem (Z.of_nat n) r new_query]> m) rs = Ok (<[q_id r := collected r n rs]> m).
Proof.
  intros Hu Hrs. induction rs as [|q rs IH] using rev_ind.
  { simpl. do 3 f_equal. unfold collected. simpl. f_equal; [lia|]. by case_bool_decide. }
  apply Forall_app in Hrs as [Hrs [Hq _]%Forall_cons].
  rewrite foldM_snoc, IH by done. cbn [mbind outcome_bind]. unfold put_reply. rewrite Hq, lookup_insert_eq.
  cbn [it_parent it_reply collected]. rewrite Hu. cbn [mbind outcome_bind]. rewrite insert_insert_eq. do 2 f_equal.
  unfold collected. rewrite last_snoc, length_app. simpl. f_equal; [lia|].
  unfold appended. rewrite foldl_app. simpl. by case_bool_decide.
Qed.

(** C20: a fork of [n] sub-queries is complete exactly when its [n] replies have come,
    in any order: it is not ready before; then the merged query is the parent with
    the rows of all replies, in order of arrival, with their number and (in the
    pattern phase) their position in the plan, and the map is as before the fork. *)
Theorem fork_join_replies (m : Reply_Map) (r : SPARQLQuery) (rs : list SPARQLQuery) :
  m !! q_id r = None → has_union r = false → rs ≠ [] →
  Forall (λ q, q_pid q = q_id r ∧ blind (result q) = false) rs →
  ∃ m1, put_parent_request m r (Z.of_nat (length rs)) = Ok m1 ∧
    (∀ k, k < length rs → ∃ m2, foldM put_reply m1 (take k rs) = Ok m2 ∧ is_ready m2 (q_id r) = Ok false) ∧
    ∃ m2 q', foldM put_reply m1 rs = Ok m2 ∧ is_ready m2 (q_id r) = Ok true ∧
      get_merged_reply m2 (q_id r) = Ok (q', m) ∧
      result_table (result q') = concat ((λ q, result_table (result q)) <$> rs) ∧
      row_num (result q') = sum_list_with (λ q, row_num (result q)) rs ∧
      pattern_group q' = pattern_group r ∧ required_vars (result q') = required_vars (result r) ∧
      (state r = SQ_PATTERN → Some (pattern_step q') = pattern_step <$> last rs).
Proof.
  intros Hm Hu Hne Hrs. assert (Hpid : Forall (λ q, q_pid q = q_id r) rs) by (eapply Forall_impl; [exact Hrs|by intros ? []]).
  assert (Hbl : Forall (λ q, blind (result q) = false) rs) by (eapply Forall_impl; [exact Hrs|by intros ? []]).
  eexists. unfold put_parent_request. rewrite bool_decide_true by done. split; [reflexivity|]. split.
  - intros k Hk. rewrite put_replies by (done || by apply Forall_take). eexists. split; [reflexivity|].
    unfold is_ready. rewrite lookup_insert_eq. f_equal. apply Z.eqb_neq. simpl. rewrite length_take. lia.
  - rewrite put_replies by done. eexists _, _. split; [reflexivity|]. unfold is_ready, get_merged_reply. rewrite lookup_insert_eq.
    split; [f_equal; apply Z.eqb_eq; simpl; lia|]. rewrite delete_insert_id by done.
    destruct (appended_table empty_result rs Hbl) as [Ht Hn]. simpl in Ht, Hn.
    split; [reflexivity|]. case_bool_decide as Hst; simpl; rewrite Ht, Hn; split_and!; try done.
    rewrite bool_decide_true by done. intros _. destruct (last rs) eqn:El; [done|].
    apply last_None in El. done.
Qed.

Definition reply_of (id pid : Z) (t : list sid_t) : SPARQLQuery :=
  MkQuery id pid 0 BASIC SQ_REPLY 1 1 2 0 false 0 0 false 0 (-1) 0 false empty_group []
    (MkResult 1 (length t) 0 false 2 [0; 65535]%Z [] t [] []).

Lemma fork_join_replies_witness :
  ∃ m1 m2 q', put_parent_request ∅ forked_query 2 = Ok m1 ∧
    foldM put_reply m1 [reply_of 8 7 [5%Z; 6%Z]; reply_of 9 7 [4%Z]] = Ok m2 ∧
    get_merged_reply m2 7 = Ok (q', ∅) ∧ result_table (result q') = [5; 6; 4]%Z.
Proof.
  destruct (fork_join_replies ∅ forked_query [reply_of 8 7 [5%Z; 6%Z]; reply_of 9 7 [4%Z]])
    as (m1 & E1 & _ & m2 & q' & E2 & _ & E3 & Ht & _); [reflexivity|reflexivity|discriminate|repeat constructor|].
  exists m1, m2, q'. split; [exact E1|]. split; [exact E2|]. split; [exact E3|exact Ht].
Defined.

(** ** Stolen requests *)

Section stolen.
  Context (versatile : bool) `{Config} `{Graph} `{Adaptor} `{StdSort} (strs : String_Server).
  Context (regex_compile : bool → string → option regex) (uset_iter : gset sid_t → list sid_t).

Lemma dispatch_rmap e dst q : e_rmap (dispatch e dst q) = e_rmap e.
Proof. unfold dispatch, send_request. destruct (negb _); [|done]. by destruct (net_send _ _) as [[] ?]. Qed.

Lemma with_engine_inv (s s' : list engine) i f : with_engine s i f = Ok s' →
  ∃ e e', s !! i = Some e ∧ f e = Ok e' ∧ i < length s ∧ s' = <[i := e']> s.
Proof.
  unfold with_engine. intros (e & He & E)%bind_Ok. apply bind_Ok in E as (e' & Hf & E).
  apply read_Ok in He. apply write_Ok in E as [? ->]. by exists e, e'.
Qed.

(** C40: the replies of a stolen UNION query are refused: the thief records the
    parent in the reply map of the engine it stole from, but the parent id is one of
    its own, so the replies come back to the thief, whose map has no such parent. *)
Theorem stolen_union_reply_fails (s s' : list engine) (me eng : nat) (e : engine) (q reply : SPARQLQuery) :
  me ≠ eng → s !! me = Some e → e_rmap e !! q_id q = None →
  do_union s me eng q = Ok s' →
  state reply = SQ_REPLY → q_pid reply = q_id q → q_id reply ≠ (-1)%Z →
  execute_sparql_query versatile strs regex_compile uset_iter s' me me reply = Err AssertFail.
Proof.
  intros Hne Hme Hmap Hdo Hst Hpid Hid. unfold do_union in Hdo.
  apply bind_Ok in Hdo as (s1 & (e1 & e1' & _ & _ & _ & ->)%with_engine_inv & Hdo).
  apply bind_Ok in Hdo as (reqs & _ & (e2 & e2' & He2 & [= <-] & Hlt & ->)%with_engine_inv).
  rewrite list_lookup_insert_ne in He2 by done. rewrite Hme in He2. injection He2 as <-.
  set (e' := foldl _ e reqs). set (s2 := <[me := e']> _).
  assert (Hr : e_rmap e' !! q_id q = None).
  { assert (e_rmap e' = e_rmap e) as ->; [|done]. subst e'. clear. revert e.
    induction reqs as [|[dst r] reqs IH]; intros e; simpl; [done|]. by rewrite IH, dispatch_rmap. }
  assert (Hs2 : s2 !! me = Some e') by (by apply list_lookup_insert_eq).
  assert (Hw : write s2 me e' = Ok s2).
  { apply write_Ok. split; [by eapply lookup_lt_Some|]. symmetry. by apply list_insert_id. }
  unfold execute_sparql_query. rewrite (proj2 (read_Ok s2 me e') Hs2). cbn [mbind outcome_bind].
  rewrite (proj2 (Z.eqb_neq _ _) Hid). rewrite Hw. cbn [mbind outcome_bind].
  rewrite bool_decide_true by done. rewrite (proj2 (read_Ok s2 me e') Hs2). cbn [mbind outcome_bind].
  unfold put_reply. by rewrite Hpid, Hr.
Qed.
End stolen.

(** *** A thief and its victim *)

(** a network that accepts every message *)
Definition open_network : Adaptor := {|
  net := list Message; net_send n m := (true, n ++ [m]); delivered n := n;
  net_send_ok n m := eq_refl
|}.

Definition idle_engine : @engine open_network :=
  @MkEngine open_network 0 1 (MkCoder 0 1 1) ∅ [] [] [] [].

(** the query [{ ... } UNION { ... }] with the id 5 of the second engine *)
Definition union_query : SPARQLQuery :=
  MkQuery 5 0 0 BASIC SQ_PATTERN 1 0 1 0 false 0 0 false 0 (-1) 0 false
    (MkGroup false [] [tiny_plan; tiny_plan] [] [] ∅) [] empty_result.

Definition thief : @engine open_network := @MkEngine open_network 0 2 (MkCoder 0 2 2) ∅ [] [] [] [].

Lemma stolen_union_reply_fails_witness : ∃ s',
  @do_union one_server open_network [idle_engine; thief] 1 0 union_query = Ok s' ∧
  @execute_sparql_query false one_server tiny_graph open_network insertion_std_sort empty_strings
    (λ _ _, None) (λ _, []) s' 1 1 (reply_of 9 5 [3%Z]) = Err AssertFail.
Proof.
  destruct (@do_union one_server open_network [idle_engine; thief] 1 0 union_query) as [s'|] eqn:E; [|vm_compute in E; discriminate].
  exists s'. split; [reflexivity|].
  apply (@stolen_union_reply_fails false one_server tiny_graph open_network insertion_std_sort empty_strings
    (λ _ _, None) (λ _, []) [idle_engine; thief] s' 1 0 thief union_query (reply_of 9 5 [3%Z]));
    [discriminate|reflexivity|reflexivity|exact E|reflexivity|reflexivity|discriminate].
Defined.
