(* ===== verification/Answer.v ===== *)
(** A query from a proxy on one server: [execute_sparql_query] answers it with one
    message, whose table holds the solutions of the basic graph pattern, projected
    to the required variables and cut by OFFSET and LIMIT. *)

From stdpp Require Import strings.
From S2P Require Import Prelude Types MyMath Tuple Keys Coder Query Rows Serial Engine EngineSteps Exec.
From S2P Require Import Regex StringServer Filter Final Server Frame Bgp Replies.
Local Open Scope nat_scope.

(** a query as a proxy sends it: a plan and a projection, with OFFSET and LIMIT *)
Record plain_query (n : nat) (q : SPARQLQuery) : Prop := {
  pq_fresh : fresh n (patterns (pattern_group q)) q;
  pq_state : state q ≠ SQ_REPLY;
  pq_corun : corun_enabled q = false;
  pq_blind : blind (result q) = false;
  pq_group : unions (pattern_group q) = [] ∧ optional (pattern_group q) = [] ∧ filters (pattern_group q) = [];
  pq_plain : distinct q = false ∧ orders q = [];
  pq_required : required_vars (result q) ≠ [] ∧
    ∀ v, v ∈ required_vars (result q) → v ∈ plan_vars (patterns (pattern_group q));
  pq_offset : (0 <= offset q)%Z ∧ (offset q * NO_RESULT < 2 ^ 32)%Z;
  pq_limit : (limit q * NO_RESULT < 2 ^ 31)%Z
}.

(** the assignment that a row stands for *)
Definition row_assignment (r : Result) (row : list sid_t) : assignment := λ v,
  match v2c r !! var_idx v with
  | Some c => default 0%Z (row !! Z.to_nat c)
  | None => 0%Z
  end.

Lemma row_assignment_ok r n known row :
  map_ok r n known → length row = col_num r → Forall is_sid row →
  (∀ v, is_sid (row_assignment r row v)) ∧ agree r known row (row_assignment r row).
Proof.
  intros Hm Hl Hs. assert (H0 : is_sid 0) by (unfold is_sid; lia). split.
  - intros v. unfold row_assignment. destruct (v2c r !! var_idx v) as [c|]; [|done].
    destruct (row !! Z.to_nat c) as [x|] eqn:E; [|done]. by eapply Forall_lookup_1 in Hs.
  - intros v c Hv Hc. unfold row_assignment. rewrite Hc, Nat2Z.id.
    destruct (mo_known _ _ _ Hm v Hv) as (_ & c' & Hc' & Hlt). rewrite Hc in Hc'. injection Hc' as Hc'.
    destruct (row !! c) as [x|] eqn:E; [done|]. apply lookup_ge_None in E. lia.
Qed.

(** the columns of the required variables *)
Lemma known_projects r n known :
  map_ok r n known → required_vars r ≠ [] → (∀ v, v ∈ required_vars r → v ∈ known) →
  ∃ cols, projects r cols ∧
    ∀ row σ, agree r known row σ → proj cols row = σ <$> required_vars r.
Proof.
  intros Hm Hne Hk.
  assert (Hcols : ∀ vs, (∀ v, v ∈ vs → v ∈ known) → ∃ cols, Forall2 (bound r) vs cols ∧
    ∀ row σ, agree r known row σ → proj cols row = σ <$> vs).
  { induction vs as [|v vs IH]; intros Hvs; [by exists []|].
    destruct IH as (cols & Hb & Hp); [set_solver|].
    destruct (bound_known r n known v Hm) as (c & Hc & _); [set_solver|].
    exists (c :: cols). split; [by constructor|]. intros row σ Ha. unfold proj in *. rewrite !fmap_cons. f_equal.
    - eapply agree_cell; [exact Hm|exact Ha| |exact Hc]. set_solver.
    - by apply Hp. }
  destruct (Hcols _ Hk) as (cols & Hb & Hp). exists cols. split; [|done]. split; [done| |done].
  intros v Hv. destruct (mo_known _ _ _ Hm v (Hk v Hv)) as (Hr & c & Hc & Hlt).
  unfold is_attr_col. rewrite (var_ext_lookup r n known v (Z.of_nat c)) by done. cbn [mbind outcome_bind]. f_equal.
  apply negb_false_iff, Z.eqb_eq. unfold ext2type. pose proof (mo_cols _ _ _ Hm) as Hcol. change NO_RESULT with 65535%Z in Hcol.
  change NBITS_COL with 16%Z. rewrite Z.shiftr_div_pow2 by lia. by rewrite Z.div_small by lia.
Qed.

Section answer.
  Context (versatile : bool) `{Config} `{GraphOk} `{Adaptor} `{StdSort} (strs : String_Server).
  Context (regex_compile : bool → string → option regex) (uset_iter : gset sid_t → list sid_t).
  Hypothesis one_server_only : global_num_servers = 1%Z.

  (** ** The loop of [execute_patterns] *)

Lemma patterns_loop_run fuel fuel' e q q' :
  corun_enabled q = false → run_patterns versatile fuel q = Ok q' → fuel <= fuel' →
  framed q q' ∧ patterns_loop versatile uset_iter fuel' e q =
    Ok (true, set_result (set_row_num (get_row_num (result q')) (result q')) q', e).
Proof.
  revert fuel' q. induction fuel as [|fuel IH]; intros fuel' q Hco; cbn [run_patterns]; [done|].
  intros Hrun Hle. destruct fuel' as [|fuel']; [lia|]. cbn [patterns_loop].
  apply bind_Ok in Hrun as (q1 & E1 & Hrun). rewrite E1. cbn [mbind outcome_bind].
  pose proof (one_pattern_framed versatile q q1 E1) as Hf.
  assert (Hco1 : corun_enabled q1 = false) by (destruct Hf as [(r & s & v & ->) _ _]; exact Hco).
  rewrite Hco1. cbn [andb mbind outcome_bind].
  apply bind_Ok in Hrun as (d & E2 & Hrun). rewrite E2. cbn [mbind outcome_bind]. destruct d.
  - injection Hrun as <-. done.
  - unfold need_fork_join. rewrite one_server_only. cbn [Z.eqb Pos.eqb mbind outcome_bind].
    destruct (IH fuel' q1 Hco1 Hrun) as [Hf' ->]; [lia|]. split; [by etrans|done].
Qed.

Lemma execute_patterns_run e n q q' :
  fresh n (patterns (pattern_group q)) q → corun_enabled q = false →
  run_patterns versatile (length (patterns (pattern_group q))) q = Ok q' →
  framed q q' ∧ execute_patterns versatile uset_iter e q =
    Ok (true, set_result (set_row_num (get_row_num (result q')) (result q')) q', e).
Proof.
  intros Hq Hco Hrun. unfold execute_patterns.
  assert (Hfork : forks_index q = Ok false).
  { unfold forks_index. rewrite (fr_step _ _ _ Hq), (fr_mt _ _ _ Hq), one_server_only.
    change (1 <? i32 (1 * 1))%Z with false.
    destruct (parallel (pattern_group q)); [done|]. cbn [Nat.eqb negb andb].
    destruct (length (patterns (pattern_group q))) as [|m]; [done|]. cbn [run_patterns] in Hrun.
    apply bind_Ok in Hrun as (q1 & E & _). unfold execute_one_pattern in E. rewrite (fr_step _ _ _ Hq) in E.
    apply bind_Ok in E as (d & _ & E). apply bind_Ok in E as ([] & _ & E). apply bind_Ok in E as (p & _ & E).
    apply bind_Ok in E as (ix & Eix & _). simpl in Eix. rewrite Eix. cbn [mbind outcome_bind]. by rewrite andb_false_r. }
  rewrite Hfork. cbn [mbind outcome_bind]. by apply (patterns_loop_run (length (patterns (pattern_group q)))); [..|lia].
Qed.

  (** ** From the request to the reply *)

Lemma with_engine_ok (s : list engine) i e f e' :
  s !! i = Some e → f e = Ok e' → with_engine s i f = Ok (<[i := e']> s).
Proof.
  intros Hi Hf. unfold with_engine. rewrite (proj2 (read_Ok s i e) Hi). cbn [mbind outcome_bind]. rewrite Hf.
  apply write_Ok. split; [by eapply lookup_lt_Some|done].
Qed.

Lemma plain_next n q id s : plain_query n q → s ≠ SQ_REPLY → plain_query n (set_state s (set_id id q)).
Proof. intros [[] ? ? ? ? ? ? ? ?] ?. split; try done. all: by split. Qed.

(** the reply [m] carries [sols] under the window of [q] *)
Record answers (q : SPARQLQuery) (sols : list (list sid_t)) (m : SPARQLQuery) : Prop := {
  an_table : result_table (result m) = concat (window q sols);
  an_rows : row_num (result m) = length (window q sols);
  an_state : state m = SQ_REPLY;
  an_pid : q_pid m = q_pid q
}.

Lemma window_nil q : window q [] = [].
Proof. unfold window. rewrite drop_nil. case_match; [by rewrite take_nil|done]. Qed.

Lemma window_fmap q (f : list sid_t → list sid_t) rows : f <$> window q rows = window q (f <$> rows).
Proof. unfold window. case_match; by rewrite ?fmap_take, ?fmap_drop. Qed.

(** the filter, final and reply phases of an explored query *)
Lemma finish_plain (s : list engine) me e q q' rows cols :
  s !! me = Some e → framed q q' →
  unions (pattern_group q) = [] ∧ optional (pattern_group q) = [] ∧ filters (pattern_group q) = [] →
  distinct q = false ∧ orders q = [] → blind (result q) = false →
  (0 <= offset q)%Z ∧ (offset q * NO_RESULT < 2 ^ 32)%Z → (limit q * NO_RESULT < 2 ^ 31)%Z →
  QUERY_FROM_PROXY (tid_of (q_pid q)) = true →
  res_rows (result q') rows → (Z.of_nat (col_num (result q')) < NO_RESULT)%Z → projects (result q') cols →
  ∃ m, answers q (proj cols <$> rows) m ∧
    finish strs regex_compile s me (set_result (set_row_num (get_row_num (result q')) (result q')) q') =
      Ok (<[me := send_request e (MkMessage (sid_of (q_pid q)) (tid_of (q_pid q)) m)]> s).
Proof.
  intros Hme [(r & st & v & ->) _ Hbl] (Hu & Ho & Hfi) [Hd Hor] Hb [Ho1 Ho2] Hl Hpx Hr Hcol Hp.
  set (q0 := set_local_var v (set_pattern_step st (set_result r q))) in *. change (result q0) with r in *.
  set (r0 := set_row_num (get_row_num r) r).
  assert (Hr0 : res_rows r0 rows) by (destruct Hr; by split).
  assert (Hp0 : projects r0 cols) by (destruct Hp; by split).
  set (q1 := set_result r0 q0). unfold finish.
  assert (has_filter q1 = false) as -> by (unfold has_filter; simpl; by rewrite Hfi).
  cbn [mbind outcome_bind]. change (q_pid q1) with (q_pid q). rewrite Hpx.
  change NO_RESULT with 65535%Z in *.
  destruct (final_process_plain strs (set_state SQ_FINAL q1) rows cols) as (r' & E & Hb' & Hn & Hr'); try done.
  { simpl. by rewrite Hbl. }
  { simpl. nia. }
  { simpl. nia. }
  rewrite E. cbn [mbind outcome_bind].
  eexists. split; [|by eapply with_engine_ok; [exact Hme|reflexivity]].
  change (window (set_state SQ_FINAL q1) rows) with (window q rows) in *.
  split; [| |done|done].
  - simpl. rewrite Hb'. rewrite <-window_fmap. case_bool_decide as Hne.
    + subst r' rows. rewrite window_nil. simpl. by rewrite (rr_table _ _ Hr).
    + by rewrite (rr_table _ _ Hr').
  - simpl. rewrite Hb'. rewrite <-window_fmap, length_fmap. case_bool_decide as Hne; [|by apply Hn].
    subst r' rows. rewrite window_nil. simpl. by rewrite (get_row_num_rows _ _ Hr).
Qed.

Lemma continue_plain (s : list engine) me eng e n q :
  s !! me = Some e → plain_query n q →
  patterns (pattern_group q) ≠ [] → plan_ok n 0 ∅ (patterns (pattern_group q)) = true →
  (Z.of_nat (length (patterns (pattern_group q))) < NO_RESULT)%Z →
  QUERY_FROM_PROXY (tid_of (q_pid q)) = true →
  ∃ sols m, (∀ vs, vs ∈ sols ↔ ∃ σ, (∀ v, is_sid (σ v)) ∧
      solves (length (patterns (pattern_group q))) (patterns (pattern_group q)) σ ∧ vs = σ <$> required_vars (result q)) ∧
    answers q sols m ∧
    continue_query versatile strs regex_compile uset_iter s me eng q =
      Ok (<[me := send_request e (MkMessage (sid_of (q_pid q)) (tid_of (q_pid q)) m)]> s).
Proof.
  intros Hme Hq Hne Hplan Hsz Hpx. pose proof (plain_next n q (q_id q) SQ_PATTERN Hq) as Hq1.
  set (q1 := set_state SQ_PATTERN (set_id (q_id q) q)) in *. specialize (Hq1 ltac:(done)).
  set (ps := patterns (pattern_group q)) in *. change ps with (patterns (pattern_group q1)) in *.
  destruct (run_patterns_bgp versatile n _ q1 (pq_fresh _ _ Hq1) Hne Hplan Hsz) as (q' & rows & Hrun & Hex & Hstep & Hsol).
  destruct (execute_patterns_run e n q1 q' (pq_fresh _ _ Hq1) (pq_corun _ _ Hq1) Hrun) as [Hf Hep].
  pose proof (ex_map _ _ _ _ _ Hex) as Hm. destruct (pq_required _ _ Hq1) as [Hrne Hrk].
  destruct (known_projects (result q') n _ Hm) as (cols & Hp & Hproj); [by rewrite (fm_req _ _ Hf)..|].
  destruct (finish_plain s me e q1 q' rows cols) as (m & Hans & Hfin); try apply Hq1; try done; [apply Hex|apply Hm|].
  exists (proj cols <$> rows), m. split_and!.
  - intros vs. rewrite list_elem_of_fmap. split.
    + intros (row & -> & Hrow). destruct (row_assignment_ok (result q') n (plan_vars (patterns (pattern_group q1))) row Hm) as [Hs Ha].
      * pose proof (rr_grid _ _ (ex_rows _ _ _ _ _ Hex)) as Hg. unfold grid in Hg. rewrite Forall_forall in Hg. by apply Hg.
      * pose proof (ex_sid _ _ _ _ _ Hex) as Hg. rewrite Forall_forall in Hg. by apply Hg.
      * eexists. split; [exact Hs|]. split; [apply Hsol; [done|by exists row]|].
        rewrite (Hproj _ _ Ha). by rewrite (fm_req _ _ Hf).
    + intros (σ & Hs & Hsv & ->). apply (Hsol σ Hs) in Hsv as (row & Hrow & Ha). exists row. split; [|done].
      rewrite (Hproj _ _ Ha). by rewrite (fm_req _ _ Hf).
  - destruct Hans as [Ht Hn Hst Hpid]. by split.
  - unfold continue_query. unfold done at 1. change (pattern_step q) with (pattern_step q1).
    change (pattern_group q) with (pattern_group q1). rewrite (fr_step _ _ _ (pq_fresh _ _ Hq1)). cbn [mbind outcome_bind].
    assert (has_pattern q && negb (length (patterns (pattern_group q1)) <=? 0) = true) as ->.
    { unfold has_pattern. change (pattern_group q) with (pattern_group q1). by destruct (patterns (pattern_group q1)). }
    rewrite (proj2 (read_Ok s me e) Hme). cbn [mbind outcome_bind].
    replace (set_state SQ_PATTERN q) with q1 by (by destruct q). rewrite Hep. cbn [mbind outcome_bind].
    assert (write s me e = Ok s) as ->.
    { apply write_Ok. split; [by eapply lookup_lt_Some|]. symmetry. by apply list_insert_id. }
    cbn [mbind outcome_bind]. unfold after_patterns. unfold done. cbn [mbind outcome_bind].
    destruct (pq_group _ _ Hq1) as (Hu & Ho & _). destruct Hf as [(r & st & v & ->) _ _].
    assert (has_union q = false) as Hu' by (unfold has_union; change (pattern_group q) with (pattern_group q1); by rewrite Hu).
    assert (has_optional q = false) as Ho' by (unfold has_optional; change (pattern_group q) with (pattern_group q1); by rewrite Ho).
    unfold has_union, has_optional in *. simpl in *. rewrite Hu', Ho'. simpl. exact Hfin.
Qed.

(** the state after the request: the id is assigned, the reply sent *)
Lemma answer_plain (s : list engine) (me eng : nat) (e : engine) (n : nat) (q : SPARQLQuery) :
  s !! me = Some e → plain_query n q →
  patterns (pattern_group q) ≠ [] → plan_ok n 0 ∅ (patterns (pattern_group q)) = true →
  (Z.of_nat (length (patterns (pattern_group q))) < NO_RESULT)%Z →
  QUERY_FROM_PROXY (tid_of (q_pid q)) = true →
  ∃ sols m c, (∀ vs, vs ∈ sols ↔ ∃ σ, (∀ v, is_sid (σ v)) ∧
      solves (length (patterns (pattern_group q))) (patterns (pattern_group q)) σ ∧ vs = σ <$> required_vars (result q)) ∧
    answers q sols m ∧
    execute_sparql_query versatile strs regex_compile uset_iter s me eng q =
      Ok (<[me := send_request (set_coder c e) (MkMessage (sid_of (q_pid q)) (tid_of (q_pid q)) m)]> s).
Proof.
  intros Hme Hq Hne Hplan Hsz Hpx.
  assert (∃ id c, (if (q_id q =? -1)%Z then let '(id, c) := get_and_inc_qid (e_coder e) in (set_id id q, set_coder c e) else (q, e))
    = (set_id id q, set_coder c e)) as (id & c & Eid).
  { destruct (q_id q =? -1)%Z; [by destruct (get_and_inc_qid (e_coder e)) as [id c]; exists id, c|].
    exists (q_id q), (e_coder e). by destruct q, e. }
  assert (Hlt : me < length s) by (by eapply lookup_lt_Some).
  assert (Hq' : plain_query n (set_id id q)).
  { pose proof (plain_next n q id (state q) Hq (pq_state _ _ Hq)) as Hn. by destruct q. }
  destruct (continue_plain (<[me := set_coder c e]> s) me eng (set_coder c e) n (set_id id q)) as (sols & m & Hs & Hans & E);
    [by apply list_lookup_insert_eq|done..|].
  exists sols, m, c. split_and!.
  - exact Hs.
  - destruct Hans as [Ht Hn Hst Hpid]. by split.
  - unfold execute_sparql_query. rewrite (proj2 (read_Ok s me e) Hme). cbn [mbind outcome_bind]. rewrite Eid.
    assert (write s me (set_coder c e) = Ok (<[me := set_coder c e]> s)) as -> by (by apply write_Ok).
    cbn [mbind outcome_bind]. change (state (set_id id q)) with (state q).
    rewrite bool_decide_false by apply Hq. rewrite E. f_equal. apply list_insert_insert_eq.
Qed.

(** C4: a query of a proxy on one server, with a valid plan, is answered: handling
    the request ends without an error and produces exactly one message, to the
    server and thread of the proxy, whose rows are the solutions of the basic graph
    pattern projected to the required variables, after OFFSET and LIMIT; no other
    engine and no reply map changes. *)
Theorem query_answered (s : list engine) (me eng : nat) (e : engine) (n : nat) (q : SPARQLQuery) :
  s !! me = Some e → plain_query n q →
  patterns (pattern_group q) ≠ [] → plan_ok n 0 ∅ (patterns (pattern_group q)) = true →
  (Z.of_nat (length (patterns (pattern_group q))) < NO_RESULT)%Z →
  QUERY_FROM_PROXY (tid_of (q_pid q)) = true →
  ∃ sols m e', (∀ vs, vs ∈ sols ↔ ∃ σ, (∀ v, is_sid (σ v)) ∧
      solves (length (patterns (pattern_group q))) (patterns (pattern_group q)) σ ∧ vs = σ <$> required_vars (result q)) ∧
    answers q sols m ∧
    execute_sparql_query versatile strs regex_compile uset_iter s me eng q = Ok (<[me := e']> s) ∧
    e_rmap e' = e_rmap e ∧
    all_msgs e' ≡ₚ all_msgs e ++ [MkMessage (sid_of (q_pid q)) (tid_of (q_pid q)) m].
Proof.
  intros Hme Hq Hne Hplan Hsz Hpx. destruct (answer_plain s me eng e n q) as (sols & m & c & Hs & Hans & E); [done..|].
  exists sols, m. eexists. split_and!; [done..| |by rewrite send_request_msgs].
  unfold send_request. by destruct (net_send _ _) as [[] ?].
Qed.
End answer.

(** *** One query on the graph of one triple *)

Definition tiny_query : SPARQLQuery :=
  MkQuery (-1) 0 0 BASIC SQ_PATTERN 1 0 0 0 false 0 0 false 0 (-1) 0 false tiny_plan []
    (MkResult 0 0 0 false 2 (replicate 2 NO_RESULT) [-2; -1]%Z [] [] []).

Lemma tiny_plain : plain_query 2 tiny_query.
Proof.
  split; [by split|done..| | |done]; [|vm_compute; split; congruence].
  split; [done|]. intros v Hv. cbn [tiny_query result required_vars] in Hv.
  assert (v = -2 ∨ v = -1)%Z as [-> | ->] by set_solver; vm_compute; done.
Qed.

Lemma query_answered_witness : ∃ e' m sols,
  @execute_sparql_query false one_server tiny_graph open_network insertion_std_sort empty_strings
    (λ _ _, None) (λ _, []) [idle_engine] 0 0 tiny_query = Ok [e'] ∧
  @all_msgs open_network e' ≡ₚ [MkMessage 0 0 m] ∧ answers tiny_query sols m ∧ [131073; 131072]%Z ∈ sols.
Proof.
  destruct (@query_answered false one_server tiny_graph tiny_graph_ok open_network insertion_std_sort empty_strings
    (λ _ _, None) (λ _, []) eq_refl [idle_engine] 0 0 idle_engine 2 tiny_query) as (sols & m & e' & Hs & Ha & E & _ & Hm);
    [reflexivity|exact tiny_plain|discriminate|vm_compute; reflexivity|vm_compute; reflexivity|reflexivity|].
  exists e', m, sols. split; [exact E|]. split; [exact Hm|]. split; [exact Ha|]. apply Hs.
  exists (λ v, if (v =? -1)%Z then 131072%Z else 131073%Z). split; [|split; [|reflexivity]].
  - intros v. unfold is_sid. cbv beta. destruct (v =? -1)%Z; lia.
  - intros [|[|i]] p Hi Hp; simpl in Hi, Hp; [..|lia]; injection Hp as <-; vm_compute; left.
Defined.
