(* ===== verification/Lexer.v ===== *)
(** [core/SPARQLLexer.hpp]: the lexer of SPARQL queries. An iterator into the input is
    the suffix of the input that starts there. *)

From stdpp Require Import strings.
From Stdlib Require Import Ascii.
From S2P Require Import Prelude.
Local Open Scope nat_scope.

Inductive Token :=
| TNone | TError | TEof | TIRI | TString | TVariable | TIdentifier | TColon
| TSemicolon | TComma | TDot | TUnderscore | TLCurly | TRCurly | TLParen
| TRParen | TLBracket | TRBracket | TLArrow | TRArrow | TAnon | TEqual
| TNotEqual | TLess | TLessOrEqual | TGreater | TGreaterOrEqual | TAt
| TType | TNot | TOr | TAnd | TPlus | TMinus | TMul | TDiv | TInteger | TDecimal
| TDouble | TPercent | TPREDICATE.

#[export] Instance Token_eq_dec : EqDecision Token.
Proof. solve_decision. Defined.

Record SPARQLLexer := MkLexer {
  lx_pos : string;
  lx_start : string;    (* tokenStart *)
  lx_end : string;      (* tokenEnd, only set if delimiters are stripped *)
  lx_back : Token;      (* putBack *)
  lx_hasEnd : bool      (* hasTokenEnd *)
}.

Definition new_lexer (input : string) : SPARQLLexer := MkLexer input input input TNone false.

(** ** Characters *)

Definition ch (c : ascii) (n : nat) : bool := (nat_of_ascii c =? n).
Definition between (c : ascii) (a b : nat) : bool := (a <=? nat_of_ascii c) && (nat_of_ascii c <=? b).

Definition is_blank (c : ascii) : bool := ch c 32 || ch c 9 || ch c 10 || ch c 13 || ch c 12.
Definition is_eol (c : ascii) : bool := ch c 10 || ch c 13.
Definition is_digit (c : ascii) : bool := between c 48 57.
Definition is_letter (c : ascii) : bool := between c 65 90 || between c 97 122.
Definition is_alnum (c : ascii) : bool := is_digit c || is_letter c.

(** characters that end an IRI *)
Definition iri_stop (c : ascii) : bool :=
  ch c 60 || ch c 62 || ch c 34 || ch c 96 || ch c 123 || ch c 125 || ch c 94 || ch c 124
  || (nat_of_ascii c <=? 32).

(** ** Scanning *)

(** the blanks and comments before a token: the new [tokenStart] and where the token
    starts, the empty suffix at the end of the input *)
Fixpoint next_loop (comment : bool) (start s : string) : string * string :=
  match s with
  | EmptyString => (start, EmptyString)
  | String c s' =>
      if comment then next_loop (negb (is_eol c)) start s'
      else if is_blank c then next_loop false s s'
      else if ch c 35 then next_loop true s s'
      else (s, s)
  end.

Fixpoint skip_while (f : ascii → bool) (s : string) : string :=
  match s with String c s' => if f c then skip_while f s' else s | EmptyString => s end.

(** the end of an IRI after its [<] *)
Fixpoint iri_end (s : string) : string :=
  match s with
  | EmptyString => s
  | String c s' =>
      if ch c 92 then match s' with EmptyString => s' | String _ s'' => iri_end s'' end (* escape chars *)
      else if is_letter c then iri_end s'
      else if iri_stop c then s
      else iri_end s'
  end.

(** the end of a string after its opening quote [q] *)
Fixpoint string_end (q : nat) (s : string) : string :=
  match s with
  | EmptyString => s
  | String c s' =>
      if ch c 92 then match s' with EmptyString => s' | String _ s'' => string_end q s'' end
      else if ch c q then s
      else string_end q s'
  end.

(** [*pos == c] with [pos != input.end()] *)
Definition looking_at (n : nat) (s : string) : bool :=
  match s with String c _ => ch c n | EmptyString => false end.
Definition rest (s : string) : string := match s with String _ s' => s' | EmptyString => s end.

(** [pos += n] *)
Fixpoint advance_by (n : nat) (s : string) : string :=
  match n with O => s | S n => advance_by n (rest s) end.

(** the token whose first character is [c]; [p] is its start and [pos] what follows
    the character *)
Definition lex_token (lx : SPARQLLexer) (c : ascii) (p pos : string) : Token * SPARQLLexer :=
  let simple t := (t, MkLexer pos p (lx_end lx) TNone false) in
  let moved t pos := (t, MkLexer pos p (lx_end lx) TNone false) in
  (* one more character or an error *)
  let double n t := if looking_at n pos then moved t (rest pos) else simple TError in
  let stripped t start e pos := (t, MkLexer pos start e TNone true) in
  match nat_of_ascii c with
  | 58 => simple TColon
  | 59 => simple TSemicolon
  | 44 => simple TComma
  | 46 => simple TDot
  | 95 => (* _ *)
      if (12 <=? String.length pos) && bool_decide (String.substring 0 12 pos = "_PREDICATE__"%string)
      then moved TPREDICATE (advance_by 12 pos) else simple TUnderscore
  | 123 => simple TLCurly
  | 125 => simple TRCurly
  | 40 => simple TLParen
  | 41 => simple TRParen
  | 64 => simple TAt
  | 43 => simple TPlus
  | 45 => if looking_at 62 pos then moved TRArrow (rest pos) else simple TMinus
  | 42 => simple TMul
  | 47 => simple TDiv
  | 61 => simple TEqual
  | 37 => simple TPercent
  | 33 => if looking_at 61 pos then moved TNotEqual (rest pos) else simple TNot
  | 91 => (* [ *)
      let pos := skip_while is_blank pos in
      if looking_at 93 pos then moved TAnon (rest pos) else moved TLBracket pos
  | 93 => simple TRBracket
  | 62 => if looking_at 61 pos then moved TGreaterOrEqual (rest pos) else simple TGreater
  | 94 => double 94 TType
  | 124 => double 124 TOr
  | 38 => double 38 TAnd
  | 60 => (* < *)
      let e := iri_end pos in
      if looking_at 62 e then stripped TIRI pos e (rest e)
      else if looking_at 61 pos then (TLessOrEqual, MkLexer (rest pos) pos (lx_end lx) TNone false)
      else if looking_at 45 pos then (TLArrow, MkLexer (rest pos) pos (lx_end lx) TNone false)
      else (TLess, MkLexer pos pos (lx_end lx) TNone false)
  | 39 => let e := string_end 39 pos in stripped TString pos e (rest e)
  | 34 => let e := string_end 34 pos in stripped TString pos e (rest e)
  | 63 | 36 => let e := skip_while is_alnum pos in stripped TVariable pos e e
  | _ =>
      if is_digit c then let e := skip_while is_digit pos in stripped TInteger p e e
      else (* identifier: from the character itself *)
        let e := skip_while is_alnum p in
        if is_alnum c then (TIdentifier, MkLexer e p (lx_end lx) TNone false)
        else (TError, MkLexer p p (lx_end lx) TNone false)
  end.

(** get the next token *)
Definition getNext (lx : SPARQLLexer) : Token * SPARQLLexer :=
  if negb (bool_decide (lx_back lx = TNone)) then
    (lx_back lx, MkLexer (lx_pos lx) (lx_start lx) (lx_end lx) TNone (lx_hasEnd lx))
  else
    let '(start, p) := next_loop false (lx_start lx) (lx_pos lx) in
    match p with
    | EmptyString => (TEof, MkLexer EmptyString start (lx_end lx) TNone false)
    | String c pos => lex_token lx c p pos
    end.

(** put the last token back *)
Definition unget (lx : SPARQLLexer) (t : Token) : SPARQLLexer :=
  MkLexer (lx_pos lx) (lx_start lx) (lx_end lx) t (lx_hasEnd lx).

(** peek at the next token *)
Definition hasNext (lx : SPARQLLexer) (t : Token) : bool * SPARQLLexer :=
  let '(peek, lx) := getNext lx in (bool_decide (peek = t), unget lx peek).

(** ** Token values *)

(** the characters from a position to a later one *)
Definition span (s e : string) : string := String.substring 0 (String.length s - String.length e) s.

Definition limit_of (lx : SPARQLLexer) : string := if lx_hasEnd lx then lx_end lx else lx_pos lx.

Definition getTokenValue (lx : SPARQLLexer) : string := span (lx_start lx) (limit_of lx).

(** drop the backslashes of escapes; a trailing one is dropped too *)
Fixpoint unescape (s : string) : string :=
  match s with
  | EmptyString => EmptyString
  | String c s' =>
      if ch c 92 then match s' with EmptyString => EmptyString | String d s'' => String d (unescape s'') end
      else String c (unescape s')
  end.

Definition getIRIValue (lx : SPARQLLexer) : string := unescape (getTokenValue lx).
Definition getLiteralValue (lx : SPARQLLexer) : string := unescape (getTokenValue lx).

Definition lower (c : ascii) : ascii :=
  if between c 65 90 then ascii_of_nat (nat_of_ascii c + 32) else c.

Fixpoint keyword_loop (s keyword : string) : bool :=
  match s, keyword with
  | EmptyString, EmptyString => true
  | EmptyString, String _ _ => false
  | String _ _, EmptyString => false
  | String c s, String k keyword => if bool_decide (lower c = lower k) then keyword_loop s keyword else false
  end.

(** does the current token match a keyword? *)
Definition isKeyword (lx : SPARQLLexer) (keyword : string) : bool := keyword_loop (getTokenValue lx) keyword.
