(* ===== verification/Parser.v ===== *)
(** [core/SPARQLParser.hpp]: the recursive-descent parser of SPARQL queries.

    The parser is a state monad over the lexer and the tables of the parser. A
    [ParserException] is a value; [stoi] of a number that is too large throws an
    exception that nobody catches. The mutual recursion of the productions and their
    loops run with fuel; [ParserTotal.v] shows how much is enough. A group under
    construction is passed by reference in the code: it is the field [ps_group] of
    the state, saved and restored around nested groups. *)

From stdpp Require Import strings sorting.
From Stdlib Require Import Ascii.
From S2P Require Import Prelude Types Query Lexer.
Local Open Scope Z_scope.

(** ** The results of a parser *)

Module SP.
Inductive ElementType := Variable_ | Literal | IRI | Template | Predicate.
Inductive SubType := NoSubType | CustomLanguage | CustomType.

Record Element := MkElement {
  el_type : ElementType;
  el_subType : SubType;
  el_subTypeValue : string;
  el_value : string;
  el_id : Z                 (* unsigned *)
}.

Record Pattern := MkPattern {
  p_subject : Element; p_predicate : Element; p_object : Element; p_direction : dir_t
}.

Inductive Filter := MkFilter {
  f_type : FilterType;
  f_arg1 : option Filter; f_arg2 : option Filter; f_arg3 : option Filter;
  f_value : string;
  f_valueType : string;
  f_valueArg : Z
}.

Inductive PatternGroup := MkGroup {
  g_patterns : list Pattern;
  g_filters : list Filter;
  g_optional : list PatternGroup;
  g_unions : list PatternGroup
}.

Inductive ProjectionModifier := Modifier_None | Modifier_Distinct | Modifier_Reduced | Modifier_Count | Modifier_Duplicates.

Record Order := MkOrder { o_id : Z; o_descending : bool }.

Definition empty_group : PatternGroup := MkGroup [] [] [] [].
Definition push_pattern (g : PatternGroup) (p : Pattern) : PatternGroup :=
  MkGroup (g_patterns g ++ [p]) (g_filters g) (g_optional g) (g_unions g).
Definition push_filter (g : PatternGroup) (f : Filter) : PatternGroup :=
  MkGroup (g_patterns g) (g_filters g ++ [f]) (g_optional g) (g_unions g).
Definition push_optional (g o : PatternGroup) : PatternGroup :=
  MkGroup (g_patterns g) (g_filters g) (g_optional g ++ [o]) (g_unions g).
Definition push_union (g u : PatternGroup) : PatternGroup :=
  MkGroup (g_patterns g) (g_filters g) (g_optional g) (g_unions g ++ [u]).
Definition merge_group (g h : PatternGroup) : PatternGroup :=
  MkGroup (g_patterns g ++ g_patterns h) (g_filters g ++ g_filters h)
    (g_optional g ++ g_optional h) (g_unions g ++ g_unions h).
End SP.

(** ** The state of the parser *)

Record SPARQLParser := MkParser {
  ps_lx : SPARQLLexer;
  ps_prefixes : gmap string string;
  ps_named : gmap string Z;          (* namedVariables *)
  ps_vars : Z;                       (* variableCount *)
  ps_nvars : Z;                      (* namedVariableCount *)
  ps_modifier : SP.ProjectionModifier;
  ps_projection : list Z;
  ps_group : SP.PatternGroup;        (* patterns, or the group under construction *)
  ps_local : gmap string Z;          (* localVars of the graph pattern under construction *)
  ps_order : list SP.Order;
  ps_limit : Z;
  ps_offset : Z;
  ps_custom : bool;                  (* usingCustomGrammar *)
  ps_corun : option (Z * Z)          (* corun_enabled, with corun_step and fetch_step *)
}.

Definition new_parser (lx : SPARQLLexer) : SPARQLParser :=
  MkParser lx ∅ ∅ 0 0 SP.Modifier_None [] SP.empty_group ∅ [] (-1) 0 false None.

Definition set_lx (lx : SPARQLLexer) (s : SPARQLParser) : SPARQLParser :=
  MkParser lx (ps_prefixes s) (ps_named s) (ps_vars s) (ps_nvars s) (ps_modifier s) (ps_projection s)
    (ps_group s) (ps_local s) (ps_order s) (ps_limit s) (ps_offset s) (ps_custom s) (ps_corun s).
Definition set_prefixes (m : gmap string string) (s : SPARQLParser) : SPARQLParser :=
  MkParser (ps_lx s) m (ps_named s) (ps_vars s) (ps_nvars s) (ps_modifier s) (ps_projection s)
    (ps_group s) (ps_local s) (ps_order s) (ps_limit s) (ps_offset s) (ps_custom s) (ps_corun s).
Definition set_vars (named : gmap string Z) (vars nvars : Z) (s : SPARQLParser) : SPARQLParser :=
  MkParser (ps_lx s) (ps_prefixes s) named vars nvars (ps_modifier s) (ps_projection s)
    (ps_group s) (ps_local s) (ps_order s) (ps_limit s) (ps_offset s) (ps_custom s) (ps_corun s).
Definition set_modifier (m : SP.ProjectionModifier) (s : SPARQLParser) : SPARQLParser :=
  MkParser (ps_lx s) (ps_prefixes s) (ps_named s) (ps_vars s) (ps_nvars s) m (ps_projection s)
    (ps_group s) (ps_local s) (ps_order s) (ps_limit s) (ps_offset s) (ps_custom s) (ps_corun s).
Definition set_projection (l : list Z) (s : SPARQLParser) : SPARQLParser :=
  MkParser (ps_lx s) (ps_prefixes s) (ps_named s) (ps_vars s) (ps_nvars s) (ps_modifier s) l
    (ps_group s) (ps_local s) (ps_order s) (ps_limit s) (ps_offset s) (ps_custom s) (ps_corun s).
Definition set_pgroup (g : SP.PatternGroup) (s : SPARQLParser) : SPARQLParser :=
  MkParser (ps_lx s) (ps_prefixes s) (ps_named s) (ps_vars s) (ps_nvars s) (ps_modifier s) (ps_projection s)
    g (ps_local s) (ps_order s) (ps_limit s) (ps_offset s) (ps_custom s) (ps_corun s).
Definition set_local (m : gmap string Z) (s : SPARQLParser) : SPARQLParser :=
  MkParser (ps_lx s) (ps_prefixes s) (ps_named s) (ps_vars s) (ps_nvars s) (ps_modifier s) (ps_projection s)
    (ps_group s) m (ps_order s) (ps_limit s) (ps_offset s) (ps_custom s) (ps_corun s).
Definition set_order (l : list SP.Order) (s : SPARQLParser) : SPARQLParser :=
  MkParser (ps_lx s) (ps_prefixes s) (ps_named s) (ps_vars s) (ps_nvars s) (ps_modifier s) (ps_projection s)
    (ps_group s) (ps_local s) l (ps_limit s) (ps_offset s) (ps_custom s) (ps_corun s).
Definition set_window (limit offset : Z) (s : SPARQLParser) : SPARQLParser :=
  MkParser (ps_lx s) (ps_prefixes s) (ps_named s) (ps_vars s) (ps_nvars s) (ps_modifier s) (ps_projection s)
    (ps_group s) (ps_local s) (ps_order s) limit offset (ps_custom s) (ps_corun s).
Definition set_custom (s : SPARQLParser) : SPARQLParser :=
  MkParser (ps_lx s) (ps_prefixes s) (ps_named s) (ps_vars s) (ps_nvars s) (ps_modifier s) (ps_projection s)
    (ps_group s) (ps_local s) (ps_order s) (ps_limit s) (ps_offset s) true (ps_corun s).
Definition set_corun (c : Z * Z) (s : SPARQLParser) : SPARQLParser :=
  MkParser (ps_lx s) (ps_prefixes s) (ps_named s) (ps_vars s) (ps_nvars s) (ps_modifier s) (ps_projection s)
    (ps_group s) (ps_local s) (ps_order s) (ps_limit s) (ps_offset s) (ps_custom s) (Some c).

(** ** The monad *)

Inductive presult (A : Type) :=
| POk (a : A) (s : SPARQLParser)
| PThrow (msg : string)   (* ParserException *)
| PFail (e : error).
Arguments POk {A} a s.
Arguments PThrow {A} msg.
Arguments PFail {A} e.

Definition parser (A : Type) : Type := SPARQLParser → presult A.

#[export] Instance parser_ret : MRet parser := λ A a s, POk a s.
#[export] Instance parser_bind : MBind parser := λ A B f p s,
  match p s with POk a s => f a s | PThrow m => PThrow m | PFail e => PFail e end.

Definition throw {A} (msg : string) : parser A := λ _, PThrow msg.
Definition fail_with {A} (e : error) : parser A := λ _, PFail e.
Definition gets {A} (f : SPARQLParser → A) : parser A := λ s, POk (f s) s.
Definition modify (f : SPARQLParser → SPARQLParser) : parser unit := λ s, POk () (f s).

Definition next : parser Token := λ s,
  let '(t, lx) := getNext (ps_lx s) in POk t (set_lx lx s).
Definition back (t : Token) : parser unit := modify (λ s, set_lx (unget (ps_lx s) t) s).
Definition has (t : Token) : parser bool := λ s,
  let '(b, lx) := hasNext (ps_lx s) t in POk b (set_lx lx s).
Definition token_value : parser string := gets (λ s, getTokenValue (ps_lx s)).
Definition iri_value : parser string := gets (λ s, getIRIValue (ps_lx s)).
Definition literal_value : parser string := gets (λ s, getLiteralValue (ps_lx s)).
Definition keyword (k : string) : parser bool := gets (λ s, isKeyword (ps_lx s) k).

(** [if (lexer.getNext() != t) throw ParserException(msg)] *)
Definition expect (t : Token) (msg : string) : parser unit :=
  t' ← next; if bool_decide (t' = t) then mret () else throw msg.

(** [(token == Identifier) && lexer.isKeyword(k)] *)
Definition is_word (t : Token) (k : string) : parser bool :=
  if bool_decide (t = TIdentifier) then keyword k else mret false.

(** lookup or create a named variable *)
Definition nameVariable (name : string) : parser Z := λ s,
  match ps_named s !! name with
  | Some id => POk id s
  | None =>
      let n := u32 (ps_nvars s + 1) in
      let result := i32 n in
      POk (i32 (- result)) (set_vars (<[name := i32 (- result)]> (ps_named s)) (u32 (ps_vars s + 1)) n s)
  end.

(** [variableCount++] *)
Definition fresh_var : parser Z := λ s,
  POk (ps_vars s) (set_vars (ps_named s) (u32 (ps_vars s + 1)) (ps_nvars s) s).

(** ** Literals *)

(** the number of a digit string, [acc] being the digits before *)
Fixpoint digits (acc : Z) (s : string) : Z :=
  match s with
  | EmptyString => acc
  | String c s => digits (acc * 10 + Z.of_nat (nat_of_ascii c) - 48) s
  end.

(** [atoi]: [strtol] saturates at the largest [long], and the value is cut to [int] *)
Definition atoi (s : string) : Z := i32 (Z.min (digits 0 s) (2 ^ 63 - 1)).

(** [std::stoi] throws [std::out_of_range], which is no [ParserException] *)
Definition stoi (s : string) : parser Z :=
  let n := digits 0 s in if n <? 2 ^ 31 then mret n else fail_with Uncaught.

(** the value, its sub-type and the value of the sub-type *)
Definition parseRDFLiteral : parser (string * SP.SubType * string) :=
  expect TString "literal expected";;
  value ← literal_value;
  (* [value.find('\\') != npos]: escapes again *)
  let value := unescape value in
  token ← next;
  match token with
  | TAt =>
      expect TIdentifier "language tag expected after '@'";;
      valueType ← token_value;
      mret (value, SP.CustomLanguage, valueType)
  | TType =>
      token ← next;
      match token with
      | TIRI => valueType ← iri_value; mret (value, SP.CustomType, valueType)
      | _ => throw "type URI expeted after '^^'"
      end
  | _ => back token;; mret (value, SP.NoSubType, ""%string)
  end.

Definition subtype_val (t : SP.SubType) : Z :=
  match t with SP.NoSubType => 0 | SP.CustomLanguage => 1 | SP.CustomType => 2 end.

(** a [Filter] with its type and arguments *)
Definition node (t : FilterType) (a1 a2 a3 : option SP.Filter) : SP.Filter :=
  SP.MkFilter t a1 a2 a3 "" "" 0.
Definition literal (value valueType : string) (valueArg : Z) : SP.Filter :=
  SP.MkFilter Literal None None None value valueType valueArg.

(** ** Filter expressions *)

Section expressions.
  Context (parseExpression : parser SP.Filter) (fuel : nat).

Definition parseBrackettedExpression : parser SP.Filter :=
  expect TLParen "'(' expected";;
  result ← parseExpression;
  expect TRParen "')' expected";;
  mret result.

(** the arguments after the first one, up to the closing parenthesis *)
Fixpoint arguments (n : nat) : parser (option SP.Filter) :=
  match n with
  | O => fail_with OutOfFuel
  | S n =>
      c ← has TComma;
      if c : bool then
        next;;
        arg ← parseExpression;
        tail ← arguments n;
        mret (Some (node ArgumentList (Some arg) tail None))
      else
        expect TRParen "')' expected";;
        mret None
  end.

Definition parseArgumentList : parser SP.Filter :=
  arg ← parseExpression;
  tail ← arguments fuel;
  mret (node ArgumentList (Some arg) tail None).

Definition parseIRIrefOrFunction (mustCall : bool) : parser SP.Filter :=
  expect TIRI "IRI expected";;
  value ← iri_value;
  let result := SP.MkFilter IRI None None None value "" 0 in
  p ← has TLParen;
  if p : bool then
    next;;
    e ← has TRParen;
    if e : bool then next;; mret (node Function_ (Some result) None None)
    else args ← parseArgumentList; mret (node Function_ (Some result) (Some args) None)
  else if mustCall then throw "'(' expected" else mret result.

Definition unary_call (t : FilterType) : parser SP.Filter :=
  arg ← parseBrackettedExpression; mret (node t (Some arg) None None).

Definition binary_call (t : FilterType) : parser SP.Filter :=
  expect TLParen "'(' expected";;
  a1 ← parseExpression;
  expect TComma "',' expected";;
  a2 ← parseExpression;
  expect TRParen "')' expected";;
  mret (node t (Some a1) (Some a2) None).

Definition bound_call : parser SP.Filter :=
  expect TLParen "'(' expected";;
  expect TVariable "variable expected as argument to BOUND";;
  name ← token_value;
  id ← nameVariable name;
  expect TRParen "')' expected";;
  mret (node Builtin_bound (Some (SP.MkFilter Variable_ None None None "" "" id)) None None).

Definition regex_call : parser SP.Filter :=
  expect TLParen "'(' expected";;
  a1 ← parseExpression;
  expect TComma "',' expected";;
  a2 ← parseExpression;
  c ← has TComma;
  a3 ← (if c : bool then next;; a ← parseExpression; mret (Some a) else mret None);
  expect TRParen "')' expected";;
  mret (node Builtin_regex (Some a1) (Some a2) a3).

Definition in_call : parser SP.Filter :=
  expect TLParen "'(' expected";;
  a1 ← parseExpression;
  e ← has TRParen;
  if e : bool then next;; mret (node Builtin_in (Some a1) None None)
  else
    expect TComma "',' expected";;
    args ← parseArgumentList;
    mret (node Builtin_in (Some a1) (Some args) None).

(** the functions by their keyword *)
Definition builtin (name : string) : option (parser SP.Filter) :=
  if keyword_loop name "STR" then Some (unary_call Builtin_str)
  else if keyword_loop name "LANG" then Some (unary_call Builtin_lang)
  else if keyword_loop name "LANGMATCHES" then Some (binary_call Builtin_langmatches)
  else if keyword_loop name "DATATYPE" then Some (unary_call Builtin_datatype)
  else if keyword_loop name "BOUND" then Some bound_call
  else if keyword_loop name "sameTerm" then Some (binary_call Builtin_sameterm)
  else if keyword_loop name "isIRI" then Some (unary_call Builtin_isiri)
  else if keyword_loop name "isURI" then Some (unary_call Builtin_isiri)
  else if keyword_loop name "isBLANK" then Some (unary_call Builtin_isblank)
  else if keyword_loop name "isLITERAL" then Some (unary_call Builtin_isliteral)
  else if keyword_loop name "REGEX" then Some regex_call
  else if keyword_loop name "in" then Some in_call
  else None.

Definition parseBuiltInCall : parser SP.Filter :=
  expect TIdentifier "function name expected";;
  name ← token_value;
  match builtin name with
  | Some p => p
  | None => throw ("unknown function '" ++ name ++ "'")%string
  end.

Definition xsd (t : string) : string := ("http://www.w3.org/2001/XMLSchema#" ++ t)%string.

Definition parsePrimaryExpression : parser SP.Filter :=
  token ← next;
  match token with
  | TLParen => back token;; parseBrackettedExpression
  | TIdentifier =>
      t ← keyword "true";
      if t : bool then mret (literal "true" (xsd "boolean") (subtype_val SP.CustomType))
      else
        f ← keyword "false";
        if f : bool then mret (literal "false" (xsd "boolean") (subtype_val SP.CustomType))
        else back token;; parseBuiltInCall
  | TIRI => back token;; parseIRIrefOrFunction false
  | TString =>
      back token;;
      '(value, type, valueType) ← parseRDFLiteral;
      mret (literal value valueType (subtype_val type))
  | TInteger => v ← token_value; mret (literal v (xsd "integer") (subtype_val SP.CustomType))
  | TDecimal => v ← token_value; mret (literal v (xsd "decimal") (subtype_val SP.CustomType))
  | TDouble => v ← token_value; mret (literal v (xsd "double") (subtype_val SP.CustomType))
  | TVariable =>
      v ← token_value;
      id ← nameVariable v;
      mret (SP.MkFilter Variable_ None None None v "" id)
  | _ => throw "syntax error in primary expression"
  end.

Definition parseUnaryExpression : parser SP.Filter :=
  token ← next;
  match token with
  | TNot => a ← parsePrimaryExpression; mret (node Not (Some a) None None)
  | TPlus => a ← parsePrimaryExpression; mret (node UnaryPlus (Some a) None None)
  | TMinus => a ← parsePrimaryExpression; mret (node UnaryMinus (Some a) None None)
  | _ => back token;; parsePrimaryExpression
  end.

(** [op *]: left-associative operators over [operand]; [op] maps their tokens *)
Fixpoint operators (op : Token → option FilterType) (operand : parser SP.Filter) (n : nat)
    (result : SP.Filter) : parser SP.Filter :=
  match n with
  | O => fail_with OutOfFuel
  | S n =>
      token ← next;
      match op token with
      | Some t =>
          right ← operand;
          operators op operand n (node t (Some result) (Some right) None)
      | None => back token;; mret result
      end
  end.

Definition mul_op (t : Token) : option FilterType :=
  match t with TMul => Some Mul | TDiv => Some Div | _ => None end.
Definition add_op (t : Token) : option FilterType :=
  match t with TPlus => Some Plus | TMinus => Some Minus | _ => None end.
Definition rel_op (t : Token) : option FilterType :=
  match t with
  | TEqual => Some Equal | TNotEqual => Some NotEqual | TLess => Some Less
  | TLessOrEqual => Some LessOrEqual | TGreater => Some Greater | TGreaterOrEqual => Some GreaterOrEqual
  | _ => None
  end.

Definition parseMultiplicativeExpression : parser SP.Filter :=
  l ← parseUnaryExpression; operators mul_op parseUnaryExpression fuel l.
Definition parseAdditiveExpression : parser SP.Filter :=
  l ← parseMultiplicativeExpression; operators add_op parseMultiplicativeExpression fuel l.
Definition parseRelationalExpression : parser SP.Filter :=
  l ← parseAdditiveExpression; operators rel_op parseAdditiveExpression fuel l.

(** [while (lexer.hasNext(t))] of the logical operators *)
Fixpoint connectives (tok : Token) (t : FilterType) (operand : parser SP.Filter) (n : nat)
    (result : SP.Filter) : parser SP.Filter :=
  match n with
  | O => fail_with OutOfFuel
  | S n =>
      b ← has tok;
      if b : bool then
        next;;
        right ← operand;
        connectives tok t operand n (node t (Some result) (Some right) None)
      else mret result
  end.

Definition parseConditionalAndExpression : parser SP.Filter :=
  l ← parseRelationalExpression; connectives TAnd And parseRelationalExpression fuel l.
Definition parseConditionalOrExpression : parser SP.Filter :=
  l ← parseConditionalAndExpression; connectives TOr Or parseConditionalAndExpression fuel l.
End expressions.

Fixpoint parseExpression (fuel : nat) : parser SP.Filter :=
  match fuel with
  | O => fail_with OutOfFuel
  | S fuel => parseConditionalOrExpression (parseExpression fuel) fuel
  end.

Definition parseConstraint (fuel : nat) : parser SP.Filter :=
  p ← has TLParen;
  if p : bool then parseBrackettedExpression (parseExpression fuel)
  else
    i ← has TIdentifier;
    if i : bool then parseBuiltInCall (parseExpression fuel) fuel
    else
      r ← has TIRI;
      if r : bool then parseIRIrefOrFunction (parseExpression fuel) fuel true
      else throw "filter constraint expected".

Definition parseFilter (fuel : nat) : parser unit :=
  entry ← parseConstraint fuel;
  modify (λ s, set_pgroup (SP.push_filter (ps_group s) entry) s).

(** ** Graph patterns *)

Definition var_element (id : Z) : SP.Element := SP.MkElement SP.Variable_ SP.NoSubType "" "" (u32 id).
Definition iri_element (v : string) : SP.Element := SP.MkElement SP.IRI SP.NoSubType "" v 0.

Definition push (s p o : SP.Element) : parser unit :=
  modify (λ st, set_pgroup (SP.push_pattern (ps_group st) (SP.MkPattern s p o OUT)) st).

(** [_:name]: a variable of the graph pattern *)
Definition localVariable (name : string) : parser Z := λ s,
  match ps_local s !! name with
  | Some id => POk id s
  | None =>
      let id := ps_vars s in
      POk id (set_local (<[name := id]> (ps_local s)) (set_vars (ps_named s) (u32 (id + 1)) (ps_nvars s) s))
  end.

Definition rdf_type : string := "http://www.w3.org/1999/02/22-rdf-syntax-ns#type".

(** an entry in a pattern; a blank node in brackets adds its patterns to the group *)
Fixpoint parsePatternElement (fuel : nat) : parser SP.Element :=
  match fuel with
  | O => fail_with OutOfFuel
  | S fuel =>
      token ← next;
      match token with
      | TVariable => v ← token_value; id ← nameVariable v; mret (var_element id)
      | TString =>
          back token;;
          '(value, subType, subTypeValue) ← parseRDFLiteral;
          mret (SP.MkElement SP.Literal subType subTypeValue value 0)
      | TIRI => v ← iri_value; mret (iri_element v)
      | TAnon => id ← fresh_var; mret (var_element id)
      | TLBracket =>
          result ← parseBlankNode fuel;
          expect TRBracket "']' expected";;
          mret result
      | TUnderscore =>
          expect TColon "':' expected";;
          expect TIdentifier "identifier expected after ':'";;
          v ← token_value;
          id ← localVariable v;
          mret (var_element id)
      | TColon =>
          expect TIdentifier "identifier expected after ':'";;
          v ← token_value;
          mret (iri_element v)
      | TIdentifier =>
          prefix ← token_value;
          if bool_decide (prefix = "a"%string) then mret (iri_element rdf_type)
          else
            expect TColon ("':' expected after '" ++ prefix ++ "'");;
            m ← gets ps_prefixes;
            match m !! prefix with
            | None => throw ("unknown prefix '" ++ prefix ++ "'")%string
            | Some base =>
                expect TIdentifier "identifier expected after ':'";;
                v ← iri_value;
                mret (iri_element (base ++ v)%string)
            end
      | TPercent =>
          modify set_custom;;
          predicate ← parsePatternElement fuel;
          match SP.el_type predicate with
          | SP.IRI => mret (SP.MkElement SP.Template SP.NoSubType "" (SP.el_value predicate) 0)
          | _ => throw "IRI expected after '%'"
          end
      | TPREDICATE => modify set_custom;; mret (SP.MkElement SP.Predicate SP.NoSubType "" "" 0)
      | _ => throw "invalid pattern element"
      end
  end
(** the remaining part of the pattern of a blank node *)
with parseBlankNode (fuel : nat) : parser SP.Element :=
  match fuel with
  | O => fail_with OutOfFuel
  | S fuel =>
      id ← fresh_var;
      let subject := var_element id in
      predicate ← parsePatternElement fuel;
      object ← parsePatternElement fuel;
      push subject predicate object;;
      blankTail fuel subject predicate
  end
with blankTail (fuel : nat) (subject predicate : SP.Element) : parser SP.Element :=
  match fuel with
  | O => fail_with OutOfFuel
  | S fuel =>
      token ← next;
      match token with
      | TSemicolon =>
          predicate ← parsePatternElement fuel;
          object ← parsePatternElement fuel;
          push subject predicate object;;
          blankTail fuel subject predicate
      | TComma =>
          object ← parsePatternElement fuel;
          push subject predicate object;;
          blankTail fuel subject predicate
      | TDot => mret subject
      | TIdentifier =>
          f ← keyword "filter";
          if f : bool then parseFilter fuel;; blankTail fuel subject predicate
          else throw "'filter' expected"
      | _ => back token;; mret subject
      end
  end.

(** [pattern.direction = IN] with subject and object swapped, for the last pattern *)
Definition reverse_last (g : SP.PatternGroup) : outcome SP.PatternGroup :=
  match last (SP.g_patterns g) with
  | None => Err Undefined
  | Some p =>
      Ok (SP.MkGroup (take (length (SP.g_patterns g) - 1) (SP.g_patterns g)
                        ++ [SP.MkPattern (SP.p_object p) (SP.p_predicate p) (SP.p_subject p) IN])
            (SP.g_filters g) (SP.g_optional g) (SP.g_unions g))
  end.

Definition reverse_pattern : parser unit := λ s,
  match reverse_last (ps_group s) with
  | Ok g => POk () (set_pgroup g s)
  | Err e => PFail e
  end.

Fixpoint graphTail (fuel : nat) (subject predicate : SP.Element) : parser unit :=
  match fuel with
  | O => fail_with OutOfFuel
  | S fuel =>
      token ← next;
      match token with
      | TSemicolon =>
          predicate ← parsePatternElement fuel;
          object ← parsePatternElement fuel;
          push subject predicate object;;
          graphTail fuel subject predicate
      | TComma =>
          object ← parsePatternElement fuel;
          push subject predicate object;;
          graphTail fuel subject predicate
      | TDot => mret ()
      | TLArrow =>
          modify set_custom;;
          reverse_pattern
      | TRArrow => modify set_custom
      | TIdentifier =>
          f ← keyword "filter";
          if f : bool then parseFilter fuel;; graphTail fuel subject predicate
          else throw "'filter' expected"
      | _ => back token;; mret ()
      end
  end.

Definition parseGraphPattern (fuel : nat) : parser unit :=
  modify (set_local ∅);;
  subject ← parsePatternElement fuel;
  predicate ← parsePatternElement fuel;
  object ← parsePatternElement fuel;
  push subject predicate object;;
  graphTail fuel subject predicate.

(** the tokens that start a graph pattern *)
Definition starts_pattern (t : Token) : bool :=
  match t with
  | TIRI | TVariable | TIdentifier | TString | TUnderscore | TColon | TLBracket | TAnon | TPercent => true
  | _ => false
  end.

(** parse a nested group: a new group, and the one under construction afterwards *)
Definition nested (p : parser unit) : parser SP.PatternGroup :=
  outer ← gets ps_group;
  modify (set_pgroup SP.empty_group);;
  p;;
  g ← gets ps_group;
  modify (set_pgroup outer);;
  mret g.

(** the groups after [UNION]; returns the token that follows *)
Fixpoint unionGroups (group : parser unit) (n : nat) : parser Token :=
  match n with
  | O => fail_with OutOfFuel
  | S n =>
      expect TLCurly "'{' expected";;
      u ← nested group;
      modify (λ s, set_pgroup (SP.push_union (ps_group s) u) s);;
      token ← next;
      w ← is_word token "union";
      if w : bool then unionGroups group n else mret token
  end.

(** parse a group of patterns *)
Fixpoint parseGroupGraphPattern (fuel : nat) : parser unit :=
  match fuel with
  | O => fail_with OutOfFuel
  | S fuel =>
      token ← next;
      match token with
      | TLCurly =>
          newGroup ← nested (parseGroupGraphPattern fuel);
          token ← next;
          w ← is_word token "union";
          token ← (if w : bool then
              modify (λ s, set_pgroup (SP.push_union (ps_group s) newGroup) s);;
              unionGroups (parseGroupGraphPattern fuel) fuel
            else (* no, simply merge it *)
              modify (λ s, set_pgroup (SP.merge_group (ps_group s) newGroup) s);;
              mret token);
          (if bool_decide (token = TDot) then mret () else back token);;
          parseGroupGraphPattern fuel
      | TRCurly => mret ()
      | TDot => parseGroupGraphPattern fuel
      | _ =>
          if starts_pattern token then
            f ← is_word token "filter";
            o ← is_word token "optional";
            (if f : bool then parseFilter fuel
             else if o : bool then
               expect TLCurly "'{' expected";;
               g ← nested (parseGroupGraphPattern fuel);
               modify (λ s, set_pgroup (SP.push_optional (ps_group s) g) s)
             else back token;; parseGraphPattern fuel);;
            parseGroupGraphPattern fuel
          else throw "'}' expected"
      end
  end.

(** ** The clauses of a query *)

(** the prefix part, if any *)
Fixpoint parsePrefix (fuel : nat) : parser unit :=
  match fuel with
  | O => fail_with OutOfFuel
  | S fuel =>
      token ← next;
      w ← is_word token "prefix";
      if w : bool then
        expect TIdentifier "prefix name expected";;
        name ← token_value;
        expect TColon "':' expected";;
        expect TIRI "IRI expected";;
        iri ← iri_value;
        m ← gets ps_prefixes;
        match m !! name with
        | Some _ => throw ("duplicate prefix '" ++ name ++ "'")%string
        | None => modify (set_prefixes (<[name := iri]> m));; parsePrefix fuel
        end
      else back token
  end.

(** the corun part, if any *)
Fixpoint parseCorun (fuel : nat) : parser unit :=
  match fuel with
  | O => fail_with OutOfFuel
  | S fuel =>
      token ← next;
      w ← is_word token "corun";
      if w : bool then
        modify set_custom;;
        expect TInteger "Integer(corun step) expected";;
        v ← token_value; corun_step ← stoi v;
        expect TInteger "Integer(fetch step) expected";;
        v ← token_value; fetch_step ← stoi v;
        modify (set_corun (corun_step, fetch_step));;
        parseCorun fuel
      else back token
  end.

(** the variables of the projection *)
Fixpoint projectionClause (fuel : nat) (first : bool) : parser unit :=
  match fuel with
  | O => fail_with OutOfFuel
  | S fuel =>
      token ← next;
      match token with
      | TVariable =>
          v ← token_value;
          id ← nameVariable v;
          modify (λ s, set_projection (ps_projection s ++ [id]) s);;
          projectionClause fuel false
      | TMul => projectionClause fuel false (* filled with all named variables after parsing *)
      | _ => if first then throw "projection required after select" else back token
      end
  end.

Definition modifier_of (name : string) : option SP.ProjectionModifier :=
  if keyword_loop name "distinct" then Some SP.Modifier_Distinct
  else if keyword_loop name "reduced" then Some SP.Modifier_Reduced
  else if keyword_loop name "count" then Some SP.Modifier_Count
  else if keyword_loop name "duplicates" then Some SP.Modifier_Duplicates
  else None.

(** [(lexer.getNext() != Identifier) || !lexer.isKeyword(k)] *)
Definition expect_word (k : string) : parser unit :=
  token ← next;
  w ← is_word token k;
  if w : bool then mret () else throw ("'" ++ k ++ "' expected")%string.

Definition parseProjection (fuel : nat) : parser unit :=
  expect_word "select";;
  token ← next;
  name ← token_value;
  match token, modifier_of name with
  | TIdentifier, Some m => modify (set_modifier m)
  | _, _ => back token
  end;;
  projectionClause fuel true.

Definition parseFrom : parser unit :=
  token ← next;
  w ← is_word token "from";
  if w : bool then throw "from clause currently not implemented" else back token.

Definition parseWhere (fuel : nat) : parser unit :=
  expect_word "where";;
  expect TLCurly "'{' expected";;
  modify (set_pgroup SP.empty_group);;
  parseGroupGraphPattern fuel.

Definition push_order (id : Z) (desc : bool) : parser unit :=
  modify (λ s, set_order (ps_order s ++ [SP.MkOrder id desc]) s).

(** [asc(...)] and [desc(...)]; [~0u] stands for the count *)
Definition directedOrder (desc : bool) : parser unit :=
  expect TLParen "'(' expected";;
  token ← next;
  c ← is_word token "count";
  id ← (if c : bool then mret (-1)
        else if bool_decide (token = TVariable) then v ← token_value; nameVariable v
        else throw "variable expected in order-by clause");
  expect TRParen "')' expected";;
  push_order id desc.

Fixpoint orderClause (fuel : nat) : parser unit :=
  match fuel with
  | O => fail_with OutOfFuel
  | S fuel =>
      token ← next;
      match token with
      | TIdentifier =>
          a ← keyword "asc"; d ← keyword "desc"; c ← keyword "count";
          if (a : bool) || (d : bool) then directedOrder d;; orderClause fuel
          else if c : bool then push_order (-1) false;; orderClause fuel
          else back token
      | TVariable => v ← token_value; id ← nameVariable v; push_order id false;; orderClause fuel
      | TEof => back token
      | _ => throw "variable expected in order-by clause"
      end
  end.

Definition parseOrderBy (fuel : nat) : parser unit :=
  token ← next;
  w ← is_word token "order";
  if w : bool then expect_word "by";; orderClause fuel else back token.

Definition parseLimit : parser unit :=
  token ← next;
  w ← is_word token "limit";
  if w : bool then
    expect TInteger "number expected after 'limit'";;
    v ← token_value;
    let limit := atoi v in
    modify (λ s, set_window limit (ps_offset s) s);;
    if limit <? 0 then throw "invalid limit specifier" else mret ()
  else back token.

Definition parseOffset : parser unit :=
  token ← next;
  w ← is_word token "offset";
  if w : bool then
    expect TInteger "number expected after 'offset'";;
    v ← token_value;
    let offset := u32 (atoi v) in
    modify (λ s, set_window (ps_limit s) offset s);;
    if offset <? 0 then throw "invalid offset specifier" else mret ()
  else back token.

(** the named variables in the order of a [std::map] *)
Definition name_le (a b : string * Z) : Prop := String.leb a.1 b.1 = true.
#[export] Instance name_le_dec : RelDecision name_le.
Proof. intros a b. unfold name_le. apply _. Defined.

Definition named_in_order (m : gmap string Z) : list Z := (merge_sort name_le (map_to_list m)).*2.

(** parse the input *)
Definition parse (fuel : nat) (multiQuery : bool) : parser unit :=
  parsePrefix fuel;;
  parseCorun fuel;;
  parseProjection fuel;;
  parseFrom;;
  parseWhere fuel;;
  parseOrderBy fuel;;
  parseLimit;;
  parseOffset;;
  (if multiQuery then mret () else expect TEof "syntax error");;
  (* empty projections *)
  modify (λ s, if bool_decide (ps_projection s = []) then set_projection (named_in_order (ps_named s)) s else s).
