(* ===== verification/ParserTotal.v ===== *)
(** The parser of [core/SPARQLParser.hpp] ends on every input: each production takes
    tokens off the input, so that fuel linear in its length is enough, and a syntax
    error is a [ParserException]. *)

From stdpp Require Import strings.
From Stdlib Require Import Ascii.
From S2P Require Import Prelude Types Query Lexer Parser.
Local Open Scope nat_scope.

(** ** The lexer takes characters off the input *)

(** a token put back counts for one character; the end and an error may be repeated *)
Definition weight (t : Token) : nat := match t with TNone | TEof | TError => 0 | _ => 1 end.
Definition left_of (lx : SPARQLLexer) : nat := String.length (lx_pos lx) + weight (lx_back lx).

Lemma next_loop_length c start s : String.length (next_loop c start s).2 <= String.length s.
Proof.
  revert c start. induction s as [|a s IH]; intros c start; simpl; [done|].
  destruct c; [by etrans; [apply IH|lia]|]. destruct (is_blank a); [by etrans; [apply IH|lia]|].
  destruct (ch a 35); [by etrans; [apply IH|lia]|done].
Qed.

Lemma skip_while_length f s : String.length (skip_while f s) <= String.length s.
Proof. induction s as [|c s IH]; simpl; [done|]. destruct (f c); simpl; lia. Qed.

(** an induction that takes one or two characters off *)
Lemma string_ind2 (Q : string → Prop) :
  Q EmptyString → (∀ c, Q (String c EmptyString)) → (∀ c d s, Q s → Q (String d s) → Q (String c (String d s))) → ∀ s, Q s.
Proof.
  intros H0 H1 H2 s. enough (Q s ∧ ∀ c, Q (String c s)) by tauto.
  induction s as [|d s [IH1 IH2]]; [done|]. split; [done|]. intros c. by apply H2.
Qed.

Lemma iri_end_length s : String.length (iri_end s) <= String.length s.
Proof.
  induction s as [|c|c d s IH1 IH2] using string_ind2; [done| |].
  - cbn [iri_end]. destruct (ch c 92); [simpl; lia|]. destruct (is_letter c); [simpl; lia|]. destruct (iri_stop c); simpl; lia.
  - cbn [iri_end]. destruct (ch c 92); [simpl in *; lia|]. destruct (is_letter c); [simpl in *; lia|].
    destruct (iri_stop c); [done|simpl in *; lia].
Qed.

Lemma string_end_length q s : String.length (string_end q s) <= String.length s.
Proof.
  induction s as [|c|c d s IH1 IH2] using string_ind2; [done| |].
  - cbn [string_end]. destruct (ch c 92); [simpl; lia|]. destruct (ch c q); simpl; lia.
  - cbn [string_end]. destruct (ch c 92); [simpl in *; lia|]. destruct (ch c q); [done|simpl in *; lia].
Qed.

Lemma rest_length s : String.length (rest s) <= String.length s.
Proof. destruct s; simpl; lia. Qed.

Lemma looking_at_rest n s : looking_at n s = true → String.length (rest s) < String.length s.
Proof. destruct s; simpl; [done|lia]. Qed.

Lemma advance_by_length n s : String.length (advance_by n s) <= String.length s.
Proof. revert s. induction n as [|n IH]; intros s; simpl; [done|]. etrans; [apply IH|apply rest_length]. Qed.

Lemma lex_token_length lx c pos t lx' :
  lex_token lx c (String c pos) pos = (t, lx') →
  lx_back lx' = TNone ∧ String.length (lx_pos lx') + weight t <= S (String.length pos).
Proof.
  unfold lex_token.
  pose proof (skip_while_length is_blank pos). pose proof (rest_length pos). pose proof (rest_length (skip_while is_blank pos)).
  pose proof (iri_end_length pos). pose proof (rest_length (iri_end pos)).
  pose proof (string_end_length 39 pos). pose proof (rest_length (string_end 39 pos)).
  pose proof (string_end_length 34 pos). pose proof (rest_length (string_end 34 pos)).
  pose proof (skip_while_length is_alnum pos). pose proof (skip_while_length is_digit pos). pose proof (advance_by_length 12 pos).
  assert (is_alnum c = true → String.length (skip_while is_alnum (String c pos)) <= String.length pos).
  { intros Hc. cbn [skip_while]. rewrite Hc. done. }
  repeat match goal with
  | |- (match ?n with O => _ | S _ => _ end) = _ → _ => destruct n
  | |- (if ?b then _ else _) = _ → _ => destruct b eqn:?
  end; intros [= <- <-]; cbn [lx_back lx_pos weight]; (split; [done|]); cbn [String.length] in *; try lia.
  all: match goal with
  | |- context [is_alnum ?x] => destruct (is_alnum x); simpl in *; lia || discriminate
  | |- _ => change (String.length (advance_by 12 pos) + 1 <= S (String.length pos)); lia
  end.
Qed.

Lemma getNext_left lx t lx' : getNext lx = (t, lx') → lx_back lx' = TNone ∧ left_of lx' + weight t <= left_of lx.
Proof.
  unfold getNext, left_of. case_bool_decide as Hb; simpl.
  - rewrite Hb. pose proof (next_loop_length false (lx_start lx) (lx_pos lx)) as Hl.
    destruct (next_loop false (lx_start lx) (lx_pos lx)) as [start [|c pos]]; simpl in Hl.
    + intros [= <- <-]. simpl. split; [done|lia].
    + intros E. destruct (lex_token_length lx c pos t lx' E) as [-> Hle]. split; [done|]. simpl. lia.
  - intros [= <- <-]. simpl. split; [done|lia].
Qed.

(** ** A calculus for the productions *)

Definition todo (s : SPARQLParser) : nat := left_of (ps_lx s).
Definition npat (s : SPARQLParser) : nat := length (SP.g_patterns (ps_group s)).

(** the run of [p] from [s] ends in a result that satisfies [Q], or in an exception *)
Definition wp {A} (p : parser A) (s : SPARQLParser) (Q : A → SPARQLParser → Prop) : Prop :=
  match p s with POk a s' => Q a s' | PThrow _ => True | PFail e => e = Uncaught end.

Lemma wp_bind {A B} (p : parser A) (k : A → parser B) s Q :
  wp p s (λ a s', wp (k a) s' Q) → wp (p ≫= k) s Q.
Proof. unfold wp, mbind, parser_bind. by destruct (p s). Qed.

Lemma wp_mono {A} (p : parser A) s (Q Q' : A → SPARQLParser → Prop) :
  wp p s Q → (∀ a s', Q a s' → Q' a s') → wp p s Q'.
Proof. unfold wp. destruct (p s); naive_solver. Qed.

(** after a token has been read: it may be put back *)
Definition after (t : Token) (s s' : SPARQLParser) : Prop :=
  lx_back (ps_lx s') = TNone ∧ todo s' + weight t <= todo s ∧ npat s' = npat s.

Lemma wp_next s Q : (∀ t s', after t s s' → Q t s') → wp next s Q.
Proof.
  intros HQ. unfold wp, next. destruct (getNext (ps_lx s)) as [t lx] eqn:E.
  destruct (getNext_left _ _ _ E). by apply HQ.
Qed.

Lemma wp_back t s Q : lx_back (ps_lx s) = TNone →
  (∀ s', todo s' = todo s + weight t → npat s' = npat s → Q () s') → wp (back t) s Q.
Proof.
  intros Hb HQ. unfold wp, back, modify. apply HQ; [|done]. unfold todo, left_of. simpl. rewrite Hb. simpl. lia.
Qed.

Lemma wp_has t s Q : (∀ b s', todo s' <= todo s → npat s' = npat s → Q b s') → wp (has t) s Q.
Proof.
  intros HQ. unfold wp, has, hasNext. destruct (getNext (ps_lx s)) as [t' lx] eqn:E.
  destruct (getNext_left _ _ _ E) as [Hb Hle]. apply HQ; [|done]. unfold todo, left_of in *. simpl. rewrite Hb in Hle. simpl in Hle. lia.
Qed.

Lemma wp_expect t msg s Q : (∀ s', after t s s' → Q () s') → wp (expect t msg) s Q.
Proof.
  intros HQ. unfold expect. apply wp_bind, wp_next. intros t' s' Ha. case_bool_decide as Ht; [|done].
  subst t'. by apply HQ.
Qed.

Lemma wp_gets {A} (f : SPARQLParser → A) s Q : Q (f s) s → wp (gets f) s Q.
Proof. done. Qed.

Lemma wp_modify f s (Q : () → SPARQLParser → Prop) : Q () (f s) → wp (modify f) s Q.
Proof. done. Qed.

Lemma wp_ret {A} (a : A) s Q : Q a s → wp (mret a) s Q.
Proof. done. Qed.

(** a step that leaves the lexer and the group alone *)
Definition still (s s' : SPARQLParser) : Prop := ps_lx s' = ps_lx s ∧ ps_group s' = ps_group s.

Lemma wp_name name s Q : (∀ id s', still s s' → Q id s') → wp (nameVariable name) s Q.
Proof. intros HQ. unfold wp, nameVariable. destruct (ps_named s !! name); by apply HQ. Qed.

Lemma wp_fresh s Q : (∀ id s', still s s' → Q id s') → wp fresh_var s Q.
Proof. intros HQ. by apply HQ. Qed.

Lemma wp_local name s Q : (∀ id s', still s s' → Q id s') → wp (localVariable name) s Q.
Proof. intros HQ. unfold wp, localVariable. destruct (ps_local s !! name); by apply HQ. Qed.

Lemma wp_word t k s Q : (∀ b : bool, (b = true → t = TIdentifier) → Q b s) → wp (is_word t k) s Q.
Proof. intros HQ. unfold is_word. case_bool_decide; by apply HQ. Qed.

Lemma wp_push a b c s Q : (∀ s', todo s' = todo s → npat s' = S (npat s) → lx_back (ps_lx s') = lx_back (ps_lx s) → Q () s') →
  wp (push a b c) s Q.
Proof. intros HQ. apply wp_modify, HQ; [done| |done]. unfold npat. simpl. rewrite length_app. simpl. lia. Qed.

(** [p] takes at least [k] off the input, keeps the patterns found, and ends when
    less than [F] is left *)
Definition takes {A} (k F : nat) (p : parser A) : Prop :=
  ∀ s, todo s < F → wp p s (λ _ s', todo s' + k <= todo s ∧ npat s <= npat s').

Lemma wp_takes {A} k F (p : parser A) s Q : takes k F p → todo s < F →
  (∀ a s', todo s' + k <= todo s → npat s <= npat s' → Q a s') → wp p s Q.
Proof. intros Hp Hs HQ. eapply wp_mono; [by apply Hp|]. intros a s' [? ?]. by apply HQ. Qed.

(** ** The productions *)

(** read the facts about the states off the hypotheses *)
Ltac facts :=
  repeat match goal with
  | H : after _ _ _ |- _ => destruct H as (? & ? & ?)
  | H : still ?s ?s' |- _ =>
      let H1 := fresh in let H2 := fresh in let H3 := fresh in
      assert (H1 : todo s' = todo s) by (unfold todo; destruct H as [-> _]; reflexivity);
      assert (H2 : npat s' = npat s) by (unfold npat; destruct H as [_ ->]; reflexivity);
      assert (H3 : lx_back (ps_lx s') = lx_back (ps_lx s)) by (destruct H as [-> _]; reflexivity);
      clear H
  end.
Ltac arith := facts; cbn [weight] in *; first [lia|congruence].
Ltac pstep :=
  lazymatch goal with
  | |- wp (mbind _ _) _ _ => apply wp_bind
  | |- wp next _ _ => apply wp_next; intros ? ? ?
  | |- wp (back _) _ _ => apply wp_back; [solve [arith]|intros ? ? ?]
  | |- wp (has _) _ _ => apply wp_has; intros ? ? ? ?
  | |- wp (expect _ _) _ _ => apply wp_expect; intros ? ?
  | |- wp token_value _ _ => apply wp_gets
  | |- wp iri_value _ _ => apply wp_gets
  | |- wp literal_value _ _ => apply wp_gets
  | |- wp (keyword _) _ _ => apply wp_gets
  | |- wp (gets _) _ _ => apply wp_gets
  | |- wp (nameVariable _) _ _ => apply wp_name; intros ? ? ?
  | |- wp fresh_var _ _ => apply wp_fresh; intros ? ? ?
  | |- wp (localVariable _) _ _ => apply wp_local; intros ? ? ?
  | |- wp (is_word _ _) _ _ => apply wp_word; intros ? ?
  | |- wp (push _ _ _) _ _ => apply wp_push; intros ? ? ? ?
  | |- wp (mret _) _ _ => apply wp_ret
  | |- wp (throw _) _ _ => exact I
  | |- wp (let '(_, _) := ?x in _) _ _ => destruct x
  | |- wp (if ?b then _ else _) _ _ => destruct b
  | |- wp (match ?t with _ => _ end) _ _ => destruct t
  | |- _ ∧ _ => split
  | |- _ => solve [arith]
  end.
Ltac psteps := repeat pstep.
Ltac sub H := eapply wp_takes; [exact H|solve [arith]|intros ? ? ? ?].

Lemma literal_takes F : takes 1 F parseRDFLiteral.
Proof. intros s Hs. unfold parseRDFLiteral. psteps. Qed.

Section expressions.
  Context (F : nat) (expr : parser SP.Filter).
  Hypothesis Hexpr : takes 1 F expr.

Lemma bracketted_takes : takes 1 (S F) (parseBrackettedExpression expr).
Proof. intros s Hs. unfold parseBrackettedExpression. do 3 pstep. sub Hexpr. psteps. Qed.

Lemma arguments_takes n : n <= F → takes 0 n (arguments expr n).
Proof.
  induction n as [|n IH]; intros Hn s Hs; [lia|]. cbn [arguments]. do 3 pstep.
  - do 3 pstep. sub Hexpr. pstep. sub (IH ltac:(lia)). psteps.
  - psteps.
Qed.

Lemma argument_list_takes : takes 1 F (parseArgumentList expr F).
Proof. intros s Hs. unfold parseArgumentList. pstep. sub Hexpr. pstep. sub (arguments_takes F ltac:(lia)). psteps. Qed.

Lemma function_takes b : takes 1 (S F) (parseIRIrefOrFunction expr F b).
Proof.
  intros s Hs. unfold parseIRIrefOrFunction. do 7 pstep.
  - do 5 pstep; [psteps|]. pstep. sub argument_list_takes. psteps.
  - psteps.
Qed.

Lemma unary_takes t : takes 1 (S F) (unary_call expr t).
Proof. intros s Hs. unfold unary_call. pstep. sub bracketted_takes. psteps. Qed.

Lemma binary_takes t : takes 1 (S F) (binary_call expr t).
Proof. intros s Hs. unfold binary_call. do 3 pstep. sub Hexpr. do 3 pstep. sub Hexpr. psteps. Qed.

Lemma bound_takes : takes 1 (S F) bound_call.
Proof. intros s Hs. unfold bound_call. psteps. Qed.

Lemma regex_takes : takes 1 (S F) (regex_call expr).
Proof.
  intros s Hs. unfold regex_call. do 3 pstep. sub Hexpr. do 3 pstep. sub Hexpr. do 4 pstep.
  - do 3 pstep. sub Hexpr. psteps.
  - psteps.
Qed.

Lemma in_takes : takes 1 (S F) (in_call expr F).
Proof.
  intros s Hs. unfold in_call. do 3 pstep. sub Hexpr. do 3 pstep; [psteps|]. do 3 pstep. sub argument_list_takes. psteps.
Qed.

Lemma builtin_takes name p : builtin expr F name = Some p → takes 1 (S F) p.
Proof.
  unfold builtin. intros E.
  repeat (match type of E with (if ?b then _ else _) = _ => destruct b end;
    [injection E as <-; auto using unary_takes, binary_takes, bound_takes, regex_takes, in_takes|]).
  done.
Qed.

Lemma builtin_call_takes : takes 1 (S F) (parseBuiltInCall expr F).
Proof.
  intros s Hs. unfold parseBuiltInCall. do 4 pstep.
  destruct (builtin expr F _) as [p|] eqn:E; [|psteps]. sub (builtin_takes _ _ E). psteps.
Qed.

Lemma primary_takes : takes 1 (S F) (parsePrimaryExpression expr F).
Proof.
  intros s Hs. unfold parsePrimaryExpression. do 2 pstep. pstep; try (by psteps).
  - do 2 pstep. sub (function_takes false). psteps.
  - do 3 pstep. sub (literal_takes (S F)). psteps.
  - do 3 pstep; [psteps|]. do 3 pstep; [psteps|]. do 2 pstep. sub builtin_call_takes. psteps.
  - do 2 pstep. sub bracketted_takes. psteps.
Qed.

Lemma unary_expr_takes : takes 1 (S F) (parseUnaryExpression expr F).
Proof.
  intros s Hs. unfold parseUnaryExpression. do 2 pstep.
  pstep; first [pstep; sub primary_takes; psteps|do 2 pstep; sub primary_takes; psteps].
Qed.

Lemma operators_takes op operand n r :
  (∀ t, weight t = 0 → op t = None) → takes 1 (S F) operand → n <= F → takes 0 n (operators op operand n r).
Proof.
  intros Hop Ho. revert r. induction n as [|n IH]; intros r Hn s Hs; [lia|]. cbn [operators]. do 2 pstep.
  destruct (op _) as [ft|] eqn:E.
  - match goal with H : after ?t _ _ |- _ => destruct (decide (weight t = 0)) as [Hw|Hw]; [by rewrite Hop in E|] end.
    pstep. sub Ho. sub (IH (node ft (Some r) (Some a) None) ltac:(lia)). psteps.
  - psteps.
Qed.

Lemma mult_takes : takes 1 (S F) (parseMultiplicativeExpression expr F).
Proof.
  intros s Hs. unfold parseMultiplicativeExpression. pstep. sub unary_expr_takes.
  sub (operators_takes mul_op (parseUnaryExpression expr F) F a ltac:(by intros [] ?) unary_expr_takes ltac:(lia)). psteps.
Qed.

Lemma add_takes : takes 1 (S F) (parseAdditiveExpression expr F).
Proof.
  intros s Hs. unfold parseAdditiveExpression. pstep. sub mult_takes.
  sub (operators_takes add_op (parseMultiplicativeExpression expr F) F a ltac:(by intros [] ?) mult_takes ltac:(lia)). psteps.
Qed.

Lemma rel_takes : takes 1 (S F) (parseRelationalExpression expr F).
Proof.
  intros s Hs. unfold parseRelationalExpression. pstep. sub add_takes.
  sub (operators_takes rel_op (parseAdditiveExpression expr F) F a ltac:(by intros [] ?) add_takes ltac:(lia)). psteps.
Qed.

Lemma connectives_takes tok t operand n r : takes 1 (S F) operand → n <= F → takes 0 n (connectives tok t operand n r).
Proof.
  intros Ho. revert r. induction n as [|n IH]; intros r Hn s Hs; [lia|]. cbn [connectives]. do 3 pstep; [|psteps].
  do 3 pstep. sub Ho. sub (IH (node t (Some r) (Some a) None) ltac:(lia)). psteps.
Qed.

Lemma and_takes : takes 1 (S F) (parseConditionalAndExpression expr F).
Proof.
  intros s Hs. unfold parseConditionalAndExpression. pstep. sub rel_takes.
  sub (connectives_takes TAnd And (parseRelationalExpression expr F) F a rel_takes ltac:(lia)). psteps.
Qed.

Lemma or_takes : takes 1 (S F) (parseConditionalOrExpression expr F).
Proof.
  intros s Hs. unfold parseConditionalOrExpression. pstep. sub and_takes.
  sub (connectives_takes TOr Or (parseConditionalAndExpression expr F) F a and_takes ltac:(lia)). psteps.
Qed.
End expressions.

Lemma expression_takes F : takes 1 F (parseExpression F).
Proof. induction F as [|F IH]; [intros s Hs; lia|]. cbn [parseExpression]. by apply or_takes. Qed.

Lemma filter_takes F : takes 1 F (parseFilter F).
Proof.
  assert (Hc : takes 1 F (parseConstraint F)).
  { pose proof (expression_takes F) as He. intros s Hs. unfold parseConstraint. do 3 pstep.
    - sub (bracketted_takes F _ He). psteps.
    - do 3 pstep; [sub (builtin_call_takes F _ He); psteps|]. do 3 pstep; [sub (function_takes F _ He true); psteps|psteps]. }
  intros s Hs. unfold parseFilter. pstep. sub Hc. apply wp_modify. split; [exact H|]. unfold npat in *. simpl. exact H0.
Qed.

(** *** Patterns: three units of fuel for each unit of input, and [c] more *)

Definition takes3 {A} (k c f : nat) (p : parser A) : Prop :=
  ∀ s, 3 * todo s + c <= f → wp p s (λ _ s', todo s' + k <= todo s ∧ npat s <= npat s').

Lemma wp_takes3 {A} k c f (p : parser A) s Q : takes3 k c f p → 3 * todo s + c <= f →
  (∀ a s', todo s' + k <= todo s → npat s <= npat s' → Q a s') → wp p s Q.
Proof. intros Hp Hs HQ. eapply wp_mono; [by apply Hp|]. intros a s' [? ?]. by apply HQ. Qed.
Ltac sub3 H := eapply wp_takes3; [exact H|solve [arith]|intros ? ? ? ?].

Lemma wp_custom s Q : (∀ s', todo s' = todo s → npat s' = npat s → lx_back (ps_lx s') = lx_back (ps_lx s) → Q () s') →
  wp (modify set_custom) s Q.
Proof. intros HQ. by apply wp_modify, HQ. Qed.

Lemma element_takes f :
  takes3 1 1 f (parsePatternElement f) ∧ takes3 0 2 f (parseBlankNode f) ∧
  ∀ subj pred, takes3 0 1 f (blankTail f subj pred).
Proof.
  induction f as [|f (IHp & IHb & IHt)]; [split_and!; intros; intros s Hs; lia|]. split_and!.
  - intros s Hs. cbn [parsePatternElement]. do 2 pstep. pstep; try (by psteps).
    + do 3 pstep. sub (literal_takes f). psteps.
    + pstep. sub3 IHb. psteps.
    + pstep. apply wp_custom. intros ? ? ? ?. pstep. sub3 IHp. destruct (SP.el_type _); psteps.
    + pstep. apply wp_custom. intros ? ? ? ?. psteps.
  - intros s Hs. cbn [parseBlankNode]. do 3 pstep. sub3 IHp. pstep. sub3 IHp. do 2 pstep. sub3 (IHt (var_element id) a). psteps.
  - intros subj pred s Hs. cbn [blankTail]. do 2 pstep. pstep; try (by psteps).
    + do 3 pstep; [|psteps]. pstep. sub (filter_takes f). sub3 (IHt subj pred). psteps.
    + pstep. sub3 IHp. pstep. sub3 IHp. do 2 pstep. sub3 (IHt subj a). psteps.
    + pstep. sub3 IHp. do 2 pstep. sub3 (IHt subj pred). psteps.
Qed.

Lemma reverse_takes s Q : 0 < npat s →
  (∀ s', todo s' = todo s → npat s' = npat s → Q () s') → wp reverse_pattern s Q.
Proof.
  intros Hn HQ. unfold wp, reverse_pattern, reverse_last, npat in *. destruct (last (SP.g_patterns (ps_group s))) as [p|] eqn:E.
  - apply HQ; [done|]. simpl. rewrite length_app, length_take. simpl. lia.
  - apply last_None in E. rewrite E in Hn. simpl in Hn. lia.
Qed.

Lemma graph_tail_takes f subj pred s : 3 * todo s + 1 <= f → 0 < npat s →
  wp (graphTail f subj pred) s (λ _ s', todo s' <= todo s ∧ npat s <= npat s').
Proof.
  revert subj pred s. induction f as [|f IH]; intros subj pred s Hs Hn; [lia|]. destruct (element_takes f) as (Hp & _ & _).
  assert (Hrec : ∀ subj pred s1, 3 * todo s1 + 1 <= f → npat s <= npat s1 → todo s1 <= todo s →
    wp (graphTail f subj pred) s1 (λ _ s', todo s' <= todo s ∧ npat s <= npat s')).
  { intros subj' pred' s1 H1 H2 H3. eapply wp_mono; [apply IH; lia|]. intros ? ? [? ?]. simpl in *. lia. }
  cbn [graphTail]. do 2 pstep. pstep; try (by psteps).
  - do 3 pstep; [|psteps]. pstep. sub (filter_takes f). apply Hrec; arith.
  - pstep. sub3 Hp. pstep. sub3 Hp. do 2 pstep. apply Hrec; arith.
  - pstep. sub3 Hp. do 2 pstep. apply Hrec; arith.
  - pstep. apply wp_custom. intros ? ? ? ?. apply reverse_takes; [arith|]. intros ? ? ?. psteps.
  - apply wp_custom. intros ? ? ? ?. psteps.
Qed.

Lemma graph_takes f : takes3 1 1 f (parseGraphPattern f).
Proof.
  intros s Hs. unfold parseGraphPattern. destruct (element_takes f) as (Hp & _ & _). pstep. apply wp_modify.
  assert (todo (set_local ∅ s) = todo s ∧ npat (set_local ∅ s) = npat s) as [E1 E2] by done.
  pstep. sub3 Hp. pstep. sub3 Hp. pstep. sub3 Hp. do 2 pstep.
  eapply wp_mono; [apply graph_tail_takes; arith|]. intros ? ? [? ?]. psteps.
Qed.

(** *** Groups *)

Lemma wp_group f s Q : (∀ s', todo s' = todo s → lx_back (ps_lx s') = lx_back (ps_lx s) → Q () s') →
  wp (modify (λ s, set_pgroup (f s) s)) s Q.
Proof. intros HQ. by apply wp_modify, HQ. Qed.

(** only the input matters between groups *)
Definition eats {A} (c f : nat) (p : parser A) : Prop :=
  ∀ s, 3 * todo s + c <= f → wp p s (λ _ s', todo s' <= todo s).

Lemma nested_eats c f p : eats c f p → eats c f (nested p).
Proof.
  intros Hp s Hs. unfold nested. do 2 pstep. pstep. apply wp_modify. pstep.
  eapply wp_mono; [apply Hp; exact Hs|]. cbv beta. intros ? s' Hs'. do 2 pstep. pstep. apply wp_modify. pstep. exact Hs'.
Qed.

Lemma union_eats group c f : eats c f group → ∀ n s, 3 * todo s + c <= f → todo s < n →
  wp (unionGroups group n) s (λ t s', lx_back (ps_lx s') = TNone ∧ todo s' + weight t <= todo s).
Proof.
  intros Hg. induction n as [|n IH]; intros s Hs Hn; [lia|]. cbn [unionGroups]. do 3 pstep.
  eapply wp_mono; [apply (nested_eats c f); [done|arith]|]. cbv beta. intros u s1 ?. pstep. apply (wp_group (λ s, SP.push_union (ps_group s) u)). intros s2 ? ?.
  do 4 pstep. destruct b.
  - eapply wp_mono; [apply IH; arith|]. cbv beta. intros ? ? [? ?]. psteps.
  - psteps.
Qed.

Lemma group_eats f : eats 2 f (parseGroupGraphPattern f).
Proof.
  induction f as [|f IH]; intros s Hs; [lia|]. cbn [parseGroupGraphPattern]. do 2 pstep.
  assert (Hrec : ∀ s1, todo s1 < todo s → wp (parseGroupGraphPattern f) s1 (λ _ s', todo s' <= todo s)).
  { intros s1 ?. eapply wp_mono; [apply IH; lia|]. cbv beta. intros _ s2 ?. lia. }
  assert (Hpat : ∀ t s1, after t s s1 → starts_pattern t = true →
    wp (f0 ← is_word t "filter"; o ← is_word t "optional";
        (if f0 : bool then parseFilter f
         else if o : bool then
           expect TLCurly "'{' expected";;
           g ← nested (parseGroupGraphPattern f);
           modify (λ s, set_pgroup (SP.push_optional (ps_group s) g) s)
         else back t;; parseGraphPattern f);;
        parseGroupGraphPattern f) s1 (λ _ s', todo s' <= todo s)).
  { intros tk s1 Ha Ht. assert (weight tk = 1) by (by destruct tk). do 4 pstep. pstep. destruct b.
    - sub (filter_takes f). apply Hrec. arith.
    - destruct b0.
      + do 3 pstep. eapply wp_mono; [apply (nested_eats 2 f); [done|arith]|]. cbv beta. intros g s2 ?.
        apply (wp_group (λ s, SP.push_optional (ps_group s) g)). intros s3 ? ?. apply Hrec. arith.
      + do 2 pstep. sub3 (graph_takes f). apply Hrec. arith. }
  destruct t; try exact I; try (exact (Hpat _ _ H eq_refl)); try (by psteps).
  - apply Hrec. arith.
  - pstep. eapply wp_mono; [apply (nested_eats 2 f); [done|arith]|]. cbv beta. intros g s1 ?. do 5 pstep.
    assert (Hend : ∀ t1 s2, lx_back (ps_lx s2) = TNone → todo s2 + weight t1 <= todo s1 →
      wp ((if bool_decide (t1 = TDot) then mret () else back t1);; parseGroupGraphPattern f) s2 (λ _ s', todo s' <= todo s)).
    { intros t1 s2 ? ?. pstep. case_bool_decide; [pstep; apply Hrec; arith|pstep; apply Hrec; arith]. }
    destruct b.
    + pstep. apply (wp_group (λ s, SP.push_union (ps_group s) g)). intros s3 ? ?.
      eapply wp_mono; [apply (union_eats (parseGroupGraphPattern f) 2 f IH f s3); arith|]. cbv beta.
      intros t1 s4 [? ?]. apply Hend; arith.
    + pstep. apply (wp_group (λ s, SP.merge_group (ps_group s) g)). intros s3 ? ?. pstep. apply Hend; arith.
Qed.

(** *** Clauses *)

Definition ends {A} (f : nat) (p : parser A) : Prop :=
  ∀ s, todo s < f → wp p s (λ _ s', todo s' <= todo s).

Lemma wp_ends {A} f (p : parser A) s Q : ends f p → todo s < f →
  (∀ a s', todo s' <= todo s → Q a s') → wp p s Q.
Proof. intros Hp Hs HQ. eapply wp_mono; [by apply Hp|]. exact HQ. Qed.

(** a state change that keeps the lexer *)
Lemma wp_keep f s Q : ps_lx (f s) = ps_lx s →
  (∀ s', todo s' = todo s → lx_back (ps_lx s') = lx_back (ps_lx s) → Q () s') → wp (modify f) s Q.
Proof. intros Hf HQ. apply wp_modify, HQ; [unfold todo; by rewrite Hf|by rewrite Hf]. Qed.
Ltac keep := apply wp_keep; [reflexivity|intros ? ? ?].

Lemma wp_stoi v s Q : (∀ n, Q n s) → wp (stoi v) s Q.
Proof. intros HQ. unfold stoi. destruct (_ <? _)%Z; [by apply HQ|done]. Qed.

Lemma wp_expect_word k s Q : (∀ s', lx_back (ps_lx s') = TNone → todo s' < todo s → Q () s') → wp (expect_word k) s Q.
Proof.
  intros HQ. unfold expect_word. do 4 pstep. destruct b; [|exact I]. pstep.
  match goal with H : true = true → _ |- _ => rewrite (H eq_refl) in * end. apply HQ; arith.
Qed.

Lemma prefix_ends f : ends f (parsePrefix f).
Proof.
  induction f as [|f IH]; intros s Hs; [lia|]. cbn [parsePrefix]. do 4 pstep. destruct b; [|psteps].
  match goal with H : true = true → _ |- _ => rewrite (H eq_refl) in * end.
  do 9 pstep. do 2 pstep. pstep. destruct (_ !! _); [exact I|]. pstep. keep. eapply wp_ends; [exact IH|arith|]. intros; arith.
Qed.

Lemma corun_ends f : ends f (parseCorun f).
Proof.
  induction f as [|f IH]; intros s Hs; [lia|]. cbn [parseCorun]. do 4 pstep. destruct b; [|psteps].
  match goal with H : true = true → _ |- _ => rewrite (H eq_refl) in * end.
  pstep. keep. do 4 pstep. pstep. apply wp_stoi; intros ?. do 4 pstep. pstep. apply wp_stoi; intros ?.
  pstep. keep. eapply wp_ends; [exact IH|arith|]. intros; arith.
Qed.

Lemma projection_clause_ends f b : ends f (projectionClause f b).
Proof.
  revert b. induction f as [|f IH]; intros b s Hs; [lia|]. cbn [projectionClause]. do 2 pstep.
  pstep; try (by psteps).
  - do 4 pstep. pstep. keep. eapply wp_ends; [exact (IH false)|arith|]. intros; arith.
  - eapply wp_ends; [exact (IH false)|arith|]. intros; arith.
Qed.

Lemma parse_projection_ends f : ends f (parseProjection f).
Proof.
  intros s Hs. unfold parseProjection. pstep. apply wp_expect_word. intros s1 ? ?. do 4 pstep. pstep.
  assert (Hmod : ∀ t s2, after t s1 s2 → ∀ o, wp (match t, o with TIdentifier, Some m => modify (set_modifier m) | _, _ => back t end) s2
    (λ _ s3, todo s3 <= todo s1)).
  { intros tk s2 Ha o. destruct tk, o; try (pstep; arith). keep. arith. }
  eapply wp_mono; [by apply Hmod|]. cbv beta. intros _ s3 ?. eapply wp_ends; [apply projection_clause_ends|arith|]. intros; arith.
Qed.

Lemma directed_ends f d : ends f (directedOrder d).
Proof. intros s Hs. unfold directedOrder, push_order. psteps; keep; arith. Qed.

Lemma order_ends f : ends f (orderClause f).
Proof.
  induction f as [|f IH]; intros s Hs; [lia|]. cbn [orderClause]. do 2 pstep.
  pstep; try exact I; try (by psteps).
  - do 4 pstep. unfold push_order. pstep. keep. eapply wp_ends; [exact IH|arith|]. intros; arith.
  - do 6 pstep. destruct (_ || _).
    + pstep. eapply wp_ends; [apply (directed_ends (S f))|arith|intros ? ? ?]. eapply wp_ends; [exact IH|arith|]. intros; arith.
    + pstep; [|psteps]. unfold push_order. pstep. keep. eapply wp_ends; [exact IH|arith|]. intros; arith.
Qed.

Lemma order_by_ends f : ends f (parseOrderBy f).
Proof.
  intros s Hs. unfold parseOrderBy. do 4 pstep. destruct b; [|psteps]. pstep. apply wp_expect_word. intros s1 ? ?.
  eapply wp_ends; [apply order_ends|arith|]. intros; arith.
Qed.

Lemma limit_ends f : ends f parseLimit.
Proof.
  intros s Hs. unfold parseLimit. do 4 pstep. destruct b; [|psteps]. do 4 pstep. pstep. keep. psteps.
Qed.

Lemma offset_ends f : ends f parseOffset.
Proof.
  intros s Hs. unfold parseOffset. do 4 pstep. destruct b; [|psteps]. do 4 pstep. pstep. keep. psteps.
Qed.

Lemma parse_ends f multi s : 3 * todo s + 2 <= f → wp (parse f multi) s (λ _ _, True).
Proof.
  intros Hs. unfold parse. pstep. eapply wp_ends; [apply (prefix_ends f)|arith|intros _ s1 ?].
  pstep. eapply wp_ends; [apply (corun_ends f)|arith|intros _ s2 ?].
  pstep. eapply wp_ends; [apply (parse_projection_ends f)|arith|intros _ s3 ?].
  pstep. unfold parseFrom. do 4 pstep. destruct b; [exact I|]. pstep.
  pstep. unfold parseWhere. pstep. apply wp_expect_word. intros s4 ? ?. do 3 pstep. keep.
  eapply wp_mono; [apply (group_eats f); arith|]. cbv beta. intros _ s5 ?.
  pstep. eapply wp_ends; [apply (order_by_ends f)|arith|intros _ s6 ?].
  pstep. eapply wp_ends; [apply (limit_ends f)|arith|intros _ s7 ?].
  pstep. eapply wp_ends; [apply (offset_ends f)|arith|intros _ s8 ?].
  pstep. destruct multi; [pstep|pstep]; by apply wp_modify.
Qed.

(** the parser on an input, with fuel in proportion to its length *)
Definition parse_input (input : string) : presult unit :=
  parse (3 * String.length input + 2) false (new_parser (new_lexer input)).

(** C18: parsing ends on every input: it gives a query, a [ParserException], or, for a
    CORUN step that does not fit an [int], the exception of [stoi]; it never runs out
    of fuel and never reads a missing pattern. *)
Theorem parse_total (input : string) :
  match parse_input input with POk _ _ | PThrow _ => True | PFail e => e = Uncaught end.
Proof.
  pose proof (parse_ends (3 * String.length input + 2) false (new_parser (new_lexer input))) as Hp.
  unfold parse_input. unfold wp in Hp. apply Hp. unfold todo, left_of. simpl. lia.
Qed.
