(* ===== verification/Transfer.v ===== *)
(** [core/parser.hpp]: from the text of a query to a [SPARQLQuery] or a template.

    The parse tree of [Parser.v] is translated with the string server: a constant
    becomes its id, or [DUMMY_ID] when the string server does not know it. The lookup
    [pid2type[predicate]] inserts a zero for a new key, which no other lookup can
    tell from its absence. *)

From stdpp Require Import strings.
From Stdlib Require Import Ascii.
From S2P Require Import Prelude Types Keys Query StringServer Lexer Parser ParserTotal.
Local Open Scope Z_scope.

(** ** Reading the stream *)

Definition newline : ascii := ascii_of_nat 10.

(** [getline]: the line, whether its newline was found, and the rest of the stream *)
Fixpoint getline (s : string) : string * bool * string :=
  match s with
  | EmptyString => (EmptyString, false, EmptyString)
  | String c s' =>
      if bool_decide (c = newline) then (EmptyString, true, s')
      else let '(l, good, r) := getline s' in (String c l, good, r)
  end.

Fixpoint read_loop (fuel : nat) (result stream : string) : outcome string :=
  match fuel with
  | O => Err OutOfFuel
  | S fuel =>
      let '(s, good, stream) := getline stream in
      let result := (result ++ s)%string in
      if good : bool then read_loop fuel (result ++ String newline EmptyString)%string stream else Ok result
  end.

Definition read_input (stream : string) : outcome string :=
  read_loop (S (String.length stream)) EmptyString stream.

(** ** Translating the parse tree *)

Definition DUMMY_ID : ssid_t := - 2 ^ 31.
Definition PTYPE_PH : ssid_t := - 2 ^ 31 + 1.

Section transfer.
  Context (str_server : String_Server) (enable_vattr enable_planner use_rdma : bool).

Definition constant (str : string) : ssid_t :=
  match str2id str_server !! str with Some id => i32 id | None => DUMMY_ID end.

Definition transfer_element (e : SP.Element) : ssid_t :=
  match SP.el_type e with
  | SP.Variable_ => i32 (SP.el_id e)
  | SP.Literal => constant (String (ascii_of_nat 34) (SP.el_value e ++ String (ascii_of_nat 34) EmptyString))
  | SP.IRI => constant ("<" ++ SP.el_value e ++ ">")
  | SP.Template => PTYPE_PH
  | SP.Predicate => PREDICATE_ID
  end.

Fixpoint transfer_filter (src : SP.Filter) : Filter :=
  let arg := option_map transfer_filter in
  MkFilter (SP.f_type src) (arg (SP.f_arg1 src)) (arg (SP.f_arg2 src)) (arg (SP.f_arg3 src))
    (SP.f_value src) (SP.f_valueArg src).

Definition predicate_type (predicate : ssid_t) : outcome Z :=
  let t := default 0 (pid2type str_server !! u32 predicate) in
  ASSERT (negb ((0 <? t) && negb enable_vattr)); (* must change config to enable vertex_attr *)
  Ok t.

Definition transfer_pattern (p : SP.Pattern) (direction : dir_t) : outcome Pattern :=
  let subject := transfer_element (SP.p_subject p) in
  let predicate := transfer_element (SP.p_predicate p) in
  let object := transfer_element (SP.p_object p) in
  t ← predicate_type predicate;
  Ok (MkPattern subject predicate object direction t).

Fixpoint transfer_patterns (src : SP.PatternGroup) (dst : PatternGroup) : outcome PatternGroup :=
  ps ← foldM (λ ps p, p' ← transfer_pattern p (SP.p_direction p); Ok (ps ++ [p'])) (patterns dst) (SP.g_patterns src);
  let fs := filters dst ++ (transfer_filter <$> SP.g_filters src) in
  us ← foldM (λ us u, g ← transfer_patterns u empty_group; Ok (us ++ [g])) (unions dst) (SP.g_unions src);
  os ← foldM (λ os o, g ← transfer_patterns o empty_group; Ok (os ++ [g])) (optional dst) (SP.g_optional src);
  Ok (MkGroup (parallel dst) ps us fs os (optional_new_vars dst)).

Definition is_distinct (m : SP.ProjectionModifier) : bool :=
  match m with SP.Modifier_Distinct | SP.Modifier_Reduced => true | _ => false end.

Definition set_required_vars (l : list ssid_t) (r : Result) : Result :=
  MkResult (col_num r) (row_num r) (attr_col_num r) (blind r) (nvars r) (v2c_map r)
    l (result_table r) (attr_res_table r) (optional_matched_rows r).

(** [limit] and [offset] are [int] and [unsigned] on both sides; w/o RDMA the corun
    optimisation is skipped *)
Definition transfer (sp : SPARQLParser) (sq : SPARQLQuery) : outcome SPARQLQuery :=
  g ← transfer_patterns (ps_group sp) (pattern_group sq);
  let r := set_required_vars (required_vars (result sq) ++ ps_projection sp)
             (set_nvars (Z.to_nat (ps_vars sp)) (result sq)) in
  let orders := orders sq ++ ((λ o, MkOrder (SP.o_id o) (SP.o_descending o)) <$> ps_order sp) in
  let '(corun, cstep, fstep) :=
    match ps_corun sp with
    | Some (c, f) => (use_rdma, Z.to_nat c, Z.to_nat f)
    | None => (false, corun_step sq, fetch_step sq)
    end in
  Ok (MkQuery (q_id sq) (q_pid sq) (q_tid sq) (pg_type sq) (state sq) (mt_factor sq) (priority sq)
        (pattern_step sq) (local_var sq) corun cstep fstep (union_done sq) (optional_step sq)
        (ps_limit sp) (ps_offset sp) (distinct sq || is_distinct (ps_modifier sp)) g orders r).

(** the place holders of one pattern: their types and positions *)
Definition placeholders (pos : nat) (p : SP.Pattern) (p' : Pattern) : list (string * nat) :=
  (if subject p' =? PTYPE_PH then [(("<" ++ SP.el_value (SP.p_subject p) ++ ">")%string, pos)] else [])
  ++ (if object p' =? PTYPE_PH then [(("<" ++ SP.el_value (SP.p_object p) ++ ">")%string, (pos + 3)%nat)] else []).

(** only the patterns of the outermost group, and all of them in direction [OUT] *)
Definition transfer_template (sp : SPARQLParser) (sqt : SPARQLQuery_Template) : outcome SPARQLQuery_Template :=
  t ← foldM (λ '(t, pos) p,
        p' ← transfer_pattern p OUT;
        let g := t_group t in
        let ph := placeholders pos p p' in
        let g := MkGroup (parallel g) (patterns g ++ [p']) (unions g) (filters g) (optional g) (optional_new_vars g) in
        Ok (MkTemplate g (t_nvars t) (ptypes_str t ++ ph.*1) (ptypes_pos t ++ ph.*2) (ptypes_grp t), (pos + 4)%nat))
      (sqt, O) (SP.g_patterns (ps_group sp));
  Ok (MkTemplate (t_group t.1) (Z.to_nat (ps_vars sp)) (ptypes_str t.1) (ptypes_pos t.1) (ptypes_grp t.1)).

(** ** A query and a class of queries *)

(** [Parser::parse]: the returned flag and the query *)
Definition parse_query (stream : string) (sq : SPARQLQuery) : outcome (bool * SPARQLQuery) :=
  query ← read_input stream;
  match parse_input query with
  | PThrow _ => Ok (false, sq)
  | PFail e => Err e
  | POk _ sp =>
      sq ← transfer sp sq;
      (* custom grammar is not supported by the planner *)
      Ok (negb (ps_custom sp && enable_planner), sq)
  end.

Definition parse_template (stream : string) (sqt : SPARQLQuery_Template) : outcome (bool * SPARQLQuery_Template) :=
  query ← read_input stream;
  match parse_input query with
  | PThrow _ => Ok (false, sqt)
  | PFail e => Err e
  | POk _ sp => sqt ← transfer_template sp sqt; Ok (true, sqt)
  end.
End transfer.
