(* ===== verification/ParseText.v ===== *)
(** The text of a SPARQL query and the query that the parser makes of it.

    [select] is the abstract syntax of the queries that the benchmarks of the system
    consist of: a projection and a list of triple patterns with Wukong's directions.
    [show] writes such a query; lexer and parser read the text back to the patterns
    over the variable ids in the order of their first occurrence. *)

From stdpp Require Import strings.
From Stdlib Require Import Ascii.
From S2P Require Import Prelude Types Keys Query StringServer Lexer Parser ParserTotal Transfer.
Local Open Scope nat_scope.

(** ** Lexing printed tokens *)

Fixpoint all_of (f : ascii → bool) (s : string) : bool :=
  match s with EmptyString => true | String c s => f c && all_of f s end.

(** the text does not go on with a character of [f] *)
Definition stops (f : ascii → bool) (s : string) : Prop :=
  match s with EmptyString => True | String c _ => f c = false end.

Lemma skip_while_app f x y : all_of f x = true → stops f y → skip_while f (x ++ y) = y.
Proof.
  intros Hx Hy. induction x as [|c x IH]; simpl in *.
  - destruct y as [|c y]; simpl in *; [done|]. by rewrite Hy.
  - apply andb_true_iff in Hx as [-> Hx]. auto.
Qed.

Lemma length_append x y : String.length (x ++ y) = String.length x + String.length y.
Proof. induction x as [|c x IH]; [done|]. exact (f_equal S IH). Qed.

Lemma span_app x y : span (x ++ y) y = x.
Proof.
  unfold span. rewrite length_append, Nat.add_sub.
  induction x as [|c x IH]; simpl; [by destruct y|]. by f_equal.
Qed.

(** the lexer is about to read [str] *)
Definition fresh_at (lx : SPARQLLexer) (str : string) : Prop := lx_back lx = TNone ∧ lx_pos lx = str.
(** the lexer has just read a token of the text [v] *)
Definition lexed (lx : SPARQLLexer) (v str : string) : Prop := fresh_at lx str ∧ getTokenValue lx = v.
(** the next token is [t] *)
Definition pending (t : Token) (v str : string) (lx : SPARQLLexer) : Prop :=
  ∃ lx', getNext lx = (t, lx') ∧ lexed lx' v str.

Lemma pending_unget t v str lx : t ≠ TNone → lexed lx v str → pending t v str (unget lx t).
Proof.
  intros Ht [[Hb Hp] Hv]. unfold pending, getNext. simpl. rewrite bool_decide_false by done. simpl.
  eexists. split; [done|]. by split.
Qed.

Lemma pending_blank t v str text lx :
  (∀ lx, fresh_at lx text → pending t v str lx) → fresh_at lx (" " ++ text) → pending t v str lx.
Proof.
  intros Ht [Hb Hp]. destruct (Ht (MkLexer text (" " ++ text) (lx_end lx) TNone false)) as (lx' & E & Hl); [done|].
  exists lx'. split; [|done]. rewrite <-E. unfold getNext. simpl. by rewrite Hb, Hp.
Qed.

Lemma pending_blank_any t str text lx :
  (∀ lx, fresh_at lx text → ∃ v, pending t v str lx) → fresh_at lx (" " ++ text) → ∃ v, pending t v str lx.
Proof.
  intros Ht [Hb Hp]. destruct (Ht (MkLexer text (" " ++ text) (lx_end lx) TNone false)) as (v & lx' & E & Hl); [done|].
  exists v, lx'. split; [|done]. rewrite <-E. unfold getNext. simpl. by rewrite Hb, Hp.
Qed.

Lemma getNext_char lx c s :
  fresh_at lx (String c s) → is_blank c = false → ch c 35 = false → getNext lx = lex_token lx c (String c s) s.
Proof. intros [Hb Hp] H1 H2. unfold getNext. rewrite Hb, Hp. simpl. by rewrite H1, H2. Qed.

(** a token of one concrete first character *)
Ltac lex_char := intros; unfold pending; rewrite (getNext_char _ _ _ ltac:(eassumption)) by reflexivity;
  unfold lex_token; lazymatch goal with |- context [nat_of_ascii ?c] =>
    let n := eval vm_compute in (nat_of_ascii c) in change (nat_of_ascii c) with n end;
  cbv beta iota zeta; eexists; split; [reflexivity|].

Lemma lex_var x str lx : fresh_at lx ("?" ++ x ++ str) → all_of is_alnum x = true → stops is_alnum str → pending TVariable x str lx.
Proof.
  lex_char. rewrite skip_while_app by done. split; [by split|]. unfold getTokenValue. apply span_app.
Qed.

(** the words of the printed queries *)
Lemma lex_word w c w' str lx :
  w ∈ ["SELECT"; "DISTINCT"; "WHERE"]%string → w = String c w' → fresh_at lx (w ++ str) → stops is_alnum str →
  pending TIdentifier w str lx.
Proof.
  intros Hw -> Hf Hs.
  assert (Ha : all_of is_alnum (String c w') = true) by (repeat (apply elem_of_cons in Hw as [[= -> ->]|Hw]; [done|]); by apply elem_of_nil in Hw).
  pose proof (skip_while_app _ _ _ Ha Hs) as E. simpl in Ha. apply andb_true_iff in Ha as [Ha _].
  assert (lex_token lx c (String c w' ++ str) (w' ++ str) = (TIdentifier, MkLexer str (String c (w' ++ str)) (lx_end lx) TNone false)
    ∧ is_blank c = false ∧ ch c 35 = false) as (Et & H1 & H2).
  { unfold lex_token. rewrite E, Ha. clear -Hw. by repeat (apply elem_of_cons in Hw as [[= -> ->]|Hw]; [done|]); apply elem_of_nil in Hw. }
  unfold pending. rewrite (getNext_char lx c (w' ++ str) Hf H1 H2). change (String c (w' ++ str))%string with (String c w' ++ str)%string. rewrite Et.
  eexists. split; [done|]. split; [by split|]. apply (span_app (String c w')).
Qed.

(** characters that an IRI may consist of *)
Definition iri_char (c : ascii) : bool := negb (ch c 92) && negb (iri_stop c).

Lemma iri_end_app x str : all_of iri_char x = true → iri_end (x ++ ">" ++ str) = (">" ++ str)%string.
Proof.
  induction x as [|c x IH]; intros Hx; [done|]. simpl in Hx. apply andb_true_iff in Hx as [Hc Hx].
  unfold iri_char in Hc. apply andb_true_iff in Hc as [H1%negb_true_iff H2%negb_true_iff].
  simpl. rewrite H1, H2. rewrite IH by done. by destruct (is_letter c).
Qed.

Lemma lex_iri x str lx : fresh_at lx ("<" ++ x ++ ">" ++ str) → all_of iri_char x = true → pending TIRI x str lx.
Proof.
  intros Hf Hx. unfold pending. rewrite (getNext_char _ _ _ Hf) by reflexivity.
  unfold lex_token. change (nat_of_ascii _) with 60. cbv beta iota zeta. change (x ++ String _ str)%string with (x ++ ">" ++ str)%string.
  rewrite iri_end_app by done. cbn [looking_at String.append]. change (ch ">" 62) with true. cbv iota.
  eexists. split; [done|]. split; [by split|]. apply (span_app x).
Qed.

Lemma unescape_iri x : all_of iri_char x = true → unescape x = x.
Proof.
  induction x as [|c x IH]; intros Hx; [done|]. simpl in Hx. apply andb_true_iff in Hx as [Hc Hx].
  unfold iri_char in Hc. apply andb_true_iff in Hc as [H1%negb_true_iff _]. simpl. rewrite H1. by rewrite IH.
Qed.

Lemma lex_dot str lx : fresh_at lx ("." ++ str) → ∃ v, pending TDot v str lx.
Proof. intros. eexists. revert H. lex_char. by split. Qed.
Lemma lex_lcurly str lx : fresh_at lx ("{" ++ str) → ∃ v, pending TLCurly v str lx.
Proof. intros. eexists. revert H. lex_char. by split. Qed.
Lemma lex_rcurly str lx : fresh_at lx ("}" ++ str) → ∃ v, pending TRCurly v str lx.
Proof. intros. eexists. revert H. lex_char. by split. Qed.
Lemma lex_larrow str lx : fresh_at lx ("<- " ++ str) → ∃ v, pending TLArrow v (" " ++ str) lx.
Proof. intros. eexists. revert H. lex_char. by split. Qed.
Lemma lex_rarrow str lx : fresh_at lx ("->" ++ str) → ∃ v, pending TRArrow v str lx.
Proof. intros. eexists. revert H. lex_char. by split. Qed.
Lemma lex_predicate str lx : fresh_at lx ("__PREDICATE__" ++ str) → ∃ v, pending TPREDICATE v str lx.
Proof.
  intros H. eexists. unfold pending. rewrite (getNext_char lx "_" ("_PREDICATE__" ++ str) H) by reflexivity. unfold lex_token.
  change (nat_of_ascii _) with 95. cbv beta iota zeta.
  assert ((12 <=? String.length ("_PREDICATE__" ++ str)) = true) as -> by done.
  rewrite bool_decide_true by (by destruct str). eexists. split; [done|]. by split.
Qed.
Lemma lex_eof lx : fresh_at lx "" → ∃ v, pending TEof v "" lx.
Proof. intros [Hb Hp]. eexists. unfold pending, getNext. rewrite Hb, Hp. simpl. eexists. split; [done|]. by split. Qed.

(** ** The syntax *)

Inductive term := Var (x : string) | Iri (x : string) | Pred.
(** [.], [<-] and [->] *)
Inductive arrow := Dot | Left | Right.
Record tpat := MkT { t_subject : term; t_predicate : term; t_object : term; t_arrow : arrow }.
Record select := MkSelect { s_distinct : bool; s_vars : list string; s_where : list tpat }.

Definition show_term (t : term) (k : string) : string :=
  match t with
  | Var x => " " ++ ("?" ++ x ++ k)
  | Iri x => " " ++ ("<" ++ x ++ ">" ++ k)
  | Pred => " " ++ ("__PREDICATE__" ++ k)
  end.
Definition show_arrow (a : arrow) (k : string) : string :=
  match a with Dot => " " ++ ("." ++ k) | Left => " " ++ ("<-" ++ k) | Right => " " ++ ("->" ++ k) end.
Definition show_tpat (p : tpat) (k : string) : string :=
  show_term (t_subject p) (show_term (t_predicate p) (show_term (t_object p) (show_arrow (t_arrow p) k))).
Definition show_where (l : list tpat) : string := foldr show_tpat " }" l.
Definition show_vars (vs : list string) (k : string) : string := foldr (λ x k, show_term (Var x) k) k vs.
Definition show (q : select) : string :=
  "SELECT" ++ (if s_distinct q then " DISTINCT" else "")
    ++ show_vars (s_vars q) (" " ++ ("WHERE" ++ (" " ++ ("{" ++ show_where (s_where q))))).

(** names of letters and digits, IRIs without delimiters; the place of [__PREDICATE__]
    is not at the start of a pattern *)
Definition term_ok (t : term) : bool :=
  match t with Var x => all_of is_alnum x | Iri x => all_of iri_char x | Pred => true end.
Definition tpat_ok (p : tpat) : bool :=
  term_ok (t_subject p) && term_ok (t_predicate p) && term_ok (t_object p) &&
  match t_subject p with Pred => false | _ => true end.
Definition select_ok (q : select) : bool :=
  negb (bool_decide (s_vars q = [])) && forallb (all_of is_alnum) (s_vars q) && forallb tpat_ok (s_where q).

(** ** The numbering of the variables *)

Definition intern (env : list string) (x : string) : list string :=
  if bool_decide (x ∈ env) then env else env ++ [x].
Definition intern_term (env : list string) (t : term) : list string :=
  match t with Var x => intern env x | _ => env end.
Definition intern_pat (env : list string) (p : tpat) : list string :=
  foldl intern_term env [t_subject p; t_predicate p; t_object p].

Fixpoint position (x : string) (env : list string) : nat :=
  match env with [] => O | y :: env => if bool_decide (x = y) then O else S (position x env) end.
(** the first variable is [-1] *)
Definition var_id (env : list string) (x : string) : Z := (- (1 + Z.of_nat (position x env)))%Z.

(** the names of a query, in the order of their first occurrence *)
Definition names (q : select) : list string := foldl intern_pat (foldl intern [] (s_vars q)) (s_where q).

Definition element_of (env : list string) (t : term) : SP.Element :=
  match t with
  | Var x => var_element (var_id env x)
  | Iri x => iri_element x
  | Pred => SP.MkElement SP.Predicate SP.NoSubType "" "" 0
  end.
Definition pattern_of (env : list string) (p : tpat) : SP.Pattern :=
  let a := element_of env (t_subject p) in
  let c := element_of env (t_object p) in
  match t_arrow p with
  | Left => SP.MkPattern c (element_of env (t_predicate p)) a IN
  | _ => SP.MkPattern a (element_of env (t_predicate p)) c OUT
  end.

Lemma intern_sub env x : env `prefix_of` intern env x.
Proof. unfold intern. case_bool_decide; [done|by exists [x]]. Qed.

Lemma intern_in env x : x ∈ intern env x.
Proof. unfold intern. case_bool_decide; set_solver. Qed.

Lemma intern_term_sub env t : env `prefix_of` intern_term env t.
Proof. destruct t; simpl; [apply intern_sub|done..]. Qed.

Lemma position_prefix x env env' : x ∈ env → env `prefix_of` env' → position x env' = position x env.
Proof.
  intros Hx [l ->]. induction env as [|y env IH]; [set_solver|]. simpl. case_bool_decide; [done|].
  f_equal. apply IH. set_solver.
Qed.

Lemma position_new x env : x ∉ env → position x (env ++ [x]) = length env.
Proof.
  induction env as [|y env IH]; simpl; intros Hx; [by rewrite bool_decide_true|].
  rewrite bool_decide_false by set_solver. f_equal. apply IH. set_solver.
Qed.

Definition numbered (env : list string) : list (string * Z) := imap (λ i x, (x, (- (1 + Z.of_nat i))%Z)) env.
Definition named_of (env : list string) : gmap string Z := list_to_map (numbered env).

Lemma named_keys env : (numbered env).*1 = env.
Proof. unfold numbered. apply list_eq. intros i. rewrite list_lookup_fmap, list_lookup_imap. by destruct (env !! i). Qed.

Lemma named_new env x : x ∉ env → named_of env !! x = None.
Proof. intros Hx. apply not_elem_of_list_to_map_1. by rewrite named_keys. Qed.

Lemma named_snoc env x : x ∉ env → named_of (env ++ [x]) = <[x := var_id (env ++ [x]) x]> (named_of env).
Proof.
  intros Hx. unfold named_of, numbered. rewrite imap_app. simpl. rewrite list_to_map_snoc by (change (x ∉ (numbered env).*1); by rewrite named_keys).
  f_equal. unfold var_id. rewrite position_new by done. lia.
Qed.

Lemma named_old env x : NoDup env → x ∈ env → named_of env !! x = Some (var_id env x).
Proof.
  induction env as [|y env IH] using rev_ind; intros Hnd Hx; [set_solver|].
  apply NoDup_app in Hnd as (Hnd & Hy & _). assert (y ∉ env) by set_solver.
  rewrite named_snoc by done. destruct (decide (x = y)) as [->|Hne]; [apply lookup_insert_eq|].
  rewrite lookup_insert_ne by done. assert (x ∈ env) by set_solver. rewrite IH by done.
  unfold var_id. rewrite (position_prefix x env (env ++ [y])) by (done || by eexists). done.
Qed.

Lemma intern_nodup env x : NoDup env → NoDup (intern env x).
Proof.
  intros Hnd. unfold intern. case_bool_decide; [done|].
  apply NoDup_app. split_and!; [done|set_solver|apply NoDup_singleton].
Qed.

Lemma intern_term_nodup env t : NoDup env → NoDup (intern_term env t).
Proof. destruct t; simpl; [apply intern_nodup|done..]. Qed.

(** ** Runs of the parser *)

Definition gives {A} (p : parser A) (s : SPARQLParser) (Q : A → SPARQLParser → Prop) : Prop :=
  ∃ a s', p s = POk a s' ∧ Q a s'.

Lemma gives_bind {A B} (p : parser A) (f : A → parser B) s Q :
  gives p s (λ a s', gives (f a) s' Q) → gives (p ≫= f) s Q.
Proof.
  intros (a & s1 & E & b & s2 & E2 & HQ). exists b, s2. split; [|done].
  unfold mbind, parser_bind. by rewrite E.
Qed.

Lemma gives_ret {A} (a : A) s (Q : A → SPARQLParser → Prop) : Q a s → gives (mret a) s Q.
Proof. by exists a, s. Qed.

(** the states while a printed query is read *)
Definition st (env : list string) (m : SP.ProjectionModifier) (pr : list Z) (ps : list SP.Pattern)
    (cu : bool) (lx : SPARQLLexer) : SPARQLParser :=
  MkParser lx ∅ (named_of env) (Z.of_nat (length env)) (Z.of_nat (length env)) m pr
    (SP.MkGroup ps [] [] []) ∅ [] (-1) 0 cu None.

Section runs.
  Context (env : list string) (m : SP.ProjectionModifier) (pr : list Z) (ps : list SP.Pattern) (cu : bool).
  Local Abbreviation s := (st env m pr ps cu).

Lemma gives_next t v str lx (Q : _ → _ → Prop) :
  pending t v str lx → (∀ lx', lexed lx' v str → Q t (s lx')) → gives next (s lx) Q.
Proof. intros (lx' & E & Hl) HQ. exists t, (s lx'). split; [|by apply HQ]. unfold next. simpl. by rewrite E. Qed.

Lemma gives_back t v str lx (Q : _ → _ → Prop) :
  t ≠ TNone → lexed lx v str → (∀ lx', pending t v str lx' → Q () (s lx')) → gives (back t) (s lx) Q.
Proof. intros Ht Hl HQ. exists (), (s (unget lx t)). split; [done|]. by apply HQ, pending_unget. Qed.

Lemma gives_expect t msg v str lx (Q : _ → _ → Prop) :
  pending t v str lx → (∀ lx', lexed lx' v str → Q () (s lx')) → gives (expect t msg) (s lx) Q.
Proof.
  intros Hp HQ. apply gives_bind. eapply gives_next; [done|]. intros lx' Hl. rewrite bool_decide_true by done. by apply gives_ret, HQ.
Qed.

Lemma gives_value v str lx (Q : _ → _ → Prop) : lexed lx v str → Q v (s lx) → gives token_value (s lx) Q.
Proof. intros [_ Hv] HQ. exists v, (s lx). split; [|done]. unfold token_value, gets. simpl. by rewrite Hv. Qed.

Lemma gives_iri v str lx (Q : _ → _ → Prop) :
  lexed lx v str → all_of iri_char v = true → Q v (s lx) → gives iri_value (s lx) Q.
Proof.
  intros [_ Hv] Hi HQ. exists v, (s lx). split; [|done]. unfold iri_value, gets, getIRIValue. simpl. by rewrite Hv, unescape_iri.
Qed.

Lemma gives_word t k v str lx (Q : _ → _ → Prop) :
  lexed lx v str → Q (bool_decide (t = TIdentifier) && keyword_loop v k) (s lx) → gives (is_word t k) (s lx) Q.
Proof.
  intros [_ Hv] HQ. eexists _, (s lx). split; [|exact HQ]. unfold is_word, keyword, gets, isKeyword. simpl.
  case_bool_decide; simpl; by rewrite ?Hv.
Qed.

Lemma gives_modifier m' lx (Q : _ → _ → Prop) : Q () (st env m' pr ps cu lx) → gives (modify (set_modifier m')) (s lx) Q.
Proof. by eexists _, _. Qed.
Lemma gives_projection z lx (Q : _ → _ → Prop) : Q () (st env m (pr ++ [z]) ps cu lx) →
  gives (modify (λ s, set_projection (ps_projection s ++ [z]) s)) (s lx) Q.
Proof. by eexists _, _. Qed.
Lemma gives_push a b c lx (Q : _ → _ → Prop) : Q () (st env m pr (ps ++ [SP.MkPattern a b c OUT]) cu lx) →
  gives (push a b c) (s lx) Q.
Proof. by eexists _, _. Qed.
Lemma gives_custom lx (Q : _ → _ → Prop) : Q () (st env m pr ps true lx) → gives (modify set_custom) (s lx) Q.
Proof. by eexists _, _. Qed.
Lemma gives_local lx (Q : _ → _ → Prop) : Q () (s lx) → gives (modify (set_local ∅)) (s lx) Q.
Proof. by eexists _, _. Qed.
Lemma gives_reverse a b c ps' lx (Q : _ → _ → Prop) : ps = ps' ++ [SP.MkPattern a b c OUT] →
  Q () (st env m pr (ps' ++ [SP.MkPattern c b a IN]) cu lx) → gives reverse_pattern (s lx) Q.
Proof.
  intros -> HQ. eexists _, _. split; [|exact HQ]. unfold reverse_pattern, reverse_last. simpl.
  rewrite last_snoc, length_app, Nat.add_sub, take_app_length. done.
Qed.

Lemma gives_name x lx (Q : _ → _ → Prop) :
  NoDup env → (Z.of_nat (length (intern env x)) < 2 ^ 31)%Z →
  Q (var_id (intern env x) x) (st (intern env x) m pr ps cu lx) → gives (nameVariable x) (s lx) Q.
Proof.
  intros Hnd Hlen HQ. eexists _, _. split; [|exact HQ]. unfold nameVariable. simpl. unfold intern in *. case_bool_decide as Hx.
  - by rewrite named_old.
  - rewrite named_new by done. rewrite length_app in Hlen. simpl in Hlen.
    assert (u32 (Z.of_nat (length env) + 1) = Z.of_nat (length env) + 1)%Z as -> by (apply u32_id; lia).
    assert (i32 (Z.of_nat (length env) + 1) = Z.of_nat (length env) + 1)%Z as -> by (apply i32_id; lia).
    assert (i32 (- (Z.of_nat (length env) + 1)) = var_id (env ++ [x]) x)%Z as ->.
    { rewrite i32_id by lia. unfold var_id. rewrite position_new by done. lia. }
    unfold st, set_vars. simpl. rewrite <-named_snoc by done. do 2 f_equal; rewrite length_app; simpl; lia.
Qed.
End runs.

(** *** Elements *)

Definition tok (t : term) : Token := match t with Var _ => TVariable | Iri _ => TIRI | Pred => TPREDICATE end.
Definition is_pred (t : term) : bool := match t with Pred => true | _ => false end.
Definition term_next (t : term) (k : string) (lx : SPARQLLexer) : Prop :=
  ∃ v, pending (tok t) v k lx ∧ match t with Var x | Iri x => v = x | Pred => True end.

Definition spaced (k : string) : Prop := ∃ k', k = (" " ++ k')%string.

Lemma spaced_stops k : spaced k → stops is_alnum k.
Proof. by intros [k' ->]. Qed.

Lemma show_term_spaced t k : spaced (show_term t k).
Proof. destruct t; by eexists. Qed.
Lemma show_arrow_spaced a k : spaced (show_arrow a k).
Proof. destruct a; by eexists. Qed.
Lemma show_tpat_spaced p k : spaced (show_tpat p k).
Proof. apply show_term_spaced. Qed.
Lemma show_where_spaced l : spaced (show_where l).
Proof. destruct l; [by exists "}"%string|apply show_tpat_spaced]. Qed.
Create HintDb parse.
#[export] Hint Resolve spaced_stops show_term_spaced show_arrow_spaced show_tpat_spaced show_where_spaced : parse.

Lemma lex_term t k lx : fresh_at lx (show_term t k) → term_ok t = true → spaced k → term_next t k lx.
Proof.
  intros Hf Ht Hk. destruct t as [x|x|]; simpl in Hf, Ht.
  - exists x. split; [|done]. eapply pending_blank; [|exact Hf]. intros. apply lex_var; auto with parse.
  - exists x. split; [|done]. eapply pending_blank; [|exact Hf]. intros. by apply lex_iri.
  - destruct (pending_blank_any _ k _ lx (lex_predicate k) Hf) as [v Hv]. by exists v.
Qed.

Lemma gives_element env m pr ps cu t k f lx (Q : _ → _ → Prop) :
  term_next t k lx → term_ok t = true → NoDup env → (Z.of_nat (length (intern_term env t)) < 2 ^ 31)%Z →
  (∀ lx', fresh_at lx' k → Q (element_of (intern_term env t) t) (st (intern_term env t) m pr ps (cu || is_pred t) lx')) →
  gives (parsePatternElement (S f)) (st env m pr ps cu lx) Q.
Proof.
  intros (v & Hp & Hv) Ht Hnd Hlen HQ. cbn [parsePatternElement]. apply gives_bind. eapply gives_next; [exact Hp|].
  intros lx' Hl. destruct t as [x|x|]; simpl in *; rewrite ?orb_false_r, ?orb_true_r in HQ; subst.
  - apply gives_bind. eapply gives_value; [exact Hl|]. apply gives_bind, gives_name; [done..|]. apply gives_ret, HQ, Hl.
  - apply gives_bind. eapply gives_iri; [exact Hl|done|]. apply gives_ret, HQ, Hl.
  - apply gives_bind, gives_custom, gives_ret, HQ, Hl.
Qed.

(** *** Triple patterns *)

Definition custom_pat (p : tpat) : bool :=
  is_pred (t_predicate p) || is_pred (t_object p) || match t_arrow p with Dot => false | _ => true end.

Lemma prefix_len (l l' : list string) : l `prefix_of` l' → (Z.of_nat (length l') < 2 ^ 31)%Z → (Z.of_nat (length l) < 2 ^ 31)%Z.
Proof. intros H%prefix_length. lia. Qed.

Lemma element_prefix env env' t : intern_term env t `prefix_of` env' → element_of env' t = element_of (intern_term env t) t.
Proof.
  intros Hp. destruct t as [x|x|]; simpl in *; [|done..]. f_equal. unfold var_id.
  by rewrite (position_prefix x (intern env x)); [|apply intern_in|].
Qed.

Definition arrow_pat (ar : arrow) (a b c : SP.Element) : SP.Pattern :=
  match ar with Left => SP.MkPattern c b a IN | _ => SP.MkPattern a b c OUT end.
Definition is_dot (ar : arrow) : bool := match ar with Dot => true | _ => false end.

Lemma gives_tail env m pr ps cu ar a b c k f s p lx (Q : _ → _ → Prop) :
  fresh_at lx (show_arrow ar k) → spaced k →
  (∀ lx', fresh_at lx' k → Q () (st env m pr (ps ++ [arrow_pat ar a b c]) (cu || negb (is_dot ar)) lx')) →
  gives (graphTail (S f) s p) (st env m pr (ps ++ [SP.MkPattern a b c OUT]) cu lx) Q.
Proof.
  intros Hf Hk HQ. cbn [graphTail]. apply gives_bind. destruct ar; simpl in *; rewrite ?orb_false_r, ?orb_true_r in HQ.
  - destruct (pending_blank_any _ k _ lx (lex_dot k) Hf) as [v Hv]. eapply gives_next; [exact Hv|].
    intros lx' Hl. apply gives_ret, HQ, Hl.
  - destruct Hk as [k' ->]. destruct (pending_blank_any _ (" " ++ k') _ lx (lex_larrow k') Hf) as [v Hv].
    eapply gives_next; [exact Hv|]. intros lx' Hl. apply gives_bind, gives_custom. eapply gives_reverse; [done|]. apply HQ, Hl.
  - destruct (pending_blank_any _ k _ lx (lex_rarrow k) Hf) as [v Hv]. eapply gives_next; [exact Hv|].
    intros lx' Hl. apply gives_custom, HQ, Hl.
Qed.

Lemma gives_pattern env m pr ps cu p k f lx (Q : _ → _ → Prop) :
  let env' := intern_pat env p in
  term_next (t_subject p) (show_term (t_predicate p) (show_term (t_object p) (show_arrow (t_arrow p) k))) lx →
  tpat_ok p = true → spaced k → NoDup env → (Z.of_nat (length env') < 2 ^ 31)%Z →
  (∀ lx', fresh_at lx' k → Q () (st env' m pr (ps ++ [pattern_of env' p]) (cu || custom_pat p) lx')) →
  gives (parseGraphPattern (S f)) (st env m pr ps cu lx) Q.
Proof.
  intros env' Hn Hok Hk Hnd Hlen HQ. unfold tpat_ok in Hok. rewrite !andb_true_iff in Hok. destruct Hok as [[[Hs Hp] Ho] Hsub].
  unfold env', intern_pat in *. simpl in *. clear env'.
  pose proof (intern_term_sub env (t_subject p)) as H1. set (e1 := intern_term env (t_subject p)) in *.
  pose proof (intern_term_sub e1 (t_predicate p)) as H2. set (e2 := intern_term e1 (t_predicate p)) in *.
  pose proof (intern_term_sub e2 (t_object p)) as H3. set (e3 := intern_term e2 (t_object p)) in *.
  assert (NoDup e1) by (by apply intern_term_nodup). assert (NoDup e2) by (by apply intern_term_nodup).
  assert (e1 `prefix_of` e3) by (by etrans).
  unfold parseGraphPattern. apply gives_bind, gives_local, gives_bind.
  eapply gives_element; [exact Hn|done..|by eapply prefix_len|]. fold e1. intros lx1 Hl1. apply gives_bind.
  eapply gives_element; [apply lex_term; [exact Hl1|done|auto with parse]|done..|by eapply prefix_len|]. fold e2. intros lx2 Hl2. apply gives_bind.
  eapply gives_element; [apply lex_term; [exact Hl2|done|auto with parse]|done..|]. fold e3. intros lx3 Hl3.
  apply gives_bind, gives_push. eapply gives_tail; [exact Hl3|done|]. intros lx4 Hl4. specialize (HQ lx4 Hl4).
  assert (E : pattern_of e3 p = arrow_pat (t_arrow p) (element_of e1 (t_subject p)) (element_of e2 (t_predicate p)) (element_of e3 (t_object p))).
  { unfold pattern_of. rewrite (element_prefix env e3 (t_subject p)), (element_prefix e1 e3 (t_predicate p)) by done. by destruct (t_arrow p). }
  rewrite <-E. assert (is_pred (t_subject p) = false) as -> by (by destruct (t_subject p)).
  assert (custom_pat p = is_pred (t_predicate p) || is_pred (t_object p) || negb (is_dot (t_arrow p))) as Ec by (unfold custom_pat; by destruct (t_arrow p)).
  rewrite Ec in HQ. by rewrite orb_false_r, <-!orb_assoc, (orb_assoc (is_pred (t_predicate p))).
Qed.

(** *** The group *)

Fixpoint patterns_of (env : list string) (l : list tpat) : list SP.Pattern :=
  match l with [] => [] | p :: l => pattern_of (intern_pat env p) p :: patterns_of (intern_pat env p) l end.

Lemma intern_pat_sub env p : env `prefix_of` intern_pat env p.
Proof. unfold intern_pat. simpl. do 2 (etrans; [apply intern_term_sub|]). apply intern_term_sub. Qed.

Lemma intern_pat_nodup env p : NoDup env → NoDup (intern_pat env p).
Proof. intros Hnd. unfold intern_pat. simpl. by repeat apply intern_term_nodup. Qed.

Lemma intern_pats_sub env l : env `prefix_of` foldl intern_pat env l.
Proof. revert env. induction l as [|p l IH]; intros env; simpl; [done|]. etrans; [apply intern_pat_sub|apply IH]. Qed.

Lemma gives_group env m pr ps cu l f lx (Q : _ → _ → Prop) :
  fresh_at lx (show_where l) → forallb tpat_ok l = true → NoDup env →
  (Z.of_nat (length (foldl intern_pat env l)) < 2 ^ 31)%Z → length l + 2 <= f →
  (∀ lx', fresh_at lx' "" → Q () (st (foldl intern_pat env l) m pr (ps ++ patterns_of env l) (cu || existsb custom_pat l) lx')) →
  gives (parseGroupGraphPattern f) (st env m pr ps cu lx) Q.
Proof.
  revert env ps cu f lx. induction l as [|p l IH]; intros env ps cu f lx Hf Hok Hnd Hlen Hfu HQ; simpl in *;
    (destruct f as [|f]; [lia|]); cbn [parseGroupGraphPattern]; apply gives_bind.
  - destruct (pending_blank_any _ "" _ lx (lex_rcurly "") Hf) as [v Hv]. eapply gives_next; [exact Hv|]. intros lx' Hl.
    apply gives_ret. rewrite app_nil_r, orb_false_r in HQ. apply HQ, Hl.
  - apply andb_true_iff in Hok as [Hp Hok]. destruct f as [|f]; [lia|].
    pose proof (intern_pats_sub (intern_pat env p) l) as Hsub.
    assert (Ht : term_ok (t_subject p) = true ∧ is_pred (t_subject p) = false).
    { unfold tpat_ok in Hp. rewrite !andb_true_iff in Hp. destruct Hp as [[[? _] _] ?]. split; [done|]. by destruct (t_subject p). }
    destruct Ht as [Ht Hpr]. destruct (lex_term _ _ _ Hf Ht) as (v & Hv & Hvt); [auto with parse|].
    eapply gives_next; [exact Hv|]. intros lx1 Hl1.
    assert (Htok : starts_pattern (tok (t_subject p)) = true ∧ tok (t_subject p) ≠ TNone ∧
      ∀ (P1 P2 P3 P4 : parser ()), match tok (t_subject p) with TLCurly => P1 | TRCurly => P2 | TDot => P3 | _ => P4 end = P4 ∧
      bool_decide (tok (t_subject p) = TIdentifier) = false) by (by destruct (t_subject p)).
    destruct Htok as (Hst & Hnn & Hm). pose proof (Hm (mret ()) (mret ()) (mret ()) (mret ())) as [_ Hid].
    assert (Hm4 : ∀ P1 P2 P3 P4 : parser (), match tok (t_subject p) with TLCurly => P1 | TRCurly => P2 | TDot => P3 | _ => P4 end = P4) by (intros; apply Hm).
    rewrite Hm4, Hst. apply gives_bind. eapply gives_word; [exact Hl1|]. rewrite Hid. apply gives_bind.
    eapply gives_word; [exact Hl1|]. rewrite Hid. cbn [andb]. apply gives_bind, gives_bind.
    eapply gives_back; [done|exact Hl1|]. intros lx2 Hp2.
    eapply (gives_pattern env m pr ps cu p (show_where l)); [by exists v|done|auto with parse|done|by eapply prefix_len|].
    intros lx3 Hl3. eapply IH; [exact Hl3|done|by apply intern_pat_nodup|done|lia|].
    intros lx4 Hl4. rewrite <-app_assoc, <-orb_assoc. by apply HQ.
Qed.

(** *** The clauses *)

Definition vars_next (vs : list string) (k : string) (lx : SPARQLLexer) : Prop :=
  match vs with
  | [] => pending TIdentifier "WHERE" k lx
  | x :: vs => term_next (Var x) (show_vars vs (" " ++ ("WHERE" ++ k))) lx
  end.

Lemma lex_where k lx : spaced k → fresh_at lx (" " ++ ("WHERE" ++ k)) → pending TIdentifier "WHERE" k lx.
Proof.
  intros Hk. apply pending_blank. intros. eapply lex_word; [|done..|auto with parse]. set_solver.
Qed.

Lemma show_vars_spaced vs k : spaced k → spaced (show_vars vs k).
Proof. destruct vs; [done|]. intros _. apply (show_term_spaced (Var _)). Qed.

Lemma lex_vars vs k lx : fresh_at lx (show_vars vs (" " ++ ("WHERE" ++ k))) → forallb (all_of is_alnum) vs = true → spaced k → vars_next vs k lx.
Proof.
  intros Hf Hok Hk. destruct vs as [|x vs]; [by apply lex_where|]. simpl in Hok. apply andb_true_iff in Hok as [Hx Hok].
  apply lex_term; [exact Hf|done|]. apply show_vars_spaced. by eexists.
Qed.

Lemma intern_all_sub env vs : env `prefix_of` foldl intern env vs.
Proof. revert env. induction vs as [|x vs IH]; intros env; simpl; [done|]. etrans; [apply intern_sub|apply IH]. Qed.

Lemma intern_all_in env vs x : x ∈ vs → x ∈ foldl intern env vs.
Proof.
  revert env. induction vs as [|y vs IH]; intros env Hx; [by apply elem_of_nil in Hx|]. simpl.
  apply elem_of_cons in Hx as [->|Hx]; [|by apply IH].
  destruct (intern_all_sub (intern env y) vs) as [l ->]. apply elem_of_app. left. apply intern_in.
Qed.

Lemma intern_all_nodup env vs : NoDup env → NoDup (foldl intern env vs).
Proof. revert env. induction vs as [|x vs IH]; intros env Hnd; simpl; [done|]. by apply IH, intern_nodup. Qed.

Lemma var_id_prefix env env' x : intern env x `prefix_of` env' → var_id env' x = var_id (intern env x) x.
Proof. intros Hp. unfold var_id. by rewrite (position_prefix x (intern env x)); [|apply intern_in|]. Qed.

Lemma gives_vars env m pr ps cu vs k first f lx (Q : _ → _ → Prop) :
  let env' := foldl intern env vs in
  vars_next vs k lx → forallb (all_of is_alnum) vs = true → spaced k → NoDup env → (Z.of_nat (length env') < 2 ^ 31)%Z →
  length vs < f → (vs = [] → first = false) →
  (∀ lx', pending TIdentifier "WHERE" k lx' → Q () (st env' m (pr ++ (var_id env' <$> vs)) ps cu lx')) →
  gives (projectionClause f first) (st env m pr ps cu lx) Q.
Proof.
  revert env pr first f lx. induction vs as [|x vs IH]; intros env pr first f lx env' Hn Hok Hk Hnd Hlen Hf Hfirst HQ;
    (destruct f as [|f]; [lia|]); cbn [projectionClause]; apply gives_bind.
  - eapply gives_next; [exact Hn|]. intros lx1 Hl1. rewrite Hfirst by done. simpl in HQ. rewrite app_nil_r in HQ.
    eapply gives_back; [done|exact Hl1|]. exact HQ.
  - destruct Hn as (v & Hv & Ev). simpl in *. subst v. apply andb_true_iff in Hok as [Hx Hok]. subst env'.
    pose proof (intern_all_sub (intern env x) vs) as Hsub.
    eapply gives_next; [exact Hv|]. intros lx1 Hl1. apply gives_bind. eapply gives_value; [exact Hl1|].
    apply gives_bind, gives_name; [done|by eapply prefix_len|]. apply gives_bind, gives_projection.
    eapply IH; [apply lex_vars; [apply Hl1|done..]|done..|by apply intern_nodup|done|lia|done|].
    intros lx2 Hl2. rewrite <-app_assoc. simpl. rewrite <-(var_id_prefix env _ x Hsub). by apply HQ.
Qed.

Lemma pattern_prefix env env' p : intern_pat env p `prefix_of` env' → pattern_of env' p = pattern_of (intern_pat env p) p.
Proof.
  intros Hp. unfold intern_pat in *. cbn [foldl] in *.
  set (e1 := intern_term env (t_subject p)) in *. set (e2 := intern_term e1 (t_predicate p)) in *. set (e3 := intern_term e2 (t_object p)) in *.
  assert (H12 : e1 `prefix_of` e2) by apply intern_term_sub. assert (H23 : e2 `prefix_of` e3) by apply intern_term_sub.
  assert (E1 : ∀ e, e3 `prefix_of` e → element_of e (t_subject p) = element_of e1 (t_subject p)).
  { intros e He. apply element_prefix. by do 2 (etrans; [eassumption|]). }
  assert (E2 : ∀ e, e3 `prefix_of` e → element_of e (t_predicate p) = element_of e2 (t_predicate p)).
  { intros e He. apply element_prefix. by etrans. }
  unfold pattern_of. rewrite (E1 env'), (E1 e3), (E2 env'), (E2 e3), (element_prefix e2 env') by done. done.
Qed.

Lemma patterns_of_final env l : patterns_of env l = pattern_of (foldl intern_pat env l) <$> l.
Proof.
  revert env. induction l as [|p l IH]; intros env; [done|]. cbn [patterns_of foldl]. rewrite IH, fmap_cons. f_equal.
  symmetry. apply pattern_prefix, intern_pats_sub.
Qed.

(** *** The whole query *)

Lemma gives_select k t lx env m pr ps cu (Q : _ → _ → Prop) : keyword_loop t k = true →
  (∃ str, pending TIdentifier t str lx ∧ ∀ lx', lexed lx' t str → Q () (st env m pr ps cu lx')) → gives (expect_word k) (st env m pr ps cu lx) Q.
Proof.
  intros Hk (str & Hp & HQ). unfold expect_word. apply gives_bind. eapply gives_next; [exact Hp|]. intros lx1 Hl1.
  apply gives_bind. eapply gives_word; [exact Hl1|]. rewrite Hk. simpl. by apply gives_ret, HQ.
Qed.

(** a clause that is not there: its keyword is not the next word *)
Ltac absent Hp Hl lx' :=
  apply gives_bind; eapply gives_next; [exact Hp|]; intros ? Hl;
  apply gives_bind; eapply gives_word; [exact Hl|]; cbv beta iota;
  eapply gives_back; [done|exact Hl|]; clear Hl; intros lx' Hl.

Definition modifier (q : select) : SP.ProjectionModifier := if s_distinct q then SP.Modifier_Distinct else SP.Modifier_None.

Lemma show_where_length l : length l <= String.length (show_where l).
Proof.
  induction l as [|p l IH]; simpl; [lia|].
  assert (Ht : ∀ t k, String.length k < String.length (show_term t k)).
  { intros [x|x|] k; simpl; rewrite ?length_append; simpl; lia. }
  pose proof (Ht (t_subject p) (show_term (t_predicate p) (show_term (t_object p) (show_arrow (t_arrow p) (show_where l))))).
  pose proof (Ht (t_predicate p) (show_term (t_object p) (show_arrow (t_arrow p) (show_where l)))).
  pose proof (Ht (t_object p) (show_arrow (t_arrow p) (show_where l))).
  assert (Ha : ∀ a k, String.length k < String.length (show_arrow a k)) by (intros [] k; simpl; rewrite length_append; simpl; lia).
  pose proof (Ha (t_arrow p) (show_where l)).
  unfold show_tpat, show_where in *. lia.
Qed.

Lemma show_vars_length vs k : length vs + String.length k <= String.length (show_vars vs k).
Proof.
  induction vs as [|x vs IH]; [done|]. change (show_vars (x :: vs) k) with (show_term (Var x) (show_vars vs k)).
  cbn [show_term]. rewrite !length_append. simpl. lia.
Qed.

Definition show_body (q : select) : string := show_vars (s_vars q) (" " ++ ("WHERE" ++ (" " ++ ("{" ++ show_where (s_where q))))).

Lemma gives_parse_projection q lx f (Q : _ → _ → Prop) :
  let k := (" " ++ ("{" ++ show_where (s_where q)))%string in
  let env := foldl intern [] (s_vars q) in
  select_ok q = true → (Z.of_nat (length env) < 2 ^ 31)%Z → length (s_vars q) < f →
  pending TIdentifier "SELECT" ((if s_distinct q then " DISTINCT" else "") ++ show_body q) lx →
  (∀ lx', pending TIdentifier "WHERE" k lx' → Q () (st env (modifier q) (var_id env <$> s_vars q) [] false lx')) →
  gives (parseProjection f) (st [] SP.Modifier_None [] [] false lx) Q.
Proof.
  intros k env Hok Hlen Hf Hp HQ. unfold select_ok in Hok. rewrite !andb_true_iff in Hok. destruct Hok as [[Hne Hvs] _].
  apply negb_true_iff, bool_decide_eq_false in Hne.
  assert (Hbody : spaced (show_body q)) by (apply show_vars_spaced; by eexists).
  unfold parseProjection. apply gives_bind. eapply gives_select; [|eexists; split; [exact Hp|]]; [done|]. intros lx1 Hl1.
  apply gives_bind. unfold modifier in *. destruct (s_distinct q).
  - assert (Hd : pending TIdentifier "DISTINCT" (show_body q) lx1).
    { eapply pending_blank; [|apply Hl1]. intros. eapply lex_word; [|done..|auto with parse]. set_solver. }
    eapply gives_next; [exact Hd|]. intros lx2 Hl2. apply gives_bind. eapply gives_value; [exact Hl2|].
    apply gives_bind, gives_modifier. eapply gives_vars; [apply lex_vars; [apply Hl2|done|by eexists]|done|by eexists|constructor|done..|].
    intros lx3 Hl3. by apply HQ.
  - destruct (s_vars q) as [|x vs] eqn:Ev; [done|].
    assert (Hn : vars_next (x :: vs) k lx1).
    { apply lex_vars; [|done|by eexists]. destruct Hl1 as [Hl1 _]. unfold show_body in Hl1. rewrite Ev in Hl1. exact Hl1. }
    destruct Hn as (v & Hv & Evx). eapply gives_next; [exact Hv|]. intros lx2 Hl2. apply gives_bind. eapply gives_value; [exact Hl2|].
    apply gives_bind. eapply gives_back; [done|exact Hl2|]. intros lx3 Hl3.
    eapply (gives_vars [] _ [] [] false (x :: vs) k); [by exists v|done|by eexists|constructor|done..|].
    intros lx4 Hl4. by apply HQ.
Qed.

(** the tail of a query after its group *)
Lemma gives_end env m pr ps cu lx f : fresh_at lx "" → pr ≠ [] →
  gives (parseOrderBy f;; parseLimit;; parseOffset;; expect TEof "syntax error";;
    modify (λ s, if bool_decide (ps_projection s = []) then set_projection (named_in_order (ps_named s)) s else s))
    (st env m pr ps cu lx) (λ _ s, ∃ lx', s = st env m pr ps cu lx').
Proof.
  intros Hf Hpr. destruct (lex_eof _ Hf) as [v Hp].
  apply gives_bind. unfold parseOrderBy. absent Hp H1 lx1.
  apply gives_bind. unfold parseLimit. absent H1 H2 lx2.
  apply gives_bind. unfold parseOffset. absent H2 H3 lx3.
  apply gives_bind. eapply gives_expect; [exact H3|]. intros lx4 H4.
  eexists _, _. split; [done|]. simpl. rewrite bool_decide_false by done. by exists lx4.
Qed.

Lemma parse_show q : select_ok q = true → (Z.of_nat (length (names q)) < 2 ^ 31)%Z →
  ∃ lx, parse_input (show q) = POk () (st (names q) (modifier q) (var_id (names q) <$> s_vars q)
    (pattern_of (names q) <$> s_where q) (existsb custom_pat (s_where q)) lx).
Proof.
  intros Hok Hlen. unfold names in *. set (env := foldl intern [] (s_vars q)) in *. set (env' := foldl intern_pat env (s_where q)) in *.
  assert (Hsub : env `prefix_of` env') by apply intern_pats_sub.
  set (k := (" " ++ ("{" ++ show_where (s_where q)))%string).
  set (f := 3 * String.length (show q) + 2).
  assert (Hfuel : length (s_vars q) < f ∧ length (s_where q) + 2 <= f).
  { pose proof (show_where_length (s_where q)).
    assert (length (s_vars q) + String.length (show_where (s_where q)) <= String.length (show_body q)) as Hl.
    { unfold show_body. etrans; [|apply show_vars_length]. rewrite !length_append. lia. }
    assert (String.length (show_body q) <= String.length (show q)).
    { unfold show. rewrite !length_append. unfold show_body. lia. }
    unfold f. lia. }
  destruct Hfuel as [Hf1 Hf2].
  assert (Hf : ∃ f', f = S f') by (exists (pred f); lia). destruct Hf as [f' Ef].
  assert (Hg : gives (parse f false) (new_parser (new_lexer (show q)))
    (λ _ s, ∃ lx, s = st env' (modifier q) (var_id env' <$> s_vars q) (pattern_of env' <$> s_where q) (existsb custom_pat (s_where q)) lx)).
  2:{ destruct Hg as ([] & s & E & lx & ->). exists lx. exact E. }
  change (new_parser (new_lexer (show q))) with (st [] SP.Modifier_None [] [] false (new_lexer (show q))).
  assert (Hp : pending TIdentifier "SELECT" ((if s_distinct q then " DISTINCT" else "") ++ show_body q) (new_lexer (show q))).
  { eapply lex_word; [set_solver|done|done|]. destruct (s_distinct q); [done|]. apply spaced_stops, show_vars_spaced. by eexists. }
  assert (Hvs : (var_id env <$> s_vars q) = (var_id env' <$> s_vars q) ∧ (var_id env <$> s_vars q) ≠ []).
  { unfold select_ok in Hok. rewrite !andb_true_iff in Hok. destruct Hok as [[Hne _] _]. apply negb_true_iff, bool_decide_eq_false in Hne.
    split; [|by destruct (s_vars q)]. apply list_fmap_ext. intros i x Hx. unfold var_id. rewrite (position_prefix x env env'); [done| |done].
    apply (intern_all_in []). by eapply list_elem_of_lookup_2. }
  destruct Hvs as [Hvs Hpr].
  unfold parse. apply gives_bind. rewrite Ef. cbn [parsePrefix]. absent Hp H1 lx1.
  apply gives_bind. cbn [parseCorun]. absent H1 H2 lx2. rewrite <-Ef.
  apply gives_bind. eapply gives_parse_projection; [done|by eapply prefix_len|done|exact H2|]. fold env k. intros lx3 H3.
  apply gives_bind. unfold parseFrom. absent H3 H4 lx4.
  apply gives_bind. unfold parseWhere. apply gives_bind. eapply gives_select; [|eexists; split; [exact H4|]]; [done|]. intros lx5 H5.
  apply gives_bind. destruct (pending_blank_any _ _ _ lx5 (lex_lcurly _) (proj1 H5)) as [v Hv].
  eapply gives_expect; [exact Hv|]. intros lx6 H6.
  apply gives_bind. eexists _, _. split; [done|].
  eapply (gives_group env (modifier q) _ [] false (s_where q)); [apply H6| |by apply intern_all_nodup; constructor|done|done|].
  { unfold select_ok in Hok. rewrite !andb_true_iff in Hok. apply Hok. }
  intros lx7 H7. fold env'. rewrite patterns_of_final. fold env'. rewrite Hvs in Hpr |- *.
  apply (gives_end env' (modifier q) _ _ _ lx7 f H7 Hpr).
Qed.

(** ** From the text to the query *)

Lemma getline_app s : let '(l, good, r) := getline s in
  s = (l ++ if (good : bool) then String newline r else r)%string ∧ (good = false → r = EmptyString) ∧
  (good = true → String.length r < String.length s).
Proof.
  induction s as [|c s IH]; [done|]. cbn [getline]. case_bool_decide as Hc; [subst; simpl; split_and!; [done..|lia]|].
  destruct (getline s) as [[l good] r]. destruct IH as (-> & H1 & H2). simpl. split_and!; [done..|]. intros Hg. specialize (H2 Hg). lia.
Qed.

Lemma append_assoc (x y z : string) : ((x ++ y) ++ z = x ++ (y ++ z))%string.
Proof. induction x as [|c x IH]; [done|]. exact (f_equal (String c) IH). Qed.

Lemma append_nil (x : string) : (x ++ "" = x)%string.
Proof. induction x as [|c x IH]; [done|]. exact (f_equal (String c) IH). Qed.

Lemma read_loop_all fuel acc s : String.length s < fuel → read_loop fuel acc s = Ok (acc ++ s)%string.
Proof.
  revert acc s. induction fuel as [|fuel IH]; intros acc s Hs; [lia|]. cbn [read_loop].
  pose proof (getline_app s) as Hg. destruct (getline s) as [[l good] r]. destruct Hg as (Es & H1 & H2). destruct good.
  - rewrite IH by (specialize (H2 eq_refl); lia). by rewrite Es, !append_assoc.
  - by rewrite Es, H1, append_nil by done.
Qed.

(** reading a stream gives its text *)
Lemma read_input_all s : read_input s = Ok s.
Proof. apply (read_loop_all _ "" s). lia. Qed.

Section translate.
  Context (ss : String_Server) (vattr planner rdma : bool).

(** the id of a term in a query *)
Definition term_id (env : list string) (t : term) : ssid_t :=
  match t with Var x => var_id env x | Iri x => constant ss ("<" ++ x ++ ">") | Pred => PREDICATE_ID end.

Definition type_of (p : tpat) (env : list string) : Z := default 0%Z (pid2type ss !! u32 (term_id env (t_predicate p))).

(** where the exploration of a pattern starts, and where it leads *)
Definition source (p : tpat) : term := match t_arrow p with Left => t_object p | _ => t_subject p end.
Definition target (p : tpat) : term := match t_arrow p with Left => t_subject p | _ => t_object p end.
Definition heading (p : tpat) : dir_t := match t_arrow p with Left => IN | _ => OUT end.

Definition query_pattern (env : list string) (p : tpat) : Pattern :=
  MkPattern (term_id env (source p)) (term_id env (t_predicate p)) (term_id env (target p)) (heading p) (type_of p env).

(** the query of the text *)
Definition text_query (q : select) : SPARQLQuery :=
  MkQuery (-1) (-1) 0 BASIC SQ_PATTERN 1 0 0 0 false 0 0 false 0 (-1) 0 (s_distinct q)
    (MkGroup false (query_pattern (names q) <$> s_where q) [] [] [] ∅) []
    (MkResult 0 0 0 false (length (names q)) [] (var_id (names q) <$> s_vars q) [] [] []).

(** attributes are only supported when the configuration says so *)
Definition types_ok (q : select) : bool := vattr || forallb (λ p, type_of p (names q) <=? 0)%Z (s_where q).

Lemma transfer_element_of env t : (Z.of_nat (length env) < 2 ^ 31)%Z → (∀ x, t = Var x → x ∈ env) →
  transfer_element ss (element_of env t) = term_id env t.
Proof.
  intros Hlen Hin. destruct t as [x|x|]; [|done..]. unfold transfer_element. simpl.
  assert (position x env < length env) as Hp.
  { specialize (Hin x eq_refl). clear -Hin. induction env as [|y env IH]; [by apply elem_of_nil in Hin|]. simpl.
    case_bool_decide; [lia|]. apply elem_of_cons in Hin as [->|Hin]; [done|]. specialize (IH Hin). lia. }
  unfold var_id. rewrite <-(i32_id (- (1 + Z.of_nat (position x env)))) at 2 by lia. by rewrite i32_u32.
Qed.

Definition terms (p : tpat) : list term := [t_subject p; t_predicate p; t_object p].

Lemma names_in env l p t x : p ∈ l → t ∈ terms p → t = Var x → x ∈ foldl intern_pat env l.
Proof.
  revert env. induction l as [|p' l IH]; intros env Hp Ht ->; [by apply elem_of_nil in Hp|]. simpl.
  apply elem_of_cons in Hp as [->|Hp]; [|by eapply IH].
  destruct (intern_pats_sub (intern_pat env p') l) as [l' ->]. apply elem_of_app. left. unfold intern_pat, terms in *. clear IH.
  generalize dependent env. induction [t_subject p'; t_predicate p'; t_object p'] as [|t ts IHt]; intros env; [by apply elem_of_nil in Ht|].
  simpl. apply elem_of_cons in Ht as [<-|Ht]; [|by apply IHt].
  assert (Hpre : ∀ e, e `prefix_of` foldl intern_term e ts).
  { clear. induction ts as [|t ts IH]; intros e; simpl; [done|]. etrans; [apply intern_term_sub|apply IH]. }
  destruct (Hpre (intern_term env (Var x))) as [l2 ->]. apply elem_of_app. left. apply intern_in.
Qed.

Lemma transfer_pattern_of env p :
  (Z.of_nat (length env) < 2 ^ 31)%Z → (∀ t x, t ∈ terms p → t = Var x → x ∈ env) → (vattr || (type_of p env <=? 0)%Z) = true →
  transfer_pattern ss vattr (pattern_of env p) (SP.p_direction (pattern_of env p)) = Ok (query_pattern env p).
Proof.
  intros Hlen Hin Hty. unfold terms in Hin.
  pose proof (transfer_element_of env (t_subject p) Hlen ltac:(intros x; apply Hin; set_solver)) as E1.
  pose proof (transfer_element_of env (t_predicate p) Hlen ltac:(intros x; apply Hin; set_solver)) as E2.
  pose proof (transfer_element_of env (t_object p) Hlen ltac:(intros x; apply Hin; set_solver)) as E3.
  assert (Hpt : predicate_type ss vattr (term_id env (t_predicate p)) = Ok (type_of p env)).
  { unfold predicate_type. fold (type_of p env). destruct vattr; simpl in *; [by rewrite andb_false_r|].
    by rewrite (proj2 (Z.ltb_ge _ _)) by (by apply Z.leb_le). }
  unfold transfer_pattern, query_pattern, pattern_of, source, target, heading.
  destruct (t_arrow p); cbn [SP.p_subject SP.p_predicate SP.p_object SP.p_direction]; rewrite E1, E2, E3, Hpt; done.
Qed.

Lemma foldM_push {A B} (h : A → outcome B) (g : A → B) acc l :
  (∀ x, x ∈ l → h x = Ok (g x)) → foldM (λ ys x, y ← h x; Ok (ys ++ [y])) acc l = Ok (acc ++ (g <$> l)).
Proof.
  revert acc. induction l as [|x l IH]; intros acc Hh; simpl; [by rewrite app_nil_r|].
  rewrite Hh by set_solver. simpl. rewrite IH by (intros; apply Hh; set_solver). by rewrite <-app_assoc.
Qed.

Lemma transfer_show q lx : (Z.of_nat (length (names q)) < 2 ^ 31)%Z → types_ok q = true →
  transfer ss vattr rdma (st (names q) (modifier q) (var_id (names q) <$> s_vars q)
    (pattern_of (names q) <$> s_where q) (existsb custom_pat (s_where q)) lx) new_query = Ok (text_query q).
Proof.
  intros Hlen Hty. unfold transfer. cbn [ps_group st]. cbn [transfer_patterns SP.g_patterns SP.g_filters SP.g_unions SP.g_optional].
  rewrite (foldM_push _ (λ p, default (MkPattern 0 0 0 OUT 0) (match transfer_pattern ss vattr p (SP.p_direction p) with Ok x => Some x | Err _ => None end))).
  - cbn [mbind outcome_bind]. unfold text_query. cbn [foldM mbind outcome_bind]. do 2 f_equal.
    + by destruct (s_distinct q) eqn:E; unfold modifier; rewrite E.
    + f_equal. rewrite <-list_fmap_compose. simpl. apply list_fmap_ext. intros i p Hp. simpl.
      rewrite transfer_pattern_of; [done|done| |].
      * intros t x Ht E. eapply names_in; [by eapply list_elem_of_lookup_2|exact Ht|exact E].
      * unfold types_ok in Hty. destruct vattr; [done|]. simpl in *. rewrite forallb_forall in Hty. apply Hty.
        apply list_elem_of_In. by eapply list_elem_of_lookup_2.
    + unfold set_required_vars, set_nvars. simpl. by rewrite Nat2Z.id.
  - intros sp (p & -> & Hp)%list_elem_of_fmap. rewrite transfer_pattern_of; [done|done| |].
    + intros t x Ht E. by eapply names_in.
    + unfold types_ok in Hty. destruct vattr; [done|]. simpl in *. rewrite forallb_forall in Hty. apply Hty. by apply list_elem_of_In.
Qed.

(** C17: a printed query is read back: whatever names its variables have, the text of a
    projection and its triple patterns gives the query with these patterns, its
    variables numbered -1, -2, ... in the order of their first occurrence, its
    constants replaced by their ids and [<-] turned into the direction [IN]. Only the
    custom grammar together with the planner is reported as an error. *)
Theorem parse_query_text (q : select) :
  select_ok q = true → (Z.of_nat (length (names q)) < 2 ^ 31)%Z → types_ok q = true →
  parse_query ss vattr planner rdma (show q) new_query =
    Ok (negb (existsb custom_pat (s_where q) && planner), text_query q).
Proof.
  intros Hok Hlen Hty. unfold parse_query. rewrite read_input_all. cbn [mbind outcome_bind].
  destruct (parse_show q Hok Hlen) as [lx ->]. by rewrite (transfer_show q lx Hlen Hty).
Qed.
End translate.

(** the edges of a predicate, from its index *)
Definition sample_select : select :=
  MkSelect false ["Y"; "X"]%string
    [MkT (Var "X") Pred (Iri "http://knows") Left; MkT (Var "X") (Iri "http://knows") (Var "Y") Dot].
Definition sample_strings : String_Server :=
  MkStrings {["<http://knows>"%string := 5%Z]} {[5%Z := "<http://knows>"%string]} {[5%Z := 0%Z]} 6 131072.

Lemma parse_query_text_witness :
  parse_query sample_strings false false false
    "SELECT ?Y ?X WHERE { ?X __PREDICATE__ <http://knows> <- ?X <http://knows> ?Y . }" new_query =
  Ok (true, text_query sample_strings sample_select) ∧
  patterns (pattern_group (text_query sample_strings sample_select)) = [MkPattern 5 0 (-2) IN 0; MkPattern (-2) 5 (-1) OUT 0].
Proof.
  split; [|vm_compute; reflexivity].
  apply (parse_query_text sample_strings false false false sample_select); vm_compute; reflexivity.
Defined.
