(* ===== verification/Proxy.v ===== *)
(** [core/proxy.hpp]: a proxy takes the text of queries from the console, sends them
    to engines and collects the replies.

    [rand_r] of the C library, the blocking receive of the adaptor and the planner
    ([core/planner.hpp], used when it is enabled) are arguments. The monitor only
    measures times. *)

From stdpp Require Import strings.
From S2P Require Import Prelude Types MyMath Keys Coder Query Serial Exec Regex StringServer Final Server Bgp Replies.
From S2P Require Import Lexer Parser Transfer ParseText.
Local Open Scope Z_scope.

Record proxy `{Adaptor} := MkProxy {
  p_sid : Z;
  p_tid : Z;
  p_coder : coder;
  p_seed : Z;                   (* the seed of [coder] *)
  p_pending : list Message;     (* pending_msgs *)
  p_net : net
}.

Section proxy.
  Context `{Config} `{Adaptor} (str_server : String_Server) (enable_planner silent : bool).
  Context (rand_r : Z → Z * Z) (recv : net → outcome (SPARQLQuery * net)).
  Context (generate_plan : SPARQLQuery → outcome (bool * SPARQLQuery)).

Definition set_pcoder (c : coder) (p : proxy) : proxy :=
  MkProxy _ (p_sid p) (p_tid p) c (p_seed p) (p_pending p) (p_net p).
Definition set_seed (s : Z) (p : proxy) : proxy :=
  MkProxy _ (p_sid p) (p_tid p) (p_coder p) s (p_pending p) (p_net p).
Definition set_pmsgs (l : list Message) (n : net) (p : proxy) : proxy :=
  MkProxy _ (p_sid p) (p_tid p) (p_coder p) (p_seed p) l n.

Definition get_random (p : proxy) : Z * proxy :=
  let '(r, s) := rand_r (p_seed p) in (r, set_seed s p).

Definition set_pid (pid : Z) (q : SPARQLQuery) : SPARQLQuery := set_pid_type pid (pg_type q) q.

(** [setpid(SPARQLQuery &r)] *)
Definition setpid (p : proxy) (r : SPARQLQuery) : SPARQLQuery * proxy :=
  let '(id, c) := get_and_inc_qid (p_coder p) in (set_pid id r, set_pcoder c p).

(** try [n] engines from number [i] on, round robin *)
Fixpoint try_engines (n : nat) (i : Z) (dst_sid base range dst_eid : Z) (q : SPARQLQuery) (net : net) : bool * Server.net :=
  match n with
  | O => (false, net)
  | S n =>
      let '(ok, net) := net_send net (MkMessage dst_sid (base + (dst_eid + i) mod range) q) in
      if ok : bool then (true, net) else try_engines n (i + 1) dst_sid base range dst_eid q net
  end.

(** send to some engine of a server *)
Definition send_to (p : proxy) (q : SPARQLQuery) (dst_sid : Z) : outcome proxy :=
  let range := Z.quot global_num_engines global_num_proxies in
  ASSERT (0 <? range);
  let base := global_num_proxies + range * p_tid p in
  let '(r, p) := get_random p in
  let dst_eid := r mod range in
  let '(ok, net) := try_engines (Z.to_nat range) 0 dst_sid base range dst_eid q (p_net p) in
  Ok (if ok : bool then set_pmsgs (p_pending p) net p
      else set_pmsgs (p_pending p ++ [MkMessage dst_sid (base + dst_eid) q]) net p).

(** send to a thread of a server *)
Definition send_thread (p : proxy) (q : SPARQLQuery) (dst_sid dst_tid : Z) : bool * proxy :=
  let m := MkMessage dst_sid dst_tid q in
  let '(ok, n) := net_send (p_net p) m in
  (ok, if ok : bool then set_pmsgs (p_pending p) n p else set_pmsgs (p_pending p ++ [m]) n p).

(** try to send the pending messages, in order *)
Definition sweep_proxy (p : proxy) : proxy :=
  let '(l, n) := foldl (λ '(l, n) m,
      let '(ok, n) := net_send n m in (if ok : bool then l else l ++ [m], n)) ([], p_net p) (p_pending p) in
  set_pmsgs l n p.

Definition submit (p : proxy) (r : SPARQLQuery) : outcome proxy :=
  ASSERT (negb (q_pid r =? -1));
  start ← get_start (pattern_group r);
  start_sid ← hash_mod start global_num_servers;
  send_to p r start_sid.

Definition recv_reply (p : proxy) : outcome (SPARQLQuery * proxy) :=
  '(r, n) ← recv (p_net p); Ok (r, set_pmsgs (p_pending p) n p).

(** ** Templates *)

(** the query for the instances of a type *)
Definition type_request (type : string) : SPARQLQuery :=
  let id := default 0 (str2id str_server !! type) in
  MkQuery (-1) (-1) 0 BASIC SQ_PATTERN 1 0 0 0 false 0 0 false 0 (-1) 0 false
    (MkGroup false [MkPattern (i32 id) TYPE_ID (-1) IN 0] [] [] [] ∅) []
    (MkResult 0 0 0 false 1 [] [-1] [] [] []).

Definition candidates (p : proxy) (type : string) : outcome (list sid_t * proxy) :=
  let '(r, p) := setpid p (type_request type) in
  p ← submit p r;
  '(reply, p) ← recv_reply p;
  let c := result_table (result reply) in
  ASSERT (negb (bool_decide (c = [])));
  Ok (c, p).

(** [ptypes_grp] holds no candidates before *)
Definition fill_template (p : proxy) (sqt : SPARQLQuery_Template) : outcome (SPARQLQuery_Template * proxy) :=
  '(grp, p) ← foldM (λ '(grp, p) type, '(c, p) ← candidates p type; Ok (grp ++ [c], p)) ([], p) (ptypes_str sqt);
  Ok (MkTemplate (t_group sqt) (t_nvars sqt) (ptypes_str sqt) (ptypes_pos sqt) grp, p).

(** ** One query *)

(** the request of one round: the multi-threading factor for queries that start from
    an index, and whether the result is taken back *)
Definition round_request (request : SPARQLQuery) (mt_factor : Z) (last : bool) : outcome SPARQLQuery :=
  b ← start_from_index request;
  let request := if b : bool then set_mt_factor (Z.min mt_factor global_mt_threshold) request else request in
  Ok (set_result (set_blind (if last then silent else true) (result request)) request).

Fixpoint rounds (n : nat) (p : proxy) (request reply : SPARQLQuery) (mt_factor : Z) : outcome (SPARQLQuery * proxy) :=
  match n with
  | O => Ok (reply, p)
  | S n =>
      let '(request, p) := setpid p request in
      request ← round_request request mt_factor (n =? 0)%nat;
      p ← submit p request;
      '(reply, p) ← recv_reply p;
      rounds n p request reply mt_factor
  end.

(** the return code, the reply and the proxy *)
Definition run_single_query (p : proxy) (text : string) (mt_factor cnt : Z) (reply : SPARQLQuery) :
    outcome (Z * SPARQLQuery * proxy) :=
  '(ok, request) ← parse_query str_server global_enable_vattr enable_planner global_use_rdma text new_query;
  if negb ok then Ok (-2, reply, p) (* parsing failed *)
  else
    '(exec, request) ← (if enable_planner then generate_plan request else Ok (true, request));
    if negb exec then Ok (0, reply, p) (* skip the real execution *)
    else
      '(reply, p) ← rounds (Z.to_nat cnt) p request reply mt_factor;
      Ok (0, reply, p).

(** ** Messages are not lost *)

Definition all_pmsgs (p : proxy) : list Message := delivered (p_net p) ++ p_pending p.

Lemma try_engines_ok n i dst base range eid q net :
  0 < range →
  ∃ tid, base <= tid < base + range ∧
    delivered (try_engines n i dst base range eid q net).2 =
      delivered net ++ (if (try_engines n i dst base range eid q net).1 then [MkMessage dst tid q] else []).
Proof.
  intros Hr. revert i net. induction n as [|n IH]; intros i net; cbn [try_engines].
  { exists base. rewrite app_nil_r. split; [lia|done]. }
  pose proof (net_send_ok net (MkMessage dst (base + (eid + i) mod range) q)) as Hn.
  destruct (net_send net _) as [[] net'] eqn:E; simpl in Hn.
  - exists (base + (eid + i) mod range). pose proof (Z.mod_pos_bound (eid + i) range Hr). split; [lia|done].
  - rewrite app_nil_r in Hn. rewrite <-Hn. apply IH.
Qed.

Lemma send_to_ok p q dst : 0 < global_num_proxies -> global_num_proxies <= global_num_engines ->
  let range := global_num_engines / global_num_proxies in
  ∃ p' tid, send_to p q dst = Ok p' ∧ p_sid p' = p_sid p ∧ p_tid p' = p_tid p ∧ p_coder p' = p_coder p ∧
    global_num_proxies + range * p_tid p <= tid < global_num_proxies + range * (p_tid p + 1) ∧
    all_pmsgs p' ≡ₚ all_pmsgs p ++ [MkMessage dst tid q].
Proof.
  intros Hp He range. unfold send_to. rewrite Z.quot_div_nonneg by lia. fold range.
  assert (Hr : 0 < range) by (apply Z.div_str_pos; lia). rewrite (proj2 (Z.ltb_lt _ _) Hr). cbn [mbind outcome_bind].
  unfold get_random. destruct (rand_r (p_seed p)) as [r seed].
  set (base := global_num_proxies + range * p_tid p). cbn [p_net set_seed p_tid].
  destruct (try_engines_ok (Z.to_nat range) 0 dst base range (r mod range) q (p_net p) Hr) as (tid & Ht & Hd).
  destruct (try_engines _ _ _ _ _ _ _ _) as [ok net']. simpl in Hd. pose proof (Z.mod_pos_bound r range Hr).
  exists (if ok : bool then set_pmsgs (p_pending p) net' (set_seed seed p)
          else set_pmsgs (p_pending p ++ [MkMessage dst (base + r mod range) q]) net' (set_seed seed p)).
  exists (if ok then tid else base + r mod range). split; [done|]. destruct ok; simpl; (split_and!; [done..|lia|lia|]); unfold all_pmsgs; simpl.
  - rewrite Hd, <-!app_assoc. apply Permutation_app_head, Permutation_app_comm.
  - by rewrite Hd, app_nil_r, app_assoc.
Qed.

(** a request of a proxy goes to one of its own engines: with at least as many
    engines as proxies the request is handed to the network, or kept as pending, for
    exactly one thread, which is an engine of the proxy's share of the threads of a
    server; with fewer engines sending fails its assertion. *)
Theorem send_to_own_engine (p : proxy) (q : SPARQLQuery) (dst : Z) :
  config_ok _ → 0 <= p_tid p < global_num_proxies →
  let range := global_num_engines / global_num_proxies in
  (global_num_engines < global_num_proxies → send_to p q dst = Err AssertFail) ∧
  (global_num_proxies <= global_num_engines → ∃ p' tid, send_to p q dst = Ok p' ∧
    all_pmsgs p' ≡ₚ all_pmsgs p ++ [MkMessage dst tid q] ∧
    (tid - global_num_proxies) / range = p_tid p ∧ global_num_proxies <= tid < global_num_threads).
Proof.
  intros Hc Ht range. split.
  - intros He. unfold send_to. rewrite Z.quot_small; [done|]. pose proof (cfg_engines _ Hc). lia.
  - intros He. destruct (send_to_ok p q dst (cfg_proxies _ Hc) He) as (p' & tid & E & _ & _ & _ & Hr & Hm). fold range in Hr.
    assert (0 < range) by (apply Z.div_str_pos; pose proof (cfg_proxies _ Hc); lia).
    exists p', tid. split_and!; [done..| |nia|].
    + symmetry. apply Z.div_unique_pos with (tid - global_num_proxies - range * p_tid p); lia.
    + rewrite (cfg_threads _ Hc). assert (range * global_num_proxies <= global_num_engines); [|nia].
      unfold range. rewrite Z.mul_comm. apply Z.mul_div_le. apply Hc.
Qed.

(** sweeping keeps every message *)
Lemma sweep_proxy_msgs p : all_pmsgs (sweep_proxy p) ≡ₚ all_pmsgs p.
Proof.
  unfold sweep_proxy, all_pmsgs. set (f := λ '(l, n) m, _).
  assert (Hf : ∀ ms l n, delivered (foldl f (l, n) ms).2 ++ (foldl f (l, n) ms).1 ≡ₚ delivered n ++ l ++ ms).
  { induction ms as [|m ms IH]; intros l n; simpl; [by rewrite app_nil_r|]. pose proof (net_send_ok n m) as Hn.
    destruct (net_send n m) as [[] n']; simpl in *; rewrite IH, Hn.
    - rewrite <-!app_assoc. apply Permutation_app_head. simpl. by rewrite Permutation_middle.
    - by rewrite app_nil_r, <-app_assoc. }
  specialize (Hf (p_pending p) [] (p_net p)). destruct (foldl f _ _) as [l n]. exact Hf.
Qed.

(** ** The requests of a single query *)

Hypothesis recv_delivered : ∀ n r n', recv n = Ok (r, n') → delivered n' = delivered n.

(** [r] is a request for [q]: only the id, the threads and the blindness are its own *)
Definition request_of (q r : SPARQLQuery) : Prop :=
  ∃ pid mt b, r = set_result (set_blind b (result q)) (set_mt_factor mt (set_pid pid q)).

Lemma request_of_refl q : request_of q q.
Proof. exists (q_pid q), (mt_factor q), (blind (result q)). destruct q as [??????????????????? []]. done. Qed.

Lemma request_of_trans q r s : request_of q r → request_of r s → request_of q s.
Proof. intros (? & ? & ? & ->) (pid & mt & b & ->). by exists pid, mt, b. Qed.

Lemma round_request_ok q pid mt last r : round_request (set_pid pid q) mt last = Ok r →
  request_of q r ∧ q_pid r = pid ∧ blind (result r) = (if last then silent else true).
Proof.
  unfold round_request. intros E. apply bind_Ok in E as (b & _ & [= <-]). destruct b; simpl; (split; [|done]).
  - by eexists _, _, _.
  - exists pid, (mt_factor q), (if last then silent else true). done.
Qed.

Lemma submit_ok p q p' : 0 < global_num_proxies → global_num_proxies <= global_num_engines → submit p q = Ok p' →
  ∃ start home tid, get_start (pattern_group q) = Ok start ∧ hash_mod start global_num_servers = Ok home ∧
    p_coder p' = p_coder p ∧ p_tid p' = p_tid p ∧ all_pmsgs p' ≡ₚ all_pmsgs p ++ [MkMessage home tid q].
Proof.
  intros Hp He E. unfold submit in E. apply bind_Ok in E as ([] & _ & E). apply bind_Ok in E as (start & E1 & E).
  apply bind_Ok in E as (home & E2 & E). destruct (send_to_ok p q home Hp He) as (p1 & tid & E3 & _ & Ht & Hc & _ & Hm).
  rewrite E3 in E. injection E as <-. by exists start, home, tid.
Qed.

Lemma rounds_ok n p q reply mt reply' p' : 0 < global_num_proxies → global_num_proxies <= global_num_engines →
  rounds n p q reply mt = Ok (reply', p') →
  ∃ msgs, all_pmsgs p' ≡ₚ all_pmsgs p ++ msgs ∧
    (q_pid <$> (m_query <$> msgs)) = issue n (p_coder p) ∧
    (blind <$> (result <$> (m_query <$> msgs))) = (match n with O => [] | S k => replicate k true ++ [silent] end) ∧
    Forall (λ m, request_of q (m_query m) ∧ ∃ start, get_start (pattern_group q) = Ok start ∧
      hash_mod start global_num_servers = Ok (m_sid m)) msgs.
Proof.
  intros Hp He. revert p q reply. induction n as [|n IH]; intros p q reply E; cbn [rounds] in E.
  { injection E as <- <-. exists []. by rewrite app_nil_r. }
  unfold setpid in E. cbn [issue]. destruct (get_and_inc_qid (p_coder p)) as [id c].
  apply bind_Ok in E as (r & E1 & E). apply bind_Ok in E as (p1 & E2 & E). apply bind_Ok in E as ([rep p2] & E3 & E).
  destruct (round_request_ok _ _ _ _ _ E1) as (Hreq & Hid & Hbl).
  destruct (submit_ok _ _ _ Hp He E2) as (start & home & tid & Es & Eh & Hc & _ & Hm).
  unfold recv_reply in E3. apply bind_Ok in E3 as ([rr nn] & Er & [= <- <-]). apply recv_delivered in Er.
  destruct (IH _ _ _ E) as (msgs & Hm' & Hids & Hbs & Hall). clear IH.
  exists (MkMessage home tid r :: msgs). rewrite !fmap_cons. split_and!.
  - rewrite Hm'. unfold all_pmsgs at 1. simpl. rewrite Er. change (delivered (p_net p1) ++ p_pending p1) with (all_pmsgs p1).
    rewrite Hm. unfold all_pmsgs. simpl. by rewrite <-app_assoc.
  - rewrite Hids. simpl. rewrite Hid. by rewrite Hc.
  - rewrite Hbs. simpl. rewrite Hbl. by destruct n.
  - assert (Hg : pattern_group r = pattern_group q) by (by destruct Hreq as (? & ? & ? & ->)).
    constructor; [split; [done|]; exists start; by rewrite <-Hg|].
    eapply Forall_impl; [exact Hall|]. intros m [Hr Hst]. rewrite <-Hg. split; [by eapply request_of_trans|done].
Qed.

(** a single query that is run [cnt] times: the proxy sends [cnt] requests for the
    parsed query, to the server of its start vertex, with the next ids of its coder;
    only the last one takes its result back. A text that does not parse sends
    nothing. *)
Theorem run_single_query_requests (p : proxy) (text : string) (mt cnt : Z) (reply : SPARQLQuery) (ok : bool) (q : SPARQLQuery) :
  0 < global_num_proxies → global_num_proxies <= global_num_engines → enable_planner = false →
  parse_query str_server global_enable_vattr enable_planner global_use_rdma text new_query = Ok (ok, q) →
  (ok = false → run_single_query p text mt cnt reply = Ok (-2, reply, p)) ∧
  (ok = true → ∀ c reply' p', run_single_query p text mt cnt reply = Ok (c, reply', p') →
    c = 0 ∧ ∃ msgs, all_pmsgs p' ≡ₚ all_pmsgs p ++ msgs ∧
      (q_pid <$> (m_query <$> msgs)) = issue (Z.to_nat cnt) (p_coder p) ∧
      (blind <$> (result <$> (m_query <$> msgs))) = (match Z.to_nat cnt with O => [] | S k => replicate k true ++ [silent] end) ∧
      Forall (λ m, request_of q (m_query m) ∧ ∃ start, get_start (pattern_group q) = Ok start ∧
        hash_mod start global_num_servers = Ok (m_sid m)) msgs).
Proof.
  intros Hp He Hen Hparse. unfold run_single_query. rewrite Hparse. cbn [mbind outcome_bind]. split; [by intros ->|].
  intros -> c reply' p' E. rewrite Hen in E. cbn [negb mbind outcome_bind] in E. apply bind_Ok in E as ([r p1] & E & [= <- <- <-]).
  split; [done|]. by apply (rounds_ok _ _ _ _ _ _ _ Hp He E).
Qed.
End proxy.

(** *** One proxy and one engine *)

Definition idle_proxy : @proxy open_network := @MkProxy open_network 0 0 (@new_coder one_server 0 0) 0 [] [].
(** a random number generator and a network that answers with an empty query *)
Definition no_rand (s : Z) : Z * Z := (s, s).
Definition echo (n : @net open_network) : outcome (SPARQLQuery * @net open_network) := Ok (new_query, n).

Lemma send_to_own_engine_witness : ∃ p',
  @send_to one_server open_network no_rand idle_proxy new_query 0 = Ok p' ∧
  @all_pmsgs open_network p' ≡ₚ [MkMessage 0 1 new_query].
Proof.
  destruct (@send_to_own_engine one_server open_network no_rand idle_proxy new_query 0) as [_ Hs];
    [split; simpl; lia|simpl; lia|].
  destruct (Hs ltac:(simpl; lia)) as (p' & tid & E & Hm & _ & Ht). exists p'. split; [exact E|].
  assert (tid = 1) as -> by (simpl in Ht; lia). exact Hm.
Defined.

Lemma run_single_query_requests_witness : ∃ reply p' msgs,
  @run_single_query one_server open_network sample_strings false false no_rand echo (λ q, Ok (true, q)) idle_proxy
    (show sample_select) 1 3 new_query = Ok (0, reply, p') ∧
  @all_pmsgs open_network p' ≡ₚ msgs ∧ (q_pid <$> (m_query <$> msgs)) = [0; 2; 4] ∧
  (blind <$> (result <$> (m_query <$> msgs))) = [true; true; false].
Proof.
  destruct (@run_single_query_requests one_server open_network sample_strings false false no_rand echo (λ q, Ok (true, q))
    ltac:(intros n r n' E; injection E as _ <-; reflexivity) idle_proxy (show sample_select) 1 3 new_query true
    (text_query sample_strings sample_select)) as [_ Hrun]; [reflexivity|simpl; lia|reflexivity|vm_compute; reflexivity|].
  destruct (@run_single_query one_server open_network sample_strings false false no_rand echo (λ q, Ok (true, q)) idle_proxy
    (show sample_select) 1 3 new_query) as [[[c reply] p']|] eqn:E; [|vm_compute in E; discriminate].
  destruct (Hrun eq_refl c reply p' eq_refl) as (-> & msgs & Hm & Hp & Hb & _).
  exists reply, p', msgs. split; [reflexivity|]. split; [exact Hm|]. split; [exact Hp|exact Hb].
Defined.
