(* ===== verification/TextAnswer.v ===== *)
(** From the text of a query to its answer on one server: the proxy parses the text
    and issues the request, an engine executes it, and the reply that it sends to the
    proxy holds exactly the bindings of the projected names that satisfy the triple
    patterns of the text. *)

From stdpp Require Import strings.
From S2P Require Import Prelude Types MyMath Tuple Keys Coder Query Rows Serial Engine EngineSteps Exec.
From S2P Require Import Regex StringServer Filter Final Server Frame Bgp EndToEnd Replies Answer.
From S2P Require Import Lexer Parser ParserTotal Transfer ParseText Proxy.
Local Open Scope nat_scope.

Section text.
  Context `{Config} `{GraphOk} (strs : String_Server).

(** ** The meaning of the text *)

(** a binding of the names *)
Definition binding : Type := string → sid_t.

Definition iri_id (x : string) : ssid_t := constant strs ("<" ++ x ++ ">").
Definition value_of (μ : binding) (t : term) : sid_t :=
  match t with Var x => μ x | Iri x => u32 (iri_id x) | Pred => 0%Z end.
(** the id of a constant predicate *)
Definition predicate_id (t : term) : sid_t := match t with Iri x => iri_id x | _ => 0%Z end.

(** The pattern holds in the graph; the first one may start from an index. *)
Definition pattern_holds (i : nat) (μ : binding) (p : tpat) : Prop :=
  match i, source p with
  | O, Iri x =>
      if is_tpid (iri_id x) then value_of μ (target p) ∈ index_list (iri_id x) (heading p)
      else value_of μ (target p) ∈ edge_list (u32 (iri_id x)) (heading p) (predicate_id (t_predicate p))
  | _, t => value_of μ (target p) ∈ edge_list (value_of μ t) (heading p) (predicate_id (t_predicate p))
  end.

Definition text_holds (μ : binding) (q : select) : Prop := ∀ i p, s_where q !! i = Some p → pattern_holds i μ p.

(** string ids fit a non-negative [ssid_t] *)
Definition ids_fit : Prop := ∀ s id, str2id strs !! s = Some id → (0 <= id < 2 ^ 31)%Z.

(** ** Bindings of names and assignments of variables *)

Lemma var_id_neg env x : (var_id env x < 0)%Z.
Proof. unfold var_id. lia. Qed.

Lemma var_idx_id env x : var_idx (var_id env x) = position x env.
Proof. unfold var_idx, var_id. lia. Qed.

Lemma position_lookup env x : x ∈ env → env !! position x env = Some x.
Proof.
  induction env as [|y env IH]; intros Hx; [by apply elem_of_nil in Hx|]. simpl. case_bool_decide as E; [by subst|].
  apply elem_of_cons in Hx as [->|Hx]; [done|]. by apply IH.
Qed.

Lemma constant_fits n t env : ids_fit → n < Z.to_nat (2 ^ 31) → (- Z.of_nat n <= term_id strs env t)%Z →
  match t with Var _ => True | Iri x => (0 <= iri_id x)%Z | Pred => True end.
Proof.
  intros Hfit Hn. destruct t as [x|x|]; [done| |done]. unfold term_id, iri_id, constant.
  destruct (str2id strs !! _) as [id|] eqn:E; [|unfold DUMMY_ID; lia]. apply Hfit in E. rewrite i32_id by lia. lia.
Qed.

(** the value of a term under matching assignments *)
Lemma value_term (σ : assignment) (μ : binding) env t :
  (∀ x, t = Var x → σ (var_id env x) = μ x) → match t with Iri x => (0 <= iri_id x)%Z | _ => True end →
  val σ (term_id strs env t) = value_of μ t.
Proof.
  intros Hx Ht. unfold val. destruct t as [x|x|]; simpl in *.
  - rewrite (proj2 (Z.leb_gt _ _) (var_id_neg env x)). by apply Hx.
  - fold (iri_id x). by rewrite (proj2 (Z.leb_le _ _) Ht).
  - done.
Qed.

(** the values of the terms of a pattern *)
Lemma pattern_values (σ : assignment) (μ : binding) env n p :
  ids_fit → n < Z.to_nat (2 ^ 31) → (∀ t x, t ∈ terms p → t = Var x → σ (var_id env x) = μ x) →
  pattern_okb n (query_pattern strs env p) = true →
  val σ (term_id strs env (source p)) = value_of μ (source p) ∧
  val σ (term_id strs env (target p)) = value_of μ (target p) ∧
  term_id strs env (t_predicate p) = predicate_id (t_predicate p).
Proof.
  intros Hfit Hn Hσ Hok. unfold pattern_okb in Hok. rewrite !andb_true_iff in Hok. destruct Hok as [[[[[[[Hp _] _] Hs] _] Ho] _] _].
  apply Z.leb_le in Hp, Hs, Ho. simpl in Hp, Hs, Ho.
  pose proof (constant_fits n (source p) env Hfit Hn Hs) as Hcs. pose proof (constant_fits n (target p) env Hfit Hn Ho) as Hct.
  assert (Hin : source p ∈ terms p ∧ target p ∈ terms p) by (unfold source, target, terms; destruct (t_arrow p); set_solver).
  split_and!.
  - apply value_term; [intros x Hx; apply (Hσ (source p)); [apply Hin|exact Hx]|exact Hcs].
  - apply value_term; [intros x Hx; apply (Hσ (target p)); [apply Hin|exact Hx]|exact Hct].
  - destruct (t_predicate p) as [x|x|]; [|done..]. pose proof (var_id_neg env x). simpl in Hp. lia.
Qed.

(** a variable is no index *)
Lemma var_no_index env x : is_tpid (var_id env x) = false.
Proof. unfold is_tpid. pose proof (var_id_neg env x). by rewrite (proj2 (Z.ltb_ge 1 _)) by lia. Qed.

Lemma pattern_holds_ok (σ : assignment) (μ : binding) env n i p :
  ids_fit → n < Z.to_nat (2 ^ 31) → (∀ t x, t ∈ terms p → t = Var x → σ (var_id env x) = μ x) →
  pattern_okb n (query_pattern strs env p) = true →
  pat_holds i σ (query_pattern strs env p) ↔ pattern_holds i μ p.
Proof.
  intros Hfit Hn Hσ Hok. destruct (pattern_values σ μ env n p Hfit Hn Hσ Hok) as (Hvs & Hvt & Hpr).
  unfold pat_holds, pattern_holds. cbn [query_pattern subject predicate object direction]. rewrite Hvs, Hvt, Hpr.
  destruct i as [|i]; [|done]. cbn [Nat.eqb andb]. destruct (source p) as [x|x|]; cbn [term_id]; [by rewrite var_no_index| |done].
  fold (iri_id x). by destruct (is_tpid (iri_id x)).
Qed.

Lemma text_solves (σ : assignment) (μ : binding) q :
  ids_fit → length (names q) < Z.to_nat (2 ^ 31) → (∀ x, x ∈ names q → σ (var_id (names q) x) = μ x) →
  plan_ok (length (names q)) 0 ∅ (query_pattern strs (names q) <$> s_where q) = true →
  solves (length (s_where q)) (query_pattern strs (names q) <$> s_where q) σ ↔ text_holds μ q.
Proof.
  intros Hfit Hn Hσ Hok.
  assert (Hp : ∀ i p, s_where q !! i = Some p → pat_holds i σ (query_pattern strs (names q) p) ↔ pattern_holds i μ p).
  { intros i p Hp. eapply pattern_holds_ok; [done|exact Hn| |].
    - intros t x Ht Ex. apply Hσ. by eapply names_in; [eapply list_elem_of_lookup_2| |].
    - eapply plan_ok_lookup; [exact Hok|]. by rewrite list_lookup_fmap, Hp. }
  split.
  - intros Hs i p Hi. apply Hp; [done|]. apply Hs; [by eapply lookup_lt_Some|]. by rewrite list_lookup_fmap, Hi.
  - intros Hs i p' _ Hi. rewrite list_lookup_fmap in Hi. destruct (s_where q !! i) as [p|] eqn:E; [|done]. injection Hi as <-.
    by apply Hp, Hs.
Qed.

Lemma plan_vars_in ps p : p ∈ ps → (object p < 0)%Z → object p ∈ plan_vars ps.
Proof.
  intros Hp Ho. unfold plan_vars. assert (Hk : ∀ ps k v, v ∈ k → v ∈ foldl next_known k ps).
  { clear. induction ps as [|p ps IH]; intros k v Hv; [done|]. simpl. apply IH. unfold next_known. destruct (_ <? _)%Z; set_solver. }
  generalize (∅ : gset ssid_t). induction ps as [|p' ps IH]; intros k; [by apply elem_of_nil in Hp|]. simpl.
  apply elem_of_cons in Hp as [->|Hp]; [|by apply IH]. apply Hk. unfold next_known. rewrite (proj2 (Z.ltb_lt _ _) Ho). set_solver.
Qed.

(** assignments of variables and bindings of names describe the same answers *)
Lemma bindings_assignments q vs (P : assignment → Prop) (Q : binding → Prop) :
  (∀ σ μ, (∀ x, x ∈ names q → σ (var_id (names q) x) = μ x) → P σ ↔ Q μ) → (∀ x, x ∈ s_vars q → x ∈ names q) →
  (∃ σ, (∀ v, is_sid (σ v)) ∧ P σ ∧ vs = σ <$> (var_id (names q) <$> s_vars q)) ↔
  (∃ μ, (∀ x, is_sid (μ x)) ∧ Q μ ∧ vs = μ <$> s_vars q).
Proof.
  intros HPQ Hin. split.
  - intros (σ & Hs & Hsol & ->). exists (λ x, σ (var_id (names q) x)). split_and!; [done| |by rewrite <-list_fmap_compose].
    by apply (HPQ σ).
  - intros (μ & Hs & Hsol & ->). set (σ := (λ v, match names q !! var_idx v with Some x => μ x | None => 0%Z end) : assignment).
    assert (Hσ : ∀ x, x ∈ names q → σ (var_id (names q) x) = μ x).
    { intros x Hx. unfold σ. by rewrite var_idx_id, position_lookup. }
    exists σ. split_and!.
    + intros v. unfold σ. destruct (names q !! var_idx v); [done|]. unfold is_sid. lia.
    + by apply (HPQ σ μ).
    + rewrite <-list_fmap_compose. apply list_fmap_ext. intros i x Hx. simpl. symmetry. apply Hσ, Hin. by eapply list_elem_of_lookup_2.
Qed.

Lemma projected_names q : (∀ x, x ∈ s_vars q → ∃ p, p ∈ s_where q ∧ target p = Var x) → ∀ x, x ∈ s_vars q → x ∈ names q.
Proof.
  intros Hv x Hx. destruct (Hv x Hx) as (p & Hp & Ht). eapply (names_in _ _ p (target p)); [done| |done].
  unfold target, terms. destruct (t_arrow p); set_solver.
Qed.
End text.

Section answered.
  Context (versatile : bool) `{Config} `{GraphOk} `{Adaptor} `{StdSort} (strs : String_Server).
  Context (regex_compile : bool → string → option regex) (uset_iter : gset sid_t → list sid_t).

(** a query whose patterns are a plan that binds the projected names *)
Record answerable (q : select) : Prop := {
  aq_ok : select_ok q = true;
  aq_plain : s_distinct q = false;
  aq_types : types_ok strs global_enable_vattr q = true;
  aq_where : s_where q ≠ [] ∧ (Z.of_nat (length (s_where q)) < NO_RESULT)%Z;
  aq_names : (Z.of_nat (length (names q)) < 2 ^ 31)%Z;
  aq_plan : plan_ok (length (names q)) 0 ∅ (query_pattern strs (names q) <$> s_where q) = true;
  aq_vars x : x ∈ s_vars q → ∃ p, p ∈ s_where q ∧ target p = Var x
}.

Lemma plan_starts n g r : plan_ok n 0 ∅ (patterns g) = true → pattern_group r = g → ∃ b, start_from_index r = Ok b.
Proof.
  intros Hp Hg. unfold start_from_index. rewrite Hg. destruct (patterns g) as [|p ps]; [by eexists|].
  cbn [plan_ok] in Hp. rewrite !andb_true_iff in Hp. destruct Hp as [[_ Hs] _]. simpl in Hs. apply andb_true_iff in Hs as [_ Hs].
  destruct (is_tpid (subject p)); [|by eexists]. rewrite Hs. by eexists.
Qed.

(** the request of the text on its way to an engine *)
Lemma text_request q pid : answerable q → (1 <= global_mt_threshold)%Z → ∃ r,
  round_request false (set_pid pid (text_query strs q)) 1 true = Ok r ∧ plain_query (length (names q)) r ∧
  pattern_group r = pattern_group (text_query strs q) ∧ q_pid r = pid ∧
  required_vars (result r) = var_id (names q) <$> s_vars q ∧ limit r = (-1)%Z ∧ offset r = 0%Z.
Proof.
  intros Hq Hmt. unfold round_request.
  destruct (plan_starts (length (names q)) (pattern_group (text_query strs q)) (set_pid pid (text_query strs q)) (aq_plan _ Hq) eq_refl) as [b ->].
  cbn [mbind outcome_bind]. rewrite Z.min_l by lia. eexists. split; [done|].
  pose proof (aq_ok _ Hq) as Hok. unfold select_ok in Hok. rewrite !andb_true_iff in Hok. destruct Hok as [[Hne _] _].
  apply negb_true_iff, bool_decide_eq_false in Hne.
  assert (Hreq : (var_id (names q) <$> s_vars q) ≠ [] ∧ ∀ v, v ∈ (var_id (names q) <$> s_vars q) →
    v ∈ plan_vars (query_pattern strs (names q) <$> s_where q)).
  { split; [by destruct (s_vars q)|]. intros v (x & -> & Hx)%list_elem_of_fmap. destruct (aq_vars _ Hq x Hx) as (p & Hp & Ht).
    pose proof (plan_vars_in (query_pattern strs (names q) <$> s_where q) (query_pattern strs (names q) p)) as Hv.
    simpl in Hv. rewrite Ht in Hv. simpl in Hv. apply Hv; [by apply list_elem_of_fmap_2|apply var_id_neg]. }
  destruct b; (split_and!; [|done..]); (split; [|done|done|done|done|split; [apply Hq|done]|exact Hreq|done|done]); by split.
Qed.

(** the way of a text through parser, proxy and engine *)
Lemma text_reply (q : select) (p : proxy) (s : list engine) (me eng : nat) (e : engine) :
  config_ok _ → global_num_servers = 1%Z → (global_num_threads < 2 ^ 31)%Z → answerable q →
  coder_wf (p_coder p) → (c_tid (p_coder p) < global_num_proxies)%Z → s !! me = Some e →
  ∃ request r sols m e',
    parse_query strs global_enable_vattr false global_use_rdma (show q) new_query = Ok (true, request) ∧
    round_request false (setpid p request).1 1 true = Ok r ∧
    (∀ vs, vs ∈ sols ↔ ∃ σ, (∀ v, is_sid (σ v)) ∧
      solves (length (s_where q)) (query_pattern strs (names q) <$> s_where q) σ ∧ vs = σ <$> (var_id (names q) <$> s_vars q)) ∧
    execute_sparql_query versatile strs regex_compile uset_iter s me eng r = Ok (<[me := e']> s) ∧
    all_msgs e' ≡ₚ all_msgs e ++ [MkMessage (c_sid (p_coder p)) (c_tid (p_coder p)) m] ∧
    result_table (result m) = concat sols ∧ row_num (result m) = length sols.
Proof.
  intros Hc Hone Hthr Hq Hcw Hpx Hme. exists (text_query strs q).
  set (pid := c_qid (p_coder p)). destruct (text_request q pid Hq) as (r & Er & Hr & Hg & Hpid & Hreq & Hlim & Hoff); [apply Hc|].
  destruct (decode ltac:(rewrite (cfg_threads _ Hc); pose proof (cfg_engines _ Hc); pose proof (cfg_proxies _ Hc); lia)
    ltac:(rewrite Hone; lia) (p_coder p) Hcw) as [Hsid Htid].
  destruct (answer_plain versatile strs regex_compile uset_iter Hone s me eng e (length (names q)) r) as (sols & m & c & Hs & Ha & E);
    rewrite ?Hg; try done.
  { destruct (s_where q) eqn:Ew; [|by simpl; rewrite Ew]. by destruct (aq_where _ Hq). }
  { apply Hq. }
  { simpl. rewrite length_fmap. apply Hq. }
  { rewrite Hpid. unfold pid. rewrite Htid. by apply Z.ltb_lt. }
  exists r, sols, m. eexists. rewrite Hg in Hs. simpl in Hs. rewrite length_fmap, Hreq in Hs.
  rewrite Hpid in E. unfold pid in E. rewrite Hsid, Htid in E.
  assert (Hw : window r sols = sols) by (unfold window; rewrite Hlim, Hoff; done).
  split_and!; [|exact Er|exact Hs|exact E|by rewrite send_request_msgs|by rewrite (an_table _ _ _ Ha), Hw|by rewrite (an_rows _ _ _ Ha), Hw].
  unfold parse_query. rewrite read_input_all. cbn [mbind outcome_bind].
  destruct (parse_show q (aq_ok _ Hq) (aq_names _ Hq)) as [lx ->].
  rewrite (transfer_show strs global_enable_vattr global_use_rdma q lx (aq_names _ Hq) (aq_types _ Hq)). simpl. by rewrite andb_false_r.
Qed.

(** the text of a query is answered: on one server, with a proxy and its engine, the
    text of a projection and of triple patterns that form a plan is parsed, issued as
    a request and executed, and the engine sends one message to the proxy, whose
    table lists values of the projected names: exactly those of the bindings of names
    to ids under which every triple pattern of the text holds in the graph. *)
Theorem text_answered (q : select) (p : proxy) (s : list engine) (me eng : nat) (e : engine) :
  config_ok _ → global_num_servers = 1%Z → (global_num_threads < 2 ^ 31)%Z → ids_fit strs → answerable q →
  coder_wf (p_coder p) → (c_tid (p_coder p) < global_num_proxies)%Z → s !! me = Some e →
  ∃ request r sols m e',
    parse_query strs global_enable_vattr false global_use_rdma (show q) new_query = Ok (true, request) ∧
    round_request false (setpid p request).1 1 true = Ok r ∧
    (∀ vs, vs ∈ sols ↔ ∃ μ, (∀ x, is_sid (μ x)) ∧ text_holds strs μ q ∧ vs = μ <$> s_vars q) ∧
    execute_sparql_query versatile strs regex_compile uset_iter s me eng r = Ok (<[me := e']> s) ∧
    all_msgs e' ≡ₚ all_msgs e ++ [MkMessage (c_sid (p_coder p)) (c_tid (p_coder p)) m] ∧
    result_table (result m) = concat sols ∧ row_num (result m) = length sols.
Proof.
  intros Hc Hone Hthr Hfit Hq Hcw Hpx Hme.
  destruct (text_reply q p s me eng e Hc Hone Hthr Hq Hcw Hpx Hme) as (request & r & sols & m & e' & E1 & E2 & Hs & E3 & Hm & Ht).
  exists request, r, sols, m, e'. split_and!; try done; [|apply Ht..]. intros vs. rewrite Hs.
  apply (bindings_assignments q vs (solves (length (s_where q)) (query_pattern strs (names q) <$> s_where q)) (λ μ, text_holds strs μ q)).
  - intros σ μ Hσ. apply text_solves; [done|pose proof (aq_names _ Hq); lia|done|apply Hq].
  - apply projected_names, Hq.
Qed.
End answered.

(** *** One text on the graph of one triple *)

Lemma one_server_ok : config_ok one_server.
Proof. split; simpl; lia. Qed.

Lemma sample_coder : @coder_wf one_server (p_coder idle_proxy).
Proof. split; vm_compute; intuition congruence. Qed.

Lemma sample_fit : ids_fit sample_strings.
Proof.
  intros s id Hid. unfold sample_strings in Hid. cbn [str2id] in Hid. apply lookup_singleton_Some in Hid as [_ <-]. lia.
Qed.

Lemma sample_answerable : @answerable one_server sample_strings sample_select.
Proof.
  split; [vm_compute; reflexivity..|split; [done|vm_compute; reflexivity]|vm_compute; reflexivity|vm_compute; reflexivity|].
  intros x Hx. simpl in Hx. apply elem_of_cons in Hx as [->|Hx]; [|apply list_elem_of_singleton in Hx as ->].
  - eexists. split; [apply elem_of_cons; right; by apply elem_of_cons; left|done].
  - eexists. split; [by apply elem_of_cons; left|done].
Qed.

Lemma text_answered_witness : ∃ r m e' sols,
  @execute_sparql_query false one_server tiny_graph open_network insertion_std_sort sample_strings
    (λ _ _, None) (λ _, []) [idle_engine] 0 0 r = Ok [e'] ∧
  @all_msgs open_network e' ≡ₚ [MkMessage 0 0 m] ∧ result_table (result m) = concat sols ∧ [131073; 131072]%Z ∈ sols.
Proof.
  destruct (@text_answered false one_server tiny_graph tiny_graph_ok open_network insertion_std_sort sample_strings
    (λ _ _, None) (λ _, []) sample_select idle_proxy [idle_engine] 0 0 idle_engine one_server_ok eq_refl eq_refl sample_fit
    sample_answerable sample_coder eq_refl eq_refl) as (request & r & sols & m & e' & _ & _ & Hs & E & Hm & Ht & _).
  exists r, m, e', sols. split; [exact E|]. split; [exact Hm|]. split; [exact Ht|]. apply Hs.
  exists (λ x, if String.eqb x "X" then 131072%Z else 131073%Z). split; [|split; [|reflexivity]].
  - intros x. unfold is_sid. cbv beta. destruct (String.eqb x "X"); lia.
  - intros [|[|i]] p Hi; simpl in Hi; [..|done]; injection Hi as <-; vm_compute; left.
Defined.
