(* ===== verification/Mem.v ===== *)
(** [core/mem.hpp]: the memory layout of a server, kvstore | rdma-buffer |
    ring-buffer | local heads | remote heads. *)

From S2P Require Import Prelude.

Definition KiB2B (x : Z) : Z := u64 (x * 1024).
Definition MiB2B (x : Z) : Z := u64 (KiB2B x * 1024).
Definition GiB2B (x : Z) : Z := u64 (MiB2B x * 1024).

Record Mem := MkMem {
  num_servers : Z; num_threads : Z;
  mem_sz : Z;
  kvs_sz : Z; kvs_off : Z;
  buf_sz : Z; buf_off : Z;          (* #threads *)
  rbf_sz : Z; rbf_off : Z;          (* #threads x #servers *)
  lrbf_hd_sz : Z; lrbf_hd_off : Z;  (* #threads x #servers *)
  rrbf_hd_sz : Z; rrbf_hd_off : Z   (* #threads x #servers *)
}.

(** the constructor, with the settings [memstore_size_gb], [rdma_buf_size_mb] and
    [rdma_rbf_size_mb] *)
Definition new_mem (has_rdma : bool) (memstore_gb buf_mb rbf_mb : Z) (num_servers num_threads : Z) : Mem :=
  let kvs_sz := GiB2B memstore_gb in
  let buf_sz := if has_rdma then MiB2B buf_mb else 0 in
  let rbf_sz := if has_rdma then MiB2B rbf_mb else 0 in
  let hd_sz := 8 in
  let mem_sz := u64 (kvs_sz + buf_sz * num_threads + rbf_sz * num_servers * num_threads
                     + hd_sz * num_servers * num_threads + hd_sz * num_servers * num_threads) in
  let kvs_off := 0 in
  let buf_off := u64 (kvs_off + kvs_sz) in
  let rbf_off := u64 (buf_off + buf_sz * num_threads) in
  let lrbf_hd_off := u64 (rbf_off + rbf_sz * num_servers * num_threads) in
  let rrbf_hd_off := u64 (lrbf_hd_off + hd_sz * num_servers * num_threads) in
  MkMem num_servers num_threads mem_sz kvs_sz kvs_off buf_sz buf_off rbf_sz rbf_off
    hd_sz lrbf_hd_off hd_sz rrbf_hd_off.

Definition buffer_offset (m : Mem) (tid : Z) : Z := u64 (buf_off m + buf_sz m * tid).
Definition ring_offset (m : Mem) (tid sid : Z) : Z :=
  u64 (rbf_off m + rbf_sz m * num_servers m * tid + rbf_sz m * sid).
Definition local_ring_head_offset (m : Mem) (tid sid : Z) : Z :=
  u64 (lrbf_hd_off m + lrbf_hd_sz m * num_servers m * tid + lrbf_hd_sz m * sid).
Definition remote_ring_head_offset (m : Mem) (tid sid : Z) : Z :=
  u64 (rrbf_hd_off m + rrbf_hd_sz m * num_servers m * tid + rrbf_hd_sz m * sid).

(** ** The blocks do not overlap *)

Inductive block :=
| Kvstore
| Buffer (tid : Z)
| Rbf (tid sid : Z)
| LocalHead (tid sid : Z)
| RemoteHead (tid sid : Z).

Definition block_off (m : Mem) (b : block) : Z :=
  match b with
  | Kvstore => kvs_off m
  | Buffer tid => buffer_offset m tid
  | Rbf tid sid => ring_offset m tid sid
  | LocalHead tid sid => local_ring_head_offset m tid sid
  | RemoteHead tid sid => remote_ring_head_offset m tid sid
  end.
Definition block_sz (m : Mem) (b : block) : Z :=
  match b with
  | Kvstore => kvs_sz m
  | Buffer _ => buf_sz m
  | Rbf _ _ => rbf_sz m
  | LocalHead _ _ => lrbf_hd_sz m
  | RemoteHead _ _ => rrbf_hd_sz m
  end.

Definition valid_block (m : Mem) (b : block) : Prop :=
  match b with
  | Kvstore => True
  | Buffer tid => 0 <= tid < num_threads m
  | Rbf tid sid | LocalHead tid sid | RemoteHead tid sid => 0 <= tid < num_threads m ∧ 0 <= sid < num_servers m
  end.

(** the bytes a server asks for, without wrap-around *)
Definition wanted (has_rdma : bool) (memstore_gb buf_mb rbf_mb num_servers num_threads : Z) : Z :=
  memstore_gb * 2 ^ 30 + (if has_rdma then buf_mb * 2 ^ 20 else 0) * num_threads
  + (if has_rdma then rbf_mb * 2 ^ 20 else 0) * (num_servers * num_threads) + 16 * (num_servers * num_threads).

(** the block [i] of an array of [count] blocks at [base] *)
Lemma array_block base sz count i : 0 <= base → 0 <= sz → 0 <= i < count →
  base <= base + sz * i ∧ base + sz * i + sz <= base + sz * count.
Proof. intros. nia. Qed.

Lemma array_disjoint sz i j : 0 <= sz → i ≠ j → sz * i + sz <= sz * j ∨ sz * j + sz <= sz * i.
Proof. intros. destruct (Z.lt_trichotomy i j) as [|[|]]; [left|done|right]; nia. Qed.

Lemma index_bound S T t s : 0 <= t < T → 0 <= s < S → 0 <= t * S + s < S * T.
Proof. intros. nia. Qed.

Lemma index_inj S t s t' s' : 0 <= s < S → 0 <= s' < S → t * S + s = t' * S + s' → t = t' ∧ s = s'.
Proof.
  intros Hs Hs' E. assert (t = t') as ->; [|lia].
  etrans; [apply (Z.div_unique (t * S + s) S t s); lia|symmetry; apply (Z.div_unique _ S t' s'); lia].
Qed.

Section layout.
  Context (has_rdma : bool) (gb bmb rmb S T : Z).
  Hypothesis Hgb : 0 < gb. Hypothesis Hbmb : 0 < bmb. Hypothesis Hrmb : 0 < rmb.
  Hypothesis HS : 0 < S. Hypothesis HT : 0 < T.
  Hypothesis Hmax : wanted has_rdma gb bmb rmb S T < 2 ^ 64.
Let m := new_mem has_rdma gb bmb rmb S T.
Let bsz := if has_rdma then bmb * 2 ^ 20 else 0.
Let rsz := if has_rdma then rmb * 2 ^ 20 else 0.

(** the offset and the size of a block, computed without wrap-around *)
Definition plain_block (b : block) : Z * Z :=
  let o1 := gb * 2 ^ 30 in
  let o2 := o1 + bsz * T in
  let o3 := o2 + rsz * (S * T) in
  let o4 := o3 + 8 * (S * T) in
  match b with
  | Kvstore => (0, gb * 2 ^ 30)
  | Buffer tid => (o1 + bsz * tid, bsz)
  | Rbf tid sid => (o2 + rsz * (tid * S + sid), rsz)
  | LocalHead tid sid => (o3 + 8 * (tid * S + sid), 8)
  | RemoteHead tid sid => (o4 + 8 * (tid * S + sid), 8)
  end.

Lemma sizes_ok : 0 <= bsz ∧ 0 <= rsz ∧ 0 < S * T ∧ 0 <= bsz * T ∧ 0 <= rsz * (S * T) ∧
  gb * 2 ^ 30 + bsz * T + rsz * (S * T) + 16 * (S * T) < 2 ^ 64.
Proof. unfold wanted in Hmax. fold bsz rsz in Hmax. assert (0 <= bsz ∧ 0 <= rsz) by (unfold bsz, rsz; destruct has_rdma; lia). nia. Qed.

Lemma new_mem_eq : kvs_sz m = gb * 2 ^ 30 ∧ buf_sz m = bsz ∧ rbf_sz m = rsz ∧
  buf_off m = gb * 2 ^ 30 ∧ rbf_off m = gb * 2 ^ 30 + bsz * T ∧
  lrbf_hd_off m = gb * 2 ^ 30 + bsz * T + rsz * (S * T) ∧
  rrbf_hd_off m = gb * 2 ^ 30 + bsz * T + rsz * (S * T) + 8 * (S * T) ∧
  mem_sz m = gb * 2 ^ 30 + bsz * T + rsz * (S * T) + 16 * (S * T).
Proof.
  destruct sizes_ok as (Hb & Hr & HST & HbT & HrT & Hm).
  assert (Hmib : ∀ x, 0 <= x * 2 ^ 20 < 2 ^ 64 → MiB2B x = x * 2 ^ 20).
  { intros x Hx. unfold MiB2B, KiB2B. rewrite (u64_id (x * 1024)) by lia. rewrite u64_id by lia. lia. }
  assert (E1 : GiB2B gb = gb * 2 ^ 30) by (unfold GiB2B; rewrite Hmib by lia; rewrite u64_id by lia; lia).
  assert (bsz <= bsz * T ∧ rsz <= rsz * (S * T)) as [Hb1 Hr1] by nia.
  assert (E2 : (if has_rdma then MiB2B bmb else 0) = bsz) by (unfold bsz in *; destruct has_rdma; [apply Hmib; lia|done]).
  assert (E3 : (if has_rdma then MiB2B rmb else 0) = rsz) by (unfold rsz in *; destruct has_rdma; [apply Hmib; lia|done]).
  unfold m, new_mem. cbn [kvs_sz buf_sz rbf_sz buf_off rbf_off lrbf_hd_off rrbf_hd_off mem_sz].
  rewrite E1, E2, E3. rewrite (u64_id (0 + gb * 2 ^ 30)) by lia. rewrite (u64_id (0 + gb * 2 ^ 30 + bsz * T)) by lia.
  rewrite <-!Z.mul_assoc. rewrite (u64_id (0 + _ + _ + _)) by lia. rewrite !u64_id by lia. split_and!; lia.
Qed.

Lemma block_plain b : valid_block m b → (block_off m b, block_sz m b) = plain_block b.
Proof.
  destruct new_mem_eq as (E1 & E2 & E3 & E4 & E5 & E6 & E7 & E8). destruct sizes_ok as (Hb & Hr & HST & HbT & HrT & Hm).
  change (num_servers m) with S. destruct b as [|t|t s|t s|t s]; cbn [valid_block block_off block_sz plain_block];
    change (num_threads m) with T; change (num_servers m) with S.
  - by rewrite E1.
  - intros Ht. unfold buffer_offset. rewrite E2, E4, u64_id; [done|]. pose proof (array_block 0 bsz T t). lia.
  - intros [Ht Hs]. unfold ring_offset. change (num_servers m) with S. rewrite E3, E5.
    pose proof (index_bound S T t s Ht Hs). pose proof (array_block 0 rsz (S * T) (t * S + s)).
    rewrite u64_id by lia. f_equal. lia.
  - intros [Ht Hs]. unfold local_ring_head_offset. change (num_servers m) with S. change (lrbf_hd_sz m) with 8. rewrite E6.
    pose proof (index_bound S T t s Ht Hs). rewrite u64_id by lia. f_equal. lia.
  - intros [Ht Hs]. unfold remote_ring_head_offset. change (num_servers m) with S. change (rrbf_hd_sz m) with 8. rewrite E7.
    pose proof (index_bound S T t s Ht Hs). rewrite u64_id by lia. f_equal. lia.
Qed.

(** the part of the memory that holds the blocks of a kind *)
Definition region (b : block) : Z * Z :=
  let o1 := gb * 2 ^ 30 in
  let o2 := o1 + bsz * T in
  let o3 := o2 + rsz * (S * T) in
  let o4 := o3 + 8 * (S * T) in
  match b with
  | Kvstore => (0, o1)
  | Buffer _ => (o1, o2)
  | Rbf _ _ => (o2, o3)
  | LocalHead _ _ => (o3, o4)
  | RemoteHead _ _ => (o4, o4 + 8 * (S * T))
  end.

Lemma plain_region b : valid_block m b →
  (region b).1 <= (plain_block b).1 ∧ (plain_block b).1 + (plain_block b).2 <= (region b).2.
Proof.
  destruct sizes_ok as (Hb & Hr & HST & HbT & HrT & Hm).
  destruct b as [|t|t s|t s|t s]; cbn [valid_block plain_block region fst snd]; change (num_threads m) with T; change (num_servers m) with S.
  - lia.
  - intros Ht. pose proof (array_block 0 bsz T t). lia.
  - intros [Ht Hs]. pose proof (index_bound S T t s Ht Hs). pose proof (array_block 0 rsz (S * T) (t * S + s)). lia.
  - intros [Ht Hs]. pose proof (index_bound S T t s Ht Hs). lia.
  - intros [Ht Hs]. pose proof (index_bound S T t s Ht Hs). lia.
Qed.

Lemma plain_bounds b : valid_block m b →
  0 <= (plain_block b).1 ∧ (plain_block b).1 + (plain_block b).2 <= gb * 2 ^ 30 + bsz * T + rsz * (S * T) + 16 * (S * T).
Proof.
  intros Hv. pose proof (plain_region b Hv) as Hr. destruct sizes_ok as (_ & _ & HST & HbT & HrT & Hm).
  destruct b; cbn [region fst snd] in Hr; lia.
Qed.

Lemma plain_disjoint b b' : valid_block m b → valid_block m b' → b ≠ b' →
  let '(o, z) := plain_block b in let '(o', z') := plain_block b' in o + z <= o' ∨ o' + z' <= o.
Proof.
  destruct sizes_ok as (Hb & Hr & HST & HbT & HrT & Hm). intros Hv Hv' Hne.
  pose proof (plain_region b Hv) as Hreg. pose proof (plain_region b' Hv') as Hreg'.
  assert (Hidx : ∀ t s t' s', 0 <= s < S → 0 <= s' < S → (t, s) ≠ (t', s') → t * S + s ≠ t' * S + s').
  { intros t s t' s' Hs Hs' Hn E. apply Hn. by destruct (index_inj S t s t' s' Hs Hs' E) as [-> ->]. }
  destruct b as [|t|t s|t s|t s], b' as [|t'|t' s'|t' s'|t' s']; cbn [valid_block plain_block region fst snd] in *;
    change (num_threads m) with T in *; change (num_servers m) with S in *; try done; try lia.
  - destruct (array_disjoint bsz t t') as [|]; [done|congruence|lia|lia].
  - destruct (array_disjoint rsz (t * S + s) (t' * S + s')) as [|]; [done|apply Hidx; [lia|lia|congruence]|lia|lia].
  - assert (t * S + s ≠ t' * S + s') by (apply Hidx; [lia|lia|congruence]). lia.
  - assert (t * S + s ≠ t' * S + s') by (apply Hidx; [lia|lia|congruence]). lia.
Qed.

(** C38: the kvstore, the RDMA buffers of the threads, the ring buffers and the copies
    of their heads lie within the memory of a server, and no two of them overlap,
    whenever the sum of their sizes is below 2^64. *)
Theorem mem_layout (b b' : block) :
  valid_block m b → valid_block m b' →
  0 <= block_off m b ∧ block_off m b + block_sz m b <= mem_sz m ∧
  (b ≠ b' → block_off m b + block_sz m b <= block_off m b' ∨ block_off m b' + block_sz m b' <= block_off m b).
Proof.
  intros Hv Hv'. destruct new_mem_eq as (_ & _ & _ & _ & _ & _ & _ & E).
  pose proof (plain_bounds b Hv) as Hb. pose proof (plain_disjoint b b' Hv Hv') as Hd.
  rewrite <-(block_plain b Hv) in Hb, Hd. rewrite <-(block_plain b' Hv') in Hd. rewrite E. simpl in *.
  split_and!; [lia|lia|exact Hd].
Qed.
End layout.

Lemma mem_layout_witness :
  let m := new_mem true 20 64 16 2 4 in
  block_off m (Rbf 3 1) + block_sz m (Rbf 3 1) <= block_off m (LocalHead 0 0) ∨
  block_off m (LocalHead 0 0) + block_sz m (LocalHead 0 0) <= block_off m (Rbf 3 1).
Proof.
  apply (mem_layout true 20 64 16 2 4 ltac:(lia) ltac:(lia) ltac:(lia) ltac:(lia) ltac:(lia) ltac:(vm_compute; reflexivity)
    (Rbf 3 1) (LocalHead 0 0)); [vm_compute; intuition discriminate|vm_compute; intuition discriminate|discriminate].
Defined.
