(* ===== verification/Ring.v ===== *)
(** [core/rdma_adaptor.hpp]: the ring buffers under the RDMA adaptor.

    One physical queue is a ring of [rbf_sz] bytes with the tail of its writers, the
    head of its reader and two copies of the head, one at the reader and one pushed
    to the writers. A message is [size | data | size], padded to 8 bytes. Writers
    reserve their place under a lock and then write without it, so that the writes
    of several messages and the reads interleave: a writer is the list of the writes
    it has still to do, in their order, and every single write is a step. The bytes
    of a message become visible in the order of the writes. *)

From S2P Require Import Prelude.

(** ** Bytes *)

(** the bytes of a [uint64_t] on a little-endian machine *)
Definition le64 (x : Z) : list Z :=
  (λ i, Z.land (Z.shiftr x (8 * Z.of_nat i)) 255) <$> seq 0 8.
Definition un64 (bs : list Z) : Z := foldr (λ b acc, b + 256 * acc) 0 bs.

Definition read_bytes (m : list Z) (p len : nat) : outcome (list Z) :=
  if bool_decide (p + len <= length m)%nat then Ok (take len (drop p m)) else Err OutOfBounds.
Definition write_bytes (m : list Z) (p : nat) (bs : list Z) : outcome (list Z) :=
  if bool_decide (p + length bs <= length m)%nat
  then Ok (take p m ++ bs ++ drop (p + length bs) m) else Err OutOfBounds.
Definition memset (m : list Z) (p : nat) (c : Z) (len : nat) : outcome (list Z) :=
  write_bytes m p (replicate len c).
Definition read_u64 (m : list Z) (p : nat) : outcome Z :=
  bs ← read_bytes m p 8; Ok (un64 bs).

(** align a value up *)
Definition ceil (val alignment : Z) : outcome Z :=
  ASSERT (negb (alignment =? 0));
  Ok (if val mod alignment =? 0 then val else u64 (val - val mod alignment + alignment)).

(** what an attempt to receive gives: nothing there, a message whose footer the
    reader still waits for, or a message *)
Inductive received (S : Type) :=
| RNone
| RSpin
| RGot (data : list Z) (s : S).
Arguments RNone {S}.
Arguments RSpin {S}.
Arguments RGot {S} data s.

(** ** One physical queue *)

Section ring.
  Context (rbf_sz : Z).

Record rbf := MkRbf {
  rb_mem : list Z;
  rb_tail : Z;                            (* rmeta.tail *)
  rb_head : Z;                            (* lmeta.head *)
  rb_lhd : Z;                             (* local_ring_head, at the reader *)
  rb_rhd : Z;                             (* remote_ring_head, at the writers *)
  rb_writers : list (list (nat * list Z)) (* the writes that each sender has still to do *)
}.

Definition new_rbf : rbf := MkRbf (replicate (Z.to_nat rbf_sz) 0) 0 0 0 0 [].

Definition pos (off : Z) : nat := Z.to_nat (off mod rbf_sz).

(** is there data? *)
Definition check (s : rbf) : outcome bool :=
  data_sz ← read_u64 (rb_mem s) (pos (rb_head s)); Ok (negb (data_sz =? 0)).

(** actually read data, and clean it *)
Definition read_data (m : list Z) (start end_ len : nat) (c : Z) : outcome (list Z * list Z) :=
  if (start <? end_)%nat then
    bs ← read_bytes m start len;
    m ← memset m start 0 (Z.to_nat c);
    Ok (bs, m)
  else (* overwrite from the start *)
    b1 ← read_bytes m start (len - end_);
    b2 ← read_bytes m 0 end_;
    m ← memset m start 0 (len - end_);
    ce ← ceil (Z.of_nat end_) 8;
    m ← memset m 0 0 (Z.to_nat ce);
    Ok (b1 ++ b2, m).

(** take the next message. While the footer is not there the reader spins; it has
    cleaned the header by then, which no writer looks at, so the state of [RSpin] is
    the one before. *)
Definition fetch (s : rbf) : outcome (received rbf) :=
  let head := rb_head s in
  data_sz ← read_u64 (rb_mem s) (pos head); (* header *)
  m ← write_bytes (rb_mem s) (pos head) (le64 0);
  c ← ceil data_sz 8;
  let to_footer := u64 (8 + c) in
  let fpos := pos (u64 (head + to_footer)) in
  footer ← read_u64 m fpos;
  if negb (footer =? data_sz) then
    ASSERT (footer =? 0);
    Ok RSpin (* spin-wait RDMA-WRITE done *)
  else
  m ← write_bytes m fpos (le64 0); (* clean footer *)
  let start := pos (u64 (head + 8)) in
  let end_ := pos (u64 (head + 8 + data_sz)) in
  '(res, m) ← read_data m start end_ (Z.to_nat data_sz) c;
  let head := u64 (head + u64 (2 * 8 + c)) in
  (* update heads of ring buffer to writer to help it detect overflow *)
  let threshold := rbf_sz / 8 in
  let push := threshold <? u64 (head - rb_lhd s) in
  Ok (RGot res (MkRbf m (rb_tail s) head (if push then head else rb_lhd s)
              (if push then head else rb_rhd s) (rb_writers s))).

(** does the message overflow the ring? *)
Definition rbf_full (s : rbf) (msg_sz : Z) : bool :=
  rbf_sz <? u64 (rb_tail s - rb_rhd s + msg_sz).

(** the writes of a sender on the server of the ring *)
Definition local_writes (off : Z) (data : list Z) (c : Z) : list (nat * list Z) :=
  let data_sz := Z.of_nat (length data) in
  let hdr := (pos off, le64 data_sz) in
  let off := u64 (off + 8) in
  let body :=
    if off / rbf_sz =? u64 (off + data_sz - 1) / rbf_sz then [(pos off, data)]
    else
      let sz := Z.to_nat (rbf_sz - off mod rbf_sz) in
      [(pos off, take sz data); (0%nat, drop sz data)] in
  let off := u64 (off + c) in
  hdr :: body ++ [(pos off, le64 data_sz)].

(** an RDMA write of [k] words: it becomes visible word by word, in the order of the
    addresses, which is what a receiver that waits for the footer relies on *)
Fixpoint rdma_write (k p : nat) (bs : list Z) : list (nat * list Z) :=
  match k with
  | O => []
  | S k => (p, take 8 bs) :: rdma_write k (p + 8) (drop 8 bs)
  end.

(** the writes of a sender on another server: one or two RDMA writes from a buffer
    that holds the old bytes [old] in the padding *)
Definition remote_writes (off : Z) (data old : list Z) (c msg_sz : Z) : list (nat * list Z) :=
  let data_sz := Z.of_nat (length data) in
  let buf := le64 data_sz ++ data ++ take (Z.to_nat c - length data) old ++ le64 data_sz in
  if off / rbf_sz =? u64 (off + msg_sz - 1) / rbf_sz then rdma_write (length buf / 8) (pos off) buf
  else
    let sz := Z.to_nat (rbf_sz - off mod rbf_sz) in
    rdma_write (sz / 8) (pos off) (take sz buf) ++ rdma_write ((length buf - sz) / 8) 0 (drop sz buf).

(** a sender: on the server of the ring, or on another one with the bytes that its
    RDMA buffer holds *)
Inductive sender := Local | Remote (buf_sz : Z) (old : list Z).

(** reserve the place of a message; [false]: refused *)
Definition send (s : rbf) (w : sender) (data : list Z) : outcome (bool * rbf) :=
  let data_sz := Z.of_nat (length data) in
  c ← ceil data_sz 8;
  let msg_sz := u64 (8 + c + 8) in
  ASSERT (msg_sz <? rbf_sz);
  if rbf_full s msg_sz then Ok (false, s) (* detect overflow *)
  else
    let off := rb_tail s in
    ws ← (match w with
          | Local => Ok (local_writes off data c)
          | Remote buf_sz old =>
              ASSERT (msg_sz <? buf_sz); (* enough space to buffer the msg *)
              Ok (remote_writes off data old c msg_sz)
          end);
    Ok (true, MkRbf (rb_mem s) (u64 (rb_tail s + msg_sz)) (rb_head s) (rb_lhd s) (rb_rhd s)
                (rb_writers s ++ [ws])).

(** the sender [i] does its next write *)
Definition advance (s : rbf) (i : nat) : outcome rbf :=
  match rb_writers s !! i with
  | Some ((p, bs) :: ws) =>
      m ← write_bytes (rb_mem s) p bs;
      Ok (MkRbf m (rb_tail s) (rb_head s) (rb_lhd s) (rb_rhd s) (<[i := ws]> (rb_writers s)))
  | _ => Ok s
  end.

(** [if (check(...)) return fetch(...)] *)
Definition receive_one (s : rbf) : outcome (received rbf) :=
  b ← check s; if b : bool then fetch s else Ok RNone.
End ring.

(** ** The queues of a thread *)

(** check all physical queues of a thread once *)
Fixpoint tryrecv (rbf_sz : Z) (queues : list rbf) : outcome (received (list rbf)) :=
  match queues with
  | [] => Ok RNone
  | s :: queues =>
      r ← receive_one rbf_sz s;
      match r with
      | RGot data s => Ok (RGot data (s :: queues))
      | RSpin => Ok RSpin
      | RNone =>
          r ← tryrecv rbf_sz queues;
          Ok (match r with RGot data queues => RGot data (s :: queues) | r => r end)
      end
  end.

(** the queues in turn; [rr_cnt] counts the queues looked at *)
Fixpoint recv (fuel : nat) (rbf_sz : Z) (rr_cnt : Z) (queues : list rbf)
    : outcome (received (Z * list rbf)) :=
  match fuel with
  | O => Err OutOfFuel
  | S fuel =>
      let dst_sid := Z.to_nat (rr_cnt mod Z.of_nat (length queues)) in
      let rr_cnt := u64 (rr_cnt + 1) in
      s ← read queues dst_sid;
      r ← receive_one rbf_sz s;
      match r with
      | RGot data s => queues ← write queues dst_sid s; Ok (RGot data (rr_cnt, queues))
      | RSpin => Ok RSpin
      | RNone => recv fuel rbf_sz rr_cnt queues
      end
  end.
