(* ===== verification/RingFifo.v ===== *)
(** The ring buffer of [core/rdma_adaptor.hpp] is a queue: under every interleaving
    of its writers and its reader the messages are received whole and in the order
    of their reservation. *)

From S2P Require Import Prelude Ring.

(** arithmetic with division by 8, in [nat] and [Z] *)
Ltac mod8 := zify; Z.to_euclidean_division_equations; lia.

(** ** Bytes and windows *)

Lemma length_le64 x : length (le64 x) = 8%nat.
Proof. done. Qed.

Lemma un64_le64 x : 0 <= x < 2 ^ 64 → un64 (le64 x) = x.
Proof.
  intros Hx. unfold le64, un64. cbn [fmap list_fmap seq foldr].
  change 255 with (Z.ones 8). rewrite !Z.land_ones, !Z.shiftr_div_pow2 by lia.
  Z.to_euclidean_division_equations. lia.
Qed.

Lemma un64_zero : un64 (le64 0) = 0.
Proof. reflexivity. Qed.

Lemma le64_zero : le64 0 = replicate 8 0.
Proof. reflexivity. Qed.

(** the data of a message, padded to words *)
Definition padded (x : Z) : Z := 8 * ((x + 7) / 8).
Definition msg_size (data : list Z) : Z := 16 + padded (Z.of_nat (length data)).

Lemma padded_range x : padded x mod 8 = 0 ∧ x <= padded x < x + 8.
Proof. unfold padded. split; [rewrite Z.mul_comm; apply Z.mod_mul; lia|]. Z.to_euclidean_division_equations; lia. Qed.

Lemma ceil8 x : 0 <= x < 2 ^ 63 → ceil x 8 = Ok (padded x).
Proof.
  intros Hx. unfold ceil. cbn [Z.eqb negb assert_that mbind outcome_bind]. f_equal.
  destruct (padded_range x) as [H1 H2]. destruct (Z.eqb_spec (x mod 8) 0).
  - Z.to_euclidean_division_equations; lia.
  - rewrite u64_id; Z.to_euclidean_division_equations; lia.
Qed.

Lemma write_bytes_lookup m p bs m' : write_bytes m p bs = Ok m' →
  length m' = length m ∧ ∀ i, m' !! i = if decide (p <= i < p + length bs)%nat then bs !! (i - p)%nat else m !! i.
Proof.
  unfold write_bytes. case_bool_decide as Hlt; [|done]. intros [= <-]. split.
  - rewrite !length_app, length_take, length_drop. lia.
  - intros i. destruct (decide (i < p)%nat).
    + rewrite decide_False by lia. rewrite lookup_app_l by (rewrite length_take; lia). by apply lookup_take_lt.
    + rewrite lookup_app_r by (rewrite length_take; lia). rewrite length_take, Nat.min_l by lia.
      destruct (decide (i < p + length bs)%nat).
      * rewrite decide_True by lia. by rewrite lookup_app_l by lia.
      * rewrite decide_False by lia. rewrite lookup_app_r by lia. rewrite lookup_drop. f_equal. lia.
Qed.

Section fifo.
  Context (n : Z).
  Hypothesis n_pos : 8 <= n < 2 ^ 63.
  Hypothesis n_words : n mod 8 = 0.

  Local Abbreviation pos := (Ring.pos n).

(** the byte at an offset that is not reduced *)
Definition at_off (m : list Z) (a : Z) : Z := default 0 (m !! pos a).
Definition cells (m : list Z) (o : Z) (len : nat) : list Z := (λ i, at_off m (o + Z.of_nat i)) <$> seq 0 len.

Lemma pos_lt a : Z.of_nat (pos a) < n.
Proof. unfold Ring.pos. pose proof (Z.mod_pos_bound a n). lia. Qed.

Lemma pos_add o i : 0 <= i → Z.of_nat (pos o) + i < n → Z.of_nat (pos (o + i)) = Z.of_nat (pos o) + i.
Proof.
  unfold Ring.pos. pose proof (Z.mod_pos_bound o n) as Ho. intros Hi. rewrite Z2Nat.id by lia. intros Hlt.
  rewrite <-Zplus_mod_idemp_l, Z.mod_small by lia. lia.
Qed.

(** [a] lies in a write at [o] exactly when its position lies in the bytes written *)
Lemma pos_window h o a len : 0 <= len →
  h <= o → o + len <= h + n → h <= a < h + n → Z.of_nat (pos o) + len <= n →
  (Z.of_nat (pos o) <= Z.of_nat (pos a) < Z.of_nat (pos o) + len ↔ o <= a < o + len) ∧
  (o <= a < o + len → Z.of_nat (pos a) - Z.of_nat (pos o) = a - o).
Proof.
  intros Hlen Ho Hol Ha Hp. unfold Ring.pos in *. pose proof (Z.mod_pos_bound o n ltac:(lia)). pose proof (Z.mod_pos_bound a n ltac:(lia)).
  rewrite !Z2Nat.id in * by lia.
  pose proof (Z.div_mod o n ltac:(lia)) as Eo. pose proof (Z.div_mod a n ltac:(lia)) as Ea.
  set (qo := o / n) in *. set (qa := a / n) in *. set (ro := o mod n) in *. set (ra := a mod n) in *.
  assert (- 2 * n < n * (qa - qo) < 2 * n) as Hq by lia. assert (- 2 < qa - qo < 2) by nia. clearbody qo qa ro ra.
  assert (qa = qo ∨ qa = qo + 1 ∨ qa = qo - 1) as [-> | [-> | ->]] by lia; split; lia.
Qed.

Lemma write_window m h o bs :
  Z.of_nat (length m) = n → h <= o → o + Z.of_nat (length bs) <= h + n →
  Z.of_nat (pos o) + Z.of_nat (length bs) <= n →
  ∃ m', write_bytes m (pos o) bs = Ok m' ∧ Z.of_nat (length m') = n ∧
    ∀ a, h <= a < h + n → at_off m' a =
      if decide (o <= a < o + Z.of_nat (length bs)) then default 0 (bs !! Z.to_nat (a - o)) else at_off m a.
Proof.
  intros Hm Ho Hol Hp. destruct (write_bytes m (pos o) bs) as [m'|] eqn:E.
  2:{ unfold write_bytes in E. case_bool_decide as Hb; [done|]. lia. }
  destruct (write_bytes_lookup _ _ _ _ E) as [Hl Hi]. exists m'. split; [done|]. split; [lia|].
  intros a Ha. unfold at_off. rewrite Hi. destruct (pos_window h o a (Z.of_nat (length bs)) ltac:(lia) Ho Hol Ha Hp) as [Hiff Hd].
  destruct (decide (o <= a < _)) as [Hin|Hin].
  - rewrite decide_True by lia. do 2 f_equal. specialize (Hd Hin). lia.
  - rewrite decide_False; [done|]. intros Hc. apply Hin, Hiff. lia.
Qed.

Lemma memset_window m h o len :
  Z.of_nat (length m) = n → h <= o → o + Z.of_nat len <= h + n → Z.of_nat (pos o) + Z.of_nat len <= n →
  ∃ m', memset m (pos o) 0 len = Ok m' ∧ Z.of_nat (length m') = n ∧
    ∀ a, h <= a < h + n → at_off m' a = if decide (o <= a < o + Z.of_nat len) then 0 else at_off m a.
Proof.
  intros Hm Ho Hol Hp. destruct (write_window m h o (replicate len 0)) as (m' & E & Hl & Ha); rewrite ?length_replicate; try done.
  exists m'. split_and!; [done|done|]. intros a Hw. rewrite Ha, length_replicate by done.
  destruct (decide _) as [Hin|]; [|done]. by rewrite lookup_replicate_2 by lia.
Qed.

Lemma read_window m o len :
  Z.of_nat (length m) = n → Z.of_nat (pos o) + Z.of_nat len <= n →
  read_bytes m (pos o) len = Ok (cells m o len).
Proof.
  intros Hm Hp. unfold read_bytes. rewrite bool_decide_true by lia. f_equal. unfold cells.
  apply list_eq. intros i. rewrite list_lookup_fmap. destruct (decide (i < len)%nat) as [Hi|Hi].
  - rewrite lookup_take_lt, lookup_drop, lookup_seq_lt by done. simpl. unfold at_off.
    pose proof (pos_add o (Z.of_nat i)) as Hpa. replace (pos (o + Z.of_nat i)) with (pos o + i)%nat by lia.
    destruct (lookup_lt_is_Some_2 m (pos o + i)) as [x Hx]; [lia|]. by rewrite Hx.
  - rewrite lookup_take_ge by lia. by rewrite lookup_seq_ge by lia.
Qed.

Lemma cells_list m o l : (∀ i, (i < length l)%nat → at_off m (o + Z.of_nat i) = default 0 (l !! i)) →
  cells m o (length l) = l.
Proof.
  intros Hi. apply list_eq. intros i. unfold cells. rewrite list_lookup_fmap.
  destruct (decide (i < length l)%nat) as [Hlt|Hge].
  - rewrite lookup_seq_lt by done. simpl. rewrite Hi by done. by destruct (lookup_lt_is_Some_2 l i Hlt) as [x ->].
  - rewrite lookup_seq_ge by lia. by rewrite lookup_ge_None_2 by lia.
Qed.

  (** ** Messages in the ring *)

(** the bytes that are visible of an image of which the first [k] are written *)
Definition vis (img : list Z) (k : nat) : list Z := take k img ++ replicate (length img - k) 0.

Lemma length_vis img k : (k <= length img)%nat → length (vis img k) = length img.
Proof. intros Hk. unfold vis. rewrite length_app, length_take, length_replicate. lia. Qed.

Lemma vis_lookup img k i : (k <= length img)%nat →
  default 0 (vis img k !! i) = if decide (i < k)%nat then default 0 (img !! i) else 0.
Proof.
  intros Hk. unfold vis. destruct (decide (i < k)%nat).
  - rewrite lookup_app_l by (rewrite length_take; lia). by rewrite lookup_take_lt.
  - rewrite lookup_app_r by (rewrite length_take; lia). destruct (replicate _ 0 !! _) eqn:E; [|done].
    by apply lookup_replicate_1 in E as [-> _].
Qed.

(** the next write of a sender: the bytes [bs] at [k]; what lies between them and the
    following write at [k'] is zero *)
Definition next_write (img : list Z) (k : nat) (bs : list Z) (k' : nat) : Prop :=
  (k + length bs <= k' <= length img)%nat ∧ (k < k')%nat ∧ Z.of_nat k' mod 8 = 0 ∧
  take (length bs) (drop k img) = bs ∧ (∀ i, (k + length bs <= i < k')%nat → img !! i = Some 0).

Lemma vis_write img k bs k' : next_write img k bs k' → ∀ i,
  default 0 (vis img k' !! i) =
    if decide (k <= i < k + length bs)%nat then default 0 (bs !! (i - k)%nat) else default 0 (vis img k !! i).
Proof.
  intros (Hk & Hlt & _ & Hbs & Hz) i. rewrite !vis_lookup by lia.
  destruct (decide (k <= i < k + length bs)%nat) as [Hi|Hi].
  - rewrite decide_True by lia. rewrite <-Hbs at 1. rewrite lookup_take_lt by lia. rewrite lookup_drop. do 2 f_equal. lia.
  - destruct (decide (i < k)%nat), (decide (i < k')%nat); try lia; try done. rewrite Hz by lia. done.
Qed.

Lemma app3_write (A V V' B bs : list Z) k :
  length V = length V' → (k + length bs <= length V)%nat →
  (∀ i, default 0 (V' !! i) = if decide (k <= i < k + length bs)%nat then default 0 (bs !! (i - k)%nat) else default 0 (V !! i)) →
  ∀ i, default 0 ((A ++ V' ++ B) !! i) =
    if decide (length A + k <= i < length A + k + length bs)%nat
    then default 0 (bs !! (i - (length A + k))%nat) else default 0 ((A ++ V ++ B) !! i).
Proof.
  intros Hl Hk HV i. destruct (decide (i < length A)%nat).
  { rewrite decide_False by lia. by rewrite !lookup_app_l by lia. }
  rewrite !(lookup_app_r A) by lia. destruct (decide (i - length A < length V)%nat).
  - rewrite !lookup_app_l by lia. rewrite HV. destruct (decide (k <= _ < _)%nat) as [Hi|Hi].
    + rewrite decide_True by lia. do 2 f_equal. lia.
    + by rewrite decide_False by lia.
  - rewrite decide_False by lia. rewrite !lookup_app_r by lia. by rewrite Hl.
Qed.

(** the writes left of the image at [off], of which [k] bytes are written *)
Fixpoint pend_ok (off : Z) (img : list Z) (k : nat) (pend : list (nat * list Z)) : Prop :=
  match pend with
  | [] => k = length img
  | (p, bs) :: pend =>
      p = pos (off + Z.of_nat k) ∧ Z.of_nat p + Z.of_nat (length bs) <= n ∧
      ∃ k', next_write img k bs k' ∧ pend_ok off img k' pend
  end.

Definition msg_image (data pad : list Z) : list Z :=
  let sz := le64 (Z.of_nat (length data)) in sz ++ data ++ pad ++ sz.

(** a message in the ring: its data, its image, and what its sender has done *)
Record slot := Slot { sl_data : list Z; sl_img : list Z; sl_k : nat; sl_pend : list (nat * list Z) }.

Record slot_ok (off : Z) (sl : slot) : Prop := {
  so_img : ∃ pad, sl_img sl = msg_image (sl_data sl) pad ∧ Z.of_nat (length (sl_data sl) + length pad) mod 8 = 0 ∧ (length pad < 8)%nat;
  so_data : sl_data sl ≠ [];
  so_size : Z.of_nat (length (sl_img sl)) < n;
  so_k : Z.of_nat (sl_k sl) mod 8 = 0 ∧ (sl_k sl <= length (sl_img sl))%nat;
  so_pend : pend_ok off (sl_img sl) (sl_k sl) (sl_pend sl)
}.

Fixpoint slots_ok (off : Z) (slots : list slot) : Prop :=
  match slots with
  | [] => True
  | sl :: slots => slot_ok off sl ∧ slots_ok (off + Z.of_nat (length (sl_img sl))) slots
  end.

Definition image (slots : list slot) : list Z := concat ((λ sl, vis (sl_img sl) (sl_k sl)) <$> slots).

Lemma image_app s1 s2 : image (s1 ++ s2) = image s1 ++ image s2.
Proof. unfold image. by rewrite fmap_app, concat_app. Qed.

Lemma slots_ok_app off s1 s2 :
  slots_ok off (s1 ++ s2) ↔ slots_ok off s1 ∧ slots_ok (off + Z.of_nat (length (image s1))) s2.
Proof.
  revert off. induction s1 as [|sl s1 IH]; intros off; simpl; [by rewrite Z.add_0_r; naive_solver|].
  rewrite IH. unfold image. simpl. rewrite length_app.
  split.
  - intros (Hsl & H1 & H2). split; [done|]. by rewrite Nat2Z.inj_add, length_vis, Z.add_assoc by apply Hsl.
  - intros ((Hsl & H1) & H2). rewrite Nat2Z.inj_add, length_vis, Z.add_assoc in H2 by apply Hsl. done.
Qed.

(** The ring holds the messages [slots]; [r] messages have been taken out. *)
Record queue (s : rbf) (slots : list slot) (r : nat) : Prop := {
  qu_mem : Z.of_nat (length (rb_mem s)) = n;
  qu_head : 0 <= rb_head s ∧ rb_head s mod 8 = 0;
  qu_tail : rb_tail s = rb_head s + Z.of_nat (length (image slots)) ∧ rb_tail s < 2 ^ 64;
  qu_hds : rb_lhd s = rb_rhd s ∧ 0 <= rb_rhd s <= rb_head s ∧ rb_tail s - rb_rhd s <= n ∧ rb_head s - rb_rhd s <= n / 8;
  qu_slots : slots_ok (rb_head s) slots;
  qu_cells i : Z.of_nat i < n → at_off (rb_mem s) (rb_head s + Z.of_nat i) = default 0 (image slots !! i);
  qu_writers : rb_writers s = replicate r [] ++ (sl_pend <$> slots)
}.

Lemma new_queue : queue (new_rbf n) [] 0.
Proof.
  split; simpl; try done.
  - rewrite length_replicate. lia.
  - split; [done|]. split; [lia|]. split; [lia|]. apply Z.div_pos; lia.
  - intros i Hi. unfold at_off, new_rbf. simpl. destruct (replicate _ 0 !! _) eqn:E; [|done].
    by apply lookup_replicate_1 in E as [-> _].
Qed.

(** *** A sender writes *)

Lemma advance_queue s slots r i : queue s slots r →
  ∃ s' slots', advance s i = Ok s' ∧ queue s' slots' r ∧ sl_data <$> slots' = sl_data <$> slots ∧ rb_tail s' = rb_tail s.
Proof.
  intros Hq. unfold advance. rewrite (qu_writers _ _ _ Hq).
  destruct ((replicate r [] ++ (sl_pend <$> slots)) !! i) as [[|[p bs] pend]|] eqn:Ei; [by exists s, slots| |by exists s, slots].
  apply lookup_app_Some in Ei as [[? _]%lookup_replicate_1|[Hi Ei]]; [done|].
  rewrite length_replicate in Hi, Ei. apply list_lookup_fmap_Some in Ei as (sl & Hpend & Hsl).
  apply list_elem_of_split_length in Hsl as (A & B & -> & HA).
  pose proof (qu_slots _ _ _ Hq) as Hs. apply slots_ok_app in Hs as (HsA & Hok & HsB).
  pose proof (so_pend _ _ Hok) as Hp. rewrite <-Hpend in Hp. destruct Hp as (-> & Hfit & k' & Hnw & Hrest).
  pose proof (qu_tail _ _ _ Hq) as [Ht Ht2]. destruct (qu_hds _ _ _ Hq) as (Hlr & Hrh & Htn & Hh8).
  set (off := rb_head s + Z.of_nat (length (image A))) in *. set (k := sl_k sl) in *.
  assert (Himg : image (A ++ sl :: B) = image A ++ vis (sl_img sl) k ++ image B) by (by rewrite image_app).
  rewrite Himg, !length_app, length_vis in Ht by apply Hok.
  destruct Hnw as (Hk' & Hkk & Hk8 & Hbs & Hz) eqn:Enw. clear Enw.
  destruct (write_window (rb_mem s) (rb_head s) (off + Z.of_nat k) bs (qu_mem _ _ _ Hq)) as (m' & Ew & Hlen & Hm');
    [lia|lia|done|].
  rewrite Ew. cbn [mbind outcome_bind].
  set (sl' := Slot (sl_data sl) (sl_img sl) k' pend).
  assert (Hsl' : slot_ok off sl') by (destruct Hok; split; [done|done|done|split; [exact Hk8|apply Hk']|done]).
  assert (Himg' : image (A ++ sl' :: B) = image A ++ vis (sl_img sl) k' ++ image B) by (by rewrite image_app).
  eexists _, (A ++ sl' :: B). split; [reflexivity|]. split; [|by rewrite !fmap_app]. split; simpl; try done.
  - apply (qu_head _ _ _ Hq).
  - split; [|done]. rewrite Himg', !length_app, length_vis by apply Hsl'. lia.
  - apply slots_ok_app. split; [done|]. by split.
  - intros j Hj. rewrite Hm' by lia. rewrite Himg'.
    rewrite (app3_write (image A) (vis (sl_img sl) k) (vis (sl_img sl) k') (image B) bs k);
      [|rewrite !length_vis; [done|lia|apply Hok]|rewrite length_vis by apply Hok; lia|by apply vis_write].
    rewrite <-Himg, <-(qu_cells _ _ _ Hq) by done.
    destruct (decide (_ <= _ < _)) as [Hin|Hin].
    + rewrite decide_True by lia. do 2 f_equal. lia.
    + by rewrite decide_False by lia.
  - rewrite !fmap_app. rewrite insert_app_r_alt by (rewrite length_replicate; lia). f_equal.
    rewrite length_replicate. simpl. rewrite insert_app_r_alt by (rewrite length_fmap; lia).
    rewrite length_fmap. by replace (i - r - length A)%nat with 0%nat by lia.
Qed.

  (** *** A sender reserves its place *)

Lemma div_fit o d : 0 <= o → 0 < d <= n → (o / n =? (o + d - 1) / n) = (o mod n + d <=? n).
Proof.
  intros Ho Hd. pose proof (Z.mod_pos_bound o n ltac:(lia)) as Hr.
  rewrite (Z.div_mod o n) at 2 by lia. replace (n * (o / n) + o mod n + d - 1) with ((o mod n + d - 1) + (o / n) * n) by lia.
  rewrite Z.div_add by lia. destruct (Z.leb_spec (o mod n + d) n).
  - rewrite (Z.div_small (o mod n + d - 1)) by lia. apply Z.eqb_eq. lia.
  - apply Z.eqb_neq. assert (1 <= (o mod n + d - 1) / n) by (apply Z.div_le_lower_bound; lia). lia.
Qed.

Lemma pos_word o : 0 <= o → o mod 8 = 0 → Z.of_nat (pos o) + 8 <= n ∧ Z.of_nat (pos o) mod 8 = 0.
Proof.
  intros Ho H8. unfold Ring.pos. pose proof (Z.mod_pos_bound o n ltac:(lia)). rewrite Z2Nat.id by lia.
  pose proof (Z.div_mod n 8 ltac:(lia)) as En. pose proof (Z.div_mod o n ltac:(lia)) as Eo.
  assert (o mod n mod 8 = 0) as Hm; [|pose proof (Z.div_mod (o mod n) 8 ltac:(lia)); lia].
  rewrite n_words, Z.add_0_r in En. replace (o mod n) with (o - n * (o / n)) by lia. rewrite En at 1.
  rewrite <-Z.mul_assoc. rewrite Zminus_mod, H8, (Z.mul_comm 8), Z.mod_mul by lia. done.
Qed.

Lemma pos_wrap o : Ring.pos n (o + (n - o mod n)) = 0%nat.
Proof.
  unfold Ring.pos. pose proof (Z.div_mod o n ltac:(lia)) as Eo.
  replace (o + (n - o mod n)) with ((o / n + 1) * n) by lia. by rewrite Z.mod_mul by lia.
Qed.

Lemma slots_len8 off slots : slots_ok off slots → Z.of_nat (length (image slots)) mod 8 = 0.
Proof.
  revert off. induction slots as [|sl slots IH]; intros off; simpl; [done|]. intros [Hok Hs]. specialize (IH _ Hs).
  change (image (sl :: slots)) with (vis (sl_img sl) (sl_k sl) ++ image slots). rewrite length_app, length_vis by apply Hok.
  destruct (so_img _ _ Hok) as (pad & Ei & H8 & _). rewrite Ei. unfold msg_image. rewrite !length_app, !length_le64.
  mod8.
Qed.

Lemma length_msg_image data pad : length (msg_image data pad) = (16 + length data + length pad)%nat.
Proof. unfold msg_image. rewrite !length_app, !length_le64. lia. Qed.

(** a write of a middle part of a list *)
Lemma next_write_app A bs Z' B k' :
  (∀ i, (i < length Z')%nat → Z' !! i = Some 0) → (0 < length bs + length Z')%nat →
  k' = (length A + length bs + length Z')%nat → Z.of_nat k' mod 8 = 0 →
  next_write (A ++ bs ++ Z' ++ B) (length A) bs k'.
Proof.
  intros Hz Hpos -> H8. unfold next_write. split; [rewrite !length_app; lia|]. split; [lia|]. split; [exact H8|]. split.
  - by rewrite drop_app_length, take_app_length.
  - intros i Hi. rewrite !lookup_app_r by lia. rewrite lookup_app_l by lia. apply Hz. lia.
Qed.

Lemma local_pend off data : 0 <= off → off mod 8 = 0 → data ≠ [] → msg_size data < n → off + msg_size data < 2 ^ 64 →
  let c := padded (Z.of_nat (length data)) in
  pend_ok off (msg_image data (replicate (Z.to_nat c - length data) 0)) 0 (local_writes n off data c).
Proof.
  intros Ho H8 Hne Hsz Hmax c. unfold msg_size in *. fold c in Hsz, Hmax.
  destruct (padded_range (Z.of_nat (length data))) as [Hc8 Hc]. fold c in Hc8, Hc.
  set (pad := replicate _ 0). set (sz := le64 (Z.of_nat (length data))). set (img := msg_image data pad).
  assert (Hsz8 : length sz = 8%nat) by done.
  assert (Hpad : length pad = (Z.to_nat c - length data)%nat) by apply length_replicate.
  assert (Hd : (0 < length data)%nat) by (destruct data; simpl; [done|lia]).
  assert (Hzp : ∀ i, (i < length pad)%nat → pad !! i = Some 0) by (intros i Hi; apply lookup_replicate_2; lia).
  assert (Hz0 : ∀ i, (i < length (@nil Z))%nat → (@nil Z) !! i = Some 0) by (intros i Hi; simpl in Hi; lia).
  unfold local_writes. fold sz. rewrite (u64_id (off + 8)), (u64_id (off + 8 + c)), (u64_id (off + 8 + _ - 1)) by lia.
  cbn [pend_ok]. split; [f_equal; lia|]. rewrite Hsz8. split; [by apply pos_word|].
  exists 8%nat. split; [apply (next_write_app [] sz [] (data ++ pad ++ sz) 8); [done|simpl; lia|done|done]|].
  rewrite div_fit by lia. assert (H8' : (off + 8) mod 8 = 0) by (mod8).
  destruct (pos_word (off + 8)) as [Hp1 Hp2]; [lia|done|].
  assert (Hfoot : pend_ok off img (8 + length data + length pad) [(Ring.pos n (off + 8 + c), sz)]).
  { cbn [pend_ok]. split; [f_equal; lia|]. rewrite Hsz8. split; [apply pos_word; [lia|]; mod8|].
    exists (16 + length data + length pad)%nat. split; [|unfold img; by rewrite length_msg_image].
    pose proof (next_write_app (sz ++ data ++ pad) sz [] [] (16 + length data + length pad)) as Hn.
    rewrite !length_app, Hsz8 in Hn. rewrite <-!app_assoc, app_nil_l, app_nil_r in Hn.
    replace (8 + length data + length pad)%nat with (8 + (length data + length pad))%nat by lia.
    apply Hn; [done|simpl; lia|simpl; lia|]. mod8. }
  destruct (Z.leb_spec ((off + 8) mod n + Z.of_nat (length data)) n) as [Hfit|Hwrap].
  - cbn [app pend_ok]. split; [done|]. split; [unfold Ring.pos; rewrite Z2Nat.id; [done|]; apply Z.mod_pos_bound; lia|].
    exists (8 + length data + length pad)%nat. split; [|exact Hfoot].
    pose proof (next_write_app sz data pad sz (8 + length data + length pad)) as Hn. rewrite Hsz8 in Hn.
    apply Hn; [done|lia|lia|]. mod8.
  - set (k := Z.to_nat (n - (off + 8) mod n)). pose proof (Z.mod_pos_bound (off + 8) n ltac:(lia)) as Hmb.
    unfold Ring.pos in Hp1, Hp2. rewrite Z2Nat.id in Hp1, Hp2 by lia.
    assert (Hk8 : Z.of_nat k mod 8 = 0) by (unfold k; mod8).
    assert (Hkl : (8 <= k < length data)%nat) by (unfold k; lia).
    cbn [app pend_ok]. split; [done|]. rewrite length_take, Nat.min_l by lia.
    split; [unfold Ring.pos; rewrite Z2Nat.id by lia; lia|]. exists (8 + k)%nat. split.
    { pose proof (next_write_app sz (take k data) [] (drop k data ++ pad ++ sz) (8 + k)) as Hn.
      rewrite Hsz8, length_take, Nat.min_l in Hn by lia. cbn [app] in Hn.
      rewrite (app_assoc (take k data)), take_drop in Hn. apply Hn; [done|simpl; lia|simpl; lia|].
      mod8. }
    split; [symmetry; etrans; [|apply (pos_wrap (off + 8))]; f_equal; unfold k; lia|]. rewrite length_drop. split; [lia|].
    exists (8 + length data + length pad)%nat. split; [|exact Hfoot].
    pose proof (next_write_app (sz ++ take k data) (drop k data) pad sz (8 + length data + length pad)) as Hn.
    rewrite length_app, Hsz8, length_take, length_drop, Nat.min_l, <-app_assoc in Hn by lia.
    rewrite (app_assoc (take k data)), take_drop in Hn. apply Hn; [done|lia|lia|].
    mod8.
Qed.

(** the words of an RDMA write, one after the other *)
Lemma words_pend off img m k p bs rest : 0 <= off → Z.of_nat k mod 8 = 0 → (k + 8 * m <= length img)%nat → bs = take (8 * m) (drop k img) →
  (m ≠ O → p = Ring.pos n (off + Z.of_nat k)) → Z.of_nat p + Z.of_nat (8 * m) <= n → pend_ok off img (k + 8 * m) rest →
  pend_ok off img k (rdma_write m p bs ++ rest).
Proof.
  revert k p bs. induction m as [|m IH]; intros k p bs Ho H8 Hl -> Hp Hn Hrest; cbn [rdma_write app]; [by rewrite Nat.mul_0_r, Nat.add_0_r in Hrest|].
  cbn [pend_ok]. specialize (Hp ltac:(lia)). split; [done|]. rewrite take_take, Nat.min_l by lia.
  assert (El : length (take 8 (drop k img)) = 8%nat) by (rewrite length_take, length_drop; lia). split; [rewrite El; lia|]. exists (k + 8)%nat. split.
  - unfold next_write. rewrite El. split; [lia|]. split; [lia|]. split; [mod8|]. split; [done|]. intros i Hi. lia.
  - apply IH; [done|mod8|lia|..].
    + replace (8 * S m)%nat with (8 + 8 * m)%nat by lia. rewrite <-take_drop_commute, drop_drop. done.
    + intros Hm. pose proof (Z.mod_pos_bound (off + Z.of_nat k) n ltac:(lia)) as Hb. assert (Ep : Z.of_nat p = (off + Z.of_nat k) mod n) by (rewrite Hp; unfold Ring.pos; lia).
      unfold Ring.pos. replace (off + Z.of_nat (k + 8)) with (off + Z.of_nat k + 8) by lia. rewrite <-(Zplus_mod_idemp_l (off + Z.of_nat k)).
      rewrite <-Ep, Z.mod_small by lia. lia.
    + lia.
    + by replace (k + 8 + 8 * m)%nat with (k + 8 * S m)%nat by lia.
Qed.

Lemma remote_pend off data old : 0 <= off → off mod 8 = 0 → data ≠ [] → msg_size data < n → off + msg_size data < 2 ^ 64 →
  let c := padded (Z.of_nat (length data)) in
  (Z.to_nat c - length data <= length old)%nat →
  pend_ok off (msg_image data (take (Z.to_nat c - length data) old)) 0 (remote_writes n off data old c (msg_size data)).
Proof.
  intros Ho H8 Hne Hsz Hmax c Hold. pose proof (eq_refl : msg_size data = 16 + c) as Hms. rewrite Hms in *.
  destruct (padded_range (Z.of_nat (length data))) as [Hc8 Hc]. fold c in Hc8, Hc.
  unfold remote_writes. rewrite u64_id by lia. fold (msg_image data (take (Z.to_nat c - length data) old)).
  set (img := msg_image data _).
  assert (Hi : Z.of_nat (length img) = 16 + c) by (unfold img; rewrite length_msg_image, length_take; lia).
  rewrite div_fit by lia. pose proof (Z.mod_pos_bound off n ltac:(lia)) as Hmb.
  destruct (pos_word off Ho H8) as [Hp1 Hp2]. unfold Ring.pos in Hp1, Hp2. rewrite Z2Nat.id in Hp1, Hp2 by lia.
  assert (Hz0 : ∀ i, (i < length (@nil Z))%nat → (@nil Z) !! i = Some 0) by (intros i Hi'; simpl in Hi'; lia).
  assert (Hdiv : ∀ a : nat, Z.of_nat a mod 8 = 0 → (8 * (a / 8) = a)%nat).
  { intros a Ha. pose proof (Nat.div_mod a 8 ltac:(lia)) as E. assert (a mod 8 = 0)%nat by (apply Nat2Z.inj; rewrite Nat2Z.inj_mod; exact Ha). lia. }
  assert (Hi8 : (8 * (length img / 8) = length img)%nat) by (apply Hdiv; rewrite Hi; mod8).
  destruct (Z.leb_spec (off mod n + (16 + c)) n) as [Hfit|Hwrap].
  - rewrite <-(app_nil_r (rdma_write _ _ _)). apply words_pend; [done|done|lia|by rewrite Hi8, drop_0, firstn_all|intros _; f_equal; lia| |cbn [pend_ok]; lia].
    unfold Ring.pos. rewrite Z2Nat.id; lia.
  - set (k := Z.to_nat (n - off mod n)).
    assert (Hk8 : Z.of_nat k mod 8 = 0) by (unfold k; mod8).
    assert (Hkl : (8 <= k < length img)%nat) by (unfold k; lia). pose proof (Hdiv k Hk8) as Ek.
    assert (Er : (8 * ((length img - k) / 8) = length img - k)%nat) by (apply Hdiv; rewrite Nat2Z.inj_sub by lia; rewrite Hi; mod8).
    apply words_pend; [done|done|lia|by rewrite Ek, drop_0|intros _; f_equal; lia|unfold Ring.pos; rewrite Z2Nat.id by lia; lia|].
    rewrite <-(app_nil_r (rdma_write _ 0 _)). rewrite Ek. cbn [Nat.add]. apply words_pend; [done|done|lia| | |lia|cbn [pend_ok]; lia].
    + rewrite Er. symmetry. apply take_ge. rewrite length_drop. lia.
    + intros _. symmetry. etrans; [|apply (pos_wrap off)]. f_equal. unfold k. lia.
Qed.

(** what a sender on another server needs: room in its RDMA buffer *)
Definition sender_ok (w : sender) (data : list Z) : Prop :=
  match w with Local => True | Remote buf_sz old => msg_size data < buf_sz ∧ (8 <= length old)%nat end.

Lemma send_queue s slots r w data :
  queue s slots r → data ≠ [] → msg_size data < n → sender_ok w data → rb_tail s + msg_size data < 2 ^ 64 →
  (send n s w data = Ok (false, s) ∧ n < rb_tail s - rb_rhd s + msg_size data) ∨
  ∃ s' sl, send n s w data = Ok (true, s') ∧ queue s' (slots ++ [sl]) r ∧ sl_data sl = data ∧
    rb_tail s' = rb_tail s + msg_size data.
Proof.
  intros Hq Hne Hsz Hw Hmax. pose proof (eq_refl : msg_size data = 16 + padded (Z.of_nat (length data))) as Hms.
  destruct (padded_range (Z.of_nat (length data))) as [Hc8 Hc]. set (c := padded _) in *.
  destruct (qu_head _ _ _ Hq) as [Hh Hh8]. destruct (qu_tail _ _ _ Hq) as [Ht Ht2].
  destruct (qu_hds _ _ _ Hq) as (Hlr & Hrh & Htn & Hd8).
  assert (Ht8 : rb_tail s mod 8 = 0) by (pose proof (slots_len8 _ _ (qu_slots _ _ _ Hq)); mod8).
  unfold send. rewrite ceil8 by lia. cbn [mbind outcome_bind]. fold c. rewrite (u64_id (8 + c + 8)) by lia.
  replace (8 + c + 8) with (msg_size data) by lia. rewrite (proj2 (Z.ltb_lt _ _)) by lia. cbn [assert_that mbind outcome_bind].
  unfold rbf_full. rewrite (u64_id (rb_tail s - rb_rhd s + _)) by lia.
  destruct (Z.ltb_spec n (rb_tail s - rb_rhd s + msg_size data)) as [Hfull|Hfree]; [by left|]. right.
  rewrite (u64_id (rb_tail s + _)) by lia.
  assert (∃ ws pad, (match w with
     | Local => Ok (local_writes n (rb_tail s) data c)
     | Remote buf_sz old => ASSERT (msg_size data <? buf_sz); Ok (remote_writes n (rb_tail s) data old c (msg_size data))
     end) = Ok ws ∧ pend_ok (rb_tail s) (msg_image data pad) 0 ws ∧ length pad = (Z.to_nat c - length data)%nat) as (ws & pad & -> & Hp & Hpad).
  { destruct w as [|buf_sz old].
    - eexists _, _. split; [reflexivity|]. split; [apply local_pend; lia || done|apply length_replicate].
    - destruct Hw as [Hw1 Hw2]. rewrite (proj2 (Z.ltb_lt _ _)) by lia. eexists _, _. split; [reflexivity|].
      split; [apply remote_pend; lia || done|]. rewrite length_take. lia. }
  cbn [mbind outcome_bind]. eexists _, (Slot data (msg_image data pad) 0 ws). split; [reflexivity|]. split; [|done].
  assert (Hi : Z.of_nat (length (msg_image data pad)) = msg_size data) by (rewrite length_msg_image; lia).
  assert (Himg : image (slots ++ [Slot data (msg_image data pad) 0 ws]) = image slots ++ replicate (length (msg_image data pad)) 0).
  { rewrite image_app. unfold image at 2. simpl. rewrite app_nil_r. reflexivity. }
  split; cbn [rb_mem rb_tail rb_head rb_lhd rb_rhd rb_writers]; try apply Hq.
  - rewrite Himg, length_app, length_replicate. lia.
  - split; [done|]. lia.
  - apply slots_ok_app. split; [apply Hq|]. rewrite <-Ht. split; [|done]. split; cbn [sl_data sl_img sl_k sl_pend].
    + exists pad. split; [done|]. split; [|lia]. rewrite Hpad. mod8.
    + done.
    + lia.
    + split; [done|lia].
    + done.
  - intros i Hi'. rewrite (qu_cells _ _ _ Hq) by done. rewrite Himg.
    destruct (decide (i < length (image slots))%nat); [by rewrite lookup_app_l|].
    rewrite lookup_app_r by lia. rewrite (lookup_ge_None_2 (image slots)) by lia.
    destruct (replicate _ 0 !! _) eqn:E; [|done]. by apply lookup_replicate_1 in E as [-> _].
  - rewrite (qu_writers _ _ _ Hq), fmap_app, app_assoc. done.
Qed.

  (** *** The reader *)

Lemma read_data_ok m h data :
  let c := padded (Z.of_nat (length data)) in
  Z.of_nat (length m) = n → 0 <= h → h mod 8 = 0 → data ≠ [] → msg_size data < n →
  (∀ i, (i < length data)%nat → at_off m (h + 8 + Z.of_nat i) = default 0 (data !! i)) →
  ∃ m', read_data m (pos (h + 8)) (pos (h + 8 + Z.of_nat (length data))) (length data) c = Ok (data, m') ∧
    Z.of_nat (length m') = n ∧
    ∀ a, h <= a < h + n → at_off m' a = if decide (h + 8 <= a < h + 8 + c) then 0 else at_off m a.
Proof.
  intros c Hm Hh H8 Hne Hsz Hcells. unfold msg_size in Hsz. fold c in Hsz.
  destruct (padded_range (Z.of_nat (length data))) as [Hc8 Hc]. fold c in Hc8, Hc.
  assert (Hd : (0 < length data)%nat) by (destruct data; simpl; [done|lia]).
  destruct (pos_word (h + 8)) as [Hp1 Hp2]; [lia|mod8|].
  assert (Hend : Z.of_nat (pos (h + 8 + Z.of_nat (length data))) =
    if Z.of_nat (pos (h + 8)) + Z.of_nat (length data) <? n then Z.of_nat (pos (h + 8)) + Z.of_nat (length data)
    else Z.of_nat (pos (h + 8)) + Z.of_nat (length data) - n).
  { destruct (Z.ltb_spec (Z.of_nat (pos (h + 8)) + Z.of_nat (length data)) n) as [Hlt|Hge]; [apply pos_add; lia|].
    unfold Ring.pos in *. pose proof (Z.mod_pos_bound (h + 8) n ltac:(lia)). rewrite !Z2Nat.id in * by (apply Z.mod_pos_bound; lia || lia).
    rewrite <-Zplus_mod_idemp_l. symmetry. apply Zmod_unique with 1; lia. }
  unfold read_data. destruct (Nat.ltb_spec (pos (h + 8)) (pos (h + 8 + Z.of_nat (length data)))) as [Hlt|Hge].
  - destruct (Z.ltb_spec (Z.of_nat (pos (h + 8)) + Z.of_nat (length data)) n) as [Hfit|Hwrap]; [|lia].
    rewrite read_window by lia. cbn [mbind outcome_bind]. rewrite (cells_list m (h + 8) data) by done.
    destruct (memset_window m h (h + 8) (Z.to_nat c) Hm) as (m' & -> & Hl & Ha); [lia|lia|mod8|].
    exists m'. split; [done|]. split; [done|]. intros a Hw. rewrite Ha by done. by rewrite Z2Nat.id by lia.
  - destruct (Z.ltb_spec (Z.of_nat (pos (h + 8)) + Z.of_nat (length data)) n) as [Hfit|Hwrap]; [lia|].
    set (e := pos (h + 8 + Z.of_nat (length data))) in *. set (k := (length data - e)%nat).
    assert (Hk : Z.of_nat k = n - Z.of_nat (pos (h + 8))) by (unfold k; pose proof (pos_lt (h + 8)); lia).
    assert (Hz : pos (h + 8 + Z.of_nat k) = 0%nat).
    { rewrite <-(pos_wrap (h + 8)) at 1. f_equal. rewrite Hk. unfold Ring.pos. rewrite Z2Nat.id; [lia|apply Z.mod_pos_bound; lia]. }
    assert (He8 : Z.of_nat e mod 8 = Z.of_nat (length data) mod 8) by (pose proof (pos_lt (h + 8)); mod8).
    rewrite (read_window m (h + 8) k) by lia. cbn [mbind outcome_bind]. rewrite <-Hz.
    rewrite (read_window m (h + 8 + Z.of_nat k) e) by lia. cbn [mbind outcome_bind].
    destruct (memset_window m h (h + 8) k Hm) as (m1 & -> & Hl1 & Ha1); [lia|unfold k; lia|lia|]. cbn [mbind outcome_bind].
    rewrite ceil8 by lia. cbn [mbind outcome_bind]. destruct (padded_range (Z.of_nat e)) as [Hpe8 Hpe].
    assert (Hpc : Z.of_nat k + padded (Z.of_nat e) = c) by (unfold k in *; mod8).
    destruct (memset_window m1 h (h + 8 + Z.of_nat k) (Z.to_nat (padded (Z.of_nat e))) Hl1) as (m2 & -> & Hl2 & Ha2); [lia|lia|lia|].
    cbn [mbind outcome_bind]. exists m2. split_and!; [|done|].
    + do 2 f_equal. rewrite <-(take_drop k data) at 1. f_equal.
      * rewrite <-(cells_list m (h + 8) (take k data)); [by rewrite length_take, Nat.min_l by (unfold k; lia)|].
        intros i Hi. rewrite length_take in Hi. rewrite Hcells by lia. by rewrite lookup_take_lt by lia.
      * rewrite <-(cells_list m (h + 8 + Z.of_nat k) (drop k data)); [rewrite length_drop; f_equal; unfold k; lia|].
        intros i Hi. rewrite length_drop in Hi. rewrite lookup_drop, <-Hcells by lia. f_equal. lia.
    + intros a Hw. rewrite Ha2, Ha1 by done. repeat destruct (decide _); try done; lia.
Qed.

Lemma read_word m o l : Z.of_nat (length m) = n → 0 <= o → o mod 8 = 0 → length l = 8%nat →
  (∀ i, (i < 8)%nat → at_off m (o + Z.of_nat i) = default 0 (l !! i)) → read_u64 m (pos o) = Ok (un64 l).
Proof.
  intros Hm Ho H8 Hl Hi. unfold read_u64. rewrite read_window by (done || by apply pos_word).
  cbn [mbind outcome_bind]. do 2 f_equal. rewrite <-Hl. apply cells_list. intros i. rewrite Hl. apply Hi.
Qed.

Lemma zero_word i : default 0 (le64 0 !! i) = 0.
Proof. rewrite le64_zero. destruct (replicate 8 0 !! i) eqn:E; [|done]. by apply lookup_replicate_1 in E as [-> _]. Qed.

Lemma pend_bound off img k p pend : pend_ok off img k (p :: pend) → Z.of_nat k mod 8 = 0 →
  Z.of_nat (length img) mod 8 = 0 → (k + 8 <= length img)%nat.
Proof. destruct p as [p bs]. intros (_ & _ & k' & (Hk & Hlt & Hk8 & _) & _) H1 H2. mod8. Qed.

(** the message at the head of the ring *)
Section front.
  Context (s : rbf) (sl : slot) (slots : list slot) (r : nat).
  Hypothesis Hq : queue s (sl :: slots) r.

Lemma front_ok : slot_ok (rb_head s) sl.
Proof. by destruct (qu_slots _ _ _ Hq). Qed.

Lemma front_size : Z.of_nat (length (sl_img sl)) = msg_size (sl_data sl) ∧
  Z.of_nat (length (sl_img sl)) mod 8 = 0 ∧ rb_head s + Z.of_nat (length (sl_img sl)) <= rb_tail s.
Proof.
  destruct (so_img _ _ front_ok) as (pad & Ei & H8 & Hp). destruct (qu_tail _ _ _ Hq) as [Ht _].
  change (image (sl :: slots)) with (vis (sl_img sl) (sl_k sl) ++ image slots) in Ht.
  rewrite length_app, length_vis in Ht by apply front_ok. rewrite Ei, length_msg_image in *.
  unfold msg_size. destruct (padded_range (Z.of_nat (length (sl_data sl)))) as [Hc8 Hc]. split_and!; mod8.
Qed.

Lemma front_cell i : (i < length (sl_img sl))%nat →
  at_off (rb_mem s) (rb_head s + Z.of_nat i) = if decide (i < sl_k sl)%nat then default 0 (sl_img sl !! i) else 0.
Proof.
  intros Hi. rewrite (qu_cells _ _ _ Hq) by (pose proof (so_size _ _ front_ok); lia).
  change (image (sl :: slots)) with (vis (sl_img sl) (sl_k sl) ++ image slots).
  rewrite lookup_app_l by (rewrite length_vis; [done|apply front_ok]). apply vis_lookup, front_ok.
Qed.

Lemma img_header i : (i < 8)%nat → sl_img sl !! i = le64 (Z.of_nat (length (sl_data sl))) !! i.
Proof. intros Hi. destruct (so_img _ _ front_ok) as (pad & -> & _). unfold msg_image. by rewrite lookup_app_l by (rewrite length_le64; lia). Qed.

Lemma img_data i : (i < length (sl_data sl))%nat → sl_img sl !! (8 + i)%nat = sl_data sl !! i.
Proof.
  intros Hi. destruct (so_img _ _ front_ok) as (pad & -> & _). unfold msg_image.
  rewrite lookup_app_r by (rewrite length_le64; lia). rewrite lookup_app_l by (rewrite length_le64; lia). f_equal. rewrite length_le64. lia.
Qed.

Lemma img_footer i : (i < 8)%nat → sl_img sl !! (length (sl_img sl) - 8 + i)%nat = le64 (Z.of_nat (length (sl_data sl))) !! i.
Proof.
  intros Hi. destruct (so_img _ _ front_ok) as (pad & -> & _). rewrite length_msg_image. unfold msg_image.
  rewrite !lookup_app_r by (rewrite ?length_le64; lia). f_equal. rewrite length_le64. lia.
Qed.

Lemma receive_front :
  match sl_pend sl with
  | [] => ∃ s', receive_one n s = Ok (RGot (sl_data sl) s') ∧ queue s' slots (S r) ∧ rb_tail s' = rb_tail s
  | _ => receive_one n s = Ok RNone ∨ receive_one n s = Ok RSpin
  end.
Proof.
  pose proof front_ok as Hok. destruct front_size as (Hlen & Hl8 & Hlt). destruct (so_k _ _ Hok) as [Hk8 Hk].
  destruct (qu_head _ _ _ Hq) as [Hh Hh8]. destruct (qu_tail _ _ _ Hq) as [Ht Ht2]. pose proof (so_size _ _ Hok) as Hsz.
  destruct (qu_hds _ _ _ Hq) as (Hlr & Hrh & Htn & Hd8).
  set (dsz := Z.of_nat (length (sl_data sl))). set (c := padded dsz).
  destruct (padded_range dsz) as [Hc8 Hc]. fold c in Hc8, Hc.
  assert (Hd : 0 < dsz) by (pose proof (so_data _ _ Hok); unfold dsz; destruct (sl_data sl); simpl; [done|lia]).
  assert (Himg : Z.of_nat (length (sl_img sl)) = 16 + c) by exact Hlen.
  assert (Hnohdr : sl_k sl = 0%nat → receive_one n s = Ok RNone).
  { intros Hk0. unfold receive_one, check.
    rewrite (read_word _ _ (le64 0)) by (done || apply Hq || (intros i Hi; rewrite zero_word, front_cell, Hk0 by lia; done)).
    done. }
  assert (Hhdr : sl_k sl ≠ 0%nat → read_u64 (rb_mem s) (pos (rb_head s)) = Ok dsz).
  { intros Hk0. rewrite (read_word _ _ (le64 dsz)), un64_le64 by (lia || done || apply Hq || (intros i Hi; rewrite front_cell by lia; rewrite decide_True by mod8; by rewrite img_header)).
    done. }
  assert (Hrecv : sl_k sl ≠ 0%nat → receive_one n s = fetch n s).
  { intros Hk0. unfold receive_one, check. rewrite Hhdr by done. cbn [mbind outcome_bind]. by rewrite (proj2 (Z.eqb_neq _ _)) by lia. }
  destruct (write_window (rb_mem s) (rb_head s) (rb_head s) (le64 0) (qu_mem _ _ _ Hq)) as (m1 & E1 & Hl1 & Ha1);
    [lia|rewrite length_le64; lia|rewrite length_le64; by apply pos_word|].
  assert (Hm1 : ∀ a, rb_head s <= a < rb_head s + n → at_off m1 a = if decide (a < rb_head s + 8) then 0 else at_off (rb_mem s) a).
  { intros a Ha. rewrite Ha1 by done. rewrite length_le64, zero_word. repeat destruct (decide _); done || lia. }
  assert (Hfp : u64 (rb_head s + u64 (8 + c)) = rb_head s + 8 + c) by (rewrite (u64_id (8 + c)), u64_id by lia; lia).
  destruct (sl_pend sl) as [|p pend] eqn:Ep.
  2:{ destruct (decide (sl_k sl = 0%nat)) as [Hk0|Hk0]; [left; by apply Hnohdr|right].
      pose proof (so_pend _ _ Hok) as Hp. rewrite Ep in Hp. pose proof (pend_bound _ _ _ _ _ Hp Hk8 Hl8) as Hkb.
      rewrite Hrecv by done. unfold fetch. rewrite Hhdr by done. cbn [mbind outcome_bind]. rewrite E1. cbn [mbind outcome_bind].
      rewrite ceil8 by lia. cbn [mbind outcome_bind]. fold c. rewrite Hfp.
      rewrite (read_word m1 _ (le64 0)); [|done|lia|mod8|done|].
      2:{ intros i Hi. rewrite Hm1, zero_word by lia. rewrite decide_False by lia.
          replace (rb_head s + 8 + c + Z.of_nat i) with (rb_head s + Z.of_nat (length (sl_img sl) - 8 + i)) by lia.
          rewrite front_cell by lia. by rewrite decide_False by lia. }
      cbn [mbind outcome_bind]. rewrite un64_zero, (proj2 (Z.eqb_neq _ _)) by lia. done. }
  pose proof (so_pend _ _ Hok) as Hfull. rewrite Ep in Hfull. cbn [pend_ok] in Hfull. rewrite Hrecv by lia.
  unfold fetch. rewrite Hhdr by lia. cbn [mbind outcome_bind]. rewrite E1. cbn [mbind outcome_bind].
  rewrite ceil8 by lia. cbn [mbind outcome_bind]. fold c. rewrite Hfp.
  rewrite (read_word m1 _ (le64 dsz)), un64_le64; [|lia|done|lia|mod8|done|].
  2:{ intros i Hi. rewrite Hm1 by lia. rewrite decide_False by lia.
      replace (rb_head s + 8 + c + Z.of_nat i) with (rb_head s + Z.of_nat (length (sl_img sl) - 8 + i)) by lia.
      rewrite front_cell by lia. rewrite decide_True by lia. by rewrite img_footer. }
  cbn [mbind outcome_bind]. rewrite Z.eqb_refl. cbn [negb].
  destruct (write_window m1 (rb_head s) (rb_head s + 8 + c) (le64 0) Hl1) as (m2 & -> & Hl2 & Ha2);
    [lia|rewrite length_le64; lia|rewrite length_le64; apply pos_word; [lia|mod8]|]. cbn [mbind outcome_bind].
  rewrite (u64_id (rb_head s + 8)), (u64_id (rb_head s + 8 + dsz)) by lia. unfold dsz at 2. rewrite Nat2Z.id.
  destruct (read_data_ok m2 (rb_head s) (sl_data sl) Hl2 Hh Hh8 (so_data _ _ Hok)) as (m3 & E3 & Hl3 & Ha3).
  { lia. }
  { intros i Hi. rewrite Ha2 by lia. rewrite decide_False by lia. rewrite Hm1 by lia. rewrite decide_False by lia.
    replace (rb_head s + 8 + Z.of_nat i) with (rb_head s + Z.of_nat (8 + i)) by lia.
    rewrite front_cell by lia. rewrite decide_True by lia. by rewrite img_data. }
  change (padded (Z.of_nat (length (sl_data sl)))) with c in *. change (Z.of_nat (length (sl_data sl))) with dsz in E3. rewrite E3. cbn [mbind outcome_bind].
  rewrite (u64_id (2 * 8 + c)), (u64_id (rb_head s + _)), (u64_id (rb_head s + _ - _)) by lia.
  eexists. split; [reflexivity|]. split; [|done].
  assert (Him : image (sl :: slots) = vis (sl_img sl) (sl_k sl) ++ image slots) by done.
  rewrite Him, length_app, length_vis in Ht by done.
  split; cbn [rb_mem rb_tail rb_head rb_lhd rb_rhd rb_writers].
  - done.
  - split; [lia|mod8].
  - split; [lia|done].
  - pose proof (Z.div_pos n 8 ltac:(lia) ltac:(lia)).
    destruct (Z.ltb_spec (n / 8) (rb_head s + (2 * 8 + c) - rb_lhd s)) as [Hpush|Hpush]; [split_and!; lia|].
    rewrite Hlr in Hpush. split_and!; lia.
  - destruct (qu_slots _ _ _ Hq) as [_ Hrest]. by rewrite Himg in Hrest.
  - intros i Hi. set (a := rb_head s + (2 * 8 + c) + Z.of_nat i).
    destruct (decide (a < rb_head s + n)) as [Hin|Hout].
    + rewrite Ha3, decide_False by lia. rewrite Ha2 by lia. rewrite length_le64, decide_False by lia.
      rewrite Hm1, decide_False by lia.
      replace a with (rb_head s + Z.of_nat (length (sl_img sl) + i)) by lia.
      rewrite (qu_cells _ _ _ Hq) by lia. rewrite Him.
      rewrite lookup_app_r by (rewrite length_vis; lia). rewrite length_vis by done. do 2 f_equal. lia.
    + rewrite lookup_ge_None_2 by lia. cbn [default].
      assert (at_off m3 a = at_off m3 (a - n)) as ->.
      { unfold at_off, Ring.pos. replace (a mod n) with ((a - n + 1 * n) mod n) by (f_equal; lia). by rewrite Z.mod_add by lia. }
      rewrite Ha3 by lia. destruct (decide _); [done|]. rewrite Ha2 by lia. rewrite length_le64, zero_word.
      destruct (decide _); [done|]. rewrite Hm1 by lia. destruct (decide _); [done|lia].
  - rewrite (qu_writers _ _ _ Hq), replicate_S_end, <-app_assoc, fmap_cons, Ep. done.
Qed.
End front.

Lemma receive_empty s r : queue s [] r → receive_one n s = Ok RNone.
Proof.
  intros Hq. destruct (qu_head _ _ _ Hq) as [Hh Hh8]. unfold receive_one, check.
  rewrite (read_word _ _ (le64 0)) by (done || apply Hq || (intros i Hi; rewrite zero_word, (qu_cells _ _ _ Hq) by lia; done)).
  done.
Qed.
End fifo.

(** ** Every run *)

(** one step of the writers and the reader: reserve, write, receive. The messages
    accepted and the messages received are logged. *)
Inductive ring_op := OpSend (w : sender) (data : list Z) | OpWrite (i : nat) | OpRecv.

Definition ring_step (n : Z) (st : rbf * list (list Z) * list (list Z)) (op : ring_op)
    : outcome (rbf * list (list Z) * list (list Z)) :=
  let '(s, snt, got) := st in
  match op with
  | OpSend w data => '(ok, s) ← send n s w data; Ok (s, if ok : bool then snt ++ [data] else snt, got)
  | OpWrite i => s ← advance s i; Ok (s, snt, got)
  | OpRecv => r ← receive_one n s; Ok (match r with RGot data s => (s, snt, got ++ [data]) | _ => (s, snt, got) end)
  end.

(** the messages that are sent: none is empty, which [send] does not check, and they fit the
    buffers, which it asserts *)
Definition op_ok (n : Z) (op : ring_op) : Prop :=
  match op with OpSend w data => data ≠ [] ∧ msg_size data < n ∧ sender_ok w data | _ => True end.

Definition op_bytes (op : ring_op) : Z := match op with OpSend _ data => msg_size data | _ => 0 end.
Definition total (ops : list ring_op) : Z := foldr Z.add 0 (op_bytes <$> ops).

Lemma op_bytes_pos op : 0 <= op_bytes op.
Proof. destruct op as [w data| |]; simpl; try done. unfold msg_size. destruct (padded_range (Z.of_nat (length data))). lia. Qed.

Lemma total_app l1 l2 : total (l1 ++ l2) = total l1 + total l2.
Proof.
  induction l1 as [|op l1 IH]; [done|]. change (total ((op :: l1) ++ l2)) with (op_bytes op + total (l1 ++ l2)).
  change (total (op :: l1)) with (op_bytes op + total l1). lia.
Qed.

Lemma total_pos l : 0 <= total l.
Proof. induction l as [|op l IH]; [done|]. change (total (op :: l)) with (op_bytes op + total l). pose proof (op_bytes_pos op). lia. Qed.

Section runs.
  Context (n : Z).
  Hypothesis n_pos : 8 <= n < 2 ^ 63.
  Hypothesis n_words : n mod 8 = 0.

Definition run_inv (B : Z) (st : rbf * list (list Z) * list (list Z)) : Prop :=
  let '(s, snt, got) := st in
  ∃ slots r, queue n s slots r ∧ snt = got ++ (sl_data <$> slots) ∧ rb_tail s <= B.

Lemma ring_step_ok B st op : run_inv B st → op_ok n op → B + op_bytes op < 2 ^ 64 →
  ∃ st', ring_step n st op = Ok st' ∧ run_inv (B + op_bytes op) st'.
Proof.
  destruct st as [[s snt] got]. intros (slots & r & Hq & -> & HB) Hop Hmax. destruct op as [w data|i|]; simpl in *.
  - destruct Hop as (Hne & Hsz & Hw). pose proof (op_bytes_pos (OpSend w data)) as Hpos. simpl in Hpos.
    destruct (send_queue n n_pos n_words s slots r w data Hq Hne Hsz Hw) as [[-> _]|(s' & sl & -> & Hq' & Hd & Ht)];
      [lia| |]; cbn [mbind outcome_bind]; eexists; (split; [reflexivity|]).
    + exists slots, r. split_and!; [done|done|lia].
    + exists (slots ++ [sl]), r. rewrite fmap_app, app_assoc. simpl. rewrite Hd. split_and!; [done|done|lia].
  - destruct (advance_queue n n_pos s slots r i Hq) as (s' & slots' & -> & Hq' & Hd & Ht). cbn [mbind outcome_bind].
    eexists. split; [reflexivity|]. exists slots', r. rewrite Hd. split_and!; [done|done|lia].
  - destruct slots as [|sl slots].
    + rewrite (receive_empty n n_pos n_words s r Hq). eexists. split; [reflexivity|]. exists [], r. split_and!; [done|done|lia].
    + pose proof (receive_front n n_pos n_words s sl slots r Hq) as Hr. destruct (sl_pend sl).
      * destruct Hr as (s' & -> & Hq' & Ht). eexists. split; [reflexivity|]. exists slots, (S r).
        rewrite <-app_assoc. split_and!; [done|done|lia].
      * exists (s, got ++ (sl_data <$> sl :: slots), got). split; [by destruct Hr as [-> | ->]|].
        exists (sl :: slots), r. split_and!; [done|done|lia].
Qed.

Lemma ring_run_ok ops : Forall (op_ok n) ops → total ops < 2 ^ 64 →
  ∃ st, foldM (ring_step n) (new_rbf n, [], []) ops = Ok st ∧ run_inv (total ops) st.
Proof.
  intros Hops Hmax. apply (foldM_total (ring_step n) (λ l st, run_inv (total l) st)).
  - exists [], 0%nat. split_and!; [by apply new_queue|done|done].
  - intros l1 op l2 st -> Hst. apply Forall_app in Hops as [_ [Hop _]%Forall_cons].
    assert (Ht : total (l1 ++ [op]) = total l1 + op_bytes op) by (rewrite total_app; change (total [op]) with (op_bytes op + 0); lia).
    rewrite Ht. apply ring_step_ok; [done..|]. rewrite <-Ht. change (op :: l2) with ([op] ++ l2) in Hmax.
    rewrite app_assoc, total_app in Hmax. pose proof (total_pos l2). lia.
Qed.

(** receiving until the queue is empty *)
Lemma drain s slots r snt got : queue n s slots r → Forall (λ w, w = []) (sl_pend <$> slots) →
  ∃ s', foldM (ring_step n) (s, snt, got) (replicate (length slots) OpRecv) = Ok (s', snt, got ++ (sl_data <$> slots)).
Proof.
  revert s r got. induction slots as [|sl slots IH]; intros s r got Hq Hw; simpl; [exists s; by rewrite app_nil_r|].
  apply Forall_cons in Hw as [Hsl Hw]. pose proof (receive_front n n_pos n_words s sl slots r Hq) as Hr.
  rewrite Hsl in Hr. destruct Hr as (s1 & -> & Hq1 & _). cbn [mbind outcome_bind].
  destruct (IH s1 (S r) (got ++ [sl_data sl]) Hq1 Hw) as (s' & E). exists s'. rewrite E. by rewrite <-app_assoc.
Qed.

(** C16: the ring buffer is a FIFO queue under every interleaving: whatever the
    order in which senders reserve, write piece by piece and the reader polls, no
    step fails; what is received is always a prefix of what was accepted, whole and
    in order; once the senders have finished, receiving yields all the rest; and when
    nothing is left, a message of up to seven eighths of the ring is accepted. No message
    is empty, and an RDMA write becomes visible word by word in the order of the
    addresses. *)
Theorem ring_fifo (ops : list ring_op) :
  Forall (op_ok n) ops → total ops < 2 ^ 64 →
  ∃ s snt got rest, foldM (ring_step n) (new_rbf n, [], []) ops = Ok (s, snt, got) ∧ snt = got ++ rest ∧
    (Forall (λ w, w = []) (rb_writers s) →
       ∃ s', foldM (ring_step n) (s, snt, got) (replicate (length rest) OpRecv) = Ok (s', snt, snt)) ∧
    (rest = [] → ∀ w data, op_ok n (OpSend w data) → msg_size data <= n - n / 8 → total ops + msg_size data < 2 ^ 64 →
       ∃ s', send n s w data = Ok (true, s')).
Proof.
  intros Hops Hmax. destruct (ring_run_ok ops Hops Hmax) as ([[s snt] got] & E & slots & r & Hq & Hsnt & HB).
  exists s, snt, got, (sl_data <$> slots). split_and!; [done|done| |].
  - intros Hw. rewrite (qu_writers _ _ _ _ Hq) in Hw. apply Forall_app in Hw as [_ Hw].
    rewrite length_fmap, Hsnt. by apply (drain s slots r).
  - intros Hnil w data (Hne & Hsz & Hw) H78 Hb. apply fmap_nil_inv in Hnil as ->.
    destruct (send_queue n n_pos n_words s [] r w data Hq Hne Hsz Hw) as [[_ Hfull]|(s' & sl & -> & _)]; [lia| |by exists s'].
    destruct (qu_tail _ _ _ _ Hq) as [Ht _]. destruct (qu_hds _ _ _ _ Hq) as (_ & _ & _ & H8).
    unfold image in Ht. simpl in Ht. lia.
Qed.
End runs.

(** two senders whose writes interleave; the second message goes round the end of a
    ring of 64 bytes *)
Definition ring_ops : list ring_op :=
  [OpSend Local [7; 8; 9]; OpSend (Remote 1000 (replicate 8 5)) (replicate 17 4); OpWrite 1; OpRecv; OpWrite 0; OpRecv;
   OpWrite 0; OpWrite 0; OpRecv; OpSend Local [1]; OpWrite 2; OpWrite 2; OpWrite 2; OpRecv].

Lemma ring_fifo_witness : ∃ s got rest,
  foldM (ring_step 64) (new_rbf 64, [], []) ring_ops = Ok (s, [[7; 8; 9]; replicate 17 4; [1]], got) ∧
  [[7; 8; 9]; replicate 17 4; [1]] = got ++ rest.
Proof.
  destruct (ring_fifo 64 ltac:(lia) ltac:(reflexivity) ring_ops) as (s & snt & got & rest & E & Hs & _).
  - repeat constructor; discriminate.
  - vm_compute. reflexivity.
  - assert (Hsnt : snt = [[7; 8; 9]; replicate 17 4; [1]]) by (vm_compute in E; injection E as _ <- _; reflexivity).
    exists s, got, rest. rewrite <-Hsnt. split; [exact E|exact Hs].
Defined.
