(* ===== verification/Loader.v ===== *)
(** [core/dgraph.hpp]: loading the data files of a server.

    The files are given as the triples that the threads read from them, in the order
    in which the threads happen to interleave. The RDMA buffer of a thread is split
    into one piece per destination, and the kvstore of a destination into one
    partition per server: a [channel] holds what concerns one destination, its
    pieces, the counter of [num_triples] and the partition that this server writes.
    Sizes are in bytes, the arrays are arrays of [sid_t]. *)

From stdpp Require Import sorting.
From S2P Require Import Prelude Types MyMath Query Final Mem.
Local Open Scope Z_scope.

(** ** The two orders *)

Definition triple_sort_by_spo (t1 t2 : triple_t) : bool :=
  if tr_s t1 <? tr_s t2 then true
  else if tr_s t1 =? tr_s t2 then
    if tr_p t1 <? tr_p t2 then true
    else if (tr_p t1 =? tr_p t2) && (tr_o t1 <? tr_o t2) then true else false
  else false.

Definition triple_sort_by_ops (t1 t2 : triple_t) : bool :=
  if tr_o t1 <? tr_o t2 then true
  else if tr_o t1 =? tr_o t2 then
    if tr_p t1 <? tr_p t2 then true
    else if (tr_p t1 =? tr_p t2) && (tr_s t1 <? tr_s t2) then true else false
  else false.

(** ** Removing adjacent duplicates in place *)

(** one iteration: [n] elements are kept so far *)
Definition dedup_step (st : list triple_t * nat) (i : nat) : outcome (list triple_t * nat) :=
  let '(ts, n) := st in
  a ← read ts i; b ← read ts (i - 1);
  if (tr_s a =? tr_s b) && (tr_p a =? tr_p b) && (tr_o a =? tr_o b) then Ok (ts, n)
  else ts ← write ts n a; Ok (ts, S n).

Definition dedup_triples (ts : list triple_t) : outcome (list triple_t) :=
  if (length ts <=? 1)%nat then Ok ts
  else '(ts, n) ← foldM dedup_step (ts, 1%nat) (seq 1 (length ts - 1)); Ok (take n ts).

(** ** Exchanging triples *)

Definition floor (original n : Z) : outcome Z :=
  ASSERT (negb (n =? 0)); Ok (original - original mod n).

(** the size of one of [n] pieces, after its counter *)
Definition piece_size (total n : Z) : outcome Z := floor (u64 (total / n - 8)) 4.

(** where the partition of server [sid] starts in the kvstore of a destination: the
    loader computes it in two ways, for the triples and for their count *)
Definition partition_offset (kvstore_size num_servers sid : Z) : outcome Z :=
  kvs_sz ← piece_size kvstore_size num_servers; Ok (u64 ((kvs_sz + 8) * sid)).
Definition count_offset (kvstore_size num_servers sid : Z) : outcome Z :=
  kvs_sz ← floor (kvstore_size / num_servers) 4; Ok (u64 (kvs_sz * sid)).

Record piece := MkPiece { pc_n : Z; pc_buf : list sid_t }.
Record channel := MkChannel {
  ch_pieces : list piece;      (* per thread *)
  ch_num : Z;                  (* num_triples[dst_sid] *)
  ch_out : list sid_t          (* the partition of this server at the destination *)
}.

(** [memcpy] or RDMA WRITE of [data] at word [pos] *)
Definition write_words (mem : list sid_t) (pos : nat) (data : list sid_t) : outcome (list sid_t) :=
  if (pos + length data <=? length mem)%nat then Ok (take pos mem ++ data ++ drop (pos + length data) mem)
  else Err OutOfBounds.

Section exchange.
  Context (buf_sz kvs_sz : Z).

Definition flush_triples (c : channel) (tid : nat) : outcome channel :=
  pc ← read (ch_pieces c) tid;
  let n := pc_n pc in
  let exist := ch_num c in
  ASSERT (negb (kvs_sz <? u64 ((exist * 3 + n * 3) * 4))); (* enough space to store input data *)
  data ← slice (pc_buf pc) 0 (Z.to_nat (n * 3));
  out ← write_words (ch_out c) (Z.to_nat (exist * 3)) data;
  pcs ← write (ch_pieces c) tid (MkPiece 0 (pc_buf pc));
  Ok (MkChannel pcs (u64 (exist + n)) out).

Definition send_triple (c : channel) (tid : nat) (t : triple_t) : outcome channel :=
  pc ← read (ch_pieces c) tid;
  (* flush buffer if there is no enough space to buffer a new triple *)
  c ← (if buf_sz <? u64 ((pc_n pc * 3 + 3) * 4) then
         c ← flush_triples c tid;
         pc ← read (ch_pieces c) tid;
         ASSERT (pc_n pc =? 0);
         Ok c
       else Ok c);
  pc ← read (ch_pieces c) tid;
  buf ← write_words (pc_buf pc) (Z.to_nat (pc_n pc * 3)) [tr_s t; tr_p t; tr_o t];
  pcs ← write (ch_pieces c) tid (MkPiece (u64 (pc_n pc + 1)) buf);
  Ok (MkChannel pcs (ch_num c) (ch_out c)).

Definition send_to_server (cs : list channel) (tid : nat) (dst_sid : Z) (t : triple_t) : outcome (list channel) :=
  c ← read cs (Z.to_nat dst_sid);
  c ← send_triple c tid t;
  write cs (Z.to_nat dst_sid) c.

(** the triple is stored with its subject and with its object *)
Definition load_triple `{Config} (cs : list channel) (tid : nat) (t : triple_t) : outcome (list channel) :=
  s_sid ← hash_mod (tr_s t) global_num_servers;
  o_sid ← hash_mod (tr_o t) global_num_servers;
  cs ← send_to_server cs tid s_sid t;
  if s_sid =? o_sid then Ok cs else send_to_server cs tid o_sid t.

(** [load_data]: the threads read [input], then the rest of each buffer is flushed *)
Definition load_data `{Config} (cs : list channel) (input : list (nat * triple_t)) : outcome (list channel) :=
  cs ← foldM (λ cs '(tid, t), load_triple cs tid t) cs input;
  foldM (λ cs s, c ← read cs s;
      c ← foldM flush_triples c (seq 0 (Z.to_nat global_num_engines));
      write cs s c) cs (seq 0 (Z.to_nat global_num_servers)).

(** exchange #triples: the counter is written in front of the partition *)
Definition partition_of (c : channel) : piece := MkPiece (ch_num c) (ch_out c).

(** the cleared memory of one channel *)
Definition new_channel `{Config} : channel :=
  MkChannel (replicate (Z.to_nat global_num_engines) (MkPiece 0 (replicate (Z.to_nat (buf_sz / 4)) 0))) 0
    (replicate (Z.to_nat (kvs_sz / 4)) 0).

(** [load_data_from_allfiles]: one thread appends the triples of its files that
    belong to this server to its partition *)
Definition keep_triple `{Config} (sid : Z) (pc : piece) (t : triple_t) : outcome piece :=
  s_sid ← hash_mod (tr_s t) global_num_servers;
  o_sid ← hash_mod (tr_o t) global_num_servers;
  if (s_sid =? sid) || (o_sid =? sid) then
    ASSERT (u64 ((pc_n pc * 3 + 3) * 4) <=? kvs_sz);
    buf ← write_words (pc_buf pc) (Z.to_nat (pc_n pc * 3)) [tr_s t; tr_p t; tr_o t];
    Ok (MkPiece (u64 (pc_n pc + 1)) buf)
  else Ok pc.

Definition load_data_from_allfiles `{Config} (sid : Z) (pcs : list piece) (input : list (nat * triple_t)) : outcome (list piece) :=
  foldM (λ pcs '(tid, t), pc ← read pcs tid; pc ← keep_triple sid pc t; write pcs tid pc) pcs input.
End exchange.

(** ** Aggregating the partitions *)

Section aggregate.
  Context `{Config} `{StdSort} (sid : Z).

(** what thread [tid] picks up of one triple *)
Definition pick_triple (tid : Z) (st : list triple_t * list triple_t) (t : triple_t) : outcome (list triple_t * list triple_t) :=
  let '(spo, ops) := st in
  s_sid ← hash_mod (tr_s t) global_num_servers;
  let spo := if (s_sid =? sid) && (tr_s t mod global_num_engines =? tid) then spo ++ [t] else spo in
  o_sid ← hash_mod (tr_o t) global_num_servers;
  let ops := if (o_sid =? sid) && (tr_o t mod global_num_engines =? tid) then ops ++ [t] else ops in
  Ok (spo, ops).

Definition triple_at (kvs : list sid_t) (i : nat) : outcome triple_t :=
  s ← read kvs (i * 3)%nat; p ← read kvs (i * 3 + 1)%nat; o ← read kvs (i * 3 + 2)%nat; Ok (Triple s p o).

(** all partitions, each with its count and its words *)
Definition scan_partitions (tid : Z) (parts : list piece) : outcome (list triple_t * list triple_t) :=
  foldM (λ st pc, foldM (λ st i, t ← triple_at (pc_buf pc) i; pick_triple tid st t) st (seq 0 (Z.to_nat (pc_n pc))))
    ([], []) parts.

(** [aggregate_data] of one thread: the lists are sorted and deduplicated in the
    order of the code *)
Definition aggregate_thread (parts : list piece) (tid : Z) : outcome (list triple_t * list triple_t) :=
  '(spo, ops) ← scan_partitions tid parts;
  let spo := std_sort _ triple_sort_by_spo spo in
  ops ← dedup_triples ops;
  let ops := std_sort _ triple_sort_by_ops ops in
  spo ← dedup_triples spo;
  Ok (spo, ops).

Definition aggregate_data (parts : list piece) : outcome (list (list triple_t * list triple_t)) :=
  mapM (λ tid, aggregate_thread parts (Z.of_nat tid)) (seq 0 (Z.to_nat global_num_engines)).
End aggregate.

(** ** The partitions of the kvstore *)

(** both computations of the start of a partition agree, and the partitions of the
    servers lie one behind the other inside the kvstore *)
Lemma partition_offsets kvstore_size n sid : 0 < n → 8 * n <= kvstore_size < 2 ^ 64 → 0 <= sid < n →
  ∃ kvs_sz off, piece_size kvstore_size n = Ok kvs_sz ∧ partition_offset kvstore_size n sid = Ok off ∧
    count_offset kvstore_size n sid = Ok off ∧ off = (kvs_sz + 8) * sid ∧ off + 8 + kvs_sz <= kvstore_size.
Proof.
  intros Hn Hk Hs. assert (Hq : 8 <= kvstore_size / n) by (apply Z.div_le_lower_bound; lia).
  assert (Hm : n * (kvstore_size / n) <= kvstore_size) by (apply Z.mul_div_le; lia).
  unfold partition_offset, count_offset, piece_size, floor. cbn [mbind outcome_bind Z.eqb negb].
  assert (kvstore_size / n <= kvstore_size) by (apply Z.div_le_upper_bound; nia).
  rewrite (u64_id (kvstore_size / n - 8)) by lia. set (x := kvstore_size / n) in *.
  assert ((x - 8) mod 4 = x mod 4) as -> by (replace (x - 8) with (x + -2 * 4) by lia; apply Z_mod_plus_full).
  pose proof (Z.mod_pos_bound x 4 ltac:(lia)). simpl.
  replace (x - 8 - x mod 4 + 8) with (x - x mod 4) by lia. rewrite (u64_id ((x - x mod 4) * sid)) by nia.
  eexists _, _. split_and!; try reflexivity; nia.
Qed.

(** ** [dedup_triples] keeps one triple of each run *)

Definition uniq_step (acc : list triple_t) (t : triple_t) : list triple_t :=
  if bool_decide (last acc = Some t) then acc else acc ++ [t].
Definition uniq (ts : list triple_t) : list triple_t := foldl uniq_step [] ts.

Lemma uniq_snoc ts t : uniq (ts ++ [t]) = uniq_step (uniq ts) t.
Proof. unfold uniq. by rewrite foldl_app. Qed.

Lemma uniq_last ts : last (uniq ts) = last ts.
Proof.
  induction ts as [|t ts IH] using rev_ind; [done|]. rewrite uniq_snoc, last_snoc. unfold uniq_step.
  case_bool_decide; [done|]. apply last_snoc.
Qed.

Lemma uniq_elem ts t : t ∈ uniq ts ↔ t ∈ ts.
Proof.
  induction ts as [|x ts IH] using rev_ind; [done|]. rewrite uniq_snoc. unfold uniq_step. case_bool_decide as E.
  - rewrite IH, elem_of_app, list_elem_of_singleton. split; [by left|]. intros [?| ->]; [done|].
    rewrite <-IH. by apply last_Some_elem_of in E.
  - by rewrite !elem_of_app, IH.
Qed.

Lemma uniq_length ts : (length (uniq ts) <= length ts)%nat.
Proof.
  induction ts as [|x ts IH] using rev_ind; [done|]. rewrite uniq_snoc. unfold uniq_step.
  case_bool_decide; rewrite ?length_app; simpl; lia.
Qed.

Lemma same_triple a b : ((tr_s a =? tr_s b) && (tr_p a =? tr_p b) && (tr_o a =? tr_o b)) = bool_decide (a = b).
Proof.
  case_bool_decide as E; [subst; by rewrite !Z.eqb_refl|]. destruct a, b; simpl in *.
  apply andb_false_iff. destruct (Z.eqb_spec tr_o tr_o0); [left|by right]. apply andb_false_iff.
  destruct (Z.eqb_spec tr_s tr_s0); [right|by left]. apply Z.eqb_neq. congruence.
Qed.

Lemma dedup_loop ts k : (S k <= length ts)%nat →
  ∃ arr n, foldM dedup_step (ts, 1%nat) (seq 1 k) = Ok (arr, n) ∧ length arr = length ts ∧
    drop k arr = drop k ts ∧ take n arr = uniq (take (S k) ts) ∧ (n <= S k)%nat ∧ n = length (uniq (take (S k) ts)).
Proof.
  induction k as [|k IH]; intros Hk.
  { exists ts, 1%nat. destruct ts as [|t ts]; simpl in *; [lia|]. split_and!; try done. }
  destruct IH as (arr & n & E & Hl & Hd & Ht & Hn & Hlen); [lia|].
  rewrite seq_S, foldM_app, E. cbn [mbind outcome_bind foldM].
  destruct (lookup_lt_is_Some_2 ts (S k)) as [x Hx]; [lia|]. destruct (lookup_lt_is_Some_2 ts k) as [y Hy]; [lia|].
  assert (Ha : ∀ j, (k <= j)%nat → arr !! j = ts !! j).
  { intros j Hj. pose proof (f_equal (.!! (j - k)%nat) Hd) as Hj'. rewrite !lookup_drop in Hj'. by replace (k + (j - k))%nat with j in Hj' by lia. }
  unfold dedup_step. change (1 + k)%nat with (S k). replace (S k - 1)%nat with k by lia.
  rewrite (proj2 (read_Ok arr (S k) x)) by (rewrite Ha; [done|lia]). cbn [mbind outcome_bind].
  rewrite (proj2 (read_Ok arr k y)) by (rewrite Ha; [done|lia]). cbn [mbind outcome_bind]. rewrite same_triple.
  assert (Htk : take (S (S k)) ts = take (S k) ts ++ [x]) by (by apply take_S_r).
  assert (Hlast : last (uniq (take (S k) ts)) = Some y).
  { rewrite uniq_last. rewrite (take_S_r ts k y Hy). apply last_snoc. }
  assert (Hu : uniq (take (S (S k)) ts) = if bool_decide (x = y) then uniq (take (S k) ts) else uniq (take (S k) ts) ++ [x]).
  { rewrite Htk, uniq_snoc. unfold uniq_step. rewrite Hlast. repeat case_bool_decide; congruence. }
  rewrite Hu. case_bool_decide.
  - exists arr, n. split_and!; [done..| |done|lia|done]. rewrite <-!(Nat.add_1_r k), <-!drop_drop, Hd. done.
  - unfold write. rewrite bool_decide_true by lia. cbn [mbind outcome_bind]. eexists _, _. split; [done|].
    rewrite length_insert. split_and!; [done| | |lia|rewrite length_app; simpl; lia].
    + apply list_eq. intros i. rewrite !lookup_drop. destruct (decide (n = S k + i)%nat) as [->|].
      * rewrite list_lookup_insert_eq by lia. assert (i = 0)%nat as -> by lia. by rewrite Nat.add_0_r.
      * rewrite list_lookup_insert_ne by done. apply Ha. lia.
    + rewrite (take_S_r _ n x) by (apply list_lookup_insert_eq; lia). rewrite take_insert_ge by lia. by rewrite Ht.
Qed.

Lemma dedup_triples_ok ts : dedup_triples ts = Ok (uniq ts).
Proof.
  unfold dedup_triples. destruct (Nat.leb_spec (length ts) 1) as [Hs|Hs].
  - destruct ts as [|t [|t' ts]]; simpl in *; [done|done|lia].
  - destruct (dedup_loop ts (length ts - 1)) as (arr & n & -> & _ & _ & Ht & _); [lia|]. cbn [mbind outcome_bind].
    rewrite Ht. rewrite firstn_all2 by lia. done.
Qed.

(** ** The orders are strict and total *)

(** the lexicographic order of three keys *)
Definition lex3 (k1 k2 k3 : triple_t → sid_t) (a b : triple_t) : Prop :=
  k1 a < k1 b ∨ k1 a = k1 b ∧ (k2 a < k2 b ∨ k2 a = k2 b ∧ k3 a < k3 b).

Lemma spo_lex a b : triple_sort_by_spo a b = true ↔ lex3 tr_s tr_p tr_o a b.
Proof. unfold triple_sort_by_spo, lex3. repeat case_match; rewrite ?andb_true_iff, ?andb_false_iff in *; split; intros; try done; try lia. Qed.

Lemma ops_lex a b : triple_sort_by_ops a b = true ↔ lex3 tr_o tr_p tr_s a b.
Proof. unfold triple_sort_by_ops, lex3. repeat case_match; rewrite ?andb_true_iff, ?andb_false_iff in *; split; intros; try done; try lia. Qed.

Section total_order.
  Context (lt : triple_t → triple_t → bool) (k1 k2 k3 : triple_t → sid_t).
  Hypothesis Hlt : ∀ a b, lt a b = true ↔ lex3 k1 k2 k3 a b.
  Hypothesis Hkeys : ∀ a b, k1 a = k1 b → k2 a = k2 b → k3 a = k3 b → a = b.

Lemma lt_false a b : lt a b = false ↔ ¬ lex3 k1 k2 k3 a b.
Proof. rewrite <-Hlt. by destruct (lt a b). Qed.

Lemma order_strict_weak l : strict_weak l lt.
Proof.
  split.
  - intros x _. apply lt_false. unfold lex3. lia.
  - intros x y z _ _ _ H1%Hlt H2%Hlt. apply Hlt. unfold lex3 in *. lia.
  - intros x y z _ _ _ H1%lt_false H2%lt_false H3%lt_false H4%lt_false. rewrite !lt_false. unfold lex3 in *. lia.
Qed.

Lemma order_antisym a b : lt a b = false → lt b a = false → a = b.
Proof. intros H1%lt_false H2%lt_false. unfold lex3 in *. apply Hkeys; lia. Qed.

Lemma order_le_trans a b c : lt b a = false → lt c b = false → lt c a = false.
Proof. intros H1%lt_false H2%lt_false. apply lt_false. unfold lex3 in *. lia. Qed.

(** a sorted list without adjacent duplicates is strictly sorted *)
Lemma uniq_sorted l : StronglySorted (λ x y, lt y x = false) l → StronglySorted (λ x y, lt x y = true) (uniq l).
Proof.
  induction l as [|x l IH] using rev_ind; intros Hs; [constructor|].
  apply StronglySorted_app in Hs as (Hxy & Hl & _). specialize (IH Hl). rewrite uniq_snoc. unfold uniq_step.
  case_bool_decide as E; [done|]. apply StronglySorted_app_2; [|done|repeat constructor].
  intros y z Hy Hz. apply list_elem_of_singleton in Hz as ->. rewrite uniq_elem in Hy.
  destruct (lt y x) eqn:Eyx; [done|]. destruct E. rewrite uniq_last.
  assert (y = x) as -> by (apply order_antisym; [done|by apply Hxy; [|set_solver]]).
  destruct (last l) as [w|] eqn:Ew; [|apply last_None in Ew; subst; by apply elem_of_nil in Hy]. f_equal.
  apply order_antisym; [|by apply Hxy; [apply last_Some_elem_of|set_solver]].
  apply last_Some in Ew as [l' ->]. apply StronglySorted_app in Hl as (Hl' & _ & _).
  apply elem_of_app in Hy as [Hy|Hy]; [by apply Hl'; [|set_solver]|]. apply list_elem_of_singleton in Hy as ->.
  apply lt_false. unfold lex3. lia.
Qed.

Lemma strict_sorted_nodup l : StronglySorted (λ x y, lt x y = true) l → NoDup l.
Proof.
  induction 1 as [|x l Hs IH Hx]; constructor; [|done]. intros Hin. rewrite Forall_forall in Hx.
  specialize (Hx x Hin). apply Hlt in Hx. unfold lex3 in Hx. lia.
Qed.
End total_order.

(** ** What a partition holds *)

Definition encode_triple (t : triple_t) : list sid_t := [tr_s t; tr_p t; tr_o t].
Definition encode (ts : list triple_t) : list sid_t := concat (encode_triple <$> ts).

Lemma encode_length ts : length (encode ts) = (3 * length ts)%nat.
Proof. unfold encode. induction ts as [|t ts IH]; [done|]. rewrite fmap_cons. cbn [concat]. rewrite length_app, IH. simpl. lia. Qed.

Lemma encode_app ts1 ts2 : encode (ts1 ++ ts2) = encode ts1 ++ encode ts2.
Proof. unfold encode. by rewrite fmap_app, concat_app. Qed.

Lemma encode_lookup ts i t j x : ts !! i = Some t → encode_triple t !! j = Some x → encode ts !! (i * 3 + j)%nat = Some x.
Proof.
  intros Hi Hj. assert (j < 3)%nat by (apply lookup_lt_Some in Hj; exact Hj).
  revert i Hi. induction ts as [|t' ts IH]; intros [|i] Hi; simpl in *; try done.
  - injection Hi as ->. by destruct j as [|[|[|j]]].
  - by apply IH.
Qed.

(** the piece holds the triples [ts] in an array of [cap] words *)
Record holds (cap : nat) (pc : piece) (ts : list triple_t) : Prop := {
  ho_n : pc_n pc = Z.of_nat (length ts);
  ho_cap : length (pc_buf pc) = cap;
  ho_buf : take (3 * length ts) (pc_buf pc) = encode ts
}.

Lemma holds_fits cap pc ts : holds cap pc ts → (3 * length ts <= cap)%nat.
Proof. intros [_ Hc Hb]. pose proof (f_equal length Hb) as Hl. rewrite length_take, encode_length, Hc in Hl. lia. Qed.

Lemma holds_at cap pc ts i t : holds cap pc ts → ts !! i = Some t → triple_at (pc_buf pc) i = Ok t.
Proof.
  intros Hp Hi. assert (Hj : ∀ j x, encode_triple t !! j = Some x → pc_buf pc !! (i * 3 + j)%nat = Some x).
  { intros j x Hx. pose proof (encode_lookup ts i t j x Hi Hx) as He. rewrite <-(ho_buf _ _ _ Hp) in He.
    by apply lookup_take_Some in He as [? _]. }
  pose proof (Hj 0%nat _ eq_refl) as H0. rewrite Nat.add_0_r in H0. pose proof (Hj 1%nat _ eq_refl) as H1. pose proof (Hj 2%nat _ eq_refl) as H2.
  apply read_Ok in H0, H1, H2. unfold triple_at. rewrite H0, H1, H2. by destruct t.
Qed.

Definition ids_ok (t : triple_t) : Prop := (0 <= tr_s t < 2 ^ 32 ∧ 0 <= tr_p t < 2 ^ 32 ∧ 0 <= tr_o t < 2 ^ 32)%Z.

Section aggregated.
  Context `{Config} `{StdSort} (sid : Z).
  Hypothesis Hservers : 0 < global_num_servers < 2 ^ 31.

(** the triples that thread [tid] of server [sid] stores by the id [k] *)
Definition mine (k : triple_t → sid_t) (tid : Z) (t : triple_t) : bool :=
  (k t mod global_num_servers =? sid) && (k t mod global_num_engines =? tid).

Lemma pick_ok tid st t : ids_ok t → pick_triple sid tid st t =
  Ok (if mine tr_s tid t then st.1 ++ [t] else st.1, if mine tr_o tid t then st.2 ++ [t] else st.2).
Proof.
  intros (Hs & _ & Ho). destruct st as [spo ops]. unfold pick_triple, mine.
  by rewrite !hash_mod_Ok by lia.
Qed.

Lemma scan_ok cap tid parts tss : Forall2 (holds cap) parts tss → Forall (Forall ids_ok) tss →
  scan_partitions sid tid parts =
    Ok (filter (λ t, mine tr_s tid t = true) (concat tss), filter (λ t, mine tr_o tid t = true) (concat tss)).
Proof.
  intros Hp Hok. unfold scan_partitions.
  assert (Hst : ∀ st, foldM (λ st pc, foldM (λ st i, t ← triple_at (pc_buf pc) i; pick_triple sid tid st t) st (seq 0 (Z.to_nat (pc_n pc)))) st parts
    = Ok (st.1 ++ filter (λ t, mine tr_s tid t = true) (concat tss), st.2 ++ filter (λ t, mine tr_o tid t = true) (concat tss))).
  2:{ by rewrite Hst. }
  induction Hp as [|pc ts parts tss Hh Hp IH]; intros st; simpl; [by destruct st; rewrite !app_nil_r|].
  apply Forall_cons_iff in Hok as [Hts Hok].
  assert (Hpart : ∀ k ts1, ts1 = take k ts → (k <= length ts)%nat →
    foldM (λ st i, t ← triple_at (pc_buf pc) i; pick_triple sid tid st t) st (seq 0 k) =
      Ok (st.1 ++ filter (λ t, mine tr_s tid t = true) ts1, st.2 ++ filter (λ t, mine tr_o tid t = true) ts1)).
  { induction k as [|k IHk]; intros ts1 -> Hk; [destruct st; simpl; by rewrite !app_nil_r|].
    destruct (lookup_lt_is_Some_2 ts k) as [t Ht]; [lia|].
    rewrite seq_S, foldM_snoc, (IHk (take k ts)) by (done || lia). cbn [mbind outcome_bind Nat.add].
    rewrite (holds_at cap pc ts k t Hh Ht). cbn [mbind outcome_bind]. rewrite pick_ok by (by eapply Forall_lookup_1 in Hts).
    rewrite (take_S_r _ _ _ Ht), !filter_app, !filter_cons, !filter_nil.
    destruct (mine tr_s tid t) eqn:E1, (mine tr_o tid t) eqn:E2; repeat case_decide; try congruence; simpl; by rewrite ?app_nil_r, ?app_assoc. }
  rewrite (ho_n _ _ _ Hh), Nat2Z.id, (Hpart (length ts) ts) by (lia || by rewrite firstn_all). cbn [mbind outcome_bind].
  rewrite IH by done. simpl. by rewrite !filter_app, !app_assoc.
Qed.

Lemma spo_keys a b : tr_s a = tr_s b → tr_p a = tr_p b → tr_o a = tr_o b → a = b.
Proof. destruct a, b; simpl. congruence. Qed.
Lemma ops_keys a b : tr_o a = tr_o b → tr_p a = tr_p b → tr_s a = tr_s b → a = b.
Proof. destruct a, b; simpl. congruence. Qed.

Lemma aggregate_thread_ok cap tid parts tss : Forall2 (holds cap) parts tss → Forall (Forall ids_ok) tss →
  ∃ spo ops, aggregate_thread sid parts tid = Ok (spo, ops) ∧
    StronglySorted (λ a b, triple_sort_by_spo a b = true) spo ∧
    (∀ t, t ∈ spo ↔ t ∈ concat tss ∧ mine tr_s tid t = true) ∧
    StronglySorted (λ a b, triple_sort_by_ops b a = false) ops ∧
    ops ≡ₚ uniq (filter (λ t, mine tr_o tid t = true) (concat tss)).
Proof.
  intros Hp Hok. unfold aggregate_thread. rewrite (scan_ok cap tid parts tss Hp Hok). cbn [mbind outcome_bind].
  rewrite dedup_triples_ok. cbn [mbind outcome_bind]. rewrite dedup_triples_ok. cbn [mbind outcome_bind].
  eexists _, _. split; [done|].
  set (l := filter (λ t, mine tr_s tid t = true) (concat tss)).
  pose proof (order_strict_weak triple_sort_by_spo tr_s tr_p tr_o spo_lex l) as Hw.
  pose proof (order_strict_weak triple_sort_by_ops tr_o tr_p tr_s ops_lex (uniq (filter (λ t, mine tr_o tid t = true) (concat tss)))) as Hw'.
  split_and!.
  - eapply uniq_sorted; [apply spo_lex|apply spo_keys|by apply std_sort_sorted].
  - intros t. rewrite uniq_elem, (std_sort_perm _ _ _ Hw). unfold l. rewrite list_elem_of_filter. tauto.
  - by apply std_sort_sorted.
  - by apply std_sort_perm.
Qed.
End aggregated.
