(* ===== verification/Exchange.v ===== *)
(** The exchange of triples between servers and the data set that a server stores:
    [send_triple] and [flush_triples] lose and duplicate nothing, whatever the
    interleaving of the threads, and the lists that [aggregate_data] hands to the
    graph store are the triples of the files that belong to the server. *)

From stdpp Require Import sorting.
From S2P Require Import Prelude Types MyMath Query Final Mem Loader Bgp.
Local Open Scope Z_scope.

(** ** Words *)

Lemma concat_replicate_nil {A} n : concat (replicate n ([] : list A)) = [].
Proof. by induction n. Qed.

Lemma write_words_ok mem pos data : (pos + length data <= length mem)%nat →
  ∃ mem', write_words mem pos data = Ok mem' ∧ length mem' = length mem ∧
    take (pos + length data) mem' = take pos mem ++ data.
Proof.
  intros Hl. unfold write_words. rewrite (proj2 (Nat.leb_le _ _) Hl). eexists. split; [done|].
  assert (Hp : length (take pos mem) = pos) by (rewrite length_take; lia). split.
  - rewrite !length_app, length_drop, Hp. lia.
  - rewrite app_assoc. apply take_app_length'. rewrite length_app. lia.
Qed.

(** writing after the triples *)
Lemma write_triples mem ts new : take (3 * length ts) mem = encode ts → (3 * (length ts + length new) <= length mem)%nat →
  ∃ mem', write_words mem (3 * length ts) (encode new) = Ok mem' ∧ length mem' = length mem ∧
    take (3 * length (ts ++ new)) mem' = encode (ts ++ new).
Proof.
  intros Ht Hl. destruct (write_words_ok mem (3 * length ts) (encode new)) as (mem' & E & Hlen & Htk).
  { rewrite encode_length. lia. }
  exists mem'. split_and!; [done..|]. rewrite encode_length in Htk. rewrite length_app, encode_app, <-Ht, <-Htk. f_equal. lia.
Qed.

Section exchange.
  Context (buf_sz kvs_sz : Z).
  Hypothesis Hbuf : 12 <= buf_sz < 2 ^ 63.
  Hypothesis Hkvs : 0 <= kvs_sz < 2 ^ 63.
  Local Abbreviation bw := (Z.to_nat (buf_sz / 4)).
  Local Abbreviation kw := (Z.to_nat (kvs_sz / 4)).

(** the destination has stored [st], and the threads still buffer [b] *)
Record chan_ok (c : channel) (st : list triple_t) (b : list (list triple_t)) : Prop := {
  co_pieces : Forall2 (holds bw) (ch_pieces c) b;
  co_num : ch_num c = Z.of_nat (length st);
  co_cap : length (ch_out c) = kw;
  co_out : take (3 * length st) (ch_out c) = encode st
}.

Definition fits (n : nat) : Prop := 12 * Z.of_nat n <= kvs_sz.

Lemma fits_words n : fits n → (3 * n <= kw)%nat.
Proof.
  unfold fits. intros Hn. assert (3 * Z.of_nat n <= kvs_sz / 4); [|lia].
  apply Z.div_le_lower_bound; lia.
Qed.

Lemma flush_ok c st b tid ts : chan_ok c st b → b !! tid = Some ts → fits (length st + length ts) →
  ∃ c', flush_triples kvs_sz c tid = Ok c' ∧ chan_ok c' (st ++ ts) (<[tid := []]> b).
Proof.
  intros [Hp Hn Hc Ho] Hb Hf. pose proof (fits_words _ Hf) as Hw. unfold fits in Hf.
  destruct (Forall2_lookup_r _ _ _ _ _ Hp Hb) as (pc & Hpc & Hh). destruct Hh as [Hpn Hpcap Hpb] eqn:Eh. clear Eh.
  unfold flush_triples. rewrite (proj2 (read_Ok _ _ _) Hpc). cbn [mbind outcome_bind]. rewrite Hpn, Hn.
  rewrite !u64_id by lia. rewrite (proj2 (Z.ltb_ge _ _)) by lia. cbn [negb mbind outcome_bind].
  pose proof (holds_fits _ _ _ Hh) as Hfit.
  assert (slice (pc_buf pc) 0 (Z.to_nat (Z.of_nat (length ts) * 3)) = Ok (encode ts)) as ->.
  { unfold slice. replace (Z.to_nat (Z.of_nat (length ts) * 3)) with (3 * length ts)%nat by lia.
    rewrite (proj2 (Nat.leb_le _ _)) by lia. rewrite Hpcap, (proj2 (Nat.leb_le _ _)) by lia. simpl andb. cbv iota.
    by rewrite drop_0, Nat.sub_0_r, Hpb. }
  cbn [mbind outcome_bind]. replace (Z.to_nat (Z.of_nat (length st) * 3)) with (3 * length st)%nat by lia.
  destruct (write_triples (ch_out c) st ts Ho) as (out & -> & Hol & Hot); [rewrite Hc; lia|]. cbn [mbind outcome_bind].
  assert (tid < length (ch_pieces c))%nat as Hlt by (by eapply lookup_lt_Some).
  unfold write. rewrite bool_decide_true by done. cbn [mbind outcome_bind]. eexists. split; [done|]. split; simpl.
  - apply Forall2_insert; [done|]. split; [done|done|]. by rewrite take_0.
  - rewrite length_app. lia.
  - by rewrite Hol.
  - done.
Qed.

Lemma send_ok c st b tid ts t : chan_ok c st b → b !! tid = Some ts → fits (length st + length (concat b)) →
  ∃ c' st' b', send_triple buf_sz kvs_sz c tid t = Ok c' ∧ chan_ok c' st' b' ∧ length b' = length b ∧
    st' ++ concat b' ≡ₚ t :: st ++ concat b.
Proof.
  intros Hc Hb Hf. unfold send_triple.
  assert (Hsplit : concat b ≡ₚ ts ++ concat (<[tid := []]> b)).
  { rewrite <-(take_drop_middle b tid ts Hb) at 1. rewrite insert_take_drop by (by eapply lookup_lt_Some).
    rewrite !concat_app. simpl. solve_Permutation. }
  (* appending to a piece with room *)
  assert (Happ : ∀ c1 st1 b1 ts1, chan_ok c1 st1 b1 → b1 !! tid = Some ts1 → 12 * Z.of_nat (length ts1) + 12 <= buf_sz →
    ∃ c', (pc ← read (ch_pieces c1) tid;
           buf ← write_words (pc_buf pc) (Z.to_nat (pc_n pc * 3)) [tr_s t; tr_p t; tr_o t];
           pcs ← write (ch_pieces c1) tid (MkPiece (u64 (pc_n pc + 1)) buf);
           Ok (MkChannel pcs (ch_num c1) (ch_out c1))) = Ok c' ∧ chan_ok c' st1 (<[tid := ts1 ++ [t]]> b1)).
  { intros c1 st1 b1 ts1 [Hp Hn Hcap Ho] Hb1 Hroom. destruct (Forall2_lookup_r _ _ _ _ _ Hp Hb1) as (pc & Hpc & [Hpn Hpcap Hpb]).
    rewrite (proj2 (read_Ok _ _ _) Hpc). cbn [mbind outcome_bind]. rewrite Hpn.
    replace (Z.to_nat (Z.of_nat (length ts1) * 3)) with (3 * length ts1)%nat by lia.
    assert (3 * Z.of_nat (length ts1) + 3 <= buf_sz / 4) by (apply Z.div_le_lower_bound; lia).
    destruct (write_triples (pc_buf pc) ts1 [t] Hpb) as (buf & E & Hl & Ht); [simpl; lia|].
    change (encode [t]) with [tr_s t; tr_p t; tr_o t] in E. rewrite E. cbn [mbind outcome_bind].
    unfold write. rewrite bool_decide_true by (by eapply lookup_lt_Some). cbn [mbind outcome_bind]. eexists. split; [done|].
    split; simpl; try done. apply Forall2_insert; [done|]. split; simpl; [|by rewrite Hl|done]. rewrite length_app, u64_id; simpl; lia. }
  destruct (Forall2_lookup_r _ _ _ _ _ (co_pieces _ _ _ Hc) Hb) as (pc & Hpc & Hh).
  rewrite (proj2 (read_Ok _ _ _) Hpc). cbn [mbind outcome_bind]. rewrite (ho_n _ _ _ Hh).
  assert (length ts <= length (concat b))%nat by (rewrite Hsplit, length_app; lia). unfold fits in Hf.
  rewrite u64_id by lia. destruct (Z.ltb_spec buf_sz ((Z.of_nat (length ts) * 3 + 3) * 4)).
  - destruct (flush_ok c st b tid ts Hc Hb) as (c1 & -> & Hc1); [unfold fits; lia|]. cbn [mbind outcome_bind].
    assert (Hb1 : <[tid := []]> b !! tid = Some []) by (apply list_lookup_insert_eq; by eapply lookup_lt_Some).
    destruct (Forall2_lookup_r _ _ _ _ _ (co_pieces _ _ _ Hc1) Hb1) as (pc1 & Hpc1 & Hh1).
    assert (Ez : pc_n pc1 = 0) by apply (ho_n _ _ _ Hh1).
    rewrite (proj2 (read_Ok _ _ _) Hpc1). cbn [mbind outcome_bind]. rewrite Ez. cbn [Z.eqb mbind outcome_bind].
    destruct (Happ c1 _ _ [] Hc1 Hb1) as (c' & E & Hc'); [simpl; lia|].
    exists c', (st ++ ts), (<[tid := [t]]> (<[tid := []]> b)). split_and!; [exact E|exact Hc'|by rewrite !length_insert|].
    rewrite list_insert_insert_eq. rewrite Hsplit. rewrite !insert_take_drop by (by eapply lookup_lt_Some). rewrite !concat_app. simpl. solve_Permutation.
  - cbn [mbind outcome_bind]. destruct (Happ c st b ts Hc Hb) as (c' & E & Hc'); [lia|].
    exists c', st, (<[tid := ts ++ [t]]> b). split_and!; [exact E|exact Hc'|by rewrite length_insert|].
    rewrite Hsplit. rewrite !insert_take_drop by (by eapply lookup_lt_Some). rewrite !concat_app. simpl. solve_Permutation.
Qed.

(** flushing the buffers of all threads *)
Lemma flush_all c st b k : chan_ok c st b → (k <= length b)%nat → fits (length st + length (concat b)) →
  ∃ c', foldM (flush_triples kvs_sz) c (seq 0 k) = Ok c' ∧ chan_ok c' (st ++ concat (take k b)) (replicate k [] ++ drop k b).
Proof.
  intros Hc Hk Hf. induction k as [|k IH].
  { exists c. split; [done|]. by rewrite take_0, app_nil_r, drop_0. }
  destruct IH as (c1 & E & Hc1); [lia|]. destruct (lookup_lt_is_Some_2 b k) as [ts Hts]; [lia|].
  assert (Hsum : (length (concat (take k b)) + length ts <= length (concat b))%nat).
  { rewrite <-(take_drop_middle b k ts Hts) at 2. rewrite concat_app, length_app. simpl. rewrite length_app. lia. }
  destruct (flush_ok c1 _ _ k ts Hc1) as (c2 & E2 & Hc2).
  { rewrite lookup_app_r; rewrite length_replicate; [|lia]. by rewrite Nat.sub_diag, lookup_drop, Nat.add_0_r. }
  { unfold fits in *. rewrite length_app. lia. }
  exists c2. rewrite seq_S, foldM_snoc, E. split; [exact E2|].
  rewrite (take_S_r _ _ _ Hts), concat_app. simpl. rewrite app_nil_r, app_assoc.
  replace ([] :: replicate k [] ++ drop (S k) b) with (<[k := []]> (replicate k [] ++ drop k b)); [done|].
  rewrite (drop_S _ _ _ Hts). rewrite insert_app_r_alt by (rewrite length_replicate; lia). rewrite length_replicate, Nat.sub_diag. simpl.
  by rewrite app_comm_cons, <-replicate_S, replicate_S_end, <-app_assoc.
Qed.

(** ** All destinations *)

Context `{Config}.
Hypothesis Hservers : 0 < global_num_servers < 2 ^ 31.

(** the triple is sent to [dst] *)
Definition routed (dst : Z) (t : triple_t) : bool :=
  (tr_s t mod global_num_servers =? dst) || (tr_o t mod global_num_servers =? dst).
Definition routed_to (dst : nat) (ts : list triple_t) : list triple_t := filter (λ t, routed (Z.of_nat dst) t = true) ts.

(** the triples sent to one destination *)
Definition carries (c : channel) (ts : list triple_t) : Prop :=
  ∃ st b, chan_ok c st b ∧ length b = Z.to_nat global_num_engines ∧ st ++ concat b ≡ₚ ts.

Lemma send_carries c ts tid t : carries c ts → (tid < Z.to_nat global_num_engines)%nat → fits (length ts) →
  ∃ c', send_triple buf_sz kvs_sz c tid t = Ok c' ∧ carries c' (t :: ts).
Proof.
  intros (st & b & Hc & Hl & Hp) Ht Hf. destruct (lookup_lt_is_Some_2 b tid) as [x Hx]; [lia|].
  destruct (send_ok c st b tid x t Hc Hx) as (c' & st' & b' & E & Hc' & Hl' & Hp').
  { unfold fits in *. rewrite <-Hp, length_app in Hf. lia. }
  exists c'. split; [done|]. exists st', b'. split_and!; [done|lia|]. by rewrite Hp', Hp.
Qed.

(** sending one triple to one server *)
Lemma send_server_ok cs tid dst t ts : (dst < length cs)%nat → (tid < Z.to_nat global_num_engines)%nat →
  (∃ c, cs !! dst = Some c ∧ carries c ts) → fits (length ts) →
  ∃ cs', send_to_server buf_sz kvs_sz cs tid (Z.of_nat dst) t = Ok cs' ∧ length cs' = length cs ∧
    (∃ c, cs' !! dst = Some c ∧ carries c (t :: ts)) ∧ ∀ d, d ≠ dst → cs' !! d = cs !! d.
Proof.
  intros Hd Ht (c & Hc & Hca) Hf. unfold send_to_server. rewrite Nat2Z.id, (proj2 (read_Ok _ _ _) Hc). cbn [mbind outcome_bind].
  destruct (send_carries c ts tid t Hca Ht Hf) as (c' & -> & Hc'). cbn [mbind outcome_bind].
  unfold write. rewrite bool_decide_true by done. eexists. split; [done|]. rewrite length_insert. split_and!; [done| |].
  - exists c'. split; [by apply list_lookup_insert_eq|done].
  - intros d Hne. by apply list_lookup_insert_ne.
Qed.

(** what all destinations have been sent *)
Definition all_carry (cs : list channel) (ts : list triple_t) : Prop :=
  length cs = Z.to_nat global_num_servers ∧ ∀ dst c, cs !! dst = Some c → ∃ us, carries c us ∧ us ≡ₚ routed_to dst ts.

Lemma load_triple_ok cs ts tid t : all_carry cs ts → ids_ok t → (tid < Z.to_nat global_num_engines)%nat →
  (∀ dst, (dst < Z.to_nat global_num_servers)%nat → fits (length (routed_to dst ts))) →
  ∃ cs', load_triple buf_sz kvs_sz cs tid t = Ok cs' ∧ all_carry cs' (ts ++ [t]).
Proof.
  intros [Hl Hcs] (Hs & _ & Ho) Ht Hf. unfold load_triple. rewrite !hash_mod_Ok by lia. cbn [mbind outcome_bind].
  pose proof (Z.mod_pos_bound (tr_s t) global_num_servers (proj1 Hservers)) as Bs. pose proof (Z.mod_pos_bound (tr_o t) global_num_servers (proj1 Hservers)) as Bo.
  set (ds := Z.to_nat (tr_s t mod global_num_servers)). set (do := Z.to_nat (tr_o t mod global_num_servers)).
  assert (Hg : ∀ d, (d < Z.to_nat global_num_servers)%nat → ∃ c us, cs !! d = Some c ∧ carries c us ∧ us ≡ₚ routed_to d ts).
  { intros d Hd. destruct (lookup_lt_is_Some_2 cs d) as [c Hc]; [lia|]. destruct (Hcs d c Hc) as (us & ? & ?). by exists c, us. }
  assert (Hr : ∀ d, routed_to d (ts ++ [t]) = routed_to d ts ++ (if (d =? ds)%nat || (d =? do)%nat then [t] else [])).
  { intros d. unfold routed_to. rewrite filter_app, filter_cons, filter_nil. f_equal. unfold routed, ds, do.
    destruct (Nat.eqb_spec d (Z.to_nat (tr_s t mod global_num_servers))), (Nat.eqb_spec d (Z.to_nat (tr_o t mod global_num_servers)));
      case_decide as Hd; rewrite ?orb_true_iff, ?Z.eqb_eq in Hd; simpl; try done; destruct Hd; lia. }
  destruct (Hg ds) as (c & us & Hc & Hca & Hus); [lia|].
  destruct (send_server_ok cs tid ds t us) as (cs1 & E1 & Hl1 & (c1 & Hc1 & Hca1) & Hoth1); [lia|done|by exists c| |].
  { rewrite Hus. apply Hf. lia. }
  replace (tr_s t mod global_num_servers) with (Z.of_nat ds) by lia. rewrite E1. cbn [mbind outcome_bind].
  replace (tr_o t mod global_num_servers) with (Z.of_nat do) by lia.
  destruct (Z.eqb_spec (Z.of_nat ds) (Z.of_nat do)) as [Heq|Hne].
  - exists cs1. split; [done|]. split; [lia|]. intros d c' Hc'. rewrite Hr. assert (ds = do) as <- by lia. destruct (Nat.eqb_spec d ds) as [->|Hd]; simpl.
    + rewrite Hc1 in Hc'. injection Hc' as <-. exists (t :: us). split; [done|]. rewrite Hus. solve_Permutation.
    + rewrite Hoth1 in Hc' by done. rewrite app_nil_r. by apply Hcs.
  - destruct (Hg do) as (c2 & us2 & Hc2 & Hca2 & Hus2); [lia|].
    destruct (send_server_ok cs1 tid do t us2) as (cs2 & E2 & Hl2 & (c3 & Hc3 & Hca3) & Hoth2); [lia|done|exists c2; split; [rewrite Hoth1; [done|lia]|done]| |].
    { rewrite Hus2. apply Hf. lia. }
    exists cs2. split; [done|]. split; [lia|]. intros d c' Hc'. rewrite Hr. destruct (Nat.eqb_spec d do) as [->|Hd].
    + rewrite orb_true_r. rewrite Hc3 in Hc'. injection Hc' as <-. exists (t :: us2). split; [done|]. rewrite Hus2. solve_Permutation.
    + rewrite Hoth2 in Hc' by done. destruct (Nat.eqb_spec d ds) as [->|Hd']; simpl.
      * rewrite Hc1 in Hc'. injection Hc' as <-. exists (t :: us). split; [done|]. rewrite Hus. solve_Permutation.
      * rewrite Hoth1 in Hc' by done. rewrite app_nil_r. by apply Hcs.
Qed.

Lemma new_carry : all_carry (replicate (Z.to_nat global_num_servers) (new_channel buf_sz kvs_sz)) [].
Proof.
  split; [by rewrite length_replicate|]. intros dst c Hc. apply lookup_replicate in Hc as [-> _].
  exists []. split; [|done]. exists [], (replicate (Z.to_nat global_num_engines) []). split_and!.
  - split; simpl; rewrite ?length_replicate; try done. apply Forall2_replicate. split; simpl; by rewrite ?length_replicate.
  - by rewrite length_replicate.
  - simpl. by rewrite concat_replicate_nil.
Qed.

Lemma routed_mono dst ts us : (length (routed_to dst ts) <= length (routed_to dst (ts ++ us)))%nat.
Proof. unfold routed_to. rewrite filter_app, length_app. lia. Qed.

Lemma load_all_ok cs ts input : all_carry cs ts → Forall (λ e, (e.1 < Z.to_nat global_num_engines)%nat ∧ ids_ok e.2) input →
  (∀ dst, (dst < Z.to_nat global_num_servers)%nat → fits (length (routed_to dst (ts ++ input.*2)))) →
  ∃ cs', foldM (λ cs '(tid, t), load_triple buf_sz kvs_sz cs tid t) cs input = Ok cs' ∧ all_carry cs' (ts ++ input.*2).
Proof.
  revert cs ts. induction input as [|[tid t] input IH]; intros cs ts Hcs Hin Hf; [exists cs; by rewrite app_nil_r|].
  rewrite fmap_cons in *. cbn [foldM snd] in *.
  apply Forall_cons_iff in Hin as [[Ht Hok] Hin]. simpl in Ht, Hok.
  destruct (load_triple_ok cs ts tid t Hcs Hok Ht) as (cs1 & -> & Hcs1).
  { intros dst Hd. specialize (Hf dst Hd). pose proof (routed_mono dst ts (t :: input.*2)). unfold fits in *. lia. }
  cbn [mbind outcome_bind]. destruct (IH cs1 (ts ++ [t])) as (cs' & E & Hcs'); [done|done| |].
  - intros dst Hd. rewrite <-app_assoc. by apply Hf.
  - exists cs'. split; [exact E|]. by rewrite <-app_assoc in Hcs'.
Qed.

(** the final flush of destination after destination *)
Lemma flush_dests_ok cs ts k : all_carry cs ts → (k <= Z.to_nat global_num_servers)%nat →
  (∀ dst, (dst < Z.to_nat global_num_servers)%nat → fits (length (routed_to dst ts))) →
  ∃ cs', foldM (λ cs s, c ← read cs s; c ← foldM (flush_triples kvs_sz) c (seq 0 (Z.to_nat global_num_engines)); write cs s c) cs (seq 0 k) = Ok cs' ∧
    length cs' = length cs ∧ (∀ d, (k <= d)%nat → cs' !! d = cs !! d) ∧
    (∀ d, (d < k)%nat → ∃ c st, cs' !! d = Some c ∧ holds kw (partition_of c) st ∧ st ≡ₚ routed_to d ts).
Proof.
  intros [Hl Hcs] Hk Hf. induction k as [|k IH]; [exists cs; split_and!; [done..|lia]|].
  destruct IH as (cs1 & E & Hl1 & Hrest & Hdone); [lia|]. rewrite seq_S, foldM_snoc, E. cbn [mbind outcome_bind Nat.add].
  destruct (lookup_lt_is_Some_2 cs k) as [c Hc]; [lia|]. rewrite (proj2 (read_Ok cs1 k c)) by (by rewrite Hrest). cbn [mbind outcome_bind].
  destruct (Hcs k c Hc) as (us & (st & b & Hch & Hlb & Hp) & Hus).
  destruct (flush_all c st b (Z.to_nat global_num_engines) Hch) as (c' & -> & Hch'); [lia| |].
  { pose proof (Hf k ltac:(lia)) as Hfk. rewrite <-Hus, <-Hp, length_app in Hfk. exact Hfk. }
  cbn [mbind outcome_bind]. unfold write. rewrite bool_decide_true by lia. eexists. split; [done|]. rewrite length_insert. split_and!; [done| |].
  - intros d Hd. rewrite list_lookup_insert_ne by lia. apply Hrest. lia.
  - intros d Hd. destruct (decide (d = k)) as [->|].
    + rewrite list_lookup_insert_eq by lia. eexists _, (st ++ concat b). split; [done|]. split; [|by rewrite Hp].
      rewrite <-Hlb, firstn_all in Hch'. destruct Hch' as [_ Hn Hcap Hout]. by split.
    + rewrite list_lookup_insert_ne by done. apply Hdone. lia.
Qed.

Lemma load_data_ok input : Forall (λ e, (e.1 < Z.to_nat global_num_engines)%nat ∧ ids_ok e.2) input →
  (∀ dst, (dst < Z.to_nat global_num_servers)%nat → fits (length (routed_to dst input.*2))) →
  ∃ cs, load_data buf_sz kvs_sz (replicate (Z.to_nat global_num_servers) (new_channel buf_sz kvs_sz)) input = Ok cs ∧
    ∀ dst, (dst < Z.to_nat global_num_servers)%nat →
      ∃ c st, cs !! dst = Some c ∧ holds kw (partition_of c) st ∧ st ≡ₚ routed_to dst input.*2.
Proof.
  intros Hin Hf. unfold load_data. destruct (load_all_ok _ [] input new_carry Hin Hf) as (cs1 & -> & Hcs1). cbn [mbind outcome_bind].
  destruct (flush_dests_ok cs1 _ (Z.to_nat global_num_servers) Hcs1) as (cs2 & E & _ & _ & Hd); [lia|done|].
  by exists cs2.
Qed.
End exchange.

(** ** Loading all files on every server *)

Section allfiles.
  Context (kvs_sz : Z) `{Config} (sid : nat).
  Hypothesis Hkvs : 0 <= kvs_sz < 2 ^ 63.
  Hypothesis Hservers : 0 < global_num_servers < 2 ^ 31.
  Local Abbreviation kw := (Z.to_nat (kvs_sz / 4)).

Lemma keep_ok pc ts t : holds kw pc ts → ids_ok t → fits kvs_sz (S (length ts)) →
  ∃ pc', keep_triple kvs_sz (Z.of_nat sid) pc t = Ok pc' ∧ holds kw pc' (ts ++ routed_to sid [t]).
Proof.
  intros Hh (Hs & _ & Ho) Hf. unfold keep_triple. rewrite !hash_mod_Ok by lia. cbn [mbind outcome_bind].
  unfold routed_to. rewrite filter_cons, filter_nil. unfold routed.
  destruct (_ || _) eqn:E; [rewrite decide_True by done|rewrite decide_False by done; exists pc; by rewrite app_nil_r].
  destruct Hh as [Hn Hc Hb]. rewrite Hn. pose proof (fits_words kvs_sz _ Hf) as Hw. unfold fits in Hf.
  rewrite !u64_id by lia. rewrite (proj2 (Z.leb_le _ _)) by lia. cbn [mbind outcome_bind].
  replace (Z.to_nat (Z.of_nat (length ts) * 3)) with (3 * length ts)%nat by lia.
  destruct (write_triples (pc_buf pc) ts [t] Hb) as (buf & E' & Hl & Ht); [simpl; lia|].
  change (encode [t]) with [tr_s t; tr_p t; tr_o t] in E'. rewrite E'. cbn [mbind outcome_bind]. eexists. split; [done|].
  split; simpl; [rewrite length_app; simpl; lia|by rewrite Hl|done].
Qed.

Lemma allfiles_ok pcs tss input : Forall2 (holds kw) pcs tss → length pcs = Z.to_nat global_num_engines →
  Forall (λ e, (e.1 < Z.to_nat global_num_engines)%nat ∧ ids_ok e.2) input →
  fits kvs_sz (length (concat tss) + length input) →
  ∃ pcs' tss', load_data_from_allfiles kvs_sz (Z.of_nat sid) pcs input = Ok pcs' ∧ Forall2 (holds kw) pcs' tss' ∧
    concat tss' ≡ₚ concat tss ++ routed_to sid input.*2.
Proof.
  unfold load_data_from_allfiles. revert pcs tss. induction input as [|[tid t] input IH]; intros pcs tss Hp Hl Hin Hf.
  { exists pcs, tss. by rewrite app_nil_r. }
  apply Forall_cons_iff in Hin as [[Ht Hok] Hin]. cbn [fst snd] in Ht, Hok. cbn [foldM length] in *.
  destruct (lookup_lt_is_Some_2 pcs tid) as [pc Hpc]; [lia|]. destruct (Forall2_lookup_l _ _ _ _ _ Hp Hpc) as (ts & Hts & Hh).
  rewrite (proj2 (read_Ok _ _ _) Hpc). cbn [mbind outcome_bind].
  assert (Hsplit : ∀ us, concat (<[tid := us]> tss) ≡ₚ us ++ concat (take tid tss) ++ concat (drop (S tid) tss)).
  { intros us. rewrite insert_take_drop by (by eapply lookup_lt_Some). rewrite concat_app. simpl. solve_Permutation. }
  assert (Hall : concat tss ≡ₚ ts ++ concat (take tid tss) ++ concat (drop (S tid) tss)).
  { rewrite <-(Hsplit ts). by rewrite list_insert_id. }
  unfold fits in *. destruct (keep_ok pc ts t Hh Hok) as (pc' & -> & Hh').
  { unfold fits. pose proof (Permutation_length Hall) as Hlen. rewrite length_app in Hlen. lia. }
  cbn [mbind outcome_bind]. rewrite (proj2 (write_Ok pcs (<[tid := pc']> pcs) tid pc')) by (split; [lia|done]). cbn [mbind outcome_bind].
  assert (Hnew : (length (routed_to sid [t]) <= 1)%nat).
  { unfold routed_to. rewrite filter_cons, filter_nil. by case_decide; simpl; lia. }
  destruct (IH (<[tid := pc']> pcs) (<[tid := ts ++ routed_to sid [t]]> tss)) as (pcs' & tss' & E & Hp' & Hc'); [by apply Forall2_insert|by rewrite length_insert|done| |].
  { pose proof (Permutation_length (Hsplit (ts ++ routed_to sid [t]))) as Hlen. pose proof (Permutation_length Hall) as Hlen'.
    rewrite !length_app in Hlen; rewrite !length_app in Hlen'. lia. }
  exists pcs', tss'. split_and!; [exact E|done|]. rewrite Hc', Hsplit, Hall. rewrite fmap_cons. cbn [snd].
  change (t :: input.*2) with ([t] ++ input.*2). unfold routed_to. rewrite filter_app. solve_Permutation.
Qed.
End allfiles.

(** ** The data set of a server *)

#[export] Instance routed_to_proper `{Config} d : Proper ((≡ₚ) ==> (≡ₚ)) (routed_to d).
Proof. intros l l' Hl. unfold routed_to. by rewrite Hl. Qed.

Lemma strictly_sorted_eq l1 l2 :
  StronglySorted (λ a b, triple_sort_by_spo a b = true) l1 → StronglySorted (λ a b, triple_sort_by_spo a b = true) l2 →
  (∀ t, t ∈ l1 ↔ t ∈ l2) → l1 = l2.
Proof.
  intros H1 H2 He. assert (AntiSymm eq (λ a b, triple_sort_by_spo a b = true)).
  { intros a b Ha%spo_lex Hb%spo_lex. unfold lex3 in *. lia. }
  apply (StronglySorted_unique (λ a b, triple_sort_by_spo a b = true)); [done..|].
  apply NoDup_Permutation; [by eapply strict_sorted_nodup; [apply spo_lex|]..|done].
Qed.

Section dataset.
  Context `{Config} `{StdSort} (buf_sz kvs_sz kvs_sz' : Z).
  Hypothesis Hbuf : 12 <= buf_sz < 2 ^ 63.
  Hypothesis Hkvs : 0 <= kvs_sz < 2 ^ 63.
  Hypothesis Hkvs' : 0 <= kvs_sz' < 2 ^ 63.
  Hypothesis Hservers : 0 < global_num_servers < 2 ^ 31.

(** the partition that the loader of one server has written at server [d] *)
Definition partition_at (d : nat) (input : list (nat * triple_t)) (part : piece) : Prop :=
  ∃ cs c, load_data buf_sz kvs_sz (replicate (Z.to_nat global_num_servers) (new_channel buf_sz kvs_sz)) input = Ok cs ∧
    cs !! d = Some c ∧ part = partition_of c.

Definition input_ok (input : list (nat * triple_t)) : Prop :=
  Forall (λ e, (e.1 < Z.to_nat global_num_engines)%nat ∧ ids_ok e.2) input.

Lemma partitions_ok d inputs : (d < Z.to_nat global_num_servers)%nat → Forall input_ok inputs →
  Forall (λ input, 12 * Z.of_nat (length input) <= kvs_sz) inputs →
  ∃ parts tss, Forall2 (partition_at d) inputs parts ∧ Forall2 (holds (Z.to_nat (kvs_sz / 4))) parts tss ∧
    concat tss ≡ₚ routed_to d (concat inputs).*2.
Proof.
  intros Hd. induction inputs as [|input inputs IH]; intros Hin Hf; [by exists [], []|].
  apply Forall_cons_iff in Hin as [Hi Hin]. apply Forall_cons_iff in Hf as [Hfi Hf].
  destruct (IH Hin Hf) as (parts & tss & Hparts & Hh & Hc).
  destruct (load_data_ok buf_sz kvs_sz Hbuf Hkvs Hservers input Hi) as (cs & E & Hcs).
  { intros dst _. unfold fits, routed_to. pose proof (length_filter (λ t, routed (Z.of_nat dst) t = true) input.*2) as Hl.
    rewrite length_fmap in Hl. lia. }
  destruct (Hcs d Hd) as (c & st & Hcd & Hst & Hp).
  exists (partition_of c :: parts), (st :: tss). split_and!; [constructor; [by exists cs, c|done]|by constructor|].
  simpl. rewrite fmap_app. unfold routed_to. rewrite filter_app. by rewrite Hc, Hp.
Qed.

(** C14: the two ways of loading give every thread of every server the same data: with
    RDMA each server reads its files and sends every triple to the servers of its
    subject and its object through the buffers of its threads; without RDMA each
    server reads all files. Whatever the interleaving of the threads, both succeed
    when the partitions have room, and both give thread [tid] of server [d] the same
    list of the triples whose subject it owns, sorted and without duplicates, and
    lists with the same triples for the objects. *)
Theorem loaders_agree (d : nat) (tid : Z) (inputs : list (list (nat * triple_t))) (all : list (nat * triple_t)) :
  (d < Z.to_nat global_num_servers)%nat → Forall input_ok inputs → input_ok all → all.*2 ≡ₚ (concat inputs).*2 →
  Forall (λ input, 12 * Z.of_nat (length input) <= kvs_sz) inputs → 12 * Z.of_nat (length all) <= kvs_sz' →
  ∃ parts pcs spo ops ops',
    Forall2 (partition_at d) inputs parts ∧ aggregate_thread (Z.of_nat d) parts tid = Ok (spo, ops) ∧
    load_data_from_allfiles kvs_sz' (Z.of_nat d)
      (replicate (Z.to_nat global_num_engines) (MkPiece 0 (replicate (Z.to_nat (kvs_sz' / 4)) 0))) all = Ok pcs ∧
    aggregate_thread (Z.of_nat d) pcs tid = Ok (spo, ops') ∧
    StronglySorted (λ a b, triple_sort_by_spo a b = true) spo ∧
    (∀ t, t ∈ spo ↔ t ∈ all.*2 ∧ mine (Z.of_nat d) tr_s tid t = true) ∧
    StronglySorted (λ a b, triple_sort_by_ops b a = false) ops ∧
    (∀ t, t ∈ ops ↔ t ∈ all.*2 ∧ mine (Z.of_nat d) tr_o tid t = true) ∧ (∀ t, t ∈ ops' ↔ t ∈ ops).
Proof.
  intros Hd Hin Hall Hsame Hf Hf'. destruct (partitions_ok d inputs Hd Hin Hf) as (parts & tss & Hparts & Hh & Hc).
  destruct (allfiles_ok kvs_sz' d Hkvs' Hservers (replicate (Z.to_nat global_num_engines) (MkPiece 0 (replicate (Z.to_nat (kvs_sz' / 4)) 0)))
    (replicate (Z.to_nat global_num_engines) []) all) as (pcs & tss' & E & Hh' & Hc').
  { apply Forall2_replicate. split; simpl; by rewrite ?length_replicate. }
  { by rewrite length_replicate. }
  { exact Hall. }
  { unfold fits. rewrite concat_replicate_nil. simpl. lia. }
  rewrite concat_replicate_nil in Hc'. simpl in Hc'. rewrite Hsame in Hc'.
  assert (Hids : ∀ ts : list triple_t, ts ≡ₚ routed_to d (concat inputs).*2 → Forall ids_ok ts).
  { intros ts Hts. apply Forall_forall. intros t Ht. rewrite Hts in Ht. unfold routed_to in Ht. apply list_elem_of_filter in Ht as [_ Ht].
    rewrite <-Hsame in Ht. apply list_elem_of_fmap in Ht as (e & -> & He). unfold input_ok in Hall. rewrite Forall_forall in Hall. by apply Hall. }
  destruct (aggregate_thread_ok (Z.of_nat d) Hservers _ tid parts tss Hh) as (spo & ops & E1 & Hs1 & Hm1 & Ho1 & Hp1).
  { apply Forall_concat, Hids, Hc. }
  destruct (aggregate_thread_ok (Z.of_nat d) Hservers _ tid pcs tss' Hh') as (spo' & ops' & E2 & Hs2 & Hm2 & Ho2 & Hp2).
  { apply Forall_concat, Hids, Hc'. }
  assert (Hmine : ∀ k t, (k = tr_s ∨ k = tr_o) → t ∈ routed_to d (concat inputs).*2 ∧ mine (Z.of_nat d) k tid t = true ↔
    t ∈ all.*2 ∧ mine (Z.of_nat d) k tid t = true).
  { intros k t Hk. rewrite Hsame. unfold routed_to. rewrite list_elem_of_filter. split; [tauto|]. intros [Ht Hm]. split_and!; try done.
    unfold mine in Hm. apply andb_true_iff in Hm as [Hm _]. unfold routed. destruct Hk as [-> | ->]; rewrite Hm; [done|apply orb_true_r]. }
  assert (spo' = spo) as ->.
  { apply strictly_sorted_eq; [done..|]. intros t. by rewrite Hm1, Hm2, Hc, Hc'. }
  exists parts, pcs, spo, ops, ops'. split_and!; try done.
  - intros t. rewrite Hm1, Hc. apply Hmine. by left.
  - intros t. rewrite Hp1, uniq_elem, list_elem_of_filter, Hc, <-(Hmine tr_o) by (by right). tauto.
  - intros t. rewrite Hp1, Hp2, !uniq_elem, !list_elem_of_filter. by rewrite Hc, Hc'.
Qed.
End dataset.

(** duplicate triples survive on the object side: [aggregate_data] removes the
    adjacent duplicates of the objects' list before it sorts that list (and those of
    the subjects' list after it sorted it), so a triple that occurs twice, with
    another one in between, is stored once for its subject but twice for its
    object. *)
Theorem object_duplicates_kept `{Config} `{StdSort} (sid tid : Z) (cap : nat) (part : piece) (t u : triple_t) :
  0 < global_num_servers < 2 ^ 31 → holds cap part [t; u; t] → ids_ok t → ids_ok u → t ≠ u →
  mine sid tr_o tid t = true → mine sid tr_o tid u = true →
  ∃ spo ops, aggregate_thread sid [part] tid = Ok (spo, ops) ∧ NoDup spo ∧ ¬ NoDup ops.
Proof.
  intros Hs Hh Ht Hu Hne Hmt Hmu.
  destruct (aggregate_thread_ok sid Hs cap tid [part] [[t; u; t]]) as (spo & ops & E & Hsort & _ & _ & Hp); [by apply Forall2_cons; split|apply Forall_singleton; by rewrite !Forall_cons, Forall_nil|].
  exists spo, ops. split_and!; [done|by eapply strict_sorted_nodup; [apply spo_lex|]|].
  rewrite Hp. simpl. rewrite !filter_cons, filter_nil, !decide_True by done.
  assert (uniq [t; u; t] = [t; u; t]) as ->.
  { unfold uniq, uniq_step. simpl. repeat (case_bool_decide; simpl in *; try congruence). }
  intros Hnd. apply NoDup_cons in Hnd as [Hnd _]. apply Hnd. set_solver.
Qed.

(** *** Two triples on one server *)

Definition pair_input : list (nat * triple_t) := [(0%nat, Triple 131073 5 131072); (0%nat, Triple 131072 5 131073)].

Lemma pair_input_ok : input_ok (H := one_server) pair_input.
Proof. repeat constructor; simpl; lia. Qed.

Lemma loaders_agree_witness : ∃ parts pcs spo ops ops',
  Forall2 (partition_at (H := one_server) 12 24 0) [pair_input] parts ∧
  aggregate_thread (H := one_server) (H0 := insertion_std_sort) 0 parts 0 = Ok (spo, ops) ∧
  load_data_from_allfiles (H := one_server) 32 0 [MkPiece 0 (replicate 8 0)] pair_input = Ok pcs ∧
  aggregate_thread (H := one_server) (H0 := insertion_std_sort) 0 pcs 0 = Ok (spo, ops') ∧
  Triple 131072 5 131073 ∈ spo.
Proof.
  destruct (@loaders_agree one_server insertion_std_sort 12 24 32 ltac:(lia) ltac:(lia) ltac:(lia) ltac:(simpl; lia) 0%nat 0 [pair_input] pair_input)
    as (parts & pcs & spo & ops & ops' & H1 & H2 & H3 & H4 & _ & H5 & _).
  - simpl. lia.
  - constructor; [exact pair_input_ok|constructor].
  - exact pair_input_ok.
  - reflexivity.
  - constructor; [simpl; lia|constructor].
  - simpl. lia.
  - exists parts, pcs, spo, ops, ops'. split; [exact H1|]. split; [exact H2|]. split; [exact H3|]. split; [exact H4|].
    apply H5. split; [right; left|reflexivity].
Defined.

Lemma object_duplicates_kept_witness : ∃ spo ops,
  aggregate_thread (H := one_server) (H0 := insertion_std_sort) 0
    [MkPiece 3 (encode [Triple 131072 5 131073; Triple 131073 5 131072; Triple 131072 5 131073])] 0 = Ok (spo, ops) ∧
  NoDup spo ∧ ¬ NoDup ops.
Proof.
  apply (@object_duplicates_kept one_server insertion_std_sort 0 0 9 _ (Triple 131072 5 131073) (Triple 131073 5 131072));
    [simpl; lia|split; reflexivity|split_and!; simpl; lia..|congruence|reflexivity|reflexivity].
Defined.
