(* ===== verification/Pipeline.v ===== *)
(** The whole way on one server: data files are loaded, exchanged, aggregated and
    inserted into the graph store; then the text of a query is parsed, issued,
    executed and answered. The answer is the one over the triples of the files. *)

From stdpp Require Import strings sorting.
From S2P Require Import Prelude Types MyMath Tuple Keys Coder HashTable GStore Runs Index IndexInsert Remote Attr.
From S2P Require Import Query Rows Serial Engine EngineSteps Exec.
From S2P Require Import Regex StringServer Filter Final Server Frame Bgp EndToEnd Replies Answer.
From S2P Require Import Lexer Parser ParserTotal Transfer ParseText Proxy TextAnswer Mem Loader Exchange.
Local Open Scope nat_scope.

(** ** The loaded data set *)

(** the encoding rules of the data files *)
Record data_ok (data : list triple_t) : Prop := {
  dt_wf : Forall triple_wf data;
  dt_typed : typed data data;
  dt_normal t : t ∈ data → tr_p t ≠ TYPE_ID → (2 ^ 17 <= tr_o t)%Z;
  dt_blank : no_blank data
}.

Lemma sorted_vp_le k lt l : (∀ a b, lt a b = false → vp_le k b a) →
  StronglySorted (λ a b, lt b a = false) l → StronglySorted (vp_le k) l.
Proof. intros Hk. induction 1 as [|x l Hs IH Hx]; constructor; [done|]. eapply Forall_impl; [exact Hx|]. simpl. auto. Qed.

Lemma loaded_dataset data spo ops :
  data_ok data → (∀ t, t ∈ spo ↔ t ∈ data) → (∀ t, t ∈ ops ↔ t ∈ data) →
  StronglySorted (λ a b, triple_sort_by_spo a b = true) spo → StronglySorted (λ a b, triple_sort_by_ops b a = false) ops →
  dataset_ok spo ops.
Proof.
  intros [Hwf Hty Hn Hb] Hs Ho Hss Hos. rewrite Forall_forall in Hwf. destruct Hty as [T1 T2 T3]. split.
  - apply (sorted_vp_le tr_s triple_sort_by_spo).
    + intros a b E. assert (¬ lex3 tr_s tr_p tr_o a b) by (rewrite <-spo_lex; by rewrite E). unfold lex3, vp_le in *. lia.
    + clear -Hss. induction Hss as [|x l Hs IH Hx]; constructor; [done|]. eapply Forall_impl; [exact Hx|]. simpl. intros b Hb.
      destruct (triple_sort_by_spo b x) eqn:E; [|done]. apply spo_lex in Hb, E. unfold lex3 in *. lia.
  - apply (sorted_vp_le tr_o triple_sort_by_ops); [|done].
    intros a b E. assert (¬ lex3 tr_o tr_p tr_s a b) by (rewrite <-ops_lex; by rewrite E). unfold lex3, vp_le in *. lia.
  - intros t. by rewrite Ho, Hs.
  - apply Forall_forall. intros t Ht. by apply Hwf, Hs.
  - split; [intros t Ht; by apply T1, Hs|intros t Ht; by apply T1, Ho|]. intros t t' Ht Ht'. apply T3; by apply Hs.
  - intros t Ht. by apply Hn, Hs.
  - intros t Ht. by apply Hb, Hs.
Qed.

(** ** Patterns over the data *)

(** Under a plan the variables take values of the data, never the id 0 of the index
    vertices; so the patterns hold in the store iff they hold in the data. *)
Lemma plan_transfer (cfg := one_server) g buf_sz kv Hcl Hc Hkv spo ops n j known ps (σ : assignment) :
  dataset_ok spo ops → loaded spo ops kv → plan_ok n j known ps = true →
  (∀ i p, ps !! i = Some p → source_ok (j + i) p = true) →
  (∀ v, is_sid (σ v)) → (∀ v, v ∈ known → σ v ≠ 0%Z) →
  (∀ i p, ps !! i = Some p → @pat_holds (cluster_graph [g] 0 buf_sz ∅) (@cluster_graph_ok cfg [g] 0 buf_sz ∅ (λ _, kv) Hcl Hc Hkv) (j + i) σ p)
  ↔ (∀ i p, ps !! i = Some p → triple_holds spo (j + i) σ p).
Proof.
  intros Hds Hld. revert j known. induction ps as [|p ps IH]; intros j known Hplan Hsrc Hsid Hkn; [by split|].
  cbn [plan_ok] in Hplan. rewrite !andb_true_iff in Hplan. destruct Hplan as [[Hpok Hstep] Hplan].
  assert (Hown : ∀ v, @owner cfg v = 0) by (intros v; unfold owner; simpl; by rewrite Z.mod_1_r).
  assert (Hpat : @pat_holds (cluster_graph [g] 0 buf_sz ∅) (@cluster_graph_ok cfg [g] 0 buf_sz ∅ (λ _, kv) Hcl Hc Hkv) j σ p ↔ triple_holds spo j σ p).
  { apply (pat_holds_triple _ _ kv spo ops) with (n := n); [done|done|by apply dataset_triples|done|done|rewrite <-(Nat.add_0_r j); by apply (Hsrc 0 p)|].
    destruct ((j =? 0) && is_tpid (subject p)) eqn:E; [done|]. intros Hneg. split; [done|]. apply Hkn.
    destruct j as [|j]; simpl in Hstep, E; [rewrite E in Hstep; lia|]. apply orb_true_iff in Hstep as [H1|H1]; [by apply bool_decide_eq_true in H1|].
    apply andb_true_iff in H1 as [H1 _]. lia. }
  assert (Hobj : triple_holds spo j σ p → ∀ v, v ∈ next_known known p → σ v ≠ 0%Z).
  { intros Hth v Hv. unfold next_known in Hv. destruct (Z.ltb_spec (object p) 0) as [Ho|_]; [|by apply Hkn].
    apply elem_of_union in Hv as [->%elem_of_singleton|Hv]; [|by apply Hkn].
    assert (Hval : val σ (object p) = σ (object p)) by (unfold val; by rewrite (proj2 (Z.leb_gt _ _) Ho)).
    pose proof (proj1 (Forall_forall _ _) (ds_wf _ _ Hds)) as Hwf. unfold triple_holds in Hth. rewrite Hval in Hth.
    destruct ((j =? 0) && is_tpid (subject p)), (direction p); try done.
    - destruct Hth as (t & Ht & E & _). destruct (Hwf t Ht). lia.
    - destruct Hth as (t & Ht & E & _). destruct (Hwf t Ht). lia.
    - destruct (Hwf _ Hth); simpl in *. lia.
    - destruct (Hwf _ Hth); simpl in *. lia. }
  assert (Hrest : triple_holds spo j σ p →
    (∀ i p', ps !! i = Some p' → @pat_holds (cluster_graph [g] 0 buf_sz ∅) (@cluster_graph_ok cfg [g] 0 buf_sz ∅ (λ _, kv) Hcl Hc Hkv) (S j + i) σ p')
    ↔ (∀ i p', ps !! i = Some p' → triple_holds spo (S j + i) σ p')).
  { intros Hth. apply (IH (S j) (next_known known p)); [done| |done|by apply Hobj]. intros i p' Hp'. rewrite Nat.add_succ_comm. by apply Hsrc. }
  split; intros Hall i p' Hi.
  - assert (Hth : triple_holds spo j σ p) by (apply Hpat; specialize (Hall 0 p eq_refl); by rewrite Nat.add_0_r in Hall).
    destruct i as [|i]; [injection Hi as <-; by rewrite Nat.add_0_r|]. rewrite <-Nat.add_succ_comm. apply (proj1 (Hrest Hth)); [|done].
    intros k pk Hk. rewrite Nat.add_succ_comm. by apply Hall.
  - assert (Hth : triple_holds spo j σ p) by (specialize (Hall 0 p eq_refl); by rewrite Nat.add_0_r in Hall).
    destruct i as [|i]; [injection Hi as <-; rewrite Nat.add_0_r; by apply Hpat|]. rewrite <-Nat.add_succ_comm. apply (proj2 (Hrest Hth)); [|done].
    intros k pk Hk. rewrite Nat.add_succ_comm. by apply Hall.
Qed.

Section data.
  Context (strs : String_Server) (data : list triple_t).

(** what an index lists: the subjects or objects of a predicate, the instances of a type *)
Definition index_holds (c : sid_t) (d : dir_t) (v : sid_t) : Prop :=
  match d with
  | IN => ∃ t, t ∈ data ∧ tr_s t = v ∧ (tr_p t = c ∨ tr_p t = TYPE_ID ∧ tr_o t = c)
  | OUT => ∃ t, t ∈ data ∧ tr_o t = v ∧ tr_p t = c
  | CORUN => False
  end.

(** a pattern of the text holds: its triple is in the data, whatever its direction *)
Definition data_holds (i : nat) (μ : binding) (p : tpat) : Prop :=
  let triple := Triple (value_of strs μ (t_subject p)) (predicate_id strs (t_predicate p)) (value_of strs μ (t_object p)) in
  match i, source p with
  | O, Iri x => if is_tpid (iri_id strs x) then index_holds (iri_id strs x) (heading p) (value_of strs μ (target p))
                else triple ∈ data
  | _, _ => triple ∈ data
  end.

Lemma data_holds_ok (σ : assignment) (μ : binding) env n i p :
  ids_fit strs → n < Z.to_nat (2 ^ 31) → (∀ t x, t ∈ terms p → t = Var x → σ (var_id env x) = μ x) →
  pattern_okb n (query_pattern strs env p) = true →
  triple_holds data i σ (query_pattern strs env p) ↔ data_holds i μ p.
Proof.
  intros Hfit Hn Hσ Hok. destruct (pattern_values strs σ μ env n p Hfit Hn Hσ Hok) as (Hvs & Hvt & Hpr).
  unfold triple_holds, data_holds, index_holds. cbn [query_pattern subject predicate object direction]. rewrite Hvs, Hvt, Hpr.
  assert (Htr : match heading p with
    | OUT => Triple (value_of strs μ (source p)) (predicate_id strs (t_predicate p)) (value_of strs μ (target p)) ∈ data
    | IN => Triple (value_of strs μ (target p)) (predicate_id strs (t_predicate p)) (value_of strs μ (source p)) ∈ data
    | CORUN => False end ↔
    Triple (value_of strs μ (t_subject p)) (predicate_id strs (t_predicate p)) (value_of strs μ (t_object p)) ∈ data).
  { unfold heading, source, target. by destruct (t_arrow p). }
  destruct i as [|i]; [|by destruct (source p)]. cbn [Nat.eqb andb]. destruct (source p) as [x|x|] eqn:Es; cbn [term_id].
  - by rewrite var_no_index.
  - fold (iri_id strs x). by destruct (is_tpid (iri_id strs x)).
  - done.
Qed.

Lemma text_data (σ : assignment) (μ : binding) q :
  ids_fit strs → (Z.of_nat (length (names q)) < 2 ^ 31)%Z → (∀ x, x ∈ names q → σ (var_id (names q) x) = μ x) →
  plan_ok (length (names q)) 0 ∅ (query_pattern strs (names q) <$> s_where q) = true →
  (∀ i pt, s_where q !! i = Some pt → triple_holds data i σ (query_pattern strs (names q) pt)) ↔
  (∀ i pt, s_where q !! i = Some pt → data_holds i μ pt).
Proof.
  intros Hfit Hn Hσ Hok.
  assert (Hp : ∀ i p, s_where q !! i = Some p → triple_holds data i σ (query_pattern strs (names q) p) ↔ data_holds i μ p).
  { intros i p Hp. eapply (data_holds_ok _ _ _ (length (names q))); [done|lia| |].
    - intros t x Ht Ex. apply Hσ. by eapply names_in; [eapply list_elem_of_lookup_2| |].
    - eapply plan_ok_lookup; [exact Hok|]. by rewrite list_lookup_fmap, Hp. }
  split; intros Hall i p Hi; apply Hp; auto.
Qed.
End data.

(** only the members of the triple list matter *)
Lemma triple_holds_members T T' i σ p : (∀ t, t ∈ T ↔ t ∈ T') → triple_holds T i σ p ↔ triple_holds T' i σ p.
Proof. intros HT. unfold triple_holds. destruct (_ && _), (direction p); by try setoid_rewrite HT. Qed.

(** the patterns of a text hold in the loaded store iff they hold in the data *)
Lemma plan_data (cfg := one_server) strs g buf_sz kv Hcl Hc Hkv spo ops data q :
  dataset_ok spo ops → loaded spo ops kv → (∀ t, t ∈ spo ↔ t ∈ data) →
  plan_ok (length (names q)) 0 ∅ (query_pattern strs (names q) <$> s_where q) = true →
  (∀ i pt, (query_pattern strs (names q) <$> s_where q) !! i = Some pt → source_ok i pt = true) →
  ∀ σ : assignment, (∀ v, is_sid (σ v)) →
  @solves (cluster_graph [g] 0 buf_sz ∅) (@cluster_graph_ok cfg [g] 0 buf_sz ∅ (λ _, kv) Hcl Hc Hkv)
    (length (s_where q)) (query_pattern strs (names q) <$> s_where q) σ ↔
  ∀ i pt, s_where q !! i = Some pt → triple_holds data i σ (query_pattern strs (names q) pt).
Proof.
  intros Hds Hld Hspo Hplan Hsrc σ Hσ. set (ps := query_pattern strs (names q) <$> s_where q) in *.
  assert (Hlen : length ps = length (s_where q)) by apply length_fmap.
  assert (Hps : ∀ i pt, s_where q !! i = Some pt → ps !! i = Some (query_pattern strs (names q) pt)).
  { intros i pt Hi. unfold ps. by rewrite list_lookup_fmap, Hi. }
  pose proof (plan_transfer g buf_sz kv Hcl Hc Hkv spo ops (length (names q)) 0 ∅ ps σ Hds Hld Hplan Hsrc Hσ ltac:(set_solver)) as Htr.
  split.
  - intros Hs i pt Hi. apply (triple_holds_members spo data); [done|]. apply (proj1 Htr) with (i := i); [|by apply Hps].
    intros k p Hk. apply Hs; [|done]. apply lookup_lt_Some in Hk. simpl. lia.
  - intros Hall i pt _ Hi. apply (proj2 Htr) with (i := i); [|done]. intros k p Hk. apply (triple_holds_members spo data); [done|].
    unfold ps in Hk. rewrite list_lookup_fmap in Hk. destruct (s_where q !! k) as [pt'|] eqn:E; [|done]. injection Hk as <-. by apply Hall.
Qed.

(** ** From files and a text to the answer *)

(** the lists that one server with one engine loads *)
Lemma single_load (cfg := one_server) `{StdSort} buf kvs data :
  data_ok data → (12 <= buf < 2 ^ 63)%Z → (0 <= kvs < 2 ^ 63)%Z → (12 * Z.of_nat (length data) <= kvs)%Z →
  ∃ part spo ops, partition_at buf kvs 0 ((λ t, (0, t)) <$> data) part ∧ aggregate_thread 0 [part] 0 = Ok (spo, ops) ∧
    dataset_ok spo ops ∧ (∀ t, t ∈ spo ↔ t ∈ data) ∧ length spo <= length data ∧ length ops <= length data.
Proof.
  intros Hd Hb Hk Hf. set (input := (λ t, (0, t)) <$> data). assert (Hin : input.*2 = data).
  { unfold input. rewrite <-list_fmap_compose. by apply list_fmap_id. }
  assert (Hids : Forall ids_ok data).
  { eapply Forall_impl; [apply Hd|]. intros t [? ? ?]. unfold ids_ok. lia. }
  destruct (partitions_ok (H := cfg) buf kvs Hb Hk ltac:(simpl; lia) 0 [input]) as (parts & tss & Hp & Hh & Hc).
  { simpl. lia. }
  { apply Forall_singleton, Forall_fmap. eapply Forall_impl; [exact Hids|]. simpl. intros t Ht. split; [lia|done]. }
  { apply Forall_singleton. unfold input. by rewrite length_fmap. }
  apply Forall2_cons_inv_l in Hp as (part & rest & Hpart & Hrest & ->). apply Forall2_nil_inv_l in Hrest as ->.
  simpl in Hc. rewrite app_nil_r, Hin in Hc.
  assert (Hall : routed_to (H := cfg) 0 data = data).
  { unfold routed_to. apply filter_all, Forall_forall. intros t Ht. unfold routed. simpl. by rewrite !Z.mod_1_r. }
  rewrite Hall in Hc.
  assert (Hmine : ∀ k t, mine (H := cfg) 0 k 0 t = true) by (intros k t; unfold mine; simpl; by rewrite Z.mod_1_r).
  destruct (aggregate_thread_ok (H := cfg) 0 ltac:(simpl; lia) _ 0 [part] tss Hh) as (spo & ops & E & Hs & Hm & Ho & Hop).
  { apply Forall_concat. by rewrite Hc. }
  assert (Hspo : ∀ t, t ∈ spo ↔ t ∈ data) by (intros t; rewrite Hm, Hc, Hmine; tauto).
  assert (Hops : ∀ t, t ∈ ops ↔ t ∈ data).
  { intros t. rewrite Hop, uniq_elem, list_elem_of_filter, Hc, Hmine. tauto. }
  exists part, spo, ops. split_and!; [done|done|by apply (loaded_dataset data)|done| |].
  - apply submseteq_length, NoDup_submseteq; [by eapply strict_sorted_nodup; [apply spo_lex|]|]. intros t. apply Hspo.
  - rewrite Hop. etrans; [apply uniq_length|]. etrans; [apply length_filter|]. by rewrite Hc.
Qed.

(** from data files and a text to the answer, on one server with one engine: loading
    the triples of the files (buffers, partitions, sorting, hash table and indexes)
    and executing the text of a query (lexer, parser, proxy, engine, projection)
    succeed, and the one message that the engine sends to the proxy lists the values
    of the projected names: exactly those of the bindings of names to ids under which
    every triple pattern of the text is a triple of the files. *)
Lemma files_text_answered (cfg := one_server) `{TbbOrder} `{Adaptor} `{StdSort} (strs : String_Server)
    (regex_compile : bool → string → option regex) (uset_iter : gset sid_t → list sid_t)
    (data : list triple_t) (g : gstore) (buf kvs rdma_buf : Z) (q : select) (p : proxy) (s : list engine) (me eng : nat) (e : engine) :
  data_ok data → (12 <= buf < 2 ^ 63)%Z → (0 <= kvs < 2 ^ 63)%Z → (12 * Z.of_nat (length data) <= kvs)%Z →
  header_sizes (hdr g) → length (edges g) = num_entries g →
  room (refresh g) (2 * (length data + length data) + 3) (5 * (length data + length data)) →
  ids_fit strs → answerable strs q →
  (∀ i pt, (query_pattern strs (names q) <$> s_where q) !! i = Some pt → source_ok i pt = true) →
  coder_wf (p_coder p) → (c_tid (p_coder p) < 1)%Z → s !! me = Some e →
  ∃ part spo ops g1,
    partition_at buf kvs 0 ((λ t, (0, t)) <$> data) part ∧ aggregate_thread 0 [part] 0 = Ok (spo, ops) ∧
    insert_normal false (refresh g) spo ops = Ok g1 ∧
    ∀ bs, bs ≡ₚ seq 0 (num_buckets (hdr g1) + last_ext (hdr g1)) →
    ∃ g2 request r sols m e', insert_index false g1 bs = Ok g2 ∧
      parse_query strs false false false (show q) new_query = Ok (true, request) ∧
      round_request false (setpid p request).1 1 true = Ok r ∧
      (∀ vs, vs ∈ sols ↔ ∃ μ, (∀ x, is_sid (μ x)) ∧
        (∀ i pt, s_where q !! i = Some pt → data_holds strs data i μ pt) ∧ vs = μ <$> s_vars q) ∧
      @execute_sparql_query false cfg (cluster_graph [g2] 0 rdma_buf ∅) _ _ strs regex_compile uset_iter s me eng r = Ok (<[me := e']> s) ∧
      all_msgs e' ≡ₚ all_msgs e ++ [MkMessage (c_sid (p_coder p)) (c_tid (p_coder p)) m] ∧
      result_table (result m) = concat sols ∧ row_num (result m) = length sols.
Proof.
  intros Hd Hb Hk Hf Hh Hl Hr Hfit Hq Hsrc Hcw Hpx Hme.
  destruct (single_load buf kvs data Hd Hb Hk Hf) as (part & spo & ops & Hp & Ea & Hds & Hspo & Hls & Hlo).
  destruct (load_ok g spo ops Hds Hh Hl) as (g1 & E1 & Hg1); [eapply room_le; [exact Hr|lia..]|].
  exists part, spo, ops, g1. split_and!; [done..|]. intros bs Hbs. destruct (Hg1 bs Hbs) as (g2 & kv & E2 & Hg2 & Hld).
  pose proof (single_cluster_ok g2 kv rdma_buf Hg2) as Hcl.
  assert (Hc : @cache_coherent cfg [g2] ∅) by (intros idx v Hv; done).
  set (gok := @cluster_graph_ok cfg [g2] 0 rdma_buf ∅ (λ _, kv) Hcl Hc (λ _, ld_plain _ _ _ Hld)).
  destruct (@text_reply false cfg (cluster_graph [g2] 0 rdma_buf ∅) gok _ _ strs regex_compile uset_iter q p s me eng e)
    as (request & r & sols & m & e' & Ep & Er & Hs & Ex & Hm & Ht); [apply one_server_ok|done|done|done|done|done|done|].
  exists g2, request, r, sols, m, e'. split_and!; try done; [|apply Ht..]. intros vs. rewrite Hs.
  rewrite <-(bindings_assignments q vs (λ σ, ∀ i pt, s_where q !! i = Some pt → triple_holds data i σ (query_pattern strs (names q) pt))
    (λ μ, ∀ i pt, s_where q !! i = Some pt → data_holds strs data i μ pt)).
  - set (ps := query_pattern strs (names q) <$> s_where q).
    assert (Heq := plan_data strs g2 rdma_buf kv Hcl Hc (λ _, ld_plain _ _ _ Hld) spo ops data q Hds Hld Hspo (aq_plan _ _ Hq) Hsrc).
    split; intros (σ & Hσ & H3 & ->); exists σ; (split_and!; [done|by apply Heq|done]).
  - intros σ μ Hσ. apply text_data; [done|apply Hq|done|apply Hq].
  - apply projected_names, Hq.
Qed.

(** *** Two triples of a file *)

Lemma typed_data : data_ok typed_triples.
Proof.
  destruct typed_dataset as [_ _ _ Hwf Hty Hn Hb]. by split.
Qed.

Lemma files_text_answered_witness : ∃ part spo ops g1 g2 r m e' sols,
  partition_at (H := one_server) 12 24 0 ((λ t, (0, t)) <$> typed_triples) part ∧
  aggregate_thread (H := one_server) (H0 := insertion_std_sort) 0 [part] 0 = Ok (spo, ops) ∧
  insert_normal false (refresh bigger_store) spo ops = Ok g1 ∧
  insert_index (H := list_order) false g1 (seq 0 (num_buckets (hdr g1) + last_ext (hdr g1))) = Ok g2 ∧
  @execute_sparql_query false one_server (@cluster_graph one_server [g2] 0 0 ∅) open_network insertion_std_sort sample_strings
    (λ _ _, None) (λ _, []) [idle_engine] 0 0 r = Ok [e'] ∧
  @all_msgs open_network e' ≡ₚ [MkMessage 0 0 m] ∧ result_table (result m) = concat sols ∧ [131073; 131072]%Z ∈ sols.
Proof.
  destruct (@files_text_answered list_order open_network insertion_std_sort sample_strings (λ _ _, None) (λ _, [])
    typed_triples bigger_store 12 24 0 sample_select idle_proxy [idle_engine] 0 0 idle_engine)
    as (part & spo & ops & g1 & H1 & H2 & H3 & Hg).
  - exact typed_data.
  - lia.
  - lia.
  - simpl. lia.
  - split; simpl; unfold ASSOCIATIVITY; lia.
  - reflexivity.
  - split; simpl; lia.
  - exact sample_fit.
  - exact sample_answerable.
  - intros [|[|i]] p Hp; [injection Hp as <-; vm_compute; reflexivity..|simpl in Hp; discriminate Hp].
  - exact sample_coder.
  - reflexivity.
  - reflexivity.
  - destruct (Hg (seq 0 (num_buckets (hdr g1) + last_ext (hdr g1)))) as (g2 & request & r & sols & m & e' & H4 & _ & _ & Hs & E & Hm & Ht & _);
      [reflexivity|].
    exists part, spo, ops, g1, g2, r, m, e', sols. split; [exact H1|]. split; [exact H2|]. split; [exact H3|]. split; [exact H4|].
    split; [exact E|]. split; [exact Hm|]. split; [exact Ht|]. apply Hs.
    exists (λ x, if String.eqb x "X" then 131072%Z else 131073%Z). split; [|split; [|reflexivity]].
    + intros x. unfold is_sid. cbv beta. destruct (String.eqb x "X"); lia.
    + intros [|[|i]] p Hi; simpl in Hi; [..|discriminate Hi]; injection Hi as <-.
      * exists (Triple 131072 5 131073). split; [right; left|]. split; [reflexivity|]. left. reflexivity.
      * right. left.
Defined.
