(* ===== verification/LoadGraph.v ===== *)
(** Building the graph of a server ([core/dgraph.hpp]): attribute files and the
    constructor, which aggregates the triples that were read and exchanged, inserts them
    and the attributes into a fresh store and adds the indexes.

    A file of attributes is given as its words, and the extraction of a number from a word
    ([operator>>] of a stream) is an argument; a word that is only in part a number is none.
    The threads of a parallel loop run one after the other. *)

From stdpp Require Import strings sorting.
From S2P Require Import Prelude Types MyMath Keys HashTable GStore Runs Index Attr Final Loader.
Local Open Scope Z_scope.

Section load.
  Context `{Config} `{TbbOrder} `{StdSort}.
  Context (get_uint get_int : string → option Z) (get_value : Z → string → option attr_t).

(** [attr_t] after its default constructor *)
Definition new_attr : attr_t := attr_int 0.
(** what a failed extraction leaves for a type *)
Definition zero_attr (type : Z) : attr_t :=
  if type =? 1 then attr_int 0 else if type =? 2 then attr_float 0 else attr_double 0.

(** the lines of a file; [v] is the value of the line before. A type that is not supported
    keeps it and leaves its own value to be read as the next subject. *)
Fixpoint load_attr (fuel : nat) (v : attr_t) (words : list string) : outcome (list triple_attr_t) :=
  match fuel with
  | O => Err OutOfFuel
  | S fuel =>
      match words with
      | w1 :: w2 :: w3 :: words =>
          match get_uint w1, get_uint w2, get_int w3 with
          | Some s, Some a, Some type =>
              if (1 <=? type) && (type <=? 3) then
                match words with
                | [] => Err Undefined (* the variable of the value is not set *)
                | w4 :: words =>
                    match get_value type w4 with
                    | Some v => l ← load_attr fuel v words; Ok (TripleAttr s a v :: l)
                    | None => Ok [TripleAttr s a (zero_attr type)] (* the stream has failed *)
                    end
                end
              else l ← load_attr fuel v words; Ok (TripleAttr s a v :: l) (* unsupported value type *)
          | _, _, _ => Ok []
          end
      | _ => Ok []
      end
  end.

(** the attributes of the vertices of this server *)
Definition keep_attr (sid : Z) (sav : list triple_attr_t) (a : triple_attr_t) : outcome (list triple_attr_t) :=
  home ← hash_mod (ta_s a) global_num_servers;
  Ok (if sid =? home then sav ++ [a] else sav).

(** the files, each with the thread that loads it *)
Definition load_attr_from_allfiles (sid : Z) (savs : list (list triple_attr_t)) (files : list (nat * list string)) :
    outcome (list (list triple_attr_t)) :=
  foldM (λ savs '(tid, words),
    l ← load_attr (S (length words)) new_attr words;
    sav ← read savs tid;
    sav ← foldM (keep_attr sid) sav l;
    write savs tid sav) savs files.

(** the order in which the parallel scan of [insert_index] visits the buckets *)
Context (versatile : bool) (scan : gstore → list nat).

(** [DGraph::DGraph]: from the partitions of [load_data] or [load_data_from_allfiles] to
    the store *)
Definition load_graph (sid : Z) (g : gstore) (parts : list piece) (afiles : list (nat * list string)) : outcome gstore :=
  lists ← aggregate_data sid parts;
  savs ← load_attr_from_allfiles sid (replicate (Z.to_nat global_num_engines) []) afiles;
  let g := refresh g in
  g ← foldM (λ g l, insert_normal versatile g l.1 l.2) g lists;
  g ← foldM insert_vertex_attr g savs;
  insert_index versatile g (scan g).
End load.
