(* ===== verification/LoadGraphOk.v ===== *)
(** The graph that a server builds from its files: the triples, the attributes and the
    indexes over both. *)

From stdpp Require Import strings sorting.
From S2P Require Import Prelude Types Settings MyMath Keys HashTable GStore Runs Index IndexInsert Attr Final Bgp EndToEnd Loader Exchange Pipeline LoadGraph.
Local Open Scope nat_scope.

(** ** Attribute files *)

Section words.
  Context (get_uint get_int : string → option Z) (get_value : Z → string → option attr_t).

(** the words of a line *)
Definition attr_line (a : triple_attr_t) (ws : list string) : Prop :=
  ∃ w1 w2 w3 w4, ws = [w1; w2; w3; w4] ∧ get_uint w1 = Some (ta_s a) ∧ get_uint w2 = Some (ta_a a) ∧
    get_int w3 = Some (get_type (ta_v a)) ∧ get_value (get_type (ta_v a)) w4 = Some (ta_v a).

Lemma load_attr_lines fuel v attrs lines : Forall2 attr_line attrs lines → length attrs < fuel →
  load_attr get_uint get_int get_value fuel v (concat lines) = Ok attrs.
Proof.
  intros Hl. revert fuel v. induction Hl as [|a ws attrs lines (w1 & w2 & w3 & w4 & -> & E1 & E2 & E3 & E4) _ IH]; intros fuel v Hf; simpl in Hf; (destruct fuel as [|fuel]; [lia|]); [done|].
  cbn [concat app load_attr]. rewrite E1, E2, E3. replace (_ && _) with true by by destruct (ta_v a). rewrite E4, IH by lia. by destruct a.
Qed.

Lemma attr_lines_length attrs lines : Forall2 attr_line attrs lines → length attrs <= length (concat lines).
Proof. induction 1 as [|a ws attrs lines (w1 & w2 & w3 & w4 & -> & _) _ IH]; simpl in *; lia. Qed.

Lemma keep_all (cfg := one_server) sav l : Forall (λ a, 0 <= ta_s a < 2 ^ 32)%Z l → foldM (keep_attr 0) sav l = Ok (sav ++ l).
Proof.
  intros Hl. revert sav. induction Hl as [|a l Ha _ IH]; intros sav; [by rewrite app_nil_r|]. cbn [foldM].
  assert (keep_attr 0 sav a = Ok (sav ++ [a])) as ->. { unfold keep_attr. rewrite hash_mod_Ok by (simpl; lia). cbn [mbind outcome_bind]. by rewrite Z.mod_1_r. }
  cbn [mbind outcome_bind]. rewrite IH. by rewrite <-app_assoc.
Qed.

Lemma load_files (cfg := one_server) (attrss : list (list triple_attr_t)) files sav :
  Forall2 (Forall2 attr_line) attrss files → Forall (λ a, 0 <= ta_s a < 2 ^ 32)%Z (concat attrss) →
  load_attr_from_allfiles get_uint get_int get_value 0 [sav] ((λ ls, (0, concat ls)) <$> files) = Ok [sav ++ concat attrss].
Proof.
  intros Hf. revert sav. induction Hf as [|attrs lines attrss files Hl Hf IH]; intros sav Ha; [by rewrite app_nil_r|].
  cbn [concat] in Ha. apply Forall_app in Ha as [Ha1 Ha2]. unfold load_attr_from_allfiles in *. cbn [fmap list_fmap foldM].
  rewrite (load_attr_lines _ _ attrs lines) by (done || (pose proof (attr_lines_length _ _ Hl); lia)). cbn [mbind outcome_bind read lookup list_lookup].
  rewrite keep_all by done. cbn [mbind outcome_bind].
  assert (write [sav] 0 (sav ++ attrs) = Ok [sav ++ attrs]) as -> by (apply write_Ok; simpl; split; [lia|done]). cbn [mbind outcome_bind]. rewrite (IH (sav ++ attrs) Ha2). by rewrite <-app_assoc.
Qed.
End words.

(** ** The store *)

(** an attribute beside the triples: its predicate is neither one of them nor a type *)
Record attr_fits (data : list triple_t) (a : triple_attr_t) : Prop := {
  af_s : (2 ^ 17 <= ta_s a < 2 ^ 32)%Z;
  af_a : (1 < ta_a a < 2 ^ 17)%Z;
  af_v : attr_wf (ta_v a);
  af_pred t : t ∈ data → tr_p t ≠ ta_a a;
  af_type t : t ∈ data → tr_p t = TYPE_ID → tr_o t ≠ ta_a a
}.

Lemma put_attrs_cases kv attrs k vals : put_attrs kv attrs !! k = Some vals →
  (∃ a, a ∈ attrs ∧ k = attr_key a ∧ vals = attr_words (ta_v a)) ∨ kv !! k = Some vals.
Proof.
  revert kv. induction attrs as [|a attrs IH]; intros kv; [by right|]. cbn [put_attrs foldl]. intros [(a' & Ha & E)|E]%IH; [left; exists a'; split; [by right|done]|].
  apply lookup_insert_Some in E as [[<- <-]|[_ E]]; [left; exists a; split; [left|done]|by right].
Qed.

Section graph.
  Context (data : list triple_t) (spo ops : list triple_t) (kv : gmap ikey_t (list sid_t)) (attrs : list triple_attr_t).
  Hypothesis Hds : dataset_ok spo ops.
  Hypothesis Hspo : ∀ t, t ∈ spo ↔ t ∈ data.
  Hypothesis Hkv : ∀ k, kv !! k = opt_list (normal_value false spo ops k).
  Hypothesis Hfit : Forall (attr_fits data) attrs.

(** the triples store nothing under the predicate of an attribute *)
Lemma attr_pid_unused a k : a ∈ attrs → k_pid k = ta_a a → kv !! k = None.
Proof.
  intros Ha Hp. rewrite Forall_forall in Hfit. destruct (Hfit a Ha) as [_ Ha1 _ Hpred _]. rewrite Hkv. destruct (normal_value false spo ops k) as [|v vs] eqn:E; [done|].
  assert (Hwo : Forall triple_wf ops) by (by apply (dataset_ops_wf spo ops)).
  assert (Hocc : normal_value false spo ops k ≠ []) by (by rewrite E). apply normal_value_occ in Hocc; [|apply Hds|done].
  assert (Hno : ∀ t, t ∈ spo → ¬ (tr_p t = k_pid k ∨ k_pid k = PREDICATE_ID)).
  { intros t Ht%Hspo [Hk|Hk]; [apply (Hpred t Ht); congruence|unfold PREDICATE_ID in Hk; lia]. }
  destruct Hocc as [[_ (t & Ht & _ & Hk)]|[_ (t & Ht & _ & _ & Hk)]]; [by destruct (Hno t Ht)|]. apply (ds_same _ _ Hds) in Ht. by destruct (Hno t Ht).
Qed.

Lemma attrs_normal : normal_kv (put_attrs kv attrs).
Proof.
  destruct (dataset_ops_wf _ _ Hds) as [Hwo _]. pose proof Hds as [Hs Ho Hsame Hws Hty _ _].
  pose proof (normal_value_normal false spo ops Ho Hws Hwo Hty kv Hkv) as [N1 N2 N3 N4 N5]. pose proof (proj1 (Forall_forall _ _) Hfit) as Hf.
  assert (Htype : ∀ k vals, put_attrs kv attrs !! k = Some vals → k_pid k = TYPE_ID → kv !! k = Some vals).
  { intros k vals [(a & Ha & -> & _)|E]%put_attrs_cases Hp; [|done]. destruct (Hf a Ha) as [_ Ha1 _ _ _]. unfold TYPE_ID in Hp. simpl in Hp. lia. }
  split.
  - intros k vals [(a & Ha & -> & ->)|E]%put_attrs_cases; [|by eapply N1]. destruct (Hf a Ha). simpl. lia.
  - intros k vals [(a & Ha & -> & ->)|E]%put_attrs_cases; [by destruct (ta_v a)|by eapply N2].
  - intros k vals [(a & Ha & -> & ->)|E]%put_attrs_cases; [by intros []|by eapply N3].
  - intros k vals t Hk Hp Ht. eapply N4; [by apply Htype|done|done].
  - intros k vals k' vals' t Hk Hp Ht Hk' Hd. pose proof (Htype k vals Hk Hp) as E. apply put_attrs_cases in Hk' as [(a & Ha & -> & ->)|E']; [|by eapply (N5 k vals k' vals')].
    simpl. rewrite Hkv in E. apply opt_list_Some in E as [-> _]. destruct k as [x p d]. simpl in Hp. subst p.
    destruct (normal_value_occ false spo ops Ho Hwo (IKey x TYPE_ID d)) as [[Ed _]|[Ed _]]; [by intros E0; rewrite E0 in Ht; apply elem_of_nil in Ht| |]; simpl in Ed; subst d.
    + apply (normal_value_elem false spo ops Ho Hwo) in Ht as (tr & Htr & _ & Hpt & <-); [|done]. intros E. apply (af_type data a (Hf a Ha) tr); [by apply Hspo|done|done].
    + exfalso. apply (normal_value_elem false spo ops Ho Hwo) in Ht as (tr & Htr & Hge & _ & Hpt & _); [|done]. pose proof (ty_ops _ _ Hty tr Htr Hpt). lia.
Qed.
End graph.

(** ** Building *)

(** everything that holds of the store that is built *)
Record built (data : list triple_t) (attrs : list triple_attr_t) (g : gstore) : Prop := {
  bt_attr a : a ∈ attrs → get_vertex_attr_local g (ta_s a) OUT (ta_a a) = Ok (Some (ta_v a));
  bt_edges x p : (2 ^ 17 <= x < 2 ^ 32)%Z → (0 < p < 2 ^ 17)%Z → (∀ a, a ∈ attrs → p ≠ ta_a a) →
    ∃ lo li, get_edges_local g x OUT p = Ok lo ∧ get_edges_local g x IN p = Ok li ∧
      (∀ y, y ∈ lo ↔ Triple x p y ∈ data) ∧ (∀ y, y ∈ li ↔ Triple y p x ∈ data);
  bt_index p : (1 < p < 2 ^ 17)%Z → (∀ a, a ∈ attrs → p ≠ ta_a a) →
    ∃ li lo, get_index_edges_local g p IN = Ok li ∧ get_index_edges_local g p OUT = Ok lo ∧
      (∀ x, x ∈ li ↔ ∃ t, t ∈ data ∧ tr_s t = x ∧ (tr_p t = p ∨ tr_p t = TYPE_ID ∧ tr_o t = p)) ∧
      (∀ x, x ∈ lo ↔ ∃ t, t ∈ data ∧ tr_o t = x ∧ tr_p t = p);
  bt_attr_index a : a ∈ attrs →
    ∃ li, get_index_edges_local g (ta_a a) IN = Ok li ∧ ∀ x, x ∈ li ↔ ∃ a', a' ∈ attrs ∧ ta_a a' = ta_a a ∧ ta_s a' = x
}.

Section build.
  Context (data : list triple_t) (spo ops : list triple_t) (attrs : list triple_attr_t).
  Hypothesis Hdata : data_ok data.
  Hypothesis Hds : dataset_ok spo ops.
  Hypothesis Hspo : ∀ t, t ∈ spo ↔ t ∈ data.
  Hypothesis Hfit : Forall (attr_fits data) attrs.
  Hypothesis Hkeys : NoDup (attr_key <$> attrs).
  Context (kv : gmap ikey_t (list sid_t)) (g : gstore) (kv' : gmap ikey_t (list sid_t)) (es : list (ikey_t * list sid_t)).
  Hypothesis Hkv : ∀ k, kv !! k = opt_list (normal_value false spo ops k).
  Hypothesis Hg : gs_rep g kv'.
  Hypothesis Hes : es ≡ₚ map_to_list (put_attrs kv attrs).
  Hypothesis Hkv' : ∀ k, kv' !! k = if bool_decide (k_vid k = 0%Z ∧ (k_dir k = 0%Z ∨ k_dir k = 1%Z)) then opt_list (index_value es k) else put_attrs kv attrs !! k.

Lemma built_ops_wf : Forall triple_wf ops.
Proof. by apply (dataset_ops_wf spo ops). Qed.

Lemma entry_elem k vals : (k, vals) ∈ es ↔ put_attrs kv attrs !! k = Some vals.
Proof. by rewrite Hes, elem_of_map_to_list. Qed.

(** entries under other predicates are those of the triples *)
Lemma entry_other k vals : (∀ a, a ∈ attrs → k_pid k ≠ ta_a a) → ((k, vals) ∈ es ↔ (k, vals) ∈ map_to_list kv).
Proof.
  intros Hno. rewrite entry_elem, elem_of_map_to_list, put_attrs_lookup; [done|]. intros (a & -> & Ha)%list_elem_of_fmap. by apply (Hno a Ha).
Qed.

Lemma built_edges x p : (2 ^ 17 <= x < 2 ^ 32)%Z → (0 < p < 2 ^ 17)%Z → (∀ a, a ∈ attrs → p ≠ ta_a a) →
  ∃ lo li, get_edges_local g x OUT p = Ok lo ∧ get_edges_local g x IN p = Ok li ∧
    (∀ y, y ∈ lo ↔ Triple x p y ∈ data) ∧ (∀ y, y ∈ li ↔ Triple y p x ∈ data).
Proof.
  intros Hx Hp Hno. exists (normal_value false spo ops (IKey x p (dir_val OUT))), (normal_value false spo ops (IKey x p (dir_val IN))).
  assert (Hread : ∀ d, d ≠ CORUN → get_edges_local g x d p = Ok (normal_value false spo ops (IKey x p (dir_val d)))).
  { intros d Hd. rewrite (get_edges_local_rep g kv'); [|done|unfold key_wf; simpl; destruct d; simpl; try done; lia|intros [=]; lia].
    rewrite Hkv', bool_decide_false by (simpl; lia). rewrite put_attrs_lookup; [by rewrite Hkv, opt_list_default|].
    intros (a & Ea & Ha)%list_elem_of_fmap. injection Ea as _ Ep _. by apply (Hno a Ha). }
  split; [by apply Hread|]. split; [by apply Hread|].
  split; intros y; [rewrite (proj1 (normal_value_elem false spo ops (ds_ops _ _ Hds) built_ops_wf x p y ltac:(lia)))|rewrite (proj2 (normal_value_elem false spo ops (ds_ops _ _ Hds) built_ops_wf x p y ltac:(lia)))]; split.
  - intros ([] & Ht & <- & <- & <-). by apply Hspo.
  - intros Ht. exists (Triple x p y). by rewrite Hspo.
  - intros ([] & Ht & _ & <- & <- & <-). apply Hspo. by apply (ds_same _ _ Hds).
  - intros Ht. exists (Triple y p x). split; [by apply (ds_same _ _ Hds), Hspo|]. simpl. split_and!; [lia|done..].
Qed.

Lemma built_index p : (1 < p < 2 ^ 17)%Z → ∃ li lo,
  get_index_edges_local g p IN = Ok li ∧ get_index_edges_local g p OUT = Ok lo ∧
  li = type_vids es p ++ pred_vids false es p ∧ lo = pred_vids true es p.
Proof.
  intros Hp. assert (Hread : ∀ d, d ≠ CORUN → get_index_edges_local g p d = Ok (index_value es (IKey 0 p (dir_val d)))).
  { intros d Hd. unfold get_index_edges_local. rewrite (get_edges_local_rep g kv'); [|done|unfold key_wf; simpl; destruct d; simpl; try done; lia|intros [=]; lia].
    rewrite Hkv', bool_decide_true by (destruct d; simpl; tauto). by rewrite opt_list_default. }
  eexists _, _. split; [by apply Hread|]. split; [by apply Hread|]. done.
Qed.

Lemma built_triple_index p : (1 < p < 2 ^ 17)%Z → (∀ a, a ∈ attrs → p ≠ ta_a a) → ∃ li lo,
  get_index_edges_local g p IN = Ok li ∧ get_index_edges_local g p OUT = Ok lo ∧
  (∀ x, x ∈ li ↔ ∃ t, t ∈ data ∧ tr_s t = x ∧ (tr_p t = p ∨ tr_p t = TYPE_ID ∧ tr_o t = p)) ∧
  (∀ x, x ∈ lo ↔ ∃ t, t ∈ data ∧ tr_o t = x ∧ tr_p t = p).
Proof.
  intros Hp Hno. destruct (built_index p Hp) as (li & lo & -> & -> & -> & ->). eexists _, _. split; [done|]. split; [done|].
  pose proof Hds as [Hs Ho Hsame Hws Hty Hnormal _].
  pose proof (λ x, index_members false spo ops Ho Hws built_ops_wf Hty kv (map_to_list kv) p x Hkv (reflexivity _) ltac:(lia)) as Hm.
  assert (Hpred : ∀ inc x, x ∈ pred_vids inc es p ↔ x ∈ pred_vids inc (map_to_list kv) p).
  { intros inc x. rewrite !pred_vids_elem. split; intros (k & vals & Hk & H1 & H2 & H3 & H4); exists k, vals; (split; [|done]); (apply entry_other; [by rewrite H3|done]). }
  assert (Htype : ∀ x, x ∈ type_vids es p ↔ x ∈ type_vids (map_to_list kv) p).
  { intros x. assert (Htp : ∀ a, a ∈ attrs → TYPE_ID ≠ ta_a a) by (intros a Ha; destruct (proj1 (Forall_forall _ _) Hfit a Ha); unfold TYPE_ID; lia).
    rewrite !type_vids_elem. split; intros (k & vals & Hk & H1 & H2 & H3 & H4); exists k, vals; (split; [|done]); (apply entry_other; [by rewrite H2|done]). }
  split; intros x.
  - rewrite elem_of_app, Htype, Hpred, <-elem_of_app, (proj1 (Hm x)). by setoid_rewrite Hspo.
  - rewrite Hpred, (proj2 (Hm x)). split; intros (t & Ht & E); exists t; (split; [|split_and!; try apply E]).
    + by apply Hspo, (ds_same _ _ Hds).
    + by apply (ds_same _ _ Hds), Hspo.
    + destruct E as [<- E]. apply (dt_normal _ Hdata); [done|]. unfold TYPE_ID. lia.
Qed.

Lemma built_attr_index a : a ∈ attrs →
  ∃ li, get_index_edges_local g (ta_a a) IN = Ok li ∧ ∀ x, x ∈ li ↔ ∃ a', a' ∈ attrs ∧ ta_a a' = ta_a a ∧ ta_s a' = x.
Proof.
  intros Ha. pose proof (proj1 (Forall_forall _ _) Hfit a Ha) as [_ Ha1 _ Hap Hat]. destruct (built_index (ta_a a) Ha1) as (li & lo & -> & _ & -> & _). eexists. split; [done|].
  intros x. rewrite elem_of_app, type_vids_elem, pred_vids_elem. split.
  - intros [(k & vals & Hk%entry_elem & Hd & Hp & Ht & <-)|(k & vals & Hk%entry_elem & _ & _ & Hp & <-)]; apply put_attrs_cases in Hk as [(a' & Ha' & -> & ->)|E].
    + pose proof (proj1 (Forall_forall _ _) Hfit a' Ha') as [_ Hr _ _ _]. unfold TYPE_ID in Hp. simpl in Hp. lia.
    + exfalso. destruct k as [s p d]. simpl in Hp. subst p. rewrite Hkv in E. apply opt_list_Some in E as [-> _].
      destruct (normal_value_occ false spo ops (ds_ops _ _ Hds) built_ops_wf (IKey s TYPE_ID d)) as [[Ed _]|[Ed _]]; [intros E0; rewrite E0 in Ht; by apply elem_of_nil in Ht| |]; simpl in Ed; subst d; [|done].
      apply (normal_value_elem false spo ops (ds_ops _ _ Hds) built_ops_wf) in Ht as (tr & Htr & _ & Hpt & Hot); [|done]. by apply (Hat tr); [apply Hspo|..].
    + by exists a'.
    + by rewrite (attr_pid_unused data spo ops kv attrs Hds Hspo Hkv Hfit a k Ha Hp) in E.
  - intros (a' & Ha' & Ep & <-). right. exists (attr_key a'), (attr_words (ta_v a')). split.
    + apply entry_elem. clear -Ha' Hkeys. revert kv. induction attrs as [|b l IH]; intros kv0; [by apply elem_of_nil in Ha'|]. rewrite fmap_cons in Hkeys. apply NoDup_cons in Hkeys as [Hb Hl].
      apply elem_of_cons in Ha' as [->|Ha']; [|by apply IH]. change (put_attrs (<[attr_key b := attr_words (ta_v b)]> kv0) l !! attr_key b = Some (attr_words (ta_v b))).
      rewrite put_attrs_lookup by done. apply lookup_insert_eq.
    + unfold is_pred, PREDICATE_ID, TYPE_ID. simpl. split_and!; try done. lia.
Qed.
End build.

(** from the lists of a thread to the store *)
Lemma build_ok `{TbbOrder} data spo ops attrs (scan : gstore → list nat) g :
  data_ok data → dataset_ok spo ops → (∀ t, t ∈ spo ↔ t ∈ data) → length spo <= length data → length ops <= length data →
  Forall (attr_fits data) attrs → NoDup (attr_key <$> attrs) →
  header_sizes (hdr g) → length (edges g) = num_entries g →
  (∀ g, scan g ≡ₚ seq 0 (num_buckets (hdr g) + last_ext (hdr g))) →
  let n := length data + length data + attrs_size attrs in room (refresh g) (2 * n + 3) (5 * n) →
  ∃ g1 g2 g3, insert_normal false (refresh g) spo ops = Ok g1 ∧ insert_vertex_attr g1 attrs = Ok g2 ∧ insert_index false g2 (scan g2) = Ok g3 ∧ built data attrs g3.
Proof.
  intros Hdata Hds Hspo Hl1 Hl2 Hfit Hkeys Hh Hl Hscan n Hr. destruct (dataset_ops_wf _ _ Hds) as [Hwo _]. pose proof Hds as [Hs Ho Hsame Hws Hty _ _].
  assert (Hsz : length attrs <= attrs_size attrs) by (clear; unfold attrs_size; induction attrs as [|a l IH]; simpl; [done|]; destruct (ta_v a); simpl; lia).
  destruct (insert_normal_rep false (refresh g) ∅ spo ops) as (g1 & kv1 & E1 & Hg1 & Hc1 & Hk1); [by apply refresh_rep|done..| |].
  { unfold kv_weight. eapply room_le; [exact Hr|unfold n; lia..]. }
  assert (Hkv1 : ∀ k, kv1 !! k = opt_list (normal_value false spo ops k)) by (intros k; rewrite Hk1; by destruct (normal_value _ _ _ _)).
  assert (Hok : Forall attr_ok attrs).
  { eapply Forall_impl; [exact Hfit|]. intros a [? ? ? _ _]. split; [|done]. unfold attr_key, key_wf. simpl. lia. }
  destruct (insert_vertex_attr_ok attrs g1 kv1 Hg1 Hok Hkeys) as (g2 & E2 & Hg2 & Ht2 & Ha2 & Hc2).
  { intros a Ha. by apply (attr_pid_unused data spo ops kv1 attrs Hds Hspo Hkv1 Hfit a). }
  { eapply room_consume; [|exact Hc1]. unfold kv_weight. eapply room_le; [exact Hr|unfold n; lia..]. }
  pose proof (attrs_normal data spo ops kv1 attrs Hds Hspo Hkv1 Hfit) as Hnk.
  assert (Htot : kv_total (put_attrs kv1 attrs) <= n).
  { destruct Hg2 as [m Hg2]. pose proof (gs_total _ _ _ Hg2). pose proof (cs_entry _ _ _ _ Hc1). pose proof (cs_entry _ _ _ _ Hc2). unfold kv_weight, n in *. simpl in *. lia. }
  destruct (insert_index_rep g2 (put_attrs kv1 attrs) Hg2 Hnk false (scan g2) (Hscan g2)) as (g3 & kv3 & es & ix & E3 & Hg3 & Hes & _ & Hty3 & Hk3).
  { eapply room_consume; [|exact Hc2]. eapply room_consume; [|exact Hc1]. unfold kv_weight. eapply room_le; [exact Hr|unfold n in *; lia..]. }
  exists g1, g2, g3. split; [done|]. split; [done|]. split; [done|]. split.
  - intros a Ha. destruct (Ha2 a Ha) as [Hta Hva]. destruct (proj1 (Forall_forall _ _) Hok a Ha) as [Hw Hv]. pose proof (proj1 (Forall_forall _ _) Hfit a Ha) as [Hsa _ _ _ _].
    apply (get_vertex_attr_local_rep g3 kv3); [done|exact Hw|done|done| |].
    + rewrite Hk3. cbn [andb]. rewrite bool_decide_false by (simpl; lia). exact Hva.
    + etrans; [|exact Hta]. apply Hty3, elem_of_dom. by eexists.
  - intros x p. by apply (built_edges data spo ops attrs Hds Hspo kv1 g3 kv3 es Hkv1 Hg3 Hk3).
  - intros p. by apply (built_triple_index data spo ops attrs Hdata Hds Hspo Hfit kv1 g3 kv3 es Hkv1 Hg3 Hes Hk3).
  - intros a. by apply (built_attr_index data spo ops attrs Hds Hspo Hfit Hkeys kv1 g3 kv3 es Hkv1 Hg3 Hes Hk3).
Qed.

(** C15: the constructor of the graph, on one server with one engine: from data files and
    attribute files it builds a store in which every attribute of a file is read back
    with its type and value, the edges of every vertex are exactly its triples, the
    indexes list exactly the subjects, objects and instances, and the index of an
    attribute lists exactly the vertices that have it. *)
Theorem graph_loaded (cfg := one_server) `{TbbOrder} `{StdSort} (get_uint get_int : string → option Z) (get_value : Z → string → option attr_t)
    (scan : gstore → list nat) (data : list triple_t) (attrss : list (list triple_attr_t)) (files : list (list (list string))) (g : gstore) (buf kvs : Z) :
  data_ok data → (12 <= buf < 2 ^ 63)%Z → (0 <= kvs < 2 ^ 63)%Z → (12 * Z.of_nat (length data) <= kvs)%Z →
  Forall2 (Forall2 (attr_line get_uint get_int get_value)) attrss files →
  Forall (attr_fits data) (concat attrss) → NoDup (attr_key <$> concat attrss) →
  header_sizes (hdr g) → length (edges g) = num_entries g →
  (∀ g, scan g ≡ₚ seq 0 (num_buckets (hdr g) + last_ext (hdr g))) →
  let n := length data + length data + attrs_size (concat attrss) in room (refresh g) (2 * n + 3) (5 * n) →
  ∃ part g', partition_at buf kvs 0 ((λ t, (0, t)) <$> data) part ∧
    load_graph get_uint get_int get_value false scan 0 g [part] ((λ ls, (0, concat ls)) <$> files) = Ok g' ∧
    built data (concat attrss) g'.
Proof.
  intros Hd Hb Hk Hf Hfiles Hfit Hkeys Hh Hl Hscan n Hr. subst cfg. destruct (single_load buf kvs data Hd Hb Hk Hf) as (part & spo & ops & Hp & Ea & Hds & Hspo & Hl1 & Hl2).
  destruct (build_ok data spo ops (concat attrss) scan g Hd Hds Hspo Hl1 Hl2 Hfit Hkeys Hh Hl Hscan Hr) as (g1 & g2 & g3 & E1 & E2 & E3 & Hbuilt).
  exists part, g3. split; [done|]. split; [|done]. unfold load_graph.
  assert (aggregate_data (H := one_server) 0 [part] = Ok [(spo, ops)]) as ->.
  { unfold aggregate_data. change (seq 0 (Z.to_nat (@global_num_engines one_server))) with [0]. cbn [mapM]. change (Z.of_nat 0) with 0%Z. rewrite Ea. done. }
  assert (Hat : load_attr_from_allfiles (H := one_server) get_uint get_int get_value 0 [[]] ((λ ls, (0, concat ls)) <$> files) = Ok [concat attrss]).
  { rewrite (load_files _ _ _ attrss files []); [done|done|]. eapply Forall_impl; [exact Hfit|]. intros a []. lia. }
  cbn [mbind outcome_bind]. change (replicate (Z.to_nat (@global_num_engines one_server)) []) with [@nil triple_attr_t]. rewrite Hat. cbn [mbind outcome_bind foldM fst snd]. rewrite E1. cbn [mbind outcome_bind]. rewrite E2. cbn [mbind outcome_bind]. exact E3.
Qed.

(** *** Two triples and two attributes *)

Definition number (w : string) : option Z := Some (digits 0 w).
Definition number_as (type : Z) (w : string) : option attr_t :=
  Some (if (type =? 1)%Z then attr_int (digits 0 w) else if (type =? 2)%Z then attr_float (digits 0 w) else attr_double (digits 0 w)).

Definition two_attrs : list triple_attr_t := [TripleAttr 131072 6 (attr_int 42); TripleAttr 131073 6 (attr_double 4611)].

Lemma graph_loaded_witness : ∃ part g',
  partition_at (H := one_server) 12 24 0 ((λ t, (0, t)) <$> typed_triples) part ∧
  load_graph (H := one_server) (H0 := list_order) (H1 := insertion_std_sort) number number number_as false
    (λ g, seq 0 (num_buckets (hdr g) + last_ext (hdr g))) 0 bigger_store [part]
    [(0, ["131072"; "6"; "1"; "42"; "131073"; "6"; "3"; "4611"]%string)] = Ok g' ∧
  get_vertex_attr_local g' 131073 OUT 6 = Ok (Some (attr_double 4611)) ∧
  ∃ li, get_index_edges_local g' 6 IN = Ok li ∧ 131072%Z ∈ li.
Proof.
  destruct (@graph_loaded list_order insertion_std_sort number number number_as (λ g, seq 0 (num_buckets (hdr g) + last_ext (hdr g))) typed_triples
    [two_attrs] [[["131072"; "6"; "1"; "42"]; ["131073"; "6"; "3"; "4611"]]%string] bigger_store 12 24) as (part & g' & Hp & E & Hb).
  - exact typed_data.
  - lia.
  - lia.
  - simpl. lia.
  - repeat constructor; by eexists _, _, _, _.
  - assert (Hno : Forall (λ t, tr_p t ≠ 6 ∧ (tr_p t = TYPE_ID → tr_o t ≠ 6))%Z typed_triples) by (repeat constructor; simpl; lia). rewrite Forall_forall in Hno.
    repeat constructor; simpl; try lia; intros t Ht; by apply Hno.
  - apply (bool_decide_unpack _). vm_compute. exact I.
  - split; simpl; unfold ASSOCIATIVITY; lia.
  - reflexivity.
  - intros g. reflexivity.
  - split; simpl; lia.
  - exists part, g'. split; [exact Hp|]. split; [exact E|]. split.
    + apply (bt_attr _ _ _ Hb (TripleAttr 131073 6 (attr_double 4611))). right. left.
    + destruct (bt_attr_index _ _ _ Hb (TripleAttr 131072 6 (attr_int 42))) as (li & El & Hli); [left|]. exists li. split; [exact El|]. apply Hli.
      exists (TripleAttr 131072 6 (attr_int 42)). split; [left|done].
Defined.
