(* ===== verification/RawAnswer.v ===== *)
(** From RDF lines to the answer: the data generator turns triples of strings into ids, the
    string server and the store load its files, and the text of a query is answered by
    exactly the strings under which its patterns are lines of the input. *)

From stdpp Require Import strings.
From S2P Require Import Prelude Types MyMath Tuple Keys Coder HashTable GStore Runs Index IndexInsert Remote Attr.
From S2P Require Import Query Rows Serial Engine EngineSteps Exec.
From S2P Require Import Regex StringServer Filter Final Server Frame Bgp EndToEnd Replies Answer.
From S2P Require Import Lexer Parser ParserTotal Transfer ParseText Proxy TextAnswer Mem Loader Exchange Pipeline Datagen.
Local Open Scope Z_scope.

(** ** Patterns over the lines *)

(** values of names *)
Definition naming : Type := string → string.

Definition term_str (ν : naming) (t : term) : string :=
  match t with Var x => ν x | Iri x => "<" +:+ x +:+ ">" | Pred => predicate_str end.

(** what an index lists: the subjects or objects of a predicate, the instances of a type *)
Definition raw_index (raws : list raw_triple) (c : string) (d : dir_t) (v : string) : Prop :=
  match d with
  | IN => ∃ r, r ∈ plain raws ∧ raw_s r = v ∧ (raw_p r = c ∨ raw_p r = rdf_type ∧ raw_o r = c)
  | OUT => ∃ r, r ∈ plain raws ∧ raw_o r = v ∧ raw_p r = c
  | CORUN => False
  end.

(** a predicate, type or attribute of the data set *)
Definition index_iri (raws : list raw_triple) (c : string) : bool := bool_decide (c ≠ rdf_type ∧ c ∈ raws ≫= indexes_of).

(** a pattern holds when its triple is a line; the first one may start from an index *)
Definition raw_holds (raws : list raw_triple) (i : nat) (ν : naming) (p : tpat) : Prop :=
  let line := Raw (term_str ν (t_subject p)) (match t_predicate p with Iri x => "<" +:+ x +:+ ">" | _ => predicate_str end) (term_str ν (t_object p)) in
  match i, source p with
  | O, Iri x => if index_iri raws ("<" +:+ x +:+ ">") then raw_index raws ("<" +:+ x +:+ ">") (heading p) (term_str ν (target p))
                else line ∈ plain raws
  | _, _ => line ∈ plain raws
  end.

Section answer.
  Context (raws : list raw_triple) (Hraw : raw_ok raws) (g : Gen) (L : list string) (Hrun : run_ok raws g L).

(** *** The ids of the lines *)

Lemma reserved_ids : str_to_id g !! predicate_str = Some 0 ∧ str_to_id g !! rdf_type = Some 1.
Proof. split; (eapply lookup_weaken; [|apply Hrun]); vm_compute; done. Qed.

Lemma vertex_id s : s ∈ vertex_strings raws → is_Some (str_to_id g !! s) → 2 ^ 17 <= id_of g s < 2 ^ 31.
Proof.
  intros Hs [i Hi]. unfold id_of. rewrite Hi. simpl. destruct (id_range raws Hraw g L Hrun s i Hi) as [Hr HL].
  destruct (decide (i < 2 ^ 17)) as [Hlt|]; [|lia]. apply HL in Hlt. apply (in_indexes raws Hraw g L Hrun) in Hlt. destruct (rw_apart _ Hraw s Hs Hlt).
Qed.

Lemma index_id s : s ∈ index_strings raws → is_Some (str_to_id g !! s) → s ≠ predicate_str → 0 < id_of g s < 2 ^ 17.
Proof.
  intros Hs [i Hi] Hne. unfold id_of. rewrite Hi. simpl. destruct (id_range raws Hraw g L Hrun s i Hi) as [Hr HL]. split.
  - destruct (decide (i = 0)) as [->|]; [|lia]. destruct Hne. eapply (id_unique raws Hraw g L Hrun); [done|apply reserved_ids].
  - apply HL. destruct (proj1 (gen_ok_dom g L s (ro_gen _ _ _ Hrun)) (ex_intro _ _ Hi)) as [?|Hn]; [done|].
    destruct (rw_apart _ Hraw s); [by apply (in_vertices raws g L Hrun)|done].
Qed.

Lemma line_role r s : r ∈ raws → (s ∈ vertices_of r → s ∈ vertex_strings raws) ∧ (s ∈ indexes_of r → s ∈ index_strings raws).
Proof.
  intros Hr. split; intros Hs; [apply elem_of_list_to_set|apply elem_of_union; right; apply elem_of_list_to_set]; apply list_elem_of_bind; by exists r.
Qed.

Lemma type_id r : r ∈ plain raws → id_of g (raw_p r) = TYPE_ID ↔ is_type r = true.
Proof.
  intros Hr. pose proof (row_known raws g L r (raw_p r) Hrun Hr ltac:(set_solver)) as Hp. apply list_elem_of_filter in Hr as [Ha _].
  unfold is_type. rewrite Ha. cbn [negb andb]. rewrite String.eqb_eq. split.
  - intros E. rewrite E in Hp. eapply (id_unique raws Hraw g L Hrun); [done|apply reserved_ids].
  - intros E. rewrite E in *. destruct reserved_ids as [_ E']. rewrite E' in Hp. by injection Hp as <-.
Qed.

Lemma rows_ok : data_ok (row g <$> plain raws).
Proof.
  assert (Hk : ∀ r s, r ∈ plain raws → s ∈ [raw_s r; raw_p r; raw_o r] → is_Some (str_to_id g !! s)) by (intros r s Hr Hs; eexists; by eapply row_known).
  assert (Hs : ∀ r, r ∈ plain raws → 2 ^ 17 <= id_of g (raw_s r) < 2 ^ 31).
  { intros r Hr. apply vertex_id; [|eapply Hk; [done|set_solver]]. apply list_elem_of_filter in Hr as [_ Hr]. apply (line_role r _ Hr). left. }
  assert (Hp : ∀ r, r ∈ plain raws → 0 < id_of g (raw_p r) < 2 ^ 17).
  { intros r Hr. apply index_id; [|eapply Hk; [done|set_solver]|]; apply list_elem_of_filter in Hr as [_ Hr]; [apply (line_role r _ Hr); left|by apply Hraw]. }
  assert (Ho : ∀ r, r ∈ plain raws → if is_type r then 1 < id_of g (raw_o r) < 2 ^ 17 else 2 ^ 17 <= id_of g (raw_o r) < 2 ^ 31).
  { intros r Hr. pose proof (Hk r (raw_o r) Hr ltac:(set_solver)) as Hko. pose proof Hr as [Ha Hr']%list_elem_of_filter. destruct (is_type r) eqn:Et.
    - destruct (rw_types _ Hraw r r Hr' Hr' Et) as [H1 H2]. assert (Hi : 0 < id_of g (raw_o r) < 2 ^ 17).
      { apply index_id; [|done|done]. apply (line_role r _ Hr'). unfold indexes_of. rewrite Et. right. left. }
      destruct (decide (id_of g (raw_o r) = 1)) as [E|]; [|lia]. destruct H1. unfold is_type in Et. apply andb_true_iff in Et as [_ Et%String.eqb_eq]. rewrite Et.
      destruct Hko as [i Hi']. unfold id_of in E. rewrite Hi' in E. simpl in E. subst i. eapply (id_unique raws Hraw g L Hrun); [done|apply reserved_ids].
    - apply vertex_id; [|done]. apply (line_role r _ Hr'). unfold vertices_of. rewrite Ha, Et. right. left. }
  assert (Hty : ∀ r, r ∈ plain raws → id_of g (raw_p r) = TYPE_ID → id_of g (raw_o r) < 2 ^ 17).
  { intros r Hr E. apply (type_id r Hr) in E. specialize (Ho r Hr). rewrite E in Ho. lia. }
  split.
  - apply Forall_fmap, Forall_forall. intros r Hr. specialize (Hs r Hr). specialize (Hp r Hr). specialize (Ho r Hr). split; simpl; [lia|lia|]. destruct (is_type r); lia.
  - split; [intros t (r & -> & Hr)%list_elem_of_fmap; by apply Hty..|].
    intros t t' (r & -> & Hr)%list_elem_of_fmap (r' & -> & Hr')%list_elem_of_fmap. simpl. intros Et%type_id E; [|done].
    pose proof (row_known raws g L r (raw_o r) Hrun Hr ltac:(set_solver)) as H1. pose proof (row_known raws g L r' (raw_p r') Hrun Hr' ltac:(set_solver)) as H2. rewrite E in H1.
    apply list_elem_of_filter in Hr as [_ Hr]. apply list_elem_of_filter in Hr' as [_ Hr']. destruct (rw_types _ Hraw r r' Hr Hr' Et) as [[] _].
    by eapply (id_unique raws Hraw g L Hrun).
  - intros t (r & -> & Hr)%list_elem_of_fmap. simpl. intros Hne. specialize (Ho r Hr). destruct (is_type r) eqn:Et; [|lia]. destruct Hne. by apply type_id.
  - intros t (r & -> & Hr)%list_elem_of_fmap. simpl. specialize (Hs r Hr). specialize (Ho r Hr). unfold BLANK_ID. destruct (is_type r); lia.
Qed.

(** *** Ids and strings *)

  Context (strs : String_Server) (Hstr : str2id strs = str_to_id g) (Hid : ∀ str id, id2str strs !! id = Some str ↔ str_to_id g !! str = Some id).

(** the id of a string in a query; one that is unknown has an id that no line has *)
Definition enc (s : string) : Z := default (2 ^ 31) (str_to_id g !! s).

Lemma enc_known a s : is_Some (str_to_id g !! s) → enc a = id_of g s ↔ a = s.
Proof.
  intros [i Hi]. unfold enc, id_of. rewrite Hi. simpl. pose proof (id_range raws Hraw g L Hrun s i Hi) as [Hr _]. split; [|intros ->; by rewrite Hi].
  destruct (str_to_id g !! a) as [j|] eqn:Ej; simpl; [intros ->; by eapply (id_unique raws Hraw g L Hrun)|lia].
Qed.

Lemma iri_enc x : u32 (iri_id strs x) = enc ("<" +:+ x +:+ ">") ∧
  iri_id strs x = match str_to_id g !! ("<" +:+ x +:+ ">") with Some i => i | None => - 2 ^ 31 end.
Proof.
  unfold iri_id, constant, enc. rewrite Hstr. destruct (str_to_id g !! _) as [i|] eqn:Ei; simpl; [|done].
  pose proof (id_range raws Hraw g L Hrun _ i Ei) as [Hr _]. rewrite i32_id, u32_id by lia. done.
Qed.

Lemma value_enc (μ : binding) (ν : naming) t : (∀ x, t = Var x → μ x = enc (ν x)) → value_of strs μ t = enc (term_str ν t).
Proof.
  intros Ht. destruct t as [x|x|]; simpl; [by apply Ht|apply iri_enc|]. unfold enc. destruct reserved_ids as [-> _]. done.
Qed.

Lemma line_data a t c : Triple (enc a) (predicate_id strs t) (enc c) ∈ row g <$> plain raws ↔
  Raw a (match t with Iri x => "<" +:+ x +:+ ">" | _ => predicate_str end) c ∈ plain raws.
Proof.
  rewrite list_elem_of_fmap.
  assert (Hk : ∀ r s, r ∈ plain raws → s ∈ [raw_s r; raw_p r; raw_o r] → is_Some (str_to_id g !! s)) by (intros r s Hr Hs; eexists; by eapply row_known).
  assert (Hp : ∀ r, r ∈ plain raws → predicate_id strs t = id_of g (raw_p r) ↔ raw_p r = match t with Iri x => "<" +:+ x +:+ ">" | _ => predicate_str end).
  { intros r Hr. destruct (Hk r (raw_p r) Hr ltac:(set_solver)) as [i Hi]. unfold id_of. rewrite Hi. simpl. pose proof (id_range raws Hraw g L Hrun _ i Hi) as [Hi0 _].
    assert (Hne : raw_p r ≠ predicate_str) by (apply list_elem_of_filter in Hr as [_ Hr]; by apply Hraw).
    assert (Hi1 : i ≠ 0) by (intros ->; apply Hne; eapply (id_unique raws Hraw g L Hrun); [done|apply reserved_ids]).
    destruct t as [x|x|]; simpl; [by split; [intros <-|]|..|by split; [intros <-|]].
    rewrite (proj2 (iri_enc x)). split; [|intros <-; by rewrite Hi].
    destruct (str_to_id g !! ("<" +:+ x +:+ ">")) as [j|] eqn:Ej; [intros E; subst j; by eapply (id_unique raws Hraw g L Hrun)|intros E; lia]. }
  split.
  - intros (r & E & Hr). unfold row in E. injection E as E1 E2 E3. apply enc_known in E1; [|eapply Hk; [done|set_solver]]. apply enc_known in E3; [|eapply Hk; [done|set_solver]].
    apply (Hp r Hr) in E2. subst a c. rewrite <-E2. by destruct r.
  - intros Hr. eexists. split; [|exact Hr]. unfold row. cbn [raw_s raw_p raw_o]. f_equal.
    + apply enc_known; [|done]. eapply Hk; [exact Hr|set_solver].
    + by apply (Hp _ Hr).
    + apply enc_known; [|done]. eapply Hk; [exact Hr|set_solver].
Qed.

Lemma index_enc x : is_tpid (iri_id strs x) = index_iri raws ("<" +:+ x +:+ ">").
Proof.
  set (c := "<" +:+ x +:+ ">"). rewrite (proj2 (iri_enc x)). fold c. assert (Hne : c ≠ predicate_str) by done. unfold index_iri. destruct reserved_ids as [_ H1].
  destruct (str_to_id g !! c) as [i|] eqn:Ei.
  - pose proof (id_range raws Hraw g L Hrun c i Ei) as [Hr HL]. assert (Hi0 : i ≠ 0) by (intros ->; apply Hne; eapply (id_unique raws Hraw g L Hrun); [done|apply reserved_ids]).
    assert (Hi1 : i = 1 ↔ c = rdf_type) by (split; [intros ->; by eapply (id_unique raws Hraw g L Hrun)|intros E; rewrite E in Ei; congruence]).
    assert (Ht : is_tpid i = true ↔ 1 < i < 2 ^ 17) by (unfold is_tpid; change (Z.shiftl 1 NBITS_IDX) with (2 ^ 17); lia).
    apply eq_true_iff_eq. rewrite Ht, bool_decide_eq_true. split.
    + intros Hi. split; [intros E; apply Hi1 in E; lia|]. destruct (ro_index _ _ _ Hrun c) as [?|[E|(r & Hr' & Hc)]]; [apply HL; lia|done|apply Hi1 in E; lia|].
      apply list_elem_of_bind. by exists r.
    + intros [Hn Hc]. assert (Hci : c ∈ index_strings raws) by (apply elem_of_union; right; by apply elem_of_list_to_set).
      pose proof (index_id c Hci (ex_intro _ _ Ei) Hne) as Hi. unfold id_of in Hi. rewrite Ei in Hi. simpl in Hi. assert (i ≠ 1) by (intros E; by apply Hn, Hi1). lia.
  - symmetry. unfold is_tpid. simpl. apply bool_decide_eq_false. intros [_ (r & Hc & Hr)%list_elem_of_bind].
    destruct (ro_ids _ _ _ Hrun r Hr c) as [i Hi]; [apply elem_of_app; by right|congruence].
Qed.

Lemma index_data c d v : is_Some (str_to_id g !! c) → index_holds (row g <$> plain raws) (id_of g c) d (enc v) ↔ raw_index raws c d v.
Proof.
  intros Hc. assert (Hk : ∀ r s, r ∈ plain raws → s ∈ [raw_s r; raw_p r; raw_o r] → is_Some (str_to_id g !! s)) by (intros r s Hr Hs; eexists; by eapply row_known).
  assert (Hsame : ∀ s, is_Some (str_to_id g !! s) → id_of g s = id_of g c ↔ s = c).
  { intros s Hs. split; [|by intros ->]. intros E. symmetry. apply (enc_known c s Hs). rewrite E. by apply enc_known. }
  assert (Hv : ∀ s, is_Some (str_to_id g !! s) → id_of g s = enc v ↔ s = v).
  { intros s Hs. split; [intros E; symmetry; apply (enc_known v s Hs); by symmetry|intros <-; symmetry; by apply enc_known]. }
  unfold index_holds, raw_index. destruct d; [| |done].
  - setoid_rewrite list_elem_of_fmap. split.
    + intros (t & (r & -> & Hr) & E1 & E2). exists r. simpl in *. split; [done|]. split; [apply Hv; [eapply Hk; [done|set_solver]|done]|].
      destruct E2 as [E2|[E2 E3]]; [left|right]; [apply Hsame; [eapply Hk; [done|set_solver]|done]|]. split; [|apply Hsame; [eapply Hk; [done|set_solver]|done]].
      apply (type_id r Hr) in E2. unfold is_type in E2. by apply andb_true_iff in E2 as [_ E2%String.eqb_eq].
    + intros (r & Hr & E1 & E2). exists (row g r). split; [by exists r|]. simpl. split; [apply Hv; [eapply Hk; [done|set_solver]|done]|].
      destruct E2 as [->|[E2 ->]]; [by left|right]. split; [|done]. apply (type_id r Hr). unfold is_type. apply list_elem_of_filter in Hr as [-> _]. by apply String.eqb_eq.
  - setoid_rewrite list_elem_of_fmap. split.
    + intros (t & (r & -> & Hr) & E1 & E2). exists r. simpl in *. split; [done|]. split; [apply Hv|apply Hsame]; try done; eapply Hk; [done|set_solver|done|set_solver].
    + intros (r & Hr & E1 & E2). exists (row g r). split; [by exists r|]. simpl. split; [apply Hv|apply Hsame]; try done; eapply Hk; [done|set_solver|done|set_solver].
Qed.

(** a pattern over the ids is the pattern over the lines *)
Lemma holds_enc i (μ : binding) (ν : naming) p : (∀ x, μ x = enc (ν x)) → data_holds strs (row g <$> plain raws) i μ p ↔ raw_holds raws i ν p.
Proof.
  intros Hμ. assert (Hval : ∀ t, value_of strs μ t = enc (term_str ν t)) by (intros t; apply value_enc; by intros x _).
  pose proof (line_data (term_str ν (t_subject p)) (t_predicate p) (term_str ν (t_object p))) as Hl.
  unfold data_holds, raw_holds. cbv zeta. rewrite !Hval. destruct i as [|i]; [|by destruct (source p)]. destruct (source p) as [x|x|]; [done| |done].
  rewrite index_enc. destruct (index_iri raws ("<" +:+ x +:+ ">")) eqn:Ei; [|done]. unfold index_iri in Ei. apply bool_decide_eq_true in Ei as [_ (r & Hc & Hr)%list_elem_of_bind].
  assert (Hc' : is_Some (str_to_id g !! ("<" +:+ x +:+ ">"))) by (apply (ro_ids _ _ _ Hrun r Hr), elem_of_app; by right).
  rewrite <-(index_data _ (heading p) (term_str ν (target p)) Hc'), (proj2 (iri_enc x)). unfold id_of. by destruct Hc' as [j ->].
Qed.

(** the values of a pattern that holds are ids of strings *)
Definition known (v : Z) : Prop := ∃ s, str_to_id g !! s = Some v.

Lemma row_ids t : t ∈ row g <$> plain raws → known (tr_s t) ∧ known (tr_o t).
Proof. intros (r & -> & Hr)%list_elem_of_fmap. split; eexists; eapply row_known; [done|done|set_solver|done|done|set_solver]. Qed.

Lemma index_ids c d v : index_holds (row g <$> plain raws) c d v → known v.
Proof. destruct d; simpl; [intros (t & [? ?]%row_ids & <- & _)..|done]; done. Qed.

Lemma holds_known i (μ : binding) p : data_holds strs (row g <$> plain raws) i μ p →
  known (value_of strs μ (target p)) ∧ ∀ μ' : binding, (∀ x, known (μ x) → μ' x = μ x) → data_holds strs (row g <$> plain raws) i μ' p.
Proof.
  assert (Hval : ∀ (μ' : binding) t, (∀ x, known (μ x) → μ' x = μ x) → known (value_of strs μ t) → value_of strs μ' t = value_of strs μ t).
  { intros μ' t Hμ Ht. destruct t as [x|x|]; simpl in *; [by apply Hμ|done|done]. }
  set (line μ := Triple (value_of strs μ (t_subject p)) (predicate_id strs (t_predicate p)) (value_of strs μ (t_object p))).
  assert (Hline : line μ ∈ row g <$> plain raws → known (value_of strs μ (target p)) ∧ ∀ μ' : binding, (∀ x, known (μ x) → μ' x = μ x) → line μ' ∈ row g <$> plain raws).
  { intros Hl. destruct (row_ids _ Hl) as [H1 H2]. simpl in H1, H2. split; [unfold target; by destruct (t_arrow p)|]. intros μ' Hμ. unfold line. by rewrite !(Hval μ'). }
  unfold data_holds. fold (line μ). destruct i as [|i]; [|by destruct (source p)]. destruct (source p) as [x|x|]; [done| |done].
  destruct (is_tpid (iri_id strs x)); [|done]. intros Hix. pose proof (index_ids _ _ _ Hix) as Hkn. split; [done|]. intros μ' Hμ. by rewrite (Hval μ').
Qed.

(** the solutions as ids are the solutions as strings *)
Lemma solutions_enc (ws : list tpat) (xs : list string) (vs : list sid_t) : (∀ x, x ∈ xs → ∃ p, p ∈ ws ∧ target p = Var x) →
  (∃ μ : binding, (∀ x, is_sid (μ x)) ∧ (∀ i p, ws !! i = Some p → data_holds strs (row g <$> plain raws) i μ p) ∧ vs = μ <$> xs) ↔
  ∃ ν : naming, (∀ i p, ws !! i = Some p → raw_holds raws i ν p) ∧ mapM (λ id, id2str strs !! id) vs = Some (ν <$> xs).
Proof.
  intros Hxs. split.
  - intros (μ & _ & Hμ & ->). set (ν := λ x, default "" (id2str strs !! μ x)). exists ν.
    assert (Hν : ∀ x, known (μ x) → enc (ν x) = μ x ∧ id2str strs !! μ x = Some (ν x)).
    { intros x [s Hs]. pose proof (proj2 (Hid s (μ x)) Hs) as Hx. unfold ν. rewrite Hx. simpl. split; [|done]. unfold enc. by rewrite Hs. }
    split.
    + intros i p Hp. rewrite <-(holds_enc i (λ x, enc (ν x)) ν p) by done. apply (holds_known i μ p (Hμ i p Hp)). intros x Hx. by apply Hν.
    + apply mapM_Some, Forall2_fmap, Forall_Forall2_diag, Forall_forall. intros x Hx. destruct (Hxs x Hx) as (p & [i Hi]%list_elem_of_lookup & Et).
      destruct (holds_known i μ p (Hμ i p Hi)) as [Hkn _]. rewrite Et in Hkn. by apply Hν.
  - intros (ν & Hν & Hvs). exists (λ x, enc (ν x)). split_and!.
    + intros x. unfold is_sid, enc. destruct (str_to_id g !! ν x) as [i|] eqn:Ei; simpl; [|lia]. pose proof (id_range raws Hraw g L Hrun _ i Ei) as [? _]. lia.
    + intros i p Hp. apply (holds_enc i _ ν p); [done|]. by apply Hν.
    + apply mapM_Some in Hvs. rewrite Forall2_fmap_r in Hvs. clear Hxs Hν. induction Hvs as [|v x vs xs Hv _ IH]; [done|]. cbn [fmap list_fmap]. f_equal; [|done].
      apply Hid in Hv. unfold enc. by rewrite Hv.
Qed.
End answer.

(** ** From lines and a text to the answer *)

(** C1: from RDF lines to the answer, on one server with one engine: the lines of the
    input files get their ids from the data generator; the string server loads the
    mapping files in any order, the store loads the data files, and the text of a query
    is parsed, issued and executed; the one message to the proxy lists the ids of exactly
    those strings for the projected names under which every triple pattern of the text is
    a line of the input. *)
Theorem rdf_text_answered (cfg := one_server) `{TbbOrder} `{Adaptor} `{StdSort} (files : list (list raw_triple)) (maps : list id_file) (strs : String_Server)
    (regex_compile : bool → string → option regex) (uset_iter : gset sid_t → list sid_t)
    (g : gstore) (buf kvs rdma_buf : Z) (q : select) (p : proxy) (s : list engine) (me eng : nat) (e : engine) :
  let data := concat (of_ids <$> (generate_data files).1) in
  raw_ok (concat files) → maps ≡ₚ (generate_data files).2 → load_strings maps = Ok strs →
  12 <= buf < 2 ^ 63 → 0 <= kvs < 2 ^ 63 → 12 * Z.of_nat (length data) <= kvs →
  header_sizes (hdr g) → length (edges g) = num_entries g →
  room (refresh g) (2 * (length data + length data) + 3) (5 * (length data + length data)) →
  answerable strs q →
  (∀ i pt, (query_pattern strs (names q) <$> s_where q) !! i = Some pt → source_ok i pt = true) →
  coder_wf (p_coder p) → c_tid (p_coder p) < 1 → s !! me = Some e →
  ∃ part spo ops g1,
    partition_at buf kvs 0 ((λ t, (0%nat, t)) <$> data) part ∧ aggregate_thread 0 [part] 0 = Ok (spo, ops) ∧
    insert_normal false (refresh g) spo ops = Ok g1 ∧
    ∀ bs, bs ≡ₚ seq 0 (num_buckets (hdr g1) + last_ext (hdr g1)) →
    ∃ g2 request r sols m e', insert_index false g1 bs = Ok g2 ∧
      parse_query strs false false false (show q) new_query = Ok (true, request) ∧
      round_request false (setpid p request).1 1 true = Ok r ∧
      (∀ vs, vs ∈ sols ↔ ∃ ν : naming, (∀ i pt, s_where q !! i = Some pt → raw_holds (concat files) i ν pt) ∧
        mapM (λ id, id2str strs !! id) vs = Some (ν <$> s_vars q)) ∧
      @execute_sparql_query false cfg (cluster_graph [g2] 0 rdma_buf ∅) _ _ strs regex_compile uset_iter s me eng r = Ok (<[me := e']> s) ∧
      all_msgs e' ≡ₚ all_msgs e ++ [MkMessage (c_sid (p_coder p)) (c_tid (p_coder p)) m] ∧
      result_table (result m) = concat sols ∧ row_num (result m) = length sols.
Proof.
  intros data Hraw Hp Es Hb Hk Hf Hh Hl Hr Hq Hsrc Hcw Hpx Hme. unfold data in *. destruct (generated files) as (gen & L & Hrun & E1 & E2). rewrite E1 in Hp. rewrite E2 in *.
  destruct (strings_ok _ Hraw gen L Hrun maps strs Hp Es) as [Hstr Hid].
  destruct (files_text_answered strs regex_compile uset_iter (row gen <$> plain (concat files)) g buf kvs rdma_buf q p s me eng e)
    as (part & spo & ops & g1 & K1 & K2 & K3 & Hg1); try done; [by eapply rows_ok|intros str id Hi; rewrite Hstr in Hi; by eapply (id_range _ Hraw gen L Hrun)|].
  exists part, spo, ops, g1. split_and!; [done..|]. intros bs Hbs. destruct (Hg1 bs Hbs) as (g2 & request & r & sols & m & e' & F1 & F2 & F3 & Hs & F4).
  exists g2, request, r, sols, m, e'. split_and!; try done; [|apply F4..]. intros vs. rewrite Hs. eapply solutions_enc; try done. apply Hq.
Qed.

(** *** A small data set *)

Definition small_strings : String_Server := match load_strings (generate_data small_raws).2 with Ok s => s | Err _ => empty_strings end.

Lemma small_answerable : @answerable one_server small_strings sample_select.
Proof.
  split; [vm_compute; reflexivity..|split; [done|vm_compute; reflexivity]|vm_compute; reflexivity|vm_compute; reflexivity|].
  intros x Hx. simpl in Hx. apply elem_of_cons in Hx as [->|Hx]; [|apply list_elem_of_singleton in Hx as ->].
  - eexists. split; [apply elem_of_cons; right; by apply elem_of_cons; left|done].
  - eexists. split; [by apply elem_of_cons; left|done].
Qed.

Lemma rdf_text_answered_witness : ∃ g2 r m e' sols vs,
  @execute_sparql_query false one_server (@cluster_graph one_server [g2] 0 0 ∅) open_network insertion_std_sort small_strings
    (λ _ _, None) (λ _, []) [idle_engine] 0 0 r = Ok [e'] ∧
  @all_msgs open_network e' ≡ₚ [MkMessage 0 0 m] ∧ result_table (result m) = concat sols ∧ vs ∈ sols ∧
  mapM (λ id, id2str small_strings !! id) vs = Some ["<b>"; "<a>"].
Proof.
  destruct (@rdf_text_answered list_order open_network insertion_std_sort small_raws (generate_data small_raws).2 small_strings (λ _ _, None) (λ _, [])
    bigger_store 12 24 0 sample_select idle_proxy [idle_engine] 0 0 idle_engine) as (part & spo & ops & g1 & _ & _ & _ & Hg).
  - exact small_raws_ok.
  - reflexivity.
  - vm_compute. reflexivity.
  - lia.
  - lia.
  - vm_compute. discriminate.
  - split; simpl; unfold ASSOCIATIVITY; lia.
  - reflexivity.
  - split; (vm_compute; first [lia|reflexivity|discriminate]).
  - exact small_answerable.
  - intros [|[|i]] p Hp; [injection Hp as <-; vm_compute; reflexivity..|simpl in Hp; discriminate Hp].
  - exact sample_coder.
  - reflexivity.
  - reflexivity.
  - destruct (Hg (seq 0 (num_buckets (hdr g1) + last_ext (hdr g1)))) as (g2 & request & r & sols & m & e' & _ & _ & _ & Hs & E & Hm & Ht & _); [reflexivity|].
    exists g2, r, m, e', sols, [131073; 131072]. split; [exact E|]. split; [exact Hm|]. split; [exact Ht|]. split; [|vm_compute; reflexivity].
    apply Hs. exists (λ x, if String.eqb x "X" then "<a>" else "<b>"). split; [|vm_compute; reflexivity].
    intros [|[|i]] p Hi; simpl in Hi; [..|discriminate Hi]; injection Hi as <-; unfold raw_holds.
    + change (raw_index (concat small_raws) "<http://knows>" IN "<a>"). exists (Raw "<a>" "<http://knows>" "<b>"). split; [vm_compute; left|]. split; [reflexivity|]. left. reflexivity.
    + change (Raw "<a>" "<http://knows>" "<b>" ∈ plain (concat small_raws)). vm_compute. left.
Defined.
