(* ===== verification/Buddy.v ===== *)
(** [core/buddy_malloc.hpp]: the buddy allocator of the entry region.

    Offsets into the region are indices. The memory of the region is given by the
    headers it holds, at multiples of [size_per_header]; a header that has been merged
    into a larger block stays in the memory as garbage, and its owner may overwrite it.
    The three free lists are arrays of pointers to list heads, kept as their indices.
    Functions under a lock are one step. *)

From S2P Require Import Prelude.
Local Open Scope Z_scope.

(** ** State *)

Definition level_low_bound : Z := 4.
Definition level_dividing_line : Z := 22.
Definition level_up_bound : Z := 32.

(** [struct header]: the bit fields are 1, 6, 48 and 48 bits wide *)
Record header := MkHeader { in_use : bool; hlevel : Z; prev_free_idx : Z; next_free_idx : Z }.
#[export] Instance header_eq_dec : EqDecision header.
Proof. solve_decision. Defined.

Definition u6 (x : Z) : Z := x mod 2 ^ 6.
Definition u48 (x : Z) : Z := x mod 2 ^ 48.
Definition size_per_header : Z := 16.

Record Buddy_Malloc := MkBuddy {
  b_mem : gmap Z header;            (* the headers in the region *)
  top_of_heap : Z;                  (* as an index *)
  nthread_parallel_load : Z;
  heap_size : Z;
  malloc_size : Z;
  large_free_list : list Z;
  small_free_list : list Z;
  tmp_small_free_list : list Z;
  usage_counter : list Z
}.

Definition set_mem (b : Buddy_Malloc) (m : gmap Z header) : Buddy_Malloc :=
  MkBuddy m (top_of_heap b) (nthread_parallel_load b) (heap_size b) (malloc_size b) (large_free_list b) (small_free_list b)
    (tmp_small_free_list b) (usage_counter b).
Definition set_usage (b : Buddy_Malloc) (u : list Z) : Buddy_Malloc :=
  MkBuddy (b_mem b) (top_of_heap b) (nthread_parallel_load b) (heap_size b) (malloc_size b) (large_free_list b) (small_free_list b)
    (tmp_small_free_list b) u.

(** reading a header where none was ever written is undefined *)
Definition header_at (b : Buddy_Malloc) (idx : Z) : outcome header :=
  match b_mem b !! idx with Some h => Ok h | None => Err Undefined end.
Definition set_header (b : Buddy_Malloc) (idx : Z) (h : header) : Buddy_Malloc := set_mem b (<[idx := h]> (b_mem b)).
Definition set_next (b : Buddy_Malloc) (idx next : Z) : outcome Buddy_Malloc :=
  h ← header_at b idx; Ok (set_header b idx (MkHeader (in_use h) (hlevel h) (prev_free_idx h) (u48 next))).
Definition set_prev (b : Buddy_Malloc) (idx prev : Z) : outcome Buddy_Malloc :=
  h ← header_at b idx; Ok (set_header b idx (MkHeader (in_use h) (hlevel h) (u48 prev) (next_free_idx h))).
Definition set_level (b : Buddy_Malloc) (idx level : Z) : outcome Buddy_Malloc :=
  h ← header_at b idx; Ok (set_header b idx (MkHeader (in_use h) (u6 level) (prev_free_idx h) (next_free_idx h))).

Definition get_value_idx (header_idx : Z) : Z := u64 (header_idx + size_per_header).
Definition get_header_idx (value_idx : Z) : Z := u64 (value_idx - size_per_header).

(** ** Free lists *)

Definition level_to_index_large (level : Z) : outcome nat :=
  ASSERT ((level_dividing_line <=? level) && (level <=? level_up_bound)); Ok (Z.to_nat (level - level_dividing_line)).
Definition level_to_index_small (level tid : Z) : outcome nat :=
  ASSERT ((level <=? level_dividing_line) && (level_low_bound <=? level));
  Ok (Z.to_nat (if tid <? 0 then level - level_low_bound
                else (level - level_low_bound) + (level_dividing_line - level_low_bound + 1) * tid)).

(** the heads of the lists *)
Definition large_list (b : Buddy_Malloc) (level : Z) : outcome Z :=
  i ← level_to_index_large level; read (large_free_list b) i.
Definition small_list (b : Buddy_Malloc) (level tid : Z) : outcome Z :=
  i ← level_to_index_small level tid; read (if tid <? 0 then small_free_list b else tmp_small_free_list b) i.

Definition is_empty_at (b : Buddy_Malloc) (head : Z) : outcome bool := h ← header_at b head; Ok (next_free_idx h =? head).
Definition is_empty_large (b : Buddy_Malloc) (level : Z) : outcome bool := head ← large_list b level; is_empty_at b head.
Definition is_empty_small (b : Buddy_Malloc) (level tid : Z) : outcome bool := head ← small_list b level tid; is_empty_at b head.

(** the body that the two versions of [mark_free] share *)
Definition mark_free_at (b : Buddy_Malloc) (start level head : Z) : outcome Buddy_Malloc :=
  let garbage := default (MkHeader false 0 0 0) (b_mem b !! start) in
  let b := set_header b start (MkHeader false (u6 level) (prev_free_idx garbage) (next_free_idx garbage)) in
  hd ← header_at b head;
  let next_idx := next_free_idx hd in
  b ← set_next b head start;
  b ← set_prev b next_idx start;
  b ← set_prev b start head;
  set_next b start next_idx.
Definition mark_free_large (b : Buddy_Malloc) (start level : Z) : outcome Buddy_Malloc :=
  head ← large_list b level; mark_free_at b start level head.
Definition mark_free_small (b : Buddy_Malloc) (start level tid : Z) : outcome Buddy_Malloc :=
  head ← small_list b level tid; mark_free_at b start level head.

Definition mark_used (b : Buddy_Malloc) (start level : Z) : outcome Buddy_Malloc :=
  h ← header_at b start;
  let b := set_header b start (MkHeader true (u6 level) (prev_free_idx h) (next_free_idx h)) in
  b ← set_next b (prev_free_idx h) (next_free_idx h);
  set_prev b (next_free_idx h) (prev_free_idx h).

(** [UINT64_MAX] when the buddy is not a free block of the same level *)
Definition UINT64_MAX : Z := 2 ^ 64 - 1.
Definition get_free_buddy (b : Buddy_Malloc) (idx level : Z) : outcome Z :=
  let buddy_idx := Z.lxor idx (Z.shiftl 1 level) in
  h ← header_at b buddy_idx;
  Ok (if (hlevel h =? level) && negb (in_use h) then buddy_idx else UINT64_MAX).

(** ** Sizes *)

Definition truncate_level (level : Z) : outcome Z :=
  if level <? level_low_bound then Ok level_low_bound
  else ASSERT (negb (level_up_bound <? level)); Ok level.

Fixpoint level_loop (fuel : nat) (size tmp level : Z) : outcome Z :=
  match fuel with
  | O => Err OutOfFuel
  | S fuel =>
      let tmp := u64 (Z.shiftl tmp 1) in
      let level := level + 1 in
      if size <=? tmp then Ok level else level_loop fuel size tmp level
  end.
Definition size_to_level (size : Z) : outcome Z :=
  level ← level_loop 64 (u64 (size + size_per_header)) 1 0; truncate_level level.

(** [1 << level] is a shift of a 32-bit [int] *)
Definition sz_to_blksz (size : Z) : outcome Z :=
  level ← size_to_level size; Ok (u64 (i32 (Z.shiftl 1 level) - size_per_header)).
Definition block_size (b : Buddy_Malloc) (idx : Z) : outcome Z :=
  h ← header_at b (get_header_idx idx); Ok (u64 (i32 (Z.shiftl 1 (hlevel h)) - size_per_header)).

(** ** Allocating *)

Definition large_sbrk (b : Buddy_Malloc) : outcome (Z * Buddy_Malloc) :=
  let sbrk_size := Z.shiftl 1 level_up_bound in
  ASSERT (negb (heap_size b <? u64 (malloc_size b + sbrk_size)));
  Ok (top_of_heap b, MkBuddy (b_mem b) (top_of_heap b + sbrk_size) (nthread_parallel_load b) (heap_size b) (u64 (malloc_size b + sbrk_size))
    (large_free_list b) (small_free_list b) (tmp_small_free_list b) (usage_counter b)).

(** the first level whose list is not empty, or else the last one; without a last
    level the functions below end without a value *)
Fixpoint search_level (empty : Z → outcome bool) (last : Z) (levels : list Z) : outcome (Z * bool) :=
  match levels with
  | [] => Err Undefined
  | free_level :: levels =>
      e ← empty free_level;
      if e && negb (free_level =? last) then search_level empty last levels else Ok (free_level, e)
  end.

(** the levels [lo .. hi] of a loop *)
Definition levels_up (lo hi : Z) : list Z := seqZ lo (hi - lo + 1).
(** the levels [hi - 1, .., lo] of a loop *)
Definition levels_down (hi lo : Z) : list Z := reverse (seqZ lo (hi - lo)).

Definition get_free_idx_large (b : Buddy_Malloc) (need_level : Z) : outcome (Z * Z * Buddy_Malloc) :=
  ASSERT (level_dividing_line <=? need_level);
  '(free_level, e) ← search_level (is_empty_large b) level_up_bound (levels_up need_level level_up_bound);
  b ← (if e : bool then '(new_heap, b) ← large_sbrk b; mark_free_large b new_heap free_level else Ok b);
  head ← large_list b free_level;
  h ← header_at b head;
  Ok (next_free_idx h, free_level, b).

Definition large_malloc (b : Buddy_Malloc) (need_level : Z) : outcome (Z * Buddy_Malloc) :=
  '(free_idx, free_level, b) ← get_free_idx_large b need_level;
  ASSERT (negb (free_idx =? UINT64_MAX));
  b ← foldM (λ b i, mark_free_large b (u64 (free_idx + Z.shiftl 1 i)) i) b (levels_down free_level need_level);
  b ← mark_used b free_idx need_level;
  Ok (get_value_idx free_idx, b).

Definition small_sbrk (b : Buddy_Malloc) : outcome (Z * Buddy_Malloc) :=
  '(new_heap, b) ← large_malloc b level_dividing_line;
  Ok (new_heap - size_per_header, b).

Definition get_free_idx_small (b : Buddy_Malloc) (need_level tid : Z) : outcome (Z * Z * Buddy_Malloc) :=
  ASSERT (need_level <? level_dividing_line);
  '(free_level, e) ← search_level (λ l, is_empty_small b l tid) level_dividing_line (levels_up need_level level_dividing_line);
  b ← (if e : bool then '(new_heap, b) ← small_sbrk b; mark_free_small b new_heap free_level tid else Ok b);
  head ← small_list b free_level tid;
  h ← header_at b head;
  Ok (next_free_idx h, free_level, b).

(** the second part of [small_malloc]: the block that was found is split and used *)
Definition small_take (b : Buddy_Malloc) (free_idx free_level need_level tid : Z) : outcome (Z * Buddy_Malloc) :=
  ASSERT (negb (free_idx =? UINT64_MAX));
  b ← foldM (λ b i, mark_free_small b (u64 (free_idx + Z.shiftl 1 i)) i tid) b (levels_down free_level need_level);
  b ← mark_used b free_idx need_level;
  Ok (get_value_idx free_idx, b).
Definition small_malloc (b : Buddy_Malloc) (need_level tid : Z) : outcome (Z * Buddy_Malloc) :=
  '(free_idx, free_level, b) ← get_free_idx_small b need_level tid;
  small_take b free_idx free_level need_level tid.

Definition count_usage (b : Buddy_Malloc) (level d : Z) : outcome Buddy_Malloc :=
  n ← read (usage_counter b) (Z.to_nat level);
  u ← write (usage_counter b) (Z.to_nat level) (u64 (n + d));
  Ok (set_usage b u).

Definition malloc (b : Buddy_Malloc) (size tid : Z) : outcome (Z * Buddy_Malloc) :=
  need_level ← size_to_level size;
  b ← count_usage b need_level 1;
  if level_dividing_line <=? need_level then large_malloc b need_level else small_malloc b need_level tid.

(** ** Freeing *)

(** the merging loop that both versions share: at most one iteration per level *)
Fixpoint merge_loop (fuel : nat) (b : Buddy_Malloc) (last free_header_idx cur_level : Z) : outcome (Z * Z * Buddy_Malloc) :=
  match fuel with
  | O => Err OutOfFuel
  | S fuel =>
      if cur_level <? last then
        buddy_header_idx ← get_free_buddy b free_header_idx cur_level;
        if buddy_header_idx =? UINT64_MAX then Ok (free_header_idx, cur_level, b)
        else
          b ← mark_used b buddy_header_idx cur_level;
          let free_header_idx := if buddy_header_idx <? free_header_idx then buddy_header_idx else free_header_idx in
          let cur_level := cur_level + 1 in
          b ← set_level b free_header_idx cur_level;
          merge_loop fuel b last free_header_idx cur_level
      else Ok (free_header_idx, cur_level, b)
  end.
Definition merge_fuel : nat := 64.

Definition large_free (b : Buddy_Malloc) (free_header_idx : Z) : outcome Buddy_Malloc :=
  h ← header_at b free_header_idx;
  ASSERT (level_dividing_line <=? hlevel h);
  '(free_header_idx, cur_level, b) ← merge_loop merge_fuel b level_up_bound free_header_idx (hlevel h);
  mark_free_large b free_header_idx cur_level.

Definition small_free (b : Buddy_Malloc) (free_header_idx : Z) : outcome Buddy_Malloc :=
  h ← header_at b free_header_idx;
  '(free_header_idx, cur_level, b) ← merge_loop merge_fuel b level_dividing_line free_header_idx (hlevel h);
  if cur_level =? level_dividing_line then large_free b free_header_idx (* give it to large_free *)
  else mark_free_small b free_header_idx cur_level (-1).

Definition free (b : Buddy_Malloc) (free_idx : Z) : outcome Buddy_Malloc :=
  let free_header_idx := get_header_idx free_idx in
  h ← header_at b free_header_idx;
  b ← count_usage b (hlevel h) (-1);
  if level_dividing_line <=? hlevel h then large_free b free_header_idx else small_free b free_header_idx.

(** ** Initialisation and the merging of the threads' lists *)

(** a list head: only its links are written *)
Definition init_head (b : Buddy_Malloc) (garbage : header) (idx : Z) : Buddy_Malloc :=
  let h := default garbage (b_mem b !! idx) in
  set_header b idx (MkHeader (in_use h) (hlevel h) (u48 idx) (u48 idx)).

Definition init_heads (garbage : header) (b : Buddy_Malloc) (idxs : list Z) : Buddy_Malloc :=
  foldl (λ b idx, init_head b garbage idx) b idxs.

Definition small_heads : list Z := (λ i, (i - level_low_bound + 1) * size_per_header) <$> levels_up level_low_bound level_dividing_line.
Definition large_heads : list Z := (λ i, (i - level_low_bound + 2) * size_per_header) <$> levels_up level_dividing_line level_up_bound.
Definition tmp_heads (n : Z) : list Z :=
  (λ k, (level_up_bound - level_low_bound + 10) * size_per_header + k * size_per_header) <$>
    seqZ 0 (n * (level_dividing_line - level_low_bound + 1)).

(** [mem] is what the region holds before, [garbage] what it holds where no header is *)
Definition init (mem : gmap Z header) (garbage : header) (size n : Z) : outcome Buddy_Malloc :=
  ASSERT (Z.shiftl 1 level_up_bound <=? size);
  let b := MkBuddy mem 0 n size 0 large_heads small_heads [] (replicate 33 0) in
  let b := init_heads garbage b small_heads in
  let b := init_heads garbage b large_heads in
  '(_, b) ← large_malloc b level_dividing_line;
  let b := init_heads garbage b (tmp_heads n) in
  Ok (MkBuddy (b_mem b) (top_of_heap b) n (heap_size b) (malloc_size b) (large_free_list b) (small_free_list b)
    (tmp_heads n) (usage_counter b)).

(** the walk to the end of the list of a thread *)
Fixpoint last_of (fuel : nat) (b : Buddy_Malloc) (head this_idx : Z) : outcome Z :=
  match fuel with
  | O => Err OutOfFuel
  | S fuel => h ← header_at b this_idx; if next_free_idx h =? head then Ok this_idx else last_of fuel b head (next_free_idx h)
  end.

Definition merge_thread (i : Z) (st : Z * Buddy_Malloc) (j : Z) : outcome (Z * Buddy_Malloc) :=
  let '(this_idx, b) := st in
  e ← is_empty_small b i j;
  if e : bool then Ok (this_idx, b)
  else
    tmp ← small_list b i j;
    t ← header_at b tmp;
    let next_idx := next_free_idx t in
    b ← set_next b this_idx next_idx;
    b ← set_prev b next_idx this_idx;
    this_idx ← last_of (size (b_mem b)) b tmp next_idx;
    head ← small_list b i (-1);
    b ← set_next b this_idx head;
    Ok (this_idx, b).

Definition merge_freelists (b : Buddy_Malloc) : outcome Buddy_Malloc :=
  b ← foldM (λ b i,
        head ← small_list b i (-1);
        '(_, b) ← foldM (merge_thread i) (head, b) (seqZ 0 (nthread_parallel_load b));
        Ok b) b (levels_up level_low_bound level_dividing_line);
  Ok (MkBuddy (b_mem b) (top_of_heap b) (nthread_parallel_load b) (heap_size b) (malloc_size b) (large_free_list b)
    (small_free_list b) [] (usage_counter b)).

Example init_alloc :
  (b ← init ∅ (MkHeader false 0 0 0) (2 ^ 33) 2; '(v1, b) ← malloc b 100 (-1); '(v2, b) ← malloc b 5000 1; '(v3, b) ← malloc b (2 ^ 23) (-1);
   b ← free b v1; '(v4, _) ← malloc b 112 (-1); Ok [v1; v2; v3; v4])
  = Ok [4194320; 8388624; 16777232; 4194320].
Proof. vm_compute. reflexivity. Qed.
