(* ===== verification/BuddyHeap.v ===== *)
(** The buddy allocator of [core/buddy_malloc.hpp] is an allocator: its blocks tile
    the heap, the free lists hold exactly the free blocks, and allocated blocks stay
    disjoint whatever their owners write into them. *)

From S2P Require Import Prelude Buddy.
Local Open Scope Z_scope.

(** ** Blocks *)

(** the lists a free block may be in: the large ones, the small ones shared by all
    threads, or the small ones of a thread *)
Inductive pool := Large | Shared | Thread (j : Z).
Inductive owner := InUse | Free (p : pool).
#[export] Instance pool_eq_dec : EqDecision pool.
Proof. solve_decision. Defined.
#[export] Instance owner_eq_dec : EqDecision owner.
Proof. solve_decision. Defined.

(** a block by its index, with its level and its owner *)
Abbreviation heap := (gmap Z (Z * owner)).

(** *** The blocks tile the heap *)

Record tiling (top : Z) (B : heap) : Prop := {
  ti_block i l o : B !! i = Some (l, o) → 0 <= i ∧ i + 2 ^ l <= top ∧ (2 ^ l | i) ∧ 4 <= l <= 32;
  ti_cover a : 0 <= a < top → ∃ i l o, B !! i = Some (l, o) ∧ i <= a < i + 2 ^ l;
  ti_disjoint i l o i' l' o' a : B !! i = Some (l, o) → B !! i' = Some (l', o') →
    i <= a < i + 2 ^ l → i' <= a < i' + 2 ^ l' → i = i'
}.

Lemma pow_pos l : 0 <= l → 0 < 2 ^ l.
Proof. intros. by apply Z.pow_pos_nonneg. Qed.

Lemma pow_S l : 0 <= l → 2 ^ (l + 1) = 2 * 2 ^ l.
Proof. intros. rewrite Z.pow_add_r by lia. lia. Qed.

Lemma pow_divide l l' : 0 <= l <= l' → (2 ^ l | 2 ^ l').
Proof. intros. exists (2 ^ (l' - l)). rewrite <-Z.pow_add_r by lia. f_equal. lia. Qed.

Lemma tiling_owner top B x l o o' : tiling top B → B !! x = Some (l, o) → tiling top (<[x := (l, o')]> B).
Proof.
  intros [Hb Hc Hd] Hx.
  assert (Hlk : ∀ i k q, <[x := (l, o')]> B !! i = Some (k, q) → ∃ q', B !! i = Some (k, q')).
  { intros i k q. destruct (decide (i = x)) as [->|]; [rewrite lookup_insert_eq; intros; simplify_eq; eauto|rewrite lookup_insert_ne by done; eauto]. }
  split.
  - intros i k q Hi. destruct (Hlk _ _ _ Hi) as [q' Hq]. by eapply Hb.
  - intros a Ha. destruct (Hc a Ha) as (i & k & q & Hi & Hr). destruct (decide (i = x)) as [->|].
    + exists x, l, o'. rewrite lookup_insert_eq. rewrite Hx in Hi. by simplify_eq.
    + exists i, k, q. by rewrite lookup_insert_ne.
  - intros i k q i' k' q' a Hi Hi'. destruct (Hlk _ _ _ Hi) as [? Hq]. destruct (Hlk _ _ _ Hi') as [? Hq']. by eapply Hd.
Qed.

(** a block is split into its halves *)
Lemma tiling_split top B x l o o1 o2 : tiling top B → B !! x = Some (l + 1, o) → 4 <= l →
  tiling top (<[x := (l, o1)]> (<[x + 2 ^ l := (l, o2)]> B)).
Proof.
  intros [Hb Hc Hd] Hx Hl. pose proof (pow_pos l ltac:(lia)). pose proof (pow_S l ltac:(lia)) as HS.
  destruct (Hb _ _ _ Hx) as (Hx0 & Hxt & Hxd & Hxl).
  assert (Hdl : (2 ^ l | x)) by (etrans; [apply pow_divide|exact Hxd]; lia).
  assert (Hlk : ∀ i k q, <[x := (l, o1)]> (<[x + 2 ^ l := (l, o2)]> B) !! i = Some (k, q) →
    (k = l ∧ (i = x ∨ i = x + 2 ^ l)) ∨ (B !! i = Some (k, q) ∧ i ≠ x ∧ i ≠ x + 2 ^ l)).
  { intros i k q. destruct (decide (i = x)) as [->|]; [rewrite lookup_insert_eq; intros; simplify_eq; auto|rewrite lookup_insert_ne by done].
    destruct (decide (i = x + 2 ^ l)) as [->|]; [rewrite lookup_insert_eq; intros; simplify_eq; auto|rewrite lookup_insert_ne by done; auto]. }
  split.
  - intros i k q Hi. destruct (Hlk _ _ _ Hi) as [[-> [-> | ->]]|[Hi' _]]; [| |by eapply Hb]; split_and!; try lia; try done.
    apply Z.divide_add_r; [done|apply Z.divide_refl].
  - intros a Ha. destruct (Hc a Ha) as (i & k & q & Hi & Hr). destruct (decide (i = x)) as [->|Hne].
    + rewrite Hx in Hi. simplify_eq. destruct (decide (a < x + 2 ^ l)).
      * exists x, l, o1. rewrite lookup_insert_eq. split; [done|lia].
      * exists (x + 2 ^ l), l, o2. rewrite lookup_insert_ne, lookup_insert_eq by lia. split; [done|lia].
    + exists i, k, q. rewrite !lookup_insert_ne; [done| |done]. intros <-.
      eapply Hne, (Hd _ _ _ _ _ _ (x + 2 ^ l) Hi Hx); [|lia]. split; [lia|]. apply Z.lt_add_pos_r, pow_pos. destruct (Hb _ _ _ Hi). lia.
  - assert (Hin : ∀ i k q a, B !! i = Some (k, q) → i ≠ x → i <= a < i + 2 ^ k → x <= a < x + 2 ^ (l + 1) → False).
    { intros i k q a Hi Hne Ha Ha'. by eapply Hne, (Hd _ _ _ _ _ _ a Hi Hx). }
    intros i k q i' k' q' a Hi Hi' Ha Ha'.
    destruct (Hlk _ _ _ Hi) as [[-> Hc1]|(Hi1 & Hn1 & _)], (Hlk _ _ _ Hi') as [[-> Hc2]|(Hi2 & Hn2 & _)].
    + destruct Hc1 as [-> | ->], Hc2 as [-> | ->]; lia.
    + exfalso. eapply (Hin _ _ _ a Hi2); [done..|]. destruct Hc1 as [-> | ->]; lia.
    + exfalso. eapply (Hin _ _ _ a Hi1); [done..|]. destruct Hc2 as [-> | ->]; lia.
    + by eapply (Hd _ _ _ _ _ _ a Hi1 Hi2).
Qed.

(** two halves are merged *)
Lemma tiling_merge top B x l o o' o1 : tiling top B → B !! x = Some (l, o) → B !! (x + 2 ^ l) = Some (l, o') →
  (2 ^ (l + 1) | x) → l < 32 → tiling top (<[x := (l + 1, o1)]> (delete (x + 2 ^ l) B)).
Proof.
  intros [Hb Hc Hd] Hx Hy Hdiv Hl. destruct (Hb _ _ _ Hx) as (Hx0 & _ & _ & Hxl). destruct (Hb _ _ _ Hy) as (_ & Hyt & _ & _).
  pose proof (pow_pos l ltac:(lia)). pose proof (pow_S l ltac:(lia)) as HS.
  assert (Hlk : ∀ i k q, <[x := (l + 1, o1)]> (delete (x + 2 ^ l) B) !! i = Some (k, q) →
    (k = l + 1 ∧ i = x) ∨ (B !! i = Some (k, q) ∧ i ≠ x ∧ i ≠ x + 2 ^ l)).
  { intros i k q. destruct (decide (i = x)) as [->|]; [rewrite lookup_insert_eq; intros; simplify_eq; auto|rewrite lookup_insert_ne by done].
    destruct (decide (i = x + 2 ^ l)) as [->|]; [by rewrite lookup_delete_eq|rewrite lookup_delete_ne by done; auto]. }
  split.
  - intros i k q Hi. destruct (Hlk _ _ _ Hi) as [[-> ->]|[Hi' _]]; [|by eapply Hb]. split_and!; try lia; done.
  - intros a Ha. destruct (Hc a Ha) as (i & k & q & Hi & Hr). destruct (decide (i = x)) as [->|Hn1].
    { rewrite Hx in Hi. simplify_eq. exists x, (k + 1), o1. rewrite lookup_insert_eq. split; [done|lia]. }
    destruct (decide (i = x + 2 ^ l)) as [->|Hn2].
    { rewrite Hy in Hi. simplify_eq. exists x, (k + 1), o1. rewrite lookup_insert_eq. split; [done|lia]. }
    exists i, k, q. by rewrite lookup_insert_ne, lookup_delete_ne.
  - assert (Hin : ∀ i k q a, B !! i = Some (k, q) → i ≠ x → i ≠ x + 2 ^ l → i <= a < i + 2 ^ k → x <= a < x + 2 ^ (l + 1) → False).
    { intros i k q a Hi Hn1 Hn2 Ha Ha'. destruct (decide (a < x + 2 ^ l)).
      - eapply Hn1, (Hd _ _ _ _ _ _ a Hi Hx); lia.
      - eapply Hn2, (Hd _ _ _ _ _ _ a Hi Hy); lia. }
    intros i k q i' k' q' a Hi Hi' Ha Ha'.
    destruct (Hlk _ _ _ Hi) as [[-> ->]|(Hi1 & Hn1 & Hn1')], (Hlk _ _ _ Hi') as [[-> ->]|(Hi2 & Hn2 & Hn2')]; [done|..].
    + exfalso. by eapply (Hin _ _ _ a Hi2).
    + exfalso. by eapply (Hin _ _ _ a Hi1).
    + by eapply (Hd _ _ _ _ _ _ a Hi1 Hi2).
Qed.

(** the heap grows by a block *)
Lemma tiling_grow top B o : tiling top B → 0 <= top → (2 ^ 32 | top) →
  tiling (top + 2 ^ 32) (<[top := (32, o)]> B) ∧ B !! top = None.
Proof.
  intros [Hb Hc Hd] Ht Hdv.
  assert (Hnone : B !! top = None).
  { destruct (B !! top) as [[l q]|] eqn:E; [|done]. destruct (Hb _ _ _ E) as (_ & ? & _ & ?). pose proof (pow_pos l). lia. }
  split; [|done]. split.
  - intros i k q. destruct (decide (i = top)) as [->|]; [rewrite lookup_insert_eq; intros; simplify_eq; split_and!; (done || lia)|].
    rewrite lookup_insert_ne by done. intros Hi. destruct (Hb _ _ _ Hi) as (? & ? & ? & ?). split_and!; try done; lia.
  - intros a Ha. destruct (decide (a < top)).
    + destruct (Hc a) as (i & k & q & Hi & Hr); [lia|]. exists i, k, q. rewrite lookup_insert_ne; [done|]. intros <-. congruence.
    + exists top, 32, o. rewrite lookup_insert_eq. split; [done|lia].
  - intros i k q i' k' q' a. destruct (decide (i = top)) as [->|], (decide (i' = top)) as [->|]; [done|..];
      rewrite ?lookup_insert_eq, ?lookup_insert_ne by done; intros Hi Hi' Ha Ha'; simplify_eq.
    + destruct (Hb _ _ _ Hi'). lia.
    + destruct (Hb _ _ _ Hi). lia.
    + by eapply (Hd _ _ _ _ _ _ a Hi Hi').
Qed.

(** *** Buddies *)

Lemma lxor_buddy x l : 0 <= l → 0 <= x → (2 ^ l | x) →
  ((2 ^ (l + 1) | x) ∧ Z.lxor x (Z.shiftl 1 l) = x + 2 ^ l) ∨
  ((2 ^ (l + 1) | x - 2 ^ l) ∧ Z.lxor x (Z.shiftl 1 l) = x - 2 ^ l).
Proof.
  intros Hl Hx [k ->]. rewrite pow_S by done. pose proof (pow_pos l Hl).
  assert (Z.lxor (k * 2 ^ l) (Z.shiftl 1 l) = Z.lxor k 1 * 2 ^ l) as ->.
  { rewrite <-!Z.shiftl_mul_pow2 by done. by rewrite Z.shiftl_lxor. }
  rewrite (Z.div2_odd k). destruct (Z.odd k) eqn:E; simpl Z.b2z.
  - right. split; [exists (Z.div2 k); ring|].
    assert (Z.lxor (2 * Z.div2 k + 1) 1 = 2 * Z.div2 k) as ->; [|ring].
    apply Z.bits_inj'. intros n Hn. rewrite Z.lxor_spec. destruct (decide (n = 0)) as [->|].
    + by rewrite Z.testbit_odd_0, Z.testbit_even_0.
    + replace n with (Z.succ (n - 1)) by lia. rewrite Z.testbit_odd_succ, Z.testbit_even_succ by lia.
      rewrite (Z.bits_above_log2 1) by (simpl; lia). apply xorb_false_r.
  - left. rewrite Z.add_0_r. split; [exists (Z.div2 k); ring|].
    assert (Z.lxor (2 * Z.div2 k) 1 = 2 * Z.div2 k + 1) as ->; [|ring].
    apply Z.bits_inj'. intros n Hn. rewrite Z.lxor_spec. destruct (decide (n = 0)) as [->|].
    + by rewrite Z.testbit_odd_0, Z.testbit_even_0.
    + replace n with (Z.succ (n - 1)) by lia. rewrite Z.testbit_odd_succ, Z.testbit_even_succ by lia.
      rewrite (Z.bits_above_log2 1) by (simpl; lia). apply xorb_false_r.
Qed.

Lemma aligned_below d a b : 0 < d → (d | a) → (d | b) → a < b + d → a <= b.
Proof. intros Hd [k ->] [j ->] Hlt. assert (k < j + 1) by nia. nia. Qed.

(** at the address of the buddy of a block there starts a block *)
Lemma tiling_buddy top B x l o : tiling top B → (2 ^ 32 | top) → B !! x = Some (l, o) → l < 32 →
  ∃ y l' o', Z.lxor x (Z.shiftl 1 l) = y ∧ B !! y = Some (l', o') ∧
    ((2 ^ (l + 1) | x) ∧ y = x + 2 ^ l ∨ (2 ^ (l + 1) | y) ∧ x = y + 2 ^ l).
Proof.
  intros [Hb Hc Hd] Htop Hx Hl. destruct (Hb _ _ _ Hx) as (Hx0 & Hxt & Hxd & Hxl).
  pose proof (pow_pos l ltac:(lia)). pose proof (pow_S l ltac:(lia)) as HS.
  assert (Hbase : ∃ base y, Z.lxor x (Z.shiftl 1 l) = y ∧ (2 ^ (l + 1) | base) ∧
    (base = x ∧ y = x + 2 ^ l ∨ base = y ∧ x = y + 2 ^ l)).
  { destruct (lxor_buddy x l ltac:(lia) Hx0 Hxd) as [[Hdv E]|[Hdv E]].
    - exists x, (x + 2 ^ l). split_and!; auto.
    - exists (x - 2 ^ l), (x - 2 ^ l). split_and!; auto. right. lia. }
  destruct Hbase as (base & y & Hxor & Hdb & Hby).
  assert (Hy0 : 0 <= y).
  { rewrite <-Hxor. apply Z.lxor_nonneg. split; [intros _|done]. rewrite Z.shiftl_mul_pow2 by lia. lia. }
  assert (Hbt : base + 2 ^ (l + 1) <= top).
  { apply (aligned_below (2 ^ (l + 1))); [lia| | |lia].
    - apply Z.divide_add_r; [done|apply Z.divide_refl].
    - etrans; [apply pow_divide|exact Htop]; lia. }
  assert (Hdy : (2 ^ l | y)).
  { assert (2 ^ l | base) by (etrans; [apply pow_divide|exact Hdb]; lia).
    destruct Hby as [[-> ->]|[-> _]]; [apply Z.divide_add_r; [done|apply Z.divide_refl]|done]. }
  destruct (Hc y) as (j & m & q & Hj & Hjr); [lia|]. destruct (Hb _ _ _ Hj) as (Hj0 & Hjt & Hjd & Hjl).
  assert (j = y) as ->; [|exists y, m, q; split_and!; [done..|]; destruct Hby as [[<- ->]|[<- ->]]; auto].
  destruct (decide (m <= l)) as [Hml|Hml].
  - apply Z.le_antisymm; [lia|]. apply (aligned_below (2 ^ m)); [apply pow_pos; lia| |done|lia].
    etrans; [apply pow_divide|exact Hdy]; lia.
  - assert (Hdj : (2 ^ (l + 1) | j)) by (etrans; [apply pow_divide|exact Hjd]; lia).
    assert (Hdm : (2 ^ (l + 1) | 2 ^ m)) by (apply pow_divide; lia).
    assert (j <= base) by (apply (aligned_below (2 ^ (l + 1))); [lia|done|done|lia]).
    assert (base + 2 ^ (l + 1) <= j + 2 ^ m).
    { apply Z.lt_pred_le, Z.lt_nge. intros Hge. assert (j + 2 ^ m <= base); [|lia].
      apply (aligned_below (2 ^ (l + 1))); [lia|by apply Z.divide_add_r|done|lia]. }
    assert (j = x) as -> by (apply (Hd _ _ _ _ _ _ x Hj Hx); lia). rewrite Hx in Hj. simplify_eq. lia.
Qed.

(** ** Linked lists in the memory *)

Definition nxt (m : gmap Z header) (x : Z) : option Z := next_free_idx <$> m !! x.
Definition prv (m : gmap Z header) (x : Z) : option Z := prev_free_idx <$> m !! x.
Definition tag (m : gmap Z header) (x : Z) : option (bool * Z) := (λ h, (in_use h, hlevel h)) <$> m !! x.

(** from [x] the links lead through [l] to [s] *)
Fixpoint seg (m : gmap Z header) (x : Z) (l : list Z) (s : Z) : Prop :=
  match l with
  | [] => nxt m x = Some s
  | y :: l => nxt m x = Some y ∧ prv m y = Some x ∧ seg m y l s
  end.

Lemma seg_frame m m' x l s : seg m x l s → (∀ y, y ∈ x :: l → nxt m' y = nxt m y) → (∀ y, y ∈ l → prv m' y = prv m y) →
  seg m' x l s.
Proof.
  revert x. induction l as [|y l IH]; intros x Hs Hn Hp; simpl in *.
  - rewrite Hn; [done|]. set_solver.
  - destruct Hs as (H1 & H2 & H3). rewrite Hn, Hp by set_solver. split_and!; [done..|]. apply IH; [done|..]; set_solver.
Qed.

Lemma seg_next m x l s : seg m x l s → nxt m x = Some (default s (head l)).
Proof. destruct l; simpl; tauto. Qed.

(** the neighbours of an element *)
Lemma seg_around m x l1 y l2 s : seg m x (l1 ++ y :: l2) s →
  prv m y = Some (default x (last l1)) ∧ nxt m y = Some (default s (head l2)).
Proof.
  revert x. induction l1 as [|z l1 IH]; intros x; simpl.
  - intros (_ & H2 & H3). split; [done|by eapply seg_next].
  - intros (_ & _ & H3). destruct (IH _ H3) as [E1 E2]. split; [|done]. rewrite E1. rewrite last_cons. by destruct (last l1).
Qed.

(** insertion at the front *)
Lemma seg_insert m m' s l i : seg m s l s → i ∉ s :: l → NoDup (s :: l) →
  (∀ y, nxt m' y = if decide (y = i) then nxt m s else if decide (y = s) then Some i else nxt m y) →
  (∀ y, prv m' y = if decide (y = i) then Some s else if decide (Some y = nxt m s) then Some i else prv m y) →
  seg m' s (i :: l) s.
Proof.
  intros Hs Hi Hnd Hn Hp. simpl. rewrite Hn, decide_False, decide_True by set_solver. rewrite Hp, decide_True by done.
  split_and!; [done..|]. destruct l as [|y l].
  - simpl in *. by rewrite Hn, decide_True.
  - simpl in Hs |- *. destruct Hs as (H1 & H2 & H3). rewrite NoDup_cons in Hnd. destruct Hnd as [Hsl Hnd].
    rewrite Hn, decide_True by done. rewrite Hp, decide_False, decide_True by (done || set_solver). split_and!; [done..|].
    eapply seg_frame; [exact H3|..].
    + intros z Hz. rewrite Hn, !decide_False; [done|set_solver..].
    + intros z Hz. rewrite Hp, !decide_False; [done|rewrite H1; intros [= ->]|set_solver].
      apply NoDup_cons in Hnd. set_solver.
Qed.

(** removal of an element *)
Lemma seg_remove m m' x l1 i l2 s p q : seg m x (l1 ++ i :: l2) s → NoDup (x :: l1 ++ i :: l2) → s ∉ l1 ++ i :: l2 →
  prv m i = Some p → nxt m i = Some q →
  (∀ y, y ≠ i → nxt m' y = if decide (y = p) then Some q else nxt m y) →
  (∀ y, y ≠ i → prv m' y = if decide (y = q) then Some p else prv m y) →
  seg m' x (l1 ++ l2) s.
Proof.
  revert x. induction l1 as [|c l1 IH]; intros x Hs Hnd Hns Hip Hiq Hn Hp.
  - simpl in *. destruct Hs as (H1 & H2 & H3). assert (p = x) as -> by congruence.
    rewrite !NoDup_cons in Hnd. destruct Hnd as (Hx & Hi & Hnd). pose proof (seg_next _ _ _ _ H3) as Hq. rewrite Hiq in Hq. injection Hq as Hq.
    destruct l2 as [|y l2]; simpl in *.
    + subst q. rewrite Hn, decide_True by set_solver. done.
    + subst q. destruct H3 as (H3 & H4 & H5). rewrite Hn, decide_True by set_solver. rewrite Hp, decide_True by set_solver.
      split_and!; [done..|]. apply NoDup_cons in Hnd as [Hy _]. eapply seg_frame; [exact H5|..].
      * intros z Hz. rewrite Hn, decide_False by set_solver. done.
      * intros z Hz. rewrite Hp, decide_False by set_solver. done.
  - simpl in Hs, Hns |- *. destruct Hs as (H1 & H2 & H3). rewrite NoDup_cons in Hnd. destruct Hnd as [Hx Hnd].
    destruct (seg_around _ _ _ _ _ _ H3) as [E1 E2]. rewrite Hip in E1. rewrite Hiq in E2. injection E1 as E1. injection E2 as E2.
    assert (Hpin : p ∈ c :: l1).
    { subst p. destruct (last l1) as [z|] eqn:E; simpl; [|set_solver]. apply last_Some_elem_of in E. set_solver. }
    assert (Hqin : q ∈ s :: l2) by (subst q; destruct l2; set_solver).
    rewrite Hn, decide_False by set_solver. split; [done|]. rewrite Hp, decide_False; [split; [done|]|..].
    + apply IH; try done. set_solver.
    + apply NoDup_cons in Hnd as [Hc _]. set_solver.
    + set_solver.
Qed.

(** ** The memory matches the blocks *)

(** the index of the head of a free list *)
Definition head_of (p : pool) (l : Z) : Z :=
  match p with Large => (l - 2) * 16 | Shared => (l - 3) * 16 | Thread j => (38 + (l - 4) + 19 * j) * 16 end.

(** the lists that exist, with [n] threads *)
Definition valid (n : Z) (p : pool) (l : Z) : Prop :=
  match p with Large => 22 <= l <= 32 | Shared => 4 <= l <= 22 | Thread j => 4 <= l <= 22 ∧ 0 <= j < n end.

(** the heads fit into the first block *)
Definition threads_fit (n : Z) : Prop := 0 <= n ∧ 38 + 19 * n <= 2 ^ 18.

Record mem_ok (n : Z) (m : gmap Z header) (B : heap) : Prop := {
  mo_tag i l o : B !! i = Some (l, o) → tag m i = Some (bool_decide (o = InUse), l);
  mo_valid i l p : B !! i = Some (l, Free p) → valid n p l;
  mo_range i l o : B !! i = Some (l, o) → 0 <= l < 64 ∧ 0 <= i < 2 ^ 48;
  mo_low i l o : B !! i = Some (l, o) → (i = 0 ∧ 22 <= l) ∨ 2 ^ 22 <= i;
  mo_list p l : valid n p l → ∃ xs, seg m (head_of p l) xs (head_of p l) ∧ NoDup xs ∧ ∀ i, i ∈ xs ↔ B !! i = Some (l, Free p)
}.

Lemma head_inj n p l p' l' : valid n p l → valid n p' l' → head_of p l = head_of p' l' → p = p' ∧ l = l'.
Proof. unfold valid, head_of. destruct p as [| |j], p' as [| |j']; intros; try (split; [done|lia]); try lia. assert (j = j') by lia. subst. split; [done|lia]. Qed.

Lemma head_range n p l : threads_fit n → valid n p l → 0 < head_of p l < 2 ^ 22.
Proof. unfold threads_fit, valid, head_of. destruct p; lia. Qed.

(** a header is its tag and its links *)
Lemma header_ext m m' i : nxt m i = nxt m' i → prv m i = prv m' i → tag m i = tag m' i → m !! i = m' !! i.
Proof.
  unfold nxt, prv, tag. destruct (m !! i) as [[u l p q]|], (m' !! i) as [[u' l' p' q']|]; simpl; congruence.
Qed.

(** the headers outside of the list heads and the blocks stay *)
Definition mem_keeps (B : heap) (i : Z) (m m' : gmap Z header) : Prop := ∀ y, 2 ^ 22 <= y → B !! y = None → y ≠ i → m' !! y = m !! y.

Lemma tag_Some m i t : tag m i = Some t → ∃ h, m !! i = Some h ∧ t = (in_use h, hlevel h).
Proof. unfold tag. destruct (m !! i) as [h|]; simpl; [|done]. intros [= <-]. eauto. Qed.

(** the effect of a header write *)
Lemma links_insert m i h y :
  nxt (<[i := h]> m) y = (if decide (y = i) then Some (next_free_idx h) else nxt m y) ∧
  prv (<[i := h]> m) y = (if decide (y = i) then Some (prev_free_idx h) else prv m y) ∧
  tag (<[i := h]> m) y = (if decide (y = i) then Some (in_use h, hlevel h) else tag m y).
Proof.
  unfold nxt, prv, tag. destruct (decide (y = i)) as [->|]; [by rewrite lookup_insert_eq|by rewrite lookup_insert_ne].
Qed.

(** an update of the links *)
Lemma set_next_ok b i x h : b_mem b !! i = Some h → 0 <= x < 2 ^ 48 → ∃ m, set_next b i x = Ok (set_mem b m) ∧
  ∀ y, nxt m y = (if decide (y = i) then Some x else nxt (b_mem b) y) ∧ prv m y = prv (b_mem b) y ∧ tag m y = tag (b_mem b) y.
Proof.
  intros Hi Hx. unfold set_next, header_at. rewrite Hi. simpl. eexists. split; [done|]. intros y.
  destruct (links_insert (b_mem b) i (MkHeader (in_use h) (hlevel h) (prev_free_idx h) (u48 x)) y) as (-> & -> & ->). simpl.
  unfold u48. rewrite Z.mod_small by done. unfold prv, tag. destruct (decide (y = i)) as [->|]; [by rewrite Hi|done].
Qed.

Lemma set_prev_ok b i x h : b_mem b !! i = Some h → 0 <= x < 2 ^ 48 → ∃ m, set_prev b i x = Ok (set_mem b m) ∧
  ∀ y, prv m y = (if decide (y = i) then Some x else prv (b_mem b) y) ∧ nxt m y = nxt (b_mem b) y ∧ tag m y = tag (b_mem b) y.
Proof.
  intros Hi Hx. unfold set_prev, header_at. rewrite Hi. simpl. eexists. split; [done|]. intros y.
  destruct (links_insert (b_mem b) i (MkHeader (in_use h) (hlevel h) (u48 x) (next_free_idx h)) y) as (-> & -> & ->). simpl.
  unfold u48. rewrite Z.mod_small by done. unfold nxt, tag. destruct (decide (y = i)) as [->|]; [by rewrite Hi|done].
Qed.

Lemma tag_is_Some m m' i : tag m i = tag m' i → is_Some (m !! i) → is_Some (m' !! i).
Proof. unfold tag. destruct (m !! i), (m' !! i); simpl; intros; naive_solver. Qed.

(** the effects of the two list operations *)
Lemma mark_free_at_effect b i l s q : nxt (b_mem b) s = Some q → is_Some (b_mem b !! q) → i ≠ s → i ≠ q →
  0 <= l < 64 → 0 <= i < 2 ^ 48 → 0 <= s < 2 ^ 48 → 0 <= q < 2 ^ 48 →
  ∃ m, mark_free_at b i l s = Ok (set_mem b m) ∧ ∀ y,
    nxt m y = (if decide (y = i) then Some q else if decide (y = s) then Some i else nxt (b_mem b) y) ∧
    prv m y = (if decide (y = i) then Some s else if decide (y = q) then Some i else prv (b_mem b) y) ∧
    tag m y = (if decide (y = i) then Some (false, l) else tag (b_mem b) y).
Proof.
  intros Hs [hq Hq] His Hiq Hl Hi Hsr Hqr. unfold mark_free_at. set (garbage := default _ _).
  set (h0 := MkHeader false (u6 l) (prev_free_idx garbage) (next_free_idx garbage)). set (m0 := <[i := h0]> (b_mem b)).
  unfold nxt in Hs. destruct (b_mem b !! s) as [hs|] eqn:Es; [|done]. simpl in Hs. injection Hs as Hs.
  unfold header_at at 1. simpl. fold m0. assert (E0 : m0 !! s = Some hs) by (unfold m0; by rewrite lookup_insert_ne).
  rewrite E0. simpl. rewrite Hs. change (set_header b i h0) with (set_mem b m0).
  assert (Hm0 : ∀ y, nxt m0 y = (if decide (y = i) then Some (next_free_idx garbage) else nxt (b_mem b) y) ∧
    prv m0 y = (if decide (y = i) then Some (prev_free_idx garbage) else prv (b_mem b) y) ∧
    tag m0 y = (if decide (y = i) then Some (false, l) else tag (b_mem b) y)).
  { intros y. destruct (links_insert (b_mem b) i h0 y) as (E1 & E2 & E3). fold m0 in E1, E2, E3. rewrite E1, E2, E3.
    unfold h0 at 3 4. simpl. unfold u6. by rewrite Z.mod_small. }
  assert (Hex : ∀ m y, (∀ z, tag m z = tag m0 z) → (y = i ∨ is_Some (b_mem b !! y)) → is_Some (m !! y)).
  { intros m y Hm Hy. apply (tag_is_Some m0 m); [done|]. unfold m0. destruct (decide (y = i)) as [->|]; [rewrite lookup_insert_eq; eauto|].
    rewrite lookup_insert_ne by done. destruct Hy; [done|done]. }
  destruct (set_next_ok (set_mem b m0) s i hs) as (m1 & -> & H1); [done..|]. simpl in *.
  destruct (Hex m1 q) as [h1 E1]; [intros z; apply H1|right; eauto|].
  destruct (set_prev_ok (set_mem b m1) q i h1) as (m2 & E & H2); [done..|]. change (set_mem (set_mem b m0) m1) with (set_mem b m1). rewrite E. simpl in *. clear E.
  destruct (Hex m2 i) as [h2 E2]; [intros z; destruct (H2 z) as (_ & _ & ->); apply H1|by left|].
  destruct (set_prev_ok (set_mem b m2) i s h2) as (m3 & E & H3); [done..|]. change (set_mem (set_mem b m1) m2) with (set_mem b m2). rewrite E. simpl in *. clear E.
  destruct (Hex m3 i) as [h3 E3]; [intros z; destruct (H3 z) as (_ & _ & ->), (H2 z) as (_ & _ & ->); apply H1|by left|].
  destruct (set_next_ok (set_mem b m3) i q h3) as (m4 & E & H4); [done..|]. change (set_mem (set_mem b m2) m3) with (set_mem b m3). rewrite E. simpl in *.
  exists m4. split; [done|]. intros y. destruct (H4 y) as (-> & -> & ->), (H3 y) as (-> & -> & ->), (H2 y) as (-> & -> & ->), (H1 y) as (-> & -> & ->), (Hm0 y) as (-> & -> & ->).
  repeat case_decide; simplify_eq; done.
Qed.

Lemma mark_used_effect b i l p q : prv (b_mem b) i = Some p → nxt (b_mem b) i = Some q → is_Some (b_mem b !! p) → is_Some (b_mem b !! q) →
  i ≠ p → i ≠ q → 0 <= l < 64 → 0 <= p < 2 ^ 48 → 0 <= q < 2 ^ 48 →
  ∃ m, mark_used b i l = Ok (set_mem b m) ∧ ∀ y,
    nxt m y = (if decide (y = p) then Some q else nxt (b_mem b) y) ∧
    prv m y = (if decide (y = q) then Some p else prv (b_mem b) y) ∧
    tag m y = (if decide (y = i) then Some (true, l) else tag (b_mem b) y).
Proof.
  intros Hp Hq [hp Ep] [hq Eq] Hip Hiq Hl Hpr Hqr. unfold mark_used, header_at. unfold nxt in Hq. unfold prv in Hp.
  destruct (b_mem b !! i) as [h|] eqn:Ei; [|done]. simpl in *. injection Hp as Hp. injection Hq as Hq. rewrite Hp, Hq.
  set (m0 := <[i := MkHeader true (u6 l) p q]> (b_mem b)). change (set_header b i (MkHeader true (u6 l) p q)) with (set_mem b m0).
  assert (Hm0 : ∀ y, nxt m0 y = nxt (b_mem b) y ∧ prv m0 y = prv (b_mem b) y ∧
    tag m0 y = (if decide (y = i) then Some (true, l) else tag (b_mem b) y)).
  { intros y. destruct (links_insert (b_mem b) i (MkHeader true (u6 l) p q) y) as (E1 & E2 & E3). fold m0 in E1, E2, E3. rewrite E1, E2, E3.
    simpl. unfold u6. rewrite Z.mod_small by done. unfold nxt, prv. destruct (decide (y = i)) as [->|]; [rewrite Ei; simpl; by rewrite Hp, Hq|done]. }
  destruct (set_next_ok (set_mem b m0) p q hp) as (m1 & -> & H1); [simpl; unfold m0; by rewrite lookup_insert_ne|done|]. simpl in *.
  assert (Hq1 : is_Some (m1 !! q)).
  { apply (tag_is_Some m0 m1); [symmetry; apply H1|]. unfold m0. rewrite lookup_insert_ne by done. eauto. }
  destruct Hq1 as [h1 E1]. destruct (set_prev_ok (set_mem b m1) q p h1) as (m2 & E & H2); [done..|].
  change (set_mem (set_mem b m0) m1) with (set_mem b m1). rewrite E. simpl in *. exists m2. split; [done|]. intros y.
  destruct (H2 y) as (-> & -> & ->), (H1 y) as (-> & -> & ->), (Hm0 y) as (-> & -> & ->). done.
Qed.

Section memory.
  Context (n : Z) (Hn : threads_fit n).

Lemma not_head m B i l o p k : mem_ok n m B → B !! i = Some (l, o) → valid n p k → i ≠ head_of p k.
Proof. intros Hm Hi Hv ->. pose proof (head_range n p k Hn Hv). destruct (mo_low _ _ _ Hm _ _ _ Hi); lia. Qed.

(** what a head points to *)
Lemma head_next m B p l : mem_ok n m B → valid n p l →
  ∃ q, nxt m (head_of p l) = Some q ∧ is_Some (m !! q) ∧ 0 <= q < 2 ^ 48 ∧
    (q = head_of p l ∧ (∀ i, B !! i ≠ Some (l, Free p)) ∨ B !! q = Some (l, Free p) ∧ q ≠ head_of p l).
Proof.
  intros Hm Hv. destruct (mo_list _ _ _ Hm p l Hv) as (xs & Hs & Hnd & Hin). exists (default (head_of p l) (head xs)).
  pose proof (seg_next _ _ _ _ Hs) as Hx. pose proof (head_range n p l Hn Hv). split; [done|]. destruct xs as [|q xs]; simpl in *.
  - split_and!; [|lia|lia|].
    + unfold nxt in Hx. destruct (m !! head_of p l); [eauto|done].
    + left. split; [done|]. intros i Hi. apply Hin in Hi. set_solver.
  - assert (Hq : B !! q = Some (l, Free p)) by (apply Hin; set_solver). split_and!.
    + destruct (tag_Some _ _ _ (mo_tag _ _ _ Hm _ _ _ Hq)) as (h & -> & _). eauto.
    + apply (mo_range _ _ _ Hm _ _ _ Hq).
    + apply (mo_range _ _ _ Hm _ _ _ Hq).
    + right. split; [done|]. by eapply not_head.
Qed.

(** a block that is in no list is put into one *)
Lemma mem_free b B i l p : mem_ok n (b_mem b) B → valid n p l → (∀ k q, B !! i ≠ Some (k, Free q)) →
  (i = 0 ∧ 22 <= l) ∨ 2 ^ 22 <= i → 0 <= i < 2 ^ 48 →
  ∃ m, mark_free_at b i l (head_of p l) = Ok (set_mem b m) ∧ mem_ok n m (<[i := (l, Free p)]> B) ∧ mem_keeps B i (b_mem b) m.
Proof.
  intros Hm Hv Hfree Hlow Hr. pose proof (head_range n p l Hn Hv) as Hh.
  destruct (head_next _ _ p l Hm Hv) as (q & Hq & Hqe & Hqr & Hqc).
  assert (Hl : 0 <= l < 64) by (unfold valid in Hv; destruct p; lia).
  assert (Hiq : i ≠ q) by (destruct Hqc as [[-> _]|[Hqb _]]; [lia|intros ->; by eapply Hfree]).
  destruct (mark_free_at_effect b i l (head_of p l) q) as (m & E & Heff); [done|done|lia|done|done|done|lia|done|].
  exists m. split_and!; [exact E| |]; cycle 1.
  { intros y Hy Hno Hyi. destruct (Heff y) as (E1 & E2 & E3). rewrite decide_False in E1 by done. rewrite decide_False in E2 by done. rewrite decide_False in E3 by done. rewrite decide_False in E1 by lia.
    rewrite decide_False in E2; [by apply header_ext|]. intros ->. destruct Hqc as [[? _]|[? _]]; [lia|congruence]. }
  split.
  - intros j k o. destruct (Heff j) as (_ & _ & ->). destruct (decide (j = i)) as [->|].
    + rewrite lookup_insert_eq. intros [= <- <-]. by rewrite bool_decide_eq_false_2.
    + rewrite lookup_insert_ne by done. apply Hm.
  - intros j k o. destruct (decide (j = i)) as [->|]; [rewrite lookup_insert_eq; by intros [= <- <-]|rewrite lookup_insert_ne by done; apply Hm].
  - intros j k o. destruct (decide (j = i)) as [->|]; [rewrite lookup_insert_eq; by intros [= <- <-]|rewrite lookup_insert_ne by done; apply Hm].
  - intros j k o. destruct (decide (j = i)) as [->|]; [rewrite lookup_insert_eq; by intros [= <- <-]|rewrite lookup_insert_ne by done; apply Hm].
  - intros p' l' Hv'. destruct (mo_list _ _ _ Hm p' l' Hv') as (xs & Hs & Hnd & Hin).
    assert (Hixs : i ∉ xs) by (rewrite Hin; apply Hfree).
    assert (Hhxs : ∀ p k, valid n p k → head_of p k ∉ xs) by (intros p0 k Hk Hx; apply Hin in Hx; by eapply not_head).
    pose proof (head_range n p' l' Hn Hv').
    destruct (decide ((p', l') = (p, l))) as [[= -> ->]|Hne].
    + exists (i :: xs). split_and!.
      * apply (seg_insert (b_mem b)); [done|..].
        -- rewrite elem_of_cons. intros [?|?]; [lia|done].
        -- apply NoDup_cons. split; [by apply Hhxs|done].
        -- intros y. destruct (Heff y) as (-> & _ & _). by rewrite Hq.
        -- intros y. destruct (Heff y) as (_ & -> & _). rewrite Hq. repeat case_decide; naive_solver.
      * by apply NoDup_cons.
      * intros j. rewrite elem_of_cons. destruct (decide (j = i)) as [->|]; [rewrite lookup_insert_eq; naive_solver|].
        rewrite lookup_insert_ne by done. rewrite Hin. naive_solver.
    + assert (Hhd : head_of p' l' ≠ head_of p l) by (intros Heq; destruct (head_inj n p' l' p l) as [-> ->]; done).
      exists xs. split_and!; [|done|].
      * eapply seg_frame; [exact Hs|..].
        -- intros y [->|Hy]%elem_of_cons; destruct (Heff (head_of p' l')) as (E1 & _ & _).
           ++ rewrite E1, !decide_False by lia. done.
           ++ destruct (Heff y) as (-> & _ & _). rewrite !decide_False; [done|intros ->; exact (Hhxs p l Hv Hy)|intros ->; done].
        -- intros y Hy. destruct (Heff y) as (_ & -> & _). rewrite !decide_False; [done| |intros ->; done].
           intros ->. destruct Hqc as [[-> _]|[Hqb _]]; [exact (Hhxs p l Hv Hy)|]. apply Hin in Hy. rewrite Hqb in Hy. naive_solver.
      * intros j. rewrite Hin. destruct (decide (j = i)) as [->|]; [|by rewrite lookup_insert_ne].
        rewrite lookup_insert_eq. split; [intros Hj; by apply Hfree in Hj|]. naive_solver.
Qed.

(** a free block is taken out of its list *)
Lemma mem_used b B i l k p : mem_ok n (b_mem b) B → B !! i = Some (k, Free p) → 0 <= l < 64 → (i = 0 → 22 <= l) →
  ∃ m, mark_used b i l = Ok (set_mem b m) ∧ mem_ok n m (<[i := (l, InUse)]> B) ∧ mem_keeps B i (b_mem b) m.
Proof.
  intros Hm Hi Hl Hlow. pose proof (mo_valid _ _ _ Hm _ _ _ Hi) as Hv.
  destruct (mo_list _ _ _ Hm p k Hv) as (xs & Hs & Hnd & Hin). assert (Hix : i ∈ xs) by by apply Hin.
  apply list_elem_of_split in Hix as (l1 & l2 & ->). destruct (seg_around _ _ _ _ _ _ Hs) as [Hp Hq].
  set (pi := default (head_of p k) (last l1)) in *. set (qi := default (head_of p k) (head l2)) in *.
  assert (Hnode : ∀ z, z = head_of p k ∨ z ∈ l1 ++ l2 → is_Some (b_mem b !! z) ∧ 0 <= z < 2 ^ 48 ∧ z ≠ i).
  { intros z [->|Hz].
    - pose proof (head_range n p k Hn Hv). split_and!; [|lia|lia|intros Heq; symmetry in Heq; by eapply not_head].
      apply seg_next in Hs. unfold nxt in Hs. destruct (b_mem b !! head_of p k); [eauto|done].
    - assert (Hzb : B !! z = Some (k, Free p)) by (apply Hin; set_solver). split_and!.
      + destruct (tag_Some _ _ _ (mo_tag _ _ _ Hm _ _ _ Hzb)) as (h & -> & _). eauto.
      + apply (mo_range _ _ _ Hm _ _ _ Hzb).
      + apply (mo_range _ _ _ Hm _ _ _ Hzb).
      + intros ->. apply NoDup_app in Hnd as (_ & H1 & [H2 _]%NoDup_cons). set_solver. }
  assert (Hpi : pi = head_of p k ∨ pi ∈ l1 ++ l2).
  { unfold pi. destruct (last l1) as [z|] eqn:E; simpl; [|auto]. apply last_Some_elem_of in E. set_solver. }
  assert (Hqi : qi = head_of p k ∨ qi ∈ l1 ++ l2) by (unfold qi; destruct l2; set_solver).
  destruct (Hnode pi Hpi) as (Hpe & Hpr & Hpne). destruct (Hnode qi Hqi) as (Hqe & Hqr & Hqne).
  destruct (mark_used_effect b i l pi qi) as (m & E & Heff); [done..|].
  exists m. split_and!; [exact E| |]; cycle 1.
  { assert (Hout : ∀ z y, z = head_of p k ∨ z ∈ l1 ++ l2 → 2 ^ 22 <= y → B !! y = None → y ≠ z).
    { intros z y [->|Hz] Hy Hno ->; [pose proof (head_range n p k Hn Hv); lia|].
      assert (Hzb : B !! z = Some (k, Free p)) by (apply Hin; set_solver). congruence. }
    intros y Hy Hno Hyi. destruct (Heff y) as (E1 & E2 & E3). rewrite decide_False in E3 by done.
    rewrite decide_False in E1 by (by apply Hout). rewrite decide_False in E2 by (by apply Hout). by apply header_ext. }
  split.
  - intros j k' o. destruct (Heff j) as (_ & _ & ->). destruct (decide (j = i)) as [->|].
    + rewrite lookup_insert_eq. intros [= <- <-]. by rewrite bool_decide_eq_true_2.
    + rewrite lookup_insert_ne by done. apply Hm.
  - intros j k' o. destruct (decide (j = i)) as [->|]; [by rewrite lookup_insert_eq|rewrite lookup_insert_ne by done; apply Hm].
  - intros j k' o. destruct (decide (j = i)) as [->|]; [rewrite lookup_insert_eq; intros [= <- <-]|rewrite lookup_insert_ne by done; apply Hm].
    split; [done|]. apply (mo_range _ _ _ Hm _ _ _ Hi).
  - intros j k' o. destruct (decide (j = i)) as [->|]; [rewrite lookup_insert_eq; intros [= <- <-]|rewrite lookup_insert_ne by done; apply Hm].
    destruct (mo_low _ _ _ Hm _ _ _ Hi) as [[-> _]|]; auto.
  - intros p' l' Hv'. destruct (decide ((p', l') = (p, k))) as [[= -> ->]|Hne].
    + exists (l1 ++ l2). split_and!.
      * eapply (seg_remove (b_mem b)); [exact Hs| | |exact Hp|exact Hq| |].
        -- apply NoDup_cons. split; [|done]. intros Hx. apply Hin in Hx. by apply (not_head _ _ _ _ _ p k Hm Hx Hv).
        -- intros Hx. apply Hin in Hx. by apply (not_head _ _ _ _ _ p k Hm Hx Hv).
        -- intros y _. by destruct (Heff y) as (-> & _ & _).
        -- intros y _. by destruct (Heff y) as (_ & -> & _).
      * apply NoDup_app in Hnd as (H1 & H2 & [H3 H4]%NoDup_cons). apply NoDup_app. split_and!; [done| |done]. set_solver.
      * intros j. destruct (decide (j = i)) as [->|].
        -- rewrite lookup_insert_eq. split; [|naive_solver]. intros Hx. by destruct (Hnode i (or_intror Hx)) as (_ & _ & ?).
        -- rewrite lookup_insert_ne by done. rewrite <-Hin. set_solver.
    + assert (Hhd : head_of p' l' ≠ head_of p k) by (intros Heq; destruct (head_inj n p' l' p k) as [-> ->]; done).
      destruct (mo_list _ _ _ Hm p' l' Hv') as (ys & Hs' & Hnd' & Hin'). exists ys.
      assert (Hout : ∀ z, z = head_of p k ∨ z ∈ l1 ++ l2 → z ∉ head_of p' l' :: ys).
      { intros z Hz [->|Hy]%elem_of_cons.
        - destruct Hz as [?|Hz]; [done|]. assert (Hzb : B !! head_of p' l' = Some (k, Free p)) by (apply Hin; set_solver). by apply (not_head _ _ _ _ _ p' l' Hm Hzb Hv').
        - apply Hin' in Hy. destruct Hz as [->|Hz]; [by apply (not_head _ _ _ _ _ p k Hm Hy Hv)|].
          assert (Hzb : B !! z = Some (k, Free p)) by (apply Hin; set_solver). rewrite Hzb in Hy. naive_solver. }
      split_and!; [|done|].
      * eapply seg_frame; [exact Hs'|..].
        -- intros y Hy. destruct (Heff y) as (-> & _ & _). rewrite decide_False; [done|]. intros ->. by apply (Hout pi).
        -- intros y Hy. destruct (Heff y) as (_ & -> & _). rewrite decide_False; [done|]. intros ->. apply (Hout qi); [done|]. set_solver.
      * intros j. rewrite Hin'. destruct (decide (j = i)) as [->|]; [|by rewrite lookup_insert_ne].
        rewrite lookup_insert_eq. rewrite Hi. split; [|naive_solver]. intros [= -> ->]. done.
Qed.

(** the level of a block in use changes *)
Lemma mem_level b B i l k : mem_ok n (b_mem b) B → B !! i = Some (k, InUse) → 0 <= l < 64 → (i = 0 → 22 <= l) →
  ∃ m, set_level b i l = Ok (set_mem b m) ∧ mem_ok n m (<[i := (l, InUse)]> B) ∧ mem_keeps B i (b_mem b) m.
Proof.
  intros Hm Hi Hl Hlow. destruct (tag_Some _ _ _ (mo_tag _ _ _ Hm _ _ _ Hi)) as (h & Eh & Ht). rewrite bool_decide_eq_true_2 in Ht by done.
  injection Ht as Hu Hk. unfold set_level, header_at. rewrite Eh. simpl.
  set (h' := MkHeader (in_use h) (u6 l) (prev_free_idx h) (next_free_idx h)). set (m := <[i := h']> (b_mem b)).
  exists m. split; [done|]. split; cycle 1.
  { intros y _ _ Hyi. unfold m. by rewrite lookup_insert_ne. }
  assert (Hlinks : ∀ y, nxt m y = nxt (b_mem b) y ∧ prv m y = prv (b_mem b) y ∧ tag m y = (if decide (y = i) then Some (true, l) else tag (b_mem b) y)).
  { intros y. destruct (links_insert (b_mem b) i h' y) as (E1 & E2 & E3). fold m in E1, E2, E3. rewrite E1, E2, E3. simpl.
    unfold u6. rewrite Z.mod_small by done. unfold nxt, prv. destruct (decide (y = i)) as [->|]; [by rewrite Eh, <-Hu|done]. }
  split.
  - intros j k' o. destruct (Hlinks j) as (_ & _ & ->). destruct (decide (j = i)) as [->|].
    + rewrite lookup_insert_eq. intros [= <- <-]. by rewrite bool_decide_eq_true_2.
    + rewrite lookup_insert_ne by done. apply Hm.
  - intros j k' o. destruct (decide (j = i)) as [->|]; [by rewrite lookup_insert_eq|rewrite lookup_insert_ne by done; apply Hm].
  - intros j k' o. destruct (decide (j = i)) as [->|]; [rewrite lookup_insert_eq; intros [= <- <-]|rewrite lookup_insert_ne by done; apply Hm].
    split; [done|]. apply (mo_range _ _ _ Hm _ _ _ Hi).
  - intros j k' o. destruct (decide (j = i)) as [->|]; [rewrite lookup_insert_eq; intros [= <- <-]|rewrite lookup_insert_ne by done; apply Hm].
    destruct (mo_low _ _ _ Hm _ _ _ Hi) as [[-> _]|]; auto.
  - intros p' l' Hv'. destruct (mo_list _ _ _ Hm p' l' Hv') as (xs & Hs & Hnd & Hin). exists xs. split_and!; [|done|].
    + eapply seg_frame; [exact Hs|..]; intros; apply Hlinks.
    + intros j. rewrite Hin. destruct (decide (j = i)) as [->|]; [rewrite lookup_insert_eq, Hi; naive_solver|by rewrite lookup_insert_ne].
Qed.

(** a block in use is forgotten: its header is garbage *)
Lemma mem_drop m B i l : mem_ok n m B → B !! i = Some (l, InUse) → mem_ok n m (delete i B).
Proof.
  intros Hm Hi.
  assert (Hd : ∀ j x, delete i B !! j = Some x → B !! j = Some x) by (intros j x [_ ?]%lookup_delete_Some; done).
  split; intros; try (eapply Hm; eauto; fail). destruct (mo_list _ _ _ Hm p l0) as (xs & Hs & Hnd & Hin); [done|].
  exists xs. split_and!; [done..|]. intros j. rewrite Hin. rewrite lookup_delete_Some. split; [|tauto]. intros Hj. split; [|done].
  intros ->. naive_solver.
Qed.

(** headers elsewhere do not matter *)
Lemma mem_frame m m' B : mem_ok n m B → (∀ i, (∃ l o, B !! i = Some (l, o)) ∨ (∃ p l, valid n p l ∧ i = head_of p l) → m' !! i = m !! i) →
  mem_ok n m' B.
Proof.
  intros Hm Hsame. split; try apply Hm.
  - intros i l o Hi. unfold tag. rewrite Hsame by eauto. by apply Hm.
  - intros p l Hv. destruct (mo_list _ _ _ Hm p l Hv) as (xs & Hs & Hnd & Hin). exists xs. split_and!; [|done..].
    assert (Hl : ∀ y, y ∈ head_of p l :: xs → m' !! y = m !! y).
    { intros y [->|Hy]%elem_of_cons; apply Hsame; [eauto|]. apply Hin in Hy. eauto. }
    eapply seg_frame; [exact Hs|..]; intros y Hy; unfold nxt, prv; (rewrite Hl; [done|set_solver]).
Qed.
End memory.
