(* ===== verification/BuddyAlloc.v ===== *)
(** [malloc] and [free] of [core/buddy_malloc.hpp] refine an allocator of disjoint
    blocks: a finite map from the header indices of the allocated blocks to their
    levels. *)

From S2P Require Import Prelude Buddy BuddyHeap.
Local Open Scope Z_scope.

(** the size of the region, given to [init] *)
Class HeapSize := region_size : Z.

Section alloc.
  Context `{HeapSize}.

(** ** The invariant of the allocator *)

(** the arrays of list heads *)
Definition lists_ok (n : Z) (b : Buddy_Malloc) : Prop :=
  large_free_list b = large_heads ∧ small_free_list b = small_heads ∧ tmp_small_free_list b = tmp_heads n.

Record heap_ok (n : Z) (b : Buddy_Malloc) (B : heap) : Prop := {
  ho_threads : threads_fit n;
  ho_mem : mem_ok n (b_mem b) B;
  ho_tiling : tiling (top_of_heap b) B;
  ho_top : top_of_heap b = malloc_size b ∧ 0 <= malloc_size b ∧ (2 ^ 32 | malloc_size b);
  ho_size : malloc_size b <= heap_size b <= 2 ^ 48;
  ho_region : heap_size b = region_size;
  ho_lists : lists_ok n b;
  ho_usage : length (usage_counter b) = 33%nat
}.

(** only the memory and the blocks change *)
Lemma heap_set_mem n b B m B' : heap_ok n b B → mem_ok n m B' → tiling (top_of_heap b) B' → heap_ok n (set_mem b m) B'.
Proof. intros []. by split. Qed.

(** the memory inside of the blocks in use, except the one at [f], stays *)
Definition kept (f : Z) (B : heap) (m m' : gmap Z header) : Prop :=
  ∀ x l y, x ≠ 0 → x ≠ f → B !! x = Some (l, InUse) → x < y < x + 2 ^ l → m' !! y = m !! y.

(** the inside of a block in use is no header *)
Lemma inside_used n b B x l y : heap_ok n b B → x ≠ 0 → B !! x = Some (l, InUse) → x < y < x + 2 ^ l → 2 ^ 22 <= y ∧ B !! y = None.
Proof.
  intros Hb Hx0 Hx Hy. split; [destruct (mo_low _ _ _ (ho_mem _ _ _ Hb) _ _ _ Hx) as [[? _]|?]; [done|lia]|].
  destruct (B !! y) as [[k o]|] eqn:E; [|done]. destruct (ti_block _ _ (ho_tiling _ _ _ Hb) _ _ _ E) as (_ & _ & _ & ?). pose proof (pow_pos k ltac:(lia)).
  assert (y = x) by (apply (ti_disjoint _ _ (ho_tiling _ _ _ Hb) _ _ _ _ _ _ y E Hx); lia). lia.
Qed.

Lemma kept_step n b B f i l o m : heap_ok n b B → B !! i = Some (l, o) → mem_keeps B i (b_mem b) m → kept f B (b_mem b) m.
Proof.
  intros Hb Hi Hk x k y Hx0 _ Hx Hy. destruct (inside_used n b B x k y Hb Hx0 Hx Hy) as [? ?]. apply Hk; [done|done|]. intros ->. congruence.
Qed.

Lemma kept_trans f g B B' m m' m'' : kept f B m m' → kept g B' m' m'' →
  (∀ x l, x ≠ 0 → x ≠ f → B !! x = Some (l, InUse) → x ≠ g ∧ B' !! x = Some (l, InUse)) → kept f B m m''.
Proof. intros H1 H2 Hs x l y Hx0 Hxf Hx Hy. destruct (Hs x l Hx0 Hxf Hx) as [Hg Hx']. rewrite (H2 x l y Hx0 Hg Hx' Hy). by eapply H1. Qed.

Definition pool_of (tid : Z) : pool := if tid <? 0 then Shared else Thread tid.

Lemma seqZ_read (f : Z → Z) lo k i : 0 <= i < k → read (f <$> seqZ lo k) (Z.to_nat i) = Ok (f (lo + i)).
Proof. intros Hi. apply read_Ok. rewrite list_lookup_fmap, lookup_seqZ_lt by lia. simpl. do 2 f_equal. lia. Qed.

Lemma large_list_ok n b l : lists_ok n b → valid n Large l → large_list b l = Ok (head_of Large l).
Proof.
  intros Hb Hv. simpl in Hv. unfold large_list, level_to_index_large. destruct Hb as (-> & _ & _).
  rewrite (proj2 (Z.leb_le _ _)), (proj2 (Z.leb_le l _)) by (unfold level_dividing_line, level_up_bound; lia). cbn [andb assert_that mbind outcome_bind].
  unfold large_heads, levels_up. rewrite seqZ_read by (unfold level_dividing_line, level_up_bound; lia).
  f_equal. unfold head_of, level_low_bound, level_dividing_line, size_per_header. lia.
Qed.

Lemma small_list_ok n b l tid : lists_ok n b → valid n (pool_of tid) l → small_list b l tid = Ok (head_of (pool_of tid) l).
Proof.
  intros Hb Hv. unfold small_list, level_to_index_small, pool_of in *. destruct Hb as (_ & -> & ->).
  assert (4 <= l <= 22) by (destruct (tid <? 0); simpl in Hv; lia).
  rewrite (proj2 (Z.leb_le l _)), (proj2 (Z.leb_le _ l)) by (unfold level_dividing_line, level_low_bound; lia). cbn [andb assert_that mbind outcome_bind].
  unfold small_heads, tmp_heads, levels_up, level_low_bound, level_dividing_line, level_up_bound, size_per_header in *.
  destruct (Z.ltb_spec tid 0); cbn [valid head_of] in *.
  - rewrite seqZ_read by lia. f_equal. lia.
  - rewrite seqZ_read by lia. f_equal. lia.
Qed.

(** *** Searching the lists *)

Lemma is_empty_ok n b B p l : heap_ok n b B → valid n p l →
  ∃ e, is_empty_at b (head_of p l) = Ok e ∧ if e : bool then ∀ i, B !! i ≠ Some (l, Free p) else ∃ i, B !! i = Some (l, Free p).
Proof.
  intros Hb Hv. destruct (head_next n (ho_threads _ _ _ Hb) _ _ p l (ho_mem _ _ _ Hb) Hv) as (q & Hq & _ & _ & Hc).
  unfold is_empty_at, header_at. unfold nxt in Hq. destruct (b_mem b !! head_of p l) as [h|]; [|done]. simpl in *. injection Hq as ->.
  exists (q =? head_of p l). split; [done|]. destruct Hc as [[-> Hno]|[Hyes Hne]]; [by rewrite Z.eqb_refl|].
  rewrite (proj2 (Z.eqb_neq _ _) Hne). eauto.
Qed.

Lemma levels_up_cons lo hi : lo <= hi → levels_up lo hi = lo :: levels_up (lo + 1) hi.
Proof. intros. unfold levels_up. rewrite seqZ_cons by lia. do 2 f_equal; lia. Qed.

Lemma levels_down_cons hi lo : lo < hi → levels_down hi lo = (hi - 1) :: levels_down (hi - 1) lo.
Proof.
  intros. unfold levels_down. replace (hi - lo) with (hi - 1 - lo + 1) by lia. rewrite seqZ_app by lia.
  rewrite reverse_app. simpl. f_equal. lia.
Qed.

Lemma search_ok n b B p (empty : Z → outcome bool) last need :
  heap_ok n b B → (∀ l, need <= l <= last → valid n p l ∧ empty l = is_empty_at b (head_of p l)) → need <= last →
  ∃ fl e, search_level empty last (levels_up need last) = Ok (fl, e) ∧ need <= fl <= last ∧
    (∀ l i, need <= l < fl → B !! i ≠ Some (l, Free p)) ∧
    if e : bool then fl = last ∧ ∀ i, B !! i ≠ Some (fl, Free p) else ∃ i, B !! i = Some (fl, Free p).
Proof.
  intros Hb He Hle. remember (Z.to_nat (last - need)) as k eqn:Ek. revert need He Hle Ek. induction k as [|k IH]; intros need He Hle Ek.
  - rewrite levels_up_cons by done. simpl. destruct (He need) as [Hv ->]; [lia|].
    destruct (is_empty_ok n b B p need Hb Hv) as (e & -> & Hmean). simpl. assert (need = last) as -> by lia. rewrite Z.eqb_refl, andb_false_r.
    exists last, e. split_and!; [done|lia..|]. destruct e; auto.
  - rewrite levels_up_cons by done. simpl. destruct (He need) as [Hv ->]; [lia|].
    destruct (is_empty_ok n b B p need Hb Hv) as (e & -> & Hmean). simpl. rewrite (proj2 (Z.eqb_neq need last)) by lia. simpl. rewrite andb_true_r.
    destruct e.
    + destruct (IH (need + 1)) as (fl & e & -> & Hr & Hno & Hc); [intros l Hl; apply He; lia|lia|lia|].
      exists fl, e. split_and!; [done|lia|lia| |done]. intros l i Hl. destruct (decide (l = need)) as [->|]; [done|]. apply Hno. lia.
    + exists need, false. split_and!; [done|lia..|]. done.
Qed.

(** the first block of a list *)
Lemma first_free n b B p l i : heap_ok n b B → valid n p l → B !! i = Some (l, Free p) →
  ∃ x h, header_at b (head_of p l) = Ok h ∧ next_free_idx h = x ∧ B !! x = Some (l, Free p).
Proof.
  intros Hb Hv Hi. destruct (head_next n (ho_threads _ _ _ Hb) _ _ p l (ho_mem _ _ _ Hb) Hv) as (q & Hq & _ & _ & Hc).
  unfold header_at. unfold nxt in Hq. destruct (b_mem b !! head_of p l) as [h|]; [|done]. simpl in *. injection Hq as Hq.
  exists q, h. split_and!; [done..|]. destruct Hc as [[_ Hno]|[Hyes _]]; [by apply Hno in Hi|done].
Qed.

(** *** Splitting a block *)

Section split.
  Context (n : Z) (p : pool) (mk : Buddy_Malloc → Z → Z → outcome Buddy_Malloc).
  Hypothesis Hmk : ∀ b i l, lists_ok n b → valid n p l → mk b i l = mark_free_at b i l (head_of p l).
  Context (x fl : Z).

Lemma split_loop b0 B0 : heap_ok n b0 B0 → ∀ k cur need b B,
  cur = need + Z.of_nat k → 4 <= need → cur <= fl → (∀ l, need <= l <= cur → valid n p l) → (x = 0 → 22 <= need) →
  lists_ok n b →
  tiling (top_of_heap b0) B → B !! x = Some (cur, Free p) → mem_ok n (b_mem b) (<[x := (fl, Free p)]> B) →
  ∃ m B', foldM (λ b i, mk b (u64 (x + Z.shiftl 1 i)) i) b (levels_down cur need) = Ok (set_mem b m) ∧
    tiling (top_of_heap b0) B' ∧ B' !! x = Some (need, Free p) ∧ mem_ok n m (<[x := (fl, Free p)]> B') ∧
    (∀ i l, i ≠ x → B' !! i = Some (l, InUse) ↔ B !! i = Some (l, InUse)) ∧
    (∀ i l q, i ≠ x → B' !! i = Some (l, Free q) → B !! i = Some (l, Free q) ∨ (q = p ∧ l < cur)) ∧
    (∀ y, 2 ^ 22 <= y → B !! y = None → ¬ (x <= y < x + 2 ^ cur) → m !! y = b_mem b !! y).
Proof.
  intros Hb0. induction k as [|k IH]; intros cur need b B Hcur Hneed Hfl Hv Hx0 Hb Hti Hx Hm.
  - assert (cur = need) as -> by lia. unfold levels_down. rewrite Z.sub_diag. simpl.
    exists (b_mem b), B. split_and!; [by destruct b|done..|auto|done].
  - rewrite levels_down_cons by lia. simpl. destruct (ti_block _ _ Hti _ _ _ Hx) as (Hxl & Hxt & Hxd & Hxr).
    destruct (ho_top _ _ _ Hb0) as (Et & Ht0 & _). pose proof (ho_size _ _ _ Hb0).
    pose proof (pow_pos (cur - 1) ltac:(lia)). assert (HS : 2 ^ cur = 2 * 2 ^ (cur - 1)) by (rewrite <-pow_S by lia; f_equal; lia).
    rewrite Z.shiftl_mul_pow2, Z.mul_1_l, u64_id by lia. set (y := x + 2 ^ (cur - 1)).
    rewrite (Hmk b y (cur - 1)) by (done || apply Hv; lia).
    assert (Hy : B !! y = None).
    { destruct (B !! y) as [[l o]|] eqn:E; [|done]. destruct (ti_block _ _ Hti _ _ _ E) as (_ & _ & _ & ?).
      assert (y = x) by (apply (ti_disjoint _ _ Hti _ _ _ _ _ _ y E Hx); pose proof (pow_pos l); unfold y in *; lia). lia. }
    assert (Hlow : 2 ^ 22 <= y).
    { destruct (mo_low _ _ _ Hm x fl (Free p)) as [[-> _]|?]; [by rewrite lookup_insert_eq| |unfold y; lia].
      unfold y. specialize (Hx0 eq_refl). pose proof (Z.pow_le_mono_r 2 22 (cur - 1)). lia. }
    destruct (mem_free n (ho_threads _ _ _ Hb0) b (<[x := (fl, Free p)]> B) y (cur - 1) p) as (m & -> & Hm' & Hk1); [done|apply Hv; lia|..].
    { intros l q. rewrite lookup_insert_ne by lia. by rewrite Hy. }
    { by right. }
    { lia. }
    simpl. set (B1 := <[x := (cur - 1, Free p)]> (<[y := (cur - 1, Free p)]> B)).
    destruct (IH (cur - 1) need (set_mem b m) B1) as (m' & B' & E & Hti' & Hx' & Hmm & Hu & Hf & Hk2); [lia|lia|lia|intros; apply Hv; lia|done|done| | | |].
    { apply (tiling_split _ _ _ (cur - 1) (Free p)); [done|by replace (cur - 1 + 1) with cur by lia|lia]. }
    { apply lookup_insert_eq. }
    { unfold B1. rewrite insert_insert_eq, insert_insert_ne by lia. done. }
    exists m', B'. split_and!; [exact E|done..| | |]; cycle 2.
    { intros z Hz Hno Hout. assert (Hzy : z ≠ y ∧ z ≠ x) by (unfold y in *; lia). rewrite Hk2; [|done| |lia].
      - simpl. destruct Hzy. apply Hk1; [done|by rewrite lookup_insert_ne by done|done].
      - destruct Hzy. unfold B1. by rewrite !lookup_insert_ne by done. }
    + intros i l Hi. rewrite Hu by done. unfold B1. rewrite lookup_insert_ne by done. destruct (decide (i = y)) as [->|]; [|by rewrite lookup_insert_ne].
      rewrite lookup_insert_eq, Hy. naive_solver.
    + intros i l q Hi Hiq. destruct (Hf i l q Hi Hiq) as [Hb1|[-> ?]]; [|right; split; [done|lia]].
      unfold B1 in Hb1. rewrite lookup_insert_ne in Hb1 by done. destruct (decide (i = y)) as [->|]; [|rewrite lookup_insert_ne in Hb1; auto].
      rewrite lookup_insert_eq in Hb1. injection Hb1 as <- <-. right. split; [done|lia].
Qed.

(** the first part of a block is put to use, the others into the lists *)
Lemma take_block b B need : heap_ok n b B → B !! x = Some (fl, Free p) → 4 <= need <= fl → (∀ l, need <= l <= fl → valid n p l) →
  (x = 0 → 22 <= need) →
  ∃ m B', (b ← foldM (λ b i, mk b (u64 (x + Z.shiftl 1 i)) i) b (levels_down fl need); mark_used b x need) = Ok (set_mem b m) ∧
    heap_ok n (set_mem b m) B' ∧ B' !! x = Some (need, InUse) ∧
    (∀ i l, i ≠ x → B' !! i = Some (l, InUse) ↔ B !! i = Some (l, InUse)) ∧
    (∀ i l q, B' !! i = Some (l, Free q) → i ≠ x ∧ (B !! i = Some (l, Free q) ∨ (q = p ∧ l < fl))) ∧ kept 0 B (b_mem b) m.
Proof.
  intros Hb Hx Hneed Hv Hx0. destruct (ti_block _ _ (ho_tiling _ _ _ Hb) _ _ _ Hx) as (_ & _ & _ & Hfl).
  destruct (split_loop b B Hb (Z.to_nat (fl - need)) fl need b B) as (m & B' & -> & Hti & Hx' & Hm & Hu & Hf & Hk1); [lia|lia|lia|done|done|apply Hb|apply Hb|done| |].
  { rewrite insert_id by done. apply Hb. }
  simpl. destruct (mem_used n (ho_threads _ _ _ Hb) (set_mem b m) (<[x := (fl, Free p)]> B') x need fl p) as (m' & -> & Hm' & Hk2); [done|apply lookup_insert_eq|lia|done|].
  rewrite insert_insert_eq in Hm'. exists m', (<[x := (need, InUse)]> B'). split_and!; [done| |apply lookup_insert_eq|..]; cycle 3.
  { intros z l y Hz0 _ Hz Hy. destruct (inside_used n b B z l y Hb Hz0 Hz Hy) as [Hlow Hno].
    assert (Hout : ¬ (x <= y < x + 2 ^ fl)).
    { intros Hin. assert (z = x) by (apply (ti_disjoint _ _ (ho_tiling _ _ _ Hb) _ _ _ _ _ _ y Hz Hx); lia). congruence. }
    assert (Hzx : z ≠ x) by (intros ->; congruence). assert (Hyx : y ≠ x) by (intros ->; pose proof (pow_pos fl); lia).
    rewrite (Hk2 y); [by apply Hk1|done| |done]. rewrite lookup_insert_ne by done.
    assert (Hz' : B' !! z = Some (l, InUse)) by (by apply Hu). destruct (B' !! y) as [[k o]|] eqn:E; [|done]. exfalso.
    destruct (ti_block _ _ Hti _ _ _ E) as (_ & _ & _ & ?). pose proof (pow_pos k ltac:(lia)).
    assert (y = z) by (apply (ti_disjoint _ _ Hti _ _ _ _ _ _ y E Hz'); lia). lia. }
  - apply (heap_set_mem _ _ B); [done..|]. by apply (tiling_owner _ _ _ _ (Free p)).
  - intros i l Hi. rewrite lookup_insert_ne by done. by apply Hu.
  - intros i l q Hi. destruct (decide (i = x)) as [->|Hne]; [by rewrite lookup_insert_eq in Hi|]. rewrite lookup_insert_ne in Hi by done.
    split; [done|]. by apply Hf.
Qed.
End split.

(** *** Large blocks *)

Lemma mark_large_at n b i l : lists_ok n b → valid n Large l → mark_free_large b i l = mark_free_at b i l (head_of Large l).
Proof. intros Hb Hv. unfold mark_free_large. by rewrite (large_list_ok n b l Hb Hv). Qed.

Lemma mark_small_at n tid b i l : lists_ok n b → valid n (pool_of tid) l →
  mark_free_small b i l tid = mark_free_at b i l (head_of (pool_of tid) l).
Proof. intros Hb Hv. unfold mark_free_small. by rewrite (small_list_ok n b l tid Hb Hv). Qed.

(** the heap can grow *)
Definition can_grow (b : Buddy_Malloc) : Prop := malloc_size b + 2 ^ 32 <= heap_size b.
(** there is a free block for a request *)
Definition can_take (B : heap) (p : pool) (need : Z) : Prop := ∃ i l, need <= l ∧ B !! i = Some (l, Free p).

Lemma grow_ok n b B : heap_ok n b B → can_grow b →
  ∃ b', ('(new_heap, b) ← large_sbrk b; mark_free_large b new_heap level_up_bound) = Ok b' ∧
    heap_ok n b' (<[top_of_heap b := (32, Free Large)]> B) ∧ B !! top_of_heap b = None ∧ kept 0 B (b_mem b) (b_mem b').
Proof.
  intros Hb Hg. destruct (ho_top _ _ _ Hb) as (Et & Ht0 & Hdv). pose proof (ho_size _ _ _ Hb) as Hsz. unfold can_grow in Hg.
  destruct (tiling_grow (top_of_heap b) B (Free Large) (ho_tiling _ _ _ Hb)) as [Hti Hnone]; [lia|by rewrite Et|].
  unfold large_sbrk. change (Z.shiftl 1 level_up_bound) with (2 ^ 32). rewrite u64_id by lia.
  rewrite (proj2 (Z.ltb_ge _ _)) by lia. cbn [negb assert_that mbind outcome_bind]. set (b1 := MkBuddy _ _ _ _ _ _ _ _ _).
  rewrite (mark_large_at n b1 _ level_up_bound); [|apply Hb|simpl; unfold level_up_bound; lia].
  destruct (mem_free n (ho_threads _ _ _ Hb) b1 B (top_of_heap b) level_up_bound Large) as (m & -> & Hm & Hk).
  { apply Hb. }
  { simpl. unfold level_up_bound. lia. }
  { intros. by rewrite Hnone. }
  { destruct (decide (top_of_heap b = 0)); [left; split; [done|unfold level_up_bound; lia]|right]. rewrite Et in *. destruct Hdv as [k Hk]. lia. }
  { lia. }
  exists (set_mem b1 m). split_and!; [done| |done|]; cycle 1.
  { intros x l y Hx0 _ Hx Hy. destruct (inside_used n b B x l y Hb Hx0 Hx Hy) as [? ?]. destruct (ti_block _ _ (ho_tiling _ _ _ Hb) _ _ _ Hx) as (_ & ? & _).
    simpl. apply Hk; [done|done|lia]. }
  split; try apply Hb; [exact Hm|exact Hti|split_and!; [simpl; lia|simpl; lia|]|simpl; lia].
  cbn [malloc_size set_mem b1]. apply Z.divide_add_r; [done|apply Z.divide_refl].
Qed.

(** a free block of at least the level is found *)
Lemma get_free_idx_large_ok n b B need : heap_ok n b B → 22 <= need <= 32 → can_take B Large need ∨ can_grow b →
  ∃ x fl b' B', get_free_idx_large b need = Ok (x, fl, b') ∧ heap_ok n b' B' ∧ need <= fl <= 32 ∧ B' !! x = Some (fl, Free Large) ∧
    (B !! x = Some (fl, Free Large) ∨ x = top_of_heap b) ∧
    (∀ i l o, o ≠ Free Large → B' !! i = Some (l, o) ↔ B !! i = Some (l, o)) ∧ kept 0 B (b_mem b) (b_mem b').
Proof.
  intros Hb Hneed Hav. unfold get_free_idx_large. rewrite (proj2 (Z.leb_le _ need)) by (unfold level_dividing_line; lia).
  cbn [assert_that mbind outcome_bind].
  destruct (search_ok n b B Large (is_empty_large b) level_up_bound need Hb) as (fl & e & -> & Hfl & Hno & Hmean).
  { intros l Hl. unfold level_up_bound in Hl. assert (Hv : valid n Large l) by (simpl; lia). split; [done|].
    unfold is_empty_large. by rewrite (large_list_ok n b l (ho_lists _ _ _ Hb) Hv). }
  { unfold level_up_bound. lia. }
  unfold level_up_bound in Hfl. assert (Hv : valid n Large fl) by (simpl; lia). cbn [mbind outcome_bind].
  assert (Hstep : ∃ b' B', (if e then '(new_heap, b) ← large_sbrk b; mark_free_large b new_heap fl else Ok b) = Ok b' ∧ heap_ok n b' B' ∧
    (∃ i, B' !! i = Some (fl, Free Large)) ∧ (∀ i, B' !! i = Some (fl, Free Large) → B !! i = Some (fl, Free Large) ∨ i = top_of_heap b) ∧ (∀ i l o, o ≠ Free Large → B' !! i = Some (l, o) ↔ B !! i = Some (l, o)) ∧ kept 0 B (b_mem b) (b_mem b')).
  { destruct e.
    - destruct Hmean as [-> Hnone]. destruct Hav as [(i & l & Hl & Hi)|Hg].
      { exfalso. destruct (decide (l = 32)) as [->|]; [by apply Hnone in Hi|]. apply (Hno l i); [|done].
        pose proof (mo_valid _ _ _ (ho_mem _ _ _ Hb) _ _ _ Hi) as Hvl. simpl in Hvl. unfold level_up_bound. lia. }
      destruct (grow_ok n b B Hb Hg) as (b' & E & Hb' & Htop & Hk). exists b', (<[top_of_heap b := (32, Free Large)]> B). split_and!; [exact E|done|..|exact Hk].
      + exists (top_of_heap b). apply lookup_insert_eq.
      + intros i. destruct (decide (i = top_of_heap b)) as [->|]; [by right|]. rewrite lookup_insert_ne by done. by left.
      + intros i l o Ho. destruct (decide (i = top_of_heap b)) as [->|]; [|by rewrite lookup_insert_ne]. rewrite lookup_insert_eq, Htop. naive_solver.
    - exists b, B. split_and!; [done..| |done|done]. by left. }
  destruct Hstep as (b' & B' & -> & Hb' & (i & Hi) & Hold & Hsame & Hk). cbn [mbind outcome_bind].
  rewrite (large_list_ok n b' fl (ho_lists _ _ _ Hb') Hv). cbn [mbind outcome_bind].
  destruct (first_free n b' B' Large fl i Hb' Hv Hi) as (x & h & -> & <- & Hx). cbn [mbind outcome_bind].
  exists (next_free_idx h), fl, b', B'. split_and!; [done|done|lia|lia|done|by apply Hold|done|done].
Qed.

Lemma value_idx_ok n b B x l o : heap_ok n b B → B !! x = Some (l, o) → get_value_idx x = x + 16 ∧ (x =? UINT64_MAX) = false.
Proof.
  intros Hb Hx. destruct (mo_range _ _ _ (ho_mem _ _ _ Hb) _ _ _ Hx). unfold get_value_idx, size_per_header, UINT64_MAX.
  rewrite u64_id by lia. split; [done|]. apply Z.eqb_neq. lia.
Qed.

Lemma large_malloc_ok n b B need : heap_ok n b B → 22 <= need <= 32 → can_take B Large need ∨ can_grow b →
  ∃ x b' B', large_malloc b need = Ok (x + 16, b') ∧ heap_ok n b' B' ∧ B' !! x = Some (need, InUse) ∧
    ((∃ l, B !! x = Some (l, Free Large)) ∨ x = top_of_heap b) ∧ (∀ l, B !! x ≠ Some (l, InUse)) ∧ (∀ i l, i ≠ x → B' !! i = Some (l, InUse) ↔ B !! i = Some (l, InUse)) ∧
    (∀ i l q, q ≠ Large → B' !! i = Some (l, Free q) → B !! i = Some (l, Free q)) ∧ kept 0 B (b_mem b) (b_mem b').
Proof.
  intros Hb Hneed Hav. destruct (get_free_idx_large_ok n b B need Hb Hneed Hav) as (x & fl & b1 & B1 & E1 & Hb1 & Hfl & Hx & Hold & Hsame & Hk1).
  unfold large_malloc. rewrite E1. cbn [mbind outcome_bind]. destruct (value_idx_ok n b1 B1 x fl _ Hb1 Hx) as [-> ->]. cbn [negb assert_that mbind outcome_bind].
  destruct (take_block n Large mark_free_large (mark_large_at n) x fl b1 B1 need Hb1 Hx) as (m & B' & E & Hb' & Hx' & Hu & Hf & Hk2);
    [lia|intros; simpl; lia|lia|].
  exists x, (set_mem b1 m), B'. split_and!; [|done|done|..].
  - apply bind_Ok in E as (b2 & -> & E). cbn [mbind outcome_bind]. by rewrite E.
  - destruct Hold; eauto.
  - intros l Hl. apply (Hsame x l InUse) in Hl; [|done]. naive_solver.
  - intros i l Hi. rewrite Hu by done. by apply Hsame.
  - intros i l q Hq Hi. destruct (Hf i l q Hi) as [_ [H1|[-> _]]]; [|done]. apply Hsame; [congruence|done].
  - eapply kept_trans; [exact Hk1|exact Hk2|]. intros z l Hz0 _ Hz. split; [done|]. by apply Hsame.
Qed.

Lemma large_malloc_full n b B need : heap_ok n b B → 22 <= need <= 32 → ¬ can_take B Large need → ¬ can_grow b →
  large_malloc b need = Err AssertFail.
Proof.
  intros Hb Hneed Hno Hg. unfold large_malloc, get_free_idx_large. rewrite (proj2 (Z.leb_le _ need)) by (unfold level_dividing_line; lia).
  cbn [assert_that mbind outcome_bind].
  destruct (search_ok n b B Large (is_empty_large b) level_up_bound need Hb) as (fl & e & -> & Hfl & _ & Hmean).
  { intros l Hl. unfold level_up_bound in Hl. assert (Hv : valid n Large l) by (simpl; lia). split; [done|].
    unfold is_empty_large. by rewrite (large_list_ok n b l (ho_lists _ _ _ Hb) Hv). }
  { unfold level_up_bound. lia. }
  cbn [mbind outcome_bind]. destruct e; [|destruct Hmean as [i Hi]; destruct Hno; exists i, fl; split; [lia|done]].
  unfold large_sbrk. change (Z.shiftl 1 level_up_bound) with (2 ^ 32). destruct (ho_top _ _ _ Hb). pose proof (ho_size _ _ _ Hb).
  unfold can_grow in Hg. rewrite u64_id by lia. by rewrite (proj2 (Z.ltb_lt _ _)) by lia.
Qed.

(** *** Small blocks *)

(** between operations no small list holds a block of the dividing level, and the first
    block, which holds the list heads, is in use *)
Definition at_rest (B : heap) : Prop := ∀ i q, B !! i = Some (22, Free q) → q = Large.
Definition rooted (B : heap) : Prop := B !! 0 = Some (22, InUse).

Definition tid_ok (n tid : Z) : Prop := tid < n.

Lemma pool_valid n tid l : tid_ok n tid → 4 <= l <= 22 → valid n (pool_of tid) l.
Proof. unfold tid_ok, pool_of. destruct (Z.ltb_spec tid 0); simpl; lia. Qed.

Lemma pool_not_large tid : pool_of tid ≠ Large.
Proof. unfold pool_of. by destruct (tid <? 0). Qed.

Lemma search_small n b B need tid : heap_ok n b B → tid_ok n tid → 4 <= need < 22 →
  ∃ fl e, search_level (λ l, is_empty_small b l tid) level_dividing_line (levels_up need level_dividing_line) = Ok (fl, e) ∧ need <= fl <= 22 ∧
    (∀ l i, need <= l < fl → B !! i ≠ Some (l, Free (pool_of tid))) ∧
    if e : bool then fl = 22 ∧ ∀ i, B !! i ≠ Some (fl, Free (pool_of tid)) else ∃ i, B !! i = Some (fl, Free (pool_of tid)).
Proof.
  intros Hb Ht Hneed. apply (search_ok n b B (pool_of tid)); [done| |unfold level_dividing_line; lia]. intros l Hl. unfold level_dividing_line in Hl.
  assert (Hv : valid n (pool_of tid) l) by (apply pool_valid; [done|lia]). split; [done|]. unfold is_empty_small.
  by rewrite (small_list_ok n b l tid (ho_lists _ _ _ Hb) Hv).
Qed.

(** a block of the dividing level moves from the large lists to a small one *)
Lemma refill_ok n b B tid : heap_ok n b B → rooted B → tid_ok n tid → can_take B Large 22 ∨ can_grow b →
  ∃ y b' B', ('(new_heap, b) ← small_sbrk b; mark_free_small b new_heap level_dividing_line tid) = Ok b' ∧ heap_ok n b' B' ∧
    B' !! y = Some (22, Free (pool_of tid)) ∧ (∀ i l, B' !! i = Some (l, InUse) ↔ B !! i = Some (l, InUse)) ∧
    (∀ i l q, q ≠ Large → i ≠ y → B' !! i = Some (l, Free q) → B !! i = Some (l, Free q)) ∧ kept 0 B (b_mem b) (b_mem b').
Proof.
  intros Hb Hroot Ht Hav. destruct (large_malloc_ok n b B 22 Hb ltac:(lia) Hav) as (y & b1 & B1 & E1 & Hb1 & Hy & _ & Hnew & Hu & Hf & Hk1).
  unfold small_sbrk. change level_dividing_line with 22. rewrite E1. cbn [mbind outcome_bind].
  replace (y + 16 - size_per_header) with y by (unfold size_per_header; lia).
  assert (Hv : valid n (pool_of tid) 22) by (apply pool_valid; [done|lia]).
  rewrite (mark_small_at n tid b1 y 22 (ho_lists _ _ _ Hb1) Hv).
  assert (Hy0 : y ≠ 0) by (intros ->; by apply (Hnew 22)).
  destruct (mem_free n (ho_threads _ _ _ Hb1) b1 B1 y 22 (pool_of tid)) as (m & -> & Hm & Hk2).
  { apply Hb1. }
  { done. }
  { intros k q. naive_solver. }
  { destruct (mo_low _ _ _ (ho_mem _ _ _ Hb1) _ _ _ Hy) as [[? _]|?]; [done|auto]. }
  { apply (mo_range _ _ _ (ho_mem _ _ _ Hb1) _ _ _ Hy). }
  exists y, (set_mem b1 m), (<[y := (22, Free (pool_of tid))]> B1). split_and!; [done| |apply lookup_insert_eq|..].
  - apply (heap_set_mem _ _ B1); [done..|]. apply (tiling_owner _ _ _ _ InUse); [apply Hb1|done].
  - intros i l. destruct (decide (i = y)) as [->|Hne]; [|rewrite lookup_insert_ne by done; by apply Hu].
    rewrite lookup_insert_eq. split; [done|]. intros Hi. by apply Hnew in Hi.
  - intros i l q Hq Hi. rewrite lookup_insert_ne by done. by apply Hf.
  - eapply kept_trans; [exact Hk1|by eapply (kept_step n b1 B1 0)|]. intros z l Hz0 _ Hz. split; [done|]. apply Hu; [|done]. intros ->. by eapply Hnew.
Qed.

Lemma small_malloc_ok n b B need tid : heap_ok n b B → at_rest B → rooted B → tid_ok n tid → 4 <= need < 22 →
  can_take B (pool_of tid) need ∨ can_take B Large 22 ∨ can_grow b →
  ∃ x b' B', small_malloc b need tid = Ok (x + 16, b') ∧ heap_ok n b' B' ∧ at_rest B' ∧ B' !! x = Some (need, InUse) ∧
    (∀ l, B !! x ≠ Some (l, InUse)) ∧ (∀ i l, i ≠ x → B' !! i = Some (l, InUse) ↔ B !! i = Some (l, InUse)) ∧ kept 0 B (b_mem b) (b_mem b').
Proof.
  intros Hb Hrest Hroot Ht Hneed Hav. unfold small_malloc, small_take, get_free_idx_small.
  rewrite (proj2 (Z.ltb_lt need _)) by (unfold level_dividing_line; lia). cbn [assert_that mbind outcome_bind].
  destruct (search_small n b B need tid Hb Ht Hneed) as (fl & e & -> & Hfl & Hno & Hmean). cbn [mbind outcome_bind].
  assert (Hstep : ∃ y b' B', (if e then '(new_heap, b) ← small_sbrk b; mark_free_small b new_heap fl tid else Ok b) = Ok b' ∧ heap_ok n b' B' ∧
    B' !! y = Some (fl, Free (pool_of tid)) ∧ (∀ i l, B' !! i = Some (l, InUse) ↔ B !! i = Some (l, InUse)) ∧
    (∀ i q, B' !! i = Some (22, Free q) → q = Large ∨ (fl = 22 ∧ i = y ∧ q = pool_of tid)) ∧ kept 0 B (b_mem b) (b_mem b')).
  { destruct e.
    - destruct Hmean as [-> Hnone]. destruct (refill_ok n b B tid Hb Hroot Ht) as (y & b' & B' & E & Hb' & Hy & Hu & Hf & Hk).
      { destruct Hav as [(i & l & Hl & Hi)|Hav]; [|done]. exfalso.
        pose proof (mo_valid _ _ _ (ho_mem _ _ _ Hb) _ _ _ Hi) as Hvl. assert (l <= 22) by (revert Hvl; unfold pool_of; destruct (tid <? 0); simpl; lia).
        destruct (decide (l = 22)) as [->|]; [by apply Hnone in Hi|]. apply (Hno l i); [lia|done]. }
      exists y, b', B'. split_and!; [exact E|done..| |exact Hk]. intros i q Hi. destruct (decide (q = Large)) as [->|Hq]; [by left|right].
      destruct (decide (i = y)) as [->|Hne]; [naive_solver|]. apply Hf in Hi; [|done..]. by apply Hrest in Hi.
    - destruct Hmean as [y Hy]. exists y, b, B. split_and!; [done..| |done]. intros i q Hi. left. by eapply Hrest. }
  destruct Hstep as (y & b1 & B1 & -> & Hb1 & Hy & Hu & Hr1 & Hk1). cbn [mbind outcome_bind].
  assert (Hv : valid n (pool_of tid) fl) by (apply pool_valid; [done|lia]).
  rewrite (small_list_ok n b1 fl tid (ho_lists _ _ _ Hb1) Hv). cbn [mbind outcome_bind].
  destruct (first_free n b1 B1 (pool_of tid) fl y Hb1 Hv Hy) as (x & h & -> & <- & Hx). cbn [mbind outcome_bind]. set (x := next_free_idx h) in *.
  destruct (value_idx_ok n b1 B1 x fl _ Hb1 Hx) as [-> ->]. cbn [negb assert_that mbind outcome_bind].
  assert (Hx0 : x ≠ 0) by (intros E; rewrite E in Hx; apply Hu in Hroot; congruence).
  destruct (take_block n (pool_of tid) (λ b i l, mark_free_small b i l tid) (mark_small_at n tid) x fl b1 B1 need Hb1 Hx) as (m & B' & E & Hb' & Hx' & Hu' & Hf & Hk2);
    [lia|intros; apply pool_valid; [done|lia]|done|].
  exists x, (set_mem b1 m), B'. split_and!; [|done| |done|..].
  - apply bind_Ok in E as (b2 & -> & E). cbn [mbind outcome_bind]. by rewrite E.
  - intros i q Hi. destruct (Hf i 22 q Hi) as [Hne [Hi1|[-> ?]]]; [|lia]. destruct (Hr1 i q Hi1) as [?|(-> & -> & ->)]; [done|].
    destruct (Hr1 x (pool_of tid) Hx) as [Hl|(_ & ? & _)]; [by apply pool_not_large in Hl|done].
  - intros l Hl. apply Hu in Hl. congruence.
  - intros i l Hi. rewrite Hu' by done. apply Hu.
  - eapply kept_trans; [exact Hk1|exact Hk2|]. intros z l Hz0 _ Hz. split; [done|]. by apply Hu.
Qed.

Lemma small_malloc_full n b B need tid : heap_ok n b B → tid_ok n tid → 4 <= need < 22 →
  ¬ can_take B (pool_of tid) need → ¬ can_take B Large 22 → ¬ can_grow b → small_malloc b need tid = Err AssertFail.
Proof.
  intros Hb Ht Hneed Hno Hno' Hg. unfold small_malloc, small_take, get_free_idx_small.
  rewrite (proj2 (Z.ltb_lt need _)) by (unfold level_dividing_line; lia). cbn [assert_that mbind outcome_bind].
  destruct (search_small n b B need tid Hb Ht Hneed) as (fl & e & -> & Hfl & _ & Hmean). cbn [mbind outcome_bind].
  destruct e; [|destruct Hmean as [i Hi]; destruct Hno; exists i, fl; split; [lia|done]].
  unfold small_sbrk. by rewrite (large_malloc_full n b B level_dividing_line Hb) by (done || unfold level_dividing_line; lia).
Qed.

(** *** Levels *)

Lemma level_loop_ok size fuel k : 0 <= k → 2 ^ k < size <= 2 ^ (k + Z.of_nat fuel) → k + Z.of_nat fuel <= 63 →
  ∃ l, level_loop fuel size (2 ^ k) k = Ok l ∧ k < l ∧ size <= 2 ^ l ∧ 2 ^ (l - 1) < size.
Proof.
  revert k. induction fuel as [|fuel IH]; intros k Hk Hs Hf; [rewrite Z.add_0_r in Hs; lia|]. simpl.
  assert (Hsh : u64 (Z.shiftl (2 ^ k) 1) = 2 ^ (k + 1)).
  { rewrite Z.shiftl_mul_pow2 by lia. rewrite pow_S by lia. rewrite u64_id; [lia|].
    pose proof (pow_pos k Hk). pose proof (Z.pow_le_mono_r 2 (k + 1) 63) as Hle. rewrite pow_S in Hle by lia. lia. }
  rewrite Hsh. destruct (Z.leb_spec size (2 ^ (k + 1))) as [Hle|Hgt].
  - exists (k + 1). split_and!; [done|lia|done|]. replace (k + 1 - 1) with k by lia. lia.
  - destruct (IH (k + 1)) as (l & -> & Hl & H1 & H2); [lia| |lia|].
    { replace (k + 1 + Z.of_nat fuel) with (k + Z.of_nat (S fuel)) by lia. lia. }
    exists l. split_and!; [done|lia|done..].
Qed.

Lemma level_loop_more fuel size t k l : level_loop fuel size t k = Ok l → level_loop (S fuel) size t k = Ok l.
Proof.
  revert t k. induction fuel as [|fuel IH]; intros t k; [done|]. cbn [level_loop]. destruct (_ <=? _); [done|]. apply IH.
Qed.

Lemma level_of_size size : 1 < size <= 2 ^ 63 → ∃ l, level_loop 64 size 1 0 = Ok l ∧ 0 < l ∧ size <= 2 ^ l ∧ 2 ^ (l - 1) < size.
Proof.
  intros Hs. destruct (level_loop_ok size 63 0) as (l & E & Hl); [lia|simpl; lia|simpl; lia|]. exists l.
  split; [apply (level_loop_more 63), E|exact Hl].
Qed.

(** the smallest level that holds the size and the header *)
Lemma size_to_level_ok size : 0 <= size → size + 16 <= 2 ^ 32 →
  ∃ l, size_to_level size = Ok l ∧ 4 <= l <= 32 ∧ size + 16 <= 2 ^ l ∧ (l = 4 ∨ 2 ^ (l - 1) < size + 16).
Proof.
  intros H0 H1. unfold size_to_level, size_per_header. rewrite u64_id by lia.
  destruct (level_of_size (size + 16)) as (l & -> & Hl & Hs & Hm); [lia|]. cbn [mbind outcome_bind]. unfold truncate_level, level_low_bound, level_up_bound.
  assert (Hl32 : l <= 32).
  { destruct (decide (l <= 32)); [done|]. pose proof (Z.pow_le_mono_r 2 32 (l - 1)). lia. }
  destruct (Z.ltb_spec l 4) as [Hlt|Hge].
  - exists 4. split_and!; [done|lia|lia| |by left]. pose proof (Z.pow_le_mono_r 2 l 4). lia.
  - rewrite (proj2 (Z.ltb_ge 32 l)) by lia. exists l. split_and!; [done|lia|lia|done|by right].
Qed.

(** a request beyond the largest block fails its assertion *)
Lemma size_to_level_large size : 2 ^ 32 < size + 16 <= 2 ^ 63 → size_to_level size = Err AssertFail.
Proof.
  intros H1. unfold size_to_level, size_per_header. rewrite u64_id by lia.
  destruct (level_of_size (size + 16)) as (l & -> & Hl & Hs & Hm); [lia|]. cbn [mbind outcome_bind]. unfold truncate_level, level_low_bound, level_up_bound.
  assert (Hl32 : 32 < l).
  { apply Z.lt_nge. intros Hle. pose proof (Z.pow_le_mono_r 2 l 32). lia. }
  rewrite (proj2 (Z.ltb_ge l 4)) by lia. by rewrite (proj2 (Z.ltb_lt 32 l)) by lia.
Qed.

(** ** Freeing *)

Lemma header_of n b B i l o : heap_ok n b B → B !! i = Some (l, o) →
  ∃ h, header_at b i = Ok h ∧ hlevel h = l ∧ in_use h = bool_decide (o = InUse).
Proof.
  intros Hb Hi. destruct (tag_Some _ _ _ (mo_tag _ _ _ (ho_mem _ _ _ Hb) _ _ _ Hi)) as (h & E & Ht). exists h. unfold header_at. rewrite E.
  by injection Ht as -> ->.
Qed.

(** the buddy of a block in use *)
Lemma get_free_buddy_ok n b B f l : heap_ok n b B → B !! f = Some (l, InUse) → l < 32 →
  (get_free_buddy b f l = Ok UINT64_MAX) ∨
  (∃ y q, get_free_buddy b f l = Ok y ∧ y ≠ UINT64_MAX ∧ y ≠ f ∧ B !! y = Some (l, Free q) ∧
    ((2 ^ (l + 1) | f) ∧ y = f + 2 ^ l ∨ (2 ^ (l + 1) | y) ∧ f = y + 2 ^ l)).
Proof.
  intros Hb Hf Hl. destruct (ho_top _ _ _ Hb) as (Et & _ & Hdv).
  destruct (tiling_buddy _ _ f l InUse (ho_tiling _ _ _ Hb) ltac:(by rewrite Et) Hf Hl) as (y & l' & o & Ey & Hy & Hgeo).
  unfold get_free_buddy. rewrite Ey. destruct (header_of n b B y l' o Hb Hy) as (h & -> & Eh & Eu). cbn [mbind outcome_bind]. rewrite Eh, Eu.
  destruct (Z.eqb_spec l' l) as [->|]; [|by left]. case_bool_decide as Ho; [by left|]. simpl. right.
  destruct o as [|q]; [done|]. exists y, q. pose proof (mo_range _ _ _ (ho_mem _ _ _ Hb) _ _ _ Hy).
  destruct (ti_block _ _ (ho_tiling _ _ _ Hb) _ _ _ Hf) as (_ & _ & _ & ?). pose proof (pow_pos l). unfold UINT64_MAX. split_and!; [done|lia|lia|done|done].
Qed.

(** one iteration: the block is merged with its free buddy *)
Lemma merge_step n b B f l y q : heap_ok n b B → B !! f = Some (l, InUse) → l < 32 → B !! y = Some (l, Free q) → f ≠ 0 → y ≠ 0 →
  ((2 ^ (l + 1) | f) ∧ y = f + 2 ^ l ∨ (2 ^ (l + 1) | y) ∧ f = y + 2 ^ l) →
  ∃ g m B', g = (if y <? f then y else f) ∧
    (b ← mark_used b y l; set_level b g (l + 1)) = Ok (set_mem b m) ∧ heap_ok n (set_mem b m) B' ∧ B' !! g = Some (l + 1, InUse) ∧
    (∀ i k, B' !! i = Some (k, InUse) ∧ i ≠ g ↔ B !! i = Some (k, InUse) ∧ i ≠ f) ∧
    (∀ i k p, B' !! i = Some (k, Free p) → B !! i = Some (k, Free p)) ∧ kept f B (b_mem b) m.
Proof.
  intros Hb Hf Hl Hy Hf0 Hy0 Hgeo. destruct (ti_block _ _ (ho_tiling _ _ _ Hb) _ _ _ Hf) as (_ & _ & _ & Hlr). pose proof (pow_pos l ltac:(lia)) as Hpow.
  destruct (mem_used n (ho_threads _ _ _ Hb) b B y l l q) as (m1 & E1 & Hm1 & Hk1); [apply Hb|done|lia|done|].
  set (g := if y <? f then y else f). set (r := if y <? f then f else y).
  assert (Hgr : r = g + 2 ^ l ∧ (2 ^ (l + 1) | g) ∧ g ≠ r ∧ (g = y ∧ r = f ∨ g = f ∧ r = y)).
  { unfold g, r. destruct Hgeo as [[? ->]|[? ->]].
    - rewrite (proj2 (Z.ltb_ge _ _)) by lia. split_and!; auto; lia.
    - rewrite (proj2 (Z.ltb_lt _ _)) by lia. split_and!; auto; lia. }
  destruct Hgr as (Hr & Hdg & Hne & Hcase). set (B1 := <[y := (l, InUse)]> B) in *.
  assert (Hg1 : B1 !! g = Some (l, InUse) ∧ B1 !! r = Some (l, InUse)).
  { unfold B1. destruct Hcase as [[-> ->]|[-> ->]]; rewrite lookup_insert_eq, lookup_insert_ne by done; done. }
  destruct Hg1 as [Hg1 Hr1]. assert (Hm2 : mem_ok n m1 (delete r B1)) by by eapply mem_drop.
  destruct (mem_level n (set_mem b m1) (delete r B1) g (l + 1) l) as (m & E & Hm & Hk2); [done|by rewrite lookup_delete_ne|lia|destruct Hcase as [[-> _]|[-> _]]; done|].
  exists g, m, (<[g := (l + 1, InUse)]> (delete r B1)). split_and!; [done| |..].
  - rewrite E1. exact E.
  - apply (heap_set_mem _ _ B); [done..|]. rewrite Hr. apply (tiling_merge _ _ _ _ InUse InUse); [|done|by rewrite <-Hr|done|lia].
    by apply (tiling_owner _ _ _ _ (Free q)); [apply Hb|].
  - apply lookup_insert_eq.
  - intros i k. destruct (decide (i = g)) as [->|Hig].
    + rewrite lookup_insert_eq. split; [naive_solver|]. intros [Hi Hif]. destruct Hcase as [[Eg _]|[Eg _]]; [rewrite Eg in Hi; congruence|done].
    + rewrite lookup_insert_ne by done. destruct (decide (i = r)) as [->|Hir].
      * rewrite lookup_delete_eq. split; [naive_solver|]. intros [Hi Hif]. destruct Hcase as [[_ Er]|[_ Er]]; [done|rewrite Er in Hi; congruence].
      * rewrite lookup_delete_ne by done. unfold B1. rewrite lookup_insert_ne by (destruct Hcase as [[-> ->]|[-> ->]]; done).
        split; intros [Hi _]; split; try done. destruct Hcase as [[_ ->]|[-> _]]; done.
  - intros i k p. destruct (decide (i = g)) as [->|Hig]; [by rewrite lookup_insert_eq|]. rewrite lookup_insert_ne by done.
    intros [_ Hi]%lookup_delete_Some. unfold B1 in Hi. destruct (decide (i = y)) as [->|]; [by rewrite lookup_insert_eq in Hi|by rewrite lookup_insert_ne in Hi].
  - intros x k z Hx0 Hxf Hx Hz. destruct (inside_used n b B x k z Hb Hx0 Hx Hz) as [Hlow Hno].
    assert (Hzy : z ≠ y) by (intros ->; congruence). assert (Hzf : z ≠ f) by (intros ->; congruence). simpl in Hk2. rewrite (Hk2 z); [by apply Hk1|done| |].
    + rewrite lookup_delete_None. right. unfold B1. by rewrite lookup_insert_ne.
    + destruct Hcase as [[-> _]|[-> _]]; done.
Qed.

(** the merging loop ends with a block in use and leaves all others in use alone *)
Lemma merge_loop_ok n last : last <= 32 → ∀ k b B f l,
  last - l < Z.of_nat k → l <= last → heap_ok n b B → rooted B → B !! f = Some (l, InUse) → f ≠ 0 →
  ∃ f' l' b' B', merge_loop k b last f l = Ok (f', l', b') ∧ heap_ok n b' B' ∧ rooted B' ∧ f' ≠ 0 ∧ l <= l' <= last ∧
    usage_counter b' = usage_counter b ∧ B' !! f' = Some (l', InUse) ∧
    (∀ i k, B' !! i = Some (k, InUse) ∧ i ≠ f' ↔ B !! i = Some (k, InUse) ∧ i ≠ f) ∧
    (∀ i k p, B' !! i = Some (k, Free p) → B !! i = Some (k, Free p)) ∧ kept f B (b_mem b) (b_mem b').
Proof.
  intros Hlast. induction k as [|k IH]; intros b B f l Hk Hl Hb Hroot Hf Hf0.
  - lia.
  - cbn [merge_loop]. destruct (Z.ltb_spec l last) as [Hlt|]; [|exists f, l, b, B; by split_and!; try lia].
    destruct (get_free_buddy_ok n b B f l Hb Hf ltac:(lia)) as [->|(y & q & -> & Hymax & Hyf & Hy & Hgeo)]; cbn [mbind outcome_bind].
    + rewrite Z.eqb_refl. exists f, l, b, B. by split_and!; try lia.
    + rewrite (proj2 (Z.eqb_neq _ _) Hymax).
      assert (Hy0 : y ≠ 0) by (intros ->; unfold rooted in Hroot; congruence).
      destruct (merge_step n b B f l y q Hb Hf ltac:(lia) Hy Hf0 Hy0 Hgeo) as (g & m & B1 & Eg & E & Hb1 & Hg & Hu & Hfr & Hk1).
      apply bind_Ok in E as (b1 & -> & E). cbn [mbind outcome_bind]. rewrite <-Eg, E. cbn [mbind outcome_bind].
      assert (Hg0 : g ≠ 0) by (rewrite Eg; by destruct (y <? f)).
      assert (Hroot1 : rooted B1) by (apply (Hu 0 22); by split).
      destruct (IH (set_mem b m) B1 g (l + 1)) as (f' & l' & b' & B' & E' & Hb' & Hr' & Hf0' & Hl' & Hus & Hf' & Hu' & Hfr' & Hk2); [lia|lia|done..|].
      exists f', l', b', B'. split_and!; [exact E'|done|done|done|lia|lia|done|done| | |].
      * intros i j. by rewrite Hu', Hu.
      * intros i j p Hi. by apply Hfr, Hfr'.
      * eapply kept_trans; [exact Hk1|exact Hk2|]. intros x j _ Hxf Hx. by destruct (proj2 (Hu x j) (conj Hx Hxf)).
Qed.

Lemma large_free_eq b f h f' l' b' : header_at b f = Ok h → 22 <= hlevel h →
  merge_loop merge_fuel b level_up_bound f (hlevel h) = Ok (f', l', b') → large_free b f = mark_free_large b' f' l'.
Proof.
  unfold large_free. generalize (merge_loop merge_fuel). intros loop -> Hl E. cbn [mbind outcome_bind].
  rewrite (proj2 (Z.leb_le _ (hlevel h))) by (unfold level_dividing_line; lia). cbn [assert_that mbind outcome_bind]. by rewrite E.
Qed.

Lemma small_free_eq b f h f' l' b' : header_at b f = Ok h →
  merge_loop merge_fuel b level_dividing_line f (hlevel h) = Ok (f', l', b') →
  small_free b f = if l' =? 22 then large_free b' f' else mark_free_small b' f' l' (-1).
Proof. unfold small_free. generalize (merge_loop merge_fuel). intros loop -> E. cbn [mbind outcome_bind]. by rewrite E. Qed.

Lemma large_free_ok n b B f l : heap_ok n b B → rooted B → B !! f = Some (l, InUse) → f ≠ 0 → 22 <= l →
  ∃ b' B', large_free b f = Ok b' ∧ heap_ok n b' B' ∧ rooted B' ∧
    (∀ i k, B' !! i = Some (k, InUse) ↔ B !! i = Some (k, InUse) ∧ i ≠ f) ∧
    (∀ i k q, q ≠ Large → B' !! i = Some (k, Free q) → B !! i = Some (k, Free q)) ∧ kept f B (b_mem b) (b_mem b').
Proof.
  intros Hb Hroot Hf Hf0 Hl. destruct (ti_block _ _ (ho_tiling _ _ _ Hb) _ _ _ Hf) as (_ & _ & _ & Hlr).
  destruct (header_of n b B f l InUse Hb Hf) as (h & E0 & Eh & _).
  destruct (merge_loop_ok n level_up_bound ltac:(done) merge_fuel b B f l) as (f' & l' & b1 & B1 & E & Hb1 & Hr1 & Hf0' & Hl' & _ & Hf' & Hu & Hfr & Hk1);
    [unfold level_up_bound, merge_fuel; lia|unfold level_up_bound; lia|done..|].
  rewrite <-Eh in E. rewrite (large_free_eq b f h f' l' b1 E0 ltac:(lia) E). clear E E0 h Eh. unfold level_up_bound in Hl'.
  assert (Hv : valid n Large l') by (simpl; lia). rewrite (mark_large_at n b1 f' l' (ho_lists _ _ _ Hb1) Hv).
  destruct (mem_free n (ho_threads _ _ _ Hb1) b1 B1 f' l' Large) as (m & -> & Hm & Hk2); [apply Hb1|done|intros ?? ?; congruence|..].
  { by eapply (mo_low _ _ _ (ho_mem _ _ _ Hb1)). }
  { by eapply (mo_range _ _ _ (ho_mem _ _ _ Hb1)). }
  exists (set_mem b1 m), (<[f' := (l', Free Large)]> B1). split_and!; [done| |..].
  - apply (heap_set_mem _ _ B1); [done..|]. by apply (tiling_owner _ _ _ _ InUse); [apply Hb1|].
  - unfold rooted. by rewrite lookup_insert_ne.
  - intros i k. rewrite <-Hu. destruct (decide (i = f')) as [->|Hne]; [rewrite lookup_insert_eq; naive_solver|rewrite lookup_insert_ne by done; naive_solver].
  - intros i k q Hq. destruct (decide (i = f')) as [->|Hne]; [rewrite lookup_insert_eq; naive_solver|rewrite lookup_insert_ne by done; apply Hfr].
  - eapply kept_trans; [exact Hk1|by eapply (kept_step n b1 B1 f')|]. intros x j _ Hxf Hx. by destruct (proj2 (Hu x j) (conj Hx Hxf)).
Qed.

Lemma small_free_ok n b B f l : heap_ok n b B → rooted B → at_rest B → B !! f = Some (l, InUse) → f ≠ 0 → l < 22 →
  ∃ b' B', small_free b f = Ok b' ∧ heap_ok n b' B' ∧ rooted B' ∧ at_rest B' ∧
    (∀ i k, B' !! i = Some (k, InUse) ↔ B !! i = Some (k, InUse) ∧ i ≠ f) ∧ kept f B (b_mem b) (b_mem b').
Proof.
  intros Hb Hroot Hrest Hf Hf0 Hl. destruct (ti_block _ _ (ho_tiling _ _ _ Hb) _ _ _ Hf) as (_ & _ & _ & Hlr).
  destruct (header_of n b B f l InUse Hb Hf) as (h & E0 & Eh & _).
  destruct (merge_loop_ok n level_dividing_line ltac:(done) merge_fuel b B f l) as (f' & l' & b1 & B1 & E & Hb1 & Hr1 & Hf0' & Hl' & _ & Hf' & Hu & Hfr & Hk1);
    [unfold level_dividing_line, merge_fuel; lia|unfold level_dividing_line; lia|done..|].
  rewrite <-Eh in E. rewrite (small_free_eq b f h f' l' b1 E0 E). clear E E0 h Eh. unfold level_dividing_line in *.
  destruct (Z.eqb_spec l' 22) as [->|Hne].
  - destruct (large_free_ok n b1 B1 f' 22 Hb1 Hr1 Hf' Hf0' ltac:(lia)) as (b' & B' & -> & Hb' & Hr' & Hu' & Hfr' & Hk2).
    exists b', B'. split_and!; [done..| | |].
    + intros i q Hi. destruct (decide (q = Large)) as [|Hq]; [done|]. apply Hfr' in Hi; [|done]. by apply Hfr, Hrest in Hi.
    + intros i k. by rewrite Hu', Hu.
    + eapply kept_trans; [exact Hk1|exact Hk2|]. intros x j _ Hxf Hx. by destruct (proj2 (Hu x j) (conj Hx Hxf)).
  - assert (Hv : valid n (pool_of (-1)) l') by (simpl; lia). rewrite (mark_small_at n (-1) b1 f' l' (ho_lists _ _ _ Hb1) Hv).
    destruct (mem_free n (ho_threads _ _ _ Hb1) b1 B1 f' l' (pool_of (-1))) as (m & -> & Hm & Hk2); [apply Hb1|done|intros ?? ?; congruence|..].
    { by eapply (mo_low _ _ _ (ho_mem _ _ _ Hb1)). }
    { by eapply (mo_range _ _ _ (ho_mem _ _ _ Hb1)). }
    exists (set_mem b1 m), (<[f' := (l', Free Shared)]> B1). split_and!; [done| |..].
    + apply (heap_set_mem _ _ B1); [done..|]. by apply (tiling_owner _ _ _ _ InUse); [apply Hb1|].
    + unfold rooted. by rewrite lookup_insert_ne.
    + intros i q. destruct (decide (i = f')) as [->|]; [rewrite lookup_insert_eq; naive_solver|rewrite lookup_insert_ne by done].
      intros Hi. by apply Hfr, Hrest in Hi.
    + intros i k. rewrite <-Hu. destruct (decide (i = f')) as [->|]; [rewrite lookup_insert_eq; naive_solver|rewrite lookup_insert_ne by done; naive_solver].
    + eapply kept_trans; [exact Hk1|by eapply (kept_step n b1 B1 f')|]. intros x j _ Hxf Hx. by destruct (proj2 (Hu x j) (conj Hx Hxf)).
Qed.
End alloc.
