(* ===== verification/BuddySafe.v ===== *)
(** The contract of the buddy allocator of [core/buddy_malloc.hpp]: [init] makes an empty
    allocator, [malloc] adds a block that is disjoint from all others, [free] removes a
    block, and the owners of the blocks may write into them as they like. *)

From S2P Require Import Prelude Buddy BuddyHeap BuddyAlloc.
Local Open Scope Z_scope.

(** the allocated blocks: the index of the header and the level *)
Abbreviation blocks := (gmap Z Z).

Section safe.
  Context `{HeapSize}.

(** ** The abstract allocator *)

(** [b] represents the allocator whose allocated blocks are [U]; the first block holds
    the list heads and belongs to nobody *)
Definition allocated (n : Z) (b : Buddy_Malloc) (U : blocks) : Prop :=
  ∃ B, heap_ok n b B ∧ rooted B ∧ at_rest B ∧ ∀ i l, U !! i = Some l ↔ B !! i = Some (l, InUse) ∧ i ≠ 0.

(** no free block is left for a request of level [l] *)
Definition exhausted (b : Buddy_Malloc) (need tid : Z) : Prop :=
  heap_size b < malloc_size b + 2 ^ 32 ∧
  (∀ l, Z.max need 22 <= l <= 32 → is_empty_large b l = Ok true) ∧
  (∀ l, need <= l <= 22 → need < 22 → is_empty_small b l tid = Ok true).

Lemma count_usage_ok n b B l d : heap_ok n b B → 0 <= l <= 32 →
  ∃ u, count_usage b l d = Ok (set_usage b u) ∧ heap_ok n (set_usage b u) B.
Proof.
  intros Hb Hl. pose proof (ho_usage _ _ _ Hb) as Hu. unfold count_usage.
  destruct (lookup_lt_is_Some_2 (usage_counter b) (Z.to_nat l)) as [x Hx]; [lia|].
  rewrite (proj2 (read_Ok _ _ _) Hx). simpl. unfold write. rewrite bool_decide_eq_true_2 by lia. simpl. eexists. split; [done|].
  split; try apply Hb. simpl. by rewrite length_insert.
Qed.

Lemma large_empty n b B l : heap_ok n b B → 22 <= l <= 32 → (∀ i, B !! i ≠ Some (l, Free Large)) → is_empty_large b l = Ok true.
Proof.
  intros Hb Hl Hno. assert (Hv : valid n Large l) by (simpl; lia). unfold is_empty_large. rewrite (large_list_ok n b l (ho_lists _ _ _ Hb) Hv).
  destruct (is_empty_ok n b B Large l Hb Hv) as ([|] & E & Hm); cbn [mbind outcome_bind]; rewrite E; [done|]. destruct Hm as [i Hi]. by apply Hno in Hi.
Qed.

Lemma small_empty n b B l tid : heap_ok n b B → tid_ok n tid → 4 <= l <= 22 → (∀ i, B !! i ≠ Some (l, Free (pool_of tid))) →
  is_empty_small b l tid = Ok true.
Proof.
  intros Hb Ht Hl Hno. assert (Hv : valid n (pool_of tid) l) by by apply pool_valid. unfold is_empty_small.
  rewrite (small_list_ok n b l tid (ho_lists _ _ _ Hb) Hv).
  destruct (is_empty_ok n b B (pool_of tid) l Hb Hv) as ([|] & E & Hm); cbn [mbind outcome_bind]; rewrite E; [done|]. destruct Hm as [i Hi]. by apply Hno in Hi.
Qed.

(** whether the lists have a block is decided by the lists *)
Lemma can_take_dec n b B p need : heap_ok n b B → (∀ l, need <= l <= 32 → valid n p l ∨ ∀ i, B !! i ≠ Some (l, Free p)) →
  can_take B p need ∨ ¬ can_take B p need.
Proof.
  intros Hb Hv. assert (Hdec : ∀ k l, Z.of_nat k = 33 - l → need <= l → (∃ i l', l <= l' ∧ B !! i = Some (l', Free p)) ∨ ¬ ∃ i l', l <= l' ∧ B !! i = Some (l', Free p)).
  { induction k as [|k IH]; intros l Hk Hl.
    - right. intros (i & l' & Hl' & Hi). destruct (ti_block _ _ (ho_tiling _ _ _ Hb) _ _ _ Hi) as (_ & _ & _ & ?). lia.
    - destruct (IH (l + 1)) as [(i & l' & Hl' & Hi)|Hno]; [lia|lia|left; exists i, l'; split; [lia|done]|].
      assert (Hone : (∃ i, B !! i = Some (l, Free p)) ∨ ∀ i, B !! i ≠ Some (l, Free p)).
      { destruct (Hv l) as [Hvl|]; [lia| |by right]. destruct (is_empty_ok n b B p l Hb Hvl) as ([|] & _ & Hm); [by right|by left]. }
      destruct Hone as [[i Hi]|Hone]; [left; exists i, l; split; [lia|done]|right]. intros (i & l' & Hl' & Hi).
      destruct (decide (l' = l)) as [->|]; [by apply Hone in Hi|]. apply Hno. exists i, l'. split; [lia|done]. }
  destruct (decide (need <= 33)) as [Hle|Hgt].
  - destruct (Hdec (Z.to_nat (33 - need)) need) as [?|?]; [lia|lia|by left|by right].
  - right. intros (i & l' & Hl' & Hi). destruct (ti_block _ _ (ho_tiling _ _ _ Hb) _ _ _ Hi) as (_ & _ & _ & ?). lia.
Qed.

Lemma take_large_dec n b B need : heap_ok n b B → 22 <= need → can_take B Large need ∨ ¬ can_take B Large need.
Proof. intros Hb Hn. apply (can_take_dec n b); [done|]. intros l Hl. left. simpl. lia. Qed.

Lemma take_small_dec n b B need tid : heap_ok n b B → tid_ok n tid → 4 <= need → can_take B (pool_of tid) need ∨ ¬ can_take B (pool_of tid) need.
Proof.
  intros Hb Ht Hn. apply (can_take_dec n b); [done|]. intros l Hl. destruct (decide (l <= 22)); [left; apply pool_valid; [done|lia]|right].
  intros i Hi. apply (mo_valid _ _ _ (ho_mem _ _ _ Hb)) in Hi. revert Hi. unfold pool_of. destruct (tid <? 0); simpl; lia.
Qed.

(** the owners' data stays *)
Definition unchanged (U : blocks) (m m' : gmap Z header) : Prop := ∀ x l y, U !! x = Some l → x < y < x + 2 ^ l → m' !! y = m !! y.

Lemma kept_unchanged f (U V : blocks) B m m' : (∀ i l, U !! i = Some l → B !! i = Some (l, InUse) ∧ i ≠ 0) → kept f B m m' →
  (∀ i l, V !! i = Some l → U !! i = Some l ∧ i ≠ f) → unchanged V m m'.
Proof. intros HU Hk HV x l y Hx Hy. destruct (HV x l Hx) as [Hx' ?]. destruct (HU x l Hx'). by eapply Hk. Qed.

(** a new block in the abstract allocator *)
Lemma allocated_insert n b' B B' U x l : heap_ok n b' B' → rooted B → at_rest B' → B' !! x = Some (l, InUse) → (∀ k, B !! x ≠ Some (k, InUse)) →
  (∀ i k, i ≠ x → B' !! i = Some (k, InUse) ↔ B !! i = Some (k, InUse)) → (∀ i k, U !! i = Some k ↔ B !! i = Some (k, InUse) ∧ i ≠ 0) →
  U !! x = None ∧ allocated n b' (<[x := l]> U).
Proof.
  intros Hb' Hroot Hrest Hx Hnew Hu HU. assert (Hx0 : x ≠ 0) by (intros ->; by apply (Hnew 22)). split.
  - destruct (U !! x) as [k|] eqn:E; [|done]. apply HU in E as [E _]. by apply Hnew in E.
  - exists B'. split_and!; [done| |done|].
    + unfold rooted. by apply Hu.
    + intros i k. destruct (decide (i = x)) as [->|]; [rewrite lookup_insert_eq, Hx; naive_solver|].
      rewrite lookup_insert_ne by done. rewrite Hu by done. apply HU.
Qed.

Lemma malloc_ok n b U size tid : allocated n b U → 0 <= size → size + 16 <= 2 ^ 32 → tid_ok n tid →
  ∃ l, size_to_level size = Ok l ∧ 4 <= l <= 32 ∧ size + 16 <= 2 ^ l ∧
    ((∃ x b', malloc b size tid = Ok (x + 16, b') ∧ (U !! x = None ∧ allocated n b' (<[x := l]> U)) ∧ unchanged U (b_mem b) (b_mem b')) ∨
     (malloc b size tid = Err AssertFail ∧ exhausted b l tid)).
Proof.
  intros (B & Hb & Hroot & Hrest & HU) H0 Hs Ht.
  assert (Hun : ∀ m', kept 0 B (b_mem b) m' → unchanged U (b_mem b) m').
  { intros m' Hk. eapply (kept_unchanged 0 U U B); [by intros i l Hi%HU|done|]. intros i l Hi. split; [done|]. by apply HU in Hi as [_ ?]. }
  destruct (size_to_level_ok size H0 Hs) as (l & El & Hl & Hsl & _).
  exists l. split_and!; [done|lia|lia|done|]. unfold malloc. rewrite El. cbn [mbind outcome_bind].
  destruct (count_usage_ok n b B l 1 Hb ltac:(lia)) as (u & -> & Hb1). cbn [mbind outcome_bind]. change level_dividing_line with 22.
  assert (Hexl : ∀ need, 22 <= need → ¬ can_take B Large need → ∀ k, need <= k <= 32 → is_empty_large b k = Ok true).
  { intros need Hn Hno k Hk. apply (large_empty n b B); [done|lia|]. intros i Hi. apply Hno. exists i, k. split; [lia|done]. }
  destruct (Z.leb_spec 22 l) as [Hlarge|Hsmall].
  - destruct (decide (malloc_size b + 2 ^ 32 <= heap_size b)) as [Hg|Hg]; [|destruct (take_large_dec n b B l Hb Hlarge) as [Hy|Hno]].
    1,2: left; destruct (large_malloc_ok n (set_usage b u) B l Hb1 ltac:(lia)) as (x & b' & B' & E & Hb' & Hx & _ & Hnew & Hu & Hf & Hk);
      [by (left + right)|]; exists x, b'; split; [exact E|]; split; [|by apply Hun]; apply (allocated_insert n b' B B'); [done|done| |done..];
      intros i q Hi; destruct (decide (q = Large)) as [|Hq]; [done|]; apply Hf in Hi; [|done]; by apply Hrest in Hi.
    right. split; [by apply (large_malloc_full n _ B); [|lia|..]|]. split_and!; [lia| |lia]. intros k Hk. apply (Hexl l); [lia|done|lia].
  - destruct (decide (malloc_size b + 2 ^ 32 <= heap_size b)) as [Hg|Hg];
      [|destruct (take_small_dec n b B l tid Hb Ht ltac:(lia)) as [Hy|Hno]; [|destruct (take_large_dec n b B 22 Hb ltac:(lia)) as [Hy|Hno']]].
    1,2,3: left; destruct (small_malloc_ok n (set_usage b u) B l tid Hb1 Hrest Hroot Ht ltac:(lia)) as (x & b' & B' & E & Hb' & Hrest' & Hx & Hnew & Hu & Hk);
      [first [by left | by right; left | by right; right]|]; exists x, b'; split; [exact E|]; split; [|by apply Hun]; by apply (allocated_insert n b' B B').
    right. split; [by apply (small_malloc_full n _ B); [| |lia|..]|]. split_and!; [lia| |].
    + intros k Hk. apply (Hexl 22); [lia|done|lia].
    + intros k Hk _. apply (small_empty n b B); [done|done|lia|]. intros i Hi. apply Hno. exists i, k. split; [lia|done].
Qed.

Lemma free_ok n b U x l : allocated n b U → U !! x = Some l → ∃ b', free b (x + 16) = Ok b' ∧ allocated n b' (delete x U) ∧ unchanged (delete x U) (b_mem b) (b_mem b').
Proof.
  intros (B & Hb & Hroot & Hrest & HU) Hx. apply HU in Hx as [Hx Hx0].
  pose proof (mo_range _ _ _ (ho_mem _ _ _ Hb) _ _ _ Hx) as [_ Hxr]. destruct (ti_block _ _ (ho_tiling _ _ _ Hb) _ _ _ Hx) as (_ & _ & _ & Hl).
  unfold free, get_header_idx, size_per_header. replace (x + 16 - 16) with x by lia. rewrite u64_id by lia.
  destruct (header_of n b B x l InUse Hb Hx) as (h & -> & Eh & _). cbn [mbind outcome_bind]. rewrite Eh.
  destruct (count_usage_ok n b B l (-1) Hb ltac:(lia)) as (u & -> & Hb1). cbn [mbind outcome_bind]. change level_dividing_line with 22.
  assert (Hdone : ∀ b' B', heap_ok n b' B' → rooted B' → at_rest B' → (∀ i k, B' !! i = Some (k, InUse) ↔ B !! i = Some (k, InUse) ∧ i ≠ x) →
    kept x B (b_mem b) (b_mem b') → allocated n b' (delete x U) ∧ unchanged (delete x U) (b_mem b) (b_mem b')).
  { intros b' B' Hb' Hr' Ha' Hu Hk. split; [exists B'; split_and!; [done..|]; intros i k; rewrite lookup_delete_Some, HU, Hu; naive_solver|].
    eapply (kept_unchanged x U); [by intros i k Hi%HU|done|]. intros i k [? ?]%lookup_delete_Some. done. }
  destruct (Z.leb_spec 22 l) as [Hlarge|Hsmall].
  - destruct (large_free_ok n (set_usage b u) B x l Hb1 Hroot Hx Hx0 Hlarge) as (b' & B' & E & Hb' & Hr' & Hu & Hf & Hk).
    exists b'. split; [exact E|]. apply (Hdone b' B'); [done|done| |done|done]. intros i q Hi. destruct (decide (q = Large)) as [|Hq]; [done|].
    apply Hf in Hi; [|done]. by apply Hrest in Hi.
  - destruct (small_free_ok n (set_usage b u) B x l Hb1 Hroot Hrest Hx Hx0 Hsmall) as (b' & B' & E & Hb' & Hr' & Ha' & Hu & Hk).
    exists b'. split; [exact E|]. by apply (Hdone b' B').
Qed.

(** allocated blocks are inside the heap, behind the first block, aligned and disjoint *)
Lemma allocated_blocks n b U x l : allocated n b U → U !! x = Some l →
  2 ^ 22 <= x ∧ x + 2 ^ l <= region_size ∧ (2 ^ l | x) ∧ ∀ y k, U !! y = Some k → x ≠ y → x + 2 ^ l <= y ∨ y + 2 ^ k <= x.
Proof.
  intros (B & Hb & Hroot & Hrest & HU) Hx. apply HU in Hx as [Hx Hx0].
  destruct (ti_block _ _ (ho_tiling _ _ _ Hb) _ _ _ Hx) as (Hxp & Hxt & Hxd & Hl). destruct (ho_top _ _ _ Hb) as (Et & _). pose proof (ho_size _ _ _ Hb). pose proof (ho_region _ _ _ Hb).
  split_and!; [|lia|done|].
  - destruct (mo_low _ _ _ (ho_mem _ _ _ Hb) _ _ _ Hx) as [[? _]|?]; [done|done].
  - intros y k Hy Hne. apply HU in Hy as [Hy _]. destruct (ti_block _ _ (ho_tiling _ _ _ Hb) _ _ _ Hy) as (Hyp & _ & _ & Hk).
    destruct (decide (x + 2 ^ l <= y)) as [|Hn1]; [by left|]. destruct (decide (y + 2 ^ k <= x)) as [|Hn2]; [by right|]. exfalso. apply Hne.
    pose proof (pow_pos l). pose proof (pow_pos k). apply (ti_disjoint _ _ (ho_tiling _ _ _ Hb) _ _ _ _ _ _ (Z.max x y) Hx Hy); lia.
Qed.

(** what the owners of blocks may change: the words behind their headers *)
Definition owned_write (U : blocks) (m m' : gmap Z header) : Prop :=
  ∀ i, m' !! i ≠ m !! i → ∃ x l, U !! x = Some l ∧ x < i < x + 2 ^ l.

Lemma allocated_write n b U m : allocated n b U → owned_write U (b_mem b) m → allocated n (set_mem b m) U.
Proof.
  intros (B & Hb & Hroot & Hrest & HU) Hw. exists B. split_and!; [|done..]. apply (heap_set_mem _ _ B); [done| |apply Hb].
  apply (mem_frame n (ho_threads _ _ _ Hb) (b_mem b)); [apply Hb|]. intros i Hi. destruct (decide (m !! i = b_mem b !! i)) as [|Hne]; [done|exfalso].
  destruct (Hw i Hne) as (x & l & Hx & Hr). apply HU in Hx as [Hx Hx0]. destruct Hi as [(k & o & Hi)|(p & k & Hv & ->)].
  - destruct (ti_block _ _ (ho_tiling _ _ _ Hb) _ _ _ Hi) as (_ & _ & _ & Hk). pose proof (pow_pos k).
    assert (i = x) by (apply (ti_disjoint _ _ (ho_tiling _ _ _ Hb) _ _ _ _ _ _ i Hi Hx); lia). lia.
  - pose proof (head_range n p k (ho_threads _ _ _ Hb) Hv). destruct (mo_low _ _ _ (ho_mem _ _ _ Hb) _ _ _ Hx) as [[? _]|?]; [done|lia].
Qed.

(** ** Initialisation *)

Lemma init_heads_ok garbage b idxs : Forall (λ i, 0 <= i < 2 ^ 48) idxs →
  ∃ m, init_heads garbage b idxs = set_mem b m ∧
    (∀ y, y ∈ idxs → nxt m y = Some y) ∧ (∀ y, y ∉ idxs → m !! y = b_mem b !! y).
Proof.
  unfold init_heads. revert b. induction idxs as [|i idxs IH]; intros b Hr; simpl.
  - exists (b_mem b). split_and!; [by destruct b|set_solver|done].
  - apply Forall_cons_iff in Hr as [Hi Hr]. destruct (IH (init_head b garbage i) Hr) as (m & -> & Hin & Hout). exists m. split_and!; [done| |].
    + intros y Hy. destruct (decide (y ∈ idxs)); [by apply Hin|]. assert (y = i) as -> by set_solver. unfold nxt. rewrite Hout by done. simpl.
      rewrite lookup_insert_eq. simpl. unfold u48. by rewrite Z.mod_small.
    + intros y Hy. rewrite Hout by set_solver. simpl. rewrite lookup_insert_ne by set_solver. done.
Qed.

Lemma elem_heads (f : Z → Z) lo k y : y ∈ f <$> seqZ lo k ↔ ∃ i, lo <= i < lo + k ∧ y = f i.
Proof.
  rewrite list_elem_of_fmap. setoid_rewrite elem_of_seqZ. naive_solver.
Qed.

Lemma head_of_heads n p l : valid n p l →
  head_of p l ∈ match p with Large => large_heads | Shared => small_heads | Thread _ => tmp_heads n end.
Proof.
  intros Hv. destruct p as [| |j]; unfold large_heads, small_heads, tmp_heads, levels_up, level_low_bound, level_dividing_line, level_up_bound, size_per_header;
    rewrite elem_heads; simpl in *.
  - exists l. split; [lia|]. lia.
  - exists l. split; [lia|]. lia.
  - exists (19 * j + (l - 4)). split; [lia|]. lia.
Qed.

Lemma heads_low n y : threads_fit n → y ∈ small_heads ++ large_heads ++ tmp_heads n → 0 < y < 2 ^ 22.
Proof.
  unfold threads_fit. rewrite !elem_of_app. unfold large_heads, small_heads, tmp_heads, levels_up, level_low_bound, level_dividing_line, level_up_bound, size_per_header.
  rewrite !elem_heads. intros Hn [(i & Hi & ->)|[(i & Hi & ->)|(i & Hi & ->)]]; lia.
Qed.

(** the list heads of the threads do not collide with the others *)
Lemma tmp_heads_apart n p l : valid 0 p l → head_of p l ∉ tmp_heads n.
Proof.
  unfold tmp_heads, level_low_bound, level_dividing_line, level_up_bound, size_per_header. rewrite elem_heads.
  intros Hv (i & Hi & E). destruct p as [| |j]; simpl in Hv, E; lia.
Qed.

Lemma heads_range n idxs : threads_fit n → (∀ y, y ∈ idxs → y ∈ small_heads ++ large_heads ++ tmp_heads n) → Forall (λ i, 0 <= i < 2 ^ 48) idxs.
Proof. intros Hn Hsub. apply Forall_forall. intros y Hy. pose proof (heads_low n y Hn (Hsub y Hy)). lia. Qed.

(** the allocator before its first block *)
Lemma empty_heap b m : 0 <= region_size <= 2 ^ 48 → lists_ok 0 b → b_mem b = m → top_of_heap b = 0 → malloc_size b = 0 → heap_size b = region_size →
  length (usage_counter b) = 33%nat → (∀ y, y ∈ small_heads ++ large_heads → nxt m y = Some y) → heap_ok 0 b ∅.
Proof.
  intros Hs Hl Em Et Es Eh Eu Hnx. split; [unfold threads_fit; lia| | |rewrite Et, Es; split_and!; [done|lia|by exists 0]|lia|done|done|done].
  - rewrite Em. split; try done. intros p l Hv. exists []. split_and!; [|constructor|set_solver]. simpl. apply Hnx.
    pose proof (head_of_heads 0 p l Hv). destruct p as [| |j]; [apply elem_of_app; tauto..|]. simpl in Hv. lia.
  - rewrite Et. split; [done| |done]. intros. lia.
Qed.

(** the heads of the lists of the threads are added *)
Lemma add_threads n b B m b' : threads_fit n → heap_ok 0 b B →
  (∀ y, y ∈ tmp_heads n → nxt m y = Some y) → (∀ y, y ∉ tmp_heads n → m !! y = b_mem b !! y) →
  b_mem b' = m → top_of_heap b' = top_of_heap b → malloc_size b' = malloc_size b → heap_size b' = heap_size b →
  large_free_list b' = large_free_list b → small_free_list b' = small_free_list b → tmp_small_free_list b' = tmp_heads n →
  usage_counter b' = usage_counter b → heap_ok n b' B.
Proof.
  intros Hn Hb Hin Hout Em Et Es Eh El Esm Etm Eu. destruct (ho_lists _ _ _ Hb) as (Ell & Ess & _).
  split; rewrite ?Et, ?Es, ?Eh, ?Eu; try apply Hb; [done| |split_and!; congruence].
  assert (Hm : mem_ok 0 m B).
  { apply (mem_frame 0 (ho_threads _ _ _ Hb) (b_mem b)); [apply Hb|]. intros i [(l & o & Hi)|(p & l & Hv & ->)]; apply Hout; [|by apply tmp_heads_apart].
    intros Hi'. pose proof (heads_low n i Hn ltac:(rewrite !elem_of_app; tauto)). destruct (mo_low _ _ _ (ho_mem _ _ _ Hb) _ _ _ Hi); lia. }
  rewrite Em. destruct Hm as [T1 T2 T3 T4 T5]. split; try done.
  - intros i l p Hi. apply T2 in Hi. destruct p; simpl in *; lia.
  - intros p l Hv. destruct p as [| |j]; [by apply T5..|]. exists []. split_and!; [|constructor|].
    + simpl. apply Hin. apply (head_of_heads n (Thread j) l Hv).
    + intros i. split; [set_solver|]. intros Hi. apply T2 in Hi. simpl in Hi. lia.
Qed.

Lemma init_steps mem garbage size n v b2 : 2 ^ 32 <= size →
  large_malloc (init_heads garbage (init_heads garbage (MkBuddy mem 0 n size 0 large_heads small_heads [] (replicate 33 0)) small_heads) large_heads)
    level_dividing_line = Ok (v, b2) →
  init mem garbage size n = let b := init_heads garbage b2 (tmp_heads n) in
    Ok (MkBuddy (b_mem b) (top_of_heap b) n (heap_size b) (malloc_size b) (large_free_list b) (small_free_list b) (tmp_heads n) (usage_counter b)).
Proof.
  unfold init. generalize large_malloc, (init_heads garbage), (replicate 33 0). intros lm heads u Hs E.
  rewrite (proj2 (Z.leb_le (Z.shiftl 1 level_up_bound) size)) by exact Hs. cbn [assert_that mbind outcome_bind]. by rewrite E.
Qed.

Lemma init_ok mem garbage n : 2 ^ 32 <= region_size <= 2 ^ 48 → threads_fit n →
  ∃ b, init mem garbage region_size n = Ok b ∧ allocated n b ∅.
Proof.
  intros Hs Hn. pose proof (init_steps mem garbage region_size n) as Hsteps. set (b0 := MkBuddy _ _ _ _ _ _ _ _ _) in Hsteps.
  destruct (init_heads_ok garbage b0 small_heads) as (m1 & E1 & H1 & _); [apply (heads_range n); [done|]; intros y; rewrite !elem_of_app; tauto|].
  destruct (init_heads_ok garbage (set_mem b0 m1) large_heads) as (m2 & E2 & H2 & H2'); [apply (heads_range n); [done|]; intros y; rewrite !elem_of_app; tauto|].
  rewrite E1, E2 in Hsteps. clear E1 E2.
  assert (Hb1 : heap_ok 0 (set_mem (set_mem b0 m1) m2) ∅).
  { apply (empty_heap _ m2); try done; [lia|]. intros y Hy. destruct (decide (y ∈ large_heads)) as [|Hno]; [by apply H2|].
    unfold nxt. rewrite H2' by done. apply H1. apply elem_of_app in Hy. tauto. }
  assert (Htop : top_of_heap (set_mem (set_mem b0 m1) m2) = 0) by done.
  assert (Hgrow : can_grow (set_mem (set_mem b0 m1) m2)) by (unfold can_grow; simpl; lia).
  revert Hsteps Hb1 Htop Hgrow. generalize (set_mem (set_mem b0 m1) m2). intros b1 Hsteps Hb1 Htop Hgrow.
  destruct (large_malloc_ok 0 b1 ∅ level_dividing_line Hb1) as (x & b2 & B & E & Hb2 & Hx & Hwhere & _ & Hu & Hf & _);
    [unfold level_dividing_line; lia|by right|]. specialize (Hsteps _ _ ltac:(lia) E).
  destruct Hwhere as [[l Hl]|Hx0]; [done|]. rewrite Htop in Hx0. subst x.
  destruct (init_heads_ok garbage b2 (tmp_heads n)) as (m3 & E3 & H3 & H3'); [apply (heads_range n); [done|]; intros y; rewrite !elem_of_app; tauto|].
  rewrite E3 in Hsteps. eexists. split; [exact Hsteps|]. exists B. split_and!.
  - by apply (add_threads n b2 B m3).
  - exact Hx.
  - intros i q Hi. destruct (decide (q = Large)) as [|Hq]; [done|]. by apply Hf in Hi.
  - intros i l. rewrite lookup_empty. split; [done|]. intros [Hi Hi0]. by apply Hu in Hi.
Qed.

(** ** The contract *)

(** C10: [malloc] refines the allocation of a block: in every state of the allocator a
    request that fits a block returns the address behind the header of a block of the
    smallest sufficient level, which was not allocated before; or, when the heap cannot
    grow and none of the lists of the level and above holds a block, it fails its
    assertion. All other allocated blocks stay allocated, with their contents. *)
Theorem malloc_refines (n : Z) (b : Buddy_Malloc) (U : blocks) (size tid : Z) :
  allocated n b U → 0 <= size → size + 16 <= 2 ^ 32 → tid_ok n tid →
  ∃ l, size_to_level size = Ok l ∧ size + 16 <= 2 ^ l ∧ (l = 4 ∨ 2 ^ (l - 1) < size + 16) ∧
    ((∃ x b', malloc b size tid = Ok (x + 16, b') ∧ U !! x = None ∧ allocated n b' (<[x := l]> U) ∧ unchanged U (b_mem b) (b_mem b')) ∨
     (malloc b size tid = Err AssertFail ∧ exhausted b l tid)).
Proof.
  intros Ha H0 Hs Ht. destruct (malloc_ok n b U size tid Ha H0 Hs Ht) as (l & El & _ & Hsl & Hc).
  destruct (size_to_level_ok size H0 Hs) as (l' & El' & _ & _ & Hm). assert (l' = l) as -> by congruence. exists l. split_and!; [done..|].
  destruct Hc as [(x & b' & E & [? ?] & ?)|?]; [left; by exists x, b'|by right].
Qed.

(** beyond [2^63] the loop of [size_to_level] never ends *)
Lemma level_loop_big size fuel k : 2 ^ 63 < size → 0 <= k <= 63 → k + Z.of_nat fuel <= 64 → level_loop fuel size (2 ^ k) k = Err OutOfFuel.
Proof.
  intros Hs. revert k. induction fuel as [|fuel IH]; intros k Hk Hf; [done|]. cbn [level_loop]. rewrite Z.shiftl_mul_pow2 by lia.
  replace (2 ^ k * 2 ^ 1) with (2 ^ (k + 1)) by (rewrite pow_S; lia). destruct (decide (k = 63)) as [->|Hne].
  - change (u64 (2 ^ (63 + 1))) with 0. rewrite (proj2 (Z.leb_gt _ _)) by lia. by destruct fuel; [|lia].
  - pose proof (Z.pow_le_mono_r 2 (k + 1) 63 ltac:(lia) ltac:(lia)). pose proof (pow_pos (k + 1) ltac:(lia)).
    rewrite u64_id by lia. rewrite (proj2 (Z.leb_gt _ _)) by lia. apply IH; lia.
Qed.

(** one step of the users of the allocator; [U] are the blocks they were given *)
Inductive alloc_step (n : Z) : Buddy_Malloc * blocks → Buddy_Malloc * blocks → Prop :=
| step_malloc b U size tid l v b' :
    0 <= size < 2 ^ 63 → tid_ok n tid → size_to_level size = Ok l → malloc b size tid = Ok (v, b') →
    alloc_step n (b, U) (b', <[v - 16 := l]> U)
| step_free b U x l b' : U !! x = Some l → free b (x + 16) = Ok b' → alloc_step n (b, U) (b', delete x U)
| step_write b U m : owned_write U (b_mem b) m → alloc_step n (b, U) (set_mem b m, U).

Lemma step_allocated n s s' : alloc_step n s s' → allocated n s.1 s.2 → allocated n s'.1 s'.2.
Proof.
  intros [b U size tid l v b' Hs Ht El E|b U x l b' Hx E|b U m Hw] Ha; simpl in *.
  - assert (Hsz : size + 16 <= 2 ^ 32).
    { apply Z.le_ngt. intros Hgt. destruct (decide (size + 16 <= 2 ^ 63)) as [Hle|Hbig]; [by rewrite size_to_level_large in El by lia|].
      unfold size_to_level in El. apply bind_Ok in El as (k & Ek & _). revert Ek. unfold size_per_header. rewrite u64_id by lia.
      change 1 with (2 ^ 0). by rewrite level_loop_big by lia. }
    destruct (malloc_ok n b U size tid Ha ltac:(lia) Hsz Ht) as (l' & El' & _ & _ & [(x & b1 & E1 & [_ Ha'] & _)|[E1 _]]); [|congruence].
    rewrite El in El'. rewrite E in E1. simplify_eq. by replace (x + 16 - 16) with x by lia.
  - destruct (free_ok n b U x l Ha Hx) as (b1 & E1 & Ha' & _). rewrite E in E1. by simplify_eq.
  - by apply allocated_write.
Qed.

(** C9: the allocator is safe under every sequence of allocations, frees and writes of
    the owners into their blocks, from its initialisation in a memory with any
    contents: in every state that is reached the allocated blocks lie inside the
    region, behind the block with the list heads, aligned to their size and pairwise
    disjoint, and every one of them can be freed. *)
Theorem buddy_safe (mem : gmap Z header) (garbage : header) (n : Z) (b0 b : Buddy_Malloc) (U : blocks) :
  2 ^ 32 <= region_size <= 2 ^ 48 → threads_fit n → init mem garbage region_size n = Ok b0 →
  rtc (alloc_step n) (b0, ∅) (b, U) →
  ∀ x l, U !! x = Some l →
    2 ^ 22 <= x ∧ x + 2 ^ l <= region_size ∧ (2 ^ l | x) ∧ (∃ b', free b (x + 16) = Ok b') ∧
    ∀ y k, U !! y = Some k → x ≠ y → x + 2 ^ l <= y ∨ y + 2 ^ k <= x.
Proof.
  intros Hs Hn E0 Hr x l Hx. destruct (init_ok mem garbage n Hs Hn) as (b0' & E0' & Ha0). rewrite E0 in E0'. injection E0' as <-.
  assert (Ha : allocated n b U).
  { change b with (b, U).1. change U with (b, U).2 at 2. revert Hr Ha0. generalize (b, U). intros s Hr Ha0.
    assert (Hs0 : allocated n (b0, ∅ : blocks).1 (b0, ∅ : blocks).2) by done. clear -Hr Hs0. induction Hr; [done|]. eauto using step_allocated. }
  destruct (allocated_blocks n b U x l Ha Hx) as (H1 & H2 & H3 & H4). destruct (free_ok n b U x l Ha Hx) as (b' & Hb' & _).
  split_and!; eauto.
Qed.
End safe.

(** [sz_to_blksz] shifts a 32-bit [int]: for sizes of a gibibyte and more the block
    size that it returns is wrong, for the level 31 it is close to [2^64] and for the
    level 32 it wraps around from zero. *)
Theorem sz_to_blksz_wrong (size : Z) : 2 ^ 30 < size + 16 <= 2 ^ 32 →
  ∃ l, size_to_level size = Ok l ∧ 31 <= l <= 32 ∧ ∃ r, sz_to_blksz size = Ok r ∧ 2 ^ 32 < r ∧ r ≠ 2 ^ l - 16.
Proof.
  intros Hs. destruct (size_to_level_ok size) as (l & El & Hl & Hsl & Hm); [lia|lia|]. exists l.
  assert (Hl31 : 31 <= l).
  { apply Z.le_ngt. intros Hlt. pose proof (Z.pow_le_mono_r 2 l 30). lia. }
  split_and!; [done|lia|lia|]. unfold sz_to_blksz. rewrite El. cbn [mbind outcome_bind]. eexists. split; [done|].
  assert (l = 31 ∨ l = 32) as [-> | ->] by lia; vm_compute; split; congruence.
Qed.

(** a race between threads: a thread that refills the small lists marks the block it
    got as free, at the dividing level, without the lock of the large lists; a thread
    that frees the buddy of that block at this moment merges it into a larger free
    block. The block is then used and inside of a free block: the next request gets an
    address range that contains it. *)
Theorem refill_race : ∃ v2 v3,
  (b ← init ∅ (MkHeader false 0 0 0) (2 ^ 33) 1;
   '(_, b) ← malloc b (2 ^ 22 - 16) (-1);
   '(v1, b) ← malloc b (2 ^ 22 - 16) (-1);
   '(idx, fl, b) ← get_free_idx_small b 7 (-1);  (* a thread refills the small lists *)
   b ← free b v1;                                (* another one frees the buddy *)
   '(v2, b) ← small_take b idx fl 7 (-1);        (* the first one goes on *)
   '(v3, b) ← malloc b (2 ^ 23 - 16) (-1);
   Ok (v2, v3)) = Ok (v2, v3) ∧
  v3 < v2 ∧ v2 + (2 ^ 7 - 16) <= v3 + (2 ^ 23 - 16).
Proof. exists 12582928, 8388624. split; [vm_compute; reflexivity|lia]. Qed.

(** *** Two blocks *)

Definition two_chunks : HeapSize := 2 ^ 33.

Definition blank : header := MkHeader false 0 0 0.

Lemma two_threads_fit : threads_fit 2.
Proof. unfold threads_fit. lia. Qed.

Lemma malloc_refines_witness : ∃ b, init ∅ blank (2 ^ 33) 2 = Ok b ∧
  ∃ l, size_to_level 100 = Ok l ∧ 100 + 16 <= 2 ^ l ∧ (l = 4 ∨ 2 ^ (l - 1) < 100 + 16) ∧
    ((∃ x b', malloc b 100 1 = Ok (x + 16, b') ∧ (∅ : blocks) !! x = None ∧ allocated (H := two_chunks) 2 b' (<[x := l]> ∅) ∧ unchanged ∅ (b_mem b) (b_mem b')) ∨
     (malloc b 100 1 = Err AssertFail ∧ exhausted b l 1)).
Proof.
  destruct (init_ok (H := two_chunks) ∅ blank 2) as (b & E & Ha); [vm_compute; split; congruence|exact two_threads_fit|].
  exists b. split; [exact E|]. apply (malloc_refines (H := two_chunks) 2 b ∅ 100 1 Ha); [lia|lia|]. unfold tid_ok. lia.
Defined.

Lemma buddy_safe_witness : ∃ b0 v b, init ∅ blank (2 ^ 33) 2 = Ok b0 ∧ malloc b0 100 (-1) = Ok (v, b) ∧
  2 ^ 22 <= v - 16 ∧ v - 16 + 2 ^ 7 <= 2 ^ 33 ∧ ∃ b', free b (v - 16 + 16) = Ok b'.
Proof.
  assert (E : (b0 ← init ∅ blank (2 ^ 33) 2; '(v, b) ← malloc b0 100 (-1); Ok v) = Ok 4194320) by (vm_compute; reflexivity).
  apply bind_Ok in E as (b0 & E0 & E). apply bind_Ok in E as ([v b] & E1 & _).
  exists b0, v, b. split; [exact E0|]. split; [exact E1|].
  destruct (buddy_safe (H := two_chunks) ∅ blank 2 b0 b (<[v - 16 := 7]> ∅)) with (x := v - 16) (l := 7) as (H1 & H2 & _ & H3 & _).
  - vm_compute. split; congruence.
  - exact two_threads_fit.
  - exact E0.
  - apply rtc_once. apply (step_malloc 2 b0 ∅ 100 (-1) 7); [lia|unfold tid_ok; lia|reflexivity|exact E1].
  - apply lookup_insert_eq.
  - split; [exact H1|]. split; [exact H2|exact H3].
Defined.

Lemma sz_to_blksz_wrong_witness : ∃ r, sz_to_blksz (2 ^ 30) = Ok r ∧ 2 ^ 32 < r.
Proof.
  destruct (sz_to_blksz_wrong (2 ^ 30)) as (l & _ & _ & r & E & H & _); [lia|]. exists r. split; [exact E|exact H].
Defined.
