(* ===== verification/Region.v ===== *)
(** The interface between the store and the allocator of its entry region
    ([Malloc_Interface] of [core/buddy_malloc.hpp]), and the buddy allocator as its
    implementation.

    The region is shared memory: the edges of the store and the headers of the
    allocator lie in the same bytes. The interface has the stores and loads of edges
    beside the operations of the allocator, and its laws say that neither side
    disturbs the other. How the bits of a header lie in its four words is left open: a
    word that the allocator has written is no edge, and a header in which an edge was
    stored is gone; to read either is undefined. *)

From S2P Require Import Prelude Types Buddy BuddyHeap BuddyAlloc BuddySafe.
Local Open Scope Z_scope.

(** [Malloc_Interface] with the memory it manages; offsets are bytes, edges are
    addressed by their index *)
Class Malloc_Interface := {
  region : Type;
  r_init : region → Z → Z → outcome region;
  r_malloc : region → Z → Z → outcome (Z * region);
  r_free : region → Z → outcome region;
  r_sz_to_blksz : Z → outcome Z;
  r_load : region → Z → outcome sid_t;
  r_store : region → Z → sid_t → region
}.

(** the sizes that [sz_to_blksz] gets right *)
Definition max_request : Z := 2 ^ 30 - 16.

(** an edge inside of a block *)
Definition in_block (v c w : Z) : Prop := v <= 4 * w ∧ 4 * w + 4 <= v + c.

(** the edges in the blocks stay *)
Definition same_edges `{Malloc_Interface} (U : gmap Z Z) (r r' : region) : Prop :=
  ∀ v c w, U !! v = Some c → in_block v c w → r_load r' w = r_load r w.

(** What the store relies on. [r_ok r U]: the blocks [U], by offset and capacity, are
    allocated. *)
Class MallocOk (M : Malloc_Interface) := {
  r_ok : region → gmap Z Z → Prop;
  r_size : Z;
  r_threads : Z;
  rk_init r : ∃ r', r_init r r_size r_threads = Ok r' ∧ r_ok r' ∅;
  rk_size : r_size <= 2 ^ 36;
  rk_block r U v c : r_ok r U → U !! v = Some c → 0 <= v ∧ v + c <= r_size ∧ (4 | v) ∧ (4 | c) ∧
    ∀ v' c', U !! v' = Some c' → v ≠ v' → v + c <= v' ∨ v' + c' <= v;
  rk_blksz size : 0 <= size <= max_request → ∃ c, r_sz_to_blksz size = Ok c ∧ size <= c <= max_request ∧ (4 | c) ∧
    ∀ size', size <= size' <= c → r_sz_to_blksz size' = Ok c;
  rk_malloc r U size tid c : r_ok r U → 0 <= size <= max_request → tid < r_threads → r_sz_to_blksz size = Ok c →
    (∃ v r', r_malloc r size tid = Ok (v, r') ∧ U !! v = None ∧ r_ok r' (<[v := c]> U) ∧ same_edges U r r') ∨
    r_malloc r size tid = Err AssertFail;
  rk_free r U v c : r_ok r U → U !! v = Some c → ∃ r', r_free r v = Ok r' ∧ r_ok r' (delete v U) ∧ same_edges (delete v U) r r';
  rk_store r U v c w x : r_ok r U → U !! v = Some c → in_block v c w →
    r_ok (r_store r w x) U ∧ r_load (r_store r w x) w = Ok x ∧ ∀ w', w' ≠ w → r_load (r_store r w x) w' = r_load r w'
}.

(** ** The buddy allocator *)

Section buddy.
  Context (garbage : header).

(** the allocator and the edges that are stored in its region *)
Definition buddy_region : Type := Buddy_Malloc * gmap Z sid_t.

(** the header whose bytes hold an edge *)
Definition slot_of (w : Z) : Z := 16 * (w / 4).

(** the edges whose bytes no header was written to *)
Definition spared (m m' : gmap Z header) (es : gmap Z sid_t) : gmap Z sid_t :=
  filter (λ e, m' !! slot_of e.1 = m !! slot_of e.1) es.

Definition buddy_step (r : buddy_region) (b : Buddy_Malloc) : buddy_region := (b, spared (b_mem r.1) (b_mem b) r.2).

#[export] Instance buddy_interface : Malloc_Interface := {|
  region := buddy_region;
  r_init r size n := b ← init (b_mem r.1) garbage size n; Ok (buddy_step r b);
  r_malloc r size tid := '(v, b) ← malloc r.1 size tid; Ok (v, buddy_step r b);
  r_free r v := b ← free r.1 v; Ok (buddy_step r b);
  r_sz_to_blksz := sz_to_blksz;
  r_load r w := match r.2 !! w with Some x => Ok x | None => Err Undefined end;
  r_store r w x := (set_mem r.1 (delete (slot_of w) (b_mem r.1)), <[w := x]> r.2)
|}.

  Context `{HeapSize} (n : Z) (Hn : threads_fit n) (Hsize : 2 ^ 32 <= region_size <= 2 ^ 36).

(** the blocks without their headers *)
Definition payload (V : blocks) (U : gmap Z Z) : Prop :=
  ∀ v c, U !! v = Some c ↔ ∃ l, V !! (v - 16) = Some l ∧ c = 2 ^ l - 16.

Lemma sz_to_blksz_ok size : 0 <= size <= max_request →
  ∃ l, size_to_level size = Ok l ∧ 4 <= l <= 30 ∧ size + 16 <= 2 ^ l ∧ sz_to_blksz size = Ok (2 ^ l - 16) ∧ (l = 4 ∨ 2 ^ (l - 1) < size + 16).
Proof.
  unfold max_request. intros Hs. destruct (size_to_level_ok size) as (l & El & Hl & Hsl & Hm); [lia|lia|]. exists l.
  assert (Hl30 : l <= 30).
  { apply Z.le_ngt. intros Hlt. destruct Hm as [->|Hm]; [lia|]. pose proof (Z.pow_le_mono_r 2 30 (l - 1)). lia. }
  split_and!; [done|lia|lia|done| |done]. unfold sz_to_blksz. rewrite El. cbn [mbind outcome_bind]. f_equal.
  rewrite Z.shiftl_mul_pow2, Z.mul_1_l by lia. pose proof (Z.pow_le_mono_r 2 l 30). pose proof (Z.pow_le_mono_r 2 4 l). rewrite i32_id by lia.
  unfold size_per_header. apply u64_id. lia.
Qed.

Lemma pow_16 l : 4 <= l → (16 | 2 ^ l).
Proof. intros. change 16 with (2 ^ 4). apply pow_divide. lia. Qed.

Lemma divide_4_16 a : (16 | a) → (4 | a).
Proof. intros [k ->]. exists (4 * k). lia. Qed.

Lemma slot_inside x l w : (16 | x) → (16 | 2 ^ l) → in_block (x + 16) (2 ^ l - 16) w → x < slot_of w < x + 2 ^ l.
Proof. intros [k ->] [j ->] [H1 H2]. unfold slot_of. pose proof (Z.div_mod w 4 ltac:(lia)). pose proof (Z.mod_pos_bound w 4 ltac:(lia)). lia. Qed.

Lemma block_16 b V x l : allocated n b V → V !! x = Some l → (16 | x) ∧ (16 | 2 ^ l).
Proof.
  intros Ha Hl. destruct (allocated_blocks _ _ _ _ _ Ha Hl) as (_ & _ & Hd & _).
  assert (Hl4 : 4 <= l) by (destruct Ha as (B & Hb & _ & _ & HV); apply HV in Hl as [Hl _]; apply (ti_block _ _ (ho_tiling _ _ _ Hb) _ _ _ Hl)).
  pose proof (pow_16 l Hl4). split; [by etrans|done].
Qed.

Lemma slot_owned b V v l w : allocated n b V → V !! (v - 16) = Some l → in_block v (2 ^ l - 16) w → v - 16 < slot_of w < v - 16 + 2 ^ l.
Proof.
  intros Ha Hl Hw. destruct (block_16 b V _ l Ha Hl). apply slot_inside; [done|done|]. by replace (v - 16 + 16) with v by lia.
Qed.

Lemma spared_same V V' U r b : allocated n r.1 V → V' ⊆ V → payload V' U → unchanged V' (b_mem r.1) (b_mem b) → same_edges U r (buddy_step r b).
Proof.
  intros Ha Hsub HU Hun v c w Hv Hw. apply HU in Hv as (l & Hl & ->). simpl. unfold spared.
  pose proof (slot_owned r.1 V v l w Ha (lookup_weaken _ _ _ _ Hl Hsub) Hw) as Hs. rewrite map_lookup_filter.
  destruct (r.2 !! w) as [x|]; simpl; [|done]. by rewrite option_guard_True by (by eapply Hun).
Qed.

#[export] Program Instance buddy_ok : MallocOk buddy_interface := {|
  r_ok r U := ∃ V, allocated n r.1 V ∧ payload V U;
  r_size := region_size;
  r_threads := n
|}.
Next Obligation.
  intros r. destruct (init_ok (b_mem r.1) garbage n) as (b & E & Ha); [lia|done|]. simpl. rewrite E. cbn [mbind outcome_bind].
  eexists. split; [done|]. exists ∅. split; [done|]. intros v c. rewrite lookup_empty. split; [done|]. by intros (l & ? & _).
Qed.
Next Obligation. simpl. lia. Qed.
Next Obligation.
  intros r U v c (V & Ha & HU) Hv. apply HU in Hv as (l & Hl & ->). destruct (allocated_blocks _ _ _ _ _ Ha Hl) as (H0 & H1 & H2 & H3).
  destruct (block_16 r.1 V _ l Ha Hl) as [H16x H16]. split_and!; [lia|lia| | |].
  - replace v with (v - 16 + 16) by lia. apply divide_4_16, Z.divide_add_r; [done|apply Z.divide_refl].
  - apply divide_4_16, Z.divide_sub_r; [done|apply Z.divide_refl].
  - intros v' c' (k & Hk & ->)%HU Hne. destruct (H3 _ _ Hk) as [?|?]; lia.
Qed.
Next Obligation.
  intros size Hs. destruct (sz_to_blksz_ok size Hs) as (l & El & Hl & Hsl & E & Hm). pose proof (Z.pow_le_mono_r 2 l 30). exists (2 ^ l - 16). unfold max_request in *.
  split_and!; [done|lia|lia|apply divide_4_16, Z.divide_sub_r; [apply pow_16; lia|apply Z.divide_refl]|].
  intros size' Hs'. destruct (sz_to_blksz_ok size') as (l' & El' & Hl' & Hsl' & E' & Hm'); [unfold max_request; lia|]. simpl. rewrite E'. do 3 f_equal.
  assert (Hge : l <= l') by (apply Z.le_ngt; intros Hlt; destruct Hm as [->|Hm]; [lia|]; pose proof (Z.pow_le_mono_r 2 l' (l - 1)); lia).
  assert (Hle : l' <= l) by (apply Z.le_ngt; intros Hlt; destruct Hm' as [->|Hm']; [lia|]; pose proof (Z.pow_le_mono_r 2 l (l' - 1)); lia). lia.
Qed.
Next Obligation.
  intros r U size tid c (V & Ha & HU) Hs Ht Ec. destruct (sz_to_blksz_ok size Hs) as (l & El & Hl & Hsl & E & _). simpl in Ec. rewrite E in Ec. injection Ec as <-.
  destruct (malloc_ok n r.1 V size tid Ha) as (l' & El' & _ & _ & Hc); [lia|unfold max_request in Hs; lia|done|]. rewrite El in El'. injection El' as <-. simpl.
  destruct Hc as [(x & b & -> & [Hx Ha'] & Hun)|[-> _]]; [left|by right]. cbn [mbind outcome_bind]. exists (x + 16), (buddy_step r b). split_and!; [done| | |].
  - destruct (U !! (x + 16)) as [c|] eqn:Eu; [|done]. apply HU in Eu as (k & Hk & _). replace (x + 16 - 16) with x in Hk by lia. congruence.
  - exists (<[x := l]> V). split; [done|]. intros v c. destruct (decide (v = x + 16)) as [->|Hne].
    + replace (x + 16 - 16) with x by lia. rewrite !lookup_insert_eq. naive_solver.
    + rewrite !lookup_insert_ne by lia. apply HU.
  - by apply (spared_same V V).
Qed.
Next Obligation.
  intros r U v c (V & Ha & HU) Hv. apply HU in Hv as (l & Hl & ->). destruct (free_ok n r.1 V _ l Ha Hl) as (b & E & Ha' & Hun). simpl.
  replace (v - 16 + 16) with v in E by lia. rewrite E. cbn [mbind outcome_bind]. eexists. split; [done|].
  assert (HU' : payload (delete (v - 16) V) (delete v U)).
  { intros v' c'. rewrite lookup_delete_Some, (HU v' c'). setoid_rewrite lookup_delete_Some. split.
    - intros (? & k & ? & ?). exists k. split_and!; [lia|done|done].
    - intros (k & [? ?] & ?). split; [intros ->; lia|]. by exists k. }
  split; [by exists (delete (v - 16) V)|]. apply (spared_same V (delete (v - 16) V)); [done|apply delete_subseteq|done|done].
Qed.
Next Obligation.
  intros r U v c w x (V & Ha & HU) Hv Hw. simpl. split_and!.
  - exists V. split; [|done]. apply HU in Hv as (l & Hl & ->). apply allocated_write; [done|]. intros i Hi. exists (v - 16), l. split; [done|].
    destruct (decide (i = slot_of w)) as [->|]; [|by rewrite lookup_delete_ne in Hi]. by eapply slot_owned.
  - by rewrite lookup_insert_eq.
  - intros w' Hne. by rewrite lookup_insert_ne.
Qed.
End buddy.
