(* ===== verification/Dynamic.v ===== *)
(** The dynamic store ([core/gstore.hpp] built with [DYNAMIC_GSTORE]): triples are
    inserted one by one, and the edges of a vertex move to a larger block when theirs is
    full.

    The last edge of a block holds the size flag by which a reader with a cached pointer
    sees that the edges have changed; a block that was moved is freed when the lease of
    such pointers has ended. The clock gives its readings one after the other. A
    function under the lock of its bucket is one step. *)

From S2P Require Import Prelude Types MyMath Keys HashTable Region.
Local Open Scope Z_scope.

(** [lease]: [SEC(120)] *)
Definition lease : Z := 120 * 1000 * 1000.

(** a block deferred to be freed *)
Record free_blk := MkFreeBlk { fb_off : Z; fb_expire : Z }.

Record dstore `{Malloc_Interface} := DStore {
  d_hdr : htable;               (* the header region *)
  d_region : region;            (* the entry region with its allocator *)
  free_queue : list free_blk;
  d_reads : nat                 (* how often the clock has been read *)
}.

Section dynamic.
  Context `{Config, Clock, Malloc_Interface}.

Definition set_hdr (d : dstore) (h : htable) : dstore := DStore _ h (d_region d) (free_queue d) (d_reads d).
Definition set_region (d : dstore) (r : region) : dstore := DStore _ (d_hdr d) r (free_queue d) (d_reads d).

(** ** Blocks of edges *)

Definition b2e (sz : Z) : Z := sz / 4.
Definition e2b (sz : Z) : Z := u64 (sz * 4).
Definition blksz (sz : Z) : outcome Z := c ← r_sz_to_blksz (e2b sz); Ok (b2e c).

(** flag indicates invalidate edges *)
Definition INVALID_EDGES : Z := Z.shiftl 1 28.

Definition insert_sz (r : region) (flag sz off : Z) : outcome region :=
  blk_sz ← blksz (sz + 1);
  Ok (r_store r (u64 (off + blk_sz - 1)) (u32 flag)).

(** *** Deferred frees *)

Definition add_pending_free (d : dstore) (ptr : iptr_t) : dstore :=
  DStore _ (d_hdr d) (d_region d) (free_queue d ++ [MkFreeBlk (p_off ptr) (u64 (usec (d_reads d) + lease))]) (S (d_reads d)).

Fixpoint sweep_loop (q : list free_blk) (reads : nat) (r : region) : outcome (list free_blk * nat * region) :=
  match q with
  | [] => Ok ([], reads, r)
  | blk :: q' =>
      if usec reads <? fb_expire blk then Ok (q, S reads, r)
      else r ← r_free r (e2b (fb_off blk)); sweep_loop q' (S reads) r
  end.
Definition sweep_free (d : dstore) : outcome dstore :=
  '(q, reads, r) ← sweep_loop (free_queue d) (d_reads d) (d_region d);
  Ok (DStore _ (d_hdr d) r q reads).

Definition alloc_edges (d : dstore) (n tid : Z) : outcome (Z * dstore) :=
  d ← (if global_enable_caching then sweep_free d else Ok d); (* collect free space before allocate *)
  '(v, r) ← r_malloc (d_region d) (e2b (n + 1)) tid; (* reserve one space for sz *)
  let off := b2e v in
  r ← insert_sz r n n off;
  Ok (off, set_region d r).

(** *** Insertion *)

(** the loop of [is_dup] over the edges that are left *)
Fixpoint dup_loop (n : nat) (r : region) (off value : Z) : outcome bool :=
  match n with
  | O => Ok false
  | S n => x ← r_load r off; if x =? value then Ok true else dup_loop n r (off + 1) value
  end.
Definition is_dup (r : region) (ptr : iptr_t) (value : Z) : outcome bool := dup_loop (Z.to_nat (p_size ptr)) r (p_off ptr) value.

(** [memcpy] of [n] edges *)
Fixpoint copy_edges (n : nat) (r : region) (dst src : Z) : outcome region :=
  match n with
  | O => Ok r
  | S n => x ← r_load r src; copy_edges n (r_store r dst x) (dst + 1) (src + 1)
  end.

Definition write_vertex_ptr (d : dstore) (slot : nat) (ptr : iptr_t) : outcome dstore :=
  vs ← write_ptr (vertices (d_hdr d)) slot ptr; Ok (set_hdr d (set_vertices (d_hdr d) vs)).

(** The three ways in which [insert_vertex_edge] ends; the results are its return value
    and [dedup_or_isdup]. *)

(** the first edge of the vertex *)
Definition first_edge (d : dstore) (slot : nat) (value : sid_t) : outcome (bool * bool * dstore) :=
  '(off, d) ← alloc_edges d 1 (-1);
  let d := set_region d (r_store (d_region d) off value) in
  ptr ← mk_iptr 1 off 0;
  d ← write_vertex_ptr d slot ptr;
  Ok (true, false, d).

(** a new block is needed *)
Definition move_edges (d : dstore) (slot : nat) (old_ptr : iptr_t) (value : sid_t) : outcome (bool * bool * dstore) :=
  let need_size := p_size old_ptr + 1 in
  '(off, d) ← alloc_edges d need_size (-1);
  r ← copy_edges (Z.to_nat (p_size old_ptr)) (d_region d) off (p_off old_ptr);
  let r := r_store r (off + p_size old_ptr) value in
  r ← insert_sz r INVALID_EDGES (p_size old_ptr) (p_off old_ptr); (* invalidate the old block *)
  ptr ← mk_iptr need_size off 0;
  d ← write_vertex_ptr (set_region d r) slot ptr;
  if global_enable_caching then Ok (false, false, add_pending_free d old_ptr)
  else r ← r_free (d_region d) (e2b (p_off old_ptr)); Ok (false, false, set_region d r).

(** the block has room; the size is a bit field of 28 bits *)
Definition grow_in_place (d : dstore) (slot : nat) (old_ptr : iptr_t) (value : sid_t) : outcome (bool * bool * dstore) :=
  let need_size := p_size old_ptr + 1 in
  r ← insert_sz (d_region d) need_size need_size (p_off old_ptr); (* update size flag *)
  let r := r_store r (p_off old_ptr + p_size old_ptr) value in
  d ← write_vertex_ptr (set_region d r) slot (IPtr (need_size mod 2 ^ 28) (p_off old_ptr) (p_type old_ptr));
  Ok (false, false, d).

Definition insert_vertex_edge (d : dstore) (key : ikey_t) (value : sid_t) (dedup_or_isdup : bool) : outcome (bool * bool * dstore) :=
  '(slot, h) ← insert_key (d_hdr d) key false;
  let d := set_hdr d h in
  v ← read (vertices h) slot;
  if p_size (v_ptr v) =? 0 then first_edge d slot value
  else
    dup ← (if dedup_or_isdup then is_dup (d_region d) (v_ptr v) value else Ok false);
    if dup : bool then Ok (false, true, d)
    else
      blk_sz ← blksz (p_size (v_ptr v) + 1);
      if u64 (blk_sz - 1) <? p_size (v_ptr v) + 1 then move_edges d slot (v_ptr v) value
      else grow_in_place d slot (v_ptr v) value.

(** ** Triples *)

(** [if (insert_vertex_edge(key, value, nodup) && !check_key_exist(buddy_key)) rest]: the
    first edge of the key, whose buddy does not exist *)
Definition insert_first (d : dstore) (key buddy_key : ikey_t) (value : sid_t) (rest : dstore → outcome dstore) : outcome dstore :=
  '(fresh, _, d) ← insert_vertex_edge d key value false;
  if fresh : bool then
    exist ← check_key_exist (d_hdr d) buddy_key;
    if exist : bool then Ok d else rest d
  else Ok d.

(** an insertion whose results are not used *)
Definition insert_edge (d : dstore) (vid pid : sid_t) (dir : dir_t) (value : sid_t) : outcome dstore :=
  key ← mk_ikey vid pid dir;
  '(_, _, d) ← insert_vertex_edge d key value false;
  Ok d.

  Context (versatile : bool).

Definition insert_triple_out (d : dstore) (t : triple_t) (check_dup : bool) : outcome dstore :=
  if tr_p t =? TYPE_ID then
    key ← mk_ikey (tr_s t) (tr_p t) OUT;
    '(fresh, isdup, d) ← insert_vertex_edge d key (tr_o t) true; (* <1> vid's type *)
    d ← (if fresh && versatile then
           key ← mk_ikey (tr_s t) PREDICATE_ID OUT;
           buddy_key ← mk_ikey (tr_s t) PREDICATE_ID IN;
           insert_first d key buddy_key (tr_p t) (* <2> vid's predicate, value is TYPE_ID *)
             (λ d, insert_edge d 0 TYPE_ID IN (tr_s t)) (* <3> the index to vid *)
         else Ok d);
    if isdup : bool then Ok d
    else
      key ← mk_ikey 0 (tr_o t) IN;
      '(fresh, _, d) ← insert_vertex_edge d key (tr_s t) false; (* <4> type-index *)
      if fresh && versatile then insert_edge d 0 TYPE_ID OUT (tr_o t) (* <5> index to this type *)
      else Ok d
  else
    key ← mk_ikey (tr_s t) (tr_p t) OUT;
    '(fresh, _, d) ← insert_vertex_edge d key (tr_o t) check_dup; (* <6> vid's ngbrs w/ predicate *)
    if fresh : bool then
      key ← mk_ikey 0 (tr_p t) IN;
      buddy_key ← mk_ikey 0 (tr_p t) OUT;
      d ← insert_first d key buddy_key (tr_s t) (* <7> predicate-index *)
            (λ d, if versatile then insert_edge d 0 PREDICATE_ID OUT (tr_p t) else Ok d); (* <8> the index to predicate *)
      if versatile then
        key ← mk_ikey (tr_s t) PREDICATE_ID OUT;
        buddy_key ← mk_ikey (tr_s t) PREDICATE_ID IN;
        insert_first d key buddy_key (tr_p t) (* <9> vid's predicate *)
          (λ d, insert_edge d 0 TYPE_ID IN (tr_s t)) (* <10> the index to vid *)
      else Ok d
    else Ok d.

Definition insert_triple_in (d : dstore) (t : triple_t) (check_dup : bool) : outcome dstore :=
  if tr_p t =? TYPE_ID then Ok d (* skipped *)
  else
    key ← mk_ikey (tr_o t) (tr_p t) IN;
    '(fresh, _, d) ← insert_vertex_edge d key (tr_s t) check_dup; (* <1> vid's ngbrs w/ predicate *)
    if fresh : bool then
      key ← mk_ikey 0 (tr_p t) OUT;
      buddy_key ← mk_ikey 0 (tr_p t) IN;
      d ← insert_first d key buddy_key (tr_o t) (* <2> predicate-index *)
            (λ d, if versatile then insert_edge d 0 PREDICATE_ID OUT (tr_p t) else Ok d); (* <3> the index to predicate *)
      if versatile then
        key ← mk_ikey (tr_o t) PREDICATE_ID IN;
        buddy_key ← mk_ikey (tr_o t) PREDICATE_ID OUT;
        insert_first d key buddy_key (tr_p t) (* <4> vid's predicate *)
          (λ d, insert_edge d 0 TYPE_ID IN (tr_o t)) (* <5> the index to vid *)
      else Ok d
    else Ok d.

(** ** The store *)

(** [num_entries] edges in the entry region *)
Definition refresh (d : dstore) (num_entries : Z) : outcome dstore :=
  r ← r_init (d_region d) (u64 (num_entries * 4)) global_num_engines;
  Ok (DStore _ (refresh_header (d_hdr d)) r (free_queue d) (d_reads d)).

(** the edges at [off] *)
Definition read_edges (r : region) (off : Z) (n : nat) : outcome (list sid_t) := mapM (λ i, r_load r (off + Z.of_nat i)) (seq 0 n).

Definition get_edges_local (d : dstore) (vid : sid_t) (dir : dir_t) (pid : sid_t) : outcome (list sid_t) :=
  key ← mk_ikey vid pid dir;
  v ← get_vertex_local (d_hdr d) key;
  if Keys.is_empty (v_key v) then Ok []
  else read_edges (d_region d) (p_off (v_ptr v)) (Z.to_nat (p_size (v_ptr v))).
End dynamic.
