(* ===== verification/DynamicOk.v ===== *)
(** The dynamic store is a finite map from keys to edge lists: [insert_vertex_edge] of
    [core/gstore.hpp] appends an edge to the list of its key, whatever blocks are moved
    and freed for it, with every allocator that meets the interface of [Region]. *)

From S2P Require Import Prelude Types MyMath Keys HashTable Region Dynamic.
Local Open Scope Z_scope.

(** the edge lists whose blocks the allocator can measure *)
Definition max_edges : Z := 2 ^ 28 - 5.

(** the pointers of the keys and the edges under them *)
Abbreviation entries := (gmap ikey_t (iptr_t * list sid_t)).

Section dynamic.
  Context `{Config, Clock, M : Malloc_Interface, !MallocOk M}.

(** ** The invariant *)

(** the size flag of a block of capacity [c] *)
Definition flag_at (off c : Z) : Z := off + c / 4 - 1.

(** the edges [vals] under the pointer [p] *)
Record entry_ok (r : region) (U : gmap Z Z) (p : iptr_t) (vals : list sid_t) : Prop := {
  en_size : p_size p = Z.of_nat (length vals);
  en_some : vals ≠ [];
  en_block : ∃ c, r_sz_to_blksz (4 * (p_size p + 1)) = Ok c ∧ U !! (4 * p_off p) = Some c ∧ r_load r (flag_at (p_off p) c) = Ok (p_size p);
  en_fits : p_size p <= max_edges;
  en_vals i x : vals !! i = Some x → r_load r (p_off p + Z.of_nat i) = Ok x
}.

(** a block that waits to be freed *)
Definition pending_ok (r : region) (U : gmap Z Z) (b : free_blk) : Prop :=
  ∃ c, U !! (4 * fb_off b) = Some c ∧ 8 <= c ∧ r_load r (flag_at (fb_off b) c) = Ok INVALID_EDGES.

(** nobody uses the block at [off] *)
Definition unowned (E : entries) (q : list free_blk) (off : Z) : Prop :=
  (∀ k e, E !! k = Some e → p_off e.1 ≠ off) ∧ ∀ b, b ∈ q → fb_off b ≠ off.

(** [m] are the slots of the keys, [U] the blocks, [E] the pointers with their edges *)
Record dyn_ok (d : dstore) (m : gmap ikey_t nat) (U : gmap Z Z) (E : entries) : Prop := {
  dy_hdr : ht_rep (d_hdr d) m;
  dy_region : r_ok (d_region d) U;
  dy_ptr k s e : m !! k = Some s → E !! k = Some e → ptr_at (vertices (d_hdr d)) s = Some e.1;
  dy_blank s p : ptr_at (vertices (d_hdr d)) s = Some p → (∀ k, m !! k = Some s → E !! k = None) → p_size p = 0;
  dy_dom k : is_Some (E !! k) → is_Some (m !! k);
  dy_entry k p vals : E !! k = Some (p, vals) → entry_ok (d_region d) U p vals;
  dy_apart k k' e e' : E !! k = Some e → E !! k' = Some e' → p_off e.1 = p_off e'.1 → k = k';
  dy_queue b : b ∈ free_queue d → pending_ok (d_region d) U b;
  dy_once : NoDup (fb_off <$> free_queue d);
  dy_queue_apart b k e : b ∈ free_queue d → E !! k = Some e → p_off e.1 ≠ fb_off b
}.

(** ** Pointers of the past *)

(** the clock does not go back *)
Record clock_ok : Prop := {
  ck_mono i j : (i <= j)%nat → usec i <= usec j;
  ck_range i : 0 <= usec i < 2 ^ 63
}.

(** What becomes of a pointer with caching: it stays, its list grows in the block, or its
    block waits in the queue for the lease from now on; after that it may be freed. *)
Record evolves (d : dstore) (U : gmap Z Z) (E : entries) (d' : dstore) (U' : gmap Z Z) (E' : entries) : Prop := {
  ev_reads : (d_reads d <= d_reads d')%nat;
  ev_entry k p vals : E !! k = Some (p, vals) → ∃ p' vals', E' !! k = Some (p', vals') ∧ p_size p <= p_size p' ∧
    (U' !! (4 * p_off p) = U !! (4 * p_off p) ∧
       (p' = p ∨ p_off p' = p_off p ∧ p_size p < p_size p' ∨ ∃ b, b ∈ free_queue d' ∧ fb_off b = p_off p ∧ usec (d_reads d) + lease <= fb_expire b) ∨
     usec (d_reads d) + lease <= usec (d_reads d'));
  ev_queue b : b ∈ free_queue d → b ∈ free_queue d' ∧ U' !! (4 * fb_off b) = U !! (4 * fb_off b) ∨ fb_expire b <= usec (d_reads d')
}.

Lemma evolves_same d U E d' U' : (d_reads d <= d_reads d')%nat → (∀ b, b ∈ free_queue d → b ∈ free_queue d' ∧ U' !! (4 * fb_off b) = U !! (4 * fb_off b)) →
  (∀ k e, E !! k = Some e → U' !! (4 * p_off e.1) = U !! (4 * p_off e.1)) → evolves d U E d' U' E.
Proof. intros Hr Hq HE. split; [done| |by left; apply Hq]. intros k p vals Hk. exists p, vals. split_and!; [done|lia|]. left. split; [by apply (HE k (p, vals))|by left]. Qed.

Lemma evolves_trans d U E d1 U1 E1 d2 U2 E2 : clock_ok → evolves d U E d1 U1 E1 → evolves d1 U1 E1 d2 U2 E2 → evolves d U E d2 U2 E2.
Proof.
  intros Hck [R1 H1 Q1] [R2 H2 Q2]. pose proof (ck_mono Hck _ _ R1). pose proof (ck_mono Hck _ _ R2).
  assert (Hq : ∀ b, b ∈ free_queue d1 → b ∈ free_queue d2 ∧ U2 !! (4 * fb_off b) = U1 !! (4 * fb_off b) ∨ fb_expire b <= usec (d_reads d2)) by (intros b Hb; by apply Q2).
  split; [lia| |].
  - intros k p vals Hk. destruct (H1 k p vals Hk) as (p1 & vals1 & Hk1 & Hz1 & Hc1). destruct (H2 k p1 vals1 Hk1) as (p2 & vals2 & Hk2 & Hz2 & Hc2).
    exists p2, vals2. split_and!; [done|lia|]. destruct Hc1 as [[Hu1 Hc1]|?]; [|right; lia]. destruct Hc1 as [->|[[Eo Hs]|(b & Hb & Eb & Hx)]].
    + destruct Hc2 as [[Hu2 Hc2]|?]; [|right; lia]. left. split; [by rewrite Hu2, Hu1|]. destruct Hc2 as [->|[?|(b & ? & ? & ?)]]; [by left|by right; left|].
      right. right. exists b. split_and!; [done|done|lia].
    + destruct Hc2 as [[Hu2 Hc2]|?]; [|right; lia]. left. rewrite <-Eo. split; [by rewrite Hu2, Eo, Hu1|]. destruct Hc2 as [->|[[Eo2 Hs2]|(b & ? & ? & ?)]].
      * right. left. by split.
      * right. left. split; [done|lia].
      * right. right. exists b. split_and!; [done|done|lia].
    + destruct (Hq b Hb) as [[Hb2 Hu2]|?]; [|right; lia]. left. rewrite Eb in Hu2. split; [by rewrite Hu2, Hu1|]. right. right. by exists b.
  - intros b Hb. destruct (Q1 b Hb) as [[Hb1 Hu1]|?]; [|right; lia]. destruct (Hq b Hb1) as [[? Hu2]|?]; [left; split; [done|congruence]|by right].
Qed.

(** ** Blocks *)

Lemma cap_ok n c : 0 <= n <= max_edges → r_sz_to_blksz (4 * (n + 1)) = Ok c → ∃ k, c = 4 * k ∧ n + 1 <= k < 2 ^ 28.
Proof.
  unfold max_edges. intros Hn E. destruct (rk_blksz (4 * (n + 1))) as (c' & E' & Hc & [k Hk] & _); [unfold max_request; lia|]. rewrite E in E'. injection E' as <-.
  unfold max_request in Hc. exists k. lia.
Qed.

Lemma blksz_ok n c : 0 <= n <= max_edges → r_sz_to_blksz (4 * (n + 1)) = Ok c → blksz (n + 1) = Ok (c / 4).
Proof. unfold max_edges. intros Hn E. unfold blksz, e2b. rewrite u64_id by lia. rewrite (Z.mul_comm (n + 1)), E. done. Qed.

Lemma cap_some n : 0 <= n <= max_edges → ∃ c, r_sz_to_blksz (4 * (n + 1)) = Ok c.
Proof. unfold max_edges. intros Hn. destruct (rk_blksz (4 * (n + 1))) as (c & E & _); [unfold max_request; lia|]. by exists c. Qed.

(** a block that has room for one more edge is also the block of the larger size *)
Lemma cap_grow n c : 0 <= n <= max_edges → r_sz_to_blksz (4 * (n + 1)) = Ok c → 4 * (n + 2) <= c →
  n + 1 <= max_edges ∧ r_sz_to_blksz (4 * (n + 1 + 1)) = Ok c.
Proof.
  unfold max_edges. intros Hn E Hc. destruct (rk_blksz (4 * (n + 1))) as (c' & E' & Hc' & _ & Hs); [unfold max_request; lia|]. rewrite E in E'. injection E' as <-.
  unfold max_request in *. split; [lia|]. apply Hs. lia.
Qed.

Lemma block_range r U off c : r_ok r U → U !! (4 * off) = Some c → 0 < c → 0 <= off < 2 ^ 34.
Proof. intros Hr Hu Hc. destruct (rk_block r U _ c Hr Hu) as (? & ? & _). pose proof rk_size. lia. Qed.

(** blocks at different offsets share no edge *)
Lemma blocks_apart r U off off' c c' w : r_ok r U → U !! (4 * off) = Some c → U !! (4 * off') = Some c' → off ≠ off' →
  in_block (4 * off) c w → ¬ in_block (4 * off') c' w.
Proof. intros Hr Hu Hu' Hne [? ?] [? ?]. destruct (rk_block r U _ c Hr Hu) as (_ & _ & _ & _ & Hd). destruct (Hd _ _ Hu'); lia. Qed.

Lemma entry_words r U p vals : entry_ok r U p vals → ∃ c, r_sz_to_blksz (4 * (p_size p + 1)) = Ok c ∧ U !! (4 * p_off p) = Some c ∧
  r_load r (flag_at (p_off p) c) = Ok (p_size p) ∧ (∃ k, c = 4 * k ∧ p_size p + 1 <= k < 2 ^ 28) ∧
  in_block (4 * p_off p) c (flag_at (p_off p) c) ∧ ∀ i, (i < length vals)%nat → in_block (4 * p_off p) c (p_off p + Z.of_nat i).
Proof.
  intros [Hs Hne (c & Ec & Hu & Hf) Hm Hv]. exists c. destruct (cap_ok (p_size p) c) as (k & -> & Hk); [lia|done|].
  unfold flag_at in *. rewrite (Z.mul_comm 4 k), Z.div_mul in * by lia. unfold in_block. split_and!; [done..| |lia|lia|].
  - exists k. lia.
  - intros i Hi. lia.
Qed.

(** an entry depends only on its block *)
Lemma entry_frame r r' U U' p vals : entry_ok r U p vals → U' !! (4 * p_off p) = U !! (4 * p_off p) →
  (∀ c w, U !! (4 * p_off p) = Some c → in_block (4 * p_off p) c w → r_load r' w = r_load r w) → entry_ok r' U' p vals.
Proof.
  intros He Hu Hw. destruct (entry_words r U p vals He) as (c & Ec & Hc & Hf & _ & Hbf & Hbv). destruct He as [Hs Hne _ Hm Hv]. split; try done.
  - exists c. rewrite Hu. by rewrite (Hw c).
  - intros i x Hx. rewrite (Hw c); [by apply Hv|done|]. apply Hbv. by eapply lookup_lt_Some.
Qed.

Lemma pending_frame r r' U U' b : r_ok r U → pending_ok r U b → U' !! (4 * fb_off b) = U !! (4 * fb_off b) →
  (∀ c w, U !! (4 * fb_off b) = Some c → in_block (4 * fb_off b) c w → r_load r' w = r_load r w) → pending_ok r' U' b.
Proof.
  intros Hr (c & Hc & H8 & Hf) Hu Hw. exists c. rewrite Hu. split_and!; [done..|]. rewrite (Hw c); [done|done|].
  destruct (rk_block r U _ c Hr Hc) as (_ & _ & _ & [k ->] & _). unfold flag_at, in_block. rewrite Z.div_mul by lia. lia.
Qed.

(** *** The effects of the operations on the invariant *)

(** the edges of an unused block change *)
Lemma dyn_scratch d m U E r off c : dyn_ok d m U E → U !! (4 * off) = Some c → unowned E (free_queue d) off →
  r_ok r U → (∀ w, ¬ in_block (4 * off) c w → r_load r w = r_load (d_region d) w) → dyn_ok (set_region d r) m U E.
Proof.
  intros Hd Hc [Hu1 Hu2] Hr Hw. pose proof (dy_region _ _ _ _ Hd) as Hr0. split; try apply Hd; [done| |]; simpl.
  - intros k p vals Hk. apply (entry_frame (d_region d) r U U); [by eapply dy_entry|done|]. intros c' w Hc' Hin. apply Hw.
    apply (blocks_apart (d_region d) U (p_off p) off c' c); try done. by apply (Hu1 _ _ Hk).
  - intros b Hb. apply (pending_frame (d_region d) r U U); [done|by eapply dy_queue|done|]. intros c' w Hc' Hin. apply Hw.
    apply (blocks_apart (d_region d) U (fb_off b) off c' c); try done. by apply Hu2.
Qed.

(** an unused block appears or goes *)
Lemma dyn_blocks d m U U' E r : dyn_ok d m U E → r_ok r U' →
  (∀ k e, E !! k = Some e → U' !! (4 * p_off e.1) = U !! (4 * p_off e.1)) → (∀ b, b ∈ free_queue d → U' !! (4 * fb_off b) = U !! (4 * fb_off b)) →
  (∀ v c w, U !! v = Some c → U' !! v = Some c → in_block v c w → r_load r w = r_load (d_region d) w) → dyn_ok (set_region d r) m U' E.
Proof.
  intros Hd Hr HuE Huq Hw. split; try apply Hd; [done| |]; simpl.
  - intros k p vals Hk. pose proof (HuE _ _ Hk) as Hu. simpl in Hu. apply (entry_frame (d_region d) r U U'); [by eapply dy_entry|done|].
    intros c w Hc. apply Hw; [done|congruence].
  - intros b Hb. pose proof (Huq _ Hb) as Hu. apply (pending_frame (d_region d) r U U'); [apply Hd|by eapply dy_queue|done|].
    intros c w Hc. apply Hw; [done|congruence].
Qed.

Lemma dyn_free d m U E off c : dyn_ok d m U E → U !! (4 * off) = Some c → unowned E (free_queue d) off →
  ∃ r, r_free (d_region d) (4 * off) = Ok r ∧ dyn_ok (set_region d r) m (delete (4 * off) U) E.
Proof.
  intros Hd Hc [Hu1 Hu2]. destruct (rk_free (d_region d) U _ c (dy_region _ _ _ _ Hd) Hc) as (r & -> & Hr & Hs). exists r. split; [done|].
  apply (dyn_blocks d m U); [done|done|..].
  - intros k e Hk. pose proof (Hu1 _ _ Hk). by rewrite lookup_delete_ne by lia.
  - intros b Hb. pose proof (Hu2 _ Hb). by rewrite lookup_delete_ne by lia.
  - intros v c' w _ Hv Hin. by eapply Hs.
Qed.

(** only the clock and the queue differ *)
Lemma dyn_queue d m U E q n : dyn_ok d m U E → (∀ b, b ∈ q → b ∈ free_queue d) → NoDup (fb_off <$> q) →
  dyn_ok (DStore _ (d_hdr d) (d_region d) q n) m U E.
Proof. intros Hd Hq Hn. split; try apply Hd; simpl; [|done|]; intros b; [intros Hb|intros k e Hb]; by (eapply dy_queue || eapply dy_queue_apart); eauto. Qed.

Lemma sweep_ok d m U E : dyn_ok d m U E →
  ∃ d' U', sweep_free d = Ok d' ∧ dyn_ok d' m U' E ∧ d_hdr d' = d_hdr d ∧ U' ⊆ U ∧ (∀ b, b ∈ free_queue d' → b ∈ free_queue d) ∧ (clock_ok → evolves d U E d' U' E).
Proof.
  unfold sweep_free. remember (free_queue d) as q eqn:Eq. revert d U Eq. induction q as [|b q IH]; intros d U Eq Hd; cbn [sweep_loop].
  - eexists _, U. split; [done|]. split_and!; try done; [apply dyn_queue; [done|set_solver|constructor]|].
    intros _. apply evolves_same; simpl; [lia|rewrite <-Eq; set_solver|done].
  - case_match.
    + eexists _, U. split; [done|]. split_and!; try done; [apply dyn_queue; [done|rewrite <-Eq; set_solver|rewrite Eq; apply Hd]|].
      intros _. apply evolves_same; simpl; [lia|by rewrite <-Eq|done].
    + destruct (dy_queue _ _ _ _ Hd b) as (c & Hc & _); [rewrite <-Eq; set_solver|]. pose proof (dy_once _ _ _ _ Hd) as Hnd. rewrite <-Eq in Hnd. apply NoDup_cons in Hnd as [Hb Hnd].
      destruct (block_range (d_region d) U (fb_off b) c) as [? ?]; [apply Hd|done| |].
      { destruct (dy_queue _ _ _ _ Hd b) as (c' & Hc' & ? & _); [rewrite <-Eq; set_solver|]. simplify_eq. lia. }
      unfold e2b. rewrite u64_id by lia. rewrite (Z.mul_comm _ 4).
      set (d1 := DStore _ (d_hdr d) (d_region d) q (S (d_reads d))).
      assert (Hd1 : dyn_ok d1 m U E) by (apply dyn_queue; [done|rewrite <-Eq; set_solver|done]).
      destruct (dyn_free d1 m U E (fb_off b) c) as (r & E1 & Hd2); [done|done| |].
      { split; [intros k e Hk; eapply (dy_queue_apart _ _ _ _ Hd); [rewrite <-Eq; set_solver|done]|]. simpl. intros b' Hb' E'. apply Hb. rewrite <-E'. by apply list_elem_of_fmap_2. }
      simpl in E1. rewrite E1. cbn [mbind outcome_bind].
      destruct (IH (set_region d1 r) (delete (4 * fb_off b) U) eq_refl Hd2) as (d' & U' & E' & Hd' & Eh & Hsub & Hq & Hev).
      exists d', U'. simpl in E'. rewrite E'. split_and!; [done|done|done|etrans; [exact Hsub|apply delete_subseteq]|set_solver|].
      intros Hck. eapply evolves_trans; [done| |by apply Hev]. split; simpl; [lia| |].
      * intros k p vals Hk. exists p, vals. split_and!; [done|lia|]. left. split; [|by left]. rewrite lookup_delete_ne; [done|].
        intros Eo. apply (dy_queue_apart _ _ _ _ Hd b k (p, vals)); [rewrite <-Eq; set_solver|done|simpl; lia].
      * intros b'. rewrite <-Eq. intros [->|Hb']%elem_of_cons.
        -- right. destruct Hck as [Hmono _]. specialize (Hmono (d_reads d) (S (d_reads d)) ltac:(lia)). lia.
        -- left. split; [done|]. rewrite lookup_delete_ne; [done|]. intros Eo. apply Hb. replace (fb_off b) with (fb_off b') by lia. by apply list_elem_of_fmap_2.
Qed.

(** a new block with its size flag *)
Record new_block (d : dstore) (U : gmap Z Z) (E : entries) (n off c : Z) : Prop := {
  nb_cap : r_sz_to_blksz (4 * (n + 1)) = Ok c;
  nb_block : U !! (4 * off) = Some c;
  nb_free : unowned E (free_queue d) off;
  nb_flag : r_load (d_region d) (flag_at off c) = Ok n
}.

(** the allocator has no block for [n] edges, when what can be freed is *)
Definition no_memory (d : dstore) (n tid : Z) : Prop :=
  ∃ d', (if global_enable_caching then sweep_free d else Ok d) = Ok d' ∧ r_malloc (d_region d') (4 * (n + 1)) tid = Err AssertFail.

Lemma insert_sz_ok r U flag n off c : r_ok r U → 0 <= n <= max_edges → r_sz_to_blksz (4 * (n + 1)) = Ok c → U !! (4 * off) = Some c → 0 <= flag < 2 ^ 32 →
  ∃ r', insert_sz r flag n off = Ok r' ∧ r_ok r' U ∧ r_load r' (flag_at off c) = Ok flag ∧ in_block (4 * off) c (flag_at off c) ∧
    ∀ w, w ≠ flag_at off c → r_load r' w = r_load r w.
Proof.
  intros Hr Hn Ec Hu Hf. destruct (cap_ok n c Hn Ec) as (k & -> & Hk). destruct (block_range r U off (4 * k)) as [? ?]; [done..|lia|].
  unfold insert_sz. rewrite (blksz_ok n (4 * k)) by done. cbn [mbind outcome_bind]. unfold flag_at. rewrite (Z.mul_comm 4 k), Z.div_mul in * by lia.
  rewrite u64_id, u32_id by lia. assert (Hin : in_block (4 * off) (k * 4) (off + k - 1)) by (unfold in_block; lia).
  destruct (rk_store r U (4 * off) (k * 4) (off + k - 1) flag Hr) as (? & ? & ?); [done|done|]. eexists. split; [done|]. done.
Qed.

Lemma alloc_edges_dyn d m U E n tid : dyn_ok d m U E → 1 <= n <= max_edges → tid < r_threads →
  (∃ off d' U' c, alloc_edges d n tid = Ok (off, d') ∧ dyn_ok d' m U' E ∧ d_hdr d' = d_hdr d ∧ new_block d' U' E n off c ∧
    (clock_ok → global_enable_caching = true → evolves d U E d' U' E)) ∨
  (alloc_edges d n tid = Err AssertFail ∧ no_memory d n tid).
Proof.
  intros Hd Hn Ht.
  assert (Hs : ∃ d' U', (if global_enable_caching then sweep_free d else Ok d) = Ok d' ∧ dyn_ok d' m U' E ∧ d_hdr d' = d_hdr d ∧ (clock_ok → global_enable_caching = true → evolves d U E d' U' E)).
  { destruct global_enable_caching; [|by exists d, U].
    destruct (sweep_ok d m U E Hd) as (d1 & U1 & ? & ? & ? & _ & _ & Hev). exists d1, U1. split_and!; try done. intros Hck _. by apply Hev. }
  destruct Hs as (d1 & U1 & E1 & Hd1 & Eh & Hev). unfold alloc_edges. rewrite E1. cbn [mbind outcome_bind].
  destruct (cap_some n) as [c Ec]; [lia|]. destruct (cap_ok n c) as (k & Hk & ?); [lia|done|].
  assert (Ee : e2b (n + 1) = 4 * (n + 1)) by (unfold e2b, max_edges in *; rewrite u64_id by lia; lia). rewrite Ee.
  destruct (rk_malloc (d_region d1) U1 (4 * (n + 1)) tid c) as [(v & r & -> & Hv & Hr & Hsame)|Em];
    [apply Hd1|unfold max_request, max_edges in *; lia|done|done| |right; rewrite Em; split; [done|by exists d1]]. left. cbn [mbind outcome_bind].
  destruct (rk_block r _ v c Hr) as (Hv0 & Hvr & [off ->] & _ & _); [apply lookup_insert_eq|]. unfold b2e. rewrite Z.div_mul by lia. rewrite (Z.mul_comm off 4) in *.
  set (U2 := <[4 * off := c]> U1) in *.
  assert (Hnew : unowned E (free_queue d1) off).
  { split.
    - intros k' [p vals] Hk' Ep. destruct (en_block _ _ _ _ (dy_entry _ _ _ _ Hd1 _ _ _ Hk')) as (c' & _ & Hc' & _). simpl in Ep. rewrite Ep in Hc'. congruence.
    - intros b Hb Ep. destruct (dy_queue _ _ _ _ Hd1 b Hb) as (c' & Hc' & _). rewrite Ep in Hc'. congruence. }
  assert (Hd2 : dyn_ok (set_region d1 r) m U2 E).
  { apply (dyn_blocks d1 m U1); [done|done|..].
    - intros k' e Hk'. unfold U2. destruct Hnew as [Hn1 _]. specialize (Hn1 _ _ Hk'). by rewrite lookup_insert_ne by lia.
    - intros b Hb. unfold U2. destruct Hnew as [_ Hn2]. specialize (Hn2 _ Hb). by rewrite lookup_insert_ne by lia.
    - intros v' c' w Hv' _ Hin. by eapply Hsame. }
  destruct (insert_sz_ok r U2 n n off c) as (r' & -> & Hr' & Hf & Hin & Hw); [done|lia|done|apply lookup_insert_eq|unfold max_edges in *; lia|]. cbn [mbind outcome_bind].
  exists off, (set_region d1 r'), U2, c. split; [done|]. split_and!.
  - apply (dyn_scratch (set_region d1 r) m U2 E r' off c); [done|apply lookup_insert_eq|done|done|]. intros w Hno. apply Hw. by intros ->.
  - done.
  - split; [done|apply lookup_insert_eq|done|done].
  - intros Hck Hca. eapply evolves_trans; [done|by apply Hev|]. destruct Hnew as [Hn1 Hn2]. apply evolves_same; simpl; [lia| |].
    + intros b Hb. pose proof (Hn2 b Hb). split; [done|]. unfold U2. by rewrite lookup_insert_ne by lia.
    + intros k' e Hk'. pose proof (Hn1 k' e Hk'). unfold U2. by rewrite lookup_insert_ne by lia.
Qed.

(** ** Inserting an edge *)

(** the blocks that the other keys and the queue use *)
Definition others (E : entries) (q : list free_blk) (k : ikey_t) (off : Z) : Prop :=
  (∃ k' e, E !! k' = Some e ∧ k' ≠ k ∧ off = p_off e.1) ∨ ∃ b, b ∈ q ∧ off = fb_off b.

(** a key gets new edges or moves to another block *)
Lemma dyn_update d m U E k s p vals r : dyn_ok d m U E → m !! k = Some s → r_ok r U → entry_ok r U p vals → ¬ others E (free_queue d) k (p_off p) →
  (∀ off c w, others E (free_queue d) k off → U !! (4 * off) = Some c → in_block (4 * off) c w → r_load r w = r_load (d_region d) w) →
  ∃ d', write_vertex_ptr (set_region d r) s p = Ok d' ∧ d_region d' = r ∧ (free_queue d' = free_queue d ∧ d_reads d' = d_reads d) ∧ dyn_ok d' m U (<[k := (p, vals)]> E).
Proof.
  intros Hd Hs Hr He Hno Hw. destruct (write_ptr_rep (d_hdr d) m k s p (dy_hdr _ _ _ _ Hd) Hs) as (vs & Ev & Hrep & Hp).
  unfold write_vertex_ptr. simpl. rewrite Ev. cbn [mbind outcome_bind]. eexists. split; [done|]. split_and!; [done..|].
  assert (Hpos : entry_ok r U p vals → p_size p ≠ 0) by (intros [-> Hne _ _ _]; destruct vals; simpl; [done|lia]).
  assert (Hslot : ∀ k', m !! k' = Some s → k' = k) by (intros k' Hk'; by apply (ht_rep_inj (d_hdr d) m k' k s (dy_hdr _ _ _ _ Hd))).
  split; simpl; [done|done|..|apply Hd|].
  - intros k' s' e Hk' He'. rewrite Hp. destruct (decide (k' = k)) as [->|Hne].
    + rewrite lookup_insert_eq in He'. simplify_eq. by rewrite decide_True.
    + rewrite lookup_insert_ne in He' by done. rewrite decide_False by (intros ->; by apply Hne, Hslot). by eapply dy_ptr.
  - intros s' p' Hp' Hb. rewrite Hp in Hp'. destruct (decide (s' = s)) as [->|Hne].
    + specialize (Hb k Hs). by rewrite lookup_insert_eq in Hb.
    + apply (dy_blank _ _ _ _ Hd s'); [done|]. intros k' Hk'. specialize (Hb k' Hk'). destruct (decide (k' = k)) as [->|]; [congruence|by rewrite lookup_insert_ne in Hb].
  - intros k' Hk'. destruct (decide (k' = k)) as [->|]; [by eexists|]. rewrite lookup_insert_ne in Hk' by done. by apply (dy_dom _ _ _ _ Hd).
  - intros k' p' vals'. destruct (decide (k' = k)) as [->|Hne]; [rewrite lookup_insert_eq; by intros [= <- <-]|rewrite lookup_insert_ne by done]. intros Hk'.
    apply (entry_frame (d_region d) r U U); [by eapply dy_entry|done|]. intros c w. apply Hw. left. by exists k', (p', vals').
  - assert (Hone : ∀ k' e', k' ≠ k → E !! k' = Some e' → p_off p ≠ p_off e'.1) by (intros k' e' Hne He' Ep; apply Hno; left; by exists k', e').
    intros k1 k2 e1 e2. destruct (decide (k1 = k)) as [->|H1], (decide (k2 = k)) as [->|H2]; rewrite ?lookup_insert_eq, ?(lookup_insert_ne _ k) by done; [done|..].
    + intros [= <-] He2 Ep. simpl in Ep. by destruct (Hone k2 e2).
    + intros He1 [= <-] Ep. simpl in Ep. by destruct (Hone k1 e1).
    + apply Hd.
  - intros b Hb. apply (pending_frame (d_region d) r U U); [apply Hd|by eapply dy_queue|done|]. intros c w. apply Hw. right. by exists b.
  - intros b k' e Hb. destruct (decide (k' = k)) as [->|Hne]; [rewrite lookup_insert_eq; intros [= <-] Ep|rewrite lookup_insert_ne by done; by apply Hd].
    apply Hno. right. by exists b.
Qed.

Lemma dyn_pend d m U E p c : dyn_ok d m U E → U !! (4 * p_off p) = Some c → 8 <= c → r_load (d_region d) (flag_at (p_off p) c) = Ok INVALID_EDGES →
  unowned E (free_queue d) (p_off p) → dyn_ok (add_pending_free d p) m U E.
Proof.
  intros Hd Hc H8 Hf [Hu1 Hu2]. unfold add_pending_free. set (b := MkFreeBlk _ _). split; try apply Hd; simpl.
  - intros b' [Hb'| ->%list_elem_of_singleton]%elem_of_app; [by eapply dy_queue|]. by exists c.
  - rewrite fmap_app. apply NoDup_app. split_and!; [apply Hd| |apply NoDup_singleton]. intros x (b' & -> & Hb')%list_elem_of_fmap Hx.
    apply list_elem_of_singleton in Hx. simpl in Hx. by apply (Hu2 b').
  - intros b' k e [Hb'| ->%list_elem_of_singleton]%elem_of_app; [by apply Hd|]. by apply Hu1.
Qed.

Lemma copy_ok vals r U off c src dst : r_ok r U → U !! (4 * off) = Some c →
  (∀ i x, vals !! i = Some x → r_load r (src + Z.of_nat i) = Ok x) → (∀ i, (i < length vals)%nat → in_block (4 * off) c (dst + Z.of_nat i)) →
  (∀ i j, (i < length vals)%nat → (j < length vals)%nat → src + Z.of_nat i ≠ dst + Z.of_nat j) →
  ∃ r', copy_edges (length vals) r dst src = Ok r' ∧ r_ok r' U ∧ (∀ i x, vals !! i = Some x → r_load r' (dst + Z.of_nat i) = Ok x) ∧
    ∀ w, (∀ i, (i < length vals)%nat → w ≠ dst + Z.of_nat i) → r_load r' w = r_load r w.
Proof.
  intros Hr Hc. revert r src dst Hr. induction vals as [|x vals IH]; intros r src dst Hr Hv Hin Hne; cbn [copy_edges length].
  - exists r. split_and!; [done|done|set_solver|done].
  - assert (E0 := Hv 0%nat x eq_refl). rewrite Z.add_0_r in E0. rewrite E0. cbn [mbind outcome_bind].
    assert (Hin0 := Hin 0%nat ltac:(simpl; lia)). rewrite Z.add_0_r in Hin0.
    destruct (rk_store r U _ c dst x Hr Hc Hin0) as (Hr1 & Hl & Hw).
    destruct (IH (r_store r dst x) (src + 1) (dst + 1)) as (r' & -> & Hr' & Hv' & Hw').
    + done.
    + intros i y Hy. rewrite Hw; [|specialize (Hne (S i) 0%nat); apply lookup_lt_Some in Hy; simpl in Hne; lia].
      replace (src + 1 + Z.of_nat i) with (src + Z.of_nat (S i)) by lia. by apply Hv.
    + intros i Hi. replace (dst + 1 + Z.of_nat i) with (dst + Z.of_nat (S i)) by lia. apply Hin. simpl. lia.
    + intros i j Hi Hj. specialize (Hne (S i) (S j)). simpl in Hne. lia.
    + exists r'. split_and!; [done|done| |].
      * intros [|i] y Hy; simpl in Hy; [simplify_eq; rewrite Z.add_0_r; rewrite Hw'; [done|lia]|].
        replace (dst + Z.of_nat (S i)) with (dst + 1 + Z.of_nat i) by lia. by apply Hv'.
      * intros w Hno. rewrite Hw'; [apply Hw; specialize (Hno 0%nat); simpl in Hno; lia|]. intros i Hi. specialize (Hno (S i)). simpl in Hno. lia.
Qed.

Lemma dup_loop_ok vals r off value : (∀ i x, vals !! i = Some x → r_load r (off + Z.of_nat i) = Ok x) →
  dup_loop (length vals) r off value = Ok (bool_decide (value ∈ vals)).
Proof.
  revert off. induction vals as [|x vals IH]; intros off Hv; cbn [dup_loop length]; [by rewrite bool_decide_false by set_solver|].
  assert (E0 := Hv 0%nat x eq_refl). rewrite Z.add_0_r in E0. rewrite E0. cbn [mbind outcome_bind].
  destruct (Z.eqb_spec x value) as [->|Hne]; [by rewrite bool_decide_true by set_solver|]. rewrite IH.
  - f_equal. apply bool_decide_ext. set_solver.
  - intros i y Hy. replace (off + 1 + Z.of_nat i) with (off + Z.of_nat (S i)) by lia. by apply Hv.
Qed.

Lemma key_ok d m U E key : dyn_ok d m U E → key ≠ empty_key →
  (∃ s h m', insert_key (d_hdr d) key false = Ok (s, h) ∧ dyn_ok (set_hdr d h) m' U E ∧ m' !! key = Some s ∧ dom m' = {[key]} ∪ dom m) ∨
  (insert_key (d_hdr d) key false = Err AssertFail ∧ last_ext (d_hdr d) = num_buckets_ext (d_hdr d)).
Proof.
  intros Hd Hne. pose proof (insert_key_cases (d_hdr d) m key false (dy_hdr _ _ _ _ Hd) Hne) as Hc.
  destruct (m !! key) as [s|] eqn:Em; [left|destruct Hc as [(s & h & E1 & Hpost)|?]; [left|by right]].
  - exists s, (d_hdr d), m. split_and!; [done|by destruct d|done|]. apply elem_of_dom_2 in Em. set_solver.
  - exists s, h, (<[key := s]> m). split_and!; [done| |apply lookup_insert_eq|apply dom_insert_L]. destruct Hpost as [Hrep _ _ _ _ Hptr].
    assert (HEk : E !! key = None).
    { destruct (E !! key) eqn:EE; [|done]. destruct (dy_dom _ _ _ _ Hd key) as [? ?]; [by eexists|congruence]. }
    split; simpl; try apply Hd; [done|..].
    + intros k s' e Hk He. rewrite Hptr. destruct (decide (k = key)) as [->|]; [congruence|]. rewrite lookup_insert_ne in Hk by done. by eapply dy_ptr.
    + intros s' p' Hp' Hb. rewrite Hptr in Hp'. apply (dy_blank _ _ _ _ Hd s'); [done|]. intros k Hk. apply Hb. rewrite lookup_insert_ne; [done|congruence].
    + intros k Hk. destruct (decide (k = key)) as [->|]; [by rewrite lookup_insert_eq|]. rewrite lookup_insert_ne by done. by apply (dy_dom _ _ _ _ Hd).
Qed.

(** *** The first edge *)

(** a new block holds the first edges *)
Lemma new_entry d m U E n off c r vals : dyn_ok d m U E → new_block d U E n off c → 1 <= n <= max_edges → n = Z.of_nat (length vals) →
  (∀ i x, vals !! i = Some x → r_load r (off + Z.of_nat i) = Ok x) → r_load r (flag_at off c) = r_load (d_region d) (flag_at off c) →
  entry_ok r U (IPtr n off 0) vals ∧ mk_iptr n off 0 = Ok (IPtr n off 0).
Proof.
  intros Hd [Hc Hb Hu Hf] Hn Hl Hv Hfl. destruct (cap_ok n c) as (k & -> & Hk); [lia|done|]. destruct (block_range _ _ off (4 * k) (dy_region _ _ _ _ Hd) Hb) as [? ?]; [lia|].
  split; [split; simpl; [done|by intros ->; simpl in Hl; lia| |lia|done]|].
  - exists (4 * k). by rewrite Hfl.
  - apply mk_iptr_Ok. unfold max_edges in *. split_and!; [done|lia..].
Qed.

Lemma first_edge_ok d m U E key s value : dyn_ok d m U E → m !! key = Some s → E !! key = None → 0 <= r_threads →
  (∃ d' U' p, first_edge d s value = Ok (true, false, d') ∧ dyn_ok d' m U' (<[key := (p, [value])]> E) ∧
    (clock_ok → global_enable_caching = true → evolves d U E d' U' (<[key := (p, [value])]> E))) ∨
  (first_edge d s value = Err AssertFail ∧ no_memory d 1 (-1)).
Proof.
  intros Hd Hs HE Ht. unfold first_edge.
  destruct (alloc_edges_dyn d m U E 1 (-1) Hd) as [(off & d1 & U1 & c & -> & Hd1 & Eh & Hnb & Hev)|[-> ?]]; [unfold max_edges; lia|lia| |by right].
  left. cbn [mbind outcome_bind]. pose proof Hnb as [Hc Hb Hu Hf]. destruct (cap_ok 1 c) as (k & -> & Hk); [unfold max_edges; lia|done|].
  assert (Hin : in_block (4 * off) (4 * k) off) by (unfold in_block; lia).
  destruct (rk_store (d_region d1) U1 _ _ off value (dy_region _ _ _ _ Hd1) Hb Hin) as (Hr & Hl & Hw).
  assert (Hfl : flag_at off (4 * k) ≠ off) by (unfold flag_at; rewrite Z.mul_comm, Z.div_mul; lia).
  destruct (new_entry d1 m U1 E 1 off (4 * k) (r_store (d_region d1) off value) [value]) as [He ->]; [done|done|unfold max_edges; lia|done| |by apply Hw|].
  { intros [|i] x Hx; simplify_eq/=. by rewrite Z.add_0_r. }
  cbn [mbind outcome_bind]. destruct Hu as [Hu1 Hu2].
  destruct (dyn_update d1 m U1 E key s (IPtr 1 off 0) [value] (r_store (d_region d1) off value)) as (d' & -> & _ & [Eq Er] & Hd'); try done.
  - intros [(k' & e & He' & _ & Eo)|(b & Hb' & Eo)]; simpl in Eo; [by eapply Hu1|by eapply Hu2].
  - intros off' c' w Ho Hc' Hin'. apply Hw. intros ->.
    assert (Hne : off' ≠ off) by (intros ->; destruct Ho as [(k' & e & He' & _ & Eo)|(b & Hb' & Eo)]; [by eapply Hu1|by eapply Hu2]).
    by apply (blocks_apart (d_region d1) U1 off' off c' (4 * k) off (dy_region _ _ _ _ Hd1) Hc' Hb Hne Hin').
  - cbn [mbind outcome_bind]. exists d', U1, (IPtr 1 off 0). split_and!; [done|done|]. intros Hck Hca. eapply evolves_trans; [done|by apply Hev|].
    split; [by rewrite Er| |by rewrite Eq; left]. intros k' p' vals' Hk'. exists p', vals'. rewrite lookup_insert_ne by congruence. split_and!; [done|lia|]. left. split; [done|by left].
Qed.

(** *** An edge in the same block *)

Lemma grow_in_place_ok d m U E key s p vals value c : dyn_ok d m U E → m !! key = Some s → E !! key = Some (p, vals) →
  r_sz_to_blksz (4 * (p_size p + 1)) = Ok c → 4 * (p_size p + 2) <= c →
  ∃ d' p', grow_in_place d s p value = Ok (false, false, d') ∧ dyn_ok d' m U (<[key := (p', vals ++ [value])]> E) ∧
    evolves d U E d' U (<[key := (p', vals ++ [value])]> E).
Proof.
  intros Hd Hs HE Ec Hc4. pose proof (dy_entry _ _ _ _ Hd _ _ _ HE) as He. destruct (entry_words _ _ _ _ He) as (c' & Ec' & Hb & Hf & (k & -> & Hk) & Hbf & Hbv).
  rewrite Ec in Ec'. injection Ec' as ->. destruct He as [Hsz Hne _ Hm Hv]. destruct (cap_grow (p_size p) (4 * k)) as [Hm1 Ec1]; [lia|done|lia|].
  unfold grow_in_place. destruct (insert_sz_ok (d_region d) U (p_size p + 1) (p_size p + 1) (p_off p) (4 * k)) as (r1 & -> & Hr1 & Hf1 & _ & Hw1);
    [apply Hd|lia|done|done|unfold max_edges in *; lia|]. cbn [mbind outcome_bind].
  assert (Hfl : flag_at (p_off p) (4 * k) = p_off p + k - 1) by (unfold flag_at; rewrite (Z.mul_comm 4), Z.div_mul; lia). rewrite Hfl in *.
  destruct (rk_store r1 U _ (4 * k) (p_off p + p_size p) value Hr1 Hb) as (Hr2 & Hl2 & Hw2); [unfold in_block; lia|].
  rewrite Z.mod_small by (unfold max_edges in *; lia). set (r2 := r_store r1 (p_off p + p_size p) value) in *.
  destruct (dyn_update d m U E key s (IPtr (p_size p + 1) (p_off p) (p_type p)) (vals ++ [value]) r2) as (d' & -> & _ & [Eq Er] & Hd'); [done..| | | |].
  - split; simpl; [rewrite length_app; simpl; lia|by destruct vals| |done|].
    + exists (4 * k). split_and!; [done|done|]. rewrite Hfl. rewrite Hw2 by lia. done.
    + intros i x [Hx|[Hx Hi]]%lookup_app_Some.
      * pose proof (lookup_lt_Some _ _ _ Hx). rewrite Hw2, Hw1 by lia. by apply Hv.
      * apply list_lookup_singleton_Some in Hi as [Hi <-]. replace (p_off p + Z.of_nat i) with (p_off p + p_size p) by lia. done.
  - intros [(k' & e & He' & Hk' & Eo)|(b & Hb' & Eo)]; simpl in Eo.
    + by apply Hk', (dy_apart _ _ _ _ Hd _ _ _ _ He' HE).
    + by apply (dy_queue_apart _ _ _ _ Hd b key _ Hb' HE).
  - intros off' c'' w Ho Hc' Hin'. assert (Hne' : off' ≠ p_off p).
    { intros ->. destruct Ho as [(k' & e & He' & Hk' & Eo)|(b & Hb' & Eo)]; [by apply Hk', (dy_apart _ _ _ _ Hd _ _ _ _ He' HE)|by apply (dy_queue_apart _ _ _ _ Hd b key _ Hb' HE)]. }
    pose proof (blocks_apart (d_region d) U off' (p_off p) c'' (4 * k) w (dy_region _ _ _ _ Hd) Hc' Hb Hne' Hin') as Hout. unfold in_block in Hout.
    rewrite Hw2, Hw1 by lia. done.
  - cbn [mbind outcome_bind]. eexists _, _. split_and!; [done|done|]. split; [by rewrite Er| |by rewrite Eq; left].
    intros k' p' vals' Hk'. destruct (decide (k' = key)) as [->|Hne'].
    + rewrite HE in Hk'. injection Hk' as <- <-. eexists _, _. rewrite lookup_insert_eq. split_and!; [done|simpl; lia|]. left. split; [done|]. right. left. simpl. split; [done|lia].
    + exists p', vals'. rewrite lookup_insert_ne by done. split_and!; [done|lia|]. left. split; [done|by left].
Qed.

(** *** A new block *)

Lemma move_edges_ok d m U E key s p vals value : dyn_ok d m U E → m !! key = Some s → E !! key = Some (p, vals) → p_size p < max_edges → 0 <= r_threads →
  (∃ d' U' p', move_edges d s p value = Ok (false, false, d') ∧ dyn_ok d' m U' (<[key := (p', vals ++ [value])]> E) ∧
    (clock_ok → global_enable_caching = true → evolves d U E d' U' (<[key := (p', vals ++ [value])]> E))) ∨
  (move_edges d s p value = Err AssertFail ∧ no_memory d (p_size p + 1) (-1)).
Proof.
  intros Hd Hs HE Hm1 Ht. unfold move_edges. pose proof (dy_entry _ _ _ _ Hd _ _ _ HE) as [Hsz0 Hne0 _ _ _].
  assert (Hpos : 1 <= p_size p) by (rewrite Hsz0; destruct vals; simpl; [done|lia]).
  destruct (alloc_edges_dyn d m U E (p_size p + 1) (-1) Hd) as [(off & d1 & U1 & c1 & -> & Hd1 & Eh & Hnb & Hev)|[-> ?]]; [lia|lia| |by right]. left. cbn [mbind outcome_bind].
  pose proof (dy_entry _ _ _ _ Hd1 _ _ _ HE) as He. destruct (entry_words _ _ _ _ He) as (c & Ec & Hb & Hf & (k & -> & Hk) & Hbf & Hbv).
  pose proof Hnb as [Hc1 Hb1 [Hu1 Hu2] Hf1]. destruct (cap_ok (p_size p + 1) c1) as (k1 & -> & Hk1); [lia|done|].
  destruct He as [Hsz Hne _ Hm Hv]. pose proof (dy_region _ _ _ _ Hd1) as Hr1.
  assert (Hoff : p_off p ≠ off) by (by apply (Hu1 _ _ HE)).
  assert (Hap : 4 * off + 4 * k1 <= 4 * p_off p ∨ 4 * p_off p + 4 * k <= 4 * off).
  { destruct (rk_block _ _ _ _ Hr1 Hb1) as (_ & _ & _ & _ & Hdis). destruct (Hdis _ _ Hb); lia. }
  assert (Hflag : ∀ o j, flag_at o (4 * j) = o + j - 1) by (intros; unfold flag_at; rewrite (Z.mul_comm 4), Z.div_mul; lia). rewrite !Hflag in *.
  destruct (copy_ok vals (d_region d1) U1 off (4 * k1) (p_off p) off Hr1 Hb1 Hv) as (r2 & Ecp & Hr2 & Hv2 & Hw2); [intros i Hi; unfold in_block; lia|intros; lia|].
  replace (Z.to_nat (p_size p)) with (length vals) by lia. rewrite Ecp. cbn [mbind outcome_bind].
  destruct (rk_store r2 U1 _ (4 * k1) (off + p_size p) value Hr2 Hb1) as (Hr3 & Hl3 & Hw3); [unfold in_block; lia|]. set (r3 := r_store r2 (off + p_size p) value) in *.
  destruct (insert_sz_ok r3 U1 INVALID_EDGES (p_size p) (p_off p) (4 * k)) as (r4 & -> & Hr4 & Hf4 & _ & Hw4); [done|lia|done|done|vm_compute; split; congruence|]. cbn [mbind outcome_bind].
  rewrite Hflag in *.
  assert (Hsame : ∀ w, ¬ in_block (4 * off) (4 * k1) w → w ≠ p_off p + k - 1 → r_load r4 w = r_load (d_region d1) w).
  { intros w Hno Hfl. unfold in_block in Hno. rewrite Hw4 by done. rewrite Hw3 by lia. apply Hw2. intros i Hi. lia. }
  assert (Hins : ∀ w, in_block (4 * off) (4 * k1) w → r_load r4 w = r_load r3 w) by (intros w [? ?]; apply Hw4; lia).
  destruct (new_entry d1 m U1 E (p_size p + 1) off (4 * k1) r4 (vals ++ [value])) as [He' ->]; [done|done|lia|rewrite length_app; simpl; lia| | |].
  { intros i x [Hx|[Hx Hi]]%lookup_app_Some.
    - pose proof (lookup_lt_Some _ _ _ Hx). rewrite Hins by (unfold in_block; lia). rewrite Hw3 by lia. by apply Hv2.
    - apply list_lookup_singleton_Some in Hi as [Hi <-]. replace (off + Z.of_nat i) with (off + p_size p) by lia. by rewrite Hins by (unfold in_block; lia). }
  { rewrite Hflag. rewrite Hins by (unfold in_block; lia). rewrite Hw3 by lia. apply Hw2. intros i Hi. lia. }
  cbn [mbind outcome_bind].
  destruct (dyn_update d1 m U1 E key s (IPtr (p_size p + 1) off 0) (vals ++ [value]) r4) as (d' & -> & Er & [Eq Ern] & Hd'); [done..| | |].
  { intros [(k' & e & He'' & _ & Eo)|(b & Hb' & Eo)]; simpl in Eo; [by eapply Hu1|by eapply Hu2]. }
  { intros off' c' w Ho Hc' Hin'.
    assert (Hn1 : off' ≠ off) by (intros ->; destruct Ho as [(k' & e & He'' & _ & Eo)|(b & Hb' & Eo)]; [by eapply Hu1|by eapply Hu2]).
    assert (Hn2 : off' ≠ p_off p).
    { intros ->. destruct Ho as [(k' & e & He'' & Hk' & Eo)|(b & Hb' & Eo)]; [by apply Hk', (dy_apart _ _ _ _ Hd1 _ _ _ _ He'' HE)|by apply (dy_queue_apart _ _ _ _ Hd1 b key _ Hb' HE)]. }
    apply Hsame; [by apply (blocks_apart (d_region d1) U1 off' off c' (4 * k1))|]. intros ->.
    by apply (blocks_apart (d_region d1) U1 off' (p_off p) c' (4 * k) _ Hr1 Hc' Hb Hn2 Hin'). }
  cbn [mbind outcome_bind].
  assert (Hold : unowned (<[key := (IPtr (p_size p + 1) off 0, vals ++ [value])]> E) (free_queue d') (p_off p)).
  { split.
    - intros k' e. destruct (decide (k' = key)) as [->|Hk']; [rewrite lookup_insert_eq; intros [= <-]; simpl; congruence|rewrite lookup_insert_ne by done].
      intros He'' Eo. by apply Hk', (dy_apart _ _ _ _ Hd1 _ _ _ _ He'' HE).
    - rewrite Eq. intros b Hb' Eo. by apply (dy_queue_apart _ _ _ _ Hd1 b key _ Hb' HE). }
  destruct global_enable_caching.
  - eexists _, U1, _. split; [done|]. split; [apply (dyn_pend _ _ _ _ _ (4 * k)); [done|done|lia| |done]; rewrite Er, Hflag; done|].
    intros Hck _. eapply evolves_trans; [done|by apply Hev|]. split; simpl; [rewrite Ern; lia| |rewrite Eq; left; split; [set_solver|done]].
    intros k' p' vals' Hk'. destruct (decide (k' = key)) as [->|Hne'].
    + rewrite HE in Hk'. injection Hk' as <- <-. eexists _, _. rewrite lookup_insert_eq. split_and!; [done|simpl; lia|]. left. split; [done|]. right. right.
      eexists. split; [apply elem_of_app; right; apply list_elem_of_singleton; done|]. split; [done|]. simpl. rewrite Ern. pose proof (ck_range Hck (d_reads d1)). rewrite u64_id; unfold lease; lia.
    + exists p', vals'. rewrite lookup_insert_ne by done. split_and!; [done|lia|]. left. split; [done|by left].
  - destruct (dyn_free d' m U1 _ (p_off p) (4 * k) Hd' Hb Hold) as (r5 & E5 & Hd5). destruct (block_range _ _ _ _ Hr1 Hb) as [? ?]; [lia|].
    unfold e2b. rewrite u64_id by lia. rewrite (Z.mul_comm (p_off p)), E5. cbn [mbind outcome_bind]. by eexists _, _, _.
Qed.

(** ** The map of the store *)

Definition dyn_rep (d : dstore) (kv : gmap ikey_t (list sid_t)) : Prop :=
  ∃ m U E, dyn_ok d m U E ∧ dom m = dom E ∧ kv = snd <$> E.

(** what stops an insertion: the indirect-header region or the entry region is full *)
Definition store_full (d : dstore) : Prop :=
  last_ext (d_hdr d) = num_buckets_ext (d_hdr d) ∨ ∃ h n, no_memory (set_hdr d h) n (-1).

Lemma insert_vertex_edge_core d m U E key value dedup : dyn_ok d m U E → dom m = dom E → key ≠ empty_key → 0 <= r_threads →
  let old := default [] (snd <$> E !! key) in
  let dup := dedup && bool_decide (value ∈ old) in
  Z.of_nat (length old) < max_edges →
  (∃ d' m' U' E', insert_vertex_edge d key value dedup = Ok (bool_decide (E !! key = None), dup, d') ∧ dyn_ok d' m' U' E' ∧ dom m' = dom E' ∧
     snd <$> E' = (if dup then snd <$> E else <[key := old ++ [value]]> (snd <$> E)) ∧ (clock_ok → global_enable_caching = true → evolves d U E d' U' E')) ∨
  (insert_vertex_edge d key value dedup = Err AssertFail ∧ store_full d).
Proof.
  intros Hd Hdom Hne Ht old dup Hlen. unfold insert_vertex_edge.
  destruct (key_ok d m U E key Hd Hne) as [(s & h & m' & -> & Hd1 & Hs & Hdm)|[-> Hx]]; [|by right; split; [|left]]. cbn [mbind outcome_bind].
  destruct (ht_rep_slot _ _ _ _ (dy_hdr _ _ _ _ Hd1) Hs) as (v & Hv & _). simpl in Hv. rewrite (proj2 (read_Ok _ _ _) Hv). cbn [mbind outcome_bind].
  assert (Hptr : ptr_at (vertices (d_hdr (set_hdr d h))) s = Some (v_ptr v)) by (unfold ptr_at; simpl; by rewrite Hv).
  assert (Hrep : ∀ p vals, dom m' = dom (<[key := (p, vals)]> E)) by (intros; rewrite Hdm, dom_insert_L, Hdom; done).
  assert (Hev0 : ∀ d' U' E', evolves (set_hdr d h) U E d' U' E' → evolves d U E d' U' E') by (intros d' U' E' []; split; done).
  subst dup old. destruct (E !! key) as [[p vals]|] eqn:EE; simpl in *.
  - pose proof (dy_ptr _ _ _ _ Hd1 _ _ _ Hs EE) as Hp. simpl in Hp. unfold ptr_at in Hp. rewrite Hv in Hp. simpl in Hp. injection Hp as ->.
    pose proof (dy_entry _ _ _ _ Hd1 _ _ _ EE) as He. pose proof He as [Hsz Hnil (c & Ec & Hb & _) Hm Hvals].
    rewrite (proj2 (Z.eqb_neq _ _)) by (rewrite Hsz; destruct vals; simpl; [done|lia]).
    assert (Hdup : (if dedup then is_dup (d_region d) p value else Ok false) = Ok (dedup && bool_decide (value ∈ vals))).
    { destruct dedup; [|done]. unfold is_dup. rewrite Hsz, Nat2Z.id. by apply dup_loop_ok. }
    rewrite Hdup. cbn [mbind outcome_bind]. destruct (dedup && bool_decide (value ∈ vals)).
    + left. exists (set_hdr d h), m', U, E. split_and!; [done|done| |done|]; [rewrite Hdm, Hdom; apply elem_of_dom_2 in EE; set_solver|].
      intros _ _. by apply evolves_same.
    + destruct (cap_ok (p_size p) c) as (k & -> & Hk); [lia|done|]. rewrite (blksz_ok (p_size p) (4 * k)) by (done || lia). cbn [mbind outcome_bind].
      rewrite (Z.mul_comm 4), Z.div_mul, u64_id by lia. destruct (Z.ltb_spec (k - 1) (p_size p + 1)) as [Hlt|Hge].
      * destruct (move_edges_ok (set_hdr d h) m' U E key s p vals value) as [(d' & U' & p' & -> & Hd' & Hev)|[-> ?]]; [done..|lia|done| |].
        -- left. eexists d', m', U', _. split_and!; [done|done|by apply Hrep|by rewrite fmap_insert|]. intros ? ?. by apply Hev0, Hev.
        -- right. split; [done|]. right. by exists h, (p_size p + 1).
      * destruct (grow_in_place_ok (set_hdr d h) m' U E key s p vals value (4 * k)) as (d' & p' & -> & Hd' & Hev); [done..|lia|].
        left. eexists d', m', U, _. split_and!; [done|done|by apply Hrep|by rewrite fmap_insert|]. intros ? ?. by apply Hev0.
  - rewrite (dy_blank _ _ _ _ Hd1 s (v_ptr v) Hptr); cycle 1.
    { intros k' Hk'. assert (k' = key) as -> by (by apply (ht_rep_inj _ _ k' key s (dy_hdr _ _ _ _ Hd1))). done. }
    rewrite andb_false_r. destruct (first_edge_ok (set_hdr d h) m' U E key s value Hd1 Hs EE Ht) as [(d' & U' & p' & E1 & Hd' & Hev)|[E1 ?]].
    + left. eexists d', m', U', _. split_and!; [exact E1|done|by apply Hrep|by rewrite fmap_insert|]. intros ? ?. by apply Hev0, Hev.
    + right. split; [exact E1|]. right. by exists h, 1.
Qed.

Lemma insert_vertex_edge_ok d kv key value dedup : dyn_rep d kv → key ≠ empty_key → 0 <= r_threads →
  let old := default [] (kv !! key) in
  let dup := dedup && bool_decide (value ∈ old) in
  Z.of_nat (length old) < max_edges →
  (∃ d', insert_vertex_edge d key value dedup = Ok (bool_decide (kv !! key = None), dup, d') ∧
     dyn_rep d' (if dup then kv else <[key := old ++ [value]]> kv)) ∨
  (insert_vertex_edge d key value dedup = Err AssertFail ∧ store_full d).
Proof.
  intros (m & U & E & Hd & Hdom & ->) Hne Ht. rewrite lookup_fmap. intros old dup Hlen.
  destruct (insert_vertex_edge_core d m U E key value dedup Hd Hdom Hne Ht Hlen) as [(d' & m' & U' & E' & E1 & Hd' & Hdom' & Ekv & _)|?]; [left|by right].
  exists d'. split; [rewrite E1; do 3 f_equal; apply bool_decide_ext; by destruct (E !! key)|]. exists m', U', E'. split_and!; [done|done|by symmetry].
Qed.

Lemma read_edges_ok vals r off : (∀ i x, vals !! i = Some x → r_load r (off + Z.of_nat i) = Ok x) → read_edges r off (length vals) = Ok vals.
Proof.
  intros Hv. unfold read_edges. assert (Hall : ∀ n j, (j + n = length vals)%nat → mapM (λ i, r_load r (off + Z.of_nat i)) (seq j n) = Ok (drop j vals)).
  { induction n as [|n IH]; intros j Hj; cbn [mapM seq]; [by rewrite drop_ge by lia|].
    destruct (lookup_lt_is_Some_2 vals j) as [x Hx]; [lia|]. rewrite (Hv j x Hx). cbn [mbind outcome_bind]. rewrite IH by lia.
    cbn [mbind outcome_bind]. by rewrite (drop_S vals x j Hx). }
  by apply Hall.
Qed.

(** reading the edges of a key *)
Lemma get_edges_dyn d kv vid dir pid : dyn_rep d kv → key_wf (IKey vid pid (dir_val dir)) → IKey vid pid (dir_val dir) ≠ empty_key →
  get_edges_local d vid dir pid = Ok (default [] (kv !! IKey vid pid (dir_val dir))).
Proof.
  intros (m & U & E & Hd & Hdom & ->) Hw Hne. unfold get_edges_local. rewrite (proj2 (mk_ikey_Ok vid pid dir _)) by done. cbn [mbind outcome_bind].
  set (k := IKey vid pid (dir_val dir)) in *. pose proof (get_vertex_local_lookup (d_hdr d) m k (dy_hdr _ _ _ _ Hd) Hne) as Hg. rewrite lookup_fmap.
  destruct (m !! k) as [s|] eqn:Hs.
  - destruct Hg as (v & Hv & Hvk & ->). cbn [mbind outcome_bind]. destruct (is_empty_spec (v_key v)) as [?|_]; [congruence|].
    assert (Hk : k ∈ dom E) by (rewrite <-Hdom; by eapply elem_of_dom_2). apply elem_of_dom in Hk as [[p vals] Hk]. rewrite Hk. simpl.
    pose proof (dy_ptr _ _ _ _ Hd _ _ _ Hs Hk) as Hp. unfold ptr_at in Hp. rewrite Hv in Hp. simpl in Hp. injection Hp as ->.
    destruct (dy_entry _ _ _ _ Hd _ _ _ Hk) as [Hsz _ _ _ Hvals]. rewrite Hsz, Nat2Z.id. by apply read_edges_ok.
  - rewrite Hg. simpl. apply not_elem_of_dom in Hs. rewrite Hdom in Hs. by apply not_elem_of_dom in Hs as ->.
Qed.
End dynamic.
