(* ===== verification/DynTriples.v ===== *)
(** Inserting triples into the dynamic store ([insert_triple_out] and [insert_triple_in] of
    [core/gstore.hpp], default build): the keys of the triples and the index keys stay
    those that bulk loading makes, so that queries see the triples old and new. *)

From S2P Require Import Prelude Types MyMath Keys HashTable Region Dynamic DynamicOk.
From S2P Require GStore Runs IndexInsert.
From S2P Require Import EndToEnd.
Local Open Scope Z_scope.
Import Runs.

(** ** The insertions on the map *)

Definition vals_of (kv : gmap ikey_t (list sid_t)) (k : ikey_t) : list sid_t := default [] (kv !! k).
Definition kv_add (kv : gmap ikey_t (list sid_t)) (k : ikey_t) (v : sid_t) : gmap ikey_t (list sid_t) := <[k := vals_of kv k ++ [v]]> kv.

Definition kv_out (kv : gmap ikey_t (list sid_t)) (t : triple_t) (dedup : bool) : gmap ikey_t (list sid_t) :=
  let k := IKey (tr_s t) (tr_p t) (dir_val OUT) in
  if tr_p t =? TYPE_ID then
    if bool_decide (tr_o t ∈ vals_of kv k) then kv else kv_add (kv_add kv k (tr_o t)) (IKey 0 (tr_o t) (dir_val IN)) (tr_s t)
  else if dedup && bool_decide (tr_o t ∈ vals_of kv k) then kv
  else if bool_decide (kv !! k = None) then kv_add (kv_add kv k (tr_o t)) (IKey 0 (tr_p t) (dir_val IN)) (tr_s t)
  else kv_add kv k (tr_o t).

Definition kv_in (kv : gmap ikey_t (list sid_t)) (t : triple_t) (dedup : bool) : gmap ikey_t (list sid_t) :=
  let k := IKey (tr_o t) (tr_p t) (dir_val IN) in
  if tr_p t =? TYPE_ID then kv
  else if dedup && bool_decide (tr_s t ∈ vals_of kv k) then kv
  else if bool_decide (kv !! k = None) then kv_add (kv_add kv k (tr_s t)) (IKey 0 (tr_p t) (dir_val OUT)) (tr_o t)
  else kv_add kv k (tr_s t).

Lemma vals_add kv k v k' : vals_of (kv_add kv k v) k' = vals_of kv k' ++ (if decide (k' = k) then [v] else []).
Proof. unfold kv_add, vals_of. destruct (decide (k' = k)) as [->|]; [by rewrite lookup_insert_eq|by rewrite lookup_insert_ne, app_nil_r]. Qed.

Lemma add_some kv k v k' : (∀ k, kv !! k ≠ Some []) → kv_add kv k v !! k' ≠ Some [].
Proof.
  intros Hs. unfold kv_add. destruct (decide (k' = k)) as [->|]; [rewrite lookup_insert_eq|by rewrite lookup_insert_ne]. intros [=]. by eapply app_cons_not_nil.
Qed.

(** a triple in the encoding of the store *)
Record triple_fits (t : triple_t) : Prop := {
  tf_wf : triple_wf t;
  tf_type : tr_p t = TYPE_ID → tr_o t < 2 ^ 17;
  tf_normal : tr_p t ≠ TYPE_ID → 2 ^ 17 <= tr_o t;
  tf_blank : tr_s t ≠ BLANK_ID ∧ tr_o t ≠ BLANK_ID
}.

(** The map holds the triples [T] by subject and [T'] by object, and no list is longer
    than [n]. *)
Record grown (n : nat) (T T' : list triple_t) (kv : gmap ikey_t (list sid_t)) : Prop := {
  gr_loaded : loaded T T' kv;
  gr_some k : kv !! k ≠ Some [];
  gr_len k : (length (vals_of kv k) <= n)%nat
}.

Lemma grown_empty : grown 0 [] [] ∅.
Proof.
  split; [split|..]; try done.
  all: intros; rewrite ?lookup_empty; simpl; rewrite ?elem_of_nil; try (split; [done|]); intros; naive_solver set_solver.
Qed.

Lemma plain_add kv k v : kv_plain kv → k_vid k ≠ BLANK_ID → is_sid v → kv_plain (kv_add kv k v).
Proof.
  intros [Hb Hs] Hk Hv. unfold kv_add. split.
  - intros k' Hk'. rewrite lookup_insert_ne by congruence. by apply Hb.
  - intros k' vals. destruct (decide (k' = k)) as [->|]; [rewrite lookup_insert_eq; intros [= <-]|rewrite lookup_insert_ne by done; apply Hs].
    apply Forall_app. split; [by apply kv_plain_sid|by constructor].
Qed.

Lemma fits_sid t : triple_fits t → is_sid (tr_s t) ∧ is_sid (tr_o t) ∧ tr_s t ≠ 0 ∧ tr_o t ≠ 0.
Proof. intros [[Hs Hp Ho] _ _ _]. unfold is_sid. lia. Qed.

(** a key that exists has an edge *)
Lemma present_elem kv k : (∀ k, kv !! k ≠ Some []) → kv !! k ≠ None → ∃ y, y ∈ vals_of kv k.
Proof. intros Hs Hk. unfold vals_of. destruct (kv !! k) as [[|y l]|] eqn:E; [by apply Hs in E| |done]. exists y. set_solver. Qed.

Lemma add_len kv k v k' (n : nat) : (length (vals_of kv k') <= n)%nat → (length (vals_of (kv_add kv k v) k') <= (if decide (k' = k) then S n else n))%nat.
Proof. intros Hl. rewrite vals_add, length_app. case_decide; simpl; lia. Qed.

Ltac elem_add := rewrite ?vals_add, ?elem_of_app; repeat case_decide; simplify_eq/=; rewrite ?elem_of_nil, ?list_elem_of_singleton.

Section out.
  Context (n : nat) (T T' : list triple_t) (kv : gmap ikey_t (list sid_t)) (t : triple_t).
  Hypothesis Hg : grown n T T' kv.
  Hypothesis Ht : triple_fits t.

(** the triple is there already *)
Lemma out_dup : tr_o t ∈ vals_of kv (IKey (tr_s t) (tr_p t) (dir_val OUT)) → grown n (t :: T) T' kv.
Proof.
  intros Hin. destruct Hg as [[Hpl Hout Hinn Hix Hox] Hsome Hlen], Ht as [[Ws Wp Wo] _ _ _]. unfold vals_of in Hin.
  apply Hout in Hin; [|lia|lia]. assert (HT : ∀ u, u ∈ t :: T ↔ u ∈ T) by (intros u; rewrite elem_of_cons; split; [intros [->|]; [by destruct t|done]|auto]).
  split; [split|done|done]; try done.
  - intros x p y Hx Hp. by rewrite HT, Hout.
  - intros p y Hp. rewrite Hix by done. by setoid_rewrite HT.
Qed.

(** the edge is added, and the subject to the index of [p], unless it was there *)
Lemma out_new (p : sid_t) (new : bool) : (p = tr_p t ∨ tr_p t = TYPE_ID ∧ tr_o t = p) → 1 < p → (p ≠ tr_p t → tr_p t = TYPE_ID) → (1 < tr_p t → p = tr_p t) →
  (if new then True else ∃ y, Triple (tr_s t) (tr_p t) y ∈ T ∧ p = tr_p t) →
  let kv1 := kv_add kv (IKey (tr_s t) (tr_p t) (dir_val OUT)) (tr_o t) in
  grown (S n) (t :: T) T' (if new then kv_add kv1 (IKey 0 p (dir_val IN)) (tr_s t) else kv1).
Proof.
  intros Hp Hp1 Hpt Hpt' Hnew kv1. destruct Hg as [[Hpl Hout Hinn Hix Hox] Hsome Hlen], Ht as [[Ws Wp Wo] Hty Hno [Hbs Hbo]].
  destruct (fits_sid t Ht) as (Ss & So & Hs0 & Ho0).
  assert (Hpl1 : kv_plain kv1) by (by apply plain_add).
  set (kv' := if new then _ else _).
  assert (Hv : ∀ k, vals_of kv' k = vals_of kv k ++ (if decide (k = IKey (tr_s t) (tr_p t) (dir_val OUT)) then [tr_o t] else []) ++
    (if new then if decide (k = IKey 0 p (dir_val IN)) then [tr_s t] else [] else [])).
  { intros k. unfold kv', kv1. destruct new; [by rewrite !vals_add, app_assoc|by rewrite vals_add, app_nil_r]. }
  unfold vals_of in *. split; [split|..].
  - unfold kv'. destruct new; [|done]. by apply plain_add.
  - intros x q y Hx Hq. rewrite Hv, !elem_of_app, Hout by done. rewrite (decide_False (P := IKey x q _ = IKey 0 p _)) by (intros [=]; done).
    rewrite elem_of_cons. destruct (decide (IKey x q (dir_val OUT) = IKey (tr_s t) (tr_p t) (dir_val OUT))) as [[= -> ->]|Hne].
    + rewrite list_elem_of_singleton. destruct t as [s q' o]; simpl in *. destruct new; rewrite elem_of_nil; naive_solver.
    + destruct t as [s q' o]; simpl in *. destruct new; rewrite !elem_of_nil; naive_solver.
  - intros x q y Hx Hq. rewrite Hv, !elem_of_app, Hinn by done. rewrite !decide_False by (intros [=]; done). destruct new; rewrite ?elem_of_nil; naive_solver.
  - intros q y Hq. rewrite Hv, !elem_of_app, Hix by done. rewrite decide_False by (intros [=]; congruence). rewrite elem_of_nil.
    setoid_rewrite elem_of_cons. destruct new.
    + destruct (decide (IKey 0 q (dir_val IN) = IKey 0 p (dir_val IN))) as [[= ->]|Hne].
      * rewrite list_elem_of_singleton. split; [|intros (u & [->|Hu] & Hy & Hq'); [naive_solver|left; by exists u]].
        intros [(u & ? & ?)|[[]|Hy]]; [exists u; naive_solver|]. exists t. split_and!; [by left|done|]. naive_solver.
      * rewrite elem_of_nil. split; [|intros (u & [->|Hu] & Hy & Hq'); [|left; by exists u]].
        -- intros [(u & ? & ?)|[[]|[]]]. exists u. naive_solver.
        -- exfalso. apply Hne. f_equal. destruct Hq' as [<-|[Htp <-]]; [by rewrite Hpt'|]. destruct Hp as [Hp|[_ Hp]]; [|done]. rewrite Htp in Hp. unfold TYPE_ID in Hp. lia.
    + rewrite elem_of_nil. destruct Hnew as (z & Hz & ->). split; [|intros (u & [->|Hu] & Hy & Hq'); [|left; by exists u]].
      * intros [(u & ? & ?)|[[]|[]]]. exists u. naive_solver.
      * left. exists (Triple (tr_s t) (tr_p t) z). split_and!; [done|done|]. simpl. destruct Hq' as [?|[Htp _]]; [by left|]. rewrite Htp in Hp1. unfold TYPE_ID in Hp1. lia.
  - intros q y Hq. rewrite Hv, !elem_of_app, Hox by done. rewrite !decide_False by (intros [=]; congruence). destruct new; rewrite ?elem_of_nil; naive_solver.
  - intros k. unfold kv'. destruct new; repeat apply add_some; done || (intros; by apply add_some).
  - intros k. pose proof (Hlen k). unfold vals_of. rewrite Hv, !length_app. destruct (decide (k = IKey (tr_s t) (tr_p t) (dir_val OUT))) as [->|].
    + rewrite (decide_False (P := _ = IKey 0 p _)) by (intros [=]; done). destruct new; cbn [length]; lia.
    + destruct new; [case_decide|]; simpl; lia.
Qed.

Lemma out_grown dedup : grown (S n) (t :: T) T' (kv_out kv t dedup).
Proof.
  assert (Hle : ∀ T kv, grown n T T' kv → grown (S n) T T' kv) by (intros T0 kv0 [? ? Hl]; split; [done|done|]; intros k; pose proof (Hl k); lia).
  pose proof Ht as [[Ws Wp Wo] Hty Hno _]. unfold kv_out. destruct (Z.eqb_spec (tr_p t) TYPE_ID) as [Etp|Etp].
  - case_bool_decide as Hin; [by apply Hle, out_dup|]. specialize (Hty Etp). apply (out_new (tr_o t) true); [by right|lia|done|rewrite Etp; unfold TYPE_ID; lia|done].
  - assert (Hp1 : 1 < tr_p t) by (unfold TYPE_ID in Etp; lia). destruct (dedup && bool_decide _) eqn:Ed.
    { apply andb_true_iff in Ed as [_ Ed%bool_decide_eq_true]. by apply Hle, out_dup. }
    clear Ed. case_bool_decide as Hk.
    + apply (out_new (tr_p t) true); [by left|done|done|done|done].
    + apply (out_new (tr_p t) false); [by left|done|done|done|]. destruct Hg as [[_ Hout _ _ _] Hsome _]. destruct (present_elem kv _ Hsome Hk) as [y Hy].
      exists y. split; [|done]. apply Hout; [lia|lia|done].
Qed.
End out.

Section in_.
  Context (n : nat) (T T' : list triple_t) (kv : gmap ikey_t (list sid_t)) (t : triple_t).
  Hypothesis Hg : grown n T T' kv.
  Hypothesis Ht : triple_fits t.

Lemma in_dup : tr_p t = TYPE_ID ∨ tr_s t ∈ vals_of kv (IKey (tr_o t) (tr_p t) (dir_val IN)) → grown n T (t :: T') kv.
Proof.
  intros Hin. destruct Hg as [[Hpl Hout Hinn Hix Hox] Hsome Hlen], Ht as [[Ws Wp Wo] Hty _ _]. unfold vals_of in Hin.
  assert (HT : tr_p t = TYPE_ID ∧ tr_o t < 2 ^ 17 ∨ t ∈ T').
  { destruct Hin as [?|Hin]; [left; auto|right]. apply Hinn in Hin as [? _]; [|lia|lia]. by destruct t. }
  split; [split|done|done]; try done.
  - intros x p y Hx Hp. rewrite Hinn by done. rewrite elem_of_cons. destruct HT as [[Hp' Ho]|HT]; [|naive_solver].
    split; [naive_solver|]. intros [[<-|?] ?]; [simpl in Ho; lia|done].
  - intros p y Hp. rewrite Hox by done. setoid_rewrite elem_of_cons. destruct HT as [[Hp' Ho]|HT]; [|naive_solver].
    split; [naive_solver|]. intros (u & [->|?] & ? & ? & ?); [lia|naive_solver].
Qed.

Lemma in_new (new : bool) : tr_p t ≠ TYPE_ID → (if new then True else ∃ y, Triple y (tr_p t) (tr_o t) ∈ T') →
  let kv1 := kv_add kv (IKey (tr_o t) (tr_p t) (dir_val IN)) (tr_s t) in
  grown (S n) T (t :: T') (if new then kv_add kv1 (IKey 0 (tr_p t) (dir_val OUT)) (tr_o t) else kv1).
Proof.
  intros Hpt Hnew kv1. destruct Hg as [[Hpl Hout Hinn Hix Hox] Hsome Hlen], Ht as [[Ws Wp Wo] Hty Hno [Hbs Hbo]].
  destruct (fits_sid t Ht) as (Ss & So & Hs0 & Ho0). specialize (Hno Hpt).
  assert (Hpl1 : kv_plain kv1) by (by apply plain_add).
  set (kv' := if new then _ else _).
  assert (Hv : ∀ k, vals_of kv' k = vals_of kv k ++ (if decide (k = IKey (tr_o t) (tr_p t) (dir_val IN)) then [tr_s t] else []) ++
    (if new then if decide (k = IKey 0 (tr_p t) (dir_val OUT)) then [tr_o t] else [] else [])).
  { intros k. unfold kv', kv1. destruct new; [by rewrite !vals_add, app_assoc|by rewrite vals_add, app_nil_r]. }
  unfold vals_of in *. split; [split|..].
  - unfold kv'. destruct new; [|done]. by apply plain_add.
  - intros x q y Hx Hq. rewrite Hv, !elem_of_app, Hout by done. rewrite !decide_False by (intros [=]; done). destruct new; rewrite ?elem_of_nil; naive_solver.
  - intros x q y Hx Hq. rewrite Hv, !elem_of_app, Hinn by done. rewrite (decide_False (P := IKey x q _ = IKey 0 _ _)) by (intros [=]; done).
    rewrite elem_of_cons. destruct (decide (IKey x q (dir_val IN) = IKey (tr_o t) (tr_p t) (dir_val IN))) as [[= -> ->]|Hne].
    + rewrite list_elem_of_singleton. destruct t as [s q' o]; simpl in *. destruct new; rewrite elem_of_nil; naive_solver.
    + destruct t as [s q' o]; simpl in *. destruct new; rewrite !elem_of_nil; naive_solver.
  - intros q y Hq. rewrite Hv, !elem_of_app, Hix by done. rewrite !decide_False by (intros [=]; congruence). destruct new; rewrite ?elem_of_nil; naive_solver.
  - intros q y Hq. rewrite Hv, !elem_of_app, Hox by done. rewrite decide_False by (intros [=]; congruence). rewrite elem_of_nil.
    setoid_rewrite elem_of_cons. destruct new.
    + destruct (decide (IKey 0 q (dir_val OUT) = IKey 0 (tr_p t) (dir_val OUT))) as [[= ->]|Hne].
      * rewrite list_elem_of_singleton. split; [|intros (u & [->|Hu] & Hy & Hq' & ?); [naive_solver|left; by exists u]].
        intros [(u & ? & ?)|[[]|Hy]]; [exists u; naive_solver|]. exists t. split_and!; [by left|done|done|lia].
      * rewrite elem_of_nil. split; [|intros (u & [->|Hu] & Hy & Hq' & ?); [by destruct Hne; rewrite Hq'|left; by exists u]].
        intros [(u & ? & ?)|[[]|[]]]. exists u. naive_solver.
    + rewrite elem_of_nil. destruct Hnew as (z & Hz). split; [|intros (u & [->|Hu] & Hy & Hq' & ?); [|left; by exists u]].
      * intros [(u & ? & ?)|[[]|[]]]. exists u. naive_solver.
      * left. exists (Triple z (tr_p t) (tr_o t)). by split_and!.
  - intros k. unfold kv'. destruct new; repeat apply add_some; done || (intros; by apply add_some).
  - intros k. pose proof (Hlen k). unfold vals_of. rewrite Hv, !length_app. destruct (decide (k = IKey (tr_o t) (tr_p t) (dir_val IN))) as [->|].
    + rewrite (decide_False (P := _ = IKey 0 _ _)) by (intros [=]; done). destruct new; cbn [length]; lia.
    + destruct new; [case_decide|]; simpl; lia.
Qed.

Lemma in_grown dedup : grown (S n) T (t :: T') (kv_in kv t dedup).
Proof.
  assert (Hle : ∀ T' kv, grown n T T' kv → grown (S n) T T' kv) by (intros T0 kv0 [? ? Hl]; split; [done|done|]; intros k; pose proof (Hl k); lia).
  pose proof Ht as [[Ws Wp Wo] Hty Hno _]. unfold kv_in. destruct (Z.eqb_spec (tr_p t) TYPE_ID) as [Etp|Etp]; [by apply Hle, in_dup; left|].
  destruct (dedup && bool_decide _) eqn:Ed.
  { apply andb_true_iff in Ed as [_ Ed%bool_decide_eq_true]. by apply Hle, in_dup; right. }
  clear Ed. case_bool_decide as Hk; [by apply (in_new true)|]. apply (in_new false); [done|].
  destruct Hg as [[_ _ Hinn _ _] Hsome _]. destruct (present_elem kv _ Hsome Hk) as [y Hy]. exists y. apply Hinn in Hy as [? _]; [done|lia|lia].
Qed.
End in_.
