(* ===== verification/DynLoad.v ===== *)
(** Loading more triples into a running store ([dynamic_load_data] of [core/dgraph.hpp]
    with [insert_triple_out] and [insert_triple_in]), and queries over the result. *)

From S2P Require Import Prelude Types MyMath Keys HashTable Region Dynamic DynamicOk.
From S2P Require GStore Runs IndexInsert Datagen.
From stdpp Require Import strings.
From S2P Require Import StringServer Query Engine EngineSteps Exec Bgp EndToEnd DynTriples.
Local Open Scope Z_scope.
Import Runs.

(** ** [dynamic_load_data] *)

Section load.
  Context `{Config, Clock, M : Malloc_Interface}.

Record DGraph := MkDGraph {
  dg_strs : String_Server;
  id2id : gmap sid_t sid_t;     (* the ids of the new files, as ids of this store *)
  dg_store : dstore
}.

Definition convert_sid (m : gmap sid_t sid_t) (id : sid_t) : sid_t := default id (m !! id).

(** one line of [str_index] or [str_normal] *)
Definition map_line (index : bool) (st : String_Server * gmap sid_t sid_t) (line : string * sid_t) : String_Server * gmap sid_t sid_t :=
  let '(s, m) := st in
  let '(str, id) := line in
  match str2id s !! str with
  | Some id' => (s, <[id := id']> m)
  | None =>
      let id' := u32 (if index then next_index_id s else next_normal_id s) in
      let s := if index then MkStrings (str2id s) (id2str s) (pid2type s) (u64 (next_index_id s + 1)) (next_normal_id s)
               else MkStrings (str2id s) (id2str s) (pid2type s) (next_index_id s) (u64 (next_normal_id s + 1)) in
      (add_string s str id', <[id := id']> m)
  end.

Definition map_file (st : String_Server * gmap sid_t sid_t) (f : id_file) : String_Server * gmap sid_t sid_t :=
  match f with
  | StrIndex l => foldl (map_line true) st l
  | StrNormal l => foldl (map_line false) st l
  | StrAttr _ => st
  end.

Definition dynamic_load_mappings (g : DGraph) (files : list id_file) : DGraph :=
  let '(s, m) := foldl map_file (dg_strs g, id2id g) files in MkDGraph s m (dg_store g).

Definition convert_triple (m : gmap sid_t sid_t) (t : triple_t) : triple_t :=
  Triple (convert_sid m (tr_s t)) (convert_sid m (tr_p t)) (convert_sid m (tr_o t)).

(** a line of a data file; the checks of the ids only log *)
Definition load_line (versatile : bool) (sid : Z) (m : gmap sid_t sid_t) (check_dup : bool) (d : dstore) (t : triple_t) : outcome dstore :=
  let t := convert_triple m t in
  dst_s ← hash_mod (tr_s t) global_num_servers;
  d ← (if sid =? dst_s then insert_triple_out versatile d t check_dup else Ok d);
  dst_o ← hash_mod (tr_o t) global_num_servers;
  if sid =? dst_o then insert_triple_in versatile d t check_dup else Ok d.

(** The data files are read in parallel: [input] are their lines in the order of the
    insertions. The attribute files are read and not stored. Without any file the function
    returns before [flush_convertmap]. *)
Definition dynamic_load_data (versatile : bool) (sid : Z) (g : DGraph) (maps : list id_file) (any_file : bool) (input : list triple_t) (check_dup : bool)
    : outcome DGraph :=
  let g := dynamic_load_mappings g maps in
  if any_file then
    d ← foldM (load_line versatile sid (id2id g) check_dup) (dg_store g) input;
    Ok (MkDGraph (dg_strs g) ∅ d)
  else Ok g.
End load.

Section triples.
  Context `{Config, Clock, M : Malloc_Interface, !MallocOk M}.
  Hypothesis Hthreads : 0 <= r_threads.

Lemma vertex_edge_kv d kv key value dedup : dyn_rep d kv → key ≠ empty_key → Z.of_nat (length (vals_of kv key)) < max_edges →
  let dup := dedup && bool_decide (value ∈ vals_of kv key) in
  (∃ d', insert_vertex_edge d key value dedup = Ok (bool_decide (kv !! key = None), dup, d') ∧ dyn_rep d' (if dup then kv else kv_add kv key value)) ∨
  insert_vertex_edge d key value dedup = Err AssertFail.
Proof. intros Hd Hne Hl. destruct (insert_vertex_edge_ok d kv key value dedup Hd Hne Hthreads Hl) as [?|[? _]]; auto. Qed.

Lemma exist_ok d kv key : dyn_rep d kv → key ≠ empty_key → ∃ b, check_key_exist (d_hdr d) key = Ok b.
Proof. intros (m & U & E & Hd & _ & _) Hne. eexists. apply (check_key_exist_lookup _ m); [apply Hd|done]. Qed.

Lemma fits_key t d : triple_fits t → d ≠ CORUN →
  key_wf (IKey (tr_s t) (tr_p t) (dir_val d)) ∧ key_wf (IKey (tr_o t) (tr_p t) (dir_val d)) ∧ key_wf (IKey 0 (tr_p t) (dir_val d)).
Proof. intros [[Ws Wp Wo] _ _ _] Hd. unfold key_wf. destruct d; simpl; try done; lia. Qed.

(** the insertion of an index entry in the default build *)
Lemma insert_first_ok d kv key buddy value rest : dyn_rep d kv → key ≠ empty_key → buddy ≠ empty_key → Z.of_nat (length (vals_of kv key)) < max_edges → (∀ d, rest d = Ok d) →
  (∃ d', insert_first d key buddy value rest = Ok d' ∧ dyn_rep d' (kv_add kv key value)) ∨ insert_first d key buddy value rest = Err AssertFail.
Proof.
  intros Hd Hne Hnb Hl Hrest. unfold insert_first. destruct (vertex_edge_kv d kv key value false Hd Hne Hl) as [(d' & -> & Hd')|E1]; [left|right; by rewrite E1].
  cbn [mbind outcome_bind andb] in *. case_bool_decide; [|by exists d']. destruct (exist_ok d' _ buddy Hd' Hnb) as [b ->]. cbn [mbind outcome_bind].
  destruct b; [by exists d'|]. rewrite Hrest. by exists d'.
Qed.

Lemma add_small kv k v k' : k' ≠ k → Z.of_nat (length (vals_of kv k')) < max_edges → Z.of_nat (length (vals_of (kv_add kv k v) k')) < max_edges.
Proof. intros Hne Hl. rewrite vals_add, decide_False by done. by rewrite app_nil_r. Qed.

(** [insert_triple_out] on the map *)
Lemma insert_triple_out_ok d kv t dedup : dyn_rep d kv → triple_fits t → (∀ k, Z.of_nat (length (vals_of kv k)) < max_edges) →
  (∃ d', insert_triple_out false d t dedup = Ok d' ∧ dyn_rep d' (kv_out kv t dedup)) ∨ insert_triple_out false d t dedup = Err AssertFail.
Proof.
  intros Hd Ht Hl. pose proof Ht as [[Ws Wp Wo] Hty _ _]. destruct (fits_key t OUT Ht ltac:(done)) as (W1 & _ & W2). destruct (fits_key t IN Ht ltac:(done)) as (_ & _ & W3).
  unfold insert_triple_out, kv_out. assert (Hne1 : IKey (tr_s t) (tr_p t) (dir_val OUT) ≠ empty_key) by (intros [=]; lia).
  rewrite (proj2 (mk_ikey_Ok _ _ _ _) (conj eq_refl W1)). cbn [mbind outcome_bind].
  destruct (Z.eqb_spec (tr_p t) TYPE_ID) as [Etp|Etp].
  - destruct (vertex_edge_kv d kv _ (tr_o t) true Hd Hne1 (Hl _)) as [(d1 & -> & Hd1)|E1]; [|by right; rewrite E1]. cbn [mbind outcome_bind andb] in *.
    rewrite andb_false_r. cbn [mbind outcome_bind]. case_bool_decide as Hin; [by left; exists d1|].
    assert (W4 : key_wf (IKey 0 (tr_o t) (dir_val IN))) by (specialize (Hty Etp); unfold key_wf; simpl; lia).
    rewrite (proj2 (mk_ikey_Ok _ _ _ _) (conj eq_refl W4)). cbn [mbind outcome_bind].
    destruct (vertex_edge_kv d1 _ (IKey 0 (tr_o t) (dir_val IN)) (tr_s t) false Hd1) as [(d2 & -> & Hd2)|E2]; [intros [=]; lia|apply add_small; [intros [=]; lia|apply Hl]| |by right; rewrite E2].
    left. cbn [mbind outcome_bind andb] in *. rewrite andb_false_r. by exists d2.
  - destruct (vertex_edge_kv d kv _ (tr_o t) dedup Hd Hne1 (Hl _)) as [(d1 & -> & Hd1)|E1]; [|by right; rewrite E1]. cbn [mbind outcome_bind] in *.
    destruct (dedup && bool_decide _) eqn:Ed.
    + left. apply andb_true_iff in Ed as [_ Ed%bool_decide_eq_true]. unfold vals_of in Ed. destruct (kv !! _) as [vals|]; [|set_solver]. by exists d1.
    + clear Ed. case_bool_decide as Hk; [|by left; exists d1].
      rewrite (proj2 (mk_ikey_Ok _ _ _ _) (conj eq_refl W3)), (proj2 (mk_ikey_Ok _ _ _ _) (conj eq_refl W2)). cbn [mbind outcome_bind].
      destruct (insert_first_ok d1 _ (IKey 0 (tr_p t) (dir_val IN)) (IKey 0 (tr_p t) (dir_val OUT)) (tr_s t) (λ d, Ok d) Hd1) as [(d2 & E2 & Hd2)|E2];
        [intros [=]; lia|intros [=]; lia|apply add_small; [intros [=]; lia|apply Hl]|done| |by right; rewrite E2].
      left. rewrite E2. by exists d2.
Qed.

Lemma insert_triple_in_ok d kv t dedup : dyn_rep d kv → triple_fits t → (∀ k, Z.of_nat (length (vals_of kv k)) < max_edges) →
  (∃ d', insert_triple_in false d t dedup = Ok d' ∧ dyn_rep d' (kv_in kv t dedup)) ∨ insert_triple_in false d t dedup = Err AssertFail.
Proof.
  intros Hd Ht Hl. pose proof Ht as [[Ws Wp Wo] _ _ _]. destruct (fits_key t OUT Ht ltac:(done)) as (_ & _ & W2). destruct (fits_key t IN Ht ltac:(done)) as (_ & W1 & W3).
  unfold insert_triple_in, kv_in. destruct (Z.eqb_spec (tr_p t) TYPE_ID) as [Etp|Etp]; [by left; exists d|].
  rewrite (proj2 (mk_ikey_Ok _ _ _ _) (conj eq_refl W1)). cbn [mbind outcome_bind].
  destruct (vertex_edge_kv d kv (IKey (tr_o t) (tr_p t) (dir_val IN)) (tr_s t) dedup Hd) as [(d1 & -> & Hd1)|E1]; [intros [=]; lia|apply Hl| |by right; rewrite E1].
  cbn [mbind outcome_bind] in *. destruct (dedup && bool_decide _) eqn:Ed.
  - left. apply andb_true_iff in Ed as [_ Ed%bool_decide_eq_true]. unfold vals_of in Ed. destruct (kv !! _) as [vals|]; [|set_solver]. by exists d1.
  - clear Ed. case_bool_decide as Hk; [|by left; exists d1].
    rewrite (proj2 (mk_ikey_Ok _ _ _ _) (conj eq_refl W2)), (proj2 (mk_ikey_Ok _ _ _ _) (conj eq_refl W3)). cbn [mbind outcome_bind].
    destruct (insert_first_ok d1 _ (IKey 0 (tr_p t) (dir_val OUT)) (IKey 0 (tr_p t) (dir_val IN)) (tr_o t) (λ d, Ok d) Hd1) as [(d2 & E2 & Hd2)|E2];
      [intros [=]; lia|intros [=]; lia|apply add_small; [intros [=]; lia|apply Hl]|done| |by right; rewrite E2].
    left. rewrite E2. by exists d2.
Qed.
End triples.

(** ** The triples of a server *)

Lemma grown_ext n n' T T' S S' kv : (n <= n')%nat → (∀ t, t ∈ T ↔ t ∈ S) → (∀ t, t ∈ T' ↔ t ∈ S') → grown n T T' kv → grown n' S S' kv.
Proof.
  intros Hn HT HT' [[Hpl Ho Hi Hx Hy] Hs Hl]. split; [split|..]; try done.
  - intros. by rewrite <-HT, Ho.
  - intros. by rewrite <-HT', Hi.
  - intros. rewrite Hx by done. by setoid_rewrite HT.
  - intros. rewrite Hy by done. by setoid_rewrite HT'.
  - intros k. pose proof (Hl k). lia.
Qed.

(** the triples whose subject, or object, lives on server [sid] *)
Definition owned `{Config} (key : triple_t → sid_t) (sid : Z) (ts : list triple_t) : list triple_t := filter (λ t, key t mod global_num_servers = sid) ts.

Section lines.
  Context `{Config, Clock, M : Malloc_Interface, !MallocOk M}.
  Hypothesis Hthreads : 0 <= r_threads.
  Hypothesis Hservers : 0 < global_num_servers < 2 ^ 31.
  Context (sid : Z) (m : gmap sid_t sid_t) (check_dup : bool).

Lemma load_line_ok d kv n T T' t : dyn_rep d kv → grown n T T' kv → Z.of_nat n + 1 < max_edges → triple_fits (convert_triple m t) →
  (∃ d' kv', load_line false sid m check_dup d t = Ok d' ∧ dyn_rep d' kv' ∧
     grown (2 + n) (owned tr_s sid [convert_triple m t] ++ T) (owned tr_o sid [convert_triple m t] ++ T') kv') ∨
  load_line false sid m check_dup d t = Err AssertFail.
Proof.
  intros Hd Hg Hn Ht. unfold load_line. set (u := convert_triple m t) in *. pose proof Ht as [[Ws Wp Wo] _ _ _].
  rewrite !hash_mod_Ok by (done || lia). cbn [mbind outcome_bind].
  assert (Hstep : (∃ d1 kv1, (if sid =? tr_s u mod global_num_servers then insert_triple_out false d u check_dup else Ok d) = Ok d1 ∧ dyn_rep d1 kv1 ∧
    grown (S n) (owned tr_s sid [u] ++ T) T' kv1) ∨ (if sid =? tr_s u mod global_num_servers then insert_triple_out false d u check_dup else Ok d) = Err AssertFail).
  { unfold owned. rewrite filter_cons. destruct (Z.eqb_spec sid (tr_s u mod global_num_servers)) as [->|Hne].
    - rewrite decide_True by done. destruct (insert_triple_out_ok Hthreads d kv u check_dup Hd Ht) as [(d1 & E1 & Hd1)|E1]; [|left; exists d1, (kv_out kv u check_dup)|by right].
      + intros k. pose proof (gr_len _ _ _ _ Hg k). lia.
      + split_and!; [done|done|]. by apply out_grown.
    - rewrite decide_False by congruence. left. exists d, kv. split_and!; [done|done|]. by eapply grown_ext; [|..|exact Hg]; [lia|..]. }
  destruct Hstep as [(d1 & kv1 & -> & Hd1 & Hg1)|E1]; [|by right; rewrite E1]. cbn [mbind outcome_bind]. unfold owned at 2. rewrite filter_cons.
  destruct (Z.eqb_spec sid (tr_o u mod global_num_servers)) as [->|Hne].
  - rewrite decide_True by done. destruct (insert_triple_in_ok Hthreads d1 kv1 u check_dup Hd1 Ht) as [(d2 & E2 & Hd2)|E2]; [|left; exists d2, (kv_in kv1 u check_dup)|by right].
    + intros k. pose proof (gr_len _ _ _ _ Hg1 k). lia.
    + split_and!; [done|done|]. by apply (in_grown (S n)).
  - rewrite decide_False by congruence. left. exists d1, kv1. split_and!; [done|done|]. by eapply grown_ext; [|..|exact Hg1]; [lia|..].
Qed.

Lemma load_lines_ok input d kv n T T' : dyn_rep d kv → grown n T T' kv → Z.of_nat (2 * length input + n) < max_edges →
  Forall (λ t, triple_fits (convert_triple m t)) input →
  (∃ d' kv', foldM (load_line false sid m check_dup) d input = Ok d' ∧ dyn_rep d' kv' ∧
     grown (2 * length input + n) (owned tr_s sid (convert_triple m <$> input) ++ T) (owned tr_o sid (convert_triple m <$> input) ++ T') kv') ∨
  foldM (load_line false sid m check_dup) d input = Err AssertFail.
Proof.
  revert d kv n T T'. induction input as [|t input IH]; intros d kv n T T' Hd Hg Hn Ht; cbn [foldM].
  - left. exists d, kv. split_and!; [done|done|]. by eapply grown_ext; [|..|exact Hg]; [simpl; lia|..].
  - apply Forall_cons in Ht as [Ht Hts]. destruct (load_line_ok d kv n T T' t Hd Hg) as [(d1 & kv1 & -> & Hd1 & Hg1)|E1]; [simpl in Hn; lia|done| |by right; rewrite E1].
    cbn [mbind outcome_bind]. destruct (IH d1 kv1 (2 + n)%nat _ _ Hd1 Hg1) as [(d' & kv' & E' & Hd' & Hg')|E']; [simpl in Hn; lia|done| |by right].
    left. exists d', kv'. split_and!; [done|done|]. assert (Hcons : ∀ key u X, u ∈ owned key sid (convert_triple m <$> input) ++ owned key sid [convert_triple m t] ++ X ↔
      u ∈ owned key sid (convert_triple m <$> t :: input) ++ X).
    { intros key u X. unfold owned. rewrite fmap_cons, !elem_of_app, !list_elem_of_filter, !elem_of_cons, elem_of_nil. tauto. }
    eapply grown_ext; [|intros; apply Hcons|intros; apply Hcons|exact Hg']. simpl. lia.
Qed.
End lines.

(** ** New predicates beside attributes *)

(** the string server takes the next free index id from the last line of [str_index],
    although the attributes of [str_attr_index] have index ids, too: a predicate that is
    loaded later gets the id of an attribute and replaces its string. *)
Theorem attribute_id_reused `{Malloc_Interface} (d : dstore) :
  ∃ s, load_strings (Datagen.generate_data Datagen.small_raws).2 = Ok s ∧ str2id s !! "<age>"%string = Some 4 ∧ pid2type s !! 4 = Some INT_t ∧
    let g := dynamic_load_mappings (MkDGraph s ∅ d) [StrIndex [("<likes>"%string, 2)]] in
    id2id g !! 2 = Some 4 ∧ id2str (dg_strs g) !! 4 = Some "<likes>"%string ∧ str2id (dg_strs g) !! "<age>"%string = Some 4.
Proof. eexists. split; [vm_compute; reflexivity|]. vm_compute. done. Qed.
