(* ===== verification/DynQuery.v ===== *)
(** Queries over a store that is loaded while it runs: the dynamic store meets the
    interface of the engine, so that a plan answers over the triples loaded so far. *)

From S2P Require Import Prelude Types MyMath Keys HashTable Region Dynamic DynamicOk.
From S2P Require GStore Runs IndexInsert Attr Remote Buddy BuddyHeap BuddySafe.
From stdpp Require Import strings.
From S2P Require Import StringServer Query Rows Engine EngineSteps Exec Bgp EndToEnd DynTriples DynLoad.
Local Open Scope Z_scope.

Section query.
  Context `{Config, Clock, M : Malloc_Interface, !MallocOk M}.

(** an attribute is read by the type in the pointer *)
Definition get_vertex_attr_local (d : dstore) (vid : sid_t) (dir : dir_t) (pid : sid_t) : outcome (option attr_t) :=
  key ← mk_ikey vid pid dir;
  v ← get_vertex_local (d_hdr d) key;
  if Keys.is_empty (v_key v) then Ok None (* not found *)
  else
    words ← read_edges (d_region d) (p_off (v_ptr v)) (if p_type (v_ptr v) =? DOUBLE_t then 2 else if p_type (v_ptr v) =? SID_t then 0 else 1);
    r ← Attr.read_attr words 0 (p_type (v_ptr v));
    Ok (Some r).

(** the reads of an engine: on one server all of them are local *)
Definition dyn_graph (d : dstore) : Graph := {|
  get_edges_global v dir p := get_edges_local d v dir p;
  get_index_edges p dir := get_edges_local d 0 dir p;
  get_vertex_attr_global v dir p := get_vertex_attr_local d v dir p
|}.

Lemma get_edges_any d kv v dir p : dyn_rep d kv → key_wf (IKey v p (dir_val dir)) →
  get_edges_local d v dir p = Ok (default [] (kv !! IKey v p (dir_val dir))).
Proof.
  intros Hd Hw. destruct (decide (IKey v p (dir_val dir) = empty_key)) as [Heq|Hne]; [|by apply get_edges_dyn].
  unfold get_edges_local. rewrite (proj2 (mk_ikey_Ok v p dir _)) by done. cbn [mbind outcome_bind]. rewrite Heq.
  destruct Hd as (m & U & E & Hd & Hdom & ->).
  assert (Hnone : E !! empty_key = None).
  { apply not_elem_of_dom. rewrite <-Hdom. intros [s Hs]%elem_of_dom. by apply (ht_rep_nonempty _ _ _ _ (dy_hdr _ _ _ _ Hd)) in Hs. }
  rewrite lookup_fmap, Hnone. destruct (Remote.get_vertex_local_empty (GStore.GStore (d_hdr d) 0 0 []) m (dy_hdr _ _ _ _ Hd)) as (vt & Ev & Hv). simpl in Ev.
  rewrite Ev. cbn [mbind outcome_bind]. by rewrite Hv.
Qed.

(** the dynamic store meets the interface of the engine *)
Program Definition dyn_graph_ok (d : dstore) (kv : gmap ikey_t (list sid_t)) (Hd : dyn_rep d kv) (Hkv : kv_plain kv) : @GraphOk (dyn_graph d) := {|
  edge_list v dir p := default [] (kv !! IKey v p (dir_val dir));
  index_list p dir := default [] (kv !! IKey 0 p (dir_val dir))
|}.
Next Obligation. intros d kv Hd Hkv v dir p Hv Hp Hdir. simpl. by apply get_edges_any; [|apply edge_key_wf]. Qed.
Next Obligation. intros d kv Hd Hkv dir p. simpl. by rewrite (kp_blank _ Hkv). Qed.
Next Obligation. intros d kv Hd Hkv v dir p. simpl. by apply kv_plain_sid. Qed.
Next Obligation. intros d kv Hd Hkv p dir Hp Hdir. simpl. apply get_edges_any; [done|]. apply edge_key_wf; [unfold is_sid; lia|lia|done]. Qed.
Next Obligation. intros d kv Hd Hkv p dir. simpl. by apply kv_plain_sid. Qed.

(** a refreshed store is empty *)
Lemma refresh_ok d num_entries : header_sizes (d_hdr d) → free_queue d = [] → u64 (num_entries * 4) = r_size → global_num_engines = r_threads →
  ∃ d', refresh d num_entries = Ok d' ∧ dyn_rep d' ∅.
Proof.
  intros Hh Hq Hs Ht. unfold refresh. rewrite Hs, Ht. destruct (rk_init (d_region d)) as (r & -> & Hr). cbn [mbind outcome_bind]. eexists. split; [done|].
  exists ∅, ∅, ∅. split_and!; [|by rewrite !dom_empty_L|by rewrite fmap_empty]. split; simpl; try done; [by apply refresh_header_rep|..].
  - intros s p Hp _. unfold ptr_at in Hp. apply fmap_Some in Hp as (v & Hv & ->). apply lookup_replicate in Hv as [-> _]. done.
  - by intros k [].
  - rewrite Hq. set_solver.
  - rewrite Hq. constructor.
Qed.

Hypothesis Hthreads : 0 <= r_threads.
Hypothesis Hone : global_num_servers = 1.

Lemma owned_all key ts : owned key 0 ts = ts.
Proof.
  unfold owned. rewrite Hone. induction ts as [|t ts IH]; [done|]. rewrite filter_cons, decide_True; [by rewrite IH|apply Z.mod_1_r].
Qed.

Lemma fits_triples ts : Forall triple_fits ts → triples_ok ts ts.
Proof.
  intros Hts. rewrite Forall_forall in Hts. split; [done|apply Forall_forall; intros t Ht; by apply Hts|]. intros t Ht. by apply Hts.
Qed.

(** C11: loading triples into a running store and querying it: a store that holds the
    triples [T], with every allocator that meets its interface, takes further triples in
    any order, with ids converted by the mapping files; the load fails an assertion when
    the store is full, or else every plan then computes the solutions of its patterns
    over the old and the new triples together. *)
Theorem dynamic_load_query (g : DGraph) (kv : gmap ikey_t (list sid_t)) (k : nat) (T : list triple_t) (maps : list id_file) (input : list triple_t)
    (check_dup : bool) (n : nat) (pg : PatternGroup) :
  let new := convert_triple (id2id (dynamic_load_mappings g maps)) <$> input in
  dyn_rep (dg_store g) kv → grown k T T kv → Z.of_nat (2 * length input + k) < max_edges → Forall triple_fits (new ++ T) →
  patterns pg ≠ [] → plan_ok n 0 ∅ (patterns pg) = true → (Z.of_nat (length (patterns pg)) < NO_RESULT)%Z →
  (∀ i p, patterns pg !! i = Some p → source_ok i p = true) →
  dynamic_load_data false 0 g maps true input check_dup = Err AssertFail ∨
  ∃ g', dynamic_load_data false 0 g maps true input check_dup = Ok g' ∧ id2id g' = ∅ ∧
    let _ := dyn_graph (dg_store g') in
    ∃ q' rows, run_patterns false (length (patterns pg)) (query_of pg n) = Ok q' ∧ res_rows (result q') rows ∧
      ∀ σ, (∀ v, is_sid (σ v) ∧ σ v ≠ 0%Z) →
        (∀ i p, patterns pg !! i = Some p → triple_holds (new ++ T) i σ p) ↔
        ∃ row, row ∈ rows ∧ agree (result q') (plan_vars (patterns pg)) row σ.
Proof.
  intros new Hd Hg Hlen Hfit Hne Hplan Hsz Hsrc. unfold dynamic_load_data. set (g1 := dynamic_load_mappings g maps) in *.
  assert (Hst : dg_store g1 = dg_store g) by (unfold g1, dynamic_load_mappings; by destruct (foldl _ _ _)). rewrite Hst.
  pose proof Hfit as [Hnew _]%Forall_app.
  assert (Hserv : 0 < global_num_servers < 2 ^ 31) by (rewrite Hone; lia).
  destruct (load_lines_ok Hthreads Hserv 0 (id2id g1) check_dup input (dg_store g) kv k T T Hd Hg Hlen) as [(d' & kv' & -> & Hd' & Hg')|E];
    [revert Hnew; unfold new; by rewrite Forall_fmap| |by left; rewrite E].
  right. cbn [mbind outcome_bind]. eexists. split; [done|]. split; [done|]. rewrite !owned_all in Hg'. cbv zeta.
  pose proof (gr_loaded _ _ _ _ Hg') as Hld.
  apply (graph_query_ok (dyn_graph d') (dyn_graph_ok d' kv' Hd' (ld_plain _ _ _ Hld)) kv' (new ++ T) (new ++ T)); try done. by apply fits_triples.
Qed.
End query.

(** *** Two triples, one vertex renamed *)

Section example.
#[local] Instance ex_region : Malloc_Interface := buddy_interface BuddySafe.blank.
#[local] Instance ex_clock : Clock := Z.of_nat.

Lemma ex_threads : BuddyHeap.threads_fit 1.
Proof. unfold BuddyHeap.threads_fit. lia. Qed.

#[local] Instance ex_region_ok : MallocOk ex_region :=
  @buddy_ok BuddySafe.blank BuddySafe.two_chunks 1 ex_threads ltac:(vm_compute; split; congruence).

Definition ex_store : dstore := DStore _ (HTable 64 4 4 0 []) (Buddy.MkBuddy ∅ 0 0 0 0 [] [] [] [], ∅) [] 0.

Definition ex_strings : String_Server := MkStrings {["<a>"%string := 131080]} {[131080 := "<a>"%string]} ∅ 8 131090.
Definition ex_maps : list id_file := [StrNormal [("<a>"%string, 131072)]].
Definition ex_input : list triple_t := [Triple 131072 5 131073; Triple 131072 1 7].

Lemma dynamic_load_query_witness : ∃ d g', @refresh one_server ex_region ex_store (2 ^ 31) = Ok d ∧
  @dynamic_load_data one_server ex_clock ex_region false 0 (MkDGraph ex_strings ∅ d) ex_maps true ex_input true = Ok g' ∧
  ∃ q' (rows : list (list sid_t)), @run_patterns false one_server (dyn_graph (dg_store g')) 2 (query_of typed_plan 2) = Ok q' ∧
    ∃ row, row ∈ rows ∧ agree (result q') (plan_vars (patterns typed_plan)) row (λ v, if v =? -1 then 131080 else 131073).
Proof.
  assert (Hrun : (d ← @refresh one_server ex_region ex_store (2 ^ 31);
    g ← @dynamic_load_data one_server ex_clock ex_region false 0 (MkDGraph ex_strings ∅ d) ex_maps true ex_input true; Ok true) = Ok true) by (vm_compute; reflexivity).
  destruct (@refresh_ok one_server ex_region ex_region_ok ex_store (2 ^ 31)) as (d & Ed & Hd); [split; simpl; unfold ASSOCIATIVITY; lia|reflexivity|reflexivity|reflexivity|].
  exists d. destruct (@dynamic_load_query one_server ex_clock ex_region ex_region_ok ltac:(discriminate) eq_refl (MkDGraph ex_strings ∅ d) ∅ 0 [] ex_maps ex_input true 2 typed_plan)
    as [Eg|(g' & Eg & _ & q' & rows & Hq & _ & Hsol)].
  - exact Hd.
  - exact grown_empty.
  - reflexivity.
  - change (Forall triple_fits [Triple 131080 5 131073; Triple 131080 1 7]).
    apply Forall_cons; split; [|apply Forall_cons; split; [|constructor]]; (split; [split; simpl; lia|unfold TYPE_ID; simpl; lia..|unfold BLANK_ID; simpl; lia]).
  - discriminate.
  - vm_compute. reflexivity.
  - vm_compute. reflexivity.
  - intros [|[|i]] p Hp; simpl in Hp; [injection Hp as <-; vm_compute; reflexivity..|done].
  - exfalso. rewrite Ed in Hrun. cbn [mbind outcome_bind] in Hrun. rewrite Eg in Hrun. discriminate Hrun.
  - exists g'. split; [exact Ed|]. split; [exact Eg|]. exists q', rows. split; [exact Hq|].
    refine (proj1 (Hsol (λ v, if v =? -1 then 131080 else 131073) _) _).
    + intros v. unfold is_sid. cbv beta. destruct (v =? -1); lia.
    + intros [|[|i]] p Hp; simpl in Hp; [..|done]; injection Hp as <-.
      * exists (Triple 131080 1 7). split; [apply list_elem_of_further, list_elem_of_here|]. split; [reflexivity|]. right. split; reflexivity.
      * apply list_elem_of_here.
Defined.
End example.
