(* ===== verification/DynRemote.v ===== *)
(** Remote reads of the dynamic store ([core/gstore.hpp] built with [DYNAMIC_GSTORE]): the
    location cache whose items expire, the size flag by which a reader sees that a cached
    pointer is out of date, and the loop that tries again.

    The reader and the owner of the vertex are different servers; [me] is the header
    region of the reader, whose sizes it computes the offsets with. Their clocks are
    taken to be one. *)

From S2P Require Import Prelude Types MyMath Keys HashTable Region Dynamic DynamicOk.
From S2P Require GStore Remote.
Local Open Scope Z_scope.

(** ** The cache *)

Record item := MkItem { it_v : vertex_t; expire_time : Z }.
Definition rdma_cache : Type := gmap Z item.
Definition cache_item (c : rdma_cache) (idx : Z) : item := default (MkItem empty_vertex 0) (c !! idx).

Section remote.
  Context `{Config, Clock, M : Malloc_Interface} (me : htable) (buf_sz : Z).

Definition tick (d : dstore) : dstore := DStore _ (d_hdr d) (d_region d) (free_queue d) (S (d_reads d)).

Definition cache_idx (key : ikey_t) : Z := i32 (key_hash key mod Remote.NUM_ITEMS).

(** the clock is read when the key is there *)
Definition cache_lookup (d : dstore) (c : rdma_cache) (key : ikey_t) : option vertex_t * dstore :=
  if negb global_enable_caching then (None, d)
  else
    let it := cache_item c (cache_idx key) in
    if key_eqb (v_key (it_v it)) key then
      (if usec (d_reads d) <? expire_time it then Some (it_v it) else None, tick d)
    else (None, d).

Definition cache_insert (d : dstore) (c : rdma_cache) (v : vertex_t) : dstore * rdma_cache :=
  if negb global_enable_caching then (d, c)
  else (tick d, <[cache_idx (v_key v) := MkItem v (u64 (usec (d_reads d) + lease))]> c).

Definition cache_invalidate (c : rdma_cache) (key : ikey_t) : rdma_cache :=
  if negb global_enable_caching then c
  else
    let it := cache_item c (cache_idx key) in
    if key_eqb (v_key (it_v it)) key then <[cache_idx key := MkItem (Vertex empty_key (v_ptr (it_v it))) (expire_time it)]> c else c.

(** ** One-sided reads *)

(** the header region of the owner *)
Definition headers (d : dstore) : GStore.gstore := GStore.GStore (d_hdr d) 0 0 [].

Definition get_vertex_remote (d : dstore) (c : rdma_cache) (key : ikey_t) : outcome (vertex_t * dstore * rdma_cache) :=
  ASSERT global_use_rdma;
  let '(r, d) := cache_lookup d c key in
  match r with
  | Some v => Ok (v, d, c)
  | None =>
      r ← Remote.remote_loop buf_sz (chain_fuel (d_hdr d)) (headers d) key (bucket_of me key);
      match r with
      | Some v => let '(d, c) := cache_insert d c v in Ok (v, d, c)
      | None => Ok (empty_vertex, d, c) (* not found *)
      end
  end.

(** the words of the whole block; what the allocator has written is no edge *)
Definition rdma_get_edges (d : dstore) (v : vertex_t) : outcome (list (outcome sid_t)) :=
  ASSERT global_use_rdma;
  let r_off := Z.of_nat (num_slots me) * 16 + p_off (v_ptr v) * 4 in
  blk_sz ← blksz (p_size (v_ptr v) + 1);
  ASSERT (u64 (blk_sz * 4) <? buf_sz); (* enough space to host the edges *)
  let base := Z.of_nat (num_slots (d_hdr d)) * 16 in
  if (base <=? r_off) && ((r_off - base) mod 4 =? 0)
  then Ok ((λ i, r_load (d_region d) ((r_off - base) / 4 + Z.of_nat i)) <$> seq 0 (Z.to_nat blk_sz))
  else Err OutOfBounds.

Definition edge_is_valid (v : vertex_t) (words : list (outcome sid_t)) : outcome bool :=
  if negb global_enable_caching then Ok true
  else
    blk_sz ← blksz (p_size (v_ptr v) + 1); (* reserve one space for flag *)
    w ← read words (Z.to_nat (blk_sz - 1));
    x ← w;
    Ok (x =? p_size (v_ptr v)).

(** [while (!edge_is_valid(v, edge_ptr))] *)
Fixpoint retry (fuel : nat) (d : dstore) (c : rdma_cache) (key : ikey_t) (v : vertex_t) (words : list (outcome sid_t))
    : outcome (vertex_t * list (outcome sid_t) * dstore * rdma_cache) :=
  match fuel with
  | O => Err OutOfFuel
  | S fuel =>
      valid ← edge_is_valid v words;
      if valid : bool then Ok (v, words, d, c)
      else
        let c := cache_invalidate c key in
        '(v, d, c) ← get_vertex_remote d c key;
        words ← rdma_get_edges d v;
        retry fuel d c key v words
  end.

(** one retry is enough when no edge is inserted meanwhile *)
Definition retry_fuel : nat := 2.

(** the edges under the vertex that was found *)
Definition read_retry (d : dstore) (c : rdma_cache) (key : ikey_t) (v : vertex_t) : outcome (list sid_t * dstore * rdma_cache) :=
  words ← rdma_get_edges d v;
  '(v, words, d, c) ← retry retry_fuel d c key v words;
  es ← mapM id (take (Z.to_nat (p_size (v_ptr v))) words);
  Ok (es, d, c).

Definition get_edges_remote (d : dstore) (c : rdma_cache) (vid : sid_t) (dir : dir_t) (pid : sid_t) : outcome (list sid_t * dstore * rdma_cache) :=
  key ← mk_ikey vid pid dir;
  '(v, d, c) ← get_vertex_remote d c key;
  if Keys.is_empty (v_key v) then Ok ([], d, c) (* not found *)
  else read_retry d c key v.
End remote.
