(* ===== verification/DynRemoteOk.v ===== *)
(** Remote reads of the dynamic store are coherent: while edges are inserted, blocks moved
    and freed, and cached pointers expire, a read that no insertion interrupts returns what
    the owner stores. The size flag catches every pointer that is out of date, because a
    moved block is kept until the leases of the pointers to it have ended. *)

From S2P Require Import Prelude Types MyMath Keys HashTable Region Dynamic DynamicOk DynRemote.
From S2P Require GStore Remote.
Local Open Scope Z_scope.

Section coherence.
  Context `{Config, Clock, M : Malloc_Interface, !MallocOk M} (me : htable) (buf_sz : Z).

(** ** Cached pointers *)

(** A pointer [p] of the key [k] that may be used until [dl] is the current one, or its
    block is still there and shows that it is not. *)
Definition pointer_ok (d : dstore) (U : gmap Z Z) (E : entries) (k : ikey_t) (p : iptr_t) (dl : Z) : Prop :=
  ∃ p' vals, E !! k = Some (p', vals) ∧ p_size p <= p_size p' ∧
    (p' = p ∨ ∃ c, r_sz_to_blksz (4 * (p_size p + 1)) = Ok c ∧ U !! (4 * p_off p) = Some c ∧ 0 <= p_size p <= max_edges ∧
      (p_off p' = p_off p ∧ p_size p < p_size p' ∨ ∃ b, b ∈ free_queue d ∧ fb_off b = p_off p ∧ dl <= fb_expire b)).

(** the lease has not begun later than now; after it nothing is known *)
Record known_ok (d : dstore) (U : gmap Z Z) (E : entries) (k : ikey_t) (p : iptr_t) (dl : Z) : Prop := {
  kn_lease : dl <= usec (d_reads d) + lease;
  kn_pointer : usec (d_reads d) < dl → pointer_ok d U E k p dl
}.

Lemma known_evolves d m U E d' U' E' k p dl : clock_ok → dyn_ok d m U E → known_ok d U E k p dl → evolves d U E d' U' E' → known_ok d' U' E' k p dl.
Proof.
  intros Hck Hd [Hl Hp] [Hr He Hq]. pose proof (ck_mono Hck _ _ Hr). split; [lia|]. intros Hlt.
  destruct Hp as (p1 & vals1 & Hk & Hz & Hc); [lia|]. destruct (He _ _ _ Hk) as (p2 & vals2 & Hk2 & Hz2 & [[Hu Hc2]|?]); [|lia].
  exists p2, vals2. split_and!; [done|lia|]. destruct Hc as [->|(c & Ec & Hb & Hs & Hc)].
  - destruct Hc2 as [->|Hc2]; [by left|]. right. destruct (dy_entry _ _ _ _ Hd _ _ _ Hk) as [Hsz _ (c & Ec & Hb & _) Hm _]. exists c.
    split_and!; [done|congruence|lia|done|]. destruct Hc2 as [?|(b & ? & ? & ?)]; [by left|right]. exists b. split_and!; [done|done|lia].
  - right. exists c. split; [done|]. destruct Hc as [[Eo Hs1]|(b & Hb1 & Eb & Hx)].
    + rewrite <-Eo. rewrite <-Eo in Hb. split_and!; [congruence|lia|lia|]. destruct Hc2 as [->|[[? ?]|(b & ? & ? & ?)]]; [left|left|right].
      * split; [done|lia].
      * split; [done|lia].
      * exists b. split_and!; [done|done|lia].
    + destruct (Hq b Hb1) as [[Hb2 Hu2]|?]; [|lia]. rewrite <-Eb in *. split_and!; [congruence|lia|lia|]. right. by exists b.
Qed.

Definition cache_ok (d : dstore) (U : gmap Z Z) (E : entries) (c : rdma_cache) : Prop :=
  global_enable_caching = true → ∀ idx it, c !! idx = Some it → v_key (it_v it) ≠ empty_key →
    known_ok d U E (v_key (it_v it)) (v_ptr (it_v it)) (expire_time it).

Lemma cache_evolves d m U E d' U' E' c : clock_ok → dyn_ok d m U E → cache_ok d U E c →
  (global_enable_caching = true → evolves d U E d' U' E') → cache_ok d' U' E' c.
Proof. intros Hck Hd Hc He Hon idx it Hit Hne. eapply known_evolves; [done|done|by eapply Hc|by apply He]. Qed.

Lemma cache_tick d m U E c : clock_ok → dyn_ok d m U E → cache_ok d U E c → cache_ok (tick d) U E c.
Proof. intros Hck Hd Hc. eapply cache_evolves; [done|done|done|]. intros _. apply evolves_same; simpl; [lia|done|done]. Qed.

Lemma dyn_tick d m U E : dyn_ok d m U E → dyn_ok (tick d) m U E.
Proof. intros Hd. apply dyn_queue; [done|done|apply Hd]. Qed.

Lemma invalidate_ok d U E c k : cache_ok d U E c → cache_ok d U E (cache_invalidate c k).
Proof.
  intros Hc Hon. unfold cache_invalidate. rewrite Hon. cbn [negb]. generalize (cache_idx k). intros i. destruct (key_eqb _ _); [|by apply Hc].
  intros idx it [[_ <-]|[_ Hit]]%lookup_insert_Some Hne; [done|by eapply Hc].
Qed.

(** ** One read *)

(** The reader has the sizes of the owner. *)
Definition same_sizes (d : dstore) : Prop := num_slots me = num_slots (d_hdr d) ∧ num_buckets me = num_buckets (d_hdr d).

Hypothesis Hclock : clock_ok.
Hypothesis Hrdma : global_use_rdma = true.
Hypothesis Hbuf : Remote.bucket_size < buf_sz.

(** the block of [n] edges does not fit the buffer *)
Definition too_large (n : Z) : Prop := ∃ c, r_sz_to_blksz (4 * (n + 1)) = Ok c ∧ buf_sz <= c.

Lemma too_large_mono n n' : 0 <= n <= n' → n' <= max_edges → too_large n → too_large n'.
Proof.
  intros Hn Hm (c & Ec & Hc). destruct (cap_some n') as [c' Ec']; [lia|]. exists c'. split; [done|].
  destruct (rk_blksz (4 * (n + 1))) as (c1 & E1 & _ & _ & Hsame); [unfold max_request, max_edges in *; lia|]. rewrite Ec in E1. injection E1 as <-.
  destruct (rk_blksz (4 * (n' + 1))) as (c1 & E1 & ? & _); [unfold max_request, max_edges in *; lia|]. rewrite Ec' in E1. injection E1 as <-.
  destruct (decide (4 * (n' + 1) <= c)) as [Hle|]; [|lia]. rewrite Hsame in Ec' by lia. injection Ec' as <-. lia.
Qed.

Lemma mapM_prefix (f : nat → outcome sid_t) vals n : (∀ i x, vals !! i = Some x → f i = Ok x) → (length vals <= n)%nat →
  mapM id (take (length vals) (f <$> seq 0 n)) = Ok vals.
Proof.
  intros Hf Hn. rewrite <-fmap_take, take_seq, Nat.min_l by lia. clear Hn. revert f Hf. induction vals as [|x vals IH]; intros f Hf; [done|]. cbn [length seq fmap list_fmap mapM].
  unfold id at 1. rewrite (Hf 0%nat x eq_refl). cbn [mbind outcome_bind]. rewrite <-seq_shift, <-list_fmap_compose.
  change (mapM id ((f ∘ S) <$> seq 0 (length vals)) ≫= (λ k, mret (x :: k)) = Ok (x :: vals)).
  rewrite (IH (f ∘ S)); [done|]. intros i y Hy. by apply Hf.
Qed.

(** What a read under a pointer gives: its edges when it is current, or else the flag of
    another size. *)
Lemma read_pointer d m U E k p dl v : dyn_ok d m U E → same_sizes d → pointer_ok d U E k p dl → v_ptr v = p →
  (∃ words, rdma_get_edges me buf_sz d v = Ok words ∧
    ((∃ vals, E !! k = Some (p, vals) ∧ edge_is_valid v words = Ok true ∧ mapM id (take (Z.to_nat (p_size p)) words) = Ok vals) ∨
     (∀ vals, E !! k ≠ Some (p, vals)) ∧ (global_enable_caching = true → edge_is_valid v words = Ok false))) ∨
  rdma_get_edges me buf_sz d v = Err AssertFail ∧ too_large (p_size p).
Proof.
  intros Hd [Hsl _] (p' & vals & Hk & Hz & Hc) Hv. pose proof (dy_entry _ _ _ _ Hd _ _ _ Hk) as He. destruct (entry_words _ _ _ _ He) as (c' & Ec' & Hb' & Hf' & Hcap' & _).
  assert (Hblk : ∃ c x, r_sz_to_blksz (4 * (p_size p + 1)) = Ok c ∧ U !! (4 * p_off p) = Some c ∧ 0 <= p_size p <= max_edges ∧
    r_load (d_region d) (flag_at (p_off p) c) = Ok x ∧ (p' = p ∧ x = p_size p ∨ p' ≠ p ∧ x ≠ p_size p)).
  { destruct Hc as [->|(c & Ec & Hb & Hs & Hc)].
    - exists c', (p_size p). destruct He. split_and!; [done|done|lia|done|done|by left].
    - exists c. destruct Hc as [[Eo Hlt]|(b & Hb1 & Eb & _)].
      + rewrite Eo in *. rewrite Hb in Hb'. injection Hb' as <-. exists (p_size p'). split_and!; [done|done|lia|lia|done|]. right. split; [intros ->; lia|lia].
      + destruct (dy_queue _ _ _ _ Hd b Hb1) as (c1 & Hc1 & _ & Hf1). rewrite Eb in *. rewrite Hb in Hc1. injection Hc1 as <-. exists INVALID_EDGES.
        split_and!; [done|done|lia|lia|done|]. right. split; [intros ->; by apply (dy_queue_apart _ _ _ _ Hd b k _ Hb1 Hk)|]. unfold max_edges in Hs. change INVALID_EDGES with (2 ^ 28). lia. }
  destruct Hblk as (c & x & Ec & Hb & Hs & Hx & Hcase). destruct (cap_ok (p_size p) c) as (j & -> & Hj); [lia|done|].
  destruct (block_range _ _ (p_off p) (4 * j) (dy_region _ _ _ _ Hd) Hb) as [? ?]; [lia|].
  assert (Hbs : blksz (p_size p + 1) = Ok j) by (rewrite (blksz_ok _ (4 * j)) by done; by rewrite (Z.mul_comm 4), Z.div_mul by lia).
  assert (Hfl : flag_at (p_off p) (4 * j) = p_off p + Z.of_nat (Z.to_nat (j - 1))) by (unfold flag_at; rewrite (Z.mul_comm 4), Z.div_mul; lia). rewrite Hfl in Hx.
  unfold rdma_get_edges. rewrite Hrdma, Hv, Hbs. cbn [assert_that mbind outcome_bind]. rewrite u64_id by lia. destruct (Z.ltb_spec (j * 4) buf_sz) as [Hlt|Hge]; [|right].
  - left. cbn [assert_that mbind outcome_bind]. rewrite Hsl, (proj2 (Z.leb_le _ _)) by lia. replace (_ + p_off p * 4 - _) with (p_off p * 4) by lia.
    rewrite Z.mod_mul, Z.div_mul by lia. cbn [andb Z.eqb]. eexists. split; [done|].
    assert (Hval : edge_is_valid v ((λ i, r_load (d_region d) (p_off p + Z.of_nat i)) <$> seq 0 (Z.to_nat j)) = if negb global_enable_caching then Ok true else Ok (x =? p_size p)).
    { unfold edge_is_valid. destruct global_enable_caching; [|done]. cbn [negb]. rewrite Hv, Hbs. cbn [mbind outcome_bind].
      unfold read. rewrite list_lookup_fmap, lookup_seq_lt by lia. cbn [fmap option_fmap option_map mbind outcome_bind]. rewrite Nat.add_0_l, Hx. done. }
    rewrite Hval. destruct Hcase as [[-> ->]|[Hne Hxne]].
    + left. exists vals. split; [done|]. split; [by rewrite Z.eqb_refl; destruct (negb _)|]. destruct He as [Hsz _ _ _ Hvals]. rewrite Hsz, Nat2Z.id.
      apply mapM_prefix; [done|lia].
    + right. split; [intros vals' Hk'; congruence|]. intros ->. cbn [negb]. by rewrite (proj2 (Z.eqb_neq _ _)).
  - cbn [assert_that mbind outcome_bind]. split; [done|]. exists (4 * j). split; [done|lia].
Qed.

(** only the clock has been read *)
Definition later (d d' : dstore) : Prop :=
  d_hdr d' = d_hdr d ∧ d_region d' = d_region d ∧ free_queue d' = free_queue d ∧ (d_reads d <= d_reads d')%nat.

#[local] Instance later_preorder : PreOrder later.
Proof.
  split; [by intros d|]. intros d1 d2 d3 (E1 & E2 & E3 & E4) (F1 & F2 & F3 & F4). unfold later. rewrite F1, F2, F3, E1, E2, E3. split_and!; [done..|lia].
Qed.

Lemma later_tick d : later d (tick d).
Proof. unfold later. simpl. split_and!; [done..|lia]. Qed.

Lemma later_evolves d d' U E : later d d' → evolves d U E d' U E.
Proof. intros (_ & _ & Eq & Hr). apply evolves_same; [done|by rewrite Eq|done]. Qed.

Lemma later_tick_or d d' : d' = d ∨ d' = tick d → later d d'.
Proof. intros [->| ->]; [done|apply later_tick]. Qed.

(** The owner's store and the reader's cache agree. *)
Record reader_ok (d : dstore) (c : rdma_cache) (m : gmap ikey_t nat) (U : gmap Z Z) (E : entries) : Prop := {
  rd_store : dyn_ok d m U E;
  rd_dom : dom m = dom E;
  rd_sizes : same_sizes d;
  rd_cache : cache_ok d U E c
}.

Lemma reader_tick d c m U E : reader_ok d c m U E → reader_ok (tick d) c m U E.
Proof. intros [Hd Hdom Hs Hc]. split; [by apply dyn_tick|done|done|by eapply cache_tick]. Qed.

Lemma current_ok d m U E k p vals : dyn_ok d m U E → E !! k = Some (p, vals) → ∀ dl, pointer_ok d U E k p dl.
Proof. intros Hd Hk dl. exists p, vals. split_and!; [done|lia|by left]. Qed.

Lemma insert_ok d c m U E v vals : reader_ok d c m U E → E !! v_key v = Some (v_ptr v, vals) →
  ∃ d' c', cache_insert d c v = (d', c') ∧ (d' = d ∨ d' = tick d) ∧ reader_ok d' c' m U E.
Proof.
  intros Hr Hk. unfold cache_insert. destruct global_enable_caching eqn:Hon; cbn [negb]; [|exists d, c; split_and!; [done|by left|done]].
  eexists _, _. split; [done|]. split; [by right|]. destruct (reader_tick _ _ _ _ _ Hr) as [Hd Hdom Hs Hc]. split; try done.
  intros _ idx it [[_ <-]|[_ Hit]]%lookup_insert_Some Hne; [|by apply (Hc Hon idx)]. simpl. pose proof (ck_range Hclock (d_reads d)).
  pose proof (ck_mono Hclock (d_reads d) (S (d_reads d)) ltac:(lia)). split; simpl.
  - rewrite u64_id by (unfold lease; lia). lia.
  - intros _. by eapply current_ok.
Qed.

(** a lookup that asks the owner gets the current pointer *)
Lemma fetch_ok d c m U E key : reader_ok d c m U E → key ≠ empty_key → (∃ d1, cache_lookup d c key = (None, d1) ∧ (d1 = d ∨ d1 = tick d)) →
  ∃ v d' c', get_vertex_remote me buf_sz d c key = Ok (v, d', c') ∧ later d d' ∧ reader_ok d' c' m U E ∧
    (E !! key = None ∧ v = empty_vertex ∨ v_key v = key ∧ ∃ vals, E !! key = Some (v_ptr v, vals)).
Proof.
  intros Hr Hne (d1 & El & Hd1). unfold get_vertex_remote. rewrite Hrdma, El. cbn [assert_that mbind outcome_bind].
  assert (Hr1 : reader_ok d1 c m U E) by (destruct Hd1 as [->| ->]; [done|by apply reader_tick]).
  pose proof Hr1 as [Hd Hdom [_ Hsb] _]. rewrite (bucket_of_proper me (d_hdr d1)) by done.
  destruct (Remote.home_find buf_sz (headers d1) m key (dy_hdr _ _ _ _ Hd) Hbuf) as (r & Hloc & Hloop & Hk). change (GStore.hdr (headers d1)) with (d_hdr d1) in *. rewrite Hloop. cbn [mbind outcome_bind].
  pose proof (get_vertex_local_lookup (d_hdr d1) m key (dy_hdr _ _ _ _ Hd) Hne) as Hg. destruct (m !! key) as [s|] eqn:Hs.
  - destruct Hg as (v & Hv & Hvk & Hg). rewrite Hg in Hloc. injection Hloc as Ev. destruct r as [v'|]; simpl in Ev; subst v; [|by rewrite <-Hvk in Hne].
    assert (HE : key ∈ dom E) by (rewrite <-Hdom; by eapply elem_of_dom_2). apply elem_of_dom in HE as [[p vals] HE].
    pose proof (dy_ptr _ _ _ _ Hd _ _ _ Hs HE) as Hp. unfold ptr_at in Hp. rewrite Hv in Hp. simpl in Hp. injection Hp as <-.
    destruct (insert_ok d1 c m U E v' vals) as (d' & c' & -> & Ht & Hr'); [done|by rewrite Hvk|]. exists v', d', c'. split_and!; [done| |done|].
    + trans d1; by apply later_tick_or.
    + right. split; [done|]. by exists vals.
  - rewrite Hg in Hloc. injection Hloc as Ev. destruct r as [v'|]; simpl in Ev; [specialize (Hk v' eq_refl); subst v'; by rewrite <-Hk in Hne|].
    exists empty_vertex, d1, c. split_and!; [done|by apply later_tick_or|done|]. left. split; [|done].
    apply not_elem_of_dom. rewrite <-Hdom. by apply not_elem_of_dom.
Qed.

Lemma cache_item_insert (c : rdma_cache) i it : cache_item (<[i := it]> c) i = it.
Proof. unfold cache_item. by rewrite (lookup_insert_eq (c : gmap Z item)). Qed.

Lemma lookup_invalidated d c key : key ≠ empty_key → cache_lookup d (cache_invalidate c key) key = (None, d).
Proof.
  intros Hne. unfold cache_lookup, cache_invalidate. destruct global_enable_caching; cbn [negb]; [|done]. generalize (cache_idx key). intros i.
  destruct (key_eqb (v_key (it_v (cache_item c i))) key) eqn:Ek; [|by rewrite Ek].
  rewrite cache_item_insert. simpl. by destruct (key_eqb_spec empty_key key).
Qed.

(** the time until which the pointer that a lookup returns is good *)
Definition deadline (d : dstore) (c : rdma_cache) (key : ikey_t) : Z :=
  match (cache_lookup d c key).1 with Some _ => expire_time (cache_item c (cache_idx key)) | None => usec (d_reads d) + lease end.

Lemma vertex_ok d c m U E key : reader_ok d c m U E → key ≠ empty_key →
  ∃ v d' c', get_vertex_remote me buf_sz d c key = Ok (v, d', c') ∧ later d d' ∧ reader_ok d' c' m U E ∧
    (E !! key = None ∧ v = empty_vertex ∨ v_key v = key ∧ pointer_ok d' U E key (v_ptr v) (deadline d c key) ∧ known_ok d' U E key (v_ptr v) (deadline d c key) ∧ (global_enable_caching = true ∨ ∃ vals, E !! key = Some (v_ptr v, vals))).
Proof.
  intros Hr Hne. unfold deadline. destruct (cache_lookup d c key) as [[v|] d1] eqn:El; cbn [fst].
  - unfold get_vertex_remote. rewrite Hrdma, El. cbn [assert_that mbind outcome_bind]. revert El. unfold cache_lookup. destruct global_enable_caching eqn:Hon; cbn [negb]; [|done].
    generalize (cache_idx key). intros i. unfold cache_item. destruct (key_eqb_spec (v_key (it_v (default (MkItem empty_vertex 0) (c !! i)))) key) as [Ek|]; [|done].
    destruct (c !! i) as [it|] eqn:Ei; simpl in *; [|congruence]. destruct (Z.ltb_spec (usec (d_reads d)) (expire_time it)) as [Hlt|]; [|done]. intros [= <- <-].
    exists (it_v it), (tick d), c. split_and!; [done|apply later_tick|by apply reader_tick|]. right. split; [done|].
    pose proof (rd_cache _ _ _ _ _ Hr Hon i it Ei ltac:(congruence)) as Hkn. rewrite Ek in Hkn. split_and!; [by apply (kn_pointer _ _ _ _ _ _ Hkn)| |by left].
    eapply known_evolves; [done|apply Hr|done|apply later_evolves, later_tick].
  - destruct (fetch_ok d c m U E key) as (v & d' & c' & -> & Ht & Hr' & Hv); [done|done| |].
    { exists d1. split; [done|]. revert El. unfold cache_lookup. generalize (cache_idx key). intros i. destruct (negb _); [intros [= <-]; by left|].
      destruct (key_eqb _ _); [|intros [= <-]; by left]. destruct (_ <? _); intros [=]; auto. }
    exists v, d', c'. split_and!; [done..|]. destruct Hv as [?|(? & vals & Hk)]; [by left|right]. split_and!; [done| | |by right; exists vals].
    + eapply current_ok; [apply Hr'|done].
    + split; [|intros _; eapply current_ok; [apply Hr'|done]]. destruct Ht as (_ & _ & _ & Ht). pose proof (ck_mono Hclock _ _ Ht). lia.
Qed.

Lemma large_current d m U E k p vals p' dl : dyn_ok d m U E → E !! k = Some (p, vals) → pointer_ok d U E k p' dl → too_large (p_size p') → too_large (Z.of_nat (length vals)).
Proof.
  intros Hd Hk (p1 & vals1 & Hk1 & Hz & Hc). rewrite Hk in Hk1. injection Hk1 as <- <-. destruct (dy_entry _ _ _ _ Hd _ _ _ Hk) as [Hsz _ _ Hm _].
  apply too_large_mono; [|lia]. split; [|lia]. destruct Hc as [->|(c & _ & _ & [? _] & _)]; lia.
Qed.

(** ** The read with its retries *)

(** the words are read and checked, and read again when they are not those of the pointer *)
Lemma retry_ok d c m U E k v dl : reader_ok d c m U E → k ≠ empty_key → pointer_ok d U E k (v_ptr v) dl → (global_enable_caching = true ∨ ∃ vals, E !! k = Some (v_ptr v, vals)) →
  let es := default [] (snd <$> E !! k) in
  let r := read_retry me buf_sz d c k v in
  (∃ d' c', r = Ok (es, d', c') ∧ later d d' ∧ reader_ok d' c' m U E) ∨ r = Err AssertFail ∧ too_large (Z.of_nat (length es)).
Proof.
  intros Hr Hne Hp Hcur es r. unfold r, es, read_retry. pose proof Hr as [Hd Hdom Hs Hc]. pose proof Hp as (pk & vals & HE & _ & _). rewrite HE. simpl.
  destruct (read_pointer d m U E k _ dl v Hd Hs Hp eq_refl) as [(words & -> & Hwords)|[-> ?]]; [|right; split; [done|by eapply large_current]]. cbn [mbind outcome_bind].
  unfold retry_fuel. cbn [retry]. destruct Hwords as [(vals' & HE' & -> & Hm)|[Hold Hfalse]].
  { rewrite HE in HE'. injection HE' as -> <-. left. cbn [mbind outcome_bind]. rewrite Hm. cbn [mbind outcome_bind]. by exists d, c. }
  destruct Hcur as [Hon|(vals' & HE')]; [|by apply Hold in HE']. rewrite (Hfalse Hon). cbn [mbind outcome_bind].
  destruct (fetch_ok d (cache_invalidate c k) m U E k) as (v2 & d2 & c2 & -> & Ht2 & Hr2 & Hv2);
    [split; [done|done|done|by apply invalidate_ok]|done|exists d; split; [by apply lookup_invalidated|by left]|]. cbn [mbind outcome_bind].
  destruct Hv2 as [[? _]|(Hvk2 & vals2 & HE2)]; [congruence|]. rewrite HE in HE2. injection HE2 as -> <-. pose proof Hr2 as [Hd2 Hdom2 Hs2 Hc2].
  destruct (read_pointer d2 m U E k _ 0 v2 Hd2 Hs2 (current_ok _ _ _ _ _ _ _ Hd2 HE 0) eq_refl) as [(words2 & -> & Hwords2)|[-> ?]];
    [|right; split; [done|by apply (large_current d2 m U E k (v_ptr v2) vals (v_ptr v2) 0); [|done|by eapply current_ok|]]]. cbn [mbind outcome_bind].
  destruct Hwords2 as [(vals2 & HE2 & -> & Hm2)|[Hold2 _]]; [|by apply Hold2 in HE]. rewrite HE in HE2. injection HE2 as <-. cbn [mbind outcome_bind].
  rewrite Hm2. cbn [mbind outcome_bind]. left. by exists d2, c2.
Qed.

Lemma get_edges_remote_ok d c m U E vid dir pid : reader_ok d c m U E → key_wf (IKey vid pid (dir_val dir)) → IKey vid pid (dir_val dir) ≠ empty_key →
  let es := default [] (snd <$> E !! IKey vid pid (dir_val dir)) in
  (∃ d' c', get_edges_remote me buf_sz d c vid dir pid = Ok (es, d', c') ∧ later d d' ∧ reader_ok d' c' m U E) ∨
  get_edges_remote me buf_sz d c vid dir pid = Err AssertFail ∧ too_large (Z.of_nat (length es)).
Proof.
  intros Hr Hw Hne es. unfold get_edges_remote. rewrite (proj2 (mk_ikey_Ok vid pid dir _)) by done. cbn [mbind outcome_bind]. set (k := IKey vid pid (dir_val dir)) in *.
  destruct (vertex_ok d c m U E k) as (v & d1 & c1 & -> & Ht & Hr1 & Hv); [done|done|]. cbn [mbind outcome_bind].
  destruct Hv as [[HE ->]|(Hvk & Hp & _ & Hcur)]; [left; exists d1, c1; unfold es; by rewrite HE|].
  destruct (is_empty_spec (v_key v)) as [?|_]; [congruence|].
  destruct (retry_ok d1 c1 m U E k v (deadline d c k)) as [(d' & c' & -> & Ht' & Hr')|[-> ?]]; [done|done|done|done| |by right].
  left. exists d', c'. split_and!; [done|by trans d1|done].
Qed.
End coherence.
