(* ===== verification/DynCoherent.v ===== *)
(** Readers and writers of the dynamic store side by side: any sequence of insertions at the
    owner of the vertices, reads from another server and passing time is an execution of
    the finite map of edge lists. *)

From S2P Require Import Prelude Types MyMath Keys HashTable Region Dynamic DynamicOk DynRemote DynRemoteOk DynQuery.
From S2P Require GStore Remote BuddySafe.
Local Open Scope Z_scope.

(** ** What happens *)

Inductive action :=
  | Insert (vid : sid_t) (dir : dir_t) (pid : sid_t) (value : sid_t) (dedup : bool)
  | Fetch (vid : sid_t) (dir : dir_t) (pid : sid_t)
  | Wait.

Definition action_wf (a : action) : Prop :=
  match a with
  | Insert vid dir pid _ _ | Fetch vid dir pid => key_wf (IKey vid pid (dir_val dir)) ∧ IKey vid pid (dir_val dir) ≠ empty_key
  | Wait => True
  end.

(** on the map *)
Definition edges_after (kv : gmap ikey_t (list sid_t)) (a : action) : gmap ikey_t (list sid_t) :=
  match a with
  | Insert vid dir pid value dedup =>
      let k := IKey vid pid (dir_val dir) in
      let old := default [] (kv !! k) in
      if dedup && bool_decide (value ∈ old) then kv else <[k := old ++ [value]]> kv
  | _ => kv
  end.

Section coherent.
  Context `{Config, Clock, M : Malloc_Interface} (me : htable) (buf_sz : Z).

(** on the store of the owner and the cache of the reader *)
Definition perform (s : dstore * rdma_cache) (a : action) : outcome (dstore * rdma_cache) :=
  let '(d, c) := s in
  match a with
  | Insert vid dir pid value dedup =>
      key ← mk_ikey vid pid dir;
      '(_, _, d) ← insert_vertex_edge d key value dedup;
      Ok (d, c)
  | Fetch vid dir pid => '(_, d, c) ← get_edges_remote me buf_sz d c vid dir pid; Ok (d, c)
  | Wait => Ok (tick d, c)
  end.

(** ** Sizes *)

(** the sizes of the header region *)
Definition sizes (d : dstore) : nat * nat := (num_slots (d_hdr d), num_buckets (d_hdr d)).

Lemma alloc_hdr d n tid off d' : alloc_edges d n tid = Ok (off, d') → d_hdr d' = d_hdr d.
Proof.
  unfold alloc_edges. intros (d1 & E1 & E)%bind_Ok. apply bind_Ok in E as ([v r] & _ & E). apply bind_Ok in E as (r' & _ & [= _ <-]). simpl.
  destruct global_enable_caching; [|by injection E1 as ->]. unfold sweep_free in E1. apply bind_Ok in E1 as ([[q n'] r1] & _ & [= <-]). done.
Qed.

Lemma write_ptr_sizes d s p d' : write_vertex_ptr d s p = Ok d' → sizes d' = sizes d.
Proof. unfold write_vertex_ptr. by intros (vs & _ & [= <-])%bind_Ok. Qed.

Lemma first_edge_sizes d s value b d' : first_edge d s value = Ok (b, d') → sizes d' = sizes d.
Proof.
  unfold first_edge. intros ([off d1] & E1 & E)%bind_Ok. apply bind_Ok in E as (p & _ & E). apply bind_Ok in E as (d2 & E2 & [= _ <-]).
  rewrite (write_ptr_sizes _ _ _ _ E2). unfold sizes. simpl. by rewrite (alloc_hdr _ _ _ _ _ E1).
Qed.

Lemma grow_sizes d s p value b d' : grow_in_place d s p value = Ok (b, d') → sizes d' = sizes d.
Proof. unfold grow_in_place. intros (r & _ & E)%bind_Ok. apply bind_Ok in E as (d1 & E1 & [= _ <-]). by rewrite (write_ptr_sizes _ _ _ _ E1). Qed.

Lemma move_sizes d s p value b d' : move_edges d s p value = Ok (b, d') → sizes d' = sizes d.
Proof.
  unfold move_edges. intros ([off d1] & E1 & E)%bind_Ok. apply bind_Ok in E as (r & _ & E). apply bind_Ok in E as (r1 & _ & E). apply bind_Ok in E as (p' & _ & E).
  apply bind_Ok in E as (d2 & E2 & E). assert (Hs : sizes d2 = sizes d) by (rewrite (write_ptr_sizes _ _ _ _ E2); unfold sizes; simpl; by rewrite (alloc_hdr _ _ _ _ _ E1)).
  destruct global_enable_caching; [by injection E as _ <-|]. by apply bind_Ok in E as (r2 & _ & [= _ <-]).
Qed.

Lemma insert_sizes d m key value dedup b d' : ht_rep (d_hdr d) m → key ≠ empty_key → insert_vertex_edge d key value dedup = Ok (b, d') → sizes d' = sizes d.
Proof.
  intros Hrep Hne. unfold insert_vertex_edge. intros ([s h] & E1 & E)%bind_Ok.
  assert (Hs : sizes (set_hdr d h) = sizes d).
  { pose proof (insert_key_cases (d_hdr d) m key false Hrep Hne) as Hc. unfold sizes. simpl. destruct (m !! key); [rewrite E1 in Hc; by injection Hc as -> ->|].
    destruct Hc as [(s' & h' & E2 & Hpost)|[E2 _]]; rewrite E2 in E1; [|done]. injection E1 as <- <-. by rewrite (ip_size _ _ _ _ _ Hpost), (ip_main _ _ _ _ _ Hpost). }
  rewrite <-Hs. apply bind_Ok in E as (v & _ & E). destruct (_ =? 0); [by apply first_edge_sizes in E|]. apply bind_Ok in E as (dup & _ & E). destruct dup; [by injection E as _ <-|].
  apply bind_Ok in E as (bs & _ & E). destruct (_ <? _); [by apply move_sizes in E|by apply grow_sizes in E].
Qed.

(** a read at whose lookup the owner goes on: what happens in between comes before the
    words are read *)
Definition get_edges_interrupted (s : dstore * rdma_cache) (vid : sid_t) (dir : dir_t) (pid : sid_t) (between : list action)
    : outcome (list sid_t * (dstore * rdma_cache)) :=
  key ← mk_ikey vid pid dir;
  '(v, d, c) ← get_vertex_remote me buf_sz s.1 s.2 key;
  s ← foldM perform (d, c) between;
  if Keys.is_empty (v_key v) then Ok ([], s)
  else '(es, d, c) ← read_retry me buf_sz s.1 s.2 key v; Ok (es, (d, c)).

(** ** Executions *)

  Context `{!MallocOk M}.
  Hypothesis Hclock : clock_ok.
  Hypothesis Hrdma : global_use_rdma = true.
  Hypothesis Hbuf : Remote.bucket_size < buf_sz.
  Hypothesis Hthreads : 0 <= r_threads.

(** no list is longer than [n] *)
Definition lists_fit (n : nat) (E : entries) : Prop := ∀ k, (length (default [] (snd <$> E !! k)) <= n)%nat.

(** [s'] with [E'] comes from [s] with [E] and stands for the map after [acts] *)
Record reached (s : dstore * rdma_cache) (U : gmap Z Z) (E : entries) (acts : list action) (s' : dstore * rdma_cache) (m' : gmap ikey_t nat) (U' : gmap Z Z) (E' : entries) : Prop := {
  rc_ok : reader_ok me s'.1 s'.2 m' U' E';
  rc_map : snd <$> E' = foldl edges_after (snd <$> E) acts;
  rc_evolves : global_enable_caching = true → evolves s.1 U E s'.1 U' E'
}.

Lemma perform_ok s m U E a n : reader_ok me s.1 s.2 m U E → action_wf a → lists_fit n E → Z.of_nat n < max_edges →
  perform s a = Err AssertFail ∨ ∃ s' m' U' E', perform s a = Ok s' ∧ reached s U E [a] s' m' U' E' ∧ lists_fit (S n) E'.
Proof.
  destruct s as [d c]. intros Hr Ha Hlen Hn. assert (Hlen' : lists_fit (S n) E) by (intros k; specialize (Hlen k); lia).
  destruct a as [vid dir pid value dedup|vid dir pid|]; simpl in *.
  - destruct Ha as [Hw Hne]. rewrite (proj2 (mk_ikey_Ok vid pid dir _)) by done. cbn [mbind outcome_bind]. set (k := IKey vid pid (dir_val dir)) in *.
    destruct Hr as [Hd Hdom Hs Hc]. specialize (Hlen k) as Hlk.
    destruct (insert_vertex_edge_core d m U E k value dedup Hd Hdom Hne Hthreads) as [(d' & m' & U' & E' & E1 & Hd' & Hdom' & Ekv & Hev)|[-> _]]; [lia| |by left]. right.
    rewrite E1. cbn [mbind outcome_bind]. exists (d', c), m', U', E'. split; [done|]. split; [split; simpl|].
    + split; [done|done| |by eapply cache_evolves; [..|by apply Hev]].
      pose proof (insert_sizes d m k value dedup _ d' (dy_hdr _ _ _ _ Hd) Hne E1) as Es. unfold sizes in Es. injection Es as E2 E3. unfold same_sizes. cbn [fst]. by rewrite E2, E3.
    + fold k. by rewrite Ekv, lookup_fmap.
    + by apply Hev.
    + intros k'. rewrite <-lookup_fmap, Ekv. destruct (dedup && _); [rewrite lookup_fmap; apply Hlen'|].
      destruct (decide (k' = k)) as [->|]; [rewrite lookup_insert_eq; simpl; rewrite length_app; simpl; lia|]. rewrite lookup_insert_ne, lookup_fmap by done. apply Hlen'.
  - destruct Ha as [Hw Hne]. destruct (get_edges_remote_ok me buf_sz Hclock Hrdma Hbuf d c m U E vid dir pid Hr Hw Hne) as [(d' & c' & -> & Ht & Hr')|[-> _]]; [right|by left].
    cbn [mbind outcome_bind]. exists (d', c'), m, U, E. split; [done|]. split; [|done]. split; [done|done|]. intros _. by apply later_evolves.
  - right. exists (tick d, c), m, U, E. split; [done|]. split; [|done]. split; [by apply reader_tick|done|]. intros _. apply later_evolves, later_tick.
Qed.

Lemma run_ok acts : ∀ s m U E n, reader_ok me s.1 s.2 m U E → Forall action_wf acts → lists_fit n E → Z.of_nat (n + length acts) < max_edges →
  foldM perform s acts = Err AssertFail ∨ ∃ s' m' U' E', foldM perform s acts = Ok s' ∧ reached s U E acts s' m' U' E' ∧ lists_fit (n + length acts) E'.
Proof.
  induction acts as [|a acts IH]; intros s m U E n Hr Hw Hlen Hn; simpl in *.
  { right. exists s, m, U, E. split; [done|]. rewrite Nat.add_0_r. split; [|done]. split; [done|done|]. intros _. by apply evolves_same. }
  apply Forall_cons in Hw as [Ha Hw]. destruct (perform_ok s m U E a n) as [->|(s1 & m1 & U1 & E1 & -> & [Hr1 Em1 Hv1] & Hlen1)]; [done|done|done|lia|by left|].
  cbn [mbind outcome_bind]. simpl in Em1. destruct (IH s1 m1 U1 E1 (S n)) as [->|(s2 & m2 & U2 & E2 & -> & [Hr2 Em2 Hv2] & Hlen2)]; [done|done|done|lia|by left|].
  right. exists s2, m2, U2, E2. split; [done|]. rewrite Nat.add_succ_r. split; [|done]. split; [done|by rewrite Em2, Em1|].
  intros Hon. eapply evolves_trans; [done|by apply Hv1|by apply Hv2].
Qed.

Lemma start_ok d m U E : dyn_ok d m U E → dom m = dom E → same_sizes me d → reader_ok me d ∅ m U E.
Proof. intros. split; [done|done|done|]. by intros _ idx it Hit. Qed.

Lemma reads_local d c m U E vid dir pid : reader_ok me d c m U E → key_wf (IKey vid pid (dir_val dir)) → IKey vid pid (dir_val dir) ≠ empty_key →
  get_edges_local d vid dir pid = Ok (default [] (snd <$> E !! IKey vid pid (dir_val dir))).
Proof. intros Hr Hw Hne. rewrite <-lookup_fmap. apply get_edges_dyn; [|done|done]. exists m, U, E. split_and!; [apply Hr|apply Hr|done]. Qed.

(** C12: remote reads of the dynamic store: while the owner inserts edges, moving and
    freeing blocks, and a reader caches pointers for as long as their leases last, each
    read that runs between insertions returns exactly the edges that the owner has
    then, in the order of insertion; it fails an assertion only when a block does not
    fit the RDMA buffer, and one retry is enough. *)
Theorem remote_reads_coherent (d0 : dstore) (kv0 : gmap ikey_t (list sid_t)) (n : nat) (acts : list action) (vid : sid_t) (dir : dir_t) (pid : sid_t) :
  dyn_rep d0 kv0 → same_sizes me d0 → (∀ k, (length (default [] (kv0 !! k)) <= n)%nat) → Z.of_nat (n + length acts) < max_edges →
  Forall action_wf (acts ++ [Fetch vid dir pid]) →
  let es := default [] (foldl edges_after kv0 acts !! IKey vid pid (dir_val dir)) in
  foldM perform (d0, ∅) acts = Err AssertFail ∨
  ∃ d c, foldM perform (d0, ∅) acts = Ok (d, c) ∧ get_edges_local d vid dir pid = Ok es ∧
    ((∃ d' c', get_edges_remote me buf_sz d c vid dir pid = Ok (es, d', c')) ∨
     get_edges_remote me buf_sz d c vid dir pid = Err AssertFail ∧ too_large buf_sz (Z.of_nat (length es))).
Proof.
  intros (m & U & E & Hd & Hdom & ->) Hsz Hlen Hn [Hw [[Hkw Hne] _]%Forall_cons]%Forall_app es.
  destruct (run_ok acts (d0, ∅) m U E n) as [->|([d c] & m1 & U1 & E1 & -> & [Hr Ekv _] & _)]; [by apply start_ok|done|intros k; by rewrite <-lookup_fmap|done|by left|right].
  exists d, c. split; [done|]. unfold es. rewrite <-Ekv, lookup_fmap. split; [by eapply reads_local|].
  destruct (get_edges_remote_ok me buf_sz Hclock Hrdma Hbuf d c m1 U1 E1 vid dir pid Hr Hkw Hne) as [(d' & c' & -> & _)|[-> ?]]; [left; by exists d', c'|by right].
Qed.

(** a remote read that insertions interrupt between its lookup and its read of the
    words, with caching on: when the words are read before the lease of the pointer
    ends, the result is the edges that the owner has at that moment, or the read
    found nothing because the key had no edges when it began. *)
Theorem interrupted_read (d0 : dstore) (kv0 : gmap ikey_t (list sid_t)) (n : nat) (acts between : list action) (vid : sid_t) (dir : dir_t) (pid : sid_t) (s : dstore * rdma_cache) :
  global_enable_caching = true → dyn_rep d0 kv0 → same_sizes me d0 → (∀ k, (length (default [] (kv0 !! k)) <= n)%nat) → Z.of_nat (n + length (acts ++ between)) < max_edges →
  Forall action_wf (acts ++ between ++ [Fetch vid dir pid]) → foldM perform (d0, ∅) acts = Ok s →
  let k := IKey vid pid (dir_val dir) in
  (∀ v d c s', get_vertex_remote me buf_sz s.1 s.2 k = Ok (v, d, c) → foldM perform (d, c) between = Ok s' → usec (d_reads s'.1) < deadline s.1 s.2 k) →
  get_edges_interrupted s vid dir pid between = Err AssertFail ∨
  ∃ es s', get_edges_interrupted s vid dir pid between = Ok (es, s') ∧
    (get_edges_local s'.1 vid dir pid = Ok es ∨ es = [] ∧ get_edges_local s.1 vid dir pid = Ok es).
Proof.
  intros Hon (m & U & E & Hd & Hdom & ->) Hsz Hlen Hn [Hw [Hw2 [[Hkw Hne] _]%Forall_cons]%Forall_app]%Forall_app Hrun k Hlease. rewrite length_app in Hn.
  destruct (run_ok acts (d0, ∅) m U E n) as [E0|(s1 & m1 & U1 & E1 & E0 & [Hr1 Em1 _] & Hlen1)]; [by apply start_ok|done|intros i; by rewrite <-lookup_fmap|lia|congruence|].
  rewrite Hrun in E0. injection E0 as <-. destruct s as [d1 c1]. simpl in *.
  unfold get_edges_interrupted. rewrite (proj2 (mk_ikey_Ok vid pid dir _)) by done. cbn [mbind outcome_bind fst snd]. fold k. fold k in Hkw, Hne.
  destruct (vertex_ok me buf_sz Hclock Hrdma Hbuf d1 c1 m1 U1 E1 k Hr1 Hne) as (v & d2 & c2 & Ev & Ht & Hr2 & Hv). rewrite Ev. cbn [mbind outcome_bind].
  destruct (run_ok between (d2, c2) m1 U1 E1 (n + length acts)) as [->|(s3 & m3 & U3 & E3 & Eb & [Hr3 Em3 Hv3] & _)]; [done|done|done|lia|by left|].
  rewrite Eb. cbn [mbind outcome_bind]. destruct Hv as [[HE ->]|(Hvk & _ & Hkn & _)].
  { right. exists [], s3. split; [done|]. right. split; [done|]. rewrite (reads_local d1 c1 m1 U1 E1) by done. fold k. by rewrite HE. }
  destruct (is_empty_spec (v_key v)) as [?|_]; [congruence|].
  pose proof (known_evolves d2 m1 U1 E1 s3.1 U3 E3 k _ _ Hclock (rd_store _ _ _ _ _ _ Hr2) Hkn (Hv3 Hon)) as Hkn3.
  pose proof (kn_pointer _ _ _ _ _ _ Hkn3 (Hlease _ _ _ _ Ev Eb)) as Hp.
  destruct (retry_ok me buf_sz Hclock Hrdma Hbuf s3.1 s3.2 m3 U3 E3 k v _ Hr3 Hne Hp) as [(d' & c' & -> & Ht' & Hr')|[-> _]]; [by left| |by left]. right. cbn [mbind outcome_bind].
  eexists _, _. split; [done|]. left. by eapply reads_local.
Qed.
End coherent.

(** ** Two vertices *)

Section example.
#[local] Instance two_region : Malloc_Interface := buddy_interface BuddySafe.blank.
#[local] Instance two_region_ok : MallocOk two_region :=
  @buddy_ok BuddySafe.blank BuddySafe.two_chunks 1 ex_threads ltac:(vm_compute; split; congruence).

Definition two_caching : Config := MkConfig 2 2 1 1 true true 1 300 false.

(** no lease ends *)
Definition slow_clock : Clock := λ n, Z.min (Z.of_nat n) 10.

(** the third reading comes just before the end of a lease that began with the first,
    the fourth just after the end of the one that began with the second *)
Definition race_clock : Clock := λ n, match n with O => 0 | S O => 1 | S (S O) => lease - 1 | _ => lease + 1 end.

Definition edge_a (x : sid_t) : action := Insert 131073 OUT 5 x false.
Definition edge_b (x : sid_t) : action := Insert 131075 OUT 5 x false.

(** the block of the first vertex is cached, full and then moved *)
Definition moved : list action := [edge_a 1; edge_a 2; edge_a 3; Fetch 131073 OUT 5; edge_a 4].

Lemma slow_clock_ok : @clock_ok slow_clock.
Proof. split; intros; unfold usec, slow_clock; lia. Qed.

Lemma race_clock_ok : @clock_ok race_clock.
Proof.
  split; unfold usec, race_clock, lease.
  - intros [|[|[|i]]] [|[|[|j]]]; lia.
  - intros [|[|[|i]]]; lia.
Qed.

Lemma wf_key vid pid : 0 < vid < 2 ^ 46 → 0 <= pid < 2 ^ 17 → key_wf (IKey vid pid (dir_val OUT)) ∧ IKey vid pid (dir_val OUT) ≠ empty_key.
Proof. intros. split; [unfold key_wf; simpl; lia|]. by intros [=]. Qed.

Lemma moved_wf : Forall action_wf moved.
Proof. repeat (apply Forall_cons; split; [by apply wf_key|]). constructor. Qed.

Lemma moved_read_wf : Forall action_wf (moved ++ [Fetch 131073 OUT 5]).
Proof. apply Forall_app. split; [exact moved_wf|]. apply Forall_cons. split; [by apply wf_key|constructor]. Qed.

Lemma moved_between_wf : Forall action_wf (moved ++ [edge_b 7; edge_a 5] ++ [Fetch 131073 OUT 5]).
Proof. apply Forall_app. split; [exact moved_wf|]. repeat (apply Forall_cons; split; [by apply wf_key|]). constructor. Qed.

Lemma ex_refresh : ∃ d, @refresh two_caching two_region ex_store (2 ^ 31) = Ok d ∧ dyn_rep d ∅.
Proof. apply (@refresh_ok two_caching two_region two_region_ok); [split; simpl; unfold ASSOCIATIVITY; lia|reflexivity..]. Qed.

Lemma remote_reads_coherent_witness : ∃ d s d' c', @refresh two_caching two_region ex_store (2 ^ 31) = Ok d ∧
  foldM (@perform two_caching race_clock two_region (d_hdr d) 1024) (d, ∅) moved = Ok s ∧
  @get_edges_remote two_caching race_clock two_region (d_hdr d) 1024 s.1 s.2 131073 OUT 5 = Ok ([1; 2; 3; 4], d', c').
Proof.
  assert (Hrun : (d ← @refresh two_caching two_region ex_store (2 ^ 31);
    s ← foldM (@perform two_caching race_clock two_region (d_hdr d) 1024) (d, ∅) moved;
    r ← @get_edges_remote two_caching race_clock two_region (d_hdr d) 1024 s.1 s.2 131073 OUT 5; Ok true) = Ok true) by (vm_compute; reflexivity).
  destruct ex_refresh as (d & Ed & Hd). rewrite Ed in Hrun. cbn [mbind outcome_bind] in Hrun. exists d.
  destruct (@remote_reads_coherent two_caching race_clock two_region (d_hdr d) 1024 two_region_ok race_clock_ok eq_refl ltac:(vm_compute; reflexivity) ltac:(discriminate)
    d ∅ 0 moved 131073 OUT 5) as [E|(d1 & c1 & E & _ & [(d' & c' & E2)|[E2 _]])].
  - exact Hd.
  - split; reflexivity.
  - intros k. rewrite lookup_empty. simpl. lia.
  - vm_compute. reflexivity.
  - exact moved_read_wf.
  - rewrite E in Hrun. discriminate Hrun.
  - exists (d1, c1), d', c'. split; [exact Ed|]. split; [exact E|]. exact E2.
  - rewrite E in Hrun. cbn [mbind outcome_bind fst snd] in Hrun. rewrite E2 in Hrun. discriminate Hrun.
Defined.

Lemma interrupted_read_witness : ∃ d s es s', @refresh two_caching two_region ex_store (2 ^ 31) = Ok d ∧
  foldM (@perform two_caching slow_clock two_region (d_hdr d) 1024) (d, ∅) moved = Ok s ∧
  @get_edges_interrupted two_caching slow_clock two_region (d_hdr d) 1024 s 131073 OUT 5 [edge_b 7; edge_a 5] = Ok (es, s').
Proof.
  assert (Hrun : (d ← @refresh two_caching two_region ex_store (2 ^ 31);
    s ← foldM (@perform two_caching slow_clock two_region (d_hdr d) 1024) (d, ∅) moved;
    r ← @get_edges_interrupted two_caching slow_clock two_region (d_hdr d) 1024 s 131073 OUT 5 [edge_b 7; edge_a 5];
    Ok (10 <? @deadline two_caching slow_clock two_region s.1 s.2 (IKey 131073 5 (dir_val OUT)))) = Ok true) by (vm_compute; reflexivity).
  destruct ex_refresh as (d & Ed & Hd). rewrite Ed in Hrun. cbn [mbind outcome_bind] in Hrun. exists d.
  destruct (foldM (@perform two_caching slow_clock two_region (d_hdr d) 1024) (d, ∅) moved) as [s|] eqn:Es; [|discriminate Hrun]. cbn [mbind outcome_bind] in Hrun. exists s.
  destruct (@interrupted_read two_caching slow_clock two_region (d_hdr d) 1024 two_region_ok slow_clock_ok eq_refl ltac:(vm_compute; reflexivity) ltac:(discriminate)
    d ∅ 0 moved [edge_b 7; edge_a 5] 131073 OUT 5 s) as [E|(es & s' & E & _)].
  - reflexivity.
  - exact Hd.
  - split; reflexivity.
  - intros k. rewrite lookup_empty. simpl. lia.
  - vm_compute. reflexivity.
  - exact moved_between_wf.
  - exact Es.
  - intros v d2 c2 s2 _ _. destruct (get_edges_interrupted _ _ s _ _ _ _) in Hrun; [|discriminate Hrun]. cbn [mbind outcome_bind] in Hrun.
    injection Hrun as Hlt. apply Z.ltb_lt in Hlt. refine (Z.le_lt_trans _ 10 _ _ Hlt). apply Z.le_min_r.
  - rewrite E in Hrun. discriminate Hrun.
  - exists es, s'. split; [exact Ed|]. split; [reflexivity|exact E].
Defined.

(** the lease leaves no time for the read itself: a pointer that is looked up two
    microseconds before its block is freed is used after the block has new edges, and
    their size flag is the size in the pointer: the edges of another vertex are returned
    for the vertex. *)
Theorem lease_race : @clock_ok race_clock ∧ ∃ d s s', @refresh two_caching two_region ex_store (2 ^ 31) = Ok d ∧
  foldM (@perform two_caching race_clock two_region (d_hdr d) 1024) (d, ∅) moved = Ok s ∧
  @get_edges_interrupted two_caching race_clock two_region (d_hdr d) 1024 s 131073 OUT 5 [edge_b 7; edge_b 8; edge_b 9] = Ok ([7; 8; 9], s') ∧
  @get_edges_local two_region s'.1 131073 OUT 5 = Ok [1; 2; 3; 4] ∧ @get_edges_local two_region s'.1 131075 OUT 5 = Ok [7; 8; 9].
Proof.
  split; [exact race_clock_ok|].
  assert (Hrun : (d ← @refresh two_caching two_region ex_store (2 ^ 31);
    s ← foldM (@perform two_caching race_clock two_region (d_hdr d) 1024) (d, ∅) moved;
    r ← @get_edges_interrupted two_caching race_clock two_region (d_hdr d) 1024 s 131073 OUT 5 [edge_b 7; edge_b 8; edge_b 9];
    a ← @get_edges_local two_region r.2.1 131073 OUT 5; b ← @get_edges_local two_region r.2.1 131075 OUT 5; Ok (r.1, a, b)) = Ok ([7; 8; 9], [1; 2; 3; 4], [7; 8; 9]))
    by (vm_compute; reflexivity).
  apply bind_Ok in Hrun as (d & Ed & Hrun). apply bind_Ok in Hrun as (s & Es & Hrun). apply bind_Ok in Hrun as ([es s'] & Ei & Hrun).
  apply bind_Ok in Hrun as (a & Ea & Hrun). apply bind_Ok in Hrun as (b & Eb & Hrun). cbn [fst snd] in *. injection Hrun as -> -> ->.
  exists d, s, s'. by split_and!.
Qed.
End example.
