(* ===== verification/Planner.v ===== *)
(** [core/planner.hpp]: the cost-based planner, which orders the triple patterns of a
    query by a depth-first search over all valid orders.

    The costs are [double]s: an interface with the operations of the code and no laws,
    so that what is proved holds whatever the costs are (also for infinities and NaN).
    A chain is a group of four consecutive ids in the vectors of the code. The arrays of
    [Minimum_maintenance] and [min_select_record] are used as stacks: they are lists with
    the last element first, and a push beyond the allocated size is out of bounds. *)

From S2P Require Import Prelude Types Keys Query.
Local Open Scope Z_scope.

(** floating-point numbers of the language *)
Class Double := {
  double : Type;
  d_int : Z → double;                 (* conversion of an integer *)
  d_max : double;                     (* std::numeric_limits<double>::max() *)
  dadd : double → double → double;
  dmul : double → double → double;
  ddiv : double → double → double;
  dlt : double → double → bool;       (* a < b; b > a *)
  deq : double → double → bool        (* a == b *)
}.

(** ** Statistics *)

Record four_num := MkFour { out_out : Z; out_in : Z; in_in : Z; in_out : Z }.
Definition no_num : four_num := MkFour 0 0 0 0.

(** the counters of [data_statistic] for the whole data set; [operator[]] of a key that
    is not there inserts a zero, which no other lookup can tell from its absence *)
Record data_statistic := MkStat {
  global_ptcount : gmap Z Z;
  global_pscount : gmap Z Z;
  global_pocount : gmap Z Z;
  global_tyscount : gmap Z Z;
  global_ppcount : gmap (Z * Z) four_num
}.
Definition count (m : gmap Z Z) (k : Z) : Z := default 0 (m !! k).

(** ** [Minimum_maintenance] *)

Section planner.
  Context `{Config} `{Double} (statistic : data_statistic).

Record select_record := MkSelectRecord { sr_p : Z; sr_d : dir_t; sr_v : double }.

Record Minimum_maintenance := MkMin {
  mm_size : Z;
  stack0 : list select_record;   (* a descending sequence *)
  stack1 : list select_record;   (* the others *)
  order : list bool              (* the stack of each push, [true] for the second *)
}.
Definition new_min (s : Z) : Minimum_maintenance := MkMin (if s <? 1 then 1 else s) [] [] [].

Definition room_for {A} (l : list A) (size : Z) : bool := Z.of_nat (length l) <? size.

Definition mm_push (m : Minimum_maintenance) (ms : select_record) : outcome Minimum_maintenance :=
  let first := match stack0 m with [] => true | x :: _ => dlt (sr_v ms) (sr_v x) end in
  if room_for (if first then stack0 m else stack1 m) (mm_size m) && room_for (order m) (mm_size m) then
    Ok (if first then MkMin (mm_size m) (ms :: stack0 m) (stack1 m) (false :: order m)
        else MkMin (mm_size m) (stack0 m) (ms :: stack1 m) (true :: order m))
  else Err OutOfBounds.

Definition mm_pop (m : Minimum_maintenance) : Minimum_maintenance :=
  match order m with
  | [] => m
  | false :: o => MkMin (mm_size m) (tail (stack0 m)) (stack1 m) o
  | true :: o => MkMin (mm_size m) (stack0 m) (tail (stack1 m)) o
  end.

(** [top] on a non-empty stack; the code leaves the argument alone on an empty one *)
Definition mm_top (m : Minimum_maintenance) : outcome select_record :=
  match stack0 m with x :: _ => Ok x | [] => Err OutOfBounds end.
Definition mm_empty (m : Minimum_maintenance) : bool := match stack0 m with [] => true | _ => false end.

(** ** The planner *)

(** subject, predicate, direction and object of a pattern *)
Record chain := MkChain { c_s : Z; c_p : Z; c_d : dir_t; c_o : Z }.

Record Planner := MkPlanner {
  triples : list chain;
  min_cost : double;
  path : list chain;
  is_empty : bool;
  min_path : list chain;
  chains_size_div_4 : Z;
  min_select_record : list Z;            (* entries 1 .. [0], the last one first *)
  min_select : gmap Z Minimum_maintenance
}.

Definition set_path (x : list chain) (s : Planner) : Planner :=
  MkPlanner (triples s) (min_cost s) x (is_empty s) (min_path s) (chains_size_div_4 s) (min_select_record s) (min_select s).
Definition set_select (r : list Z) (m : gmap Z Minimum_maintenance) (s : Planner) : Planner :=
  MkPlanner (triples s) (min_cost s) (path s) (is_empty s) (min_path s) (chains_size_div_4 s) r m.
Definition set_min (c : double) (x : list chain) (s : Planner) : Planner :=
  MkPlanner (triples s) c (path s) (is_empty s) x (chains_size_div_4 s) (min_select_record s) (min_select s).
Definition set_empty (b : bool) (s : Planner) : Planner :=
  MkPlanner (triples s) (min_cost s) (path s) b (min_path s) (chains_size_div_4 s) (min_select_record s) (min_select s).

Definition push_chain (c : chain) (s : Planner) : Planner := set_path (path s ++ [c]) s.
Definition pop_chain (s : Planner) : Planner := set_path (removelast (path s)) s.

(** *** Selectivities *)

Definition dcount (m : gmap Z Z) (k : Z) : double := d_int (count m k).

(** a push on the entry of [v], which is created if there is none *)
Definition select_push (v : Z) (sr : select_record) (s : Planner) : outcome Planner :=
  let m := default (new_min (2 * chains_size_div_4 s)) (min_select s !! v) in
  m ← mm_push m sr;
  Ok (set_select (min_select_record s) (<[v := m]> (min_select s)) s).

(** the null pointer of a key that is not there is dereferenced *)
Definition select_pop (v : Z) (s : Planner) : outcome Planner :=
  match min_select s !! v with
  | Some m => Ok (set_select (min_select_record s) (<[v := mm_pop m]> (min_select s)) s)
  | None => Err Undefined
  end.

(** [min_select_record] has room for six numbers per pattern *)
Definition record_push (xs : list Z) (s : Planner) : outcome Planner :=
  if Z.of_nat (length (min_select_record s) + length xs) <=? 6 * chains_size_div_4 s
  then Ok (set_select (xs ++ min_select_record s) (min_select s) s) else Err OutOfBounds.

Definition new_add_selectivity (o1 p o2 : Z) (s : Planner) : outcome Planner :=
  if (o1 <? 0) && (0 <? o2) then
    let '(select_num, p) :=
      if p =? TYPE_ID then (dcount (global_pscount statistic) o2, o2)
      else (ddiv (dcount (global_pscount statistic) p) (dcount (global_pocount statistic) p), p) in
    s ← select_push o1 (MkSelectRecord p OUT select_num) s;
    record_push [1; o1] s
  else if (o2 <? 0) && (0 <? o1) then
    let select_num := ddiv (dcount (global_pocount statistic) p) (dcount (global_pscount statistic) p) in
    s ← select_push o2 (MkSelectRecord p IN select_num) s;
    record_push [1; o2] s
  else if (o1 <? 0) && (o2 <? 0) then
    s ← select_push o1 (MkSelectRecord p OUT (dcount (global_pscount statistic) p)) s;
    s ← select_push o2 (MkSelectRecord p IN (dcount (global_pocount statistic) p)) s;
    record_push [2; o2; o1] s
  else record_push [0] s.

Definition unadd_selectivity (s : Planner) : outcome Planner :=
  match min_select_record s with
  | [] => Ok s
  | lastnum :: r =>
      ASSERT (lastnum <? Z.of_nat (length (min_select_record s)));
      s ← foldM (λ s v, select_pop v s) s (take (Z.to_nat lastnum) r);
      Ok (set_select (drop (Z.to_nat lastnum) r) (min_select s) s)
  end.

(** prune using correlation estimation; [x] and [y] are not initialised for other
    directions *)
Definition com_prune (pre_results : double) (pre_p : Z) (pre_d : dir_t) (p : Z) (d : dir_t) (s : Planner) : outcome (double * Planner) :=
  if pre_p =? p then Ok (pre_results, s)
  else
    let pp a b := default no_num (global_ppcount statistic !! (a, b)) in
    let ps := dcount (global_pscount statistic) pre_p in
    let po := dcount (global_pocount statistic) pre_p in
    '(x, y) ← match pre_d, d with
      | OUT, OUT => Ok (if pre_p <? p then out_out (pp pre_p p) else out_out (pp p pre_p), ps)
      | IN, OUT => Ok (if pre_p <? p then in_out (pp pre_p p) else out_in (pp p pre_p), po)
      | IN, IN => Ok (if pre_p <? p then in_in (pp pre_p p) else in_in (pp p pre_p), po)
      | OUT, IN => Ok (if pre_p <? p then out_in (pp pre_p p) else in_out (pp p pre_p), ps)
      | _, _ => Err Undefined
      end;
    Ok (dmul pre_results (ddiv (d_int x) y), if deq (d_int x) (d_int 0) then set_empty true s else s).

(** *** The search *)

(** how the body of the loop goes on: with the next statement, with the next pattern, or
    by returning [false] *)
Inductive flow := Next | Continue | Stop.

Section body.
  Context (com_traverse : Z → double → double → Planner → outcome (bool * Planner)).
  Context (pt_bits : Z) (cost pre_results : double).

(** a pattern is appended, its selectivity recorded, and the search continued *)
Definition explore (c : chain) (add_cost : double) (pt_pick : Z) (o1 p o2 : Z) (s : Planner) : outcome (flow * Planner) :=
  let s := push_chain c s in
  let new_cost := dadd cost add_cost in
  if dlt (min_cost s) new_cost then Ok (Continue, pop_chain s)
  else
    s ← new_add_selectivity o1 p o2 s;
    '(ctn, s) ← com_traverse (Z.lor pt_bits (Z.shiftl 1 pt_pick)) new_cost add_cost s;
    s ← unadd_selectivity s;
    if ctn : bool then Ok (Next, pop_chain s) else Ok (Stop, s).

(** an index vertex is put in front, no pattern is picked *)
Definition explore_index (c : chain) (v : Z) (n : Z) (sr : select_record) (s : Planner) : outcome (flow * Planner) :=
  let s := push_chain c s in
  let add_cost := ddiv (d_int n) (d_int global_num_servers) in
  let new_cost := dadd cost add_cost in
  if dlt (min_cost s) new_cost then Ok (Continue, pop_chain s)
  else
    m ← mm_push (new_min (2 * chains_size_div_4 s)) sr;
    let s := set_select (min_select_record s) (<[v := m]> (min_select s)) s in
    '(ctn, s) ← com_traverse pt_bits new_cost add_cost s;
    s ← select_pop v s;
    if ctn : bool then Ok (Next, pop_chain s) else Ok (Stop, s).

Definition known_var (v : Z) (s : Planner) : bool :=
  match min_select s !! v with Some m => negb (mm_empty m) | None => false end.
Definition top_of (v : Z) (s : Planner) : outcome select_record :=
  match min_select s !! v with Some m => mm_top m | None => Err Undefined end.

(** sequencing of statements *)
Definition then_ (r : outcome (flow * Planner)) (k : Planner → outcome (flow * Planner)) : outcome (flow * Planner) :=
  '(f, s) ← r; match f with Next => k s | _ => Ok (f, s) end.

(** the first pattern *)
Definition pick_first (pt_pick : Z) (c : chain) (s : Planner) : outcome (flow * Planner) :=
  let '(MkChain o1 p d o2) := c in
  let pt := dcount (global_ptcount statistic) p in
  let ps := dcount (global_pscount statistic) p in
  let po := dcount (global_pocount statistic) p in
  then_ (if (o1 <? 0) && (o2 <? 0) then
           then_ (explore_index (MkChain p 0 IN o1) o1 (count (global_pscount statistic) p) (MkSelectRecord p d ps) s)
             (explore_index (MkChain p 0 OUT o2) o2 (count (global_pocount statistic) p) (MkSelectRecord p IN po))
         else Ok (Next, s))
    (λ s, if 0 <? o1 then explore (MkChain o1 p d o2) (ddiv pt ps) pt_pick o1 p o2 s
          else if 0 <? o2 then
            let add_cost := if p =? TYPE_ID then dcount (global_pscount statistic) o2 else ddiv pt po in
            explore (MkChain o2 p IN o1) add_cost pt_pick o1 p o2 s
          else Ok (Next, s)).

(** a later pattern *)
Definition pick_next (pt_pick : Z) (c : chain) (s : Planner) : outcome (flow * Planner) :=
  let '(MkChain o1 p d o2) := c in
  let pt := dcount (global_ptcount statistic) p in
  let ps := dcount (global_pscount statistic) p in
  let po := dcount (global_pocount statistic) p in
  then_ (if known_var o1 s then
           sr ← top_of o1 s;
           '(add_cost, s) ←
             (if (p =? TYPE_ID) && (0 <? o2) then com_prune pre_results (sr_p sr) (sr_d sr) o2 OUT s
              else if 0 <=? o2 then
                '(r, s) ← com_prune pre_results (sr_p sr) (sr_d sr) p OUT s; Ok (dmul (ddiv r po) (ddiv pt ps), s)
              else
                '(r, s) ← com_prune pre_results (sr_p sr) (sr_d sr) p OUT s; Ok (dmul r (ddiv pt ps), s));
           explore (MkChain o1 p d o2) add_cost pt_pick o1 p o2 s
         else Ok (Next, s))
    (λ s, if known_var o2 s then
            sr ← top_of o2 s;
            '(r, s) ← com_prune pre_results (sr_p sr) (sr_d sr) p IN s;
            let r := if 0 <=? o1 then ddiv r ps else r in
            explore (MkChain o2 p IN o1) (dmul r (ddiv pt po)) pt_pick o1 p o2 s
          else Ok (Next, s)).

Fixpoint pick_loop (picks : list Z) (s : Planner) : outcome (bool * Planner) :=
  match picks with
  | [] => Ok (true, s)
  | pt_pick :: picks =>
      if Z.testbit pt_bits pt_pick then pick_loop picks s
      else
        c ← read (triples s) (Z.to_nat pt_pick);
        '(f, s) ← (match path s with [] => pick_first pt_pick c s | _ => pick_next pt_pick c s end);
        match f with Stop => Ok (false, s) | _ => pick_loop picks s end
  end.
End body.

Definition COST_THRESHOLD : Z := 350.

(** all patterns are picked *)
Definition leaf (cost : double) (s : Planner) : outcome (bool * Planner) :=
  first ← (if deq (min_cost s) d_max && dlt cost (d_int COST_THRESHOLD) then
             c ← read (path s) 0; Ok (Z.shiftl 1 NBITS_IDX <=? c_s c)
           else Ok false);
  let s := if dlt cost (min_cost s) then set_min cost (path s) s else s in
  Ok (negb first, s).

Fixpoint com_traverse (fuel : nat) (pt_bits : Z) (cost pre_results : double) (s : Planner) : outcome (bool * Planner) :=
  match fuel with
  | O => Err OutOfFuel
  | S fuel =>
      if pt_bits =? u32 (Z.shiftl 1 (chains_size_div_4 s) - 1) then leaf cost s
      else pick_loop (com_traverse fuel) pt_bits cost pre_results (seqZ 0 (chains_size_div_4 s)) s
  end.

(** *** Plans *)

Definition chain_of (p : Pattern) : chain := MkChain (subject p) (predicate p) (direction p) (object p).

(** attribute patterns are left out of the search *)
Definition transfer_to_cmd_chains (ps : list Pattern) : list Pattern * list chain :=
  (filter (λ p, pred_type p ≠ 0) ps, chain_of <$> filter (λ p, pred_type p = 0) ps).

Definition has_const (c : chain) : bool := (Z.shiftl 1 NBITS_IDX <=? c_s c) || (Z.shiftl 1 NBITS_IDX <=? c_o c).

(** the first pattern with a constant vertex changes places with the first one *)
Definition prepare (cs : list chain) : list chain :=
  match list_find (λ c, has_const c = true) cs with
  | Some (i, c) => if (i =? 0)%nat then cs else match cs with [] => cs | c0 :: _ => <[0%nat := c]> (<[i := c0]> cs) end
  | None => cs
  end.

Definition pattern_of (c : chain) : Pattern := MkPattern (c_s c) (c_p c) (c_o c) (c_d c) 0.

Definition search (cs : list chain) : outcome (bool * Planner) :=
  let s := MkPlanner cs d_max [] false [] (Z.of_nat (length cs)) [] ∅ in
  com_traverse (length cs + 2) 0 (d_int 0) (d_int 0) s.

Definition generate_for_patterns (ps : list Pattern) : outcome (bool * list Pattern) :=
  let '(attrs, cs) := transfer_to_cmd_chains ps in
  '(_, s) ← search (prepare cs);
  if is_empty s then Ok (false, ps)
  else Ok (true, (pattern_of <$> min_path s) ++ attrs).

(** the result of the last part that is planned counts *)
Fixpoint generate_for_group (g : PatternGroup) : outcome (bool * PatternGroup) :=
  match g with
  | MkGroup par ps un fs opt vars =>
      let plan_unions := fix plan_unions (un : list PatternGroup) (success : bool) : outcome (bool * list PatternGroup) :=
        match un with
        | [] => Ok (success, [])
        | g :: un => '(success, g) ← generate_for_group g; '(success, un) ← plan_unions un success; Ok (success, g :: un)
        end in
      '(success, ps) ← (if (0 <? length ps)%nat then generate_for_patterns ps else Ok (true, ps));
      '(success, un) ← plan_unions un success;
      Ok (success, MkGroup par ps un fs opt vars)
  end.

Definition generate_plan (r : SPARQLQuery) : outcome (bool * SPARQLQuery) :=
  '(success, g) ← generate_for_group (pattern_group r); Ok (success, set_group g r).
End planner.

(** costs as integers with an infinite value, division by zero gives it *)
Definition int_double : Double := {|
  double := Z;
  d_int := λ z, z * 1000;
  d_max := 2 ^ 62;
  dadd := Z.add;
  dmul := λ a b, a * b / 1000;
  ddiv := λ a b, if b =? 0 then 2 ^ 62 else a * 1000 / b;
  dlt := Z.ltb;
  deq := Z.eqb
|}.

Definition sample_stat : data_statistic :=
  MkStat {[5 := 100; 6 := 10; 1 := 30]} {[5 := 20; 6 := 10; 7 := 3]} {[5 := 50; 6 := 10]} {[7 := 3]}
    {[(5, 6) := MkFour 5 5 5 5; (5, 7) := MkFour 1 1 1 1; (6, 7) := MkFour 1 2 3 4]}.
Definition two_servers : Config := MkConfig 2 2 1 1 true true 1 300 false.

Example plan_sample :
  @generate_for_patterns two_servers int_double sample_stat
    [MkPattern (-1) 5 (-2) OUT 0; MkPattern (-2) 6 (-3) OUT 0; MkPattern (-2) 1 7 OUT 0]
  = Ok (true, [MkPattern 7 1 (-2) IN 0; MkPattern (-2) 6 (-3) OUT 0; MkPattern (-2) 5 (-1) IN 0]).
Proof. vm_compute. reflexivity. Qed.
