(* ===== verification/PlannerOk.v ===== *)
(** The search of [core/planner.hpp] ends without an error, and the order it chooses is a
    plan: it takes every pattern once, in one of its two directions, starts from a
    constant or an index and continues from variables that are bound. *)

From S2P Require Import Prelude Types Keys Query Planner.
Local Open Scope Z_scope.

(** the counter for two directions *)
Definition four_get (f : four_num) (d d' : dir_t) : Z :=
  match d, d' with OUT, OUT => out_out f | OUT, IN => out_in f | IN, IN => in_in f | IN, OUT => in_out f | _, _ => 0 end.

(** how often two predicates occur together at a vertex, in the given directions *)
Definition cell (pp : gmap (Z * Z) four_num) (p : Z) (d : dir_t) (p' : Z) (d' : dir_t) : Z :=
  if p <? p' then four_get (default no_num (pp !! (p, p'))) d d' else four_get (default no_num (pp !! (p', p))) d' d.

Section search.
  Context `{Config} `{Double} (statistic : data_statistic) (T : list chain).
  Abbreviation n := (Z.of_nat (length T)).

(** ** Valid orders *)

Definition in_path (v : Z) (l : list chain) : Prop := ∃ c, c ∈ l ∧ v < 0 ∧ (v = c_s c ∨ v = c_o c).
Definition flipped (c : chain) : chain := MkChain (c_o c) (c_p c) IN (c_s c).
Definition nth_chain (i : Z) (c : chain) : Prop := 0 <= i ∧ T !! Z.to_nat i = Some c.

(** the orders of the search, with the patterns picked *)
Inductive reach : list chain → list Z → Prop :=
| reach_nil : reach [] []
| reach_index_s i c : nth_chain i c → c_s c < 0 → c_o c < 0 → reach [MkChain (c_p c) 0 IN (c_s c)] []
| reach_index_o i c : nth_chain i c → c_s c < 0 → c_o c < 0 → reach [MkChain (c_p c) 0 OUT (c_o c)] []
| reach_const_s i c : nth_chain i c → 0 < c_s c → reach [c] [i]
| reach_const_o i c : nth_chain i c → ¬ 0 < c_s c → 0 < c_o c → reach [flipped c] [i]
| reach_next_s l ks i c : l ≠ [] → reach l ks → i ∉ ks → nth_chain i c → in_path (c_s c) l → reach (l ++ [c]) (ks ++ [i])
| reach_next_o l ks i c : l ≠ [] → reach l ks → i ∉ ks → nth_chain i c → in_path (c_o c) l → reach (l ++ [flipped c]) (ks ++ [i]).

(** an order with all patterns *)
Definition full_order (l : list chain) : Prop := ∃ ks, reach l ks ∧ length ks = length T.

Lemma reach_picks l ks : reach l ks → NoDup ks ∧ Forall (λ i, 0 <= i < n) ks.
Proof.
  assert (Hin : ∀ i c, nth_chain i c → 0 <= i < n) by (intros i c [? Hc]; apply lookup_lt_Some in Hc; lia).
  induction 1 as [| | |i c Hc|i c Hc|l ks i c _ _ IH Hi Hc _|l ks i c _ _ IH Hi Hc _]; try (split; constructor; fail).
  - split; [apply NoDup_singleton|apply Forall_singleton; eauto].
  - split; [apply NoDup_singleton|apply Forall_singleton; eauto].
  - destruct IH as [IH1 IH2]. split; [apply NoDup_app; split_and!; [done|set_solver|apply NoDup_singleton]|apply Forall_app; split; [done|apply Forall_singleton; eauto]].
  - destruct IH as [IH1 IH2]. split; [apply NoDup_app; split_and!; [done|set_solver|apply NoDup_singleton]|apply Forall_app; split; [done|apply Forall_singleton; eauto]].
Qed.

Lemma reach_length l ks : reach l ks → (length ks <= length T)%nat.
Proof.
  intros Hr. destruct (reach_picks l ks Hr) as [Hnd Hin]. rewrite <-(length_seq (length T) 0), <-(length_fmap Z.of_nat).
  apply submseteq_length, NoDup_submseteq; [done|]. intros i Hi. rewrite Forall_forall in Hin. specialize (Hin i Hi).
  apply list_elem_of_fmap. exists (Z.to_nat i). rewrite elem_of_seq. lia.
Qed.

Lemma reach_path_length l ks : reach l ks → (length l <= S (length ks))%nat.
Proof. induction 1; rewrite ?length_app; simpl in *; lia. Qed.

Lemma reach_picked l ks : reach l ks → (length ks <= length l)%nat.
Proof. induction 1; rewrite ?length_app; simpl in *; lia. Qed.

(** ** The costs *)

(** the edges that patterns give a variable; a type counts as a predicate *)
Definition edge_name (p : Z) (d : dir_t) : Prop :=
  ∃ c, c ∈ T ∧ (p = c_p c ∧ d ≠ CORUN ∨ c_p c = TYPE_ID ∧ p = c_o c ∧ d = OUT).

Abbreviation pt c := (dcount (global_ptcount statistic) (c_p c)).
Abbreviation ps c := (dcount (global_pscount statistic) (c_p c)).
Abbreviation po c := (dcount (global_pocount statistic) (c_p c)).

(** the estimates of [com_prune] *)
Inductive pruned (pre : double) : double → Prop :=
| pruned_same : pruned pre pre
| pruned_by p d p' d' : edge_name p d → edge_name p' d' → p ≠ p' →
    pruned pre (dmul pre (ddiv (d_int (cell (global_ppcount statistic) p d p' d'))
      (match d with OUT => dcount (global_pscount statistic) p | _ => dcount (global_pocount statistic) p end))).

(** the cost that picking a pattern adds, after [pre] results *)
Inductive step_cost (pre : double) : double → Prop :=
| cost_index_s c : c ∈ T → step_cost pre (ddiv (d_int (count (global_pscount statistic) (c_p c))) (d_int global_num_servers))
| cost_index_o c : c ∈ T → step_cost pre (ddiv (d_int (count (global_pocount statistic) (c_p c))) (d_int global_num_servers))
| cost_const_s c : c ∈ T → step_cost pre (ddiv (pt c) (ps c))
| cost_const_o c : c ∈ T → step_cost pre (ddiv (pt c) (po c))
| cost_type c : c ∈ T → c_p c = TYPE_ID → step_cost pre (dcount (global_pscount statistic) (c_o c))
| cost_type_next r : pruned pre r → step_cost pre r
| cost_forward c r : c ∈ T → pruned pre r → step_cost pre (dmul r (ddiv (pt c) (ps c)))
| cost_forward_const c r : c ∈ T → pruned pre r → step_cost pre (dmul (ddiv r (po c)) (ddiv (pt c) (ps c)))
| cost_backward c r : c ∈ T → pruned pre r → step_cost pre (dmul r (ddiv (pt c) (po c)))
| cost_backward_const c r : c ∈ T → pruned pre r → step_cost pre (dmul (ddiv r (ps c)) (ddiv (pt c) (po c))).

(** the costs and the results after [k] patterns *)
Inductive search_cost : nat → double → double → Prop :=
| cost_start : search_cost 0 (d_int 0) (d_int 0)
| cost_step k cost pre add : search_cost k cost pre → step_cost pre add → search_cost (S k) (dadd cost add) add.

(** no cost that the search computes reaches the initial bound *)
Definition costs_finite : Prop := ∀ k cost pre, (0 < k <= S (length T))%nat → search_cost k cost pre → dlt cost d_max = true ∧ dlt d_max cost = false.

(** ** The stacks of selectivities *)

Definition sr_ok (r : select_record) : Prop := edge_name (sr_p r) (sr_d r).

Abbreviation fresh := (new_min (2 * n)).
Definition get (s : Planner) (v : Z) : Minimum_maintenance := default fresh (min_select s !! v).

Record mm_ok (k : nat) (m : Minimum_maintenance) : Prop := {
  mk_size : mm_size m = 2 * n;
  mk_len : length (order m) = (length (stack0 m) + length (stack1 m))%nat;
  mk_bound : (length (order m) <= k)%nat;
  mk_dir : Forall sr_ok (stack0 m)
}.

Lemma fresh_ok : (0 < length T)%nat → mm_ok 0 fresh.
Proof. intros Hn. unfold new_min. split; simpl; [|done|done|constructor]. by rewrite (proj2 (Z.ltb_ge _ _)) by lia. Qed.

Lemma mm_ok_le k k' m : mm_ok k m → (k <= k')%nat → mm_ok k' m.
Proof. intros [] ?. split; [done|done|lia|done]. Qed.

(** a push that can be undone *)
Lemma mm_push_ok k m sr : mm_ok k m → sr_ok sr → (k <= length T)%nat → (0 < length T)%nat → ∃ m', mm_push m sr = Ok m' ∧ mm_pop m' = m ∧ mm_ok (S k) m' ∧ stack0 m' ≠ [].
Proof.
  intros [Hs Hl Hk Hd] Hsr Hle Hn. unfold mm_push, room_for. set (first := match stack0 m with [] => true | x :: _ => _ end).
  rewrite (proj2 (Z.ltb_lt _ _)) by (destruct first; lia). rewrite (proj2 (Z.ltb_lt _ _)) by lia. simpl.
  assert (Hfirst : first = false → stack0 m ≠ []) by (unfold first; by destruct (stack0 m)).
  destruct first; eexists; (split_and!; [done|by destruct m|split; simpl; [lia|lia|lia|by auto]|simpl; auto]).
Qed.

(** two states with the same stacks, up to entries that are empty *)
Record same_stacks (s s' : Planner) : Prop := {
  ss_get v : get s' v = get s v;
  ss_dom v : is_Some (min_select s !! v) → is_Some (min_select s' !! v);
  ss_record : min_select_record s' = min_select_record s;
  ss_triples : triples s' = triples s;
  ss_size : chains_size_div_4 s' = chains_size_div_4 s
}.

Lemma same_refl s : same_stacks s s.
Proof. by split. Qed.
Lemma same_trans s1 s2 s3 : same_stacks s1 s2 → same_stacks s2 s3 → same_stacks s1 s3.
Proof. intros [] []. split; [congruence|auto|congruence..]. Qed.

(** the state during the search *)
Record searching (bits : Z) (ks : list Z) (s : Planner) : Prop := {
  se_triples : triples s = T;
  se_size : chains_size_div_4 s = n;
  se_reach : reach (path s) ks;
  se_bits i : 0 <= i → Z.testbit bits i = bool_decide (i ∈ ks);
  se_known v : stack0 (get s v) ≠ [] ↔ in_path v (path s);
  se_mm v : mm_ok (S (length ks)) (get s v);
  se_start v : path s = [] → get s v = fresh;
  se_record : (length (min_select_record s) <= 3 * length ks)%nat
}.

Lemma searching_same bits ks s s' : searching bits ks s → same_stacks s s' → path s' = path s → searching bits ks s'.
Proof.
  intros [] [Hg _ Hr Ht Hz] Hp. split; rewrite ?Hr, ?Ht, ?Hz, ?Hp; try done; intros v; rewrite Hg; auto.
Qed.

Lemma known_get v s : known_var v s = true ↔ stack0 (get s v) ≠ [].
Proof.
  unfold known_var, get. destruct (min_select s !! v) as [m|]; simpl.
  - unfold mm_empty. by destruct (stack0 m).
  - unfold new_min. simpl. split; [done|]. by intros [].
Qed.

Lemma select_push_ok v sr s k : chains_size_div_4 s = n → mm_ok k (get s v) → sr_ok sr → (k <= length T)%nat → (0 < length T)%nat →
  ∃ m m', select_push v sr s = Ok (set_select (min_select_record s) m s) ∧ m = <[v := m']> (min_select s) ∧ mm_pop m' = get s v ∧ mm_ok (S k) m' ∧ stack0 m' ≠ [].
Proof.
  intros Hz Hm Hsr Hk Hn. unfold select_push. rewrite Hz. fold (get s v). destruct (mm_push_ok k (get s v) sr Hm Hsr Hk Hn) as (m' & -> & Hpop & Hok & Hst).
  simpl. by exists (<[v := m']> (min_select s)), m'.
Qed.

Lemma get_insert v m r s w : get (set_select r (<[v := m]> (min_select s)) s) w = if decide (w = v) then m else get s w.
Proof. unfold get. simpl. destruct (decide (w = v)) as [->|]; [by rewrite lookup_insert_eq|by rewrite lookup_insert_ne]. Qed.

(** the stacks of the variables of a pattern grow, and what they were can be restored *)
Record grown (vs : list Z) (s s1 : Planner) : Prop := {
  gr_nodup : NoDup vs;
  gr_dom v : v ∈ vs → is_Some (min_select s1 !! v);
  gr_keep v : is_Some (min_select s !! v) → is_Some (min_select s1 !! v);
  gr_get v : v ∉ vs → get s1 v = get s v;
  gr_pop v : v ∈ vs → mm_pop (get s1 v) = get s v
}.

Lemma grown_push vs s m v m' : grown vs s (set_select (min_select_record s) m s) → v ∉ vs → mm_pop m' = get s v →
  grown (v :: vs) s (set_select (min_select_record s) (<[v := m']> m) s).
Proof.
  intros [Hnd Hd Hk Hg Hp] Hv Hpop.
  assert (Hget : ∀ w, get (set_select (min_select_record s) (<[v := m']> m) s) w = if decide (w = v) then m' else get (set_select (min_select_record s) m s) w).
  { intros w. unfold get. simpl. destruct (decide (w = v)) as [->|]; [by rewrite lookup_insert_eq|by rewrite lookup_insert_ne]. }
  split; [by apply NoDup_cons|..]; simpl in *.
  - intros w Hw. destruct (decide (w = v)) as [->|]; [rewrite lookup_insert_eq; eauto|]. rewrite lookup_insert_ne by done. apply Hd. set_solver.
  - intros w Hw. destruct (decide (w = v)) as [->|]; [rewrite lookup_insert_eq; eauto|]. rewrite lookup_insert_ne by done. by apply Hk.
  - intros w Hw. rewrite Hget, decide_False by set_solver. apply Hg. set_solver.
  - intros w Hw. rewrite Hget. destruct (decide (w = v)) as [->|]; [done|]. apply Hp. set_solver.
Qed.

Lemma grown_nil s : grown [] s (set_select (min_select_record s) (min_select s) s).
Proof. split; [constructor|set_solver|done|done|set_solver]. Qed.

Lemma add_ok o1 p o2 s k : chains_size_div_4 s = n → (∀ v, mm_ok k (get s v)) → (k <= length T)%nat → (0 < length T)%nat →
  Z.of_nat (length (min_select_record s)) + 3 <= 6 * n → (o1 < 0 → o2 < 0 → o1 ≠ o2) → o1 ≠ 0 → o2 ≠ 0 →
  edge_name p OUT → edge_name p IN → (p = TYPE_ID → edge_name o2 OUT) →
  ∃ vs m, new_add_selectivity statistic o1 p o2 s = Ok (set_select (Z.of_nat (length vs) :: vs ++ min_select_record s) m s) ∧
    grown vs s (set_select (min_select_record s) m s) ∧ (length vs <= 2)%nat ∧ (∀ v, v ∈ vs ↔ v < 0 ∧ (v = o1 ∨ v = o2)) ∧
    (∀ v, mm_ok (S k) (get (set_select (min_select_record s) m s) v)) ∧ ∀ v, v ∈ vs → stack0 (get (set_select (min_select_record s) m s) v) ≠ [].
Proof.
  intros Hz Hm Hk Hn Hr Hne Ho1 Ho2 He1 He2 He3.
  assert (Hpush : ∀ vs s', s' = set_select (min_select_record s) (min_select s') s → (length vs <= 2)%nat →
    record_push (Z.of_nat (length vs) :: vs) s' = Ok (set_select (Z.of_nat (length vs) :: vs ++ min_select_record s) (min_select s') s)).
  { intros vs s' -> Hvs. unfold record_push. cbn [set_select chains_size_div_4 min_select_record min_select]. rewrite Hz.
    rewrite (proj2 (Z.leb_le _ _)); [done|]. simpl. lia. }
  assert (Hone : ∀ v sr, v < 0 → (∀ w, w < 0 → (w = o1 ∨ w = o2) ↔ w = v) → sr_ok sr → ∃ vs m,
    (s ← select_push v sr s; record_push [1; v] s) = Ok (set_select (Z.of_nat (length vs) :: vs ++ min_select_record s) m s) ∧
    grown vs s (set_select (min_select_record s) m s) ∧ (length vs <= 2)%nat ∧ (∀ v, v ∈ vs ↔ v < 0 ∧ (v = o1 ∨ v = o2)) ∧
    (∀ v, mm_ok (S k) (get (set_select (min_select_record s) m s) v)) ∧ ∀ v, v ∈ vs → stack0 (get (set_select (min_select_record s) m s) v) ≠ []).
  { intros v sr Hv Hvo Hsr. destruct (select_push_ok v sr s k Hz (Hm v) Hsr Hk Hn) as (m & m' & -> & -> & Hpop & Hok & Hst). simpl.
    exists [v], (<[v := m']> (min_select s)). split_and!; [apply (Hpush [v]); [done|simpl; lia]|by apply (grown_push []); [apply grown_nil|set_solver|]|simpl; lia| | |].
    - intros w. rewrite list_elem_of_singleton. split; [intros ->; split; [done|]; by apply Hvo|intros [Hw Hwo]; by apply Hvo].
    - intros w. rewrite get_insert. destruct (decide (w = v)); [done|]. by eapply mm_ok_le; [apply Hm|lia].
    - intros w ->%list_elem_of_singleton. by rewrite get_insert, decide_True. }
  unfold new_add_selectivity. destruct (Z.ltb_spec o1 0) as [H1|H1]; simpl.
  - destruct (Z.ltb_spec 0 o2) as [H2|H2]; simpl.
    { destruct (Z.eqb_spec p TYPE_ID); (apply Hone; [done|intros; lia|unfold sr_ok; simpl; auto]). }
    destruct (Z.ltb_spec o2 0) as [H3|H3]; simpl.
    + rewrite (proj2 (Z.ltb_ge 0 o1)) by lia. simpl.
      destruct (select_push_ok o1 (MkSelectRecord p OUT (dcount (global_pscount statistic) p)) s k Hz (Hm o1)) as (m & m1 & -> & -> & Hpop1 & Hok1 & Hst1); [done|done|done|]. simpl.
      set (s1 := set_select (min_select_record s) (<[o1 := m1]> (min_select s)) s).
      assert (Hg2 : get s1 o2 = get s o2) by (unfold s1; rewrite get_insert, decide_False by (intros ->; by apply Hne); done).
      destruct (select_push_ok o2 (MkSelectRecord p IN (dcount (global_pocount statistic) p)) s1 k) as (m & m2 & -> & -> & Hpop2 & Hok2 & Hst2); [done|by rewrite Hg2|done|done|done|]. simpl.
      rewrite Hg2 in Hpop2. exists [o2; o1], (<[o2 := m2]> (<[o1 := m1]> (min_select s))). split_and!.
      * by apply (Hpush [o2; o1]); [|simpl; lia].
      * apply (grown_push [o1]); [by apply (grown_push []); [apply grown_nil|set_solver|]| |done].
        rewrite list_elem_of_singleton. intros ->. by apply Hne.
      * simpl. lia.
      * intros w. rewrite elem_of_cons, list_elem_of_singleton. lia.
      * intros w. unfold get. simpl. destruct (decide (w = o2)) as [->|]; [by rewrite lookup_insert_eq|rewrite lookup_insert_ne by done].
        destruct (decide (w = o1)) as [->|]; [by rewrite lookup_insert_eq|rewrite lookup_insert_ne by done]. eapply mm_ok_le; [apply Hm|lia].
      * intros w Hw. unfold get. simpl. destruct (decide (w = o2)) as [->|]; [by rewrite lookup_insert_eq|rewrite lookup_insert_ne by done].
        assert (w = o1) as -> by set_solver. by rewrite lookup_insert_eq.
    + lia.
  - destruct (Z.ltb_spec o2 0) as [H3|H3]; simpl.
    + destruct (Z.ltb_spec 0 o1) as [H4|H4]; simpl; [apply Hone; [done|intros; lia|done]|lia].
    + exists [], (min_select s). split_and!; [apply (Hpush []); [by destruct s|simpl; lia]|apply grown_nil|simpl; lia| | |set_solver].
      * intros w. rewrite elem_of_nil. lia.
      * intros w. eapply mm_ok_le; [apply Hm|lia].
Qed.

Lemma pops_ok vs s : NoDup vs → (∀ v, v ∈ vs → is_Some (min_select s !! v)) →
  ∃ m, foldM (λ s v, select_pop v s) s vs = Ok (set_select (min_select_record s) m s) ∧
    (∀ v, get (set_select (min_select_record s) m s) v = if decide (v ∈ vs) then mm_pop (get s v) else get s v) ∧
    (∀ v, is_Some (min_select s !! v) → is_Some (m !! v)).
Proof.
  revert s. induction vs as [|v vs IH]; intros s Hnd Hd; cbn [foldM].
  - exists (min_select s). split_and!; [by destruct s| |done]. intros v. rewrite decide_False by set_solver. by destruct s.
  - apply NoDup_cons in Hnd as [Hv Hnd]. destruct (Hd v) as [mv Hmv]; [set_solver|]. unfold select_pop at 2. rewrite Hmv. simpl.
    set (s1 := set_select (min_select_record s) (<[v := mm_pop mv]> (min_select s)) s).
    assert (Hget : ∀ w, get s1 w = if decide (w = v) then mm_pop (get s v) else get s w).
    { intros w. unfold s1. rewrite get_insert. destruct (decide (w = v)) as [->|]; [|done]. unfold get. by rewrite Hmv. }
    destruct (IH s1 Hnd) as (m & E & Hg & Hk).
    { intros w Hw. unfold s1. simpl. rewrite lookup_insert_ne by (intros ->; done). apply Hd. set_solver. }
    exists m. split_and!; [exact E| |].
    + intros w. change (get (set_select (min_select_record s) m s) w) with (get (set_select (min_select_record s1) m s1) w). rewrite Hg, Hget.
      destruct (decide (w ∈ vs)) as [Hw|Hw]; destruct (decide (w = v)) as [->|Hwv].
      * done.
      * by rewrite decide_True by set_solver.
      * by rewrite decide_True by set_solver.
      * by rewrite decide_False by set_solver.
    + intros w Hw. apply Hk. unfold s1. simpl. destruct (decide (w = v)) as [->|]; [rewrite lookup_insert_eq; eauto|by rewrite lookup_insert_ne].
Qed.

Lemma unadd_ok vs m s s2 : grown vs s (set_select (min_select_record s) m s) →
  same_stacks (set_select (Z.of_nat (length vs) :: vs ++ min_select_record s) m s) s2 →
  ∃ m', unadd_selectivity s2 = Ok (set_select (min_select_record s) m' s2) ∧ same_stacks s (set_select (min_select_record s) m' s2).
Proof.
  intros [Hnd Hd Hk Hg Hp] [Sg Sd Sr St Sz]. simpl in *. unfold unadd_selectivity. rewrite Sr.
  rewrite (proj2 (Z.ltb_lt _ _)) by (simpl; rewrite length_app; lia). cbn [assert_that mbind outcome_bind].
  rewrite Nat2Z.id, take_app_length, drop_app_length.
  destruct (pops_ok vs s2 Hnd) as (m' & -> & Hg' & Hk'); [intros v Hv; by apply Sd, Hd|]. simpl. exists m'. split; [done|].
  split; simpl; [|auto|done|done|done]. intros v.
  change (get (set_select (min_select_record s) m' s2) v) with (get (set_select (min_select_record s2) m' s2) v). rewrite Hg', Sg.
  change (get (set_select (Z.of_nat (length vs) :: vs ++ min_select_record s) m s) v) with (get (set_select (min_select_record s) m s) v).
  destruct (decide (v ∈ vs)) as [Hv|Hv]; [by apply Hp|by apply Hg].
Qed.

(** ** The search *)

Hypothesis HT : (0 < length T <= 31)%nat.
Hypothesis Hterms : ∀ c, c ∈ T → c_s c ≠ 0 ∧ c_o c ≠ 0 ∧ (c_s c < 0 → c_o c < 0 → c_s c ≠ c_o c) ∧ c_d c ≠ CORUN ∧ 0 <= c_p c.

(** what a part of the search changes *)
Definition outcome_ok (s : Planner) (ctn : bool) (s' : Planner) : Prop :=
  same_stacks s s' ∧ (ctn = true → path s' = path s) ∧
  (min_path s' = min_path s ∧ min_cost s' = min_cost s ∨ full_order (min_path s')).

(** some pattern can always be picked *)
Definition can_pick (l : list chain) (ks : list Z) (i : Z) : Prop := ∃ c, (i ∉ ks) ∧ nth_chain i c ∧ (in_path (c_s c) l ∨ in_path (c_o c) l).
Definition extensible : Prop := ∀ l ks, reach l ks → l ≠ [] → (length ks < length T)%nat → ∃ i, can_pick l ks i.

(** the first order that is tried is not pruned *)
Definition finds (k : nat) (cost pre : double) (s s' : Planner) : Prop :=
  costs_finite → search_cost k cost pre → extensible → min_cost s = d_max → full_order (min_path s').

Lemma outcome_trans s1 s2 s3 ctn : outcome_ok s1 true s2 → outcome_ok s2 ctn s3 → outcome_ok s1 ctn s3.
Proof.
  intros (H1 & H2 & H3) (H4 & H5 & H6). split_and!; [by eapply same_trans|intros; rewrite H5, H2 by done; done|].
  destruct H6 as [[-> ->]|]; auto.
Qed.

Lemma finds_then k cost pre s1 s2 s3 ctn ctn' : outcome_ok s1 ctn s2 → outcome_ok s2 ctn' s3 →
  finds k cost pre s1 s2 ∨ finds k cost pre s2 s3 → finds k cost pre s1 s3.
Proof.
  intros (_ & _ & H3) (_ & _ & H6) Hor Hf Hc He Hm. destruct H6 as [[E _]|]; [|done]. destruct Hor as [Ho|Ho]; [rewrite E; by apply Ho|].
  destruct H3 as [[_ E3]|]; [|by rewrite E]. apply Ho; [done..|congruence].
Qed.

Definition flow_ok (s : Planner) (f : flow) (s' : Planner) : Prop := outcome_ok s (match f with Stop => false | _ => true end) s'.

Section step.
  Context (rec : Z → double → double → Planner → outcome (bool * Planner)) (fuel : nat).
  Hypothesis Hrec : ∀ bits ks cost pre s, searching bits ks s →
    (length T - length ks + (match path s with [] => 1 | _ => 0 end) < fuel)%nat →
    ∃ ctn s', rec bits cost pre s = Ok (ctn, s') ∧ outcome_ok s ctn s' ∧ finds (length (path s)) cost pre s s'.
  Context (bits : Z) (ks : list Z) (cost pre : double) (k : nat).
  Local Abbreviation finds_k := (finds k cost pre).

Lemma removelast_snoc {A} (l : list A) x : removelast (l ++ [x]) = l.
Proof. apply removelast_last. Qed.

Lemma in_path_snoc v l c : in_path v l → in_path v (l ++ [c]).
Proof. intros (c' & Hc & Hv). exists c'. split; [set_solver|done]. Qed.

Lemma finds_pruned s add s' : dlt (min_cost s) (dadd cost add) = true → step_cost pre add → (k <= length T)%nat → finds_k s s'.
Proof. intros Hx Hst Hk Hf Hc _ Hm. rewrite Hm in Hx. destruct (Hf (S k) (dadd cost add) add); [lia|by apply cost_step with pre|]. congruence. Qed.

Lemma pruned_ok s c : flow_ok s Continue (pop_chain (push_chain c s)).
Proof. split_and!; [by split|intros _; simpl; apply removelast_snoc|by left]. Qed.

Lemma chain_names i c : nth_chain i c → edge_name (c_p c) OUT ∧ edge_name (c_p c) IN ∧ (c_p c = TYPE_ID → edge_name (c_o c) OUT).
Proof. intros [_ Hc%list_elem_of_lookup_2]. split_and!; intros; exists c; (split; [done|]); auto. Qed.

Lemma finds_rec s s1 s2 add : finds (S k) (dadd cost add) add s1 s2 → step_cost pre add → min_cost s1 = min_cost s → finds_k s s2.
Proof. intros Hf Hadd Em Hc Hk He Hm. apply Hf; [done|by apply cost_step with pre|done|congruence]. Qed.

(** one pattern is picked *)
Lemma explore_ok s i c c' add : searching bits ks s → nth_chain i c → i ∉ ks → reach (path s ++ [c']) (ks ++ [i]) → (c' = c ∨ c' = flipped c) → step_cost pre add → length (path s) = k →
  (length T - length ks <= fuel)%nat →
  ∃ f s', explore statistic rec bits cost c' add i (c_s c) (c_p c) (c_o c) s = Ok (f, s') ∧ flow_ok s f s' ∧ finds_k s s'.
Proof.
  intros Hs Hc Hi Hr Hcc Hadd Hk Hf.
  pose proof (reach_path_length _ _ Hr) as Hpl. pose proof (reach_length _ _ Hr) as Hlen. rewrite !length_app in Hpl. rewrite length_app in Hlen. simpl in Hpl, Hlen.
  unfold explore. destruct (dlt _ _) eqn:Eprune.
  { eexists _, _. split; [done|]. split; [apply pruned_ok|eapply finds_pruned; [done|done|lia]]. }
  destruct (Hterms c) as (Hs0 & Ho0 & Hne & Hd & Hpr); [destruct Hc as [_ Hc]; by eapply list_elem_of_lookup_2|].
  pose proof (chain_names i c Hc) as Hname.
  destruct (add_ok (c_s c) (c_p c) (c_o c) (push_chain c' s) (S (length ks))) as (vs & m & -> & Hgr & Hvs & Hin & Hmm & Hst);
    [apply Hs|apply Hs|lia|lia| |done|done|done|..]. { pose proof (se_record _ _ _ Hs). simpl. lia. }
  { apply Hname. } { apply Hname. } { apply Hname. }
  cbn [mbind outcome_bind]. set (s1 := set_select _ m (push_chain c' s)).
  assert (Hs1 : searching (Z.lor bits (Z.shiftl 1 i)) (ks ++ [i]) s1).
  { destruct Hs as [H1 H2 H3 H4 H5 H6 H7 H8]. split; simpl; try done.
    - intros j Hj. rewrite Z.lor_spec, H4 by done. destruct Hc as [Hi0 _]. rewrite Z.shiftl_spec by done.
      destruct (decide (j = i)) as [->|Hji].
      + rewrite Z.sub_diag. simpl. rewrite orb_true_r. symmetry. apply bool_decide_eq_true_2. set_solver.
      + assert (Z.testbit 1 (j - i) = false) as ->.
        { destruct (decide (j < i)); [by apply Z.testbit_neg_r; lia|]. apply Z.bits_above_log2; simpl; lia. }
        rewrite orb_false_r. apply bool_decide_ext. set_solver.
    - intros v. destruct (decide (v ∈ vs)) as [Hvin|Hvout].
      + split; [intros _|intros _; by apply Hst]. apply Hin in Hvin as [Hneg Hvo]. exists c'. split; [set_solver|]. split; [done|].
        destruct Hcc as [-> | ->]; simpl; tauto.
      + change (get s1 v) with (get (set_select (min_select_record (push_chain c' s)) m (push_chain c' s)) v). rewrite (gr_get _ _ _ Hgr v Hvout).
        change (get (push_chain c' s) v) with (get s v). rewrite H5. split; [apply in_path_snoc|].
        intros (c0 & Hc0 & Hneg & Hvo). apply elem_of_app in Hc0 as [Hc0| ->%list_elem_of_singleton]; [by exists c0|]. destruct Hvout. apply Hin.
        split; [done|]. destruct Hcc as [-> | ->]; simpl in Hvo; tauto.
    - intros v. eapply mm_ok_le; [apply (Hmm v)|]. rewrite length_app. simpl. lia.
    - by destruct (path s).
    - rewrite !length_app. simpl. lia. }
  assert (Hkk : length (path s1) = S k) by (simpl; rewrite length_app; simpl; lia).
  destruct (Hrec _ _ (dadd cost add) add s1 Hs1) as (ctn & s2 & -> & (Hsame & Hpath & Hmin) & Hfind).
  { rewrite length_app. simpl. destruct (path s); simpl; lia. }
  cbn [mbind outcome_bind]. destruct (unadd_ok vs m (push_chain c' s) s2 Hgr Hsame) as (m' & -> & Hback). cbn [mbind outcome_bind].
  assert (Hsst : same_stacks s (set_select (min_select_record (push_chain c' s)) m' s2)) by (destruct Hback; by split).
  destruct ctn; eexists _, _; (split; [done|]); (split; [split_and!; try done|eapply finds_rec; [|exact Hadd|done]; by rewrite <-Hkk]).
  - destruct Hsst. by split.
  - intros _. simpl. rewrite Hpath by done. apply removelast_snoc.
Qed.

(** an index vertex is put in front *)
Lemma explore_index_ok s i c v d m sr : searching bits ks s → path s = [] → nth_chain i c → c_s c < 0 → c_o c < 0 → sr_ok sr →
  step_cost pre (ddiv (d_int m) (d_int global_num_servers)) → k = 0%nat → (v = c_s c ∧ d = IN ∨ v = c_o c ∧ d = OUT) → (length T - length ks <= fuel)%nat → (length T < fuel)%nat →
  ∃ f s', explore_index rec bits cost (MkChain (c_p c) 0 d v) v m sr s = Ok (f, s') ∧ flow_ok s f s' ∧ finds_k s s'.
Proof.
  intros Hs Hp Hc Hc1 Hc2 Hsr Hadd Hk Hv Hf Hf'. unfold explore_index. destruct (dlt _ _) eqn:Eprune.
  { eexists _, _. split; [done|]. split; [apply pruned_ok|eapply finds_pruned; [done|done|lia]]. }
  assert (Hks : ks = []).
  { pose proof (se_reach _ _ _ Hs) as Hr. rewrite Hp in Hr. inversion Hr; [done|by destruct l|by destruct l]. }
  cbn [push_chain set_path chains_size_div_4]. rewrite (se_size _ _ _ Hs).
  destruct (mm_push_ok 0 fresh sr) as (m' & -> & Hpop & Hok & Hst1); [apply fresh_ok; lia|done|lia|lia|]. cbn [mbind outcome_bind].
  set (s1 := set_select _ _ _).
  assert (Hget : ∀ w, get s1 w = if decide (w = v) then m' else fresh).
  { intros w. unfold s1. rewrite get_insert. destruct (decide (w = v)); [done|]. by apply (se_start _ _ _ Hs). }
  assert (Hs1 : searching bits ks s1).
  { destruct Hs as [H1 H2 H3 H4 H5 H6 H7 H8]. split; try done.
    - unfold s1. simpl. rewrite Hp, Hks. simpl. destruct Hv as [[-> ->]|[-> ->]]; [by eapply reach_index_s|by eapply reach_index_o].
    - intros w. rewrite Hget. unfold s1. simpl. rewrite Hp. simpl. destruct (decide (w = v)) as [->|Hw].
      + split; [intros _|done]. exists (MkChain (c_p c) 0 d v). split; [set_solver|]. simpl. destruct Hv as [[-> _]|[-> _]]; auto.
      + split; [done|]. intros (c0 & ->%list_elem_of_singleton & Hneg & Hvo). simpl in Hvo.
        destruct (Hterms c) as (_ & _ & _ & _ & Hpr); [destruct Hc as [_ Hc]; by eapply list_elem_of_lookup_2|]. lia.
    - intros w. rewrite Hget. destruct (decide (w = v)); [eapply mm_ok_le; [done|lia]|]. eapply mm_ok_le; [apply fresh_ok; lia|lia].
    - intros w. unfold s1. simpl. by destruct (path s). }
  assert (Hkk : length (path s1) = S k) by (unfold s1; simpl; rewrite Hp, Hk; done).
  destruct (Hrec _ _ (dadd cost (ddiv (d_int m) (d_int global_num_servers))) (ddiv (d_int m) (d_int global_num_servers)) s1 Hs1) as (ctn & s2 & -> & (Hsame & Hpath & Hmin) & Hfind).
  { unfold s1. simpl. rewrite Hp. simpl. lia. }
  cbn [mbind outcome_bind]. destruct Hsame as [Sg Sd Sr St Sz].
  destruct (Sd v) as [mv Hmv]; [unfold s1; simpl; rewrite lookup_insert_eq; eauto|]. unfold select_pop. rewrite Hmv. cbn [mbind outcome_bind].
  set (s3 := set_select (min_select_record s2) (<[v := mm_pop mv]> (min_select s2)) s2).
  assert (Hst : same_stacks s s3).
  { split; try done.
    - intros w. unfold s3. rewrite get_insert. destruct (decide (w = v)) as [->|Hw].
      + pose proof (Sg v) as Hgv. rewrite Hget, decide_True in Hgv by done. unfold get in Hgv. rewrite Hmv in Hgv. simpl in Hgv. subst mv.
        rewrite Hpop. symmetry. by apply (se_start _ _ _ Hs).
      + rewrite Sg, Hget, decide_False by done. symmetry. by apply (se_start _ _ _ Hs).
    - intros w Hw. unfold s3. simpl. destruct (decide (w = v)) as [->|]; [rewrite lookup_insert_eq; eauto|]. rewrite lookup_insert_ne by done.
      apply Sd. unfold s1. simpl. by rewrite lookup_insert_ne. }
  destruct ctn; eexists _, _; (split; [done|]); (split; [split_and!; try done|eapply finds_rec; [|exact Hadd|done]; by rewrite <-Hkk]).
  - destruct Hst. by split.
  - intros _. simpl. rewrite Hpath by done. apply removelast_snoc.
Qed.

Lemma outcome_refl s : outcome_ok s true s.
Proof. split_and!; [apply same_refl|done|by left]. Qed.

(** a part of the body, which finds an order if [P] holds *)
Definition part (P : Prop) (s : Planner) (r : outcome (flow * Planner)) : Prop :=
  ∃ f s', r = Ok (f, s') ∧ flow_ok s f s' ∧ (P ∨ f ≠ Next → finds_k s s').

Lemma part_next s : part False s (Ok (Next, s)).
Proof. exists Next, s. split; [done|]. split; [apply outcome_refl|]. by intros [[]|[]]. Qed.

Lemma part_all P s r : (∃ f s', r = Ok (f, s') ∧ flow_ok s f s' ∧ finds_k s s') → part P s r.
Proof. intros (f & s' & ? & ? & ?). by exists f, s'. Qed.

Lemma part_weaken (P Q : Prop) s r : part P s r → (Q → P) → part Q s r.
Proof. intros (f & s' & ? & ? & Hf) ?. exists f, s'. split_and!; [done..|]. intros [?|?]; apply Hf; auto. Qed.

Lemma then_ok (P Q : Prop) s r f2 : part P s r → (∀ s1, outcome_ok s true s1 → part Q s1 (f2 s1)) → part (P ∨ Q) s (then_ r f2).
Proof.
  intros (f & s1 & -> & Hf & Hfind) Hk. unfold then_. cbn [mbind outcome_bind].
  destruct f; [|eexists _, _; split_and!; [done|done|]; intros _; apply Hfind; by right..].
  destruct (Hk s1 Hf) as (f & s2 & -> & Hf2 & Hfind2). eexists _, _. split; [done|]. split; [by eapply outcome_trans|].
  intros HPQ. eapply finds_then; [exact Hf|exact Hf2|]. destruct HPQ as [[?|?]|?]; auto.
Qed.

Lemma com_prune_ok p d p' d' s : edge_name p d → edge_name p' d' →
  ∃ x s', com_prune statistic pre p d p' d' s = Ok (x, s') ∧ outcome_ok s true s' ∧ pruned pre x.
Proof.
  intros Hn Hn'. assert (d ≠ CORUN ∧ d' ≠ CORUN) as [Hd Hd'] by (split; [destruct Hn as (c & _ & [[_ ?]|(_ & _ & ->)])|destruct Hn' as (c & _ & [[_ ?]|(_ & _ & ->)])]; done).
  unfold com_prune. destruct (Z.eqb_spec p p') as [|Hne]; [eexists _, _; split; [done|]; split; [apply outcome_refl|constructor]|].
  assert (Hset : ∀ b, outcome_ok s true (if b : bool then set_empty true s else s)).
  { intros []; [|apply outcome_refl]. split_and!; [by split|done|by left]. }
  pose proof (pruned_by pre p d p' d' Hn Hn' Hne) as Hpr. unfold cell in Hpr.
  destruct d, d'; try done; cbn [mbind outcome_bind]; eexists _, _; (split; [done|split; [apply Hset|]]); by destruct (p <? p').
Qed.

(** the top of the stack of a known variable *)
Lemma top_ok s v : searching bits ks s → known_var v s = true → ∃ sr, top_of v s = Ok sr ∧ sr_ok sr ∧ in_path v (path s).
Proof.
  intros Hs Hk. pose proof (proj1 (known_get v s) Hk) as Hne. pose proof (proj1 (se_known _ _ _ Hs v) Hne) as Hin.
  pose proof (mk_dir _ _ (se_mm _ _ _ Hs v)) as Hd. unfold known_var in Hk. unfold get in *. unfold top_of.
  destruct (min_select s !! v) as [m|]; [|done]. simpl in *. unfold mm_top. destruct (stack0 m) as [|sr l]; [done|].
  exists sr. apply Forall_cons_iff in Hd as [Hd _]. by split_and!.
Qed.

Lemma unknown_var s v : searching bits ks s → known_var v s = false → ¬ in_path v (path s).
Proof. intros Hs Hk Hin. apply (se_known _ _ _ Hs), known_get in Hin. congruence. Qed.

Hypothesis Hfuel : (length T - length ks <= fuel)%nat.

Lemma pick_first_ok s i c : searching bits ks s → path s = [] → nth_chain i c → i ∉ ks → k = 0%nat → (length T < fuel)%nat →
  part True s (pick_first statistic rec bits cost i c s).
Proof.
  assert (HcT : nth_chain i c → c ∈ T) by (intros [_ Hc]; by eapply list_elem_of_lookup_2).
  intros Hs Hp Hc Hi Hk Hf. specialize (HcT Hc). destruct (Hterms c HcT) as (Hs0 & Ho0 & Hne & Hd & Hpr). pose proof (chain_names i c Hc) as (N1 & N2 & _).
  assert (Hks : ks = []).
  { pose proof (se_reach _ _ _ Hs) as Hr. rewrite Hp in Hr. inversion Hr; [done|by destruct l|by destruct l]. }
  destruct c as [o1 p d o2]. unfold pick_first. simpl in Hs0, Ho0, Hd. apply (part_weaken ((o1 < 0 ∧ o2 < 0) ∨ 0 < o1 ∨ 0 < o2)); [|lia]. apply then_ok.
  - destruct (Z.ltb_spec o1 0) as [H1|H1], (Z.ltb_spec o2 0) as [H2|H2]; simpl; try (apply (part_weaken False); [apply part_next|lia]).
    apply (part_weaken (True ∨ False)); [|by left]. apply then_ok.
    + apply part_all, (explore_index_ok s i (MkChain o1 p d o2) o1 IN); auto; [by exists (MkChain o1 p d o2); auto|by apply (cost_index_s pre (MkChain o1 p d o2))].
    + intros s1 Hs1. assert (Hss : searching bits ks s1) by (eapply searching_same; [done|apply Hs1|by apply Hs1]).
      apply part_all, (explore_index_ok s1 i (MkChain o1 p d o2) o2 OUT); auto; [|by apply (cost_index_o pre (MkChain o1 p d o2))].
      destruct Hs1 as (_ & Hp1 & _). by rewrite Hp1.
  - intros s1 Hs1. assert (Hss : searching bits ks s1) by (eapply searching_same; [done|apply Hs1|by apply Hs1]).
    assert (Hp1 : path s1 = []) by (destruct Hs1 as (_ & Hp1 & _); by rewrite Hp1).
    destruct (Z.ltb_spec 0 o1) as [H1|H1]; [|destruct (Z.ltb_spec 0 o2) as [H2|H2]].
    + apply part_all, (explore_ok s1 i (MkChain o1 p d o2)); auto; [|by apply (cost_const_s pre (MkChain o1 p d o2))|by rewrite Hp1].
      rewrite Hp1, Hks. simpl. by apply reach_const_s.
    + apply part_all, (explore_ok s1 i (MkChain o1 p d o2)); auto; [| |by rewrite Hp1].
      * rewrite Hp1, Hks. simpl. apply (reach_const_o i (MkChain o1 p d o2)); simpl; [done|lia|done].
      * destruct (Z.eqb_spec p TYPE_ID); [by apply (cost_type pre (MkChain o1 p d o2))|by apply (cost_const_o pre (MkChain o1 p d o2))].
    + apply (part_weaken False); [apply part_next|lia].
Qed.

Lemma forward_cost_ok i c sr s : nth_chain i c → sr_ok sr →
  let '(MkChain o1 p d o2) := c in
  ∃ x s1, (if (p =? TYPE_ID) && (0 <? o2) then com_prune statistic pre (sr_p sr) (sr_d sr) o2 OUT s
    else if 0 <=? o2 then
      '(r, s) ← com_prune statistic pre (sr_p sr) (sr_d sr) p OUT s;
      Ok (dmul (ddiv r (dcount (global_pocount statistic) p)) (ddiv (dcount (global_ptcount statistic) p) (dcount (global_pscount statistic) p)), s)
    else
      '(r, s) ← com_prune statistic pre (sr_p sr) (sr_d sr) p OUT s;
      Ok (dmul r (ddiv (dcount (global_ptcount statistic) p) (dcount (global_pscount statistic) p)), s)) = Ok (x, s1) ∧
    outcome_ok s true s1 ∧ step_cost pre x.
Proof.
  intros Hc Hsr. pose proof (chain_names i c Hc) as (N1 & _ & N3). assert (HcT : c ∈ T) by (destruct Hc as [_ Hc]; by eapply list_elem_of_lookup_2).
  destruct c as [o1 p d o2]. simpl in N1, N3. destruct (Z.eqb_spec p TYPE_ID) as [Ep|Ep], (0 <? o2); simpl.
  { destruct (com_prune_ok (sr_p sr) (sr_d sr) o2 OUT s Hsr (N3 Ep)) as (x & s1 & -> & Hs1 & Hx). eexists _, _. split_and!; [done|done|by apply cost_type_next]. }
  all: destruct (com_prune_ok (sr_p sr) (sr_d sr) p OUT s Hsr N1) as (x & s1 & -> & Hs1 & Hx); cbn [mbind outcome_bind];
    destruct (0 <=? o2); eexists _, _; (split_and!; [done|done|]); [by apply (cost_forward_const pre (MkChain o1 p d o2))|by apply (cost_forward pre (MkChain o1 p d o2))].
Qed.

Lemma pick_next_ok s i c : searching bits ks s → path s ≠ [] → nth_chain i c → i ∉ ks → length (path s) = k →
  part (in_path (c_s c) (path s) ∨ in_path (c_o c) (path s)) s (pick_next statistic rec bits cost pre i c s).
Proof.
  assert (HcT : nth_chain i c → c ∈ T) by (intros [_ Hc]; by eapply list_elem_of_lookup_2).
  intros Hs Hp Hc Hi Hlk. specialize (HcT Hc). destruct (Hterms c HcT) as (Hs0 & Ho0 & Hne & Hd & Hpr).
  assert (Hafter : ∀ s1, outcome_ok s true s1 → searching bits ks s1 ∧ path s1 = path s).
  { intros s1 (H1 & H2 & _). split; [eapply searching_same; eauto|auto]. }
  pose proof (chain_names i c Hc) as (_ & N2 & _). pose proof (λ sr s, forward_cost_ok i c sr s Hc) as Hfwd.
  destruct c as [o1 p d o2]. unfold pick_next. simpl in Hs0, Ho0, Hd. apply then_ok.
  - destruct (known_var o1 s) eqn:Hk; [apply part_all|apply (part_weaken False); [apply part_next|]; intros Hin; by apply (unknown_var s o1) in Hin].
    destruct (top_ok s o1 Hs Hk) as (sr & -> & Hsr & Hin). cbn [mbind outcome_bind].
    destruct (Hfwd sr s Hsr) as (x & s1 & -> & Hs1 & Hx). cbn [mbind outcome_bind]. destruct (Hafter s1 Hs1) as [Hss1 Hp1].
    destruct (explore_ok s1 i (MkChain o1 p d o2) (MkChain o1 p d o2) x) as (f & s2 & E & Hf2 & Hfind); auto; [|by rewrite Hp1|].
    { rewrite Hp1. apply reach_next_s; [done|apply Hs|done|done|done]. }
    exists f, s2. split; [exact E|]. split; [by eapply outcome_trans|]. by eapply finds_then; eauto.
  - intros s1 Hs1. destruct (Hafter s1 Hs1) as [Hss1 Hp1].
    destruct (known_var o2 s1) eqn:Hk; [apply part_all|apply (part_weaken False); [apply part_next|]; rewrite <-Hp1; intros Hin; by apply (unknown_var s1 o2) in Hin].
    destruct (top_ok s1 o2 Hss1 Hk) as (sr & -> & Hsr & Hin). cbn [mbind outcome_bind].
    destruct (com_prune_ok (sr_p sr) (sr_d sr) p IN s1 Hsr N2) as (x & s2 & -> & Hs2 & Hx). cbn [mbind outcome_bind].
    destruct (Hafter s2) as [Hss2 Hp2]; [by eapply outcome_trans|].
    edestruct (explore_ok s2 i (MkChain o1 p d o2) (flipped (MkChain o1 p d o2))) as (f & s3 & E & Hf3 & Hfind); auto; [| |by rewrite Hp2|].
    { rewrite Hp2, <-Hp1. apply reach_next_o; [by rewrite Hp1|rewrite Hp1; apply Hs|done|done|done]. }
    { instantiate (1 := dmul (if 0 <=? o1 then ddiv x (dcount (global_pscount statistic) p) else x) (ddiv (dcount (global_ptcount statistic) p) (dcount (global_pocount statistic) p))).
      destruct (0 <=? o1); [by apply (cost_backward_const pre (MkChain o1 p d o2))|by apply (cost_backward pre (MkChain o1 p d o2))]. }
    exists f, s3. split; [exact E|]. split; [by eapply outcome_trans|]. by eapply finds_then; eauto.
Qed.

(** the pattern can be picked next *)
Definition pickable (l : list chain) (i : Z) : Prop := l = [] ∧ i ∉ ks ∨ can_pick l ks i.

Lemma pick_one_ok s i c : searching bits ks s → nth_chain i c → i ∉ ks → length (path s) = k →
  (length T - length ks + (match path s with [] => 1 | _ => 0 end) <= fuel)%nat →
  part (pickable (path s) i) s (match path s with [] => pick_first statistic rec bits cost i c s | _ => pick_next statistic rec bits cost pre i c s end).
Proof.
  intros Hs Hn Hin Hlk Hf. destruct (path s) eqn:Hp.
  - apply (part_weaken True); [|done]. apply pick_first_ok; auto.
    pose proof (se_reach _ _ _ Hs) as Hre. rewrite Hp in Hre. assert (ks = []) as E by (inversion Hre; [done|by destruct l|by destruct l]).
    rewrite E in Hf. simpl in Hf. lia.
  - eapply part_weaken; [apply pick_next_ok; auto; rewrite Hp; by auto|]. rewrite <-Hp. intros [[E _]|(c' & _ & [_ Hc'] & Hv)]; [congruence|].
    destruct Hn as [_ Hn]. by assert (c' = c) as <- by congruence.
Qed.

Lemma pick_loop_ok picks s : searching bits ks s → Forall (λ i, 0 <= i < n) picks → length (path s) = k →
  (length T - length ks + (match path s with [] => 1 | _ => 0 end) <= fuel)%nat →
  ∃ ctn s', pick_loop statistic rec bits cost pre picks s = Ok (ctn, s') ∧ outcome_ok s ctn s' ∧
    ((∃ i, i ∈ picks ∧ pickable (path s) i) → finds_k s s').
Proof.
  revert s. induction picks as [|i picks IH]; intros s Hs Hr Hlk Hf; cbn [pick_loop].
  - eexists _, _. split; [done|]. split; [apply outcome_refl|]. intros (? & ?%elem_of_nil & _). done.
  - apply Forall_cons_iff in Hr as [Hi Hr]. rewrite (se_bits _ _ _ Hs) by lia. case_bool_decide as Hin.
    { destruct (IH s Hs Hr Hlk Hf) as (ctn & s' & E & Hok & Hfind). exists ctn, s'. split_and!; [done..|].
      intros (j & Hj & Hpk). apply Hfind. exists j. split; [|done]. apply elem_of_cons in Hj as [->|]; [|done].
      destruct Hpk as [[_ ?]|(? & ? & _)]; done. }
    rewrite (se_triples _ _ _ Hs). destruct (lookup_lt_is_Some_2 T (Z.to_nat i)) as [c Hc]; [lia|]. rewrite (proj2 (read_Ok _ _ _) Hc).
    cbn [mbind outcome_bind]. assert (Hn : nth_chain i c) by (split; [lia|done]).
    destruct (pick_one_ok s i c Hs Hn Hin Hlk Hf) as (f & s1 & -> & Hs1 & Hfind). cbn [mbind outcome_bind].
    assert (Hstop : f = Stop → ∃ ctn s', Ok (false, s1) = Ok (ctn, s') ∧ outcome_ok s ctn s' ∧ ((∃ j, j ∈ i :: picks ∧ pickable (path s) j) → finds_k s s')).
    { intros ->. eexists _, _. split_and!; [done|done|]. intros _. apply Hfind. by right. }
    assert (Hgo : f ≠ Stop → ∃ ctn s', pick_loop statistic rec bits cost pre picks s1 = Ok (ctn, s') ∧ outcome_ok s ctn s' ∧ ((∃ j, j ∈ i :: picks ∧ pickable (path s) j) → finds_k s s')).
    { intros Hns. assert (Hs1' : outcome_ok s true s1) by (by destruct f). destruct Hs1' as (H1 & H2 & H3). specialize (H2 eq_refl).
      destruct (IH s1) as (ctn & s2 & -> & Hs2 & Hfind2); [eapply searching_same; eauto|done|by rewrite H2|by rewrite H2|].
      eexists _, _. split; [done|]. split; [by eapply outcome_trans; [split_and!|]|].
      intros (j & Hj & Hpk). eapply finds_then; [exact Hs1|exact Hs2|]. apply elem_of_cons in Hj as [->|Hj]; [by left; apply Hfind; left|].
      right. apply Hfind2. exists j. by rewrite H2. }
    destruct f; auto.
Qed.
End step.

Lemma all_picked bits ks s : searching bits ks s → bits = 2 ^ n - 1 → length ks = length T.
Proof.
  intros Hs Hb. apply Nat.le_antisymm; [by eapply reach_length, Hs|].
  rewrite <-(length_seq (length T) 0), <-(length_fmap Z.of_nat). apply submseteq_length, NoDup_submseteq; [apply NoDup_fmap; [apply _|apply NoDup_seq]|].
  intros i (j & -> & Hj%elem_of_seq)%list_elem_of_fmap. pose proof (se_bits _ _ _ Hs (Z.of_nat j) ltac:(lia)) as Hbit.
  rewrite Hb in Hbit. replace (2 ^ n - 1) with (Z.ones n) in Hbit by (rewrite Z.ones_equiv; lia). rewrite Z.ones_spec_low in Hbit by lia. symmetry in Hbit. by apply bool_decide_eq_true in Hbit.
Qed.

Lemma not_all_picked bits ks s : searching bits ks s → bits ≠ 2 ^ n - 1 → (length ks < length T)%nat.
Proof.
  intros Hs Hb. pose proof (reach_length _ _ (se_reach _ _ _ Hs)). destruct (decide (length ks = length T)) as [E|]; [|lia]. destruct Hb.
  destruct (reach_picks _ _ (se_reach _ _ _ Hs)) as [Hnd Hrange]. rewrite Forall_forall in Hrange.
  replace (2 ^ n - 1) with (Z.ones n) by (rewrite Z.ones_equiv; lia). apply Z.bits_inj'. intros i Hi. rewrite (se_bits _ _ _ Hs) by done.
  case_bool_decide as Hin; [symmetry; apply Z.ones_spec_low; auto|]. symmetry. apply Z.ones_spec_high. split; [lia|].
  destruct (decide (n <= i)); [done|]. destruct Hin.
  assert (Hperm : ks ≡ₚ Z.of_nat <$> seq 0 (length T)).
  { apply submseteq_length_Permutation; [|by rewrite length_fmap, length_seq, E]. apply NoDup_submseteq; [done|]. intros j Hj.
    specialize (Hrange j Hj). apply list_elem_of_fmap. exists (Z.to_nat j). rewrite elem_of_seq. lia. }
  rewrite Hperm. apply list_elem_of_fmap. exists (Z.to_nat i). rewrite elem_of_seq. lia.
Qed.

Lemma leaf_ok s ks cost : reach (path s) ks → length ks = length T → ∃ ctn s', leaf cost s = Ok (ctn, s') ∧ outcome_ok s ctn s' ∧ ∀ pre, finds (length (path s)) cost pre s s'.
Proof.
  intros Hr Hl. unfold leaf.
  assert (Hfirst : ∃ b, (if deq (min_cost s) d_max && dlt cost (d_int COST_THRESHOLD) then c ← read (path s) 0; Ok (Z.shiftl 1 NBITS_IDX <=? c_s c) else Ok false) = Ok b).
  { destruct (_ && _); [|by eexists]. destruct (path s) as [|c l]; [|by eexists]. inversion Hr; subst; simpl in *; [lia|by destruct l..]. }
  destruct Hfirst as [b ->]. cbn [mbind outcome_bind]. eexists _, _. split; [done|].
  destruct (dlt cost (min_cost s)) eqn:Elt; split.
  - split_and!; [by split|done|]. right. by exists ks.
  - intros pre _ _ _ _. by exists ks.
  - split_and!; [by split|done|by left].
  - intros pre Hf Hc _ Hm. rewrite Hm in Elt. pose proof (reach_path_length _ _ Hr). pose proof (reach_picked _ _ Hr).
    destruct (Hf (length (path s)) cost pre); [lia|done|congruence].
Qed.

Lemma traverse_ok fuel : ∀ bits ks cost pre s, searching bits ks s →
  (length T - length ks + (match path s with [] => 1 | _ => 0 end) < fuel)%nat →
  ∃ ctn s', com_traverse statistic fuel bits cost pre s = Ok (ctn, s') ∧ outcome_ok s ctn s' ∧ finds (length (path s)) cost pre s s'.
Proof.
  induction fuel as [|fuel IH]; intros bits ks cost pre s Hs Hf; [lia|]. cbn [com_traverse]. rewrite (se_size _ _ _ Hs).
  rewrite Z.shiftl_mul_pow2, Z.mul_1_l by lia. pose proof (Z.pow_le_mono_r 2 n 31 ltac:(lia) ltac:(lia)). assert (0 < 2 ^ n) by (apply Z.pow_pos_nonneg; lia).
  rewrite u32_id by lia. destruct (Z.eqb_spec bits (2 ^ n - 1)) as [Hb|Hb].
  - destruct (leaf_ok s ks cost) as (ctn & s' & ? & ? & ?); [apply Hs|by eapply all_picked|]. by exists ctn, s'.
  - destruct (pick_loop_ok (com_traverse statistic fuel) fuel IH bits ks cost pre (length (path s)) ltac:(destruct (path s); lia) (seqZ 0 n) s) as (ctn & s' & E & Hok & Hfind);
      [done|apply Forall_forall; intros i Hi%elem_of_seqZ; lia|done|lia|].
    exists ctn, s'. split_and!; [done..|]. pose proof (not_all_picked _ _ _ Hs Hb) as Hlt. intros Hfin Hsc He. apply Hfind; [|done..].
    destruct (decide (path s = [])) as [Hp|Hp].
    + exists 0. split; [apply elem_of_seqZ; lia|]. left. split; [done|]. pose proof (se_reach _ _ _ Hs) as Hre. rewrite Hp in Hre.
      assert (ks = []) as -> by (inversion Hre; [done|by destruct l|by destruct l]). set_solver.
    + destruct (He _ _ (se_reach _ _ _ Hs) Hp Hlt) as [i Hi]. exists i. split; [|by right]. destruct Hi as (c & _ & [Hi0 Hc] & _).
      apply lookup_lt_Some in Hc. apply elem_of_seqZ. lia.
Qed.

(** the search succeeds; what it finds is a full order or nothing, and it finds one if the
    costs are finite and the query is connected *)
Lemma plan_search_ok : ∃ ctn s, com_traverse statistic (length T + 2) 0 (d_int 0) (d_int 0) (MkPlanner T d_max [] false [] n [] ∅) = Ok (ctn, s) ∧
  (min_path s = [] ∨ full_order (min_path s)) ∧ (costs_finite → extensible → full_order (min_path s)).
Proof.
  destruct (traverse_ok (length T + 2) 0 [] (d_int 0) (d_int 0) (MkPlanner T d_max [] false [] n [] ∅)) as (ctn & s & E & (_ & _ & Hm) & Hfind).
  - split; simpl; try done; [constructor|intros i Hi; by rewrite Z.bits_0| |intros v; eapply mm_ok_le; [apply fresh_ok; lia|lia]].
    intros v. split; [done|]. intros (c & Hc & _). set_solver.
  - simpl. lia.
  - exists ctn, s. split_and!; [done|destruct Hm as [[Hm _]|]; auto|]. intros Hf He. apply Hfind; [done|constructor|done|done].
Qed.
End search.
