(* ===== verification/PlanEmpty.v ===== *)
(** The planner of [core/planner.hpp] calls a query empty only if it has no answers: it
    does so when two edges that one variable must have occur together at no vertex, by
    the statistics. *)

From S2P Require Import Prelude Types Keys Query Planner PlannerOk.
Local Open Scope Z_scope.

Definition correlation (st : data_statistic) := cell (global_ppcount st).

Section empty.
  Context `{Config} `{Double} (st : data_statistic) (T : list chain).
  (** [F v p d]: in every answer the value of [v] has an edge [p] in direction [d] *)
  Context (F : Z → Z → dir_t → Prop).
  Hypothesis Hzero : ∀ x, x ≠ 0 → deq (d_int x) (d_int 0) = false.
  Hypothesis Hcorr : ∀ v p d p' d', F v p d → F v p' d' → p ≠ p' → correlation st p d p' d' ≠ 0.
  Hypothesis Hdir : ∀ c, c ∈ T → c_d c = OUT.
  Hypothesis Hsubj : ∀ c, c ∈ T → c_s c < 0 → F (c_s c) (c_p c) OUT.
  Hypothesis Htype : ∀ c, c ∈ T → c_s c < 0 → c_p c = TYPE_ID → 0 < c_o c → F (c_s c) (c_o c) OUT.
  Hypothesis Hobj : ∀ c, c ∈ T → c_o c < 0 → F (c_o c) (c_p c) IN.

(** all recorded selectivities are of edges that the variable must have *)
Definition grounded (v : Z) (r : select_record) : Prop := F v (sr_p r) (sr_d r).

Record consistent (s : Planner) : Prop := {
  cn_triples : triples s = T;
  cn_empty : is_empty s = false;
  cn_stack v m : min_select s !! v = Some m → Forall (grounded v) (stack0 m)
}.

Definition keeps {A} (r : outcome (A * Planner)) : Prop := ∀ x s', r = Ok (x, s') → consistent s'.

Lemma push_grounded v m sr m' : Forall (grounded v) (stack0 m) → grounded v sr → mm_push m sr = Ok m' → Forall (grounded v) (stack0 m').
Proof. intros Hm Hsr. unfold mm_push. destruct (_ && _); [|done]. intros [= <-]. destruct (match stack0 m with [] => _ | _ => _ end); simpl; auto. Qed.

Lemma pop_grounded v m : Forall (grounded v) (stack0 m) → Forall (grounded v) (stack0 (mm_pop m)).
Proof. intros Hm. unfold mm_pop. destruct (order m) as [|[] o]; simpl; [done|done|]. destruct (stack0 m); [done|]. by apply Forall_cons_iff in Hm as []. Qed.

(** the fields that the invariant does not mention *)
Lemma consistent_same s s' : consistent s → triples s' = triples s → is_empty s' = is_empty s → min_select s' = min_select s → consistent s'.
Proof. intros [H1 H2 H3] E1 E2 E3. split; rewrite ?E1, ?E2, ?E3; done. Qed.

Lemma insert_consistent s r v m : consistent s → Forall (grounded v) (stack0 m) → consistent (set_select r (<[v := m]> (min_select s)) s).
Proof.
  intros [H1 H2 H3] Hm. split; [done..|]. intros w m'. simpl. destruct (decide (w = v)) as [->|]; [by rewrite lookup_insert_eq; intros [= <-]|].
  rewrite lookup_insert_ne by done. apply H3.
Qed.

Lemma select_push_keeps v sr s s' : consistent s → grounded v sr → select_push v sr s = Ok s' → consistent s'.
Proof.
  intros Hs Hsr. unfold select_push. intros (m & Hm & [= <-])%bind_Ok. apply insert_consistent; [done|]. eapply push_grounded; [|exact Hsr|exact Hm].
  destruct (min_select s !! v) as [m'|] eqn:E; simpl; [by apply (cn_stack _ Hs)|constructor].
Qed.

Lemma select_pop_keeps v s s' : consistent s → select_pop v s = Ok s' → consistent s'.
Proof.
  intros Hs. unfold select_pop. destruct (min_select s !! v) as [m|] eqn:E; [|done]. intros [= <-].
  apply insert_consistent; [done|]. by apply pop_grounded, (cn_stack _ Hs).
Qed.

Lemma record_push_keeps xs s s' : consistent s → record_push xs s = Ok s' → consistent s'.
Proof. intros Hs. unfold record_push. destruct (_ <=? _); [|done]. intros [= <-]. by eapply consistent_same. Qed.

Lemma add_keeps c s s' : consistent s → c ∈ T → new_add_selectivity st (c_s c) (c_p c) (c_o c) s = Ok s' → consistent s'.
Proof.
  intros Hs Hc. unfold new_add_selectivity. destruct ((c_s c <? 0) && (0 <? c_o c)) eqn:E1; [|destruct ((c_o c <? 0) && (0 <? c_s c)) eqn:E2; [|destruct ((c_s c <? 0) && (c_o c <? 0)) eqn:E3]].
  - apply andb_true_iff in E1 as [E1%Z.ltb_lt E1'%Z.ltb_lt]. destruct (Z.eqb_spec (c_p c) TYPE_ID) as [Et|Et];
      intros (s1 & H1 & H2)%bind_Ok; (eapply record_push_keeps; [|exact H2]); (eapply select_push_keeps; [exact Hs| |exact H1]); unfold grounded; simpl; auto.
  - apply andb_true_iff in E2 as [E2%Z.ltb_lt E2'%Z.ltb_lt]. intros (s1 & H1 & H2)%bind_Ok. eapply record_push_keeps; [|exact H2].
    eapply select_push_keeps; [exact Hs| |exact H1]. by apply Hobj.
  - apply andb_true_iff in E3 as [E3%Z.ltb_lt E3'%Z.ltb_lt]. intros (s1 & H1 & (s2 & H2 & H3)%bind_Ok)%bind_Ok. eapply record_push_keeps; [|exact H3].
    eapply select_push_keeps; [| |exact H2]; [|by apply Hobj]. eapply select_push_keeps; [exact Hs| |exact H1]. by apply Hsubj.
  - by apply record_push_keeps.
Qed.

Lemma unadd_keeps s s' : consistent s → unadd_selectivity s = Ok s' → consistent s'.
Proof.
  intros Hs. unfold unadd_selectivity. destruct (min_select_record s) as [|lastnum r]; [by intros [= <-]|].
  intros (_ & _ & (s1 & H1 & [= <-])%bind_Ok)%bind_Ok. eapply consistent_same with (s := s1); [|done..].
  revert s Hs H1. generalize (take (Z.to_nat lastnum) r). intros l. induction l as [|v l IH]; intros s Hs; simpl; [by intros [= <-]|].
  intros (s2 & H2 & H3)%bind_Ok. eapply IH; [|exact H3]. by eapply select_pop_keeps.
Qed.

Lemma com_prune_keeps v r p d p' d' s : consistent s → F v p d → F v p' d' → keeps (com_prune st r p d p' d' s).
Proof.
  intros Hs H1 H2 x s'. unfold com_prune. destruct (Z.eqb_spec p p') as [->|Hne]; [by intros [= _ <-]|].
  pose proof (Hcorr v p d p' d' H1 H2 Hne) as Hc.
  assert (Hok : ∀ k, k = correlation st p d p' d' → consistent (if deq (d_int k) (d_int 0) then set_empty true s else s)).
  { intros k ->. by rewrite Hzero. }
  intros ((k & y) & Hk & [= _ <-])%bind_Ok. apply Hok. clear Hok Hc.
  unfold correlation, cell. destruct d, d', (p <? p'); by simplify_eq.
Qed.

Section body.
  Context (rec : Z → double → double → Planner → outcome (bool * Planner)).
  Hypothesis Hrec : ∀ bits cost pre s, consistent s → keeps (rec bits cost pre s).
  Context (bits : Z) (cost pre : double).

Lemma path_keeps l s : consistent s → consistent (set_path l s).
Proof. intros Hs. by eapply consistent_same. Qed.

Lemma explore_keeps c' add i c s : consistent s → c ∈ T → keeps (explore st rec bits cost c' add i (c_s c) (c_p c) (c_o c) s).
Proof.
  intros Hs Hc f s'. unfold explore. destruct (dlt _ _); [intros [= _ <-]; by do 2 apply path_keeps|].
  intros (s1 & H1 & ((ctn & s2) & H2 & (s3 & H3 & H4)%bind_Ok)%bind_Ok)%bind_Ok.
  assert (Hs3 : consistent s3).
  { eapply unadd_keeps; [|exact H3]. eapply Hrec; [|exact H2]. eapply add_keeps; [|exact Hc|exact H1]. by apply path_keeps. }
  destruct ctn; injection H4 as _ <-; [by apply path_keeps|done].
Qed.

Lemma explore_index_keeps c' v m sr s : consistent s → grounded v sr → keeps (explore_index rec bits cost c' v m sr s).
Proof.
  intros Hs Hsr f s'. unfold explore_index. destruct (dlt _ _); [intros [= _ <-]; by do 2 apply path_keeps|].
  intros (m' & H1 & ((ctn & s2) & H2 & (s3 & H3 & H4)%bind_Ok)%bind_Ok)%bind_Ok.
  assert (Hs3 : consistent s3).
  { eapply select_pop_keeps; [|exact H3]. eapply Hrec; [|exact H2]. apply insert_consistent; [by apply path_keeps|].
    eapply push_grounded; [|exact Hsr|exact H1]. constructor. }
  destruct ctn; injection H4 as _ <-; [by apply path_keeps|done].
Qed.

Lemma then_keeps r k : keeps r → (∀ s, consistent s → keeps (k s)) → keeps (then_ r k).
Proof.
  intros Hr Hk f s'. unfold then_. intros ((f1 & s1) & H1 & H2)%bind_Ok. pose proof (Hr _ _ H1) as Hs1.
  destruct f1; [by eapply Hk|by injection H2 as _ <-|by injection H2 as _ <-].
Qed.

Lemma keeps_next s : consistent s → keeps (Ok (Next, s)).
Proof. by intros Hs f s' [= _ <-]. Qed.

Lemma pick_first_keeps i c s : consistent s → c ∈ T → keeps (pick_first st rec bits cost i c s).
Proof.
  intros Hs Hc. pose proof (Hsubj c Hc) as Hs'. pose proof (Hobj c Hc) as Ho. pose proof (Hdir c Hc) as Hd.
  destruct c as [o1 p d o2] eqn:Ec. simpl in Hd. subst d. unfold pick_first. apply then_keeps.
  - destruct (Z.ltb_spec o1 0), (Z.ltb_spec o2 0); simpl; try by apply keeps_next.
    apply then_keeps; [apply explore_index_keeps; [done|by apply Hs']|]. intros s1 Hs1. apply explore_index_keeps; [done|by apply Ho].
  - intros s1 Hs1. destruct (0 <? o1); [by apply (explore_keeps _ _ _ (MkChain o1 p OUT o2))|].
    destruct (0 <? o2); [by apply (explore_keeps _ _ _ (MkChain o1 p OUT o2))|by apply keeps_next].
Qed.

Lemma top_grounded v s sr : consistent s → known_var v s = true → top_of v s = Ok sr → grounded v sr.
Proof.
  intros Hs _. unfold top_of. destruct (min_select s !! v) as [m|] eqn:E; [|done]. unfold mm_top. pose proof (cn_stack _ Hs v m E) as Hm.
  destruct (stack0 m); [done|]. intros [= <-]. by apply Forall_cons_iff in Hm as [].
Qed.

(** only variables are known *)
Hypothesis Hneg : ∀ v p d, F v p d → v < 0.

Lemma pick_next_keeps i c s : consistent s → c ∈ T → keeps (pick_next st rec bits cost pre i c s).
Proof.
  intros Hs Hc. pose proof (Hsubj c Hc) as Hs'. pose proof (Hobj c Hc) as Ho. pose proof (Htype c Hc) as Ht.
  destruct c as [o1 p d o2] eqn:Ec. simpl in Hs', Ho, Ht. unfold pick_next. apply then_keeps.
  - destruct (known_var o1 s) eqn:Hk; [|by apply keeps_next]. intros f s'. intros (sr & H1 & ((x & s1) & H2 & H3)%bind_Ok)%bind_Ok.
    pose proof (top_grounded o1 s sr Hs Hk H1) as Hsr. pose proof (Hneg _ _ _ Hsr) as Ho1.
    assert (Hs1 : consistent s1).
    { destruct (Z.eqb_spec p TYPE_ID) as [Et|Et], (Z.ltb_spec 0 o2) as [Hp|Hp]; simpl in H2; [eapply (com_prune_keeps o1); [exact Hs|exact Hsr|by apply Ht|exact H2]|..];
        (destruct (0 <=? o2); apply bind_Ok in H2 as ((r & s2) & H2 & [= _ <-]); (eapply (com_prune_keeps o1); [exact Hs|exact Hsr|by apply Hs'|exact H2])). }
    by eapply (explore_keeps _ _ _ (MkChain o1 p d o2)).
  - intros s1 Hs1. destruct (known_var o2 s1) eqn:Hk; [|by apply keeps_next]. intros f s'. intros (sr & H1 & ((x & s2) & H2 & H3)%bind_Ok)%bind_Ok.
    pose proof (top_grounded o2 s1 sr Hs1 Hk H1) as Hsr. pose proof (Hneg _ _ _ Hsr) as Ho2.
    assert (Hs2 : consistent s2) by (eapply (com_prune_keeps o2); [exact Hs1|exact Hsr|by apply Ho|exact H2]).
    by eapply (explore_keeps _ _ _ (MkChain o1 p d o2)).
Qed.

Lemma pick_loop_keeps picks s : consistent s → keeps (pick_loop st rec bits cost pre picks s).
Proof.
  revert s. induction picks as [|i picks IH]; intros s Hs; cbn [pick_loop]; [by intros ? ? [= _ <-]|].
  destruct (Z.testbit bits i); [by apply IH|]. intros ctn s' (c & Hc & ((f & s1) & H1 & H2)%bind_Ok)%bind_Ok.
  rewrite (cn_triples _ Hs) in Hc. apply read_Ok, list_elem_of_lookup_2 in Hc.
  assert (Hs1 : consistent s1) by (destruct (path s); [by eapply pick_first_keeps|by eapply pick_next_keeps]).
  destruct f; [by eapply IH|by eapply IH|]. by injection H2 as _ <-.
Qed.
End body.

Hypothesis Hneg : ∀ v p d, F v p d → v < 0.

Lemma traverse_keeps fuel : ∀ bits cost pre s, consistent s → keeps (com_traverse st fuel bits cost pre s).
Proof.
  induction fuel as [|fuel IH]; intros bits cost pre s Hs; cbn [com_traverse]; [done|]. destruct (_ =? _); [|by apply pick_loop_keeps].
  intros ctn s'. unfold leaf. intros (b & _ & [= _ <-])%bind_Ok. destruct (dlt _ _); [by eapply consistent_same|done].
Qed.

(** a query with answers is not found empty *)
Lemma search_nonempty fuel bits cost pre s ctn s' : triples s = T → min_select s = ∅ → is_empty s = false →
  com_traverse st fuel bits cost pre s = Ok (ctn, s') → is_empty s' = false.
Proof.
  intros H1 H2 H3 E. assert (Hs : consistent s) by (split; [done..|]; intros v m; by rewrite H2). by apply (traverse_keeps _ _ _ _ _ Hs _ _ E).
Qed.
End empty.
