(* ===== verification/PlanSound.v ===== *)
(** The plans of [core/planner.hpp] are correct: a planned query has the answers of the
    query as it was written. *)

From S2P Require Import Prelude Types MyMath Keys HashTable GStore Runs Index IndexInsert Remote Attr.
From S2P Require Import Query Rows Engine EngineSteps Exec Final Server Frame Bgp EndToEnd.
From S2P Require Import Planner PlannerOk PlanEmpty.
Local Open Scope Z_scope.

(** ** Queries that can be planned *)

(** a pattern as it is written: from subject to object, with a constant predicate; a
    variable, a vertex id or a type id *)
Definition plannable (nv : nat) (p : Pattern) : bool :=
  let is_var x := (- Z.of_nat nv <=? x) && (x <? 0) in
  let is_vertex x := (2 ^ 17 <=? x) && (x <? 2 ^ 31) in
  (pred_type p =? 0) && bool_decide (direction p = OUT) && (0 <? predicate p) && (predicate p <? 2 ^ 17) &&
  (is_var (subject p) || is_vertex (subject p)) &&
  (if predicate p =? TYPE_ID then is_tpid (object p) && is_var (subject p) else is_var (object p) || (is_vertex (object p) && is_var (subject p))) &&
  negb (subject p =? object p).

Record plannable_ok (nv : nat) (p : Pattern) : Prop := {
  pl_type : pred_type p = 0;
  pl_dir : direction p = OUT;
  pl_pred : 0 < predicate p < 2 ^ 17;
  pl_subj : - Z.of_nat nv <= subject p < 0 ∨ 2 ^ 17 <= subject p < 2 ^ 31;
  pl_obj : - Z.of_nat nv <= object p < 0 ∧ predicate p ≠ TYPE_ID ∨ subject p < 0 ∧ 2 ^ 17 <= object p < 2 ^ 31 ∧ predicate p ≠ TYPE_ID ∨
    subject p < 0 ∧ 1 < object p < 2 ^ 17 ∧ predicate p = TYPE_ID;
  pl_ne : subject p ≠ object p
}.

Lemma is_tpid_spec x : is_tpid x = true ↔ 1 < x < 2 ^ 17.
Proof. unfold is_tpid. change (Z.shiftl 1 NBITS_IDX) with (2 ^ 17). rewrite andb_true_iff, !Z.ltb_lt. lia. Qed.

Lemma plannable_spec nv p : plannable nv p = true → plannable_ok nv p.
Proof.
  unfold plannable. rewrite !andb_true_iff, negb_true_iff, Z.eqb_neq, bool_decide_eq_true, !orb_true_iff, !andb_true_iff, !Z.eqb_eq, !Z.ltb_lt, !Z.leb_le.
  intros ((((((? & ?) & ?) & ?) & Hs) & Ho) & ?). split; try done.
  destruct (Z.eqb_spec (predicate p) TYPE_ID) as [Et|Et].
  - rewrite !andb_true_iff, is_tpid_spec, Z.leb_le, Z.ltb_lt in Ho. right. right. split_and!; (done || lia).
  - rewrite !orb_true_iff, !andb_true_iff, !Z.leb_le, !Z.ltb_lt in Ho. destruct Ho as [Ho|[Ho Ho']]; [left; split; [lia|done]|right; left; split_and!; (done || lia)].
Qed.

(** ** Orders are plans *)

Lemma plan_ok_snoc n j K ps p :
  plan_ok n j K (ps ++ [p]) = plan_ok n j K ps && (pattern_okb n p && step_ok (j + length ps) (foldl next_known K ps) p).
Proof.
  revert j K. induction ps as [|p' ps IH]; intros j K; simpl.
  - by rewrite Nat.add_0_r, andb_true_r.
  - rewrite IH. rewrite Nat.add_succ_comm. by rewrite !andb_assoc.
Qed.

Section plans.
  Context (nv : nat) (ps : list Pattern) (cs : list chain).
  Hypothesis Hps : Forall (λ p, plannable nv p = true) ps.
  Hypothesis Hcs : ∀ c, c ∈ cs ↔ c ∈ chain_of <$> ps.

Lemma chain_plannable i c : nth_chain cs i c → ∃ p, p ∈ ps ∧ c = chain_of p ∧ plannable_ok nv p.
Proof.
  intros [_ Hc]. apply list_elem_of_lookup_2, Hcs, list_elem_of_fmap in Hc as (p & -> & Hp). exists p. split_and!; [done..|].
  rewrite Forall_forall in Hps. by apply plannable_spec, Hps.
Qed.

(** the shape of a pattern of a plan *)
Ltac okb := unfold pattern_okb; simpl; rewrite ?bool_decide_eq_true_2 by congruence; rewrite ?andb_true_iff, ?Z.leb_le, ?Z.ltb_lt; split_and!; (done || lia).

Lemma pattern_okb_of p : plannable_ok nv p → pattern_okb nv (pattern_of (chain_of p)) = true ∧ pattern_okb nv (pattern_of (flipped (chain_of p))) = true.
Proof. intros [Ht Hd Hp Hs Ho Hne]. split; okb. Qed.

Lemma order_plan l ks : reach cs l ks →
  plan_ok nv 0 ∅ (pattern_of <$> l) = true ∧ (∀ i p, (pattern_of <$> l) !! i = Some p → source_ok i p = true) ∧
  (∀ v, in_path v l → v ∈ plan_vars (pattern_of <$> l)).
Proof.
  assert (Hone : ∀ c, pattern_okb nv (pattern_of c) = true → step_ok 0 ∅ (pattern_of c) = true → source_ok 0 (pattern_of c) = true → ¬ c_s c < 0 →
    plan_ok nv 0 ∅ (pattern_of <$> [c]) = true ∧ (∀ i p, (pattern_of <$> [c]) !! i = Some p → source_ok i p = true) ∧
    (∀ v, in_path v [c] → v ∈ plan_vars (pattern_of <$> [c]))).
  { intros c H1 H2 H3 H4. split_and!.
    - cbn [fmap list_fmap plan_ok]. by rewrite H1, H2.
    - intros [|i] p Hi; simpl in Hi; [by injection Hi as <-|done].
    - intros v (c' & ->%list_elem_of_singleton & Hv & [-> | ->]); [lia|]. unfold plan_vars. simpl. unfold next_known. simpl.
      rewrite (proj2 (Z.ltb_lt _ _) Hv). set_solver. }
  assert (Hsnoc : ∀ l c, l ≠ [] → plan_ok nv 0 ∅ (pattern_of <$> l) = true → (∀ i p, (pattern_of <$> l) !! i = Some p → source_ok i p = true) →
    (∀ v, in_path v l → v ∈ plan_vars (pattern_of <$> l)) → pattern_okb nv (pattern_of c) = true → in_path (c_s c) l → source_ok 1 (pattern_of c) = true →
    plan_ok nv 0 ∅ (pattern_of <$> (l ++ [c])) = true ∧ (∀ i p, (pattern_of <$> (l ++ [c])) !! i = Some p → source_ok i p = true) ∧
    (∀ v, in_path v (l ++ [c]) → v ∈ plan_vars (pattern_of <$> (l ++ [c])))).
  { intros l' c Hl H1 H2 H3 Hok Hin Hsrc. rewrite fmap_app. split_and!.
    - cbn [fmap list_fmap]. rewrite plan_ok_snoc, H1, Hok. simpl. rewrite length_fmap. destruct l' as [|c0 l']; [done|]. simpl length.
      cbn [step_ok]. rewrite bool_decide_eq_true_2; [done|]. by apply H3.
    - intros i p Hi. apply lookup_app_Some in Hi as [Hi|[Hge Hi]]; [by apply H2|]. rewrite length_fmap in Hge, Hi.
      destruct (i - length l')%nat as [|k] eqn:E; simpl in Hi; [injection Hi as <-|done]. destruct i as [|i]; [destruct l'; [done|simpl in Hge; lia]|].
      revert Hsrc. unfold source_ok. simpl. done.
    - intros v Hv. unfold plan_vars. rewrite foldl_app. simpl. unfold next_known. simpl.
      assert (Hold : in_path v l' → v ∈ foldl next_known ∅ (pattern_of <$> l')) by apply H3.
      destruct Hv as (c' & Hc' & Hneg & Hvc). apply elem_of_app in Hc' as [Hc'|Hc'%list_elem_of_singleton].
      + assert (Hv' : v ∈ foldl next_known ∅ (pattern_of <$> l')) by (apply Hold; exists c'; auto). destruct (c_o c <? 0); set_solver.
      + subst c'. destruct Hvc as [-> | ->].
        * specialize (H3 _ Hin). unfold plan_vars in H3. destruct (c_o c <? 0); set_solver.
        * rewrite (proj2 (Z.ltb_lt _ _) Hneg). set_solver. }
  induction 1 as [|i c Hc Hc1 Hc2|i c Hc Hc1 Hc2|i c Hc Hc1|i c Hc Hc1 Hc2|l ks i c Hl Hr IH Hi Hc Hin|l ks i c Hl Hr IH Hi Hc Hin].
  - split_and!; [done|done|]. intros v (c & Hc & _). set_solver.
  - destruct (chain_plannable i c Hc) as (p & Hp & -> & Hok). destruct Hok as [Ht Hd Hpr Hs Ho Hne]. simpl in *.
    assert (Htp : is_tpid (predicate p) = true) by (apply is_tpid_spec; unfold TYPE_ID in *; lia).
    apply Hone; simpl; [| | |lia].
    + okb.
    + simpl. rewrite (proj2 (Z.ltb_lt _ _)) by lia. by rewrite Htp.
    + unfold source_ok. simpl. by rewrite Htp.
  - destruct (chain_plannable i c Hc) as (p & Hp & -> & Hok). destruct Hok as [Ht Hd Hpr Hs Ho Hne]. simpl in *.
    assert (Htp : is_tpid (predicate p) = true) by (apply is_tpid_spec; unfold TYPE_ID in *; lia).
    apply Hone; simpl; [| | |lia].
    + okb.
    + simpl. rewrite (proj2 (Z.ltb_lt _ _)) by lia. by rewrite Htp.
    + unfold source_ok. simpl. by rewrite Htp.
  - destruct (chain_plannable i c Hc) as (p & Hp & -> & Hok). pose proof (proj1 (pattern_okb_of p Hok)) as Hokb. destruct Hok as [Ht Hd Hpr Hs Ho Hne]. simpl in *.
    assert (Htp : is_tpid (subject p) = false) by (apply not_true_iff_false; rewrite is_tpid_spec; lia).
    apply Hone; simpl; [done| | |lia].
    + simpl. rewrite (proj2 (Z.ltb_lt (object p) 0)) by lia. rewrite Htp. apply Z.leb_le. lia.
    + unfold source_ok. simpl. rewrite Htp, Hd, (proj2 (Z.ltb_lt 0 (predicate p))), (proj2 (Z.leb_le (2 ^ 17) (subject p))) by lia. by rewrite orb_true_r.
  - destruct (chain_plannable i c Hc) as (p & Hp & -> & Hok). pose proof (proj2 (pattern_okb_of p Hok)) as Hokb. destruct Hok as [Ht Hd Hpr Hs Ho Hne]. simpl in *.
    apply Hone; simpl; [done| | |lia].
    + simpl. rewrite (proj2 (Z.ltb_lt (subject p) 0)) by lia. destruct (is_tpid (object p)) eqn:Htp; [|apply Z.leb_le; lia].
      apply is_tpid_spec in Htp. destruct Ho as [?|[?|(_ & _ & ->)]]; [lia|lia|done].
    + unfold source_ok. simpl. destruct (is_tpid (object p)) eqn:Htp; [done|]. simpl.
      assert (predicate p ≠ TYPE_ID) by (intros E; destruct Ho as [[? ?]|[(? & ? & ?)|(? & Hr & ?)]]; [done|done|]; apply is_tpid_spec in Hr; congruence).
      rewrite (proj2 (Z.ltb_lt 0 (predicate p))), (proj2 (Z.leb_le (2 ^ 17) (object p))), (proj2 (Z.eqb_neq (predicate p) TYPE_ID)) by lia. by rewrite orb_true_r.
  - destruct IH as (I1 & I2 & I3). destruct (chain_plannable i c Hc) as (p & Hp & -> & Hok). pose proof (proj1 (pattern_okb_of p Hok)) as Hokb.
    apply Hsnoc; auto. destruct Hok as [Ht Hd Hpr Hs Ho Hne]. destruct Hin as (_ & _ & Hneg & _). unfold source_ok. simpl in *.
    rewrite Hd, (proj2 (Z.ltb_lt 0 (predicate p))), (proj2 (Z.ltb_lt (subject p) 0)) by lia. done.
  - destruct IH as (I1 & I2 & I3). destruct (chain_plannable i c Hc) as (p & Hp & -> & Hok). pose proof (proj2 (pattern_okb_of p Hok)) as Hokb.
    apply Hsnoc; auto. destruct Hok as [Ht Hd Hpr Hs Ho Hne]. destruct Hin as (_ & _ & Hneg & _). unfold source_ok. simpl in *.
    rewrite (proj2 (Z.ltb_lt 0 (predicate p))), (proj2 (Z.ltb_lt (object p) 0)) by lia. simpl.
    rewrite (proj2 (Z.eqb_neq (predicate p) TYPE_ID)); [done|]. destruct Ho as [[? ?]|[(? & ? & ?)|(? & ? & ?)]]; [done|lia|lia].
Qed.
End plans.

(** ** Orders mean the same *)

Definition triple_of (σ : assignment) (p : Pattern) : triple_t := Triple (val σ (subject p)) (predicate p) (val σ (object p)).

(** the types of the query are no predicates of the data *)
Definition types_apart (Tr : list triple_t) (ps : list Pattern) : Prop :=
  ∀ p t, p ∈ ps → predicate p = TYPE_ID → t ∈ Tr → tr_p t ≠ object p.

Lemma forward_step Tr σ k nv p : plannable_ok nv p → triple_holds Tr k σ (pattern_of (chain_of p)) ↔ triple_of σ p ∈ Tr.
Proof.
  intros [Ht Hd Hpr Hs Ho Hne]. unfold triple_holds, triple_of. simpl.
  assert (is_tpid (subject p) = false) as -> by (apply not_true_iff_false; rewrite is_tpid_spec; lia). by rewrite andb_false_r, Hd.
Qed.

Lemma backward_step Tr σ k nv p ps : plannable_ok nv p → types_apart Tr ps → p ∈ ps →
  triple_holds Tr k σ (pattern_of (flipped (chain_of p))) ↔ triple_of σ p ∈ Tr.
Proof.
  intros [Ht Hd Hpr Hs Ho Hne] Hap Hp. unfold triple_holds, triple_of. simpl. destruct ((k =? 0)%nat && is_tpid (object p)) eqn:E; [|done].
  apply andb_true_iff in E as [_ Htp]. apply is_tpid_spec in Htp.
  assert (Et : predicate p = TYPE_ID) by (destruct Ho as [[? ?]|[(? & ? & ?)|(? & ? & ?)]]; [lia|lia|done]).
  assert (Hv : val σ (object p) = object p) by (unfold val; rewrite (proj2 (Z.leb_le _ _)), u32_id by lia; done). rewrite Hv. split.
  - intros (t & Ht' & E1 & [E2|[E2 E3]]); [by apply (Hap p t Hp Et) in E2|]. rewrite <-E1, <-E3, Et, <-E2. by destruct t.
  - intros Hin. exists (Triple (val σ (subject p)) (predicate p) (object p)). split_and!; [done|done|right; by rewrite Et].
Qed.

Lemma order_covers cs l ks : reach cs l ks → ∀ i c, i ∈ ks → nth_chain cs i c → c ∈ l ∨ flipped c ∈ l.
Proof.
  assert (Hfun : ∀ i c c', nth_chain cs i c → nth_chain cs i c' → c = c') by (intros i c c' [_ H1] [_ H2]; congruence).
  induction 1 as [| | |i c Hc Hc1|i c Hc Hc1 Hc2|l ks i c Hl Hr IH Hi Hc Hin|l ks i c Hl Hr IH Hi Hc Hin]; intros j c' Hj Hc'.
  - set_solver.
  - set_solver.
  - set_solver.
  - apply list_elem_of_singleton in Hj as ->. rewrite (Hfun _ _ _ Hc' Hc). set_solver.
  - apply list_elem_of_singleton in Hj as ->. rewrite (Hfun _ _ _ Hc' Hc). set_solver.
  - apply elem_of_app in Hj as [Hj|Hj%list_elem_of_singleton]; [destruct (IH j c' Hj Hc'); set_solver|subst j]. rewrite (Hfun _ _ _ Hc' Hc). set_solver.
  - apply elem_of_app in Hj as [Hj|Hj%list_elem_of_singleton]; [destruct (IH j c' Hj Hc'); set_solver|subst j]. rewrite (Hfun _ _ _ Hc' Hc). set_solver.
Qed.

(** a step of an order is a pattern, or the index at its start *)
Lemma order_steps cs l ks : reach cs l ks → ∀ k c', l !! k = Some c' → ∃ i c, nth_chain cs i c ∧
  (c' = c ∨ c' = flipped c ∨ k = 0%nat ∧ c_s c < 0 ∧ c_o c < 0 ∧ (c' = MkChain (c_p c) 0 IN (c_s c) ∨ c' = MkChain (c_p c) 0 OUT (c_o c))).
Proof.
  assert (Hsnoc : ∀ (l : list chain) c k c', (l ++ [c]) !! k = Some c' → l !! k = Some c' ∨ c' = c).
  { intros l0 c k c' Hk. apply lookup_app_Some in Hk as [Hk|[_ Hk]]; [by left|right]. apply list_elem_of_lookup_2 in Hk. set_solver. }
  induction 1 as [|i c Hc Hc1 Hc2|i c Hc Hc1 Hc2|i c Hc Hc1|i c Hc Hc1 Hc2|l ks i c Hl Hr IH Hi Hc Hin|l ks i c Hl Hr IH Hi Hc Hin]; intros k c' Hk.
  - done.
  - destruct k; [|done]. simpl in Hk. injection Hk as <-. exists i, c. split; [done|]. right. right. auto.
  - destruct k; [|done]. simpl in Hk. injection Hk as <-. exists i, c. split; [done|]. right. right. auto.
  - destruct k; [|done]. simpl in Hk. injection Hk as <-. exists i, c. auto.
  - destruct k; [|done]. simpl in Hk. injection Hk as <-. exists i, c. auto.
  - destruct (Hsnoc _ _ _ _ Hk) as [Hk'| ->]; [by apply IH|exists i, c; auto].
  - destruct (Hsnoc _ _ _ _ Hk) as [Hk'| ->]; [by apply IH|exists i, c; auto].
Qed.

Lemma order_equiv nv ps cs l Tr σ : Forall (λ p, plannable nv p = true) ps → (∀ c, c ∈ cs ↔ c ∈ chain_of <$> ps) → full_order cs l → types_apart Tr ps →
  (∀ p, p ∈ ps → triple_of σ p ∈ Tr) ↔ (∀ k p, (pattern_of <$> l) !! k = Some p → triple_holds Tr k σ p).
Proof.
  intros Hps Hcs (ks & Hr & Hlen) Hap.
  assert (Hok : ∀ i c, nth_chain cs i c → ∃ p, p ∈ ps ∧ c = chain_of p ∧ plannable_ok nv p) by (intros i c Hc; by eapply chain_plannable).
  split.
  - intros Hall k p Hk. rewrite list_lookup_fmap in Hk. destruct (l !! k) as [c'|] eqn:El; [|done]. injection Hk as <-.
    destruct (order_steps cs l ks Hr k c' El) as (i & c & Hc & Hshape). destruct (Hok i c Hc) as (p & Hp & -> & Hpl).
    destruct Hshape as [->|[->|(-> & Hs & Ho & Hix)]].
    + by eapply forward_step, Hall.
    + by eapply backward_step; [..|apply Hall].
    + specialize (Hall p Hp). destruct Hpl as [Ht Hd Hpr Hsu Hob Hne]. simpl in *.
      assert (Htp : is_tpid (predicate p) = true) by (apply is_tpid_spec; unfold TYPE_ID in *; lia).
      unfold triple_holds. destruct Hix as [-> | ->]; simpl; rewrite Htp; exists (triple_of σ p); auto.
  - intros Hall p Hp. assert (Hcin : chain_of p ∈ cs) by (apply Hcs; by apply list_elem_of_fmap_2).
    apply list_elem_of_lookup in Hcin as [i Hi]. assert (Hc : nth_chain cs (Z.of_nat i) (chain_of p)) by (split; [lia|by rewrite Nat2Z.id]).
    assert (Hin : Z.of_nat i ∈ ks).
    { destruct (reach_picks cs l ks Hr) as [Hnd Hrange].
      assert (Hperm : ks ≡ₚ Z.of_nat <$> seq 0 (length cs)).
      { apply submseteq_length_Permutation; [|by rewrite length_fmap, length_seq, Hlen]. apply NoDup_submseteq; [done|]. intros j Hj.
        rewrite Forall_forall in Hrange. specialize (Hrange j Hj). apply list_elem_of_fmap. exists (Z.to_nat j). rewrite elem_of_seq. lia. }
      rewrite Hperm. apply list_elem_of_fmap_2, elem_of_seq. apply lookup_lt_Some in Hi. lia. }
    assert (Hpl : plannable_ok nv p) by (rewrite Forall_forall in Hps; by apply plannable_spec, Hps).
    destruct (order_covers cs l ks Hr _ _ Hin Hc) as [Hl|Hl]; apply list_elem_of_lookup in Hl as [k Hk].
    + eapply forward_step; [done|]. apply (Hall k). by rewrite list_lookup_fmap, Hk.
    + eapply backward_step; [done..|]. apply (Hall k). by rewrite list_lookup_fmap, Hk.
Qed.

(** ** Connected queries *)

Definition chain_vars (c : chain) : gset Z := list_to_set (filter (λ v, v < 0) [c_s c; c_o c]).
Definition touches (V : gset Z) (c : chain) : bool := bool_decide (¬ chain_vars c ## V).

Lemma not_disjoint_elem (X Y : gset Z) : ¬ X ## Y → ∃ w, w ∈ X ∧ w ∈ Y.
Proof. intros Hn. destruct (set_choose_or_empty (X ∩ Y)) as [[w Hw]|He]; [exists w; set_solver|]. destruct Hn. set_solver. Qed.

(** the variables that are reached from [V] through the patterns *)
Definition grow (cs : list chain) (V : gset Z) : gset Z := foldl (λ V c, if touches V c then V ∪ chain_vars c else V) V cs.
Definition connected (cs : list chain) : bool :=
  match cs with [] => true | c :: _ => forallb (touches (Nat.iter (length cs) (grow cs) (chain_vars c))) cs end.

Lemma elem_of_chain_vars v c : v ∈ chain_vars c ↔ v < 0 ∧ (v = c_s c ∨ v = c_o c).
Proof. unfold chain_vars. rewrite elem_of_list_to_set, list_elem_of_filter. set_solver. Qed.

Lemma picked_in_path cs l ks : reach cs l ks → ∀ i c v, i ∈ ks → nth_chain cs i c → v ∈ chain_vars c → in_path v l.
Proof.
  intros Hr i c v Hi Hc Hv. apply elem_of_chain_vars in Hv as [Hneg Hv].
  destruct (order_covers cs l ks Hr i c Hi Hc) as [Hl|Hl]; eexists; (split; [exact Hl|]); simpl; tauto.
Qed.

(** a set of variables that no pattern leaves or enters *)
Section closed.
  Context (cs : list chain) (S : Z → Prop).
  Hypothesis Hside : ∀ c, c ∈ cs → (∀ v, v ∈ chain_vars c → S v) ∨ (∀ v, v ∈ chain_vars c → ¬ S v).

Lemma grow_closed (P : Z → Prop) : P = S ∨ P = (λ v, ¬ S v) → ∀ V, (∀ v, v ∈ V → P v) → ∀ v, v ∈ grow cs V → P v.
Proof.
  intros HP. unfold grow. clear -Hside HP. revert Hside. generalize cs. intros l. induction l as [|c l IH]; intros Hside V HV; simpl; [done|].
  apply IH; [intros c' Hc'; apply Hside; set_solver|]. unfold touches. case_bool_decide as Ht; [|done]. intros v [Hv|Hv]%elem_of_union; [auto|].
  assert (∃ w, w ∈ chain_vars c ∧ w ∈ V) as (w & Hw & HwV).
  { by apply not_disjoint_elem. }
  specialize (HV w HwV). destruct (Hside c) as [Hs|Hs]; [set_solver|..]; destruct HP as [-> | ->]; auto; exfalso; eapply Hs; eauto.
Qed.

Lemma connected_closed : connected cs = true → (∀ c, c ∈ cs → ∃ v, v ∈ chain_vars c) →
  (∀ c v, c ∈ cs → v ∈ chain_vars c → S v) ∨ (∀ c v, c ∈ cs → v ∈ chain_vars c → ¬ S v).
Proof.
  assert (cs = [] ∨ ∃ c0 l, cs = c0 :: l) as [->|(c0 & l & Ecs)] by (destruct cs; eauto); [intros _ _; left; set_solver|]. intros Hcon Hvars.
  assert (Hall : ∀ V, connected cs = true → V = Nat.iter (length cs) (grow cs) (chain_vars c0) → ∀ c, c ∈ cs → ∃ w, w ∈ chain_vars c ∧ w ∈ V).
  { intros V HV -> c Hc. assert (Hfa : forallb (touches (Nat.iter (length cs) (grow cs) (chain_vars c0))) cs = true) by (revert HV; unfold connected; by rewrite Ecs).
    clear HV. rename Hfa into HV. rewrite forallb_forall in HV. specialize (HV c (proj1 (list_elem_of_In _ _) Hc)).
    unfold touches in HV. apply bool_decide_eq_true in HV. by apply not_disjoint_elem. }
  specialize (Hall _ Hcon eq_refl).
  assert (Hiter : ∀ P k, P = S ∨ P = (λ v, ¬ S v) → (∀ v, v ∈ chain_vars c0 → P v) → ∀ v, v ∈ Nat.iter k (grow cs) (chain_vars c0) → P v).
  { intros P k HP HV. induction k as [|k IH]; simpl; [done|]. by apply grow_closed. }
  destruct (Hside c0) as [H0|H0]; [rewrite Ecs; set_solver|left|right]; intros c v Hc Hv;
    destruct (Hall c Hc) as (w & Hw & HwV); destruct (Hside c Hc) as [Hs|Hs]; auto; exfalso.
  - eapply Hs; [exact Hw|]. by apply (Hiter S (length cs)); auto.
  - by apply (Hiter (λ v, ¬ S v) (length cs) (or_intror eq_refl) H0 w HwV), Hs.
Qed.
End closed.

Lemma connected_extensible cs T : connected cs = true → (∀ c, c ∈ T ↔ c ∈ cs) → (∀ c, c ∈ cs → ∃ v, v ∈ chain_vars c) → extensible T.
Proof.
  intros Hcon HT Hvars l ks Hr Hl Hlen.
  assert (Hdec : ∀ i, Decision (∃ c, T !! i = Some c ∧ (Z.of_nat i ∉ ks) ∧ (in_path (c_s c) l ∨ in_path (c_o c) l))).
  { intros i. assert (∀ v, Decision (in_path v l)) as Hin.
    { intros v. destruct (decide (Exists (λ c, v < 0 ∧ (v = c_s c ∨ v = c_o c)) l)) as [He|He]; [left|right]; rewrite Exists_exists in He; done. }
    destruct (T !! i) as [c|]; [|right; by intros (c & ? & _)].
    destruct (decide ((Z.of_nat i ∉ ks) ∧ (in_path (c_s c) l ∨ in_path (c_o c) l))) as [Hy|Hn]; [left; eauto|right].
    intros (c' & [= <-] & ?). by apply Hn. }
  destruct (decide (Exists (λ i, ∃ c, T !! i = Some c ∧ (Z.of_nat i ∉ ks) ∧ (in_path (c_s c) l ∨ in_path (c_o c) l)) (seq 0 (length T)))) as [He|Hn].
  { apply Exists_exists in He as (i & _ & c & Hc & Hi & Hv). exists (Z.of_nat i), c. split_and!; [done| |done]. split; [lia|by rewrite Nat2Z.id]. }
  exfalso.
  assert (Hout : ∀ i c, T !! i = Some c → Z.of_nat i ∉ ks → ∀ v, v ∈ chain_vars c → ¬ in_path v l).
  { intros i c Hc Hi v Hv Hin. apply Hn, Exists_exists. exists i. split; [apply elem_of_seq; apply lookup_lt_Some in Hc; lia|].
    exists c. split_and!; [done..|]. apply elem_of_chain_vars in Hv as [_ [-> | ->]]; auto. }
  assert (Hin : ∀ i c, T !! i = Some c → Z.of_nat i ∈ ks → ∀ v, v ∈ chain_vars c → in_path v l).
  { intros i c Hc Hi v Hv. eapply picked_in_path; [exact Hr|exact Hi| |exact Hv]. split; [lia|by rewrite Nat2Z.id]. }
  destruct (connected_closed cs (λ v, in_path v l)) as [Hall|Hall]; [|done|done|..].
  - intros c Hc%HT. apply list_elem_of_lookup in Hc as [i Hc]. destruct (decide (Z.of_nat i ∈ ks)); [left|right]; eauto.
  - (* a pattern that is not picked *)
    assert (∃ i, (i < length T)%nat ∧ Z.of_nat i ∉ ks) as (i & Hi & Hik).
    { destruct (decide (Forall (λ i, Z.of_nat i ∈ ks) (seq 0 (length T)))) as [Hf|Hf%not_Forall_Exists]; [exfalso| |intros ?; apply _].
      - assert (length (Z.of_nat <$> seq 0 (length T)) <= length ks)%nat as Hle; [|rewrite length_fmap, length_seq in Hle; lia].
        apply submseteq_length, NoDup_submseteq; [apply NoDup_fmap; [apply _|apply NoDup_seq]|]. intros x (i & -> & Hi)%list_elem_of_fmap.
        rewrite Forall_forall in Hf. by apply Hf.
      - apply Exists_exists in Hf as (i & Hi%elem_of_seq & Hik). exists i. split; [lia|done]. }
    destruct (lookup_lt_is_Some_2 T i Hi) as [c Hc]. assert (Hcc : c ∈ cs) by (apply HT; by eapply list_elem_of_lookup_2).
    destruct (Hvars c Hcc) as [v Hv]. by eapply (Hout i c Hc Hik v Hv), Hall.
  - (* a variable of the path *)
    destruct l as [|c1 l]; [done|]. destruct (order_steps T _ ks Hr 0 c1 eq_refl) as (i & c & [Hi0 Hc] & Hshape).
    assert (Hcc : c ∈ cs) by (apply HT; by eapply list_elem_of_lookup_2).
    assert (∃ v, v ∈ chain_vars c ∧ in_path v (c1 :: l)) as (v & Hv & Hvp); [|by eapply Hall].
    destruct (Hvars c Hcc) as [v Hv]. pose proof (proj1 (elem_of_chain_vars v c) Hv) as [Hneg Hvc].
    destruct Hshape as [->|[->|(_ & Hs & Ho & Hix)]].
    + exists v. split; [done|]. exists c. split; [apply list_elem_of_here|auto].
    + exists v. split; [done|]. exists (flipped c). split; [apply list_elem_of_here|simpl; tauto].
    + destruct Hix as [-> | ->]; [exists (c_s c)|exists (c_o c)]; (split; [apply elem_of_chain_vars; auto|]; eexists; split; [apply list_elem_of_here|simpl; auto]).
Qed.

(** ** The planner *)

Lemma prepare_perm cs : prepare cs ≡ₚ cs.
Proof.
  unfold prepare. destruct (list_find _ cs) as [[i c]|] eqn:E; [|done]. apply list_find_Some in E as (Hi & _ & _).
  destruct i as [|i]; [done|]. destruct cs as [|c0 cs]; [done|]. simpl in *.
  rewrite <-(take_drop_middle cs i c Hi) at 2. rewrite insert_take_drop by (by eapply lookup_lt_Some). solve_Permutation.
Qed.

(** ** Statistics that count what there is *)

(** the vertex [x] has an edge [p] in direction [d]; a type counts as a predicate *)
Definition has_edge (Tr : list triple_t) (x : Z) (p : Z) (d : dir_t) : Prop :=
  match d with
  | OUT => (∃ o, Triple x p o ∈ Tr) ∨ Triple x TYPE_ID p ∈ Tr
  | IN => p ≠ TYPE_ID ∧ ∃ s, Triple s p x ∈ Tr
  | CORUN => False
  end.

(** predicates that occur together at a vertex are counted *)
Definition stat_sound (st : data_statistic) (Tr : list triple_t) : Prop :=
  ∀ x p d p' d', p ≠ p' → has_edge Tr x p d → has_edge Tr x p' d' → correlation st p d p' d' ≠ 0.

(** the law of doubles that the planner relies on: integers are told from zero *)
Class DoubleLaws `{Double} : Prop := {
  zero_test x : x ≠ 0 → deq (d_int x) (d_int 0) = false
}.

Section planner.
  Context `{Config} `{Double} (statistic : data_statistic).

Lemma costs_finite_same T T' : (∀ c, c ∈ T ↔ c ∈ T') → length T = length T' → costs_finite statistic T → costs_finite statistic T'.
Proof.
  intros HT Hl Hf.
  assert (He : ∀ p d, edge_name T' p d → edge_name T p d) by (intros p d (c & Hc & ?); exists c; split; [by apply HT|done]).
  assert (Hp : ∀ pre r, pruned statistic T' pre r → pruned statistic T pre r) by (intros pre r []; constructor; auto).
  assert (Hs : ∀ pre r, step_cost statistic T' pre r → step_cost statistic T pre r) by (intros pre r []; econstructor; (by apply HT) || eauto).
  intros k cost pre Hk Hc. apply (Hf k cost pre); [lia|]. clear Hk. induction Hc; [constructor|econstructor; eauto].
Qed.

(** the planner succeeds *)
Lemma generate_search nv ps : Forall (λ p, plannable nv p = true) ps → (0 < length ps <= 31)%nat →
  ∃ cs ctn s, cs = prepare (chain_of <$> ps) ∧
    com_traverse statistic (length cs + 2) 0 (d_int 0) (d_int 0) (MkPlanner cs d_max [] false [] (Z.of_nat (length cs)) [] ∅) = Ok (ctn, s) ∧
    generate_for_patterns statistic ps = Ok (if is_empty s then (false, ps) else (true, pattern_of <$> min_path s)) ∧
    (min_path s = [] ∨ full_order cs (min_path s)) ∧ (costs_finite statistic cs → extensible cs → full_order cs (min_path s)).
Proof.
  intros Hps Hlen. unfold generate_for_patterns, transfer_to_cmd_chains.
  assert (Hall : Forall (plannable_ok nv) ps) by (eapply Forall_impl; [exact Hps|]; intros; by apply plannable_spec).
  rewrite (filter_none (λ p, pred_type p ≠ 0)) by (eapply Forall_impl; [exact Hall|]; intros p []; lia).
  rewrite (filter_all (λ p, pred_type p = 0)) by (eapply Forall_impl; [exact Hall|]; by intros p []).
  set (cs := prepare (chain_of <$> ps)).
  assert (Hcl : length cs = length ps) by (unfold cs; rewrite prepare_perm; apply length_fmap).
  unfold search. destruct (plan_search_ok statistic cs) as (ctn & s & E & Hmin & Hfull); [lia| |].
  { intros c Hc. unfold cs in Hc. rewrite prepare_perm in Hc. apply list_elem_of_fmap in Hc as (p & -> & Hp). rewrite Forall_forall in Hall.
    destruct (Hall p Hp). simpl. split_and!; try lia. congruence. }
  exists cs, ctn, s. split_and!; [done|done| |done|done]. rewrite E. cbn [mbind outcome_bind]. rewrite app_nil_r. by destruct (is_empty s).
Qed.

(** a plan that it finds has the answers of the query *)
Lemma generate_ok nv ps b ps' : Forall (λ p, plannable nv p = true) ps → (0 < length ps <= 31)%nat →
  generate_for_patterns statistic ps = Ok (b, ps') → b = true → ps' ≠ [] →
  plan_ok nv 0 ∅ ps' = true ∧ (∀ k p, ps' !! k = Some p → source_ok k p = true) ∧ (length ps' <= S (length ps))%nat ∧
  ∀ Tr σ, types_apart Tr ps → (∀ p, p ∈ ps → triple_of σ p ∈ Tr) ↔ (∀ k p, ps' !! k = Some p → triple_holds Tr k σ p).
Proof.
  intros Hps Hlen Eg Hb Hne. destruct (generate_search nv ps Hps Hlen) as (cs & ctn & s & Ecs & _ & E & Hmin & _). rewrite E in Eg.
  destruct (is_empty s); simplify_eq.
  set (cs := prepare (chain_of <$> ps)) in *.
  assert (Hcs : ∀ c, c ∈ cs ↔ c ∈ chain_of <$> ps) by (intros c; unfold cs; by rewrite prepare_perm).
  assert (Hcl : length cs = length ps) by (unfold cs; rewrite prepare_perm; apply length_fmap).
  destruct Hmin as [Hmin|Hfull]; [by rewrite Hmin in Hne|]. pose proof Hfull as (ks & Hr & Hk).
  destruct (order_plan nv ps cs Hps Hcs (min_path s) ks Hr) as (P1 & P2 & _). split_and!; [done|done| |].
  - rewrite length_fmap. rewrite <-Hcl, <-Hk. clear -Hr. induction Hr; rewrite ?length_app; simpl in *; lia.
  - intros Tr σ Hap. by apply (order_equiv nv ps cs).
Qed.

(** it finds a plan for a connected query *)
Lemma generate_finds nv ps b ps' : Forall (λ p, plannable nv p = true) ps → (0 < length ps <= 31)%nat → connected (chain_of <$> ps) = true →
  costs_finite statistic (chain_of <$> ps) → generate_for_patterns statistic ps = Ok (b, ps') → b = true → ps' ≠ [].
Proof.
  intros Hps Hlen Hcon Hfin Eg Hb. destruct (generate_search nv ps Hps Hlen) as (cs & ctn & s & Ecs & _ & E & _ & Hfind).
  assert (Hcs : ∀ c, c ∈ cs ↔ c ∈ chain_of <$> ps) by (intros c; rewrite Ecs; by rewrite prepare_perm).
  destruct Hfind as (ks & Hr & Hk).
  - eapply costs_finite_same; [| |exact Hfin]; [intros c; by rewrite Hcs|]. rewrite Ecs. by rewrite prepare_perm.
  - eapply connected_extensible; [exact Hcon|done|]. intros c (p & -> & Hp)%list_elem_of_fmap. rewrite Forall_forall in Hps.
    destruct (plannable_spec _ _ (Hps p Hp)) as [_ _ _ Hs Ho _]. destruct (decide (subject p < 0)).
    + exists (subject p). apply elem_of_chain_vars. simpl. auto.
    + exists (object p). apply elem_of_chain_vars. simpl. split; [lia|auto].
  - rewrite E in Eg. destruct (is_empty s); simplify_eq. intros Hnil%fmap_nil_inv. rewrite Hnil in Hr.
    assert (Hkn : length ks = length ps) by (rewrite Hk; rewrite prepare_perm; apply length_fmap). inversion Hr; subst; simpl in *; [lia|by destruct l..].
Qed.

(** a query that it calls empty has no answers *)
Lemma generate_empty `{!DoubleLaws} nv ps ps' Tr σ : Forall (λ p, plannable nv p = true) ps → (0 < length ps <= 31)%nat → stat_sound statistic Tr →
  generate_for_patterns statistic ps = Ok (false, ps') → (∀ p, p ∈ ps → triple_of σ p ∈ Tr) → False.
Proof.
  intros Hps Hlen Hst Eg Hsol. destruct (generate_search nv ps Hps Hlen) as (cs & ctn & s & Ecs & Es & E & _). rewrite E in Eg.
  assert (Hcs : ∀ c, c ∈ cs → ∃ p, c = chain_of p ∧ p ∈ ps ∧ plannable_ok nv p).
  { intros c Hc. rewrite Ecs, prepare_perm in Hc. apply list_elem_of_fmap in Hc as (p & -> & Hp). exists p. split_and!; [done..|].
    rewrite Forall_forall in Hps. by apply plannable_spec, Hps. }
  assert (Hv : ∀ v, v < 0 → val σ v = σ v) by (intros v Hv; unfold val; rewrite (proj2 (Z.leb_gt _ _)) by lia; done).
  assert (Hne : is_empty s = false); [|by rewrite Hne in Eg].
  eapply (search_nonempty statistic cs (λ v p d, v < 0 ∧ has_edge Tr (σ v) p d)) with (11 := Es); try done.
  - apply zero_test.
  - intros v p d p' d' [_ He1] [_ He2] Hpp. by apply (Hst (σ v)).
  - intros c Hc. destruct (Hcs c Hc) as (p & -> & _ & []). done.
  - intros c Hc Hneg. destruct (Hcs c Hc) as (p & -> & Hp & _). simpl in *. split; [done|]. left. exists (val σ (object p)). rewrite <-Hv by done. by apply Hsol.
  - intros c Hc Hneg Ht Hpos. destruct (Hcs c Hc) as (p & -> & Hp & [_ _ _ _ Ho _]). simpl in *. split; [done|]. right. rewrite <-Hv, <-Ht by done.
    assert (Hvo : val σ (object p) = object p) by (unfold val; rewrite (proj2 (Z.leb_le _ _)), u32_id by lia; done).
    rewrite <-Hvo at 1. by apply Hsol.
  - intros c Hc Hneg. destruct (Hcs c Hc) as (p & -> & Hp & [_ _ _ _ Ho _]). simpl in *. split; [done|]. split; [intros E'; lia|].
    exists (val σ (subject p)). rewrite <-(Hv (object p)) by done. by apply Hsol.
  - by intros v p d [? _].
Qed.
End planner.

(** ** Costs for examples *)

(** integers with a value above all of them; a division by zero gives zero *)
Definition opt_double : Double := {|
  double := option Z;
  d_int := λ z, Some (1000 * z);
  d_max := None;
  dadd := λ a b, Some (default 0 a + default 0 b);
  dmul := λ a b, Some (default 0 a * default 0 b / 1000);
  ddiv := λ a b, Some (default 0 a * 1000 / default 0 b);
  dlt := λ a b, match a, b with Some x, Some y => x <? y | Some _, None => true | None, _ => false end;
  deq := λ a b, bool_decide (a = b)
|}.

Lemma opt_double_laws : @DoubleLaws opt_double.
Proof. split. intros x Hx. apply bool_decide_eq_false_2. intros [=]. lia. Qed.

Lemma opt_double_finite (cfg : Config) stat T : @costs_finite cfg opt_double stat T.
Proof. intros k cost pre Hk Hc. inversion Hc; subst; [lia|done]. Qed.
