(* ===== verification/Monitor.v ===== *)
(** The monitor ([core/monitor.hpp]): when the requests of the query emulator start and
    end, and the distribution of their latencies.

    The clock gives one reading after the other; an operation takes the number of readings
    before it and gives it back with those of its own. What is only printed is left out,
    except for the table of [print_cdf]. *)

From stdpp Require Import sorting.
From S2P Require Import Prelude Types Final Planner.
Local Open Scope Z_scope.

Record req_stats := ReqStats { query_type : Z; start_time : Z; end_time : Z }.
Definition no_stats : req_stats := ReqStats 0 0 0.

Definition SEC (x : Z) : Z := u64 (u64 (u64 (u64 x * 1) * 1000) * 1000).
Definition MSEC (x : Z) : Z := u64 (u64 (u64 x * 1) * 1000).

Section monitor.
  Context `{Clock} `{Double} `{StdSort}.
  Context (to_float : double → double). (* the conversion to [float] *)
  Context (umap_iter : gmap Z req_stats → list (Z * req_stats)). (* the order of an [unordered_map] *)
  Context (scale : Z → Z → Z). (* [size * rate] as an [int], for a rate in percent *)

Record Monitor := MkMonitor {
  init_time : Z;
  done_time : Z;
  last_time : Z;
  last_separator : Z;
  last_cnt : Z;
  interval : Z;
  thpt_time : Z;
  mcnt : Z;                                  (* cnt *)
  thpt : double;
  nquery_types : Z;
  is_aggregated : bool;
  total_latency_map : gmap Z (list Z);       (* by the type of the query *)
  stats_map : gmap Z req_stats               (* by the id of the request *)
}.

Definition new_monitor : Monitor := MkMonitor 0 0 0 0 0 (MSEC 500) 0 0 (d_int 0) 0 false ∅ ∅.

(** [init()] *)
Definition init (m : Monitor) (t : nat) : Monitor * nat :=
  (MkMonitor (usec t) (done_time m) (usec (S t)) (usec (S t)) (last_cnt m) (interval m) (thpt_time m) (mcnt m) (thpt m)
     (nquery_types m) (is_aggregated m) (total_latency_map m) (stats_map m), S (S t)).

(** [init(nquery_types)] *)
Definition init_types (types : Z) (m : Monitor) (t : nat) : Monitor * nat :=
  (MkMonitor (usec t) 0 (usec (S t)) (usec (S t)) 0 (interval m) 0 0 (d_int 0) types false
     (list_to_map ((λ i, (Z.of_nat i, [])) <$> seq 0 (Z.to_nat types))) ∅, S (S t)).

Definition finish (m : Monitor) (t : nat) : Monitor * nat :=
  (MkMonitor (init_time m) (usec t) (last_time m) (last_separator m) (last_cnt m) (interval m) (thpt_time m) (mcnt m) (thpt m)
     (nquery_types m) (is_aggregated m) (total_latency_map m) (stats_map m), S t).

(** [print_timely_thpt]: which readings are kept *)
Definition print_timely_thpt (m : Monitor) (cur_cnt sid tid : Z) (t : nat) : Monitor * nat :=
  if negb ((sid =? 0) && (tid =? 0)) then (m, t)
  else
    let now := usec t in
    let '(lt, lc) := if interval m <? u64 (now - last_time m) then (now, cur_cnt) else (last_time m, last_cnt m) in
    let ls := if SEC 1 <? u64 (now - last_separator m) then now else last_separator m in
    (MkMonitor (init_time m) (done_time m) lt ls lc (interval m) (thpt_time m) (mcnt m) (thpt m)
       (nquery_types m) (is_aggregated m) (total_latency_map m) (stats_map m), S t).

Definition start_thpt (m : Monitor) (start : Z) (t : nat) : Monitor * nat :=
  (MkMonitor (init_time m) (done_time m) (last_time m) (last_separator m) (last_cnt m) (interval m) (usec t) start (thpt m)
     (nquery_types m) (is_aggregated m) (total_latency_map m) (stats_map m), S t).

Definition end_thpt (m : Monitor) (end_ : Z) (t : nat) : Monitor * nat :=
  (MkMonitor (init_time m) (done_time m) (last_time m) (last_separator m) (last_cnt m) (interval m) (thpt_time m) (mcnt m)
     (to_float (ddiv (dmul (d_int 1000000) (d_int (u64 (end_ - mcnt m)))) (d_int (u64 (usec t - thpt_time m)))))
     (nquery_types m) (is_aggregated m) (total_latency_map m) (stats_map m), S t).

Definition set_stats (m : Monitor) (l : gmap Z req_stats) : Monitor :=
  MkMonitor (init_time m) (done_time m) (last_time m) (last_separator m) (last_cnt m) (interval m) (thpt_time m) (mcnt m) (thpt m)
    (nquery_types m) (is_aggregated m) (total_latency_map m) l.

(** [stats_map[reqid]]: a new entry is zero *)
Definition start_record (m : Monitor) (reqid type : Z) (t : nat) : Monitor * nat :=
  let r := default no_stats (stats_map m !! reqid) in
  (set_stats m (<[reqid := ReqStats type (u64 (usec t - init_time m)) (end_time r)]> (stats_map m)), S t).
Definition end_record (m : Monitor) (reqid : Z) (t : nat) : Monitor * nat :=
  let r := default no_stats (stats_map m !! reqid) in
  (set_stats m (<[reqid := ReqStats (query_type r) (start_time r) (u64 (usec t - init_time m))]> (stats_map m)), S t).

Definition merge (m other : Monitor) : Monitor :=
  MkMonitor (init_time m) (done_time m) (last_time m) (last_separator m) (last_cnt m) (interval m) (thpt_time m) (mcnt m)
    (to_float (dadd (thpt m) (thpt other))) (if nquery_types m <? nquery_types other then nquery_types other else nquery_types m)
    (is_aggregated m) (total_latency_map m) (stats_map other ∪ stats_map m).

(** ** The distribution *)

Definition latency (s : req_stats) : Z := u64 (end_time s - start_time s).

Definition add_latency (l : gmap Z (list Z)) (s : req_stats) : gmap Z (list Z) :=
  <[query_type s := default [] (l !! query_type s) ++ [latency s]]> l.

Definition sort_latencies (l : gmap Z (list Z)) (i : Z) : gmap Z (list Z) :=
  <[i := std_sort Z Z.ltb (default [] (l !! i))]> l.

Definition types_of (m : Monitor) : list Z := Z.of_nat <$> seq 0 (Z.to_nat (nquery_types m)).

Definition aggregate (m : Monitor) : Monitor :=
  let l := foldl add_latency (total_latency_map m) (snd <$> umap_iter (stats_map m)) in
  MkMonitor (init_time m) (done_time m) (last_time m) (last_separator m) (last_cnt m) (interval m) (thpt_time m) (mcnt m) (thpt m)
    (nquery_types m) true (foldl sort_latencies l (types_of m)) (stats_map m).

(** the rates in percent: 1, from 5 to 95 by fives, from 96 to 100 *)
Definition cdf_rates : list Z := [1] ++ ((λ i, 5 * i) <$> seqZ 1 19) ++ ((λ i, 95 + i) <$> seqZ 1 5).

(** the point of a rate *)
Definition point (lats : list Z) (rate : Z) : outcome Z :=
  let size := Z.of_nat (length lats) in
  let idx := scale size rate in
  let idx := if size <=? u64 idx then i32 (size - 1) else idx in
  read lats (Z.to_nat idx).

(** 25 points for each type with samples *)
Definition cdf_points (lats : list Z) : outcome (list Z) :=
  if bool_decide (lats = []) then Ok []
  else
    ps ← mapM (point lats) cdf_rates;
    ASSERT (length ps =? 25)%nat;
    Ok ps.

(** the table by rows; the points of a type without samples are an empty vector *)
Definition print_cdf (m : Monitor) : outcome (list (list Z)) :=
  ASSERT (is_aggregated m);
  res ← mapM (λ '(i, lats), ps ← cdf_points lats; Ok (i, ps)) (map_to_list (total_latency_map m));
  mapM (λ row, mapM (λ i, read (default [] ((list_to_map res : gmap Z (list Z)) !! i)) row) (types_of m)) (seq 0 25).
End monitor.

(** * What holds of it

    What the monitor reports: the latencies of every type of queries, in their order, and
    the table of their distribution. *)

Section monitor.
  Context `{Clock} `{Double} `{StdSort}.
  Context (to_float : double → double) (umap_iter : gmap Z req_stats → list (Z * req_stats)) (scale : Z → Z → Z).
  Hypothesis umap_iter_perm : ∀ l, umap_iter l ≡ₚ map_to_list l.

(** the latencies of the requests of a type *)
Definition latencies_of (m : Monitor) (i : Z) : list Z :=
  latency <$> filter (λ s, query_type s = i) ((map_to_list (stats_map m)).*2).

(** the monitors of two threads, whose requests have different ids *)
Lemma merge_latencies m m' i : stats_map m ##ₘ stats_map m' → latencies_of (merge to_float m m') i ≡ₚ latencies_of m' i ++ latencies_of m i.
Proof.
  intros Hd. unfold latencies_of. cbn [stats_map merge].
  assert (Hp : map_to_list (stats_map m' ∪ stats_map m) ≡ₚ map_to_list (stats_map m') ++ map_to_list (stats_map m)).
  { apply NoDup_Permutation; [apply NoDup_map_to_list| |].
    - apply NoDup_app. split; [apply NoDup_map_to_list|]. split; [|apply NoDup_map_to_list]. intros [k x] Hx%elem_of_map_to_list Hy%elem_of_map_to_list. by apply (map_disjoint_spec (stats_map m) (stats_map m')) with k x x.
    - intros [k x]. rewrite elem_of_app, !elem_of_map_to_list. by apply lookup_union_Some. }
  by rewrite Hp, fmap_app, filter_app, fmap_app.
Qed.

(** *** Collecting *)

Lemma add_latencies l ss i : default [] (foldl add_latency l ss !! i) = default [] (l !! i) ++ (latency <$> filter (λ s, query_type s = i) ss).
Proof.
  revert l. induction ss as [|s ss IH]; intros l; [by rewrite app_nil_r|]. cbn [foldl]. rewrite IH, filter_cons. unfold add_latency. destruct (decide (query_type s = i)) as [<-|Hne].
  - rewrite lookup_insert_eq. cbn [default from_option id]. by rewrite <-app_assoc.
  - by rewrite lookup_insert_ne by done.
Qed.

Lemma sorted_latencies l types i : NoDup types →
  foldl sort_latencies l types !! i = if bool_decide (i ∈ types) then Some (std_sort Z Z.ltb (default [] (l !! i))) else l !! i.
Proof.
  revert l. induction types as [|t types IH]; intros l Hnd; [done|]. apply NoDup_cons in Hnd as [Hn Hnd]. cbn [foldl]. rewrite IH by done. unfold sort_latencies.
  destruct (decide (i = t)) as [->|Hne].
  - rewrite lookup_insert_eq, (bool_decide_true (t ∈ t :: types)) by left. by rewrite bool_decide_false.
  - rewrite lookup_insert_ne by done. destruct (decide (i ∈ types)); [rewrite !bool_decide_true by set_solver|rewrite !bool_decide_false by set_solver]; done.
Qed.

Lemma strict_weak_lt (l : list Z) : strict_weak l Z.ltb.
Proof. split; intros; rewrite ?Z.ltb_lt, ?Z.ltb_ge in *; lia. Qed.

Lemma types_nodup m : NoDup (types_of m).
Proof. unfold types_of. apply NoDup_fmap_2; [intros ???; lia|apply NoDup_seq]. Qed.

Lemma elem_of_types m i : i ∈ types_of m ↔ 0 <= i < nquery_types m.
Proof.
  unfold types_of. rewrite list_elem_of_fmap. split; [intros (k & -> & Hk%elem_of_seq); lia|]. intros Hi. exists (Z.to_nat i). rewrite elem_of_seq. lia.
Qed.

(** the sorted latencies of a type *)
Lemma aggregated m i : (∀ j l, total_latency_map m !! j = Some l → l = []) → 0 <= i < nquery_types m →
  ∃ lats, total_latency_map (aggregate umap_iter m) !! i = Some lats ∧ lats ≡ₚ latencies_of m i ∧ StronglySorted Z.le lats.
Proof.
  intros Hnew Hi. unfold aggregate. cbn [total_latency_map]. rewrite sorted_latencies by apply types_nodup. rewrite bool_decide_true by by apply elem_of_types.
  rewrite add_latencies. replace (default [] (total_latency_map m !! i)) with (@nil Z) by (destruct (total_latency_map m !! i) eqn:E; [by rewrite (Hnew _ _ E)|done]).
  cbn [app]. eexists. split; [done|]. split.
  - rewrite (std_sort_perm Z) by apply strict_weak_lt. unfold latencies_of. by rewrite umap_iter_perm.
  - assert (Hs := std_sort_sorted Z Z.ltb _ (strict_weak_lt (latency <$> filter (λ s, query_type s = i) (umap_iter (stats_map m)).*2))).
    induction Hs as [|x l _ IH Hx]; constructor; [done|]. eapply Forall_impl; [exact Hx|]. intros y Hxy. cbn beta in Hxy. lia.
Qed.

Lemma aggregated_length m i l : (∀ j l, total_latency_map m !! j = Some l → l = []) → total_latency_map (aggregate umap_iter m) !! i = Some l →
  (length l <= size (stats_map m))%nat.
Proof.
  intros Hnew. unfold aggregate. cbn [total_latency_map]. set (L := foldl add_latency _ _).
  assert (HL : (length (default [] (L !! i)) <= size (stats_map m))%nat).
  { unfold L. rewrite add_latencies. replace (default [] (total_latency_map m !! i)) with (@nil Z) by (destruct (total_latency_map m !! i) eqn:E; [by rewrite (Hnew _ _ E)|done]).
    cbn [app]. rewrite length_fmap, length_filter. rewrite length_fmap, umap_iter_perm. apply Nat.eq_le_incl, length_map_to_list. }
  rewrite sorted_latencies by apply types_nodup. case_bool_decide as Ht; intros E.
  - injection E as <-. by rewrite (std_sort_perm Z) by apply strict_weak_lt.
  - by rewrite E in HL.
Qed.

(** *** The points *)

Definition point_index (size rate : Z) : Z := if size <=? u64 (scale size rate) then i32 (size - 1) else scale size rate.

Hypothesis scale_nonneg : ∀ n rate, 0 < n → 0 <= rate <= 100 → 0 <= scale n rate < 2 ^ 63.

Lemma cdf_rates_ok : length cdf_rates = 25%nat ∧ Forall (λ rate, 0 <= rate <= 100) cdf_rates ∧ StronglySorted Z.le cdf_rates.
Proof.
  split; [done|]. split; [apply (bool_decide_unpack _); vm_compute; exact I|]. apply Sorted_StronglySorted; [intros x y z; lia|].
  vm_compute. repeat constructor; discriminate.
Qed.

Lemma cdf_rate_percent rate : rate ∈ cdf_rates → 0 <= rate <= 100.
Proof. destruct cdf_rates_ok as (_ & Hr & _). exact (proj1 (Forall_forall _ _) Hr rate). Qed.

Lemma point_index_range n rate : 0 < n < 2 ^ 31 → 0 <= rate <= 100 → 0 <= point_index n rate < n.
Proof.
  intros Hn Hr. unfold point_index. pose proof (scale_nonneg n rate ltac:(lia) Hr). rewrite u64_id by lia. destruct (Z.leb_spec n (scale n rate)); [rewrite i32_id by lia|]; lia.
Qed.

Lemma point_Ok lats rate : 0 < Z.of_nat (length lats) < 2 ^ 31 → 0 <= rate <= 100 →
  point scale lats rate = Ok (lats !!! Z.to_nat (point_index (Z.of_nat (length lats)) rate)).
Proof.
  intros Hn Hr. unfold point. cbv zeta. fold (point_index (Z.of_nat (length lats)) rate). pose proof (point_index_range _ rate Hn Hr).
  apply read_Ok, list_lookup_lookup_total_lt. lia.
Qed.

Definition points (lats : list Z) : list Z :=
  match lats with [] => [] | _ => (λ rate, lats !!! Z.to_nat (point_index (Z.of_nat (length lats)) rate)) <$> cdf_rates end.

Lemma cdf_points_Ok lats : Z.of_nat (length lats) < 2 ^ 31 → cdf_points scale lats = Ok (points lats).
Proof.
  intros Hn. unfold cdf_points, points. destruct lats as [|x lats]; [done|]. rewrite bool_decide_false by done.
  rewrite (mapM_all _ (λ rate, (x :: lats) !!! Z.to_nat (point_index (Z.of_nat (length (x :: lats))) rate))); [done|].
  intros rate Hr. apply point_Ok; [simpl in *; lia|by apply cdf_rate_percent].
Qed.

(** the table as a function of the latencies *)
Lemma print_cdf_rows m : is_aggregated m = true → (∀ i l, total_latency_map m !! i = Some l → Z.of_nat (length l) < 2 ^ 31) →
  print_cdf scale m = mapM (λ row, mapM (λ i, read (default [] ((points <$> total_latency_map m) !! i)) row) (types_of m)) (seq 0 25).
Proof.
  intros Ha Hlen. unfold print_cdf. rewrite Ha. cbn [assert_that mbind outcome_bind].
  rewrite (mapM_all _ (prod_map id points)).
  2:{ intros [i l] Hl%elem_of_map_to_list. cbn [fst snd]. by rewrite (cdf_points_Ok l) by (by eapply Hlen). }
  cbn [mbind outcome_bind]. by rewrite (list_to_map_fmap (M := gmap Z)), (list_to_map_to_list (M := gmap Z)).
Qed.

Lemma points_elem lats : lats ≠ [] → Z.of_nat (length lats) < 2 ^ 31 → length (points lats) = 25%nat ∧ ∀ x, x ∈ points lats → x ∈ lats.
Proof.
  intros Hne Hn. unfold points. destruct lats as [|x lats]; [done|]. split; [by rewrite length_fmap|]. intros y (rate & -> & Hr)%list_elem_of_fmap.
  apply list_elem_of_lookup_total_2. pose proof (point_index_range (Z.of_nat (length (x :: lats))) rate ltac:(simpl in *; lia) (cdf_rate_percent _ Hr)). lia.
Qed.

Lemma sorted_lookup (l : list Z) i j x y : StronglySorted Z.le l → l !! i = Some x → l !! j = Some y → (i < j)%nat → x <= y.
Proof.
  revert i j. induction l as [|z l IH]; intros i j Hs Ei Ej Hij; [done|]. inversion_clear Hs as [|?? Hs' Hz]. rewrite Forall_forall in Hz.
  destruct j as [|j]; [lia|]. cbn in Ej. destruct i as [|i]; [injection Ei as <-; apply Hz; by eapply list_elem_of_lookup_2|eapply (IH i j); [done..|lia]].
Qed.

Lemma points_sorted lats i j : (∀ n r r', 0 < n → 0 <= r <= r' → r' <= 100 → scale n r <= scale n r') → lats ≠ [] → Z.of_nat (length lats) < 2 ^ 31 →
  StronglySorted Z.le lats → (i <= j < 25)%nat → points lats !!! i <= points lats !!! j.
Proof.
  intros Hmono Hne Hn Hs Hij. assert (0 < Z.of_nat (length lats)) by (destruct lats; [done|simpl; lia]).
  destruct cdf_rates_ok as (H25 & _ & Hrs).
  assert (Hat : ∀ k, (k < 25)%nat → ∃ rate, cdf_rates !! k = Some rate ∧ points lats !!! k = lats !!! Z.to_nat (point_index (Z.of_nat (length lats)) rate)).
  { intros k Hk. destruct (lookup_lt_is_Some_2 cdf_rates k ltac:(lia)) as [rate Er]. exists rate. split; [done|]. apply list_lookup_total_correct. unfold points. destruct lats; [done|].
    by rewrite list_lookup_fmap, Er. }
  destruct (Hat i ltac:(lia)) as (r & Er & ->), (Hat j ltac:(lia)) as (r' & Er' & ->).
  pose proof (cdf_rate_percent _ (list_elem_of_lookup_2 _ _ _ Er)) as Hr. pose proof (cdf_rate_percent _ (list_elem_of_lookup_2 _ _ _ Er')) as Hr'.
  assert (Hrr : r <= r').
  { destruct (decide (i = j)) as [->|]; [by simplify_eq|]. eapply sorted_lookup; [exact Hrs|done..|lia]. }
  set (n := Z.of_nat (length lats)) in *.
  assert (Hle : point_index n r <= point_index n r').
  { unfold point_index. pose proof (scale_nonneg n r ltac:(lia) Hr). pose proof (scale_nonneg n r' ltac:(lia) Hr').
    pose proof (Hmono n r r' ltac:(lia) ltac:(lia) ltac:(lia)). rewrite !u64_id, i32_id by lia. destruct (Z.leb_spec n (scale n r)), (Z.leb_spec n (scale n r')); lia. }
  pose proof (point_index_range n r ltac:(lia) Hr). pose proof (point_index_range n r' ltac:(lia) Hr').
  destruct (decide (point_index n r = point_index n r')) as [->|]; [done|].
  eapply sorted_lookup; [exact Hs|apply list_lookup_lookup_total_lt; lia|apply list_lookup_lookup_total_lt; lia|lia].
Qed.

Lemma mapM_or {A B} (f : A → outcome B) e l : (∀ y, y ∈ l → f y = Err e ∨ ∃ b, f y = Ok b) → mapM f l = Err e ∨ ∃ bs, mapM f l = Ok bs.
Proof.
  induction l as [|y l IH]; intros Hf; [right; by exists []|]. cbn [mapM]. destruct (Hf y) as [->|[b ->]]; [left|by left|]. cbn [mbind outcome_bind].
  destruct IH as [->|[bs ->]]; [intros z Hz; apply Hf; by right|by left|right; by eexists].
Qed.

End monitor.

(** *** Two types of queries *)

Definition some_double : Double := {|
  double := Z; d_int := id; d_max := 2 ^ 62; dadd := Z.add; dmul := Z.mul; ddiv := Z.div; dlt := Z.ltb; deq := Z.eqb
|}.
Definition percent_of (n rate : Z) : Z := Z.min (n * rate / 100) (2 ^ 62).

Definition sample_monitor : @Monitor some_double :=
  @MkMonitor some_double 0 0 0 0 0 0 0 0 0 2 false (<[0 := []]> {[1 := []]})
    (<[0 := ReqStats 0 10 50]> (<[2 := ReqStats 1 10 17]> {[4 := ReqStats 0 20 45]})).

