(* ===== verification/Emulator.v ===== *)
(** The query emulator of a proxy ([run_query_emu] of [core/proxy.hpp]): a mix of light
    and heavy queries is kept in flight for some seconds, and the monitor records when
    every request starts and ends.

    Besides the arguments of [Proxy.v], the files that are opened and [tryrecv] of the
    adaptor are arguments. The loops have bounds of their own: for the rounds, for the
    replies at hand and for the rounds that wait for the last replies. The counters of
    requests are 64 bits wide and do not overflow. *)

From stdpp Require Import strings.
From S2P Require Import Prelude Types MyMath Coder Query Serial Exec StringServer Server.
From S2P Require Import Lexer Parser Transfer Proxy Planner Final Monitor.
Local Open Scope Z_scope.

(** the configuration: the numbers of light and heavy classes, and for each class the
    file of the query and its load *)
Record emu_config := EmuConfig { nlights : Z; nheavies : Z; classes : list (string * Z) }.

(** the queries by class, with their loads *)
Record mix := MkMix { mx_tpls : list SPARQLQuery_Template; mx_heavy : list SPARQLQuery; mx_loads : list Z }.

Definition new_template : SPARQLQuery_Template := MkTemplate empty_group 0 [] [] [].

Section emulator.
  Context `{Config} `{Adaptor} `{Clock} `{Double} (to_float : double → double) (str_server : String_Server) (enable_planner : bool).
  Context (rand_r : Z → Z * Z) (recv : net → outcome (SPARQLQuery * net)) (tryrecv : net → option SPARQLQuery * net).
  Context (statistic : data_statistic) (open_file : string → option string).

Record emu := MkEmu {
  em_proxy : proxy;
  em_tpls : list SPARQLQuery_Template;
  em_monitor : Monitor;
  em_reads : nat;        (* readings of the clock *)
  em_send : Z;           (* send_cnt *)
  em_recv : Z;           (* recv_cnt *)
  em_flying : Z;         (* flying_cnt *)
  em_start : bool
}.

Definition set_eproxy (p : proxy) (e : emu) : emu :=
  MkEmu p (em_tpls e) (em_monitor e) (em_reads e) (em_send e) (em_recv e) (em_flying e) (em_start e).
Definition set_monitor (mt : Monitor * nat) (e : emu) : emu :=
  MkEmu (em_proxy e) (em_tpls e) mt.1 mt.2 (em_send e) (em_recv e) (em_flying e) (em_start e).

(** ** The queries *)

(** one class of queries: its file, its load, its query *)
Definition parse_class (lights : Z) (st : (Z + mix) * proxy) (ic : nat * (string * Z)) : outcome ((Z + mix) * proxy) :=
  match st with
  | (inl ret, p) => Ok (inl ret, p)
  | (inr mx, p) =>
      let '(i, (fname, load)) := ic in
      match open_file fname with
      | None => Ok (inl (-1), p) (* file not found *)
      | Some text =>
          ASSERT (0 <? load);
          if Z.of_nat i <? lights then
            '(ok, tpl) ← parse_template str_server global_enable_vattr text new_template;
            if negb ok then Ok (inl (-2), p)
            else
              '(tpl, p) ← fill_template str_server rand_r recv p tpl;
              Ok (inr (MkMix (mx_tpls mx ++ [tpl]) (mx_heavy mx) (mx_loads mx ++ [load])), p)
          else
            '(ok, q) ← parse_query str_server global_enable_vattr enable_planner global_use_rdma text new_query;
            if negb ok : bool then Ok (inl (-2), p)
            else Ok (inr (MkMix (mx_tpls mx) (mx_heavy mx ++ [q]) (mx_loads mx ++ [load])), p)
      end
  end.

(** a class that the configuration lacks has no file *)
Definition class_at (c : emu_config) (i : nat) : string * Z := default (EmptyString, 0) (classes c !! i).

(** the error code, or the queries *)
Definition parse_mix (c : emu_config) (p : proxy) : outcome ((Z + mix) * proxy) :=
  ntypes ← add_int (nlights c) (nheavies c);
  if (ntypes <=? 0) || (nlights c <? 0) || (nheavies c <? 0) then Ok (inl (-2), p)
  else foldM (parse_class (nlights c)) (inr (MkMix [] [] []), p) ((λ i, (i, class_at c i)) <$> seq 0 (Z.to_nat ntypes)).

(** ** A round *)

Section round.
  Context (mx : mix) (parallel_factor : Z).

(** the query of a request: an instance of a template, or a heavy query *)
Definition choose (e : emu) (idx : Z) : outcome (SPARQLQuery * emu) :=
  let lights := Z.of_nat (length (mx_tpls mx)) in
  if idx <? lights then
    let '(r, p) := get_random rand_r (em_proxy e) in
    tpl ← read (em_tpls e) (Z.to_nat idx);
    '(q, tpl) ← instantiate tpl (Z.to_nat r);
    Ok (q, MkEmu p (<[Z.to_nat idx := tpl]> (em_tpls e)) (em_monitor e) (em_reads e) (em_send e) (em_recv e) (em_flying e) (em_start e))
  else
    q ← read (mx_heavy mx) (Z.to_nat (idx - lights)); Ok (q, e).

Definition send_one (e : emu) : outcome emu :=
  let p := sweep_proxy (em_proxy e) in (* sweep pending msgs first *)
  let '(r, p) := get_random rand_r p in
  idx ← get_distribution r (mx_loads mx);
  '(request, e) ← choose (set_eproxy p e) idx;
  request ← (if enable_planner then '(_, q) ← generate_plan statistic request; Ok q else Ok request);
  let '(request, p) := setpid (em_proxy e) request in
  let request := set_result (set_blind true (result request)) request in (* always not take back results *)
  let e := set_monitor (start_record (em_monitor e) (q_pid request) idx (em_reads e)) e in
  p ← submit rand_r p request;
  Ok (MkEmu p (em_tpls e) (em_monitor e) (em_reads e) (em_send e + 1) (em_recv e) (em_flying e) (em_start e)).

Definition send_requests (e : emu) : outcome emu :=
  foldM (λ e _, send_one e) e (seq 0 (Z.to_nat (u64 (parallel_factor - em_flying e)))).

(** all the replies at hand *)
Fixpoint receive (fuel : nat) (e : emu) : outcome emu :=
  match fuel with
  | O => Err OutOfFuel
  | S fuel =>
      let p := em_proxy e in
      match tryrecv (p_net p) with
      | (None, n) => Ok (set_eproxy (set_pmsgs (p_pending p) n p) e)
      | (Some r, n) =>
          let '(m, t) := end_record (em_monitor e) (q_pid r) (em_reads e) in
          receive fuel (MkEmu (set_pmsgs (p_pending p) n p) (em_tpls e) m t (em_send e) (em_recv e + 1) (em_flying e) (em_start e))
      end
  end.

Definition print_thpt_of (e : emu) : emu :=
  set_monitor (print_timely_thpt (em_monitor e) (em_recv e) (p_sid (em_proxy e)) (p_tid (em_proxy e)) (em_reads e)) e.

(** start to measure throughput after the warm-up *)
Definition maybe_start (init warmup : Z) (e : emu) : emu :=
  if negb (em_start e) then
    let t := em_reads e in
    if warmup <? u64 (usec t - init) then
      let '(m, t) := start_thpt (em_monitor e) (em_recv e) (S t) in
      MkEmu (em_proxy e) (em_tpls e) m t (em_send e) (em_recv e) (em_flying e) true
    else MkEmu (em_proxy e) (em_tpls e) (em_monitor e) (S t) (em_send e) (em_recv e) (em_flying e) (em_start e)
  else e.

Definition count_flying (e : emu) : emu :=
  MkEmu (em_proxy e) (em_tpls e) (em_monitor e) (em_reads e) (em_send e) (em_recv e) (u64 (em_send e - em_recv e)) (em_start e).

Definition emu_round (fuel : nat) (init warmup : Z) (e : emu) : outcome emu :=
  e ← send_requests e;
  e ← foldM (λ e _, receive fuel e) e (seq 0 5); (* best of effort *)
  Ok (count_flying (maybe_start init warmup (print_thpt_of e))).

(** ** The emulator *)

Fixpoint emu_loop (rounds fuel : nat) (init warmup duration : Z) (e : emu) : outcome emu :=
  match rounds with
  | O => Err OutOfFuel
  | S rounds =>
      let t := em_reads e in
      let e := set_monitor (em_monitor e, S t) e in
      if u64 (usec t - init) <? duration then e ← emu_round fuel init warmup e; emu_loop rounds fuel init warmup duration e
      else Ok e
  end.

(** receive all replies *)
Fixpoint emu_wait (rounds fuel : nat) (e : emu) : outcome emu :=
  if em_recv e <? em_send e then
    match rounds with
    | O => Err OutOfFuel
    | S rounds =>
        e ← receive fuel (set_eproxy (sweep_proxy (em_proxy e)) e);
        emu_wait rounds fuel (print_thpt_of e)
    end
  else Ok e.

Definition emulate (rounds fuel waits : nat) (d w : Z) (m : Monitor) (t : nat) (p : proxy) : outcome emu :=
  let '(m, t) := init_types (Z.of_nat (length (mx_loads mx))) m t in
  e ← emu_loop rounds fuel (usec t) (SEC w) (SEC d) (MkEmu p (mx_tpls mx) m (S t) 0 0 0 false);
  let e := set_monitor (end_thpt to_float (em_monitor e) (em_recv e) (em_reads e)) e in
  e ← emu_wait waits fuel e;
  Ok (set_monitor (finish (em_monitor e) (em_reads e)) e).
End round.

(** the return code, the monitor with the readings of the clock, and the proxy *)
Definition run_query_emu (rounds fuel waits : nat) (c : emu_config) (d w par : Z) (m : Monitor) (t : nat) (p : proxy) :
    outcome (Z * (Monitor * nat) * proxy) :=
  '(r, p) ← parse_mix c p;
  match r with
  | inl ret => Ok (ret, (m, t), p)
  | inr mx => e ← emulate mx par rounds fuel waits d w m t p; Ok (0, (em_monitor e, em_reads e), em_proxy e)
  end.
End emulator.
