(* ===== verification/EmulatorOk.v ===== *)
(** The query emulator keeps its promise: never more requests in flight than asked for, as
    many after each sending, and it returns when the time is over and the last reply has
    come.

    The network and the engines behind it are an interface: every request that is sent is
    answered, and neither a send is refused nor a receive empty for ever. *)

From stdpp Require Import strings.
From S2P Require Import Prelude Types MyMath Coder Query Serial Exec StringServer Server Bgp Replies.
From S2P Require Import Lexer Parser Transfer Proxy Planner PlannerOk PlanSound Final Monitor Emulator.
Local Open Scope Z_scope.

(** the replies that are still to come, and how often the network may still fail before
    it makes progress *)
Class Answering `{Adaptor} (tryrecv : net → option SPARQLQuery * net) := {
  owed : net → nat;
  patience : net → nat;
  send_yes n m n' : net_send n m = (true, n') → owed n' = S (owed n);
  send_no n m n' : net_send n m = (false, n') → owed n' = owed n ∧ (patience n' < patience n)%nat;
  recv_yes n r n' : tryrecv n = (Some r, n') → owed n = S (owed n') ∧ delivered n' = delivered n;
  recv_no n n' : tryrecv n = (None, n') → owed n' = owed n ∧ delivered n' = delivered n ∧
    (patience n' <= patience n)%nat ∧ (owed n ≠ O → (patience n' < patience n)%nat)
}.

Section emulator.
  Context `{Config} `{Adaptor} `{Clock} `{Double} (to_float : double → double) (enable_planner : bool).
  Context (rand_r : Z → Z * Z) (tryrecv : net → option SPARQLQuery * net) `{!Answering tryrecv}.
  Context (statistic : data_statistic).

(** requests without their reply *)
Definition outstanding (p : proxy) : nat := (owed (p_net p) + length (p_pending p))%nat.

(** *** Sending *)

Lemma try_engines_owed n i dst base range eid q net :
  owed (try_engines n i dst base range eid q net).2 = (owed net + (if (try_engines n i dst base range eid q net).1 then 1 else 0))%nat.
Proof.
  revert i net. induction n as [|n IH]; intros i net; cbn [try_engines fst snd]; [lia|].
  destruct (net_send net _) as [[] net'] eqn:E; cbn [fst snd].
  - rewrite (send_yes _ _ _ E). lia.
  - rewrite IH. by rewrite (proj1 (send_no _ _ _ E)).
Qed.

Lemma send_to_outstanding p q dst p' : send_to rand_r p q dst = Ok p' → outstanding p' = S (outstanding p).
Proof.
  unfold send_to. intros ([] & _ & E)%bind_Ok. unfold get_random in E. destruct (rand_r (p_seed p)) as [r seed]. cbn [p_net p_pending p_tid set_seed] in E.
  pose proof (try_engines_owed (Z.to_nat (Z.quot global_num_engines global_num_proxies)) 0 dst (global_num_proxies + Z.quot global_num_engines global_num_proxies * p_tid p)
    (Z.quot global_num_engines global_num_proxies) (r mod Z.quot global_num_engines global_num_proxies) q (p_net p)) as Ho.
  destruct (try_engines _ _ _ _ _ _ _ _) as [ok net']. cbn [fst snd] in Ho. injection E as <-. unfold outstanding. destruct ok; cbn [p_net p_pending set_pmsgs set_seed]; rewrite Ho; [lia|].
  rewrite length_app. simpl. lia.
Qed.

Lemma submit_outstanding p q p' : submit rand_r p q = Ok p' → outstanding p' = S (outstanding p).
Proof.
  unfold submit. intros ([] & _ & E)%bind_Ok. apply bind_Ok in E as (start & _ & E). apply bind_Ok in E as (sid & _ & E). by apply send_to_outstanding in E.
Qed.

(** sweeping sends some messages, or uses up patience *)
Lemma sweep_progress p : let p' := sweep_proxy p in
  outstanding p' = outstanding p ∧ (length (p_pending p') <= length (p_pending p))%nat ∧
  (length (p_pending p') = length (p_pending p) →
    owed (p_net p') = owed (p_net p) ∧ (patience (p_net p') + length (p_pending p) <= patience (p_net p))%nat).
Proof.
  unfold sweep_proxy, outstanding. set (f := λ '(l, n) m, _).
  assert (Hf : ∀ ms l n, let r := foldl f (l, n) ms in
    (owed r.2 + length r.1 = owed n + length l + length ms)%nat ∧ (length r.1 <= length l + length ms)%nat ∧
    (length r.1 = (length l + length ms)%nat → owed r.2 = owed n ∧ (patience r.2 + length ms <= patience n)%nat)).
  { induction ms as [|m ms IH]; intros l n; cbn [foldl]; [cbn [fst snd length]; lia|].
    cbn [f]. destruct (net_send n m) as [[] n'] eqn:E; cbn [length].
    - pose proof (send_yes _ _ _ E) as Ho. destruct (IH l n') as (H1' & H2' & _). cbn zeta in *. lia.
    - destruct (send_no _ _ _ E) as [Ho Hp]. destruct (IH (l ++ [m]) n') as (H1' & H2' & H3'). rewrite length_app in *. cbn [length] in *.
      split; [lia|]. split; [lia|]. intros Heq. destruct H3' as [H3 H4]; [lia|]. split; lia. }
  destruct (Hf (p_pending p) [] (p_net p)) as (H1' & H2' & H3'). destruct (foldl f _ _) as [l n]. cbn [fst snd p_net p_pending set_pmsgs length] in *. lia.
Qed.

(** *** Receiving *)

(** what stays when replies come in *)
Record received (e e' : emu) : Prop := {
  rc_tpls : em_tpls e' = em_tpls e;
  rc_send : em_send e' = em_send e;
  rc_flying : em_flying e' = em_flying e;
  rc_coder : p_coder (em_proxy e') = p_coder (em_proxy e);
  rc_tid : p_tid (em_proxy e') = p_tid (em_proxy e);
  rc_pending : p_pending (em_proxy e') = p_pending (em_proxy e);
  rc_msgs : all_pmsgs (em_proxy e') = all_pmsgs (em_proxy e);
  rc_recv : em_recv e' - em_recv e = Z.of_nat (outstanding (em_proxy e)) - Z.of_nat (outstanding (em_proxy e'));
  rc_owed : (owed (p_net (em_proxy e')) <= owed (p_net (em_proxy e)))%nat;
  rc_same : owed (p_net (em_proxy e')) = owed (p_net (em_proxy e)) →
    (patience (p_net (em_proxy e')) <= patience (p_net (em_proxy e)))%nat ∧
    (owed (p_net (em_proxy e)) ≠ O → (patience (p_net (em_proxy e')) < patience (p_net (em_proxy e)))%nat);
  rc_reads : (em_reads e <= em_reads e')%nat;
  rc_stats : dom (stats_map (em_monitor e)) ⊆ dom (stats_map (em_monitor e'))
}.

Lemma receive_ok fuel e : (owed (p_net (em_proxy e)) < fuel)%nat → ∃ e', receive tryrecv fuel e = Ok e' ∧ received e e'.
Proof.
  revert e. induction fuel as [|fuel IH]; intros e Hf; [lia|]. cbn [receive]. destruct (tryrecv (p_net (em_proxy e))) as [[r|] n] eqn:E.
  - destruct (recv_yes _ _ _ E) as [Ho Hd]. unfold end_record. set (e1 := MkEmu _ _ _ _ _ _ _ _). destruct (IH e1) as (e' & -> & Hr); [simpl; lia|]. exists e'. split; [done|].
    destruct Hr. subst e1. unfold outstanding, all_pmsgs in *. simpl in *. split; try done; unfold outstanding, all_pmsgs; try lia; try congruence.
    rewrite dom_insert in rc_stats0. set_solver.
  - destruct (recv_no _ _ E) as (Ho & Hd & Hp & Hn). eexists. split; [done|]. split; try done; unfold outstanding, all_pmsgs; simpl; try lia. congruence.
Qed.

Lemma received_trans e1 e2 e3 : received e1 e2 → received e2 e3 → received e1 e3.
Proof.
  intros [] []. split; try congruence; try lia; try set_solver.
Qed.

Lemma receives_ok fuel n e : (owed (p_net (em_proxy e)) < fuel)%nat → ∃ e', foldM (λ e _, receive tryrecv fuel e) e (seq n 5) = Ok e' ∧ received e e'.
Proof.
  intros Hf. assert (Hgen : ∀ k n e, (owed (p_net (em_proxy e)) < fuel)%nat → ∃ e', foldM (λ e _, receive tryrecv fuel e) e (seq n (S k)) = Ok e' ∧ received e e'); [|by apply Hgen].
  clear n e Hf. induction k as [|k IH]; intros n e Hf; destruct (receive_ok fuel e Hf) as (e1 & E1 & R1); cbn [seq foldM]; rewrite E1; cbn [mbind outcome_bind].
  - by exists e1.
  - destruct (IH (S n) e1) as (e2 & E2 & R2); [pose proof (rc_owed _ _ R1); lia|]. exists e2. split; [exact E2|by eapply received_trans].
Qed.

(** *** A request *)

Definition startable (q : SPARQLQuery) : Prop := ∃ v, get_start (pattern_group q) = Ok v.

(** every position of the template has candidates, and is one of a pattern *)
Record template_ok (t : SPARQLQuery_Template) : Prop := {
  to_patterns : patterns (t_group t) ≠ [];
  to_pos : Forall (λ pos, (pos / 4 < length (patterns (t_group t)))%nat) (ptypes_pos t);
  to_grp : length (ptypes_grp t) = length (ptypes_pos t) ∧ Forall (λ c, c ≠ []) (ptypes_grp t)
}.

Lemma instantiate_ok t seed : template_ok t → ∃ q t', instantiate t seed = Ok (q, t') ∧ startable q ∧ template_ok t'.
Proof.
  intros [Hp Hpos [Hl Hg]]. unfold instantiate.
  set (f := λ (ps : list Pattern) (i : nat), _).
  assert (Hf : ∀ l ps, (∀ i, i ∈ l → (i < length (ptypes_pos t))%nat) → length ps = length (patterns (t_group t)) → ∃ ps', foldM f ps l = Ok ps' ∧ length ps' = length ps).
  { induction l as [|i l IH]; intros ps Hi Hps; [by exists ps|]. cbn [foldM]. assert (∃ ps1, f ps i = Ok ps1 ∧ length ps1 = length ps) as (ps1 & E1 & L1).
    { unfold f. pose proof (Hi i ltac:(left)) as Hlt. destruct (lookup_lt_is_Some_2 _ _ Hlt) as [pos Epos]. rewrite (proj2 (read_Ok _ _ _) Epos). cbn [mbind outcome_bind].
      rewrite <-Hl in Hlt. destruct (lookup_lt_is_Some_2 _ _ Hlt) as [grp Egrp]. rewrite (proj2 (read_Ok _ _ _) Egrp). cbn [mbind outcome_bind]. case_decide; [by exists ps|].
      pose proof (Forall_lookup_1 _ _ _ _ Hg Egrp) as Hgrp. pose proof (Forall_lookup_1 _ _ _ _ Hpos Epos) as Hlen. cbn beta in Hgrp, Hlen.
      assert (Hm : (seed mod length grp < length grp)%nat) by (apply Nat.mod_upper_bound; by destruct grp). destruct (lookup_lt_is_Some_2 _ _ Hm) as [x Ex].
      rewrite (proj2 (read_Ok _ _ _) Ex). cbn [mbind outcome_bind]. rewrite <-Hps in Hlen. destruct (lookup_lt_is_Some_2 _ _ Hlen) as [p Ep]. rewrite (proj2 (read_Ok _ _ _) Ep). cbn [mbind outcome_bind].
      eexists. split; [by apply write_Ok|apply length_insert]. }
    rewrite E1. cbn [mbind outcome_bind]. destruct (IH ps1) as (ps' & E' & L'); [intros j Hj; apply Hi; by right|lia|]. exists ps'. split; [exact E'|lia]. }
  destruct (Hf (seq 0 (length (ptypes_pos t))) (patterns (t_group t))) as (ps & E & L); [intros i Hi; apply elem_of_seq in Hi; lia|done|].
  rewrite E. cbn [mbind outcome_bind]. eexists _, _. split; [done|]. destruct ps as [|p ps]; [destruct (patterns (t_group t)); [done|simpl in L; lia]|]. split; [by eexists|].
  split; cbn [t_group ptypes_pos ptypes_grp patterns]; [done| |done].
  eapply Forall_impl; [exact Hpos|]. intros pos Hlt. cbn beta in *. lia.
Qed.
(** *** The plan of a request *)

(** the queries for which the planner finds an order: connected triple patterns with constant
    predicates and types, no pattern with the same variable twice, and costs within a
    [double] *)
Definition plannable_query (q : SPARQLQuery) : Prop :=
  let g := pattern_group q in
  ∃ nv, Query.unions g = [] ∧ Forall (λ p, plannable nv p = true) (patterns g) ∧ (0 < length (patterns g) <= 31)%nat ∧
    connected (chain_of <$> patterns g) = true ∧ costs_finite statistic (chain_of <$> patterns g).

Lemma plannable_planned q : plannable_query q → ∃ b q', generate_plan statistic q = Ok (b, q') ∧ startable q'.
Proof.
  intros (nv & Hun & Hps & Hlen & Hcon & Hfin). unfold generate_plan. destruct (pattern_group q) as [par ps un fs opt vars]. cbn [patterns Query.unions] in *. subst un.
  cbn [generate_for_group]. rewrite (proj2 (Nat.ltb_lt _ _)) by lia. destruct (generate_search statistic nv ps Hps Hlen) as (cs & ctn & s & _ & _ & E & _).
  destruct (if is_empty s then (false, ps) else (true, pattern_of <$> min_path s)) as [b ps'] eqn:Eb. rewrite E. cbn [mbind outcome_bind].
  eexists _, _. split; [done|]. assert (ps' ≠ []) as Hne.
  { destruct b; [by eapply (generate_finds statistic nv ps true ps')|]. destruct (is_empty s); [|done]. injection Eb as <-. by destruct ps; [simpl in Hlen; lia|]. }
  destruct ps' as [|p ps']; [done|]. by eexists.
Qed.

(** a template in the course of time: an instance stays in the template *)
Inductive evolved (t0 : SPARQLQuery_Template) : SPARQLQuery_Template → Prop :=
| evolved_refl : evolved t0 t0
| evolved_step t seed q t' : evolved t0 t → instantiate t seed = Ok (q, t') → evolved t0 t'.

(** the queries that a mix may request *)
Definition requested (mx : mix) (q : SPARQLQuery) : Prop :=
  (∃ t0 t seed t', t0 ∈ mx_tpls mx ∧ evolved t0 t ∧ instantiate t seed = Ok (q, t')) ∨ q ∈ mx_heavy mx.

(** *** A round *)

(** the mix: positive loads for every class, templates with candidates *)
Record mix_ok (mx : mix) : Prop := {
  mo_loads : Forall (Z.lt 0) (mx_loads mx) ∧ 0 < sumZ (mx_loads mx) < 2 ^ 31;
  mo_length : length (mx_loads mx) = (length (mx_tpls mx) + length (mx_heavy mx))%nat;
  mo_tpls : Forall template_ok (mx_tpls mx);
  mo_heavy : Forall startable (mx_heavy mx)
}.

Record emu_ok (mx : mix) (e : emu) : Prop := {
  eo_coder : coder_wf (p_coder (em_proxy e));
  eo_tpls : Forall template_ok (em_tpls e) ∧ Forall2 evolved (mx_tpls mx) (em_tpls e)
}.

Context (mx : mix) (par : Z) (Hmix : mix_ok mx) (Hpar : 0 < par < 2 ^ 31).
Hypothesis config : config_ok _.
Hypothesis engines : global_num_proxies <= global_num_engines.
Hypothesis ids : global_num_servers * global_num_threads < 2 ^ 31.
Hypothesis rand_nonneg : ∀ s, 0 <= (rand_r s).1.
Hypothesis planned : enable_planner = true → ∀ q, requested mx q → plannable_query q.

Lemma choose_ok e idx : emu_ok mx e → 0 <= idx < Z.of_nat (length (mx_loads mx)) →
  ∃ q e', choose rand_r mx e idx = Ok (q, e') ∧ startable q ∧ requested mx q ∧ emu_ok mx e' ∧
    e' = MkEmu (em_proxy e') (em_tpls e') (em_monitor e) (em_reads e) (em_send e) (em_recv e) (em_flying e) (em_start e) ∧
    p_coder (em_proxy e') = p_coder (em_proxy e) ∧ all_pmsgs (em_proxy e') = all_pmsgs (em_proxy e) ∧ outstanding (em_proxy e') = outstanding (em_proxy e).
Proof.
  intros [Hc [Ht Hev]] Hi. pose proof (Forall2_length _ _ _ Hev) as Hl. destruct Hmix as [_ Hlen _ Hh]. unfold choose. destruct (Z.ltb_spec idx (Z.of_nat (length (mx_tpls mx)))).
  - unfold get_random. destruct (rand_r (p_seed (em_proxy e))) as [r s]. assert (Hlt : (Z.to_nat idx < length (em_tpls e))%nat) by lia.
    destruct (lookup_lt_is_Some_2 _ _ Hlt) as [tpl Etpl]. rewrite (proj2 (read_Ok _ _ _) Etpl). cbn [mbind outcome_bind].
    destruct (instantiate_ok tpl (Z.to_nat r)) as (q & t' & Ei & Hq & Ht'); [by eapply Forall_lookup_1|]. rewrite Ei. cbn [mbind outcome_bind].
    destruct (Forall2_lookup_r _ _ _ _ _ Hev Etpl) as (t0 & Et0 & Hev0).
    eexists _, _. split; [done|]. split; [done|]. split; [left; exists t0, tpl, (Z.to_nat r), t'; split; [by eapply list_elem_of_lookup_2|done]|]. split; [|done]. split; [done|]. cbn [em_tpls].
    split; [by apply Forall_insert|]. rewrite <-(list_insert_id (mx_tpls mx) (Z.to_nat idx) t0) by done. apply Forall2_insert; [done|]. by eapply evolved_step.
  - assert (Hlt : (Z.to_nat (idx - Z.of_nat (length (mx_tpls mx))) < length (mx_heavy mx))%nat) by lia.
    destruct (lookup_lt_is_Some_2 _ _ Hlt) as [q Eq]. rewrite (proj2 (read_Ok _ _ _) Eq). cbn [mbind outcome_bind]. exists q, e. split; [done|].
    split; [by eapply (Forall_lookup_1 startable)|]. split; [right; by eapply list_elem_of_lookup_2|]. split; [done|]. by destruct e.
Qed.

(** what [n] requests leave behind *)
Record ran (n : nat) (e e' : emu) : Prop := {
  rn_send : em_send e' = em_send e + Z.of_nat n;
  rn_reads : (em_reads e <= em_reads e')%nat;
  rn_stats : dom (stats_map (em_monitor e)) ⊆ dom (stats_map (em_monitor e'));
  rn_msgs : ∃ msgs, all_pmsgs (em_proxy e') ≡ₚ all_pmsgs (em_proxy e) ++ msgs ∧ length msgs = n ∧
    Forall (λ m, blind (result (m_query m)) = true ∧ q_pid (m_query m) ∈ dom (stats_map (em_monitor e'))) msgs
}.

Lemma ran_none e e' : em_send e' = em_send e → (em_reads e <= em_reads e')%nat → dom (stats_map (em_monitor e)) ⊆ dom (stats_map (em_monitor e')) →
  all_pmsgs (em_proxy e') ≡ₚ all_pmsgs (em_proxy e) → ran 0 e e'.
Proof. intros ??? Hm. split; [lia|done|done|]. exists []. by rewrite app_nil_r. Qed.

Lemma ran_trans n1 n2 e1 e2 e3 : ran n1 e1 e2 → ran n2 e2 e3 → ran (n1 + n2) e1 e3.
Proof.
  intros [] []. split; [lia|lia|by etransitivity|]. destruct rn_msgs0 as (m1 & M1 & L1 & F1), rn_msgs1 as (m2 & M2 & L2 & F2). exists (m1 ++ m2).
  rewrite M2, M1, length_app, <-app_assoc. split; [done|]. split; [lia|]. apply Forall_app. split; [|done]. eapply Forall_impl; [exact F1|]. intros m [? Hm]. split; [done|by apply rn_stats1].
Qed.

Lemma received_ran e e' : received e e' → ran 0 e e'.
Proof. intros []. apply ran_none; try done. by rewrite rc_msgs0. Qed.

Record sent (n : nat) (e e' : emu) : Prop := {
  sn_ran : ran n e e';
  sn_recv : em_recv e' = em_recv e;
  sn_flying : em_flying e' = em_flying e;
  sn_outstanding : outstanding (em_proxy e') = (outstanding (em_proxy e) + n)%nat
}.

Lemma send_one_ok e : emu_ok mx e → ∃ e', send_one enable_planner rand_r statistic mx e = Ok e' ∧ emu_ok mx e' ∧ sent 1 e e'.
Proof.
  intros He. unfold send_one. pose proof (sweep_progress (em_proxy e)) as (Hso & _). cbn zeta in Hso. pose proof (sweep_proxy_msgs (em_proxy e)) as Hsm.
  set (p := sweep_proxy (em_proxy e)) in *. assert (Hpc : p_coder p = p_coder (em_proxy e)) by (unfold p, sweep_proxy; by destruct (foldl _ _ _)).
  unfold get_random at 1. pose proof (rand_nonneg (p_seed p)) as Hr. destruct (rand_r (p_seed p)) as [r s]. cbn [fst] in Hr.
  destruct (get_distribution_spec r (mx_loads mx)) as (k & Ek & Hk & _); [eapply Forall_impl; [apply Hmix|]; simpl; lia|apply Hmix|done|]. rewrite Ek. cbn [mbind outcome_bind].
  destruct (choose_ok (set_eproxy (set_seed s p) e) (Z.of_nat k)) as (q & e1 & -> & Hq & Hrq & He1 & Ee1 & Hc1 & Hm1 & Ho1); [|lia|]. { split; [|apply He]. cbn. rewrite Hpc. apply He. }
  cbn [mbind outcome_bind]. assert (∃ q', (if enable_planner then '(_, q) ← generate_plan statistic q; Ok q else Ok q) = Ok q' ∧ startable q') as (q' & -> & [start Hst]).
  { destruct enable_planner eqn:Ep; [|by exists q]. destruct (plannable_planned q (planned eq_refl q Hrq)) as (b & q' & -> & ?). by exists q'. }
  cbn [mbind outcome_bind]. unfold setpid. destruct (get_and_inc_qid (p_coder (em_proxy e1))) as [id c] eqn:Eid.
  assert (Hc : coder_wf c) by (change c with (id, c).2; rewrite <-Eid; apply get_and_inc_wf; [pose proof (cfg_threads _ config); pose proof (cfg_engines _ config); pose proof (cfg_proxies _ config); lia|apply ids|apply He1]).
  assert (Hid : 0 <= id) by (injection Eid as <- _; apply He1). unfold start_record. cbn [fst snd].
  set (q2 := set_result _ _). unfold submit. assert (Hpid : q_pid q2 = id) by done. rewrite Hpid. destruct (Z.eqb_spec id (-1)); [lia|]. cbn [negb assert_that mbind outcome_bind].
  change (pattern_group q2) with (pattern_group q'). rewrite Hst. cbn [mbind outcome_bind].
  pose proof (cfg_servers _ config). unfold hash_mod at 1. destruct (Z.eqb_spec global_num_servers 0); [lia|]. cbn [mbind outcome_bind].
  set (home := i32 _). set (p2 := set_pcoder c (em_proxy e1)).
  destruct (send_to_ok rand_r p2 q2 home (cfg_proxies _ config) engines) as (p3 & tid & E3 & _ & _ & Hc3 & _ & Hm3).
  pose proof (send_to_outstanding p2 q2 home p3 E3) as Ho3. rewrite E3. cbn [mbind outcome_bind]. eexists. split; [done|].
  change (all_pmsgs p2) with (all_pmsgs (em_proxy e1)) in Hm3. change (outstanding p2) with (outstanding (em_proxy e1)) in Ho3.
  change (all_pmsgs (em_proxy (set_eproxy (set_seed s p) e))) with (all_pmsgs p) in Hm1. change (outstanding (em_proxy (set_eproxy (set_seed s p) e))) with (outstanding p) in Ho1.
  split; [split; [simpl; rewrite Hc3; exact Hc|apply He1]|]. rewrite Ee1. split; simpl; try done; try lia. split; simpl; try done; try lia.
  - rewrite dom_insert_L. set_solver.
  - exists [MkMessage home tid q2]. split; [by rewrite Hm3, Hm1, Hsm|]. split; [done|]. constructor; [|constructor]. split; [done|]. cbn. rewrite dom_insert_L. set_solver.
Qed.

Lemma sends_ok n j e : emu_ok mx e → ∃ e', foldM (λ e _, send_one enable_planner rand_r statistic mx e) e (seq j n) = Ok e' ∧ emu_ok mx e' ∧ sent n e e'.
Proof.
  revert j e. induction n as [|n IH]; intros j e He; cbn [seq foldM].
  - exists e. split; [done|]. split; [done|]. split; [by apply ran_none|done|done|lia].
  - destruct (send_one_ok e He) as (e1 & -> & He1 & []). cbn [mbind outcome_bind]. destruct (IH (S j) e1 He1) as (e2 & -> & He2 & []). exists e2. split; [done|]. split; [done|].
    split; [change (S n) with (1 + n)%nat; by eapply ran_trans|congruence|congruence|lia].
Qed.

(** between two rounds: what is in flight is counted right, and is no more than asked for *)
Record window (e : emu) : Prop := {
  wi_ok : emu_ok mx e;
  wi_count : em_send e - em_recv e = Z.of_nat (outstanding (em_proxy e));
  wi_flying : em_flying e = Z.of_nat (outstanding (em_proxy e));
  wi_par : Z.of_nat (outstanding (em_proxy e)) <= par
}.

Lemma send_requests_ok e : window e → ∃ n e', send_requests enable_planner rand_r statistic mx par e = Ok e' ∧ emu_ok mx e' ∧ sent n e e' ∧
  Z.of_nat (outstanding (em_proxy e')) = par.
Proof.
  intros [Ho Hc Hf Hp]. unfold send_requests. rewrite u64_id by lia. destruct (sends_ok (Z.to_nat (par - em_flying e)) 0 e Ho) as (e' & -> & He & Hs). eexists _, e'. split; [done|].
  split; [done|]. split; [done|]. destruct Hs. lia.
Qed.

Let fuel : nat := S (Z.to_nat par).

Lemma timely_ran e : ran 0 e (print_thpt_of e) ∧ em_proxy (print_thpt_of e) = em_proxy e ∧ em_tpls (print_thpt_of e) = em_tpls e ∧ em_recv (print_thpt_of e) = em_recv e.
Proof.
  unfold print_thpt_of, print_timely_thpt. destruct (negb _); cbn; [split; [by apply ran_none|done]|]. repeat case_match; simplify_eq; cbn; (split; [apply ran_none; cbn; [done|lia|done|done]|done]).
Qed.

Lemma start_ran init warmup e : let e' := maybe_start init warmup e in
  ran 0 e e' ∧ em_proxy e' = em_proxy e ∧ em_tpls e' = em_tpls e ∧ em_recv e' = em_recv e.
Proof.
  unfold maybe_start, start_thpt. repeat case_match; simplify_eq; cbn; (split; [apply ran_none; cbn; [done|lia|done|done]|done]).
Qed.

Lemma emu_round_ok init warmup e : window e → ∃ n e', emu_round enable_planner rand_r tryrecv statistic mx par fuel init warmup e = Ok e' ∧ window e' ∧ ran n e e'.
Proof.
  intros He. unfold emu_round. destruct (send_requests_ok e He) as (n & e1 & -> & Ho1 & Hs & Hp1). cbn [mbind outcome_bind].
  destruct (receives_ok fuel 0 e1) as (e2 & -> & Hr); [unfold fuel, outstanding in *; lia|]. cbn [mbind outcome_bind].
  destruct (timely_ran e2) as (R3 & P3 & T3 & C3). set (e3 := print_thpt_of e2) in *. destruct (start_ran init warmup e3) as (R4 & P4 & T4 & C4). set (e4 := maybe_start _ _ _) in *. cbn zeta in *.
  exists n, (count_flying e4). split; [done|]. destruct He, Hs. pose proof (received_ran _ _ Hr) as R2. destruct Hr.
  assert (R : ran n e (count_flying e4)).
  { replace n with (n + (0 + (0 + (0 + 0))))%nat by lia. eapply ran_trans; [done|]. eapply ran_trans; [done|]. eapply ran_trans; [done|]. eapply ran_trans; [done|]. by apply ran_none. }
  assert (Hc : em_send e4 - em_recv e4 = Z.of_nat (outstanding (em_proxy e4))).
  { pose proof (rn_send _ _ _ R4). pose proof (rn_send _ _ _ R3). pose proof (rn_send _ _ _ sn_ran0). rewrite P4, P3, C4, C3. lia. }
  assert (Hle : Z.of_nat (outstanding (em_proxy e4)) <= par) by (rewrite P4, P3; unfold outstanding in *; rewrite rc_pending0; lia).
  split; [|done]. split; cbn [count_flying em_proxy em_send em_recv em_flying em_tpls]; [|done|rewrite u64_id; lia|done].
  split; cbn [count_flying em_proxy em_tpls]; [rewrite P4, P3, rc_coder0; apply Ho1|rewrite T4, T3, rc_tpls0; apply Ho1].
Qed.

(** *** All rounds *)

Lemma emu_loop_ok rounds n init warmup duration e : (∀ k, (n <= k)%nat → duration <= u64 (usec k - init)) → (n < em_reads e + rounds)%nat → window e → (0 < rounds)%nat →
  ∃ k e', emu_loop enable_planner rand_r tryrecv statistic mx par rounds fuel init warmup duration e = Ok e' ∧ window e' ∧ ran k e e'.
Proof.
  intros Htime. revert e. induction rounds as [|rounds IH]; intros e Hn He Hr; [lia|]. cbn [emu_loop]. set (e0 := set_monitor _ e).
  assert (W0 : window e0) by (by destruct He as [[]]). assert (R0 : ran 0 e e0) by (apply ran_none; cbn; [done|lia|done|done]).
  destruct (Z.ltb_spec (u64 (usec (em_reads e) - init)) duration) as [Hlt|Hge]; [|by exists 0%nat, e0].
  destruct (emu_round_ok init warmup e0 W0) as (k & e1 & -> & W1 & R1). cbn [mbind outcome_bind].
  assert (Hn' : (em_reads e < n)%nat). { destruct (Nat.lt_ge_cases (em_reads e) n) as [|Hk]; [done|]. specialize (Htime _ Hk). lia. }
  pose proof (rn_reads _ _ _ R1) as Hread. cbn in Hread. destruct (IH e1) as (k2 & e2 & E2 & H2' & R2); [lia|done|lia|].
  exists (0 + (k + k2))%nat, e2. split; [done|]. split; [done|]. eapply ran_trans; [done|]. by eapply ran_trans.
Qed.

(** *** The last replies *)

(** waiting: what is in flight is counted right *)
Record waiting (e : emu) : Prop := {
  wt_count : em_send e - em_recv e = Z.of_nat (outstanding (em_proxy e));
  wt_par : Z.of_nat (outstanding (em_proxy e)) <= par
}.

Definition left_over (e : emu) : nat * nat * nat :=
  (outstanding (em_proxy e), length (p_pending (em_proxy e)), patience (p_net (em_proxy e))).
Definition less (x y : nat * nat * nat) : Prop :=
  (x.1.1 < y.1.1)%nat ∨ x.1.1 = y.1.1 ∧ ((x.1.2 < y.1.2)%nat ∨ x.1.2 = y.1.2 ∧ (x.2 < y.2)%nat).

Lemma less_wf : well_founded less.
Proof.
  assert (Hgen : ∀ a b c, Acc less (a, b, c)); [|by intros [[a b] c]]. intros a. induction (lt_wf a) as [a _ IHa]. intros b. induction (lt_wf b) as [b _ IHb]. intros c. induction (lt_wf c) as [c _ IHc].
  constructor. intros [[a' b'] c'] [Hl|[Ha [Hb|[Hb Hc]]]]; cbn in *; [by apply IHa|subst; by apply IHb|subst; by apply IHc].
Qed.

(** one round of waiting makes progress *)
Lemma wait_round e : waiting e → em_recv e < em_send e →
  ∃ e', receive tryrecv fuel (set_eproxy (sweep_proxy (em_proxy e)) e) = Ok e' ∧ waiting (print_thpt_of e') ∧ ran 0 e (print_thpt_of e') ∧ less (left_over (print_thpt_of e')) (left_over e).
Proof.
  intros [Hc Hp] Hlt. pose proof (sweep_progress (em_proxy e)) as (Ho & Hl & Hs). cbn zeta in *. set (p := sweep_proxy (em_proxy e)) in *.
  destruct (receive_ok fuel (set_eproxy p e)) as (e1 & -> & Hr); [unfold fuel, outstanding in *; cbn; lia|]. exists e1. split; [done|].
  pose proof (received_ran _ _ Hr) as R1. destruct (timely_ran e1) as (R2 & P2 & _ & C2). destruct Hr. cbn [set_eproxy em_proxy em_send em_recv em_flying em_tpls] in *.
  assert (R : ran 0 e (print_thpt_of e1)).
  { change 0%nat with (0 + (0 + 0))%nat. apply ran_trans with (set_eproxy p e); [apply ran_none; [done|done|done|apply sweep_proxy_msgs]|]. by eapply ran_trans. }
  pose proof (rn_send _ _ _ R2). pose proof (f_equal length rc_pending0) as Hpe.
  split; [|split; [done|]].
  - split; rewrite P2, ?C2; unfold outstanding in *; lia.
  - unfold less, left_over. rewrite P2. cbn. unfold outstanding in *. lia.
Qed.

Lemma emu_wait_ok e : waiting e → ∃ waits e', emu_wait tryrecv waits fuel e = Ok e' ∧ outstanding (em_proxy e') = 0%nat ∧ em_recv e' = em_send e' ∧ ran 0 e e'.
Proof.
  remember (left_over e) as x eqn:Ex. revert e Ex. induction (less_wf x) as [x _ IH]. intros e -> He. destruct (Z.ltb_spec (em_recv e) (em_send e)) as [Hlt|Hge].
  - destruct (wait_round e He Hlt) as (e1 & E1 & H1' & R1 & Hless). destruct (IH _ Hless _ eq_refl H1') as (waits & e2 & E2 & Ho & Hc & R2). exists (S waits), e2.
    cbn [emu_wait]. rewrite (proj2 (Z.ltb_lt _ _) Hlt), E1. cbn [mbind outcome_bind]. split; [exact E2|]. split; [done|]. split; [done|]. change 0%nat with (0 + 0)%nat. by eapply ran_trans.
  - exists 0%nat, e. cbn [emu_wait]. rewrite (proj2 (Z.ltb_ge _ _) Hge). destruct He. split; [done|]. split; [lia|]. split; [lia|]. by apply ran_none.
Qed.

(** *** The emulator *)

Definition start_emu (p : proxy) (m : Monitor) (t : nat) : emu := MkEmu p (mx_tpls mx) m t 0 0 0 false.

Lemma start_window p m t : coder_wf (p_coder p) → outstanding p = 0%nat → window (start_emu p m t).
Proof. intros Hc Ho. split; cbn; rewrite ?Ho; try lia. split; [done|]. split; [apply Hmix|]. change (Forall2 evolved (mx_tpls mx) (mx_tpls mx)). clear. induction (mx_tpls mx) as [|x l IH]; constructor; [constructor|done]. Qed.

(** C22: the emulator keeps [par] requests in flight: however many rounds it runs, no round
    fails, the counter of requests in flight is the number of requests sent and not yet
    answered, it is at most [par], and the next sending brings it to exactly [par]. This
    holds with the planner switched off for every mix of queries with patterns; with the
    planner, which is that of [Planner.v], if every query of the mix, whatever constants
    its template takes, is one for which the planner finds an order: no union, up to 31
    connected patterns, each with a constant predicate and one or two different variables,
    for [rdf:type] a variable subject and a constant type, and costs within a [double]. *)
Theorem emulator_window (init warmup : Z) (p : proxy) (m : Monitor) (t n : nat) :
  coder_wf (p_coder p) → outstanding p = 0%nat →
  ∃ e e1, foldM (λ e _, emu_round enable_planner rand_r tryrecv statistic mx par (S (Z.to_nat par)) init warmup e) (start_emu p m t) (seq 0 n) = Ok e ∧
    em_flying e = em_send e - em_recv e ∧ em_flying e = Z.of_nat (outstanding (em_proxy e)) ∧ em_flying e <= par ∧
    send_requests enable_planner rand_r statistic mx par e = Ok e1 ∧ Z.of_nat (outstanding (em_proxy e1)) = par.
Proof.
  intros Hc Ho. assert (∃ e, foldM (λ e _, emu_round enable_planner rand_r tryrecv statistic mx par fuel init warmup e) (start_emu p m t) (seq 0 n) = Ok e ∧ window e) as (e & E & He).
  { induction n as [|n [e [E He]]]; [by exists (start_emu p m t); split; [|apply start_window]|]. destruct (emu_round_ok init warmup e He) as (k & e' & E' & He' & _). exists e'. split; [|done].
    rewrite seq_S, foldM_snoc, E. exact E'. }
  destruct (send_requests_ok e He) as (k & e1 & E1 & _ & _ & Hp). exists e, e1. destruct He. split_and!; [done|lia..|done|done].
Qed.

(** C23: the emulator returns: when the clock passes the duration, enough rounds of sending
    and of waiting lead to an end at which every request has its reply; all requests that
    were sent are blind, have a record of the monitor, and were delivered to the network.
    The mix is any one with patterns if the planner is off, and one of queries for which
    it finds an order, as above, if it is on. *)
Theorem emulator_returns (d w : Z) (p : proxy) (m : Monitor) (t : nat) :
  (∃ n, ∀ k, (n <= k)%nat → SEC d <= u64 (usec k - usec (S (S t)))) → coder_wf (p_coder p) → outstanding p = 0%nat →
  ∃ rounds waits e, emulate to_float enable_planner rand_r tryrecv statistic mx par rounds (S (Z.to_nat par)) waits d w m t p = Ok e ∧
    em_recv e = em_send e ∧ outstanding (em_proxy e) = 0%nat ∧
    ∃ msgs, delivered (p_net (em_proxy e)) ≡ₚ all_pmsgs p ++ msgs ∧ em_send e = Z.of_nat (length msgs) ∧
      Forall (λ m, blind (result (m_query m)) = true ∧ q_pid (m_query m) ∈ dom (stats_map (em_monitor e))) msgs.
Proof.
  intros [n Hn] Hc Ho. unfold emulate, init_types. set (m0 := MkMonitor _ _ _ _ _ _ _ _ _ _ _ _ _).
  change (MkEmu p (mx_tpls mx) m0 (S (S (S t))) 0 0 0 false) with (start_emu p m0 (S (S (S t)))).
  destruct (emu_loop_ok (S n) n (usec (S (S t))) (SEC w) (SEC d) (start_emu p m0 (S (S (S t)))) Hn) as (k & e1 & E1 & He1 & R1); [cbn; lia|by apply start_window|lia|].
  set (e2 := set_monitor (end_thpt to_float (em_monitor e1) (em_recv e1) (em_reads e1)) e1).
  assert (Hw : waiting e2) by (destruct He1; by split). destruct (emu_wait_ok e2 Hw) as (waits & e3 & E3 & Ho3 & Hc3 & R3).
  exists (S n), waits, (set_monitor (finish (em_monitor e3) (em_reads e3)) e3). fold fuel. rewrite E1. cbn [mbind outcome_bind]. fold e2. rewrite E3. cbn [mbind outcome_bind]. split; [done|].
  split; [done|]. split; [done|]. assert (R : ran (k + (0 + 0)) (start_emu p m0 (S (S (S t)))) e3).
  { eapply ran_trans; [done|]. eapply ran_trans; [|done]. apply ran_none; cbn; [done|lia|done|done]. }
  destruct R as [Hs _ _ (msgs & Hm & Hl & HF)]. exists msgs. cbn in Hs. split.
  - rewrite <-Hm. unfold all_pmsgs. cbn. replace (p_pending (em_proxy e3)) with (@nil Message) by (unfold outstanding in Ho3; destruct (p_pending (em_proxy e3)); [done|simpl in Ho3; lia]). by rewrite app_nil_r.
  - split; [cbn; lia|exact HF].
Qed.
End emulator.

(** *** A network that answers at once *)

Definition echo_network : Adaptor := {|
  net := list Message * list SPARQLQuery; net_send n m := (true, (n.1 ++ [m], n.2 ++ [m_query m])); delivered n := n.1;
  net_send_ok n m := eq_refl
|}.
Definition echo_recv (n : @net echo_network) : option SPARQLQuery * @net echo_network :=
  match n.2 with [] => (None, n) | r :: rs => (Some r, (n.1, rs)) end.

#[export] Instance echo_answering : @Answering echo_network echo_recv.
Proof.
  refine (@Build_Answering echo_network echo_recv (λ n, length n.2) (λ _, O) _ _ _ _).
  - intros n m n' [= <-]. simpl. rewrite length_app. simpl. lia.
  - done.
  - intros [d i] r n'. unfold echo_recv. destruct i as [|r' i]; [done|]. intros [= <- <-]. done.
  - intros [d i] n'. unfold echo_recv. destruct i as [|r' i]; [|done]. intros [= <-]. done.
Defined.

(** a clock whose readings are a tenth of a second apart, for some minutes *)
Definition slow_clock : Clock := λ k, 100000 * Z.min (Z.of_nat k) 1000.

Definition sample_mix : mix :=
  MkMix [MkTemplate (MkGroup false [MkPattern 131079 5 (-1) OUT 0] [] [] [] ∅) 1 ["<t>"%string] [0%nat] [[131079; 131080]]]
    [MkQuery (-1) (-1) 0 BASIC SQ_PATTERN 1 0 0 0 false 0 0 false 0 (-1) 0 false (MkGroup false [MkPattern 131081 5 (-1) OUT 0] [] [] [] ∅) [] (MkResult 0 0 0 false 1 [] [-1] [] [] [])] [3; 1].

Lemma sample_mix_ok : mix_ok sample_mix.
Proof.
  split; [split; [repeat constructor; lia|simpl; lia]|done| |].
  - constructor; [|constructor]. split; [done|repeat constructor|split; [done|repeat constructor; done]].
  - constructor; [|constructor]. by eexists.
Qed.

Definition echo_proxy : @proxy echo_network := @MkProxy echo_network 0 0 (@new_coder one_server 0 0) 0 [] ([], []).

Definition count_up (s : Z) : Z * Z := (Z.abs s, s + 1).

Lemma one_server_fits : config_ok one_server ∧ @global_num_proxies one_server <= @global_num_engines one_server ∧
  @global_num_servers one_server * @global_num_threads one_server < 2 ^ 31 ∧ @coder_wf one_server (p_coder echo_proxy) ∧ ∀ s, 0 <= (count_up s).1.
Proof. split; [split; simpl; lia|]. split; [simpl; lia|]. split; [simpl; lia|]. split; [apply new_coder_wf; simpl; lia|]. intros s. simpl. lia. Qed.

(** *** The sample mix with the planner *)

(** the counts of the predicate of the sample *)
Definition one_predicate : data_statistic := MkStat {[5 := 4]} {[5 := 2]} {[5 := 4]} ∅ ∅.

Definition sample_pattern (s : Z) : Pattern := MkPattern s 5 (-1) OUT 0.
Lemma sample_plannable q s : Query.unions (pattern_group q) = [] → 131078 < s < 131082 → patterns (pattern_group q) = [sample_pattern s] →
  @plannable_query one_server opt_double one_predicate q.
Proof.
  intros Hun Hs Hps. exists 1%nat. rewrite Hps. split; [done|]. assert (s ∈ seqZ 131079 3) as Hin by (apply elem_of_seqZ; lia).
  assert (Forall (λ s, plannable 1 (sample_pattern s) && connected (chain_of <$> [sample_pattern s]) = true) (seqZ 131079 3)) as Hall by (apply (bool_decide_unpack _); vm_compute; exact I).
  rewrite Forall_forall in Hall. specialize (Hall s Hin). apply andb_true_iff in Hall as [H1 H2]. split; [by repeat constructor|]. split; [simpl; lia|]. split; [exact H2|]. apply opt_double_finite.
Qed.

Definition sample_template (s : Z) : SPARQLQuery_Template := MkTemplate (MkGroup false [sample_pattern s] [] [] [] ∅) 1 ["<t>"%string] [0%nat] [[131079; 131080]].

Lemma sample_instance s seed : ∃ x, x ∈ [131079; 131080] ∧ instantiate (sample_template s) seed = Ok (query_of (MkGroup false [sample_pattern x] [] [] [] ∅) 1, sample_template x).
Proof.
  assert ((seed mod 2 < 2)%nat) as Hm by (apply Nat.mod_upper_bound; lia). unfold instantiate, sample_template. cbn [t_group ptypes_pos ptypes_grp patterns length seq foldM read lookup list_lookup mbind outcome_bind].
  change (length [131079; 131080]) with 2%nat. destruct (seed mod 2)%nat as [|[|?]]; [exists 131079|exists 131080|lia]; (split; [set_solver|reflexivity]).
Qed.

Lemma sample_requests q : requested sample_mix q → @plannable_query one_server opt_double one_predicate q.
Proof.
  assert (Hev : ∀ t, evolved (sample_template 131079) t → ∃ s, t = sample_template s).
  { intros t. induction 1 as [|t seed q' t' _ [s ->] E]; [by exists 131079|]. destruct (sample_instance s seed) as (x & _ & E'). rewrite E' in E. injection E as _ <-. by exists x. }
  intros [(t0 & t & seed & t' & ->%list_elem_of_singleton & (s & ->)%Hev & E)|Hq].
  - destruct (sample_instance s seed) as (x & Hx & E'). rewrite E' in E. injection E as <- _. apply (sample_plannable _ x); [done| |done]. rewrite !elem_of_cons, elem_of_nil in Hx. lia.
  - apply list_elem_of_singleton in Hq as ->. by apply (sample_plannable _ 131081).
Qed.

Lemma emulator_window_witness : ∃ e e1,
  foldM (λ e _, @emu_round one_server echo_network slow_clock opt_double true count_up echo_recv one_predicate sample_mix 5 6 0 0 e)
    (@start_emu echo_network opt_double sample_mix echo_proxy (@new_monitor opt_double) 0) (seq 0 3) = Ok e ∧
  em_flying e <= 5 ∧ @send_requests one_server echo_network slow_clock opt_double true count_up one_predicate sample_mix 5 e = Ok e1 ∧
  @outstanding echo_network echo_recv _ (em_proxy e1) = 5%nat.
Proof.
  destruct one_server_fits as (Hc & He & Hi & Hw & Hr).
  destruct (@emulator_window one_server echo_network slow_clock opt_double true count_up echo_recv echo_answering one_predicate sample_mix 5 sample_mix_ok ltac:(lia) Hc He Hi Hr
    (λ _, sample_requests) 0 0 echo_proxy (@new_monitor opt_double) 0 3 Hw eq_refl) as (e & e1 & E & _ & _ & Hf & E1 & Ho).
  exists e, e1. split; [exact E|]. split; [exact Hf|]. split; [exact E1|]. lia.
Defined.

(** one second with five requests in flight *)
Lemma emulator_returns_witness : ∃ rounds waits e,
  @emulate one_server echo_network slow_clock opt_double id true count_up echo_recv one_predicate sample_mix 5 rounds 6 waits 1 0 (@new_monitor opt_double) 0 echo_proxy = Ok e ∧
  em_recv e = em_send e.
Proof.
  destruct one_server_fits as (Hc & He & Hi & Hw & Hr).
  destruct (@emulator_returns one_server echo_network slow_clock opt_double id true count_up echo_recv echo_answering one_predicate sample_mix 5 sample_mix_ok ltac:(lia) Hc He Hi Hr
    (λ _, sample_requests) 1 0 echo_proxy (@new_monitor opt_double) 0) as (rounds & waits & e & E & Hs & _); [|exact Hw|reflexivity|].
  - exists 20%nat. intros k Hk. change (SEC 1) with 1000000. change (usec k - usec 2) with (100000 * Z.min (Z.of_nat k) 1000 - 200000). rewrite u64_id by lia. lia.
  - exists rounds, waits, e. split; [exact E|exact Hs].
Defined.
