(* ===== verification/Console.v ===== *)
(** The console ([core/console.hpp]): a line of text becomes a command, and every proxy of
    the cluster runs it or leaves it to others. The options of a command are parsed by
    [boost::program_options], which is an argument: [None] where it raises an exception.

    What a command does outside the console are the definitions of [Proxy.v], [Emulator.v],
    [Planner.v], [Monitor.v] and [Settings.v]; loading, checking and the files of statistics, which are
    those of [Broadcast.v] and [StatFile.v], are arguments. What is printed is a list of
    notes. The monitor of a single query only measures times and is left out.

    The proxies of a server are threads of one process: they share its settings. A turn is
    one command on one proxy; the barrier between the commands is left out. *)

From stdpp Require Import strings.
From Stdlib Require Import Ascii.
From S2P Require Import Prelude Types Settings Coder Query Serial Exec StringServer Server Replies Lexer Parser Transfer ParseText Proxy Planner Final Monitor Emulator.
Local Open Scope Z_scope.

(** ** Text *)

Definition is_blank (c : ascii) : bool := Ascii.eqb c " " || Ascii.eqb c "009".

(** the blanks at the head and at the tail are cut off *)
Fixpoint trim_head (s : string) : string :=
  match s with
  | String c s' => if is_blank c then trim_head s' else s
  | EmptyString => s
  end.
Fixpoint trim_tail (s : string) : string :=
  match s with
  | String c s' => let t := trim_tail s' in if is_blank c && String.eqb t "" then "" else String c t
  | EmptyString => ""
  end.
Definition trim (s : string) : string := trim_tail (trim_head s).

(** [split(fields, str, is_any_of(" "))]; [w] is the field that has begun *)
Fixpoint split_at (sep : ascii) (w s : string) : list string :=
  match s with
  | EmptyString => [w]
  | String c s => if Ascii.eqb c sep then w :: split_at sep "" s else split_at sep (w +:+ String c "") s
  end.
Definition cmd2args (str : string) : list string := split_at " " "" str.

(** every line with a blank after it *)
Definition file2str (lines : list string) : string := String.concat "" ((λ l, l +:+ " ") <$> lines).

Fixpoint args2str (s : string) : string :=
  match s with
  | EmptyString => ""
  | String c s => String (if Ascii.eqb c "=" || Ascii.eqb c "&" then " "%char else c) (args2str s)
  end.

(** ** Options *)

Inductive value :=
| VFlag
| VInt (z : Z)
| VStr (s : string).
Definition Options : Type := gmap string value.

(** [vm.count(k)] is 0 or 1 *)
Definition count (o : Options) (k : string) : bool := bool_decide (is_Some (o !! k)).
(** [vm[k].as<T>()] raises an exception for another type *)
Definition as_string (o : Options) (k : string) : outcome string := match o !! k with Some (VStr s) => Ok s | _ => Err Uncaught end.
Definition as_int (o : Options) (k : string) : outcome Z := match o !! k with Some (VInt z) => Ok z | _ => Err Uncaught end.

(** ** A proxy at the console *)

(** what is printed, and the failed command as its arguments *)
Inductive note :=
| Help
| HelpOf (cmd : string)
| FailToParse (args : list string)
| ShowConfig
| FailedConfig
| Missing (fname : string)
| ResultSize (rows : nat)
| ShowResult (rows : Z)
| DumpResult (fname : string) (rows : nat)
| SkippedLine (line : string)
| CommandFailed (ret : Z)
| StaticStore
| Latencies (table : list (list Z))
| LatencyOf.


Section console.
  Context `{Adaptor} `{Clock} `{Double} (to_float : double → double) (str_server : String_Server).
  Context (rand_r : Z → Z * Z) (recv : net → outcome (SPARQLQuery * net)) (tryrecv : net → option SPARQLQuery * net).
  Context `{StdSort} (umap_iter : gmap Z req_stats → list (Z * req_stats)) (scale : Z → Z → Z).
  Context (statistic : data_statistic) (has_rdma : bool).
  (* the files: their lines and their text, and the configurations of the emulator *)
  Context (file_lines : string → option (list string)) (file_text : string → option string) (file_emu : string → option emu_config).
  Context (parse_command_line : string → list string → option Options).
  Context (con_room : Z * Z → nat → bool). (* whether the [n]th message of a console finds room *)
  Context (dynamic : bool) (load_data : string → bool → proxy → outcome (Z * proxy)) (check_data : bool → bool → proxy → outcome (Z * proxy)).

(** what a console sends: a command or items, or the monitor of its requests *)
Definition con_msg : Type := string + Monitor.

(** A proxy with what it sees: the settings are the globals of its server, which all its
    threads share. *)
Record console := MkConsole {
  k_settings : Settings;
  k_proxy : proxy;
  k_clock : nat;
  k_in : list con_msg;                (* what has come from other consoles *)
  k_out : list (Z * Z * con_msg);     (* what the network took for other consoles *)
  k_sends : nat;                      (* the calls of [send] so far *)
  k_stats : list (bool * string);     (* statistics loaded from or stored to files *)
  k_log : list note
}.

Definition say (n : note) (k : console) : console :=
  MkConsole (k_settings k) (k_proxy k) (k_clock k) (k_in k) (k_out k) (k_sends k) (k_stats k) (k_log k ++ [n]).
Definition set_settings (s : Settings) (k : console) : console :=
  MkConsole s (k_proxy k) (k_clock k) (k_in k) (k_out k) (k_sends k) (k_stats k) (k_log k).
Definition set_kproxy (p : proxy) (k : console) : console :=
  MkConsole (k_settings k) p (k_clock k) (k_in k) (k_out k) (k_sends k) (k_stats k) (k_log k).
Definition use_stats (store : bool) (fname : string) (k : console) : console :=
  MkConsole (k_settings k) (k_proxy k) (k_clock k) (k_in k) (k_out k) (k_sends k) (k_stats k ++ [(store, fname)]) (k_log k).

(** [send] does not wait: it may find no room, and its result is left unread *)
Definition console_send (sid tid : Z) (m : con_msg) (k : console) : console :=
  let out := if con_room (p_sid (k_proxy k), p_tid (k_proxy k)) (k_sends k) then k_out k ++ [(sid, tid, m)] else k_out k in
  MkConsole (k_settings k) (k_proxy k) (k_clock k) (k_in k) out (S (k_sends k)) (k_stats k) (k_log k).
(** a proxy that waits for ever is cut off like a loop; another kind of message raises an
    exception of the archive *)
Definition console_recv (k : console) : outcome (con_msg * console) :=
  match k_in k with
  | [] => Err OutOfFuel
  | m :: l => Ok (m, MkConsole (k_settings k) (k_proxy k) (k_clock k) l (k_out k) (k_sends k) (k_stats k) (k_log k))
  end.
Definition recv_string (k : console) : outcome (string * console) :=
  '(m, k) ← console_recv k; match m with inl s => Ok (s, k) | inr _ => Err Uncaught end.
Definition recv_monitor (k : console) : outcome (Monitor * console) :=
  '(m, k) ← console_recv k; match m with inr m => Ok (m, k) | inl _ => Err Uncaught end.

Definition MASTER (k : console) : bool := (p_sid (k_proxy k) =? 0) && (p_tid (k_proxy k) =? 0).
Definition LEADER (k : console) : bool := p_tid (k_proxy k) =? 0.
Definition note_if (b : bool) (n : note) (k : console) : console := if b then say n k else k.

Definition num_servers (k : console) : Z := @global_num_servers (core (k_settings k)).
Definition num_proxies (k : console) : Z := @global_num_proxies (core (k_settings k)).

(** *** [run_config] *)

(** the items as the master has them *)
Definition config_items (o : Options) : outcome (string * list note) :=
  '(str, ns) ← (if count o "-l" then
                  fname ← as_string o "-l";
                  Ok match file_lines fname with Some lines => (file2str lines, []) | None => ("", [Missing fname]) end
                else Ok ("", []));
  if count o "-s" then s ← as_string o "-s"; Ok (args2str s, ns) else Ok (str, ns).

Definition run_config (args : list string) (k : console) : outcome console :=
  if negb (LEADER k) then Ok k
  else match parse_command_line "config" args with
  | None => Ok (say (FailToParse args) k)
  | Some o =>
      if count o "help" then Ok (note_if (MASTER k) (HelpOf "config") k)
      else if count o "-v" then Ok (note_if (MASTER k) ShowConfig k)
      else if negb (xorb (count o "-l") (count o "-s")) then Ok (say (FailToParse args) k) (* invalid cmd *)
      else
        '(str, k) ← (if MASTER k then
                       '(str, ns) ← config_items o;
                       let k := foldl (λ k n, say n k) k ns in
                       Ok (str, foldl (λ k i, console_send (Z.of_nat i) 0 (inl str) k) k (seq 1 (Z.to_nat (num_servers k) - 1)))
                     else recv_string k);
        if negb (String.eqb str "") then s ← reload_config has_rdma (k_settings k) str; Ok (set_settings s k)
        else Ok (note_if (MASTER k) FailedConfig k)
  end.

(** *** [run_sparql] *)

(** a single query; the average of no rounds divides by zero *)
Definition run_single (o : Options) (args : list string) (k : console) : outcome console :=
  fname ← as_string o "-f";
  match file_text fname with
  | None => Ok (say (FailToParse args) (say (Missing fname) k))
  | Some text =>
      mfactor ← as_int o "-m"; cnt ← as_int o "-n"; nlines ← as_int o "-v";
      ofname ← (if count o "-o" then as_string o "-o" else Ok "");
      let s := k_settings k in
      if global_silent s && ((0 <? nlines) || count o "-o") then Ok (say (FailToParse args) k)
      else
        '(ret, reply, p) ← @run_single_query (core s) _ str_server (global_enable_planner s) (global_silent s) rand_r recv (@generate_plan (core s) _ statistic) (k_proxy k) text mfactor cnt new_query;
        let k := set_kproxy p k in
        if negb (ret =? 0) then Ok (say (FailToParse args) (say (CommandFailed ret) k))
        else if cnt =? 0 then Err Undefined (* print_latency(cnt) *)
        else
          let rows := row_num (result reply) in
          let k := say (ResultSize rows) (say LatencyOf k) in
          if negb (global_silent s) && negb (blind (result reply)) then
            let k := note_if (0 <? nlines) (ShowResult (Z.min nlines (Z.of_nat rows))) k in
            Ok (note_if (count o "-o") (DumpResult ofname rows) k)
          else Ok k
  end.

(** the commands of a batch are single queries again *)
Fixpoint run_sparql (depth : nat) (args : list string) (k : console) : outcome console :=
  match depth with
  | O => Err OutOfFuel
  | S depth =>
      if negb (MASTER k) then Ok k
      else match parse_command_line "sparql" args with
      | None => Ok (say (FailToParse args) k)
      | Some o =>
          if count o "help" then Ok (say (HelpOf "sparql") k)
          else if negb (xorb (count o "-f") (count o "-b")) then Ok (say (FailToParse args) k)
          else if count o "-f" then run_single o args k
          else
            fname ← as_string o "-b";
            match file_lines fname with
            | None => Ok (say (FailToParse args) (say (Missing fname) k))
            | Some lines =>
                foldM (λ k line,
                  match cmd2args line with
                  | "sparql" :: "-f" :: _ :: _ => run_sparql depth (cmd2args line) k
                  | _ => Ok (say (SkippedLine line) k) (* skip and go on *)
                  end) k lines
            end
      end
  end.

(** *** [run_sparql_emu] *)

Context (rounds fuel waits : nat).

(** on the master the monitors of all others are merged *)
Definition merge_others (n : nat) (m : Monitor) (k : console) : outcome (Monitor * console) :=
  foldM (λ '(m, k) _, '(other, k) ← recv_monitor k; Ok (merge to_float m other, k)) (m, k) (seq 0 n).

Definition run_sparql_emu (args : list string) (k : console) : outcome console :=
  match parse_command_line "sparql-emu" args with
  | None => Ok (say (FailToParse args) k)
  | Some o =>
      if count o "help" then Ok (note_if (MASTER k) (HelpOf "sparql-emu") k)
      else if negb (count o "-f") then Ok (say (FailToParse args) k)
      else
        fname ← as_string o "-f";
        match file_emu fname with
        | None => Ok (say (FailToParse args) (say (Missing fname) k))
        | Some c =>
            duration ← as_int o "-d"; warmup ← as_int o "-w"; pfactor ← as_int o "-p";
            if (duration <=? 0) || (warmup <? 0) || (pfactor <=? 0) then Ok (say (FailToParse args) k)
            else if duration <=? warmup then Ok (say (FailToParse args) k)
            else
              let s := k_settings k in
              '(_, (m, t), p) ← @run_query_emu (core s) _ _ _ to_float str_server (global_enable_planner s) rand_r recv tryrecv statistic file_text
                                  rounds fuel waits c duration warmup pfactor (new_monitor) (k_clock k) (k_proxy k);
              let k := MkConsole s p t (k_in k) (k_out k) (k_sends k) (k_stats k) (k_log k) in
              if MASTER k then
                '(m, k) ← merge_others (Z.to_nat (num_servers k * num_proxies k - 1)) m k;
                table ← print_cdf scale (aggregate umap_iter m);
                Ok (say (Latencies table) k)
              else Ok (console_send 0 0 (inr m) k)
        end
  end.

(** *** Loading, checking and statistics *)

Definition with_slash (dname : string) : outcome string :=
  match String.get (String.length dname - 1) dname with
  | None => Err Undefined
  | Some c => Ok (if Ascii.eqb c "/" then dname else dname +:+ "/")
  end.

Definition run_load (args : list string) (k : console) : outcome console :=
  if negb (MASTER k) then Ok k
  else if negb dynamic then Ok (say StaticStore k)
  else match parse_command_line "load" args with
  | None => Ok (say (FailToParse args) k)
  | Some o =>
      if count o "help" then Ok (say (HelpOf "load") k)
      else if negb (count o "-d") then Ok (say (FailToParse args) k)
      else
        dname ← as_string o "-d"; dname ← with_slash dname;
        '(ret, p) ← load_data dname (count o "-c") (k_proxy k);
        Ok (say (if ret =? 0 then LatencyOf else CommandFailed ret) (set_kproxy p k))
  end.

(** no option means both *)
Definition gsck_options (o : Options) : bool * bool :=
  if negb (count o "-i") && negb (count o "-n") then (true, true) else (count o "-i", count o "-n").

Definition run_gsck (args : list string) (k : console) : outcome console :=
  if negb (MASTER k) then Ok k
  else match parse_command_line "gsck" args with
  | None => Ok (say (FailToParse args) k)
  | Some o =>
      if count o "help" then Ok (say (HelpOf "gsck") k)
      else
        let '(i_enable, n_enable) := gsck_options o in
        '(ret, p) ← check_data i_enable n_enable (k_proxy k);
        Ok (say (if ret =? 0 then LatencyOf else CommandFailed ret) (set_kproxy p k))
  end.

(** the file named after the data set: the last folder of the input *)
Definition default_stat (s : Settings) : outcome string :=
  let strs := split_at "/" "" (global_input_folder s) in
  if (length strs <? 2)%nat then Err OutOfBounds
  else name ← read strs (length strs - 2); Ok (name +:+ ".statfile").

Definition stat_name (o : Options) (k : console) : outcome string :=
  if count o "-f" then as_string o "-f" else default_stat (k_settings k).

Definition run_load_stat (args : list string) (k : console) : outcome console :=
  if negb (LEADER k) then Ok k
  else match parse_command_line "load-stat" args with
  | None => Ok (say (FailToParse args) k)
  | Some o =>
      if count o "help" then Ok (note_if (MASTER k) (HelpOf "load-stat") k)
      else fname ← stat_name o k; Ok (use_stats false fname k)
  end.

Definition run_store_stat (args : list string) (k : console) : outcome console :=
  if negb (MASTER k) then Ok k
  else match parse_command_line "store-stat" args with
  | None => Ok (say (FailToParse args) k)
  | Some o =>
      if count o "help" then Ok (say (HelpOf "store-stat") k)
      else fname ← stat_name o k; Ok (use_stats true fname k)
  end.

(** *** [run_console] *)

(** the first line of the input that is not blank; without one the loop never ends *)
Fixpoint next_line (input : list string) : option (string * list string) :=
  match input with
  | [] => None
  | l :: input => if String.eqb (trim_head l) "" then next_line input else Some (l, input)
  end.

(** the line of the next command on the master: that of a one-shot command once, and then
    the end; or the next one of the input *)
Definition next_command (oneshot : option string) (once : bool) (input : list string) : option (string * bool * list string) :=
  match oneshot with
  | Some line => Some (if once then line else "quit", false, input)
  | None => '(line, input) ← next_line input; Some (line, once, input)
  end.

(** one command on one proxy, by its first word *)
Definition run_command (cmd : string) (k : console) : outcome console :=
  let args := cmd2args cmd in
  let keyword w := match args with [] => false | a :: _ => String.eqb a w end in
  if keyword "help" || keyword "h" then Ok (note_if (MASTER k) Help k)
  else if keyword "quit" || keyword "q" then if LEADER k then Err Exited else Ok k
  else if keyword "config" then run_config args k
  else if keyword "sparql" then run_sparql 2 args k
  else if keyword "sparql-emu" then run_sparql_emu args k
  else if keyword "load" then run_load args k
  else if keyword "gsck" then run_gsck args k
  else if keyword "load-stat" then run_load_stat args k
  else if keyword "store-stat" then run_store_stat args k
  else Ok (note_if (MASTER k) (FailToParse args) k).

(** the turn of the master: the command goes to all other proxies first *)
Definition all_proxies (k : console) : list (Z * Z) :=
  filter (λ '(i, j), ¬ (i = 0 ∧ j = 0)) (i ← seqZ 0 (num_servers k); j ← seqZ 0 (num_proxies k); [(i, j)]).
Definition master_turn (line : string) (k : console) : outcome console :=
  let cmd := trim line in
  run_command cmd (foldl (λ k '(i, j), console_send i j (inl cmd) k) k (all_proxies k)).
(** the turn of another proxy *)
Definition other_turn (k : console) : outcome console := '(cmd, k) ← recv_string k; run_command cmd k.

(** *** The consoles of a cluster *)

(** what a proxy keeps for itself *)
Record thread := MkThread {
  th_proxy : proxy;
  th_clock : nat;
  th_in : list con_msg;
  th_sends : nat;
  th_stats : list (bool * string);
  th_log : list note
}.
(** the globals of every server, which is one process, and the proxies as its threads *)
Record processes := MkProcesses { globals : gmap Z Settings; threads : gmap (Z * Z) thread }.

Definition enter (s : Settings) (t : thread) : console := MkConsole s (th_proxy t) (th_clock t) (th_in t) [] (th_sends t) (th_stats t) (th_log t).
Definition leave (k : console) : thread := MkThread (k_proxy k) (k_clock k) (k_in k) (k_sends k) (k_stats k) (k_log k).
Definition get_msg (m : con_msg) (t : thread) : thread :=
  MkThread (th_proxy t) (th_clock t) (th_in t ++ [m]) (th_sends t) (th_stats t) (th_log t).
Definition deliver (out : list (Z * Z * con_msg)) (ts : gmap (Z * Z) thread) : gmap (Z * Z) thread :=
  foldl (λ ts '(p, m), alter (get_msg m) p ts) ts out.

(** a proxy takes its turn: it reads and writes the globals of its server *)
Definition turn (line : string) (p : Z * Z) (c : processes) : outcome processes :=
  match globals c !! p.1, threads c !! p with
  | Some s, Some t =>
      let k := enter s t in
      k ← (if MASTER k then master_turn line k else other_turn k);
      Ok (MkProcesses (<[p.1 := k_settings k]> (globals c)) (deliver (k_out k) (<[p := leave k]> (threads c))))
  | _, _ => Err Undefined
  end.
End console.

(** ** Setting items everywhere *)

Definition plain (c : ascii) : Prop := is_space c = false ∧ c ≠ "="%char ∧ c ≠ "&"%char.
Fixpoint string_all (P : ascii → Prop) (s : string) : Prop := match s with String c s => P c ∧ string_all P s | EmptyString => True end.
(** the key or the value of an item *)
Definition item_word (s : string) : Prop := s ≠ "" ∧ string_all plain s.

Definition item_text (kv : string * string) : string := kv.1 +:+ "=" +:+ kv.2.
(** [item1=val1&item2=val2] *)
Fixpoint items_text (kvs : list (string * string)) : string :=
  match kvs with
  | [] => ""
  | [kv] => item_text kv
  | kv :: kvs => item_text kv +:+ "&" +:+ items_text kvs
  end.
Definition items_words (kvs : list (string * string)) : list string := kv ← kvs; [kv.1; kv.2].

Lemma append_cons c s t : String c s +:+ t = String c (s +:+ t).
Proof. done. Qed.

Lemma words_from_plain w s rest : string_all plain s → words_from w (s +:+ rest) = words_from (w +:+ s) rest.
Proof.
  revert w. induction s as [|c s IH]; intros w; [by rewrite append_nil|]. intros [(Hc & _ & _) Hs]. rewrite append_cons. cbn [words_from]. rewrite Hc, IH by done.
  f_equal. by rewrite append_assoc.
Qed.

Lemma args2str_plain s rest : string_all plain s → args2str (s +:+ rest) = s +:+ args2str rest.
Proof.
  induction s as [|c s IH]; intros Hs; [done|]. destruct Hs as [(_ & H1 & H2) Hs]. rewrite !append_cons. cbn [args2str]. rewrite IH by done.
  by rewrite (proj2 (Ascii.eqb_neq _ _) H1), (proj2 (Ascii.eqb_neq _ _) H2).
Qed.

Lemma words_item w rest : item_word w → words (w +:+ String " " rest) = w :: words rest.
Proof.
  intros [Hne Hw]. unfold words. rewrite words_from_plain by done. cbn [words_from]. change (is_space " ") with true. cbn iota.
  change ("" +:+ w) with w. by rewrite (proj2 (String.eqb_neq _ _) Hne).
Qed.
Lemma words_last w : item_word w → words w = [w].
Proof.
  intros [Hne Hw]. unfold words. rewrite <-(append_nil w) at 1. rewrite words_from_plain by done. cbn [words_from]. change ("" +:+ w) with w. by rewrite (proj2 (String.eqb_neq _ _) Hne).
Qed.

Lemma args2str_item k v rest : item_word k → item_word v → args2str (k +:+ String "=" (v +:+ rest)) = k +:+ String " " (v +:+ args2str rest).
Proof. intros [_ Hk] [_ Hv]. rewrite args2str_plain by done. f_equal. cbn [args2str]. change (Ascii.eqb "=" "=") with true. cbn [orb]. by rewrite args2str_plain. Qed.

Definition items_ok (kvs : list (string * string)) : Prop := Forall (λ kv, item_word kv.1 ∧ item_word kv.2) kvs.

Lemma items_read kvs : kvs ≠ [] → items_ok kvs → words (args2str (items_text kvs)) = items_words kvs.
Proof.
  intros Hne Hok. induction Hok as [|[k v] kvs [Hk Hv] Hok IH]; [done|]. cbn [fst snd] in *. destruct kvs as [|kv kvs].
  - cbn [items_text]. unfold item_text. cbn [fst snd]. change ("=" +:+ v) with (String "=" v). rewrite <-(append_nil v) at 1. rewrite args2str_item by done. cbn [args2str]. rewrite append_nil, words_item, words_last by done. done.
  - change (items_text ((k, v) :: kv :: kvs)) with (item_text (k, v) +:+ String "&" (items_text (kv :: kvs))). unfold item_text. cbn [fst snd].
    change ("=" +:+ v) with (String "=" v). rewrite append_assoc, append_cons. rewrite args2str_item by done. cbn [args2str]. change (Ascii.eqb "&" "=" || Ascii.eqb "&" "&") with true. cbn iota.
    rewrite !words_item by done. rewrite IH by done. done.
Qed.

(** the items in their order: a later one replaces an earlier one *)
Definition items_of (kvs : list (string * string)) : Items := foldl (λ m kv, <[kv.1 := kv.2]> m) ∅ kvs.

Lemma pairs_items kvs m : pairs_to_items (items_words kvs) m = foldl (λ m kv, <[kv.1 := kv.2]> m) m kvs.
Proof. revert m. induction kvs as [|[k v] kvs IH]; intros m; [done|]. apply IH. Qed.

Lemma str2items_read kvs : kvs ≠ [] → items_ok kvs → str2items (args2str (items_text kvs)) ∅ = items_of kvs.
Proof. intros Hne Hok. unfold str2items. by rewrite items_read, pairs_items. Qed.

(** *** The command line *)

Definition no_blank (c : ascii) : Prop := is_blank c = false.

Lemma string_all_app P s t : string_all P (s +:+ t) ↔ string_all P s ∧ string_all P t.
Proof. induction s as [|c s IH]; [cbn; tauto|]. rewrite append_cons. cbn. rewrite IH. tauto. Qed.
Lemma string_all_impl (P Q : ascii → Prop) s : (∀ c, P c → Q c) → string_all P s → string_all Q s.
Proof. intros HPQ. induction s as [|c s IH]; [done|]. intros [Hc Hs]. split; auto. Qed.

Lemma plain_no_blank c : plain c → no_blank c.
Proof.
  intros (Hc & _ & _). unfold no_blank, is_blank. destruct (Ascii.eqb c " ") eqn:E1; [apply Ascii.eqb_eq in E1 as ->; done|]. destruct (Ascii.eqb c "009") eqn:E2; [apply Ascii.eqb_eq in E2 as ->; done|]. done.
Qed.

Lemma items_no_blank kvs : items_ok kvs → string_all no_blank (items_text kvs).
Proof.
  induction 1 as [|[k v] kvs [[_ Hk] [_ Hv]] _ IH]; [done|]. cbn [fst snd] in *.
  assert (string_all no_blank (item_text (k, v))) as Hi.
  { unfold item_text. rewrite !string_all_app. split; [by eapply string_all_impl; [apply plain_no_blank|]|]. split; [by split|by eapply string_all_impl; [apply plain_no_blank|]]. }
  destruct kvs as [|kv kvs]; [exact Hi|]. change (items_text ((k, v) :: kv :: kvs)) with (item_text (k, v) +:+ String "&" (items_text (kv :: kvs))). rewrite string_all_app. split; [done|]. by split.
Qed.

Lemma split_rest w s : string_all no_blank s → split_at " " w s = [w +:+ s].
Proof.
  revert w. induction s as [|c s IH]; intros w; [by rewrite append_nil|]. intros [Hc Hs]. cbn [split_at].
  assert (Ascii.eqb c " " = false) as -> by (unfold no_blank, is_blank in Hc; by destruct (Ascii.eqb c " ")). rewrite IH by done. by rewrite append_assoc.
Qed.

Lemma trim_head_blank b s : string_all (λ c, is_blank c = true) b → trim_head (b +:+ s) = trim_head s.
Proof. induction b as [|c b IH]; [done|]. intros [Hc Hb]. rewrite append_cons. cbn [trim_head]. rewrite Hc. by apply IH. Qed.
Lemma trim_tail_blank s b : string_all (λ c, is_blank c = true) b → trim_tail (s +:+ b) = trim_tail s.
Proof.
  intros Hb. induction s as [|c s IH]; [|rewrite append_cons; cbn [trim_tail]; by rewrite IH]. change ("" +:+ b) with b. induction b as [|c b IH]; [done|]. destruct Hb as [Hc Hb].
  cbn [trim_tail]. rewrite IH by done. by rewrite Hc.
Qed.
Lemma trim_tail_keep s t : t ≠ "" → string_all no_blank t → trim_tail (s +:+ t) = s +:+ t.
Proof.
  intros Hne Ht. assert (trim_tail t = t) as E.
  { clear Hne. induction t as [|c t IH]; [done|]. destruct Ht as [Hc Ht]. cbn [trim_tail]. rewrite IH, Hc by done. done. }
  induction s as [|c s IH]; [done|]. rewrite append_cons. cbn [trim_tail]. rewrite IH. assert (s +:+ t ≠ "") as Hn by (destruct s; [done|rewrite append_cons; done]).
  rewrite (proj2 (String.eqb_neq _ _) Hn). by rewrite andb_false_r.
Qed.

(** the line, between blanks *)
Definition config_line (b1 b2 : string) (kvs : list (string * string)) : string := b1 +:+ "config -s " +:+ items_text kvs +:+ b2.

Lemma items_text_ne kvs : kvs ≠ [] → items_ok kvs → items_text kvs ≠ "".
Proof.
  intros Hne Hok. destruct Hok as [|[k v] kvs [[Hk _] _] _]; [done|]. cbn [fst snd] in Hk. destruct k as [|c k]; [done|]. destruct kvs; cbn [items_text]; unfold item_text; cbn [fst snd]; rewrite append_cons; done.
Qed.

Lemma config_line_args b1 b2 kvs : string_all (λ c, is_blank c = true) b1 → string_all (λ c, is_blank c = true) b2 → kvs ≠ [] → items_ok kvs →
  cmd2args (trim (config_line b1 b2 kvs)) = ["config"; "-s"; items_text kvs] ∧ trim (config_line b1 b2 kvs) = "config -s " +:+ items_text kvs.
Proof.
  intros Hb1 Hb2 Hne Hok. assert (trim (config_line b1 b2 kvs) = "config -s " +:+ items_text kvs) as E.
  { unfold trim, config_line. rewrite trim_head_blank by done. change (trim_head ("config -s " +:+ items_text kvs +:+ b2)) with ("config -s " +:+ items_text kvs +:+ b2).
    rewrite <-append_assoc, trim_tail_blank by done. apply trim_tail_keep; [by apply items_text_ne|by apply items_no_blank]. }
  split; [|done]. rewrite E. unfold cmd2args. change (split_at " " "" ("config -s " +:+ items_text kvs)) with ("config" :: "-s" :: split_at " " "" (items_text kvs)).
  rewrite split_rest by (by apply items_no_blank). done.
Qed.

Section config.
  Context `{Adaptor} `{Clock} `{Double} (to_float : double → double) (str_server : String_Server).
  Context (rand_r : Z → Z * Z) (recv : net → outcome (SPARQLQuery * net)) (tryrecv : net → option SPARQLQuery * net).
  Context `{StdSort} (umap_iter : gmap Z req_stats → list (Z * req_stats)) (scale : Z → Z → Z).
  Context (statistic : data_statistic) (has_rdma : bool).
  Context (file_lines : string → option (list string)) (file_text : string → option string) (file_emu : string → option emu_config).
  Context (parse_command_line : string → list string → option Options) (con_room : Z * Z → nat → bool).
  Context (dynamic : bool) (load_data : string → bool → proxy → outcome (Z * proxy)) (check_data : bool → bool → proxy → outcome (Z * proxy)).
  Context (rounds fuel waits : nat).

Local Abbreviation take_turn := (turn to_float str_server rand_r recv tryrecv umap_iter scale statistic has_rdma file_lines file_text file_emu parse_command_line con_room dynamic load_data check_data rounds fuel waits).

(** the option -s with its argument *)
Hypothesis parse_s : ∀ t, t ≠ "" → string_all no_blank t → String.prefix "-" t = false →
  parse_command_line "config" ["config"; "-s"; t] = Some {["-s" := VStr t]}.

(** the settings with the items *)
Definition set_items (kvs : list (string * string)) (s : Settings) : outcome Settings :=
  s ← foldM (λ s '(k, v), '(_, s) ← set_mutable_config has_rdma s k v; Ok s) s (in_order (items_of kvs));
  Ok (set_core s (limit_mt (core s))).

Lemma reload_items kvs s : kvs ≠ [] → items_ok kvs → reload_config has_rdma s (args2str (items_text kvs)) = set_items kvs s.
Proof. intros Hne Hok. unfold reload_config. by rewrite str2items_read. Qed.

(** items that can be set in one state can be set in every other *)
Lemma mutable_total s s' k v r : set_mutable_config has_rdma s k v = Ok r → ∃ r', set_mutable_config has_rdma s' k v = Ok r'.
Proof. unfold set_mutable_config. cbv zeta. intros E. repeat (destruct (String.eqb k _); [first [by eexists|destruct (positive v); [by eexists|discriminate E]]|]). by eexists. Qed.

Lemma set_items_total kvs s s' r : set_items kvs s = Ok r → ∃ r', set_items kvs s' = Ok r'.
Proof.
  unfold set_items. generalize (in_order (items_of kvs)). intros l (s1 & E & _)%bind_Ok. revert s s' E. induction l as [|[k v] l IH]; intros s s'; [by eexists|]. cbn [foldM].
  intros (s2 & ([b1 s3] & E1 & _)%bind_Ok & E2)%bind_Ok. destruct (mutable_total s s' k v _ E1) as [[b s4] ->]. cbn [mbind outcome_bind]. by apply (IH s2 s4).
Qed.

(** of the messages that a console sends one after the other, those that find room *)
Fixpoint took (room : nat → bool) (n : nat) (ms : list (Z * Z * con_msg)) : list (Z * Z * con_msg) :=
  match ms with
  | [] => []
  | x :: ms => (if room n then [x] else []) ++ took room (S n) ms
  end.

Definition room_of (k : console) : nat → bool := con_room (p_sid (k_proxy k), p_tid (k_proxy k)).

Definition send_all (ms : list (Z * Z * con_msg)) (k : console) : console :=
  MkConsole (k_settings k) (k_proxy k) (k_clock k) (k_in k) (k_out k ++ took (room_of k) (k_sends k) ms) (k_sends k + length ms) (k_stats k) (k_log k).

Lemma send_all_fold {A} (f : A → Z * Z) l m k : foldl (λ k a, console_send con_room (f a).1 (f a).2 m k) k l = send_all ((λ a, (f a, m)) <$> l) k.
Proof.
  revert k. induction l as [|a l IH]; intros k; cbn [foldl fmap list_fmap].
  - destruct k. unfold send_all. cbn. by rewrite app_nil_r, Nat.add_0_r.
  - rewrite IH. unfold send_all, console_send, room_of. cbn. f_equal; [|lia]. destruct (con_room _ _), (f a); cbn [app]; [by rewrite <-app_assoc|done].
Qed.

Lemma took_app room n ms1 ms2 : took room n (ms1 ++ ms2) = took room n ms1 ++ took room (n + length ms1) ms2.
Proof. revert n. induction ms1 as [|x ms1 IH]; intros n; cbn; [by rewrite Nat.add_0_r|]. rewrite IH, app_assoc. do 2 f_equal. lia. Qed.
Lemma took_sublist room n ms : took room n ms `sublist_of` ms.
Proof. revert n. induction ms as [|x ms IH]; intros n; cbn; [done|]. destruct (room n); cbn; [by apply sublist_skip|by apply sublist_cons]. Qed.
Lemma took_all room n ms : (∀ q, room q = true) → took room n ms = ms.
Proof. intros Hr. revert n. induction ms as [|x ms IH]; intros n; cbn; [done|]. by rewrite Hr, IH. Qed.

(** what has come for a proxy *)
Definition sent_to (out : list (Z * Z * con_msg)) (p : Z * Z) : list con_msg := snd <$> filter (λ m, m.1 = p) out.

Lemma sent_to_app o1 o2 p : sent_to (o1 ++ o2) p = sent_to o1 p ++ sent_to o2 p.
Proof. unfold sent_to. by rewrite filter_app, fmap_app. Qed.
Lemma sent_to_cons q m o p : sent_to ((q, m) :: o) p = (if decide (q = p) then [m] else []) ++ sent_to o p.
Proof. unfold sent_to. rewrite filter_cons. cbn [fst]. by destruct (decide (q = p)). Qed.
Lemma sent_to_sublist o1 o2 p : o1 `sublist_of` o2 → sent_to o1 p `sublist_of` sent_to o2 p.
Proof.
  induction 1 as [|[q m] o1 o2 _ IH|[q m] o1 o2 _ IH]; [done|rewrite !sent_to_cons; by apply sublist_app|rewrite sent_to_cons; by apply sublist_inserts_l].
Qed.

Lemma sent_to_each l m p : NoDup l → sent_to ((λ q, (q, m)) <$> l) p = if bool_decide (p ∈ l) then [m] else [].
Proof.
  intros Hnd. induction Hnd as [|q l Hq Hnd IH]; [done|]. cbn [fmap list_fmap]. rewrite sent_to_cons, IH. destruct (decide (q = p)) as [->|Hne].
  - rewrite bool_decide_false by done. by rewrite bool_decide_true by left.
  - rewrite (bool_decide_ext (p ∈ q :: l) (p ∈ l)); [done|]. rewrite elem_of_cons. split; [intros [->|]; done|by right].
Qed.

(** where the items go *)
Definition leaders (k : console) : list (Z * Z) := (λ i, (Z.of_nat i, 0)) <$> seq 1 (Z.to_nat (num_servers k) - 1).

Lemma all_proxies_elem k i j : (i, j) ∈ all_proxies k ↔ 0 <= i < num_servers k ∧ 0 <= j < num_proxies k ∧ ¬ (i = 0 ∧ j = 0).
Proof.
  unfold all_proxies. rewrite list_elem_of_filter. setoid_rewrite list_elem_of_bind. setoid_rewrite list_elem_of_bind. setoid_rewrite elem_of_seqZ. setoid_rewrite list_elem_of_singleton. split.
  - intros (Hn & i' & (j' & [= -> ->] & Hj) & Hi). split; [lia|]. split; [lia|done].
  - intros (Hi & Hj & Hn). split; [done|]. exists i. split; [|lia]. exists j. split; [done|lia].
Qed.

Lemma all_proxies_once k : NoDup (all_proxies k).
Proof.
  unfold all_proxies. apply NoDup_filter. generalize (NoDup_seqZ 0 (num_servers k)). generalize (seqZ 0 (num_servers k)). intros l Hl. induction Hl as [|i l Hi _ IH]; [constructor|]. cbn.
  apply NoDup_app. split; [|split; [|done]].
  - clear IH. generalize (NoDup_seqZ 0 (num_proxies k)). generalize (seqZ 0 (num_proxies k)). intros lj Hlj. induction Hlj as [|j lj Hj _ IHj]; [constructor|]. cbn. constructor; [|done]. by intros (j' & [= ->]%list_elem_of_singleton & ?)%list_elem_of_bind.
  - intros [i' j'] (j1 & [= -> ->]%list_elem_of_singleton & _)%list_elem_of_bind (i1 & (j2 & [= -> ->]%list_elem_of_singleton & _)%list_elem_of_bind & Hl)%list_elem_of_bind. done.
Qed.

Lemma leaders_elem k i j : (i, j) ∈ leaders k ↔ 0 < i < num_servers k ∧ j = 0.
Proof.
  unfold leaders. rewrite list_elem_of_fmap. setoid_rewrite elem_of_seq. split.
  - intros (n & [= -> ->] & Hn). lia.
  - intros [Hi ->]. exists (Z.to_nat i). split; [f_equal; lia|lia].
Qed.

Lemma leaders_once k : NoDup (leaders k).
Proof. unfold leaders. apply NoDup_fmap_2; [intros a b [= ?]; lia|apply NoDup_seq]. Qed.

(** the messages that wait for a proxy *)
Definition mail (c : processes) (p : Z * Z) : list con_msg := match threads c !! p with Some t => th_in t | None => [] end.

Lemma deliver_mail out ts p : deliver out ts !! p = (λ t, foldl (λ t m, get_msg m t) t (sent_to out p)) <$> ts !! p.
Proof.
  revert ts. induction out as [|[q m] out IH]; intros ts; [cbn; by destruct (ts !! p)|]. cbn [deliver foldl]. fold (deliver out (alter (get_msg m) q ts)). rewrite IH, sent_to_cons.
  destruct (decide (q = p)) as [->|Hne]; [rewrite lookup_alter_eq|rewrite lookup_alter_ne by done]; by destruct (ts !! p).
Qed.
Section command.
  Context (b1 b2 : string) (kvs : list (string * string)).
  Hypothesis blanks_before : string_all (λ c, is_blank c = true) b1.
  Hypothesis blanks_after : string_all (λ c, is_blank c = true) b2.
  Hypothesis some_items : kvs ≠ [].
  Hypothesis words_ok : items_ok kvs.
  Hypothesis no_option : String.prefix "-" (items_text kvs) = false.

Local Abbreviation cmd := ("config -s " +:+ items_text kvs).
Local Abbreviation items := (args2str (items_text kvs)).
Local Abbreviation run_cmd := (run_command to_float str_server rand_r recv tryrecv umap_iter scale statistic has_rdma file_lines file_text file_emu parse_command_line con_room dynamic load_data check_data rounds fuel waits cmd).

Lemma cmd_args : cmd2args cmd = ["config"; "-s"; items_text kvs].
Proof. destruct (config_line_args b1 b2 kvs) as [E1 E2]; [done..|]. by rewrite E2 in E1. Qed.

Lemma command_config k : run_cmd k = run_config has_rdma file_lines parse_command_line con_room ["config"; "-s"; items_text kvs] k.
Proof. unfold run_command. by rewrite cmd_args. Qed.

Lemma parsed : parse_command_line "config" ["config"; "-s"; items_text kvs] = Some {["-s" := VStr (items_text kvs)]}.
Proof. apply parse_s; [by apply items_text_ne|by apply items_no_blank|done]. Qed.

Lemma args_not_empty : String.eqb (args2str (items_text kvs)) "" = false.
Proof. apply String.eqb_neq. pose proof (items_text_ne kvs some_items words_ok) as Hn. by destruct (items_text kvs). Qed.

(** the options of the command *)
Ltac given_items :=
  change (count {["-s" := VStr (items_text kvs)]} "help") with false; change (count {["-s" := VStr (items_text kvs)]} "-v") with false;
  change (count {["-s" := VStr (items_text kvs)]} "-l") with false; change (count {["-s" := VStr (items_text kvs)]} "-s") with true; cbn [negb xorb]; cbn iota.

Lemma config_master k : MASTER k = true → run_cmd k =
  s ← set_items kvs (k_settings k); Ok (set_settings s (send_all ((λ p, (p, inl items)) <$> leaders k) k)).
Proof.
  intros Hm. rewrite command_config. unfold run_config. assert (LEADER k = true) as -> by (unfold MASTER in Hm; by apply andb_prop in Hm as [_ Hl]). cbn [negb]. rewrite parsed, Hm. given_items.
  assert (config_items file_lines {["-s" := VStr (items_text kvs)]} = Ok (items, [])) as -> by done. cbn [mbind outcome_bind foldl].
  rewrite args_not_empty. cbn [negb]. rewrite (send_all_fold (λ i : nat, (Z.of_nat i, 0))). cbn [k_settings send_all]. rewrite reload_items by done. unfold leaders. by rewrite <-list_fmap_compose.
Qed.

Lemma config_leader k rest : MASTER k = false → LEADER k = true → k_in k = inl (args2str (items_text kvs)) :: rest → run_cmd k =
  s ← set_items kvs (k_settings k); Ok (MkConsole s (k_proxy k) (k_clock k) rest (k_out k) (k_sends k) (k_stats k) (k_log k)).
Proof.
  intros Hm Hl Hi. rewrite command_config. unfold run_config. rewrite Hl, parsed, Hm. cbn [negb]. given_items. unfold recv_string, console_recv. rewrite Hi. cbn [mbind outcome_bind k_settings]. rewrite args_not_empty. cbn [negb]. by rewrite reload_items.
Qed.

Lemma config_others k : LEADER k = false → run_cmd k = Ok k.
Proof. intros Hl. rewrite command_config. unfold run_config. by rewrite Hl. Qed.

Lemma config_waits k : MASTER k = false → LEADER k = true → k_in k = [] → run_cmd k = Err OutOfFuel.
Proof. intros Hm Hl Hi. rewrite command_config. unfold run_config. rewrite Hl, parsed, Hm. cbn [negb]. given_items. unfold recv_string, console_recv. by rewrite Hi. Qed.

Lemma send_commands m k : foldl (λ k '(i, j), console_send con_room i j m k) k (all_proxies k) = send_all ((λ p, (p, m)) <$> all_proxies k) k.
Proof.
  pose proof (send_all_fold id (all_proxies k) m k) as E. unfold id in E. rewrite <-E. generalize (all_proxies k). intros l. generalize k. clear.
  induction l as [|[i j] l IH]; intros k0; [done|]. apply IH.
Qed.

(** *** The turns *)

Definition with_mail (ms : list con_msg) (t : thread) : thread := MkThread (th_proxy t) (th_clock t) ms (th_sends t) (th_stats t) (th_log t).
Definition is_at (t : thread) (p : Z * Z) : Prop := p_sid (th_proxy t) = p.1 ∧ p_tid (th_proxy t) = p.2.

Lemma get_msgs t ms : foldl (λ t m, get_msg m t) t ms = with_mail (th_in t ++ ms) t.
Proof. revert t. induction ms as [|m ms IH]; intros t; [destruct t; cbn; by rewrite app_nil_r|]. cbn [foldl]. rewrite IH. unfold with_mail, get_msg. cbn. by rewrite <-app_assoc. Qed.

Lemma roles s t p : is_at t p → MASTER (enter s t) = bool_decide (p = (0, 0)) ∧ LEADER (enter s t) = (p.2 =? 0).
Proof.
  destruct p as [i j]. intros [Hi Hj]. unfold MASTER, LEADER. cbn in *. rewrite Hi, Hj. split; [|done]. case_bool_decide as Hp; [by injection Hp as -> ->|].
  destruct (Z.eqb_spec i 0) as [->|], (Z.eqb_spec j 0) as [->|]; done.
Qed.

Lemma turn_leader line c p s t s' : globals c !! p.1 = Some s → threads c !! p = Some t → is_at t p → p ≠ (0, 0) → p.2 = 0 →
  th_in t = [inl cmd; inl items] → set_items kvs s = Ok s' →
  take_turn line p c = Ok (MkProcesses (<[p.1 := s']> (globals c)) (<[p := with_mail [] t]> (threads c))).
Proof.
  intros Es Et Hat Hne Hj Hin Hs. unfold turn. rewrite Es, Et. cbv zeta. destruct (roles s t p Hat) as [Hm Hl]. rewrite bool_decide_false in Hm by done. rewrite Hm. rewrite Hj in Hl.
  unfold other_turn, recv_string, console_recv. cbn [k_in enter]. rewrite Hin. cbn [mbind outcome_bind].
  rewrite (config_leader _ []) by done. cbn [k_settings enter]. rewrite Hs. done.
Qed.

Lemma turn_other line c p s t : globals c !! p.1 = Some s → threads c !! p = Some t → is_at t p → p.2 ≠ 0 → th_in t = [inl cmd] →
  take_turn line p c = Ok (MkProcesses (<[p.1 := s]> (globals c)) (<[p := with_mail [] t]> (threads c))).
Proof.
  intros Es Et Hat Hj Hin. unfold turn. rewrite Es, Et. cbv zeta. destruct (roles s t p Hat) as [Hm Hl]. rewrite bool_decide_false in Hm by (by intros ->). rewrite Hm.
  rewrite (proj2 (Z.eqb_neq _ _) Hj) in Hl. unfold other_turn, recv_string, console_recv. cbn [k_in enter]. rewrite Hin. cbn [mbind outcome_bind]. by rewrite config_others.
Qed.

Lemma turn_waits line c p s t : globals c !! p.1 = Some s → threads c !! p = Some t → is_at t p → p ≠ (0, 0) → th_in t = [] ∨ p.2 = 0 ∧ th_in t = [inl cmd] →
  take_turn line p c = Err OutOfFuel.
Proof.
  intros Es Et Hat Hne Hin. unfold turn. rewrite Es, Et. cbv zeta. destruct (roles s t p Hat) as [Hm Hl]. rewrite bool_decide_false in Hm by done. rewrite Hm.
  unfold other_turn, recv_string, console_recv. cbn [k_in enter]. destruct Hin as [->|[Hj ->]]; [done|]. rewrite Hj in Hl. cbn [mbind outcome_bind]. by rewrite config_waits.
Qed.

(** what the master sends, in this order *)
Definition commands (k : console) : list (Z * Z * con_msg) := ((λ p, (p, inl cmd)) <$> all_proxies k) ++ ((λ p, (p, inl items)) <$> leaders k).

Lemma turn_master c s t s' : globals c !! 0 = Some s → threads c !! (0, 0) = Some t → is_at t (0, 0) → set_items kvs s = Ok s' →
  ∃ n, take_turn (config_line b1 b2 kvs) (0, 0) c = Ok (MkProcesses (<[0 := s']> (globals c))
    (deliver (took (con_room (0, 0)) (th_sends t) (commands (enter s t))) (<[(0, 0) := MkThread (th_proxy t) (th_clock t) (th_in t) n (th_stats t) (th_log t)]> (threads c)))).
Proof.
  intros Es Et Hat Hs. unfold turn. cbn [fst]. rewrite Es, Et. cbv zeta. destruct (roles s t _ Hat) as [Hm _]. rewrite bool_decide_true in Hm by done. rewrite Hm. destruct (config_line_args b1 b2 kvs) as [_ El]; [done..|].
  unfold master_turn. rewrite El, send_commands. rewrite config_master by exact Hm. cbn [k_settings send_all enter]. rewrite Hs. cbn [mbind outcome_bind].
  eexists. unfold leave, set_settings, send_all, commands, room_of. cbn [k_settings k_proxy k_clock k_in k_out k_sends k_stats k_log enter app]. rewrite took_app.
  destruct Hat as [-> ->]. reflexivity.
Qed.

(** what a proxy is to get *)
Definition owed (p : Z * Z) : list con_msg := inl cmd :: (if p.2 =? 0 then [inl items] else []).

Lemma commands_to k p : 0 <= p.1 < num_servers k → 0 <= p.2 < num_proxies k → p ≠ (0, 0) → sent_to (commands k) p = owed p.
Proof.
  intros Hi Hj Hne. unfold commands. rewrite sent_to_app, !sent_to_each by (apply all_proxies_once || apply leaders_once). destruct p as [i j]. cbn [fst snd] in *.
  assert (¬ (i = 0 ∧ j = 0)) by (by intros [-> ->]). rewrite bool_decide_true by (by apply all_proxies_elem). unfold owed. cbn [app snd]. f_equal.
  destruct (Z.eqb_spec j 0); [rewrite bool_decide_true by (apply leaders_elem; lia)|rewrite bool_decide_false by (rewrite leaders_elem; lia)]; done.
Qed.
(** *** All turns of a command *)

Definition others (n m : Z) (p : Z * Z) : Prop := 0 <= p.1 < n ∧ 0 <= p.2 < m ∧ p ≠ (0, 0).

(** the cluster between two commands: [n] servers with [m] proxies each, no message under way *)
Record idle (n m : Z) (c : processes) : Prop := {
  idle_proxies : 0 < m;
  idle_globals : ∀ i, is_Some (globals c !! i) ↔ 0 <= i < n;
  idle_threads : ∀ p, is_Some (threads c !! p) ↔ 0 <= p.1 < n ∧ 0 <= p.2 < m;
  idle_at : ∀ p t, threads c !! p = Some t → is_at t p ∧ th_in t = [];
  idle_master : ∀ s, globals c !! 0 = Some s → @global_num_servers (core s) = n ∧ @global_num_proxies (core s) = m
}.

(** the master has had its turn and the proxies of [l] theirs *)
Record served (n m : Z) (c c1 : processes) (l : list (Z * Z)) (c2 : processes) : Prop := {
  sv_globals : ∀ i s, globals c !! i = Some s → ∃ s', globals c2 !! i = Some s' ∧ (if decide (i = 0 ∨ (i, 0) ∈ l) then set_items kvs s = Ok s' else s' = s);
  sv_done : ∀ p, p ∈ l → mail c2 p = [];
  sv_rest : ∀ p, p ∉ l → threads c2 !! p = threads c1 !! p
}.

(** the turn of one more of them *)
Lemma serve_next n m c c1 l c2 p line s0 s1 : idle n m c → (∀ p t, threads c1 !! p = Some t → is_at t p) → (∀ p, is_Some (threads c1 !! p) ↔ is_Some (threads c !! p)) →
  set_items kvs s0 = Ok s1 → served n m c c1 l c2 → others n m p → p ∉ l → mail c1 p = owed p →
  ∃ c3, take_turn line p c2 = Ok c3 ∧ served n m c c1 (l ++ [p]) c3.
Proof.
  intros Hid Hat Hdom Hs0 [Hg Hd Hr] (Hi & Hj & Hne) Hl Hm. destruct (proj2 (idle_globals _ _ _ Hid p.1) Hi) as [s Es]. destruct (Hg _ _ Es) as (s' & Es' & Hs').
  destruct (proj2 (Hdom p) (proj2 (idle_threads _ _ _ Hid p) (conj Hi Hj))) as [t Et]. unfold mail in Hm. rewrite Et in Hm. rewrite <-(Hr _ Hl) in Et.
  pose proof (Hat p t ltac:(by rewrite <-Hr)) as Hp.
  set (next := λ s2, MkProcesses (<[p.1 := s2]> (globals c2)) (<[p := with_mail [] t]> (threads c2))).
  assert (Hnext : ∃ s2, take_turn line p c2 = Ok (next s2) ∧ (if decide (p.2 = 0) then set_items kvs s' = Ok s2 else s2 = s')).
  { unfold owed in Hm. destruct (decide (p.2 = 0)) as [Ej|Ej].
    - rewrite Ej in Hm. destruct (set_items_total kvs s0 s' _ Hs0) as [s2 Hs2]. exists s2. split; [by apply (turn_leader line c2 p s' t s2)|done].
    - rewrite (proj2 (Z.eqb_neq _ _) Ej) in Hm. exists s'. split; [by apply turn_other|done]. }
  destruct Hnext as (s2 & Hturn & Hs2). exists (next s2). split; [done|]. split.
  - intros i si Ei. unfold next. cbn [globals]. destruct (decide (i = p.1)) as [->|Hip].
    + rewrite lookup_insert_eq. exists s2. split; [done|]. rewrite Es in Ei. injection Ei as <-. destruct (decide (p.2 = 0)) as [Ej|Ej].
      * assert (p = (p.1, 0)) as Ep by (rewrite <-Ej; by destruct p). rewrite decide_True by (right; rewrite <-Ep, elem_of_app, list_elem_of_singleton; by right).
        rewrite decide_False in Hs' by (rewrite <-Ep; intros [E0|?]; [apply Hne; rewrite Ep; by rewrite E0|done]). by subst s'.
      * subst s2. destruct (decide _) as [Hin|Hin] in Hs'; [rewrite decide_True|rewrite decide_False]; [done| |done|].
        -- rewrite elem_of_app. tauto.
        -- rewrite elem_of_app, list_elem_of_singleton. intros [?|[?|Ep]]; [tauto..|]. apply Ej. by rewrite <-Ep.
    + rewrite lookup_insert_ne by done. destruct (Hg _ _ Ei) as (s3 & E3 & H3). exists s3. split; [done|]. destruct (decide _) as [Hin|Hin] in H3; [rewrite decide_True|rewrite decide_False]; [done| |done|].
      * rewrite elem_of_app. tauto.
      * rewrite elem_of_app, list_elem_of_singleton. intros [?|[?|Ep]]; [tauto..|]. apply Hip. by rewrite <-Ep.
  - intros q Hq. unfold mail, next. cbn [threads]. destruct (decide (q = p)) as [->|Hqp]; [by rewrite lookup_insert_eq|]. rewrite lookup_insert_ne by done.
    apply Hd. apply elem_of_app in Hq as [?|?%list_elem_of_singleton]; done.
  - intros q Hq. rewrite elem_of_app, list_elem_of_singleton in Hq. unfold next. cbn [threads]. rewrite lookup_insert_ne by (intros ->; apply Hq; by right). apply Hr. intros ?. apply Hq. by left.
Qed.
End command.

(** C34: setting items from the console of the master in a cluster of [n] servers with [m]
    proxies each. The settings are globals of a server, which its proxies share. The line
    [config -s item1=val1&item2=val2], between blanks, is cut into words and read as
    exactly these items, and the master sets them for its server, if their values are
    valid. It sends the command to all other proxies and the items to the first proxy of
    every other server; the network may refuse any of these messages, which nobody
    notices, but what comes is in order, and if it refuses none everything comes. Those
    proxies to which all has come may then take their turns in any order: all of them
    succeed, a server gets the items exactly once, by the turn of its first proxy, no
    other turn changes its settings, and no message is left. A proxy to which nothing has
    come, or the first proxy of a server with the command but not the items, still waits
    after that. A first proxy with the items only, which would take them for a command, is
    left open. *)
Theorem config_everywhere (b1 b2 : string) (kvs : list (string * string)) (n m : Z) (c : processes) (s s' : Settings) :
  string_all (λ c, is_blank c = true) b1 → string_all (λ c, is_blank c = true) b2 → kvs ≠ [] → items_ok kvs → String.prefix "-" (items_text kvs) = false →
  idle n m c → globals c !! 0 = Some s → set_items kvs s = Ok s' →
  ∃ c1, take_turn (config_line b1 b2 kvs) (0, 0) c = Ok c1 ∧
  globals c1 = <[0 := s']> (globals c) ∧
  (∀ p, others n m p → mail c1 p `sublist_of` owed kvs p ∧ ((∀ q, con_room (0, 0) q = true) → mail c1 p = owed kvs p)) ∧
  ∀ l line, NoDup l → (∀ p, p ∈ l → others n m p ∧ mail c1 p = owed kvs p) →
    ∃ c2, foldM (λ c p, take_turn line p c) c1 l = Ok c2 ∧
    (∀ i si, globals c !! i = Some si → ∃ si', globals c2 !! i = Some si' ∧ (if decide (i = 0 ∨ (i, 0) ∈ l) then set_items kvs si = Ok si' else si' = si)) ∧
    (∀ p, p ∈ l → mail c2 p = []) ∧
    ∀ p, others n m p → p ∉ l → mail c1 p = [] ∨ p.2 = 0 ∧ mail c1 p = [inl ("config -s " +:+ items_text kvs)] → take_turn line p c2 = Err OutOfFuel.
Proof.
  intros Hb1 Hb2 Hne Hok Hno Hid Es Hs. pose proof (idle_proxies _ _ _ Hid) as Hm. pose proof (proj1 (idle_globals _ _ _ Hid 0) (mk_is_Some _ _ Es)) as Hn.
  destruct (proj2 (idle_threads _ _ _ Hid (0, 0)) (conj Hn (conj (Z.le_refl 0) Hm))) as [t Et]. destruct (idle_at _ _ _ Hid _ _ Et) as [Hat Hin].
  destruct (turn_master b1 b2 kvs Hb1 Hb2 Hne Hok Hno c s t s' Es Et Hat Hs) as [q ->]. set (out := took _ _ _). set (c1 := MkProcesses _ _). exists c1.
  assert (Hth : ∀ p, threads c1 !! p = (λ t, with_mail (th_in t ++ sent_to out p) t) <$> (<[(0, 0) := MkThread (th_proxy t) (th_clock t) (th_in t) q (th_stats t) (th_log t)]> (threads c) !! p)).
  { intros p. unfold c1. cbn [threads]. rewrite deliver_mail. destruct (_ !! p); [|done]. simpl. by rewrite get_msgs. }
  assert (Hoth : ∀ p, p ≠ (0, 0) → threads c1 !! p = with_mail (sent_to out p) <$> threads c !! p).
  { intros p Hp. rewrite Hth, lookup_insert_ne by done. destruct (threads c !! p) as [t0|] eqn:E0; [|done]. destruct (idle_at _ _ _ Hid _ _ E0) as [_ E1]. simpl. by rewrite E1. }
  assert (Hmail : ∀ p, others n m p → mail c1 p = sent_to out p).
  { intros p (Hi & Hj & Hp). unfold mail. rewrite (Hoth p Hp). by destruct (proj2 (idle_threads _ _ _ Hid p) (conj Hi Hj)) as [t0 ->]. }
  destruct (idle_master _ _ _ Hid s Es) as [En Em].
  assert (Hcmd : ∀ p, others n m p → sent_to (commands kvs (enter s t)) p = owed kvs p) by (intros p (Hi & Hj & Hp); apply commands_to; unfold num_servers, num_proxies; cbn; by rewrite ?En, ?Em).
  split; [done|]. split; [done|]. split.
  { intros p Hp. rewrite Hmail, <-Hcmd by done. split; [apply sent_to_sublist, took_sublist|]. intros Hr. unfold out. by rewrite took_all. }
  assert (Hat1 : ∀ p t, threads c1 !! p = Some t → is_at t p).
  { intros p t1. rewrite Hth, fmap_Some. intros (t0 & E0 & ->). destruct (decide (p = (0, 0))) as [->|Hp]; [rewrite lookup_insert_eq in E0; by injection E0 as <-|]. rewrite lookup_insert_ne in E0 by done.
    by destruct (idle_at _ _ _ Hid _ _ E0). }
  assert (Hdom : ∀ p, is_Some (threads c1 !! p) ↔ is_Some (threads c !! p)).
  { intros p. rewrite Hth, fmap_is_Some. destruct (decide (p = (0, 0))) as [->|Hp]; [rewrite lookup_insert_eq, Et|rewrite lookup_insert_ne by done]; [split; by eexists|done]. }
  intros l line Hnd Hl.
  assert (Hrun : ∀ done l c2, served kvs n m c c1 done c2 → NoDup (done ++ l) → (∀ p, p ∈ l → others n m p ∧ mail c1 p = owed kvs p) →
    ∃ c3, foldM (λ c p, take_turn line p c) c2 l = Ok c3 ∧ served kvs n m c c1 (done ++ l) c3).
  { clear -Hid Hat1 Hdom Hs Hb1 Hb2 Hne Hok Hno parse_s. intros done l. revert done. induction l as [|p l IH]; intros done c2 Hsv Hnd Hl; [exists c2; by rewrite app_nil_r|]. destruct (Hl p ltac:(by left)) as [Hp Hmp].
    destruct (serve_next b1 b2 kvs Hb1 Hb2 Hne Hok Hno n m c c1 done c2 p line s s') as (c3 & E3 & Hsv3); [done..| | |].
    { apply NoDup_app in Hnd as (_ & Hnd & _). intros Hin. apply (Hnd _ Hin). by left. }
    { done. }
    destruct (IH (done ++ [p]) c3 Hsv3) as (c4 & E4 & Hsv4); [by rewrite <-app_assoc|intros; apply Hl; by right|]. exists c4. cbn [foldM]. rewrite E3. cbn [mbind outcome_bind].
    split; [done|]. by rewrite <-app_assoc in Hsv4. }
  destruct (Hrun [] l c1) as (c2 & E2 & [Hg Hd Hr]); [|done|done|].
  { split; [|intros p Hp; by apply elem_of_nil in Hp|done]. intros i si Ei. unfold c1. cbn [globals]. destruct (decide (i = 0)) as [->|Hi0].
    - rewrite lookup_insert_eq. exists s'. split; [done|]. rewrite decide_True by (by left). congruence.
    - rewrite lookup_insert_ne by done. exists si. split; [done|]. rewrite decide_False; [done|]. rewrite elem_of_nil. tauto. }
  exists c2. split; [done|]. split; [exact Hg|]. split; [exact Hd|]. intros p (Hi & Hj & Hp) Hpl Hw.
  destruct (proj2 (idle_globals _ _ _ Hid p.1) Hi) as [si Ei]. destruct (Hg _ _ Ei) as (si' & Ei' & _). destruct (proj2 (Hdom p) (proj2 (idle_threads _ _ _ Hid p) (conj Hi Hj))) as [t1 Et1].
  unfold mail in Hw. rewrite Et1 in Hw. by apply (turn_waits b1 b2 kvs Hb1 Hb2 Hne Hok Hno line c2 p si' t1); [|rewrite Hr|apply Hat1|..].
Qed.
End config.

(** *** Two servers with two proxies each *)

Definition two_proxies : Settings := set_core default_settings (MkConfig 2 4 2 2 false true 2 300 false).

(** options come in pairs *)
Definition pair_options (cmd : string) (args : list string) : option Options :=
  match args with
  | [_; o; v] => Some {[o := VStr v]}
  | _ => None
  end.

(** the network refuses the third message of the master, the command for the last proxy *)
Definition third_refused (p : Z * Z) (q : nat) : bool := negb (q =? 2)%nat.

Local Abbreviation quiet f := (f open_network (λ n : nat, Z.of_nat n) some_double id empty_strings (λ s : Z, (s, s)) (λ n : list Message, Err OutOfFuel) (λ n : list Message, (None, n))
  insertion_std_sort map_to_list (λ n _, n) sample_stat false (λ _, None) (λ _, None) (λ _, None) pair_options third_refused false (λ _ _ p, Ok (0, p)) (λ _ _ p, Ok (0, p)) 1%nat 1%nat 1%nat) (only parsing).

Definition thread_of (i j : Z) : @thread open_network some_double := @MkThread open_network some_double (@MkProxy open_network i j (MkCoder i j 0) 0 [] []) 0 [] 0 [] [].
Definition two_by_two : @processes open_network some_double :=
  MkProcesses (<[0 := two_proxies]> {[1 := two_proxies]})
    (<[(0, 0) := thread_of 0 0]> (<[(0, 1) := thread_of 0 1]> (<[(1, 0) := thread_of 1 0]> {[(1, 1) := thread_of 1 1]}))).

Lemma two_by_two_idle : idle 2 2 two_by_two.
Proof.
  split; [done|..].
  - intros i. unfold two_by_two. cbn [globals]. rewrite lookup_insert_is_Some', lookup_singleton_is_Some. lia.
  - intros [i j]. unfold two_by_two. cbn [threads fst snd]. rewrite !lookup_insert_is_Some', lookup_singleton_is_Some. split.
    + intros [[= <- <-]|[[= <- <-]|[[= <- <-]|[= <- <-]]]]; lia.
    + intros [Hi Hj]. assert (i = 0 ∨ i = 1) as [-> | ->] by lia; assert (j = 0 ∨ j = 1) as [-> | ->] by lia; auto.
  - intros p t. unfold two_by_two. cbn [threads]. rewrite !lookup_insert_Some, lookup_singleton_Some. by intros [[<- <-]|[_ [[<- <-]|[_ [[<- <-]|[_ [<- <-]]]]]]].
  - intros s [= <-]. done.
Qed.

Definition some_settings : list (string * string) := [("global_silent", "0"); ("global_enable_caching", "0")].

(** both servers get the items, and the last proxy waits *)
Lemma config_everywhere_witness : ∃ c1 c2,
  quiet (@turn) "  config -s global_silent=0&global_enable_caching=0 " (0, 0) two_by_two = Ok c1 ∧
  foldM (λ c p, quiet (@turn) "" p c) c1 [(1, 0); (0, 1)] = Ok c2 ∧
  (global_silent <$> globals c2 !! 0, global_silent <$> globals c2 !! 1) = (Some false, Some false) ∧
  quiet (@turn) "" (1, 1) c2 = Err OutOfFuel.
Proof.
  destruct (set_items false some_settings two_proxies) as [s|] eqn:Es; [|vm_compute in Es; discriminate Es].
  destruct (quiet (@config_everywhere)) with (b1 := "  ") (b2 := " ") (kvs := some_settings) (n := 2) (m := 2) (c := two_by_two) (s := two_proxies) (s' := s) as (c1 & E1 & Eg & _ & Hall).
  - intros t _ _ _. reflexivity.
  - repeat split.
  - repeat split.
  - discriminate.
  - repeat constructor; discriminate.
  - reflexivity.
  - apply two_by_two_idle.
  - reflexivity.
  - exact Es.
  - exists c1. destruct (Hall [(1, 0); (0, 1)] "") as (c2 & E2 & Hs & _ & Hw).
    + clear. repeat constructor; set_solver.
    + clear -E1. vm_compute in E1. injection E1 as <-. intros p Hp. rewrite !elem_of_cons, elem_of_nil in Hp. destruct Hp as [->|[->|[]]]; by vm_compute.
    + exists c2. split; [exact E1|]. split; [exact E2|]. split.
      * destruct (Hs 0 two_proxies eq_refl) as (s0 & -> & H0). destruct (Hs 1 two_proxies eq_refl) as (s1 & -> & H1). rewrite decide_True in H0 by (clear; set_solver). rewrite decide_True in H1 by (clear; set_solver).
        rewrite Es in H0, H1. injection H0 as <-. injection H1 as <-. vm_compute in Es. injection Es as <-. reflexivity.
      * apply Hw; [clear; by vm_compute|clear; set_solver|]. left. vm_compute in E1. injection E1 as <-. reflexivity.
Defined.

(** A file of items is read with its comments, whose words are taken for items; at the start
    of the system they are left out. *)
Lemma comments_are_items :
  str2items (file2str ["# the switches"; "global_silent 0"]) ∅ !! "global_silent" = None ∧ file2items ["# the switches"; "global_silent 0"] ∅ !! "global_silent" = Some "0".
Proof. by vm_compute. Qed.
