(* ===== verification/Stat.v ===== *)
(** The statistics of the planner: [GStore::generate_statistic] of [core/gstore.hpp] counts
    the edges of one store, [gather_stat] of [core/data_statistic.hpp] adds up the counts
    of all servers.

    The counters are [int]s: [++] and [+=] on them must not overflow, adding the 64-bit
    size of an edge list wraps around. *)

From S2P Require Import Prelude Types Keys HashTable GStore Index Planner.
Local Open Scope Z_scope.

(** ** Counters *)

(** [if (m.find(k) == m.end()) m[k] = x; else m[k] += x;] for an [int] *)
Definition add_count (m : gmap Z Z) (k x : Z) : outcome (gmap Z Z) :=
  match m !! k with
  | None => Ok (<[k := x]> m)
  | Some y => z ← add_int y x; Ok (<[k := z]> m)
  end.

(** the same for a [uint64_t] size *)
Definition add_size (m : gmap Z Z) (k : Z) (sz : Z) : gmap Z Z :=
  <[k := match m !! k with None => i32 sz | Some y => i32 (y + sz) end]> m.

Record direct_p := MkDirect { dp_dir : dir_t; dp_p : Z }.

(** the counters of one server *)
Record local_stat := MkLocal {
  predicate_to_triple : gmap Z Z;
  predicate_to_subject : gmap Z Z;
  predicate_to_object : gmap Z Z;
  type_to_subject : gmap Z Z;
  correlations : gmap (Z * Z) four_num;
  id_to_predicate : gmap Z (list direct_p)
}.
Definition empty_local : local_stat := MkLocal ∅ ∅ ∅ ∅ ∅ ∅.

(** [ipcount[vid].push_back(...)] *)
Definition push_dir (m : gmap Z (list direct_p)) (v : Z) (d : direct_p) : gmap Z (list direct_p) :=
  <[v := default [] (m !! v) ++ [d]]> m.

(** ** One store *)

(** an object of a type triple *)
Definition stat_type (vid : Z) (st : local_stat) (obid : sid_t) : outcome local_stat :=
  let obid := i32 obid in
  tys ← add_count (type_to_subject st) obid 1;
  ps ← add_count (predicate_to_subject st) obid 1;
  Ok (MkLocal (predicate_to_triple st) ps (predicate_to_object st) tys (correlations st)
        (push_dir (id_to_predicate st) vid (MkDirect OUT obid))).

(** the body of the scan for a used slot *)
Definition stat_entry (st : local_stat) (k : ikey_t) (sz : Z) (vals : outcome (list sid_t)) : outcome local_stat :=
  let vid := i32 (u32 (k_vid k)) in
  let pid := i32 (u32 (k_pid k)) in
  if k_pid k =? PREDICATE_ID then Ok st
  else if k_dir k =? dir_val IN then
    po ← add_count (predicate_to_object st) pid 1;
    Ok (MkLocal (add_size (predicate_to_triple st) pid sz) (predicate_to_subject st) po (type_to_subject st) (correlations st)
          (push_dir (id_to_predicate st) vid (MkDirect IN pid)))
  else
    ps ← add_count (predicate_to_subject st) pid 1;
    let st := MkLocal (predicate_to_triple st) ps (predicate_to_object st) (type_to_subject st) (correlations st)
                (push_dir (id_to_predicate st) vid (MkDirect OUT pid)) in
    if k_pid k =? TYPE_ID then
      vals ← vals;
      foldM (stat_type vid) st vals
    else Ok st.

(** [for (i < ASSOCIATIVITY - 1)]: it goes on after an empty slot *)
Fixpoint stat_bucket (n : nat) (g : gstore) (st : local_stat) (slot_id : nat) : outcome local_stat :=
  match n with
  | O => Ok st
  | S n =>
      v ← read (vertices (hdr g)) slot_id;
      st ← (if Keys.is_empty (v_key v) then Ok st
            else stat_entry st (v_key v) (p_size (v_ptr v)) (read_edges g (Z.to_nat (p_off (v_ptr v))) (Z.to_nat (p_size (v_ptr v)))));
      stat_bucket n g st (S slot_id)
  end.

Definition scan_stat (g : gstore) : outcome local_stat :=
  foldM (λ st b, stat_bucket (ASSOCIATIVITY - 1) g st (b * ASSOCIATIVITY)) empty_local
    (seq 0 (num_buckets (hdr g) + num_buckets_ext (hdr g))).

Definition bump (x : Z) : outcome Z := add_int x 1.

(** two predicates at one vertex, the smaller one first *)
Definition count_pair (pp : gmap (Z * Z) four_num) (ab : direct_p * direct_p) : outcome (gmap (Z * Z) four_num) :=
  let '(a, b) := ab in
  let '(x, y) := if dp_p a <? dp_p b then (a, b) else (b, a) in
  let key := (dp_p x, dp_p y) in
  let f := default no_num (pp !! key) in
  match dp_dir x, dp_dir y with
  | OUT, OUT => z ← bump (out_out f); Ok (<[key := MkFour z (out_in f) (in_in f) (in_out f)]> pp)
  | OUT, IN => z ← bump (out_in f); Ok (<[key := MkFour (out_out f) z (in_in f) (in_out f)]> pp)
  | IN, IN => z ← bump (in_in f); Ok (<[key := MkFour (out_out f) (out_in f) z (in_out f)]> pp)
  | IN, OUT => z ← bump (in_out f); Ok (<[key := MkFour (out_out f) (out_in f) (in_in f) z]> pp)
  | _, _ => Ok pp
  end.

(** [for (i ...) for (j = i + 1 ...)] *)
Fixpoint pairs_of {A} (vec : list A) : list (A * A) :=
  match vec with [] => [] | a :: vec => ((λ b, (a, b)) <$> vec) ++ pairs_of vec end.

(** [iter_ids] is the order of the hash map *)
Definition correlate (iter_ids : gmap Z (list direct_p) → list (Z * list direct_p)) (st : local_stat) : outcome local_stat :=
  pp ← foldM (λ pp e, foldM count_pair pp (pairs_of e.2)) (correlations st) (iter_ids (id_to_predicate st));
  Ok (MkLocal (predicate_to_triple st) (predicate_to_subject st) (predicate_to_object st) (type_to_subject st) pp (id_to_predicate st)).

Definition generate_statistic (iter_ids : gmap Z (list direct_p) → list (Z * list direct_p)) (g : gstore) : outcome local_stat :=
  st ← scan_stat g; correlate iter_ids st.

(** ** All servers *)

Definition add_four (m : gmap (Z * Z) four_num) (k : Z * Z) (v : four_num) : outcome (gmap (Z * Z) four_num) :=
  match m !! k with
  | None => Ok (<[k := v]> m)
  | Some f =>
      a ← add_int (out_out f) (out_out v);
      b ← add_int (out_in f) (out_in v);
      c ← add_int (in_in f) (in_in v);
      d ← add_int (in_out f) (in_out v);
      Ok (<[k := MkFour a b c d]> m)
  end.

Definition empty_stat : data_statistic := MkStat ∅ ∅ ∅ ∅ ∅.

(** the order in which the hash maps are visited does not matter *)
Definition gather_one (g : data_statistic) (st : local_stat) : outcome data_statistic :=
  let add m l := foldM (λ m e, add_count m e.1 e.2) m (map_to_list l) in
  pt ← add (global_ptcount g) (predicate_to_triple st);
  ps ← add (global_pscount g) (predicate_to_subject st);
  po ← add (global_pocount g) (predicate_to_object st);
  pp ← foldM (λ m e, add_four m e.1 e.2) (global_ppcount g) (map_to_list (correlations st));
  ty ← add (global_tyscount g) (type_to_subject st);
  Ok (MkStat pt ps po ty pp).

(** [stats] are the messages of the servers, in the order of their arrival at the master *)
Definition gather_stat (stats : list local_stat) : outcome data_statistic :=
  g ← foldM gather_one empty_stat stats;
  triple ← foldM add_int 0 (snd <$> map_to_list (global_tyscount g));
  Ok (MkStat (<[1 := triple]> (global_ptcount g)) (global_pscount g)
        (<[1 := i32 (Z.of_nat (size (global_tyscount g)))]> (global_pocount g)) (global_tyscount g) (global_ppcount g)).
