(* ===== verification/StatOk.v ===== *)
(** The statistics are sound: predicates that occur together at a vertex of the data set
    have a positive count, so that the planner does not call a query with answers empty. *)

From S2P Require Import Prelude Types MyMath Keys HashTable GStore Runs Index IndexInsert EndToEnd.
From S2P Require Import Planner PlannerOk PlanEmpty PlanSound Stat.
Local Open Scope Z_scope.

(** ** The scan visits every stored pair once *)

Definition stat_pick (g : gstore) (s : nat) : option (ikey_t * list sid_t) :=
  match vertices (hdr g) !! s with
  | Some v => if Keys.is_empty (v_key v) then None else entry_of g s
  | None => None
  end.

Definition stat_entries (g : gstore) : list (ikey_t * list sid_t) :=
  omap (stat_pick g) (slots_of (seq 0 (num_buckets (hdr g) + num_buckets_ext (hdr g)))).

Definition step_entry (st : local_stat) (e : ikey_t * list sid_t) : outcome local_stat :=
  stat_entry st e.1 (Z.of_nat (length e.2)) (Ok e.2).

Definition used (vs : list vertex_t) (s : nat) : Prop := ∃ v, vs !! s = Some v ∧ v_key v ≠ empty_key.
#[export] Instance used_dec vs s : Decision (used vs s).
Proof.
  unfold used. destruct (vs !! s) as [v|]; [|right; by intros (? & ? & _)].
  destruct (decide (v_key v = empty_key)); [right; intros (? & ? & ?); congruence|left; eauto].
Defined.

Lemma stat_pick_used g s : stat_pick g s = if decide (used (vertices (hdr g)) s) then entry_of g s else None.
Proof.
  unfold stat_pick. destruct (vertices (hdr g) !! s) as [v|] eqn:E.
  - destruct (is_empty_spec (v_key v)) as [Hk|Hk]; case_decide as Hu; try done.
    + destruct Hu as (v' & ? & ?). congruence.
    + destruct Hu. by exists v.
  - case_decide as Hu; [|done]. by destruct Hu as (v & ? & _); congruence.
Qed.

Lemma omap_stat_pick g (sl : list nat) : omap (stat_pick g) sl = omap (entry_of g) (filter (used (vertices (hdr g))) sl).
Proof.
  induction sl as [|s sl IH]; [done|]. cbn [omap list_omap]. rewrite stat_pick_used. rewrite filter_cons. case_decide; simpl.
  - by destruct (entry_of g s); rewrite IH.
  - apply IH.
Qed.

Lemma used_rep g m kv s : gs_ok g m kv → s ∈ filter (used (vertices (hdr g))) (slots_of (seq 0 (num_buckets (hdr g) + num_buckets_ext (hdr g)))) ↔
  ∃ k, m !! k = Some s.
Proof.
  intros Hg. pose proof (gs_hdr _ _ _ Hg) as Hh. pose proof Hh as (ch & ky & Hok & Hm). rewrite list_elem_of_filter. split.
  - intros [(v & Hv & Hne) Hs]. unfold slots_of in Hs. apply list_elem_of_bind in Hs as (b & Hs & Hb). apply elem_of_seq in Hb.
    assert (Hk : key_at (vertices (hdr g)) s = Some (v_key v)) by (unfold key_at; by rewrite Hv).
    assert (b < num_buckets (hdr g) + last_ext (hdr g))%nat as Hlt; [|by eapply used_slot_key].
    destruct (decide (b < num_buckets (hdr g) + last_ext (hdr g))%nat); [done|]. exfalso.
    rewrite (ok_free _ _ _ Hok) in Hk; [congruence| |].
    + unfold data_slots in Hs. apply elem_of_seq in Hs. change ASSOCIATIVITY with 8%nat in *. lia.
    + rewrite <-(ok_len _ _ _ Hok). by eapply lookup_lt_Some.
  - intros Hk. pose proof Hk as Hk'. apply (elem_of_visited (hdr g) m _ s Hh (reflexivity _)) in Hk. unfold visited in Hk.
    apply list_elem_of_bind in Hk as (b & (j & Hj & Hall)%elem_of_used_slots & Hb). destruct (Hall j s) as (k' & Hkey & Hne); [done..|].
    unfold key_at in Hkey. destruct (vertices (hdr g) !! s) as [v|] eqn:Hv; [|done]. injection Hkey as <-. split; [by exists v|].
    unfold slots_of. apply list_elem_of_bind. exists b. split; [by eapply list_elem_of_lookup_2|]. apply elem_of_seq in Hb. apply elem_of_seq.
    pose proof (ok_ext _ _ _ Hok). lia.
Qed.

Lemma stat_entries_perm g kv : gs_rep g kv → stat_entries g ≡ₚ map_to_list kv.
Proof.
  intros [m Hg]. rewrite <-(scan_entries_perm g kv (seq 0 (num_buckets (hdr g) + last_ext (hdr g)))); [|by exists m|done].
  unfold stat_entries. rewrite omap_stat_pick. unfold scan_entries. apply omap_Permutation, NoDup_Permutation.
  - apply NoDup_filter, NoDup_slots_of, NoDup_seq.
  - apply NoDup_visited, NoDup_seq.
  - intros s. rewrite (used_rep g m kv s Hg). symmetry. by apply (elem_of_visited _ _ _ _ (gs_hdr _ _ _ Hg)).
Qed.

Lemma stat_bucket_entries g m kv st s n : gs_ok g m kv → (s + n <= length (vertices (hdr g)))%nat →
  (∀ t, t ∈ seq s n → used (vertices (hdr g)) t → ∃ k, m !! k = Some t) →
  stat_bucket n g st s = foldM step_entry st (omap (stat_pick g) (seq s n)).
Proof.
  intros Hg. revert s st. induction n as [|n IH]; intros s st Hl Hu; [done|]. cbn [stat_bucket seq omap list_omap].
  rewrite stat_pick_used. destruct (lookup_lt_is_Some_2 (vertices (hdr g)) s) as [v Hv]; [lia|]. rewrite (proj2 (read_Ok _ _ _) Hv). cbn [mbind outcome_bind].
  case_decide as Hd.
  - destruct (Hu s) as [k Hk]; [set_solver|done|]. destruct (entry_of_rep g m kv s k Hg Hk) as (v' & vals & Hv' & <- & _ & E1 & E2).
    rewrite Hv in Hv'. injection Hv' as <-. destruct Hd as (v0 & Hv0 & Hne). destruct (is_empty_spec (v_key v)); [congruence|].
    rewrite E2. cbn [foldM]. rewrite E1.
    assert (Hsz : p_size (v_ptr v) = Z.of_nat (length vals)).
    { destruct (gs_entry _ _ _ Hg (v_key v) s vals Hk) as (p & Hp & [Hsz _ _ _]); [|unfold ptr_at in Hp; rewrite Hv in Hp; by simplify_eq/=].
      assert (is_Some (kv !! v_key v)) as [vals' Hvals'] by (apply elem_of_dom; rewrite <-(gs_dom _ _ _ Hg); apply elem_of_dom; eauto).
      destruct (entry_of_rep g m kv s (v_key v) Hg Hk) as (? & ? & _ & _ & E3 & _ & E4). congruence. }
    rewrite Hsz. change (step_entry st (v_key v, vals)) with (stat_entry st (v_key v) (Z.of_nat (length vals)) (Ok vals)).
    destruct (stat_entry _ _ _ _) as [st'|]; simpl; [|done]. apply IH; [lia|]. intros t Ht. apply Hu. set_solver.
  - destruct (is_empty_spec (v_key v)) as [He|He]; [|destruct Hd; by exists v]. apply IH; [lia|]. intros t Ht. apply Hu. set_solver.
Qed.

Lemma scan_stat_entries g kv : gs_rep g kv → scan_stat g = foldM step_entry empty_local (stat_entries g).
Proof.
  intros [m Hg]. unfold scan_stat, stat_entries, slots_of. rewrite omap_bind, <-foldM_bind. apply foldM_ext. intros st b Hb. apply elem_of_seq in Hb.
  pose proof (gs_hdr _ _ _ Hg) as (ch & ky & Hok & _).
  apply (stat_bucket_entries g m kv st _ _ Hg).
  - pose proof (ok_len _ _ _ Hok). pose proof (ok_cap _ _ _ Hok). change ASSOCIATIVITY with 8%nat in *. lia.
  - intros t Ht Hu. apply (used_rep g m kv t Hg), list_elem_of_filter. split; [done|]. unfold slots_of. apply list_elem_of_bind. exists b. split; [done|].
    apply elem_of_seq. lia.
Qed.

(** ** Counters *)

Definition bounded (n : Z) (m : gmap Z Z) : Prop := ∀ k x, m !! k = Some x → 0 <= x <= n.

(** the sum of the counters *)
Definition total (m : gmap Z Z) : Z := foldr Z.add 0 (snd <$> map_to_list m).

#[export] Instance sum_perm : Proper ((≡ₚ) ==> (=)) (foldr Z.add 0).
Proof. intros l l' Hl. induction Hl; simpl; lia. Qed.

Lemma total_insert_new m k x : m !! k = None → total (<[k := x]> m) = x + total m.
Proof. intros Hk. unfold total. by rewrite map_to_list_insert. Qed.

Lemma total_insert m k x : total (<[k := x]> m) = x - default 0 (m !! k) + total m.
Proof.
  destruct (m !! k) as [y|] eqn:E; simpl; [|rewrite total_insert_new by done; lia].
  rewrite <-(insert_delete_id m k y E) at 2. rewrite <-insert_delete_eq.
  rewrite !total_insert_new by apply lookup_delete_eq. lia.
Qed.

Lemma add_int_ok a b : 0 <= a → 0 <= b → a + b <= int_max → add_int a b = Ok (a + b).
Proof. intros. unfold add_int. rewrite (proj2 (Z.leb_le (- int_max - 1) _)), (proj2 (Z.leb_le (a + b) _)); [done|lia|unfold int_max in *; lia]. Qed.

Lemma add_count_ok n m k : bounded n m → 0 <= n → n + 1 <= int_max →
  ∃ m', add_count m k 1 = Ok m' ∧ bounded (n + 1) m' ∧ total m' = total m + 1.
Proof.
  intros Hm Hn Hmax. unfold add_count. destruct (m !! k) as [y|] eqn:E.
  - pose proof (Hm k y E). rewrite add_int_ok by lia. simpl. eexists. split_and!; [done| |rewrite total_insert, E; simpl; lia].
    intros k' x. destruct (decide (k' = k)) as [->|]; [rewrite lookup_insert_eq; intros [= <-]; lia|].
    rewrite lookup_insert_ne by done. intros Hx%Hm. lia.
  - eexists. split_and!; [done| |rewrite total_insert, E; simpl; lia].
    intros k' x. destruct (decide (k' = k)) as [->|]; [rewrite lookup_insert_eq; intros [= <-]; lia|].
    rewrite lookup_insert_ne by done. intros Hx%Hm. lia.
Qed.

Lemma bounded_le n n' m : bounded n m → n <= n' → bounded n' m.
Proof. intros Hm Hn k x Hx%Hm. lia. Qed.

(** ** The scan *)

(** what a stored pair adds to the lists of the vertices *)
Definition pushes (e : ikey_t * list sid_t) : list (Z * direct_p) :=
  let '(k, vals) := e in
  let vid := i32 (u32 (k_vid k)) in
  let pid := i32 (u32 (k_pid k)) in
  if k_pid k =? PREDICATE_ID then []
  else if k_dir k =? dir_val IN then [(vid, MkDirect IN pid)]
  else (vid, MkDirect OUT pid) :: (if k_pid k =? TYPE_ID then (λ o, (vid, MkDirect OUT (i32 o))) <$> vals else []).

(** the state of the scan after the pushes [l] *)
Record scanned (l : list (Z * direct_p)) (st : local_stat) : Prop := {
  sc_ps : bounded (Z.of_nat (length l)) (predicate_to_subject st);
  sc_po : bounded (Z.of_nat (length l)) (predicate_to_object st);
  sc_ty : bounded (Z.of_nat (length l)) (type_to_subject st);
  sc_total : total (type_to_subject st) <= Z.of_nat (length l);
  sc_none : correlations st = ∅;
  sc_ids v d : (v, d) ∈ l → d ∈ default [] (id_to_predicate st !! v);
  sc_dirs v d : d ∈ default [] (id_to_predicate st !! v) → dp_dir d ≠ CORUN
}.

Lemma push_dir_elem m v d w x : x ∈ default [] (push_dir m v d !! w) ↔ x ∈ default [] (m !! w) ∨ w = v ∧ x = d.
Proof.
  unfold push_dir. destruct (decide (w = v)) as [->|]; [rewrite lookup_insert_eq; simpl|rewrite lookup_insert_ne by done].
  - rewrite elem_of_app, list_elem_of_singleton. naive_solver.
  - naive_solver.
Qed.

Lemma scanned_push l st v d pt ps po ty :
  scanned l st → dp_dir d ≠ CORUN →
  bounded (Z.of_nat (length l) + 1) ps → bounded (Z.of_nat (length l) + 1) po → bounded (Z.of_nat (length l) + 1) ty → total ty <= Z.of_nat (length l) + 1 →
  scanned (l ++ [(v, d)]) (MkLocal pt ps po ty (correlations st) (push_dir (id_to_predicate st) v d)).
Proof.
  intros [H1 H2 H3 H4 H5 H6 H7] Hd Hps Hpo Hty Htot.
  assert (El : Z.of_nat (length (l ++ [(v, d)])) = Z.of_nat (length l) + 1) by (rewrite length_app; simpl; lia).
  split; simpl; rewrite ?El; try done.
  - intros w x. rewrite push_dir_elem. intros [Hin|Hin]%elem_of_app; [left; by apply H6|right]. apply list_elem_of_singleton in Hin. by simplify_eq.
  - intros w x. rewrite push_dir_elem. intros [Hx|[-> ->]]; [by eapply H7|done].
Qed.

Lemma stat_type_ok l st v o : scanned l st → Z.of_nat (length l) + 1 <= int_max →
  ∃ st', stat_type v st o = Ok st' ∧ scanned (l ++ [(v, MkDirect OUT (i32 o))]) st'.
Proof.
  intros Hs Hmax. unfold stat_type.
  destruct (add_count_ok (Z.of_nat (length l)) (type_to_subject st) (i32 o)) as (ty & -> & Hty & Htot); [apply Hs|lia|done|]. cbn [mbind outcome_bind].
  destruct (add_count_ok (Z.of_nat (length l)) (predicate_to_subject st) (i32 o)) as (ps & -> & Hps & _); [apply Hs|lia|done|]. cbn [mbind outcome_bind].
  eexists. split; [done|]. apply scanned_push; try done; [eapply bounded_le; [apply Hs|lia]|]. pose proof (sc_total _ _ Hs). lia.
Qed.

Lemma stat_types_ok l st v vals : scanned l st → Z.of_nat (length l + length vals) <= int_max →
  ∃ st', foldM (stat_type v) st vals = Ok st' ∧ scanned (l ++ ((λ o, (v, MkDirect OUT (i32 o))) <$> vals)) st'.
Proof.
  revert l st. induction vals as [|o vals IH]; intros l st Hs Hmax; simpl; [exists st; by rewrite app_nil_r|].
  simpl in Hmax. destruct (stat_type_ok l st v o Hs) as (st1 & -> & Hs1); [lia|]. simpl.
  destruct (IH _ _ Hs1) as (st2 & -> & Hs2); [rewrite length_app; simpl; lia|]. exists st2. split; [done|]. by rewrite <-app_assoc in Hs2.
Qed.

Lemma stat_entry_ok l st e : scanned l st → Z.of_nat (length l + length (pushes e)) <= int_max →
  ∃ st', step_entry st e = Ok st' ∧ scanned (l ++ pushes e) st'.
Proof.
  destruct e as [k vals]. intros Hs Hmax. unfold step_entry, stat_entry, pushes in *. cbn [fst snd] in *.
  destruct (k_pid k =? PREDICATE_ID); [exists st; by rewrite app_nil_r|].
  assert (Hkeep : bounded (Z.of_nat (length l) + 1) (predicate_to_subject st) ∧ bounded (Z.of_nat (length l) + 1) (predicate_to_object st) ∧
    bounded (Z.of_nat (length l) + 1) (type_to_subject st) ∧ total (type_to_subject st) <= Z.of_nat (length l) + 1).
  { destruct Hs. split_and!; [eapply bounded_le; [done|lia]..|lia]. }
  destruct Hkeep as (K1 & K2 & K3 & K4). destruct (k_dir k =? dir_val IN).
  - simpl in Hmax. destruct (add_count_ok (Z.of_nat (length l)) (predicate_to_object st) (i32 (u32 (k_pid k)))) as (po & -> & Hpo & _); [apply Hs|lia|lia|].
    cbn [mbind outcome_bind]. eexists. split; [done|]. by apply scanned_push.
  - simpl in Hmax. destruct (add_count_ok (Z.of_nat (length l)) (predicate_to_subject st) (i32 (u32 (k_pid k)))) as (ps & -> & Hps & _); [apply Hs|lia|lia|].
    cbn [mbind outcome_bind]. rewrite cons_middle.
    assert (Hs1 : scanned (l ++ [(i32 (u32 (k_vid k)), MkDirect OUT (i32 (u32 (k_pid k))))])
      (MkLocal (predicate_to_triple st) ps (predicate_to_object st) (type_to_subject st) (correlations st)
        (push_dir (id_to_predicate st) (i32 (u32 (k_vid k))) (MkDirect OUT (i32 (u32 (k_pid k))))))) by (by apply scanned_push).
    destruct (k_pid k =? TYPE_ID); [|rewrite app_nil_r; eauto]. rewrite app_assoc. apply stat_types_ok; [done|].
    rewrite length_fmap in Hmax. rewrite length_app. simpl. lia.
Qed.

Lemma scan_entries_ok es l st : scanned l st → Z.of_nat (length l + length (es ≫= pushes)) <= int_max →
  ∃ st', foldM step_entry st es = Ok st' ∧ scanned (l ++ (es ≫= pushes)) st'.
Proof.
  revert l st. induction es as [|e es IH]; intros l st Hs Hmax; cbn [foldM].
  - exists st. by rewrite app_nil_r.
  - rewrite bind_cons, length_app in Hmax. destruct (stat_entry_ok l st e Hs) as (st1 & -> & Hs1); [lia|]. cbn [mbind outcome_bind].
    destruct (IH _ _ Hs1) as (st2 & -> & Hs2); [rewrite length_app; lia|]. exists st2. split; [done|]. by rewrite bind_cons, app_assoc.
Qed.

(** ** The correlations *)

Definition four_set (f : four_num) (d d' : dir_t) (z : Z) : four_num :=
  match d, d' with
  | OUT, OUT => MkFour z (out_in f) (in_in f) (in_out f)
  | OUT, IN => MkFour (out_out f) z (in_in f) (in_out f)
  | IN, IN => MkFour (out_out f) (out_in f) z (in_out f)
  | IN, OUT => MkFour (out_out f) (out_in f) (in_in f) z
  | _, _ => f
  end.

Lemma four_get_set f d d' z e e' : d ≠ CORUN → d' ≠ CORUN →
  four_get (four_set f d d' z) e e' = if decide (e = d ∧ e' = d') then z else four_get f e e'.
Proof. intros. destruct d, d', e, e'; done. Qed.

Lemma count_pair_eq pp x y : dp_dir x ≠ CORUN → dp_dir y ≠ CORUN →
  count_pair pp (x, y) =
    let '(a, b) := if dp_p x <? dp_p y then (x, y) else (y, x) in
    let f := default no_num (pp !! (dp_p a, dp_p b)) in
    z ← add_int (four_get f (dp_dir a) (dp_dir b)) 1; Ok (<[(dp_p a, dp_p b) := four_set f (dp_dir a) (dp_dir b) z]> pp).
Proof. intros Hx Hy. unfold count_pair, bump. destruct (dp_p x <? dp_p y); destruct x as [[] ?], y as [[] ?]; done. Qed.

Definition pp_bounded (n : Z) (pp : gmap (Z * Z) four_num) : Prop := ∀ k d d', 0 <= four_get (default no_num (pp !! k)) d d' <= n.
Definition pp_le (pp pp' : gmap (Z * Z) four_num) : Prop :=
  ∀ k d d', four_get (default no_num (pp !! k)) d d' <= four_get (default no_num (pp' !! k)) d d'.

Lemma pp_le_cell pp pp' p d p' d' : pp_le pp pp' → cell pp p d p' d' <= cell pp' p d p' d'.
Proof. intros Hle. unfold cell. destruct (p <? p'); apply Hle. Qed.

Lemma count_pair_ok n pp x y : dp_dir x ≠ CORUN → dp_dir y ≠ CORUN → pp_bounded n pp → n + 1 <= int_max →
  ∃ pp', count_pair pp (x, y) = Ok pp' ∧ pp_bounded (n + 1) pp' ∧ pp_le pp pp' ∧
    (dp_p x ≠ dp_p y → 1 <= cell pp' (dp_p x) (dp_dir x) (dp_p y) (dp_dir y) ∧ 1 <= cell pp' (dp_p y) (dp_dir y) (dp_p x) (dp_dir x)).
Proof.
  intros Hx Hy Hb Hn. rewrite count_pair_eq by done.
  assert (Hone : ∀ a b, dp_dir a ≠ CORUN → dp_dir b ≠ CORUN → ∃ pp', (let f := default no_num (pp !! (dp_p a, dp_p b)) in
    z ← add_int (four_get f (dp_dir a) (dp_dir b)) 1; Ok (<[(dp_p a, dp_p b) := four_set f (dp_dir a) (dp_dir b) z]> pp)) = Ok pp' ∧
    pp_bounded (n + 1) pp' ∧ pp_le pp pp' ∧ 1 <= four_get (default no_num (pp' !! (dp_p a, dp_p b))) (dp_dir a) (dp_dir b)).
  { intros a b Ha Hb'. cbv zeta. pose proof (Hb (dp_p a, dp_p b) (dp_dir a) (dp_dir b)). rewrite add_int_ok by lia. cbn [mbind outcome_bind]. eexists. split; [done|].
    assert (Hget : ∀ k e e', four_get (default no_num (<[(dp_p a, dp_p b) := four_set (default no_num (pp !! (dp_p a, dp_p b))) (dp_dir a) (dp_dir b)
        (four_get (default no_num (pp !! (dp_p a, dp_p b))) (dp_dir a) (dp_dir b) + 1)]> pp !! k)) e e'
      = if decide (k = (dp_p a, dp_p b) ∧ e = dp_dir a ∧ e' = dp_dir b) then four_get (default no_num (pp !! k)) e e' + 1 else four_get (default no_num (pp !! k)) e e').
    { intros k e e'. destruct (decide (k = (dp_p a, dp_p b))) as [->|Hk].
      - rewrite lookup_insert_eq. cbn [default from_option id]. rewrite four_get_set by done. case_decide as E; [destruct E as [-> ->]; by rewrite decide_True|rewrite decide_False by tauto; done].
      - rewrite lookup_insert_ne by done. by rewrite decide_False by tauto. }
    split_and!.
    - intros k e e'. rewrite Hget. pose proof (Hb k e e'). case_decide; lia.
    - intros k e e'. rewrite Hget. case_decide; lia.
    - rewrite Hget, decide_True by done. lia. }
  destruct (Z.ltb_spec (dp_p x) (dp_p y)) as [Hlt|Hge].
  - destruct (Hone x y Hx Hy) as (pp' & E & H1 & H2 & H3). exists pp'. split_and!; [exact E|done|done|]. intros _. unfold cell.
    rewrite (proj2 (Z.ltb_lt _ _) Hlt), (proj2 (Z.ltb_ge (dp_p y) (dp_p x))) by lia. done.
  - destruct (Hone y x Hy Hx) as (pp' & E & H1 & H2 & H3). exists pp'. split_and!; [exact E|done|done|]. intros Hne. unfold cell.
    rewrite (proj2 (Z.ltb_ge (dp_p x) (dp_p y)) Hge), (proj2 (Z.ltb_lt (dp_p y) (dp_p x))) by lia. done.
Qed.

Lemma pairs_elem {A} (l : list A) a b : a ∈ l → b ∈ l → a ≠ b → (a, b) ∈ pairs_of l ∨ (b, a) ∈ pairs_of l.
Proof.
  induction l as [|x l IH]; [set_solver|]. intros Ha Hb Hne. simpl. rewrite !elem_of_app, !list_elem_of_fmap.
  apply elem_of_cons in Ha as [->|Ha], Hb as [->|Hb]; [done|left; left; eauto|right; left; eauto|]. destruct (IH Ha Hb Hne); auto.
Qed.

Lemma pairs_sub {A} (l : list A) a b : (a, b) ∈ pairs_of l → a ∈ l ∧ b ∈ l.
Proof.
  induction l as [|x l IH]; simpl; [set_solver|]. rewrite elem_of_app, list_elem_of_fmap. intros [(y & [= -> ->] & Hy)|Hp]; [set_solver|].
  destruct (IH Hp). set_solver.
Qed.

Lemma count_pairs_ok L n pp : Forall (λ ab, dp_dir ab.1 ≠ CORUN ∧ dp_dir ab.2 ≠ CORUN) L → pp_bounded n pp → n + Z.of_nat (length L) <= int_max →
  ∃ pp', foldM count_pair pp L = Ok pp' ∧ pp_bounded (n + Z.of_nat (length L)) pp' ∧ pp_le pp pp' ∧
    ∀ a b, (a, b) ∈ L → dp_p a ≠ dp_p b → 1 <= cell pp' (dp_p a) (dp_dir a) (dp_p b) (dp_dir b) ∧ 1 <= cell pp' (dp_p b) (dp_dir b) (dp_p a) (dp_dir a).
Proof.
  revert n pp. induction L as [|[x y] L IH]; intros n pp Hd Hb Hn; cbn [foldM].
  - exists pp. split_and!; [done|by rewrite Z.add_0_r|intros k d d'; lia|set_solver].
  - apply Forall_cons_iff in Hd as [[Hx Hy] Hd]. simpl in Hn. destruct (count_pair_ok n pp x y Hx Hy Hb) as (pp1 & -> & B1 & L1 & C1); [lia|].
    cbn [mbind outcome_bind]. destruct (IH (n + 1) pp1 Hd B1) as (pp2 & -> & B2 & L2 & C2); [lia|]. exists pp2. split_and!; [done| | |].
    + intros k d d'. specialize (B2 k d d'). simpl length. lia.
    + intros k d d'. specialize (L1 k d d'). specialize (L2 k d d'). lia.
    + intros a b [[= -> ->]|Hin]%elem_of_cons Hne; [|by apply C2]. destruct (C1 Hne) as [Ha Hb'].
      pose proof (pp_le_cell _ _ (dp_p x) (dp_dir x) (dp_p y) (dp_dir y) L2). pose proof (pp_le_cell _ _ (dp_p y) (dp_dir y) (dp_p x) (dp_dir x) L2). lia.
Qed.

(** the number of pairs of edges at the vertices *)
Definition pair_total (st : local_stat) : nat := length (map_to_list (id_to_predicate st) ≫= λ e, pairs_of e.2).

Section correlate.
  Context (iter_ids : gmap Z (list direct_p) → list (Z * list direct_p)).
  Hypothesis Hiter : ∀ m, iter_ids m ≡ₚ map_to_list m.

Lemma correlate_ok l st : scanned l st → Z.of_nat (pair_total st) <= int_max →
  ∃ pp, correlate iter_ids st = Ok (MkLocal (predicate_to_triple st) (predicate_to_subject st) (predicate_to_object st) (type_to_subject st) pp (id_to_predicate st)) ∧
    pp_bounded int_max pp ∧
    ∀ v a b, (v, a) ∈ l → (v, b) ∈ l → dp_p a ≠ dp_p b → 1 <= cell pp (dp_p a) (dp_dir a) (dp_p b) (dp_dir b).
Proof.
  intros Hs Hmax. unfold correlate. rewrite foldM_bind, (sc_none _ _ Hs).
  set (L := iter_ids (id_to_predicate st) ≫= λ e, pairs_of e.2).
  assert (Hperm : L ≡ₚ map_to_list (id_to_predicate st) ≫= λ e, pairs_of e.2) by (unfold L; by rewrite Hiter).
  assert (Hlen : length L = pair_total st) by (unfold pair_total; by rewrite <-Hperm).
  destruct (count_pairs_ok L 0 ∅) as (pp & -> & HB & _ & HC).
  - apply Forall_forall. intros [a b] Hin. rewrite Hperm in Hin. apply list_elem_of_bind in Hin as ([v vec] & [Ha Hb]%pairs_sub & Hv%elem_of_map_to_list). simpl in *.
    split; eapply (sc_dirs _ _ Hs v); by rewrite Hv.
  - intros k d d'. rewrite lookup_empty. simpl. destruct d, d'; simpl; lia.
  - lia.
  - cbn [mbind outcome_bind]. exists pp. split_and!; [done| |].
    + intros k d d'. specialize (HB k d d'). lia.
    + intros v a b Ha Hb Hne. apply (sc_ids _ _ Hs) in Ha, Hb. destruct (id_to_predicate st !! v) as [vec|] eqn:Hv; simpl in *; [|set_solver].
      assert (a ≠ b) as Hab by congruence.
      assert (Hin : (a, b) ∈ L ∨ (b, a) ∈ L).
      { rewrite Hperm, !list_elem_of_bind. destruct (pairs_elem vec a b Ha Hb Hab); [left|right]; exists (v, vec); (split; [done|by apply elem_of_map_to_list]). }
      destruct Hin as [Hin|Hin]; (apply HC in Hin; [tauto|congruence]).
Qed.

(** ** Sound counts of a loaded store *)

Lemma edge_pushed g spo ops kv x p d : dataset_ok spo ops → gs_rep g kv → loaded spo ops kv → has_edge spo x p d →
  (i32 (u32 x), MkDirect d p) ∈ stat_entries g ≫= pushes.
Proof.
  intros Hds Hg Hld He. rewrite (stat_entries_perm g kv Hg). apply list_elem_of_bind.
  assert (Hwf : ∀ t, t ∈ spo → triple_wf t) by (pose proof (ds_wf _ _ Hds) as Hf; by rewrite Forall_forall in Hf).
  assert (Hid : ∀ q, 0 <= q < 2 ^ 17 → i32 (u32 q) = q) by (intros q Hq; rewrite u32_id by lia; unfold i32; rewrite Z.mod_small by lia; lia).
  assert (Hin : ∀ k (y : Z), y ∈ default [] (kv !! k) → ∃ vals, (k, vals) ∈ map_to_list kv ∧ y ∈ vals).
  { intros k y Hy. destruct (kv !! k) as [vals|] eqn:E; simpl in Hy; [|set_solver]. exists vals. split; [by apply elem_of_map_to_list|done]. }
  destruct d; simpl in He; [|destruct He as [[o Ho]|Ht]|done].
  - destruct He as [Hp [s Hs]]. destruct (Hwf _ Hs) as [Ws Wp Wo]. simpl in *.
    destruct (Hin (IKey x p (dir_val IN)) s) as (vals & Hv & _).
    { apply (ld_in _ _ _ Hld); [lia|lia|]. split; [by apply (ds_same _ _ Hds)|by apply (ds_normal _ _ Hds _ Hs)]. }
    exists (IKey x p (dir_val IN), vals). split; [|done]. unfold pushes. simpl. rewrite (proj2 (Z.eqb_neq _ _)) by (unfold PREDICATE_ID; lia). simpl.
    rewrite (Hid p) by lia. set_solver.
  - destruct (Hwf _ Ho) as [Ws Wp Wo]. simpl in *. destruct (Hin (IKey x p (dir_val OUT)) o) as (vals & Hv & _); [apply (ld_out _ _ _ Hld); [lia|lia|done]|].
    exists (IKey x p (dir_val OUT), vals). split; [|done]. unfold pushes. simpl. rewrite (proj2 (Z.eqb_neq _ _)) by (unfold PREDICATE_ID; lia). simpl.
    rewrite (Hid p) by lia. set_solver.
  - destruct (Hwf _ Ht) as [Ws Wp Wo]. simpl in *. pose proof (ty_spo _ _ (ds_typed _ _ Hds) _ Ht eq_refl) as Hlt. simpl in Hlt.
    destruct (Hin (IKey x TYPE_ID (dir_val OUT)) p) as (vals & Hv & Hy); [apply (ld_out _ _ _ Hld); [lia|unfold TYPE_ID; lia|done]|].
    exists (IKey x TYPE_ID (dir_val OUT), vals). split; [|done]. unfold pushes. simpl. right. apply list_elem_of_fmap. exists p. split; [|done].
    f_equal. f_equal. rewrite <-(Hid p) at 1 by lia. by rewrite u32_id by lia.
Qed.

(** the counters have room: the used slots and entries of the store are less than [2^31] *)
Lemma generate_statistic_ok g spo ops kv : dataset_ok spo ops → gs_rep g kv → loaded spo ops kv →
  Z.of_nat (size kv + kv_total kv) <= int_max →
  ∃ st0, scan_stat g = Ok st0 ∧ (Z.of_nat (pair_total st0) <= int_max → ∃ st, generate_statistic iter_ids g = Ok st ∧
    total (type_to_subject st) <= int_max ∧ bounded int_max (type_to_subject st) ∧
    ∀ x p d p' d', p ≠ p' → has_edge spo x p d → has_edge spo x p' d' → 1 <= cell (correlations st) p d p' d').
Proof.
  intros Hds Hg Hld Hmax.
  assert (Hlen : (length (stat_entries g ≫= pushes) <= size kv + kv_total kv)%nat).
  { rewrite (stat_entries_perm g kv Hg). unfold kv_total. rewrite <-length_map_to_list. generalize (map_to_list kv). intros es.
    induction es as [|[k vals] es IH]; [done|]. rewrite bind_cons, length_app. cbn [length sum_list_with fmap list_fmap].
    assert (length (pushes (k, vals)) <= S (length vals))%nat; [|simpl in *; lia]. unfold pushes.
    destruct (_ =? _); [simpl; lia|]. destruct (_ =? _); [simpl; lia|]. destruct (_ =? _); simpl; rewrite ?length_fmap; lia. }
  destruct (scan_entries_ok (stat_entries g) [] empty_local) as (st0 & E0 & Hs0).
  - split; simpl; try done; intros *; rewrite lookup_empty; (done || set_solver).
  - simpl. lia.
  - exists st0. rewrite (scan_stat_entries g kv Hg). split; [done|]. intros Hpairs. simpl in Hs0.
    destruct (correlate_ok _ _ Hs0 Hpairs) as (pp & E1 & _ & Hpp). unfold generate_statistic. rewrite (scan_stat_entries g kv Hg), E0. cbn [mbind outcome_bind].
    eexists. split; [exact E1|]. simpl. split_and!; [pose proof (sc_total _ _ Hs0); lia|eapply bounded_le; [apply Hs0|lia]|].
    intros x p d p' d' Hne H1 H2. apply (Hpp (i32 (u32 x)) (MkDirect d p) (MkDirect d' p')); [by eapply edge_pushed..|done].
Qed.
End correlate.

(** ** The statistics of one server are the statistics of the cluster *)

Section single.
  Context `{Countable K} {V : Type} (f : gmap K V → K * V → outcome (gmap K V)).
  Hypothesis Hf : ∀ (m : gmap K V) k v, m !! k = None → f m (k, v) = Ok (<[k := v]> m).

Lemma add_all_new (l : list (K * V)) (m : gmap K V) : NoDup l.*1 → (∀ k, k ∈ l.*1 → m !! k = None) → foldM f m l = Ok (list_to_map l ∪ m).
Proof.
  revert m. induction l as [|[k v] l IH]; intros m Hnd Hm; cbn [foldM list_to_map foldr]; [by rewrite map_empty_union|].
  simpl in *. apply NoDup_cons in Hnd as [Hk Hnd]. rewrite Hf by (apply Hm; set_solver). cbn [mbind outcome_bind]. rewrite IH.
  - f_equal. simpl. rewrite <-insert_union_l. by rewrite insert_union_r by (by apply not_elem_of_list_to_map_1).
  - done.
  - intros k' Hk'. rewrite lookup_insert_ne by (intros ->; done). apply Hm. set_solver.
Qed.

Lemma add_map_empty (m : gmap K V) : foldM f ∅ (map_to_list m) = Ok m.
Proof.
  rewrite add_all_new; [by rewrite list_to_map_to_list, map_union_empty|apply NoDup_fst_map_to_list|]. intros k _. apply lookup_empty.
Qed.
End single.

Lemma sum_ints_ok l acc : Forall (λ x, 0 <= x) l → 0 <= acc → acc + foldr Z.add 0 l <= int_max → foldM add_int acc l = Ok (acc + foldr Z.add 0 l).
Proof.
  revert acc. induction l as [|x l IH]; intros acc Hl Ha Hmax; simpl in *; [by rewrite Z.add_0_r|]. apply Forall_cons_iff in Hl as [Hx Hl].
  assert (0 <= foldr Z.add 0 l) by (clear -Hl; induction Hl; simpl; lia). rewrite add_int_ok by lia. cbn [mbind outcome_bind].
  rewrite IH by (done || lia). f_equal. lia.
Qed.

Lemma gather_single st : total (type_to_subject st) <= int_max → bounded int_max (type_to_subject st) →
  ∃ gl, gather_stat [st] = Ok gl ∧ global_ppcount gl = correlations st.
Proof.
  intros Htot Hb. unfold gather_stat. cbn [foldM]. unfold gather_one, empty_stat. cbn [global_ptcount global_pscount global_pocount global_tyscount global_ppcount].
  assert (Hadd : ∀ l, foldM (λ m e, add_count m e.1 e.2) ∅ (map_to_list l) = Ok l).
  { intros l. apply add_map_empty. intros m k v Hk. unfold add_count. simpl. by rewrite Hk. }
  assert (Hadd4 : ∀ l, foldM (λ m e, add_four m e.1 e.2) ∅ (map_to_list l) = Ok l).
  { intros l. apply add_map_empty. intros m k v Hk. unfold add_four. simpl. by rewrite Hk. }
  rewrite !Hadd, Hadd4. cbn [mbind outcome_bind global_ptcount global_pscount global_pocount global_tyscount global_ppcount].
  assert (Hpos : Forall (λ x, 0 <= x) (snd <$> map_to_list (type_to_subject st))).
  { apply Forall_forall. intros x (e & -> & He)%list_elem_of_fmap. destruct e as [k x]. apply elem_of_map_to_list, Hb in He. simpl. lia. }
  unfold total in Htot. rewrite (sum_ints_ok _ 0 Hpos) by lia. cbn [mbind outcome_bind]. by eexists.
Qed.
