(* ===== verification/StatFile.v ===== *)
(** The statistics on their way ([core/data_statistic.hpp]): the messages in which the
    servers send what they counted and the master sends the sums, and the file that keeps
    them. The archive is that of [Serial.v]; a file is what was written to it.

    A server receives at the socket of its first thread. [send] does not wait: it may find
    no room, and its result is left unread. A server that has to wait for a message stops
    with [OutOfFuel]. *)

From S2P Require Import Prelude Types Serial Planner Stat StatOk.
Local Open Scope Z_scope.

(** ** Adding up *)

Section sums.
  Context `{Countable K}.

(** the counters of one key *)
Definition tally (ms : list (gmap K Z)) (k : K) : Z := foldr Z.add 0 ((λ m, default 0 (m !! k)) <$> ms).
(** a key is counted if some server counts it, with the sum of what they count *)
Definition pointwise_sum (ms : list (gmap K Z)) (m : gmap K Z) : Prop :=
  ∀ k, m !! k = if decide (Exists (λ a, is_Some (a !! k)) ms) then Some (tally ms k) else None.

Definition counters (m : gmap K Z) : Prop := ∀ k x, m !! k = Some x → 0 <= x.
Definition madd (m a : gmap K Z) : gmap K Z := union_with (λ x y, Some (x + y)) m a.

Lemma tally_cons m ms k : tally (m :: ms) k = default 0 (m !! k) + tally ms k.
Proof. done. Qed.
Lemma tally_app ms1 ms2 k : tally (ms1 ++ ms2) k = tally ms1 k + tally ms2 k.
Proof. induction ms1 as [|m ms1 IH]; [done|]. cbn [app]. rewrite !tally_cons. lia. Qed.
Lemma counters_default m k : counters m → 0 <= default 0 (m !! k).
Proof. intros Hm. destruct (m !! k) as [x|] eqn:E; [exact (Hm _ _ E)|done]. Qed.
Lemma tally_nonneg ms k : Forall counters ms → 0 <= tally ms k.
Proof. induction 1 as [|m ms Hm _ IH]; [done|]. rewrite tally_cons. pose proof (counters_default m k Hm). lia. Qed.
Lemma tally_absent ms k : ¬ Exists (λ a, is_Some (a !! k)) ms → tally ms k = 0.
Proof.
  intros Hn. induction ms as [|a ms IH]; [done|]. rewrite Exists_cons in Hn. rewrite tally_cons, IH by tauto. destruct (a !! k); [|done]. destruct Hn. left. by eexists.
Qed.

Lemma sum_nil : pointwise_sum [] ∅.
Proof. intros k. rewrite decide_False; [apply lookup_empty|]. intros He. inversion He. Qed.
Lemma sum_default ms m k : pointwise_sum ms m → default 0 (m !! k) = tally ms k.
Proof. intros Hm. rewrite Hm. destruct (decide _) as [_|Hn]; [done|]. by rewrite tally_absent. Qed.
Lemma sum_counters ms m : Forall counters ms → pointwise_sum ms m → counters m.
Proof. intros Hc Hm k x. rewrite Hm. destruct (decide _); [|done]. intros [= <-]. by apply tally_nonneg. Qed.
Lemma sum_snoc ms m a : pointwise_sum ms m → pointwise_sum (ms ++ [a]) (madd m a).
Proof.
  intros Hm k. unfold madd. rewrite lookup_union_with, tally_app. unfold tally at 2. cbn. rewrite (decide_ext _ (Exists (λ a, is_Some (a !! k)) ms ∨ is_Some (a !! k))).
  2:{ rewrite Exists_app, Exists_cons, Exists_nil. tauto. }
  pose proof (Hm k) as E. destruct (decide (Exists _ ms)) as [Hy|Hn] in E; rewrite E; (destruct (a !! k) as [x|]; cbn; [rewrite decide_True by (right; by eexists)|]).
  - f_equal. lia.
  - rewrite decide_True by (by left). f_equal. lia.
  - rewrite tally_absent by done. f_equal. lia.
  - rewrite decide_False; [done|]. intros [?|[? ?]]; done.
Qed.

Lemma sum_fits ms1 a ms2 m k : Forall counters (ms1 ++ a :: ms2) → pointwise_sum ms1 m → tally (ms1 ++ a :: ms2) k <= int_max →
  default 0 (m !! k) + default 0 (a !! k) <= int_max.
Proof.
  intros [_ [_ Hc]%Forall_cons]%Forall_app Hm. rewrite (sum_default ms1 m k Hm), tally_app, tally_cons. pose proof (tally_nonneg ms2 k Hc). lia.
Qed.

(** *** A map of counters added to another one *)

Section add.
  Context {V : Type} (f : gmap K V → K * V → outcome (gmap K V)) (op : V → V → V) (fits : V → V → Prop).
  Hypothesis Hf : ∀ m k v, (∀ y, m !! k = Some y → fits y v) → f m (k, v) = Ok (<[k := from_option (λ y, op y v) v (m !! k)]> m).

Lemma add_list (l : list (K * V)) m : NoDup l.*1 → (∀ k y v, m !! k = Some y → (k, v) ∈ l → fits y v) →
  foldM f m l = Ok (union_with (λ x y, Some (op x y)) m (list_to_map l)).
Proof.
  revert m. induction l as [|[k v] l IH]; intros m Hnd Hm.
  - cbn. f_equal. apply map_eq. intros k. rewrite lookup_union_with, lookup_empty. by destruct (m !! k).
  - cbn [fmap list_fmap] in Hnd. apply NoDup_cons in Hnd as [Hk Hnd]. cbn [foldM fst] in *. rewrite Hf by (intros y Ey; apply (Hm k); [done|by left]). cbn [mbind outcome_bind]. rewrite IH; [|done|].
    + f_equal. apply map_eq. intros k'. rewrite !lookup_union_with. cbn [list_to_map foldr uncurry fst snd]. destruct (decide (k' = k)) as [->|Hne].
      * rewrite !lookup_insert_eq. rewrite (proj1 (not_elem_of_list_to_map l k) Hk). by destruct (m !! k).
      * by rewrite !lookup_insert_ne.
    + intros k' y v' Ey Hv. destruct (decide (k' = k)) as [->|Hne]; [destruct Hk; by apply (list_elem_of_fmap_2 fst) in Hv|]. rewrite lookup_insert_ne in Ey by done. apply (Hm k'); [done|by right].
Qed.

Lemma add_map m (a : gmap K V) : (∀ k y v, m !! k = Some y → a !! k = Some v → fits y v) → foldM f m (map_to_list a) = Ok (union_with (λ x y, Some (op x y)) m a).
Proof.
  intros Hm. rewrite add_list; [by rewrite list_to_map_to_list|apply NoDup_fst_map_to_list|]. intros k y v Ey Hv%elem_of_map_to_list. by apply (Hm k).
Qed.
End add.
End sums.

Lemma add_counts m a : counters m → counters a → (∀ k, default 0 (m !! k) + default 0 (a !! k) <= int_max) →
  foldM (λ m e, add_count m e.1 e.2) m (map_to_list a) = Ok (madd m a).
Proof.
  intros Hm Ha Hs. apply (add_map _ Z.add (λ y v, 0 <= y ∧ 0 <= v ∧ y + v <= int_max)).
  - intros m' k v Hk. unfold add_count. cbn [fst snd]. destruct (m' !! k) as [y|]; [|done]. destruct (Hk y eq_refl) as (H1 & H2 & H3). by rewrite add_int_ok.
  - intros k y v Ey Ev. specialize (Hs k). rewrite Ey, Ev in Hs. cbn in Hs. split_and!; [by apply (Hm k)|by apply (Ha k)|done].
Qed.

Lemma total_madd m a : total (madd m a) = total m + total a.
Proof.
  induction a as [|k x a Hk IH] using map_ind.
  - change (total ∅) with 0. rewrite Z.add_0_r. f_equal. apply map_eq. intros k. unfold madd. rewrite lookup_union_with, lookup_empty. by destruct (m !! k).
  - rewrite total_insert_new by done. assert (madd m (<[k := x]> a) = <[k := default 0 (m !! k) + x]> (madd m a)) as ->.
    { apply map_eq. intros k'. unfold madd. rewrite lookup_union_with. destruct (decide (k' = k)) as [->|Hne]; [rewrite !lookup_insert_eq; by destruct (m !! k)|]. by rewrite !lookup_insert_ne, lookup_union_with. }
    rewrite total_insert, IH. unfold madd. rewrite lookup_union_with, Hk. destruct (m !! k); cbn; lia.
Qed.

(** ** The sums of all servers *)

(** the counters of one kind are at least 0 and their sums are [int]s *)
Definition enough `{Countable K} (ms : list (gmap K Z)) : Prop := Forall counters ms ∧ ∀ k, tally ms k <= int_max.

Definition pair_counters : list (four_num → Z) := [out_out; out_in; in_in; in_out].
Definition pairs_by (pr : four_num → Z) (st : local_stat) : gmap (Z * Z) Z := pr <$> correlations st.

Record summable (stats : list local_stat) : Prop := {
  sm_triples : enough (predicate_to_triple <$> stats);
  sm_subjects : enough (predicate_to_subject <$> stats);
  sm_objects : enough (predicate_to_object <$> stats);
  sm_types : enough (type_to_subject <$> stats);
  sm_pairs : Forall (λ pr, enough (pairs_by pr <$> stats)) pair_counters;
  sm_total : foldr Z.add 0 ((λ st, total (type_to_subject st)) <$> stats) <= int_max
}.

(** every table is the sum of those of the servers, key by key; the predicate [rdf:type] has
    the number of its triples and of the types *)
Record summed (stats : list local_stat) (g : data_statistic) : Prop := {
  su_subjects : pointwise_sum (predicate_to_subject <$> stats) (global_pscount g);
  su_types : pointwise_sum (type_to_subject <$> stats) (global_tyscount g);
  su_pairs : Forall (λ pr, pointwise_sum (pairs_by pr <$> stats) (pr <$> global_ppcount g)) pair_counters;
  su_triples : pointwise_sum ((λ st, delete 1 (predicate_to_triple st)) <$> stats) (delete 1 (global_ptcount g));
  su_objects : pointwise_sum ((λ st, delete 1 (predicate_to_object st)) <$> stats) (delete 1 (global_pocount g));
  su_type_triples : global_ptcount g !! 1 = Some (foldr Z.add 0 ((λ st, total (type_to_subject st)) <$> stats));
  su_type_objects : global_pocount g !! 1 = Some (i32 (Z.of_nat (size (global_tyscount g))))
}.

(** what holds after the messages of [stats] *)
Record gathered (stats : list local_stat) (g : data_statistic) : Prop := {
  ga_triples : pointwise_sum (predicate_to_triple <$> stats) (global_ptcount g);
  ga_subjects : pointwise_sum (predicate_to_subject <$> stats) (global_pscount g);
  ga_objects : pointwise_sum (predicate_to_object <$> stats) (global_pocount g);
  ga_types : pointwise_sum (type_to_subject <$> stats) (global_tyscount g);
  ga_pairs : Forall (λ pr, pointwise_sum (pairs_by pr <$> stats) (pr <$> global_ppcount g)) pair_counters;
  ga_total : total (global_tyscount g) = foldr Z.add 0 ((λ st, total (type_to_subject st)) <$> stats)
}.

Definition four_add (f v : four_num) : four_num := MkFour (out_out f + out_out v) (out_in f + out_in v) (in_in f + in_in v) (in_out f + in_out v).
Definition four_fits (f v : four_num) : Prop := Forall (λ pr, 0 <= pr f ∧ 0 <= pr v ∧ pr f + pr v <= int_max) pair_counters.

Lemma add_fours m a : (∀ k y v, m !! k = Some y → a !! k = Some v → four_fits y v) →
  foldM (λ m e, add_four m e.1 e.2) m (map_to_list a) = Ok (union_with (λ x y, Some (four_add x y)) m a).
Proof.
  apply (add_map _ four_add four_fits). intros m' k v Hk. unfold add_four. cbn [fst snd]. destruct (m' !! k) as [y|]; [|done]. specialize (Hk y eq_refl). unfold four_fits, pair_counters in Hk.
  rewrite !Forall_cons, Forall_nil in Hk. destruct Hk as ((? & ? & ?) & (? & ? & ?) & (? & ? & ?) & (? & ? & ?) & _). by rewrite !add_int_ok.
Qed.

Lemma pairs_madd pr m a : pr ∈ pair_counters → pr <$> union_with (λ x y, Some (four_add x y)) m a = madd (pr <$> m) (pr <$> a : gmap (Z * Z) Z).
Proof.
  intros Hpr. apply map_eq. intros k. unfold madd. rewrite lookup_fmap, !lookup_union_with, !lookup_fmap. unfold pair_counters in Hpr.
  rewrite !elem_of_cons, elem_of_nil in Hpr. destruct (m !! k), (a !! k); try done. cbn. f_equal. by destruct Hpr as [->|[->|[->|[->|[]]]]].
Qed.

Lemma add_table f (stats1 : list local_stat) st stats2 m : enough (f <$> (stats1 ++ st :: stats2)) → pointwise_sum (f <$> stats1) m →
  foldM (λ m e, add_count m e.1 e.2) m (map_to_list (f st)) = Ok (madd m (f st)) ∧ pointwise_sum (f <$> (stats1 ++ [st])) (madd m (f st)).
Proof.
  intros [Hc Ht] Hm. rewrite fmap_app, fmap_cons in Hc, Ht. split; [|rewrite fmap_app; by apply sum_snoc]. pose proof Hc as [Hc1 [Hc2 _]%Forall_cons]%Forall_app.
  apply add_counts; [by eapply sum_counters|done|]. intros k. by eapply sum_fits.
Qed.

Lemma gather_one_sum stats1 st stats2 g : summable (stats1 ++ st :: stats2) → gathered stats1 g → ∃ g', gather_one g st = Ok g' ∧ gathered (stats1 ++ [st]) g'.
Proof.
  intros [St Ss So Sy Sp _] [Ht Hs Ho Hy Hp Hto]. unfold gather_one. cbv zeta.
  destruct (add_table _ _ _ _ _ St Ht) as [-> Ht']. destruct (add_table _ _ _ _ _ Ss Hs) as [-> Hs']. destruct (add_table _ _ _ _ _ So Ho) as [-> Ho']. destruct (add_table _ _ _ _ _ Sy Hy) as [-> Hy'].
  cbn [mbind outcome_bind]. rewrite Forall_forall in Sp, Hp. rewrite add_fours.
  - cbn [mbind outcome_bind]. eexists. split; [done|]. split; cbn; [done..| |].
    + apply Forall_forall. intros pr Hpr. rewrite fmap_app, pairs_madd by done. by apply sum_snoc, Hp.
    + rewrite total_madd, Hto, fmap_app. cbn. generalize ((λ st, total (type_to_subject st)) <$> stats1). intros l. induction l as [|x l IH]; cbn; lia.
  - intros k y v Ey Ev. apply Forall_forall. intros pr Hpr. destruct (Sp pr Hpr) as [Hc Hle]. rewrite fmap_app, fmap_cons in Hc, Hle. pose proof Hc as [Hc1 [Hc2 _]%Forall_cons]%Forall_app.
    pose proof (sum_fits _ _ _ _ k Hc (Hp pr Hpr) (Hle k)) as Hf. pose proof (sum_counters _ _ Hc1 (Hp pr Hpr) k (pr y)) as Hpy. unfold pairs_by in *. rewrite lookup_fmap, Ey in Hpy. rewrite !lookup_fmap, Ey, Ev in Hf.
    cbn in Hf, Hpy. specialize (Hpy eq_refl). pose proof (Hc2 k (pr v)) as Hpv. rewrite lookup_fmap, Ev in Hpv. specialize (Hpv eq_refl). done.
Qed.

Lemma pointwise_delete (ms : list (gmap Z Z)) m k0 : pointwise_sum ms m → pointwise_sum (delete k0 <$> ms) (delete k0 m).
Proof.
  intros Hm k. destruct (decide (k = k0)) as [->|Hne].
  - rewrite lookup_delete_eq, decide_False; [done|]. rewrite Exists_fmap. intros (a & _ & Ha)%Exists_exists. cbn in Ha. rewrite lookup_delete_eq in Ha. by destruct Ha.
  - rewrite lookup_delete_ne, Hm by done. assert (∀ a : gmap Z Z, delete k0 a !! k = a !! k) as Hd by (intros; by apply lookup_delete_ne).
    rewrite (decide_ext _ (Exists (λ a, is_Some (a !! k)) (delete k0 <$> ms))) by (rewrite Exists_fmap, !Exists_exists; unfold compose; by setoid_rewrite Hd).
    destruct (decide _); [|done]. f_equal. unfold tally. rewrite <-list_fmap_compose. f_equal. apply list_fmap_ext. intros _ a _. unfold compose. by rewrite Hd.
Qed.

(** the order of the servers does not matter *)
Lemma sum_perm_ms `{Countable K} (ms ms' : list (gmap K Z)) m : ms ≡ₚ ms' → pointwise_sum ms m → pointwise_sum ms' m.
Proof.
  intros Hp Hm k. rewrite Hm. rewrite (decide_ext _ (Exists (λ a, is_Some (a !! k)) ms')) by (rewrite !Exists_exists; by setoid_rewrite Hp).
  destruct (decide _); [|done]. f_equal. unfold tally. by rewrite Hp.
Qed.
Lemma enough_perm `{Countable K} (ms ms' : list (gmap K Z)) : ms ≡ₚ ms' → enough ms → enough ms'.
Proof. intros Hp [Hc Ht]. split; [by rewrite <-Hp|]. intros k. unfold tally. rewrite <-Hp. apply Ht. Qed.
Lemma summable_perm stats stats' : stats ≡ₚ stats' → summable stats → summable stats'.
Proof.
  intros Hp [H1 H2 H3 H4 H5 H6]. split; try (eapply enough_perm; [by apply fmap_Permutation|done]); [|by rewrite <-Hp].
  eapply Forall_impl; [exact H5|]. intros pr He. eapply enough_perm; [by apply fmap_Permutation|done].
Qed.
Lemma summed_perm stats stats' g : stats ≡ₚ stats' → summed stats g → summed stats' g.
Proof.
  intros Hp [H1 H2 H3 H4 H5 H6 H7]. split; try (eapply sum_perm_ms; [by apply fmap_Permutation|done]); [|by rewrite <-Hp|done].
  eapply Forall_impl; [exact H3|]. intros pr He. eapply sum_perm_ms; [by apply fmap_Permutation|done].
Qed.

(** what the master gathers: the sums, if they are [int]s *)
Lemma gather_sums stats : summable stats → ∃ g, gather_stat stats = Ok g ∧ summed stats g.
Proof.
  intros Hs. destruct (foldM_total gather_one gathered empty_stat stats) as (g & Eg & [Gt Gs Go Gy Gp Gto]).
  - split; cbn; try apply sum_nil; [|done]. repeat constructor; cbn; rewrite fmap_empty; apply sum_nil.
  - intros l1 st l2 g1 -> Hg. by apply (gather_one_sum _ _ l2).
  - unfold gather_stat. rewrite Eg. cbn [mbind outcome_bind]. destruct Hs as [_ _ _ Sy _ Stot]. pose proof (sum_counters _ _ (proj1 Sy) Gy) as Hy.
    assert (Hpos : Forall (λ x, 0 <= x) (snd <$> map_to_list (global_tyscount g))).
    { apply Forall_forall. intros x (e & -> & He)%list_elem_of_fmap. destruct e as [k x]. apply elem_of_map_to_list in He. exact (Hy _ _ He). }
    unfold total at 1 in Gto. rewrite (sum_ints_ok _ 0 Hpos) by (lia || rewrite Gto; done). cbn [mbind outcome_bind]. eexists. split; [done|]. split; cbn; [done..| | | |].
    + rewrite delete_insert_eq. pose proof (pointwise_delete _ _ 1 Gt) as Hd. by rewrite <-list_fmap_compose in Hd.
    + rewrite delete_insert_eq. pose proof (pointwise_delete _ _ 1 Go) as Hd. by rewrite <-list_fmap_compose in Hd.
    + rewrite lookup_insert_eq. f_equal. lia.
    + by rewrite lookup_insert_eq.
Qed.

Section stat.
  Context `{Archive}.
  (* the order in which the hash maps are visited *)
  Context (iter_counts : gmap Z Z → list (Z * Z)) (iter_pairs : gmap (Z * Z) four_num → list (Z * Z * four_num)).
  Local Notation "x <-- m ; k" := (bind m (λ x, k)) (at level 100, m at next level, k at level 200, right associativity).

(** [unordered_map<ssid_t, int>] *)
Definition put_counts (m : gmap Z Z) : list token := put_vec (λ e, put_int e.1 ++ put_int e.2) (iter_counts m).
Definition get_count : reader (Z * Z) := k <-- get_int; v <-- get_int; ret (k, v).
Definition get_counts : reader (gmap Z Z) := l <-- get_vec get_count; ret (list_to_map l).

(** [four_num::serialize] *)
Definition put_four (f : four_num) : list token := put_int (out_out f) ++ put_int (out_in f) ++ put_int (in_in f) ++ put_int (in_out f).
Definition get_four : reader four_num := a <-- get_int; b <-- get_int; c <-- get_int; d <-- get_int; ret (MkFour a b c d).

Definition put_pairs (m : gmap (Z * Z) four_num) : list token :=
  put_vec (λ e, put_int e.1.1 ++ put_int e.1.2 ++ put_four e.2) (iter_pairs m).
Definition get_pair : reader (Z * Z * four_num) := a <-- get_int; b <-- get_int; f <-- get_four; ret ((a, b), f).
Definition get_pairs : reader (gmap (Z * Z) four_num) := l <-- get_vec get_pair; ret (list_to_map l).

(** ** Messages *)

(** [serialize]: the predicates of the single vertices stay at home *)
Definition save_local (st : local_stat) : list token :=
  put_counts (predicate_to_triple st) ++ put_counts (predicate_to_subject st) ++ put_counts (predicate_to_object st) ++
  put_counts (type_to_subject st) ++ put_pairs (correlations st).
Definition load_local : reader local_stat :=
  pt <-- get_counts; ps <-- get_counts; po <-- get_counts; ty <-- get_counts; pp <-- get_pairs; ret (MkLocal pt ps po ty pp ∅).

(** what the master gathers from the messages of all servers, in the order of their arrival *)
Definition gather_messages (msgs : list (list token)) : outcome data_statistic :=
  stats ← mapM (run_reader load_local) msgs; gather_stat stats.

(** the message of [send_stat_to_all_machines] *)
Definition save_global (g : data_statistic) : list token :=
  put_counts (global_ptcount g) ++ put_counts (global_pscount g) ++ put_counts (global_pocount g) ++
  put_pairs (global_ppcount g) ++ put_counts (global_tyscount g).
Definition load_global : reader data_statistic :=
  pt <-- get_counts; ps <-- get_counts; po <-- get_counts; pp <-- get_pairs; ty <-- get_counts; ret (MkStat pt ps po ty pp).

(** *** The servers *)

(** the statistics of each server, the messages at its socket, and the calls of [send] *)
Record servers := MkServers { sv_stat : gmap Z data_statistic; sv_box : gmap Z (list (list token)); sv_sends : nat }.
Context (room : nat → bool). (* whether the [n]th message finds room *)

Definition box (w : servers) (sid : Z) : list (list token) := default [] (sv_box w !! sid).
Definition set_stat (sid : Z) (g : data_statistic) (w : servers) : servers := MkServers (<[sid := g]> (sv_stat w)) (sv_box w) (sv_sends w).

Definition stat_send (dst : Z) (msg : list token) (w : servers) : servers :=
  let boxes := if room (sv_sends w) then <[dst := box w dst ++ [msg]]> (sv_box w) else sv_box w in
  MkServers (sv_stat w) boxes (S (sv_sends w)).
Definition stat_recv (sid : Z) (w : servers) : outcome (list token * servers) :=
  match box w sid with
  | [] => Err OutOfFuel
  | msg :: rest => Ok (msg, MkServers (sv_stat w) (<[sid := rest]> (sv_box w)) (sv_sends w))
  end.

(** the master sends its statistics, every other server waits for them *)
Definition send_stat_to_all_machines (num_servers sid : Z) (w : servers) : outcome servers :=
  if sid =? 0 then
    let msg := save_global (default empty_stat (sv_stat w !! 0)) in
    Ok (foldl (λ w i, stat_send i msg w) w (seqZ 1 (num_servers - 1)))
  else
    '(msg, w) ← stat_recv sid w;
    g ← run_reader load_global msg;
    Ok (set_stat sid g w).

(** [gather_stat] up to the first message that a server may wait for *)
Definition gather_begin (st : local_stat) (w : servers) : servers := stat_send 0 (save_local st) w.
(** and from there on: the master takes a message of every server *)
Definition recv_one (got : list (list token) * servers) (i : nat) : outcome (list (list token) * servers) :=
  '(msg, w) ← stat_recv 0 got.2; Ok (got.1 ++ [msg], w).
Definition recv_many (n : nat) (w : servers) : outcome (list (list token) * servers) := foldM recv_one ([], w) (seq 0 n).
Definition gather_rest (num_servers sid : Z) (w : servers) : outcome servers :=
  w ← (if sid =? 0 then
         '(msgs, w) ← recv_many (Z.to_nat num_servers) w;
         g ← gather_messages msgs;
         Ok (set_stat 0 g w)
       else Ok w);
  send_stat_to_all_machines num_servers sid w.

(** ** The file *)

Definition write_stat_file (g : data_statistic) : list token :=
  put_counts (global_ptcount g) ++ put_counts (global_pscount g) ++ put_counts (global_pocount g) ++
  put_counts (global_tyscount g) ++ put_pairs (global_ppcount g).
Definition read_stat_file : reader data_statistic :=
  pt <-- get_counts; ps <-- get_counts; po <-- get_counts; ty <-- get_counts; pp <-- get_pairs; ret (MkStat pt ps po ty pp).

(** only the master writes, and only a new file *)
Definition store_stat_to_file (sid : Z) (g : data_statistic) (file : option (list token)) : option (list token) :=
  if negb (sid =? 0) then file
  else match file with Some _ => file | None => Some (write_stat_file g) end.

(** without the file the master returns at once *)
Definition load_stat_from_file (num_servers sid : Z) (file : option (list token)) (w : servers) : outcome servers :=
  if sid =? 0 then
    match file with
    | None => Ok w
    | Some content => g ← run_reader read_stat_file content; send_stat_to_all_machines num_servers 0 (set_stat 0 g w)
    end
  else send_stat_to_all_machines num_servers sid w.

(** ** What is read is what was written *)

Hypothesis iter_counts_perm : ∀ m, iter_counts m ≡ₚ map_to_list m.
Hypothesis iter_pairs_perm : ∀ m, iter_pairs m ≡ₚ map_to_list m.

Lemma reads_counts m : reads get_counts (put_counts m) m.
Proof.
  unfold get_counts, put_counts. replace m with (list_to_map (iter_counts m) : gmap Z Z) at 2.
  - apply (reads_last _ list_to_map), reads_vec_all. intros [k v]. unfold get_count. cbn [fst snd]. eapply reads_bind; [apply reads_int|]. apply (reads_last _ (pair k)), reads_int.
  - rewrite (list_to_map_proper _ (map_to_list m)); [apply list_to_map_to_list| |apply iter_counts_perm]. rewrite iter_counts_perm. apply NoDup_fst_map_to_list.
Qed.

Lemma reads_four f : reads get_four (put_four f) f.
Proof. destruct f as [a b c d]. unfold get_four, put_four. do 3 (eapply reads_bind; [apply reads_int|]). apply (reads_last _ (MkFour a b c)), reads_int. Qed.

Lemma reads_pairs m : reads get_pairs (put_pairs m) m.
Proof.
  unfold get_pairs, put_pairs. replace m with (list_to_map (iter_pairs m) : gmap (Z * Z) four_num) at 2.
  - apply (reads_last _ list_to_map), reads_vec_all. intros [[a b] f]. unfold get_pair. cbn [fst snd]. do 2 (eapply reads_bind; [apply reads_int|]). apply (reads_last _ (pair (a, b))), reads_four.
  - rewrite (list_to_map_proper _ (map_to_list m)); [apply list_to_map_to_list| |apply iter_pairs_perm]. rewrite iter_pairs_perm. apply NoDup_fst_map_to_list.
Qed.

(** the statistics without what is not sent *)
Definition sent_local (st : local_stat) : local_stat :=
  MkLocal (predicate_to_triple st) (predicate_to_subject st) (predicate_to_object st) (type_to_subject st) (correlations st) ∅.

Lemma reads_local_stat st : reads load_local (save_local st) (sent_local st).
Proof.
  destruct st as [pt ps po ty pp ids]. unfold load_local, save_local, sent_local. cbn. do 4 (eapply reads_bind; [apply reads_counts|]). apply (reads_last _ (λ pp, MkLocal pt ps po ty pp ∅)), reads_pairs.
Qed.

Lemma reads_global g : reads load_global (save_global g) g.
Proof.
  destruct g as [pt ps po ty pp]. unfold load_global, save_global. cbn. do 3 (eapply reads_bind; [apply reads_counts|]). eapply reads_bind; [apply reads_pairs|].
  apply (reads_last _ (λ ty, MkStat pt ps po ty pp)), reads_counts.
Qed.

Lemma reads_file g : reads read_stat_file (write_stat_file g) g.
Proof.
  destruct g as [pt ps po ty pp]. unfold read_stat_file, write_stat_file. cbn. do 4 (eapply reads_bind; [apply reads_counts|]). apply (reads_last _ (λ pp, MkStat pt ps po ty pp)), reads_pairs.
Qed.

Lemma gather_sent stats : gather_messages (save_local <$> stats) = gather_stat stats.
Proof.
  unfold gather_messages. assert (mapM (run_reader load_local) (save_local <$> stats) = Ok (sent_local <$> stats)) as ->.
  { induction stats as [|st stats IH]; [done|]. cbn [fmap list_fmap mapM]. rewrite (run_reads _ _ _ (reads_local_stat st)). cbn [mbind outcome_bind]. by rewrite IH. }
  cbn [mbind outcome_bind]. unfold gather_stat. assert (foldM gather_one empty_stat (sent_local <$> stats) = foldM gather_one empty_stat stats) as ->; [|done].
  generalize empty_stat. induction stats as [|st stats IH]; intros g; [done|]. cbn [fmap list_fmap foldM]. change (gather_one g (sent_local st)) with (gather_one g st).
  destruct (gather_one g st); [apply IH|done].
Qed.

(** *** The messages of the master *)

Lemma box_send_ne w i dst msg : i ≠ dst → box (stat_send dst msg w) i = box w i.
Proof. intros Hne. unfold stat_send, box. cbn. destruct (room _); [|done]. by rewrite lookup_insert_ne. Qed.
Lemma box_send w dst msg : box (stat_send dst msg w) dst = if room (sv_sends w) then box w dst ++ [msg] else box w dst.
Proof. unfold stat_send, box. cbn. destruct (room _); [|done]. by rewrite lookup_insert_eq. Qed.

Lemma sends_stat l msg w : sv_stat (foldl (λ w i, stat_send i msg w) w l) = sv_stat w.
Proof. revert w. induction l as [|i l IH]; intros w; [done|]. cbn [foldl]. by rewrite IH. Qed.

Lemma sends_box l msg w i : NoDup l → box w i = [] →
  let b := box (foldl (λ w i, stat_send i msg w) w l) i in
  (i ∉ l → b = []) ∧ (i ∈ l → (b = [] ∨ b = [msg]) ∧ ((∀ q, room q = true) → b = [msg])).
Proof.
  intros Hnd. revert w. induction Hnd as [|j l Hj Hnd IH]; intros w Hw; cbn [foldl]; [split; [done|by intros ?%elem_of_nil]|]. cbv zeta in *.
  destruct (decide (i = j)) as [->|Hne].
  - split; [intros Hn; destruct Hn; by left|]. intros _.
    assert (Hk : ∀ w, box (foldl (λ w i, stat_send i msg w) w l) j = box w j).
    { clear -Hj. induction l as [|i l IH]; intros w; [done|]. cbn [foldl]. rewrite not_elem_of_cons in Hj. rewrite IH by tauto. apply box_send_ne. tauto. }
    rewrite Hk, box_send, Hw. destruct (room (sv_sends w)) eqn:Er; cbn; split; [by right|done|by left|]. intros Hr. by rewrite Hr in Er.
  - destruct (IH (stat_send j msg w)) as [IH1 IH2]; [by rewrite box_send_ne|]. rewrite elem_of_cons. split; [intros ?; apply IH1; tauto|]. intros [?|?]; [done|by apply IH2].
Qed.

(** [w] is what the master leaves behind when it has sent [g]: every other server has the
    message or, if it was refused, none; those that have it may take it in any order, with
    [op], and have [g] then; the others wait. *)
Record spread (n : Z) (g : data_statistic) (op : Z → servers → outcome servers) (w : servers) : Prop := {
  sp_master : sv_stat w !! 0 = Some g;
  sp_box : ∀ i, 0 < i < n → box w i = [] ∨ box w i = [save_global g];
  sp_all : (∀ q, room q = true) → ∀ i, 0 < i < n → box w i = [save_global g];
  sp_run : ∀ l, NoDup l → (∀ i, i ∈ l → 0 < i < n ∧ box w i = [save_global g]) →
    ∃ w', foldM (λ w i, op i w) w l = Ok w' ∧
      (∀ i, sv_stat w' !! i = if decide (i ∈ l) then Some g else sv_stat w !! i) ∧
      (∀ i, i ∈ l → box w' i = []) ∧
      ∀ i, 0 < i < n → i ∉ l → box w i = [] → op i w' = Err OutOfFuel
}.

Lemma slave_takes n i g w : i ≠ 0 → box w i = [save_global g] →
  send_stat_to_all_machines n i w = Ok (MkServers (<[i := g]> (sv_stat w)) (<[i := []]> (sv_box w)) (sv_sends w)).
Proof.
  intros Hi Hb. unfold send_stat_to_all_machines. rewrite (proj2 (Z.eqb_neq _ _) Hi). unfold stat_recv. rewrite Hb. cbn [mbind outcome_bind].
  by rewrite (run_reads _ _ _ (reads_global g)).
Qed.
Lemma slave_waits n i w : i ≠ 0 → box w i = [] → send_stat_to_all_machines n i w = Err OutOfFuel.
Proof. intros Hi Hb. unfold send_stat_to_all_machines. rewrite (proj2 (Z.eqb_neq _ _) Hi). unfold stat_recv. by rewrite Hb. Qed.

Lemma master_spreads n g op w : sv_stat w !! 0 = Some g → (∀ i, box w i = []) → (∀ i w, i ≠ 0 → op i w = send_stat_to_all_machines n i w) →
  ∃ w', send_stat_to_all_machines n 0 w = Ok w' ∧ spread n g op w'.
Proof.
  intros Hg Hw Hop. unfold send_stat_to_all_machines. change (0 =? 0) with true. cbn iota zeta. eexists. split; [done|]. rewrite Hg. cbn [default from_option id].
  set (w1 := foldl _ _ _). assert (Hb : ∀ i, 0 < i < n → (box w1 i = [] ∨ box w1 i = [save_global g]) ∧ ((∀ q, room q = true) → box w1 i = [save_global g])).
  { intros i Hi. apply (sends_box (seqZ 1 (n - 1)) (save_global g) w i); [apply NoDup_seqZ|done|]. apply elem_of_seqZ. lia. }
  split; [unfold w1; by rewrite sends_stat|apply Hb|intros Hr i Hi; by apply Hb|].
  intros l. cut (∀ l w2, NoDup l → (∀ i, i ∈ l → 0 < i < n ∧ box w2 i = [save_global g]) →
    ∃ w', foldM (λ w i, op i w) w2 l = Ok w' ∧ (∀ i, sv_stat w' !! i = if decide (i ∈ l) then Some g else sv_stat w2 !! i) ∧ (∀ i, i ∈ l → box w' i = []) ∧ ∀ i, i ∉ l → box w' i = box w2 i).
  { intros Hrun Hnd Hl. destruct (Hrun l w1 Hnd Hl) as (w' & E & Hs & Hd & Hk). exists w'. split_and!; [done..|]. intros i Hi Hil Hbi. rewrite Hop by lia. apply slave_waits; [lia|]. by rewrite Hk. }
  clear -Hop iter_counts_perm iter_pairs_perm. intros l. induction l as [|i l IH]; intros w Hnd Hl.
  - exists w. split; [done|]. split; [intros i; rewrite decide_False; [done|apply not_elem_of_nil]|]. split; [by intros i ?%elem_of_nil|done].
  - apply NoDup_cons in Hnd as [Hi Hnd]. destruct (Hl i ltac:(by left)) as [Hr Hb]. cbn [foldM]. rewrite Hop, (slave_takes n i g) by (done || lia). cbn [mbind outcome_bind].
    set (w2 := MkServers _ _ _). assert (Hne : ∀ j, j ≠ i → box w2 j = box w j) by (intros j Hj; unfold box, w2; cbn; by rewrite lookup_insert_ne).
    destruct (IH w2 Hnd) as (w' & E & Hs & Hd & Hk).
    { intros j Hj. destruct (Hl j ltac:(by right)) as [Hr2 Hb2]. split; [done|]. rewrite Hne; [done|]. by intros ->. }
    assert (Hbi : box w' i = []) by (rewrite Hk by done; unfold box, w2; cbn; by rewrite lookup_insert_eq).
    exists w'. split; [done|]. split_and!.
    + intros j. rewrite Hs. unfold w2. cbn [sv_stat]. destruct (decide (j = i)) as [->|Hj].
      * rewrite decide_False, lookup_insert_eq by done. by rewrite decide_True by left.
      * rewrite lookup_insert_ne by done. rewrite (decide_ext _ (j ∈ i :: l)); [done|]. rewrite elem_of_cons. tauto.
    + intros j [->|Hj]%elem_of_cons; [done|by apply Hd].
    + intros j [Hj Hjl]%not_elem_of_cons. by rewrite Hk, Hne.
Qed.

(** *** The messages to the master *)

Lemma begin_box (stats : Z → local_stat) order w : let w1 := foldl (λ w i, gather_begin (stats i) w) w order in
  (∀ i, i ≠ 0 → box w1 i = box w i) ∧ sv_stat w1 = sv_stat w ∧
  ((∀ q, (sv_sends w <= q < sv_sends w + length order)%nat → room q = true) → box w1 0 = box w 0 ++ (save_local <$> (stats <$> order))) ∧
  ((∃ q, (sv_sends w <= q < sv_sends w + length order)%nat ∧ room q = false) → (length (box w1 0%Z) < length (box w 0%Z) + length order)%nat) ∧
  (length (box w1 0%Z) <= length (box w 0%Z) + length order)%nat.
Proof.
  cbv zeta. revert w. induction order as [|j order IH]; intros w; cbn [foldl].
  - split_and!; [done..| | |cbn; lia]; [intros _; by rewrite app_nil_r|]. intros (q & Hq & _). cbn in Hq. lia.
  - destruct (IH (gather_begin (stats j) w)) as (H1 & H2 & H3 & H4 & H5). unfold gather_begin in *. pose proof (box_send w 0 (save_local (stats j))) as Eb. set (w2 := stat_send _ _ _) in *.
    assert (En : sv_sends w2 = S (sv_sends w)) by done. cbn [length] in *. split_and!.
    + intros i Hi. rewrite H1 by done. by apply box_send_ne.
    + by rewrite H2.
    + intros Hr. rewrite H3 by (intros q Hq; apply Hr; lia). rewrite Eb, Hr by lia. cbn. by rewrite <-app_assoc.
    + intros (q & Hq & Hr). destruct (room (sv_sends w)) eqn:E.
      * rewrite Eb, length_app in H4. cbn in H4. assert (q ≠ sv_sends w) by congruence. assert (length (box (foldl (λ w i, stat_send 0 (save_local (stats i)) w) w2 order) 0%Z) < length (box w 0%Z) + 1 + length order)%nat by (apply H4; exists q; split; [lia|done]). lia.
      * rewrite Eb in H5. lia.
    + rewrite Eb in H5. destruct (room (sv_sends w)); [rewrite length_app in H5; cbn in H5|]; lia.
Qed.

Lemma recv_first got w i msg rest : box w 0 = msg :: rest → recv_one (got, w) i = Ok (got ++ [msg], MkServers (sv_stat w) (<[0 := rest]> (sv_box w)) (sv_sends w)).
Proof. intros Hb. unfold recv_one, stat_recv. cbn [fst snd]. by rewrite Hb. Qed.

Lemma recv_many_ok msgs rest w : box w 0 = msgs ++ rest →
  ∃ w', recv_many (length msgs) w = Ok (msgs, w') ∧ sv_stat w' = sv_stat w ∧ box w' 0 = rest ∧ (∀ i, i ≠ 0 → box w' i = box w i).
Proof.
  unfold recv_many. change msgs with ([] ++ msgs) at 3. generalize (@nil (list token)) as got. generalize 0%nat as start.
  revert w. induction msgs as [|msg msgs IH]; intros w start got Hb; [exists w; by rewrite app_nil_r|]. cbn [length seq foldM]. rewrite (recv_first _ _ _ _ _ Hb). cbn [mbind outcome_bind].
  set (w2 := MkServers _ _ _). destruct (IH w2 (S start) (got ++ [msg])) as (w' & E & Hs & H0 & Hi); [unfold box, w2; cbn; by rewrite lookup_insert_eq|]. exists w'. rewrite E, <-app_assoc. split_and!; [done..|].
  intros i Hne. rewrite Hi by done. unfold box, w2. cbn. by rewrite lookup_insert_ne.
Qed.

Lemma recv_many_waits n w : (length (box w 0%Z) < n)%nat → recv_many n w = Err OutOfFuel.
Proof.
  unfold recv_many. generalize (@nil (list token)) as got. generalize 0%nat as start. revert w. induction n as [|n IH]; intros w start got Hl; [lia|]. cbn [seq foldM].
  destruct (box w 0) as [|msg rest] eqn:Eb; [assert (recv_one (got, w) start = Err OutOfFuel) as -> by (unfold recv_one, stat_recv; cbn [fst snd]; by rewrite Eb); done|]. rewrite (recv_first _ _ _ _ _ Eb). cbn [mbind outcome_bind]. apply IH. unfold box. cbn. rewrite lookup_insert_eq. cbn in *. lia.
Qed.

Lemma stores_kept g (later : list (Z * data_statistic)) :
  foldl (λ file '(sid, new), store_stat_to_file sid new file) (store_stat_to_file 0 g None) later = Some (write_stat_file g).
Proof.
  cbn [store_stat_to_file Z.eqb negb]. induction later as [|[sid new] later IH]; [done|]. cbn [foldl]. unfold store_stat_to_file at 2. by destruct (sid =? 0).
Qed.

(** C28: the statistics of a data set on [n] servers, which send what they counted in any
    order. If the network takes these messages, the master has the sums of all counters,
    key by key, for [rdf:type] the number of its triples and of the types, if they are
    within [int]; if it refuses one of them, the master waits. The sums then go to every
    other server: each has them or, if the message was refused, which nobody notices, it
    waits, and if none is refused all servers have them. Statistics that were stored in a
    new file, whatever is stored under its name later, are those that loading the file
    gives to the master, and from there in the same way to the others; without a file the
    master returns with what it has, and every other server waits. *)
Theorem statistics_everywhere (n : Z) (stats : Z → local_stat) (order : list Z) (w : servers) :
  0 < n → order ≡ₚ seqZ 0 n → (∀ i, box w i = []) → summable (stats <$> seqZ 0 n) →
  let w1 := foldl (λ w i, gather_begin (stats i) w) w order in
  ((∃ q, (sv_sends w <= q < sv_sends w + Z.to_nat n)%nat ∧ room q = false) → gather_rest n 0 w1 = Err OutOfFuel) ∧
  ((∀ q, (sv_sends w <= q < sv_sends w + Z.to_nat n)%nat → room q = true) →
   ∃ g w2, gather_rest n 0 w1 = Ok w2 ∧ summed (stats <$> seqZ 0 n) g ∧ spread n g (gather_rest n) w2) ∧
  (∀ g later file', let file := foldl (λ file '(sid, new), store_stat_to_file sid new file) (store_stat_to_file 0 g None) later in
   ∃ w2, load_stat_from_file n 0 file w = Ok w2 ∧ spread n g (λ i, load_stat_from_file n i file') w2) ∧
  load_stat_from_file n 0 None w = Ok w ∧ (∀ i file', 0 < i < n → load_stat_from_file n i file' w = Err OutOfFuel).
Proof.
  intros Hn Ho Hw Hs. cbv zeta. set (w1 := foldl _ w order).
  assert (El : length order = Z.to_nat n) by (rewrite Ho, length_seqZ; lia).
  assert (Hp : stats <$> order ≡ₚ stats <$> seqZ 0 n) by (by apply fmap_Permutation).
  destruct (begin_box stats order w) as (B1 & B2 & B3 & B4 & _). fold w1 in B1, B2, B3, B4. rewrite Hw, El in B3, B4. split_and!.
  - intros Hq. unfold gather_rest. change (0 =? 0) with true. cbn iota. rewrite recv_many_waits; [done|]. by apply B4.
  - intros Hq. unfold gather_rest. change (0 =? 0) with true. cbn iota. destruct (recv_many_ok (save_local <$> (stats <$> order)) [] w1) as (w2 & E2 & S2 & Z2 & I2); [by rewrite app_nil_r, B3|].
    rewrite !length_fmap, El in E2. rewrite E2. cbn [mbind outcome_bind]. rewrite gather_sent. destruct (gather_sums (stats <$> order)) as (g & -> & Hg); [by eapply summable_perm|]. cbn [mbind outcome_bind].
    destruct (master_spreads n g (gather_rest n) (set_stat 0 g w2)) as (w3 & E3 & H3).
    + unfold set_stat. cbn. by rewrite lookup_insert_eq.
    + intros i. change (box w2 i = []). destruct (decide (i = 0)) as [->|Hi]; [done|]. by rewrite I2, B1, Hw.
    + intros i w' Hi. unfold gather_rest. by rewrite (proj2 (Z.eqb_neq _ _) Hi).
    + exists g, w3. split; [exact E3|]. split; [by eapply summed_perm|exact H3].
  - intros g later file'. rewrite stores_kept. unfold load_stat_from_file at 1. change (0 =? 0) with true. cbn iota. rewrite (run_reads _ _ _ (reads_file g)). cbn [mbind outcome_bind].
    apply master_spreads; [unfold set_stat; cbn; by rewrite lookup_insert_eq|exact Hw|]. intros i w' Hi. unfold load_stat_from_file. by rewrite (proj2 (Z.eqb_neq _ _) Hi).
  - done.
  - intros i file' Hi. unfold load_stat_from_file. rewrite (proj2 (Z.eqb_neq i 0)) by lia. apply slave_waits; [lia|done].
Qed.
End stat.

(** *** The statistics of two servers *)

Definition some_counts : local_stat := MkLocal {[5 := 2]} {[5 := 1]} {[5 := 2]} {[7 := 1]} {[(5, 5) := MkFour 1 0 0 0]} {[131072 := []]}.
Definition no_servers : @servers token_archive := MkServers ∅ ∅ 0.
(** the message to the second server is refused *)
Definition last_refused (q : nat) : bool := negb (q =? 2)%nat.

Lemma singleton_enough `{Countable K} (k : K) (x : Z) : 0 <= x → 2 * x <= int_max → enough [{[k := x]}; {[k := x]}].
Proof.
  intros Hx Hm. split.
  - repeat constructor; intros k' y [_ <-]%lookup_singleton_Some; done.
  - intros k'. unfold tally. cbn. destruct (decide (k' = k)) as [->|Hne]; [rewrite lookup_singleton_eq; cbn; lia|rewrite lookup_singleton_ne by done; cbn; unfold int_max; lia].
Qed.

Lemma some_counts_summable : summable [some_counts; some_counts].
Proof.
  split; [by apply singleton_enough..| |vm_compute; discriminate].
  assert (∀ pr, pairs_by pr some_counts = {[(5, 5) := pr (MkFour 1 0 0 0)]}) as E by (intros pr; apply (map_fmap_singleton (M := gmap (Z * Z)))).
  unfold pair_counters. rewrite !Forall_cons, Forall_nil. cbn [fmap list_fmap]. rewrite !E. split_and!; [by apply singleton_enough..|done].
Qed.

(** the second server sends first; its message of the sums is refused *)
Lemma statistics_everywhere_witness : ∃ g w2,
  @gather_rest token_archive map_to_list map_to_list last_refused 2 0
    (foldl (λ w i, @gather_begin token_archive map_to_list map_to_list last_refused some_counts w) no_servers [1; 0]) = Ok w2 ∧
  summed [some_counts; some_counts] g ∧ sv_stat w2 !! 0 = Some g ∧ @gather_rest token_archive map_to_list map_to_list last_refused 2 1 w2 = Err OutOfFuel.
Proof.
  destruct (@statistics_everywhere token_archive map_to_list map_to_list last_refused (λ m, reflexivity _) (λ m, reflexivity _)
    2 (λ _, some_counts) [1; 0] no_servers) as (_ & Hok & _).
  - lia.
  - apply Permutation_swap.
  - done.
  - exact some_counts_summable.
  - destruct Hok as (g & w2 & E & Hs & [Hm _ _ Hr]).
    + intros q Hq. destruct q as [|[|q]]; [done..|]. simpl in Hq. lia.
    + exists g, w2. split; [exact E|]. split; [exact Hs|]. split; [exact Hm|]. destruct (Hr []) as (w' & [= <-] & _ & _ & Hwait); [constructor|intros i Hi; by apply elem_of_nil in Hi|].
      apply Hwait; [lia|apply not_elem_of_nil|]. vm_compute in E. injection E as <-. reflexivity.
Defined.
