(* ===== verification/StoreCheck.v ===== *)
(** The checker of the store ([GStore::gstore_check] of [core/gstore.hpp]): it visits all
    keys and logs where normal keys and index keys do not fit together. The messages it
    logs are the reports of the model. *)

From S2P Require Import Prelude Types MyMath Keys HashTable GStore.
Local Open Scope Z_scope.

(** the messages: something occurs twice, or is missing *)
Inductive what :=
| DupType            (* a type in [vid|TYPE_ID|OUT] *)
| NoType             (* neither a type in [vid|TYPE_ID|OUT] nor a key [vid|pid|OUT] *)
| NoInKey            (* the key [vid|pid|IN] *)
| DupTypeIndex | NoTypeIndex      (* a vertex in [0|type|IN] *)
| DupPredIndex | NoPredIndex      (* a vertex in [0|pid|dir] *)
| DupLocalType                    (* a type in [0|TYPE_ID|OUT] *)
| DupLocalPred | NoLocalPred      (* a predicate in [0|PREDICATE_ID|OUT] *)
| NoLocalType
| DupLocalVertex | NoLocalVertex  (* a vertex in [0|TYPE_ID|IN] *)
| DupPred | NoPred.               (* a predicate in [vid|PREDICATE_ID|dir] *)

Record report := Report { r_what : what; r_key : ikey_t; r_val : Z }.

(** [ivertex_num], [nvertex_num] and the log *)
Record checked := MkChecked { ivertex_num : Z; nvertex_num : Z; reports : list report }.

(** the search loop of all checks: whether [x] is found, and how often it is found again;
    some of the loops end with the first duplicate *)
Fixpoint look_for (brk : bool) (x : Z) (l : list sid_t) (found : bool) : bool * nat :=
  match l with
  | [] => (found, 0%nat)
  | y :: l =>
      if y =? x then
        if found then
          if brk then (true, 1%nat) else let '(f, n) := look_for brk x l true in (f, S n)
        else look_for brk x l true
      else look_for brk x l found
  end.

(** [x] must occur in [l] once *)
Definition check_once (brk : bool) (x : Z) (l : list sid_t) (dup missing : report) : list report :=
  let '(found, n) := look_for brk x l false in
  replicate n dup ++ (if found then [] else [missing]).

Definition key_dir (k : ikey_t) : dir_t := if k_dir k =? dir_val IN then IN else if k_dir k =? dir_val OUT then OUT else CORUN.

(** the messages of a loop over the values of a key *)
Definition for_values (vals : list sid_t) (f : sid_t → outcome (list report)) : outcome (list report) :=
  foldM (λ rs v, r ← f v; Ok (rs ++ r)) [] vals.

Section check.
  Context (versatile : bool) (g : gstore).

(** is there no vertex under the key? *)
Definition absent (v p : sid_t) (d : dir_t) : outcome bool :=
  k ← mk_ikey v p d; vt ← get_vertex_local (hdr g) k; Ok (Keys.is_empty (v_key vt)).

Definition idx_check_indir (key : ikey_t) : outcome (list report) :=
  vres ← get_edges_local g (u32 (k_vid key)) (key_dir key) (k_pid key);
  for_values vres (λ v,
    tres ← get_edges_local g v OUT TYPE_ID;
    let '(found, n) := look_for false (k_pid key) tres false in
    let dups := replicate n (Report DupType key (k_pid key)) in
    if (0 <? length tres)%nat && negb found then
      a ← absent v (k_pid key) OUT; Ok (dups ++ (if a : bool then [Report NoType key v] else []))
    else Ok dups).

Definition idx_check_outdir (key : ikey_t) : outcome (list report) :=
  vres ← get_edges_local g (u32 (k_vid key)) (key_dir key) (k_pid key);
  for_values vres (λ v, a ← absent v (k_pid key) IN; Ok (if a : bool then [Report NoInKey key v] else [])).

Definition nt_check (key : ikey_t) : outcome (list report) :=
  tres ← get_edges_local g (u32 (k_vid key)) (key_dir key) (k_pid key);
  for_values tres (λ t,
    vres ← get_edges_local g 0 IN t;
    Ok (check_once false (k_vid key) vres (Report DupTypeIndex key t) (Report NoTypeIndex key t))).

Definition np_check (key : ikey_t) (dir : dir_t) : outcome (list report) :=
  vres ← get_edges_local g 0 dir (k_pid key);
  Ok (check_once true (k_vid key) vres (Report DupPredIndex key (k_vid key)) (Report NoPredIndex key (k_vid key))).

(** a vertex of an index: among all local vertices, and with the predicate *)
Definition ver_value_check (key : ikey_t) (d : dir_t) (v : sid_t) : outcome (list report) :=
  sores ← get_edges_local g 0 IN TYPE_ID;
  pres ← get_edges_local g v d PREDICATE_ID;
  Ok (check_once true v sores (Report DupLocalVertex key v) (Report NoLocalVertex key v) ++
      check_once true (k_pid key) pres (Report DupPred key v) (Report NoPred key v)).

Definition ver_idx_check_indir (key : ikey_t) : outcome (list report) :=
  vres ← get_edges_local g 0 OUT TYPE_ID;
  let '(found, n) := look_for false (k_pid key) vres false in
  let rs := replicate n (Report DupLocalType key (k_pid key)) in
  if found then Ok rs
  else
    pres ← get_edges_local g 0 OUT PREDICATE_ID;
    let rs := rs ++ check_once true (k_pid key) pres (Report DupLocalPred key (k_pid key)) (Report NoLocalPred key (k_pid key)) in
    vres ← get_edges_local g 0 IN (k_pid key);
    if (length vres =? 0)%nat then Ok (rs ++ [Report NoLocalType key (k_pid key)])
    else r ← for_values vres (ver_value_check key OUT); Ok (rs ++ r).

Definition ver_idx_check_outdir (key : ikey_t) : outcome (list report) :=
  pres ← get_edges_local g 0 OUT PREDICATE_ID;
  let rs := check_once true (k_pid key) pres (Report DupLocalPred key (k_pid key)) (Report NoLocalPred key (k_pid key)) in
  vres ← get_edges_local g 0 OUT (k_pid key);
  r ← for_values vres (ver_value_check key IN); Ok (rs ++ r).

Definition ver_nt_check (key : ikey_t) : outcome (list report) :=
  pres ← get_edges_local g (u32 (k_vid key)) OUT PREDICATE_ID;
  osres ← get_edges_local g 0 IN (k_pid key);
  Ok (check_once true (k_pid key) pres (Report DupPred key (k_pid key)) (Report NoPred key (k_pid key)) ++
      check_once true (k_vid key) osres (Report DupLocalVertex key (k_vid key)) (Report NoLocalVertex key (k_vid key))).

(** a check that is switched off, and the counter of an index or a normal key *)
Definition when (b : bool) (r : outcome (list report)) : outcome (list report) := if b then r else Ok [].
Definition count_index (check : bool) (st : checked) : checked :=
  if check then MkChecked (u64 (ivertex_num st + 1)) (nvertex_num st) (reports st) else st.
Definition count_normal (check : bool) (st : checked) : checked :=
  if check then MkChecked (ivertex_num st) (u64 (nvertex_num st + 1)) (reports st) else st.
Definition log (st : checked) (rs : list report) : checked := MkChecked (ivertex_num st) (nvertex_num st) (reports st ++ rs).

Definition check_on_vertex (index_check normal_check : bool) (st : checked) (key : ikey_t) : outcome checked :=
  let in_dir := k_dir key =? dir_val IN in
  let out_dir := k_dir key =? dir_val OUT in
  if (k_vid key =? 0) && is_tpid (k_pid key) && in_dir then
    r ← when index_check (idx_check_indir key);
    r' ← when (versatile && index_check) (ver_idx_check_indir key);
    Ok (log (count_index index_check st) (r ++ r'))
  else if (k_vid key =? 0) && is_tpid (k_pid key) && out_dir then
    r ← when index_check (idx_check_outdir key);
    r' ← when (versatile && index_check) (ver_idx_check_outdir key);
    Ok (log (count_index index_check st) (r ++ r'))
  else if is_vid (i32 (k_vid key)) && (k_pid key =? TYPE_ID) && out_dir then
    r ← when normal_check (nt_check key);
    r' ← when (versatile && index_check) (ver_nt_check key);
    Ok (log (count_normal normal_check st) (r ++ r'))
  else if is_vid (i32 (k_vid key)) && is_tpid (k_pid key) && out_dir then
    r ← when normal_check (np_check key IN); Ok (log (count_normal normal_check st) r)
  else if is_vid (i32 (k_vid key)) && is_tpid (k_pid key) && in_dir then
    r ← when normal_check (np_check key OUT); Ok (log (count_normal normal_check st) r)
  else Ok st.

Fixpoint check_bucket (n : nat) (index_check normal_check : bool) (st : checked) (slot_id : nat) : outcome checked :=
  match n with
  | O => Ok st
  | S n =>
      v ← read (vertices (hdr g)) slot_id;
      st ← (if Keys.is_empty (v_key v) then Ok st else check_on_vertex index_check normal_check st (v_key v));
      check_bucket n index_check normal_check st (S slot_id)
  end.

Definition gstore_check (index_check normal_check : bool) : outcome checked :=
  foldM (λ st b, check_bucket (ASSOCIATIVITY - 1) index_check normal_check st (b * ASSOCIATIVITY)) (MkChecked 0 0 [])
    (seq 0 (num_buckets (hdr g) + num_buckets_ext (hdr g))).
End check.
