(* ===== verification/StoreCheckOk.v ===== *)
(** What the checker of the store finds and what it misses; a loaded store passes it. *)

From S2P Require Import Prelude Types MyMath Keys HashTable GStore Runs Index IndexInsert EndToEnd.
From S2P Require Import StatOk StoreCheck.
Local Open Scope Z_scope.

(** ** The search loop *)

Definition occurs (x : Z) (l : list Z) : nat := length (filter (λ y, y = x) l).

Lemma occurs_cons x y l : occurs x (y :: l) = ((if decide (y = x) then 1 else 0) + occurs x l)%nat.
Proof. unfold occurs. rewrite filter_cons. by case_decide. Qed.

Lemma occurs_pos x l : (0 < occurs x l)%nat ↔ x ∈ l.
Proof.
  induction l as [|y l IH]; [rewrite elem_of_nil; unfold occurs; simpl; lia|]. rewrite occurs_cons, elem_of_cons, <-IH. case_decide; [lia|].
  split; [lia|]. intros [?|?]; [congruence|lia].
Qed.

Lemma occurs_nodup x l : NoDup l → (occurs x l <= 1)%nat.
Proof.
  induction 1 as [|y l Hy Hl IH]; [unfold occurs; simpl; lia|]. rewrite occurs_cons. case_decide as E; [|lia]. subst y.
  assert (¬ (0 < occurs x l)%nat) by (by rewrite occurs_pos). lia.
Qed.

Lemma occurs_once x l : NoDup l → x ∈ l → occurs x l = 1%nat.
Proof. intros Hl Hx%occurs_pos. pose proof (occurs_nodup x l Hl). lia. Qed.

Lemma look_for_spec brk x l found : ∃ n, look_for brk x l found = (found || bool_decide (x ∈ l), n) ∧
  (n = 0%nat ↔ ((if found then 1 else 0) + occurs x l <= 1)%nat).
Proof.
  revert found. induction l as [|y l IH]; intros found; cbn [look_for].
  - exists 0%nat. rewrite bool_decide_eq_false_2 by set_solver. rewrite orb_false_r. split; [done|]. unfold occurs. destruct found; simpl; lia.
  - rewrite occurs_cons. destruct (Z.eqb_spec y x) as [->|Hne].
    + rewrite decide_True by done. rewrite (bool_decide_eq_true_2 (x ∈ x :: l)) by set_solver. destruct found; simpl.
      * destruct brk; [exists 1%nat; split; [done|]; lia|]. destruct (IH true) as (n & -> & _). exists (S n). split; [done|]. lia.
      * destruct (IH true) as (n & -> & Hn). exists n. split; [done|]. rewrite Hn. lia.
    + rewrite decide_False by done. destruct (IH found) as (n & -> & Hn). exists n.
      assert (bool_decide (x ∈ y :: l) = bool_decide (x ∈ l)) as -> by (apply bool_decide_ext; set_solver). done.
Qed.

Lemma replicate_nil {A} n (x : A) : replicate n x = [] ↔ n = 0%nat.
Proof. by destruct n. Qed.

Lemma check_once_spec brk x l a b : check_once brk x l a b = [] ↔ occurs x l = 1%nat.
Proof.
  unfold check_once. destruct (look_for_spec brk x l false) as (n & -> & Hn). simpl in *. rewrite app_nil, replicate_nil, Hn.
  pose proof (occurs_pos x l) as Hp. case_bool_decide as Hx; [apply Hp in Hx; split; [lia|intros ->; by split; [lia|]]|].
  split; [by intros []|]. intros E. destruct Hx. apply Hp. lia.
Qed.

Lemma for_values_spec vals f (P : sid_t → Prop) : (∀ v, v ∈ vals → ∃ r, f v = Ok r ∧ (r = [] ↔ P v)) →
  ∃ rs, for_values vals f = Ok rs ∧ (rs = [] ↔ ∀ v, v ∈ vals → P v).
Proof.
  intros Hf. unfold for_values. assert (Hacc : ∀ acc, ∃ rs, foldM (λ rs v, r ← f v; Ok (rs ++ r)) acc vals = Ok (acc ++ rs) ∧ (rs = [] ↔ ∀ v, v ∈ vals → P v)).
  { induction vals as [|v vals IH]; intros acc; cbn [foldM].
    - exists []. rewrite app_nil_r. split; [done|]. split; [set_solver|done].
    - destruct (Hf v) as (r & -> & Hr); [set_solver|]. cbn [mbind outcome_bind]. destruct (IH ltac:(set_solver) (acc ++ r)) as (rs & -> & Hrs).
      exists (r ++ rs). rewrite app_assoc. split; [done|]. rewrite app_nil, Hr, Hrs. set_solver. }
  destruct (Hacc []) as (rs & ? & ?). by exists rs.
Qed.

(** ** What the checks ask *)

Section spec.
  Context (kv : gmap ikey_t (list sid_t)).
Definition vals_at (v p : Z) (d : dir_t) : list sid_t := default [] (kv !! IKey v p (dir_val d)).

(** what the checks ask of a key with its values *)
Definition key_fits (k : ikey_t) (vals : list sid_t) : Prop :=
  let '(IKey v p d) := k in
  if (v =? 0) && is_tpid p && (d =? dir_val IN) then
    (* an index of the subjects of a predicate, or of the instances of a type *)
    ∀ x, x ∈ vals → (occurs p (vals_at x TYPE_ID OUT) <= 1)%nat ∧
      (vals_at x TYPE_ID OUT = [] ∨ p ∈ vals_at x TYPE_ID OUT ∨ is_Some (kv !! IKey x p (dir_val OUT)))
  else if (v =? 0) && is_tpid p && (d =? dir_val OUT) then
    (* an index of the objects of a predicate *)
    ∀ x, x ∈ vals → is_Some (kv !! IKey x p (dir_val IN))
  else if is_vid (i32 v) && (p =? TYPE_ID) && (d =? dir_val OUT) then
    (* the types of a vertex *)
    ∀ t, t ∈ vals → occurs v (vals_at 0 t IN) = 1%nat
  else if is_vid (i32 v) && is_tpid p && (d =? dir_val OUT) then occurs v (vals_at 0 p IN) = 1%nat
  else if is_vid (i32 v) && is_tpid p && (d =? dir_val IN) then occurs v (vals_at 0 p OUT) = 1%nat
  else True.

Definition passes : Prop := ∀ k vals, kv !! k = Some vals → key_fits k vals.

(** ids that fit the keys they are looked up with *)
Record checkable : Prop := {
  ck_vid k vals : kv !! k = Some vals → 0 <= k_vid k < 2 ^ 32;
  ck_index k vals x : kv !! k = Some vals → k_vid k = 0 → x ∈ vals → 0 <= x < 2 ^ 32;
  ck_type k vals t : kv !! k = Some vals → k_pid k = TYPE_ID → k_vid k ≠ 0 → t ∈ vals → 0 < t < 2 ^ 17
}.
End spec.

Section checker.
  Context (g : gstore) (kv : gmap ikey_t (list sid_t)).
  Hypothesis Hg : gs_rep g kv.
  Hypothesis Hck : checkable kv.

Lemma read_key v p d : 0 <= v < 2 ^ 46 → 0 <= p < 2 ^ 17 → d ≠ CORUN → IKey v p (dir_val d) ≠ empty_key → get_edges_local g v d p = Ok (vals_at kv v p d).
Proof. intros Hv Hp Hd Hne. apply (get_edges_local_rep g kv); [done| |done]. destruct d; try done; split; simpl; unfold NBITS_VID, NBITS_IDX, NBITS_DIR; lia. Qed.

Lemma absent_spec v p d : 0 <= v < 2 ^ 46 → 0 < p < 2 ^ 17 → d ≠ CORUN → ∃ a, absent g v p d = Ok a ∧ (a = true ↔ ¬ is_Some (kv !! IKey v p (dir_val d))).
Proof.
  intros Hv Hp Hd. unfold absent.
  assert (Hwf : key_wf (IKey v p (dir_val d))) by (destruct d; try done; split; simpl; unfold NBITS_VID, NBITS_IDX, NBITS_DIR; lia).
  rewrite (proj2 (mk_ikey_Ok v p d _)) by done. cbn [mbind outcome_bind].
  assert (Hne : IKey v p (dir_val d) ≠ empty_key) by (intros [=]; lia). destruct Hg as [m Hm].
  pose proof (get_vertex_local_lookup (hdr g) m _ (gs_hdr _ _ _ Hm) Hne) as Hl.
  assert (Hdom : is_Some (m !! IKey v p (dir_val d)) ↔ is_Some (kv !! IKey v p (dir_val d))) by (rewrite <-!elem_of_dom; by rewrite (gs_dom _ _ _ Hm)).
  destruct (m !! IKey v p (dir_val d)) as [s|] eqn:E.
  - destruct Hl as (vt & _ & Hk & ->). cbn [mbind outcome_bind]. eexists. split; [done|]. destruct (is_empty_spec (v_key vt)) as [?|_]; [congruence|].
    split; [done|]. intros Hn. destruct Hn. by apply Hdom.
  - rewrite Hl. cbn [mbind outcome_bind]. exists true. split; [done|]. split; [|done]. intros _ Hs. by apply Hdom in Hs as [].
Qed.

Lemma is_tpid_range p : is_tpid p = true → 1 < p < 2 ^ 17.
Proof. unfold is_tpid. change (Z.shiftl 1 NBITS_IDX) with (2 ^ 17). rewrite andb_true_iff, !Z.ltb_lt. lia. Qed.

(** the values of a key that is checked *)
Lemma own_values v p d vals : kv !! IKey v p (dir_val d) = Some vals → d ≠ CORUN → 0 < p < 2 ^ 17 →
  get_edges_local g (u32 v) (key_dir (IKey v p (dir_val d))) p = Ok vals.
Proof.
  intros Hk Hd Hp. pose proof (ck_vid _ Hck _ _ Hk) as Hv. simpl in Hv. rewrite u32_id by done. assert (key_dir (IKey v p (dir_val d)) = d) as -> by (by destruct d).
  rewrite read_key; [|lia|lia|done|intros [=]; lia]. unfold vals_at. by rewrite Hk.
Qed.

Lemma idx_indir_spec p vals : kv !! IKey 0 p (dir_val IN) = Some vals → 1 < p < 2 ^ 17 →
  ∃ rs, idx_check_indir g (IKey 0 p (dir_val IN)) = Ok rs ∧
    (rs = [] ↔ ∀ x, x ∈ vals → (occurs p (vals_at kv x TYPE_ID OUT) <= 1)%nat ∧
      (vals_at kv x TYPE_ID OUT = [] ∨ p ∈ vals_at kv x TYPE_ID OUT ∨ is_Some (kv !! IKey x p (dir_val OUT)))).
Proof.
  intros Hk Hp. unfold idx_check_indir. cbn [k_vid k_pid]. rewrite (own_values 0 p IN vals) by (done || lia). cbn [mbind outcome_bind].
  apply for_values_spec. intros x Hx. pose proof (ck_index _ Hck _ _ x Hk eq_refl Hx). rewrite read_key by (done || lia || (intros [=])). cbn [mbind outcome_bind].
  destruct (look_for_spec false p (vals_at kv x TYPE_ID OUT) false) as (n & -> & Hn). rewrite orb_false_l in *. cbn [Nat.add] in Hn.
  destruct (vals_at kv x TYPE_ID OUT) as [|t0 ts] eqn:Ets.
  { cbn [length Nat.ltb Nat.leb andb negb]. eexists. split; [done|]. rewrite replicate_nil, Hn. tauto. }
  change (0 <? length (t0 :: ts))%nat with true. cbn [andb]. case_bool_decide as Hin; cbn [negb].
  - eexists. split; [done|]. rewrite replicate_nil, Hn. tauto.
  - destruct (absent_spec x p OUT) as (a & -> & Ha); [lia|lia|done|]. cbn [mbind outcome_bind]. eexists. split; [done|].
    rewrite app_nil, replicate_nil, Hn. destruct a.
    + split; [by intros []|]. intros (_ & [?|[?|Hs]]); [done|done|]. by apply Ha in Hs.
    + split; [intros [? _]|intros [? _]; done]. split; [done|]. right. right. apply dec_stable. intros Hno. by apply Ha in Hno.
Qed.

Lemma idx_outdir_spec p vals : kv !! IKey 0 p (dir_val OUT) = Some vals → 1 < p < 2 ^ 17 →
  ∃ rs, idx_check_outdir g (IKey 0 p (dir_val OUT)) = Ok rs ∧ (rs = [] ↔ ∀ x, x ∈ vals → is_Some (kv !! IKey x p (dir_val IN))).
Proof.
  intros Hk Hp. unfold idx_check_outdir. cbn [k_vid k_pid]. rewrite (own_values 0 p OUT vals) by (done || lia). cbn [mbind outcome_bind].
  apply for_values_spec. intros x Hx. pose proof (ck_index _ Hck _ _ x Hk eq_refl Hx).
  destruct (absent_spec x p IN) as (a & -> & Ha); [lia|lia|done|]. cbn [mbind outcome_bind]. eexists. split; [done|].
  destruct a; [split; [done|]; intros Hs; by apply Ha in Hs|]. split; [|done]. intros _. apply dec_stable. intros Hno. by apply Ha in Hno.
Qed.

Lemma nt_spec v vals : kv !! IKey v TYPE_ID (dir_val OUT) = Some vals → v ≠ 0 →
  ∃ rs, nt_check g (IKey v TYPE_ID (dir_val OUT)) = Ok rs ∧ (rs = [] ↔ ∀ t, t ∈ vals → occurs v (vals_at kv 0 t IN) = 1%nat).
Proof.
  intros Hk Hv. unfold nt_check. cbn [k_vid k_pid]. rewrite (own_values v TYPE_ID OUT vals) by (done || (unfold TYPE_ID; lia)). cbn [mbind outcome_bind].
  apply for_values_spec. intros t Ht. pose proof (ck_type _ Hck _ _ t Hk eq_refl Hv Ht). rewrite read_key; [|lia|lia|done|intros [=]; lia].
  cbn [mbind outcome_bind]. eexists. split; [done|]. apply check_once_spec.
Qed.

Lemma np_spec v p d d' : 1 < p < 2 ^ 17 → d' ≠ CORUN →
  ∃ rs, np_check g (IKey v p d) d' = Ok rs ∧ (rs = [] ↔ occurs v (vals_at kv 0 p d') = 1%nat).
Proof.
  intros Hp Hd. unfold np_check. cbn [k_vid k_pid]. rewrite read_key; [|lia|lia|done|intros [=]; lia]. cbn [mbind outcome_bind].
  eexists. split; [done|]. apply check_once_spec.
Qed.

Lemma check_vertex_spec st k vals : kv !! k = Some vals →
  ∃ i n rs, check_on_vertex false g true true st k = Ok (MkChecked i n (reports st ++ rs)) ∧ (rs = [] ↔ key_fits kv k vals).
Proof.
  assert (Hone : ∀ r P (f : list report → checked), (∃ rs, r = Ok rs ∧ (rs = [] ↔ P)) → (∀ rs, reports (f rs) = reports st ++ rs) →
    ∃ i n rs, (r ← r; Ok (f r)) = Ok (MkChecked i n (reports st ++ rs)) ∧ (rs = [] ↔ P)).
  { intros r P f (rs & -> & Hrs) Hf. exists (ivertex_num (f rs)), (nvertex_num (f rs)), rs. split; [|done]. cbn [mbind outcome_bind]. rewrite <-Hf. by destruct (f rs). }
  intros Hk. destruct k as [v p d]. unfold check_on_vertex, key_fits, when. cbn [k_vid k_pid k_dir andb mbind outcome_bind].
  destruct ((v =? 0) && is_tpid p && (d =? dir_val IN)) eqn:E1; [|clear E1; destruct ((v =? 0) && is_tpid p && (d =? dir_val OUT)) eqn:E2;
    [|clear E2; destruct (is_vid (i32 v) && (p =? TYPE_ID) && (d =? dir_val OUT)) eqn:E3;
    [|clear E3; destruct (is_vid (i32 v) && is_tpid p && (d =? dir_val OUT)) eqn:E4;
    [|clear E4; destruct (is_vid (i32 v) && is_tpid p && (d =? dir_val IN)) eqn:E5]]]].
  - apply andb_true_iff in E1 as [[->%Z.eqb_eq Hp%is_tpid_range]%andb_true_iff ->%Z.eqb_eq].
    apply Hone; [by apply idx_indir_spec|]. intros rs. simpl. by rewrite app_nil_r.
  - apply andb_true_iff in E2 as [[->%Z.eqb_eq Hp%is_tpid_range]%andb_true_iff ->%Z.eqb_eq].
    apply Hone; [by apply idx_outdir_spec|]. intros rs. simpl. by rewrite app_nil_r.
  - apply andb_true_iff in E3 as [[Hv ->%Z.eqb_eq]%andb_true_iff ->%Z.eqb_eq].
    apply Hone; [apply nt_spec; [done|by intros ->]|]. intros rs. simpl. by rewrite app_nil_r.
  - apply andb_true_iff in E4 as [[Hv Hp%is_tpid_range]%andb_true_iff ->%Z.eqb_eq]. apply Hone; [by apply np_spec|done].
  - apply andb_true_iff in E5 as [[Hv Hp%is_tpid_range]%andb_true_iff ->%Z.eqb_eq]. apply Hone; [by apply np_spec|done].
  - exists (ivertex_num st), (nvertex_num st), []. rewrite app_nil_r. split; [by destruct st|done].
Qed.
End checker.

(** ** The whole store *)

Lemma check_bucket_entries versatile g m kv ic nc st s n : gs_ok g m kv → (s + n <= length (vertices (hdr g)))%nat →
  (∀ t, t ∈ seq s n → used (vertices (hdr g)) t → ∃ k, m !! k = Some t) →
  check_bucket versatile g n ic nc st s = foldM (λ st e, check_on_vertex versatile g ic nc st e.1) st (omap (stat_pick g) (seq s n)).
Proof.
  intros Hg. revert s st. induction n as [|n IH]; intros s st Hl Hu; [done|]. cbn [check_bucket seq omap list_omap].
  rewrite stat_pick_used. destruct (lookup_lt_is_Some_2 (vertices (hdr g)) s) as [v Hv]; [lia|]. rewrite (proj2 (read_Ok _ _ _) Hv). cbn [mbind outcome_bind].
  case_decide as Hd.
  - destruct (Hu s) as [k Hk]; [set_solver|done|]. destruct (entry_of_rep g m kv s k Hg Hk) as (v' & vals & Hv' & <- & _ & _ & E2).
    rewrite Hv in Hv'. injection Hv' as <-. destruct Hd as (v0 & Hv0 & Hne). destruct (is_empty_spec (v_key v)); [congruence|].
    rewrite E2. cbn [foldM fst]. destruct (check_on_vertex _ _ _ _ _ _) as [st'|]; simpl; [|done]. apply IH; [lia|]. intros t Ht. apply Hu. set_solver.
  - destruct (is_empty_spec (v_key v)) as [He|He]; [|destruct Hd; by exists v]. apply IH; [lia|]. intros t Ht. apply Hu. set_solver.
Qed.

Lemma gstore_check_entries versatile g kv ic nc : gs_rep g kv →
  gstore_check versatile g ic nc = foldM (λ st e, check_on_vertex versatile g ic nc st e.1) (MkChecked 0 0 []) (stat_entries g).
Proof.
  intros [m Hg]. unfold gstore_check, stat_entries, slots_of. rewrite omap_bind, <-foldM_bind. apply foldM_ext. intros st b Hb. apply elem_of_seq in Hb.
  pose proof (gs_hdr _ _ _ Hg) as (ch & ky & Hok & _).
  apply (check_bucket_entries versatile g m kv ic nc st _ _ Hg).
  - pose proof (ok_len _ _ _ Hok). pose proof (ok_cap _ _ _ Hok). change ASSOCIATIVITY with 8%nat in *. lia.
  - intros t Ht Hu. apply (used_rep g m kv t Hg), list_elem_of_filter. split; [done|]. unfold slots_of. apply list_elem_of_bind. exists b. split; [done|].
    apply elem_of_seq. lia.
Qed.

(** the checker reports nothing exactly if every key fits *)
Lemma gstore_check_ok g kv : gs_rep g kv → checkable kv → ∃ st, gstore_check false g true true = Ok st ∧ (reports st = [] ↔ passes kv).
Proof.
  intros Hg Hck. rewrite (gstore_check_entries false g kv true true Hg).
  assert (Hin : ∀ k vals, (k, vals) ∈ stat_entries g ↔ kv !! k = Some vals) by (intros k vals; by rewrite (stat_entries_perm g kv Hg), elem_of_map_to_list).
  assert (Hall : ∀ es st, (∀ k vals, (k, vals) ∈ es → kv !! k = Some vals) →
    ∃ st', foldM (λ st e, check_on_vertex false g true true st e.1) st es = Ok st' ∧ (reports st' = [] ↔ reports st = [] ∧ ∀ k vals, (k, vals) ∈ es → key_fits kv k vals)).
  { intros es. induction es as [|[k vals] es IH]; intros st Hes; cbn [foldM fst].
    - exists st. split; [done|]. split; [|by intros []]. intros ?. split; [done|set_solver].
    - destruct (check_vertex_spec g kv Hg Hck st k vals) as (i & n & rs & -> & Hrs); [apply Hes; set_solver|]. cbn [mbind outcome_bind].
      destruct (IH (MkChecked i n (reports st ++ rs))) as (st' & -> & Hst'); [set_solver|]. exists st'. split; [done|]. rewrite Hst'. simpl. rewrite app_nil, Hrs.
      split; [intros [[? ?] ?]; split; [done|]; intros k' vals' [[= -> ->]|?]%elem_of_cons; auto|]. intros [? Hf]. split; [split; [done|apply Hf; set_solver]|set_solver]. }
  destruct (Hall (stat_entries g) (MkChecked 0 0 [])) as (st & E & Hst); [by intros k vals Hk%Hin|]. exists st. split; [done|]. rewrite Hst. unfold passes.
  split; [intros [_ Hf] k vals Hk%Hin; auto|]. intros Hc. split; [done|]. intros k vals Hk%Hin. auto.
Qed.

(** ** A loaded store passes *)

Lemma NoDup_bind_disjoint {A B} (f : A → list B) (l : list A) :
  NoDup l → (∀ a, a ∈ l → NoDup (f a)) → (∀ a b x, a ∈ l → b ∈ l → x ∈ f a → x ∈ f b → a = b) → NoDup (l ≫= f).
Proof.
  induction 1 as [|a l Ha Hl IH]; intros Hf Hd; [constructor|]. rewrite bind_cons. apply NoDup_app. split_and!.
  - apply Hf. set_solver.
  - intros x Hx (b & Hxb & Hb)%list_elem_of_bind. destruct Ha. assert (a = b) as -> by (eapply Hd; [set_solver|set_solver|done|done]). done.
  - apply IH; [set_solver|]. intros b c x Hb Hc. apply Hd; set_solver.
Qed.

Lemma NoDup_type_vids kv es t :
  es ≡ₚ map_to_list kv → (∀ k vals, kv !! k = Some vals → k_dir k = 0 ∨ k_dir k = 1) →
  (∀ k vals, kv !! k = Some vals → k_pid k = TYPE_ID → k_dir k = 1 → NoDup vals) → NoDup (type_vids es t).
Proof.
  intros Hes Hd Hnd.
  assert (Hel : ∀ k vals, (k, vals) ∈ es ↔ kv !! k = Some vals) by (intros k vals; by rewrite Hes, elem_of_map_to_list).
  unfold type_vids. apply NoDup_bind_disjoint.
  - rewrite Hes. apply NoDup_map_to_list.
  - intros [k vals] Hk%Hel. simpl. destruct (negb (dir_in k) && (k_pid k =? TYPE_ID)) eqn:E; [|constructor].
    apply andb_true_iff in E as [E1%negb_true_iff E2%Z.eqb_eq].
    assert (Hv : NoDup vals) by (apply (Hnd k vals Hk E2); destruct (Hd k vals Hk) as [E|]; [|done]; unfold dir_in in E1; by rewrite E in E1).
    pose proof (occurs_nodup t vals Hv) as Ho. unfold occurs in Ho. destruct (filter (λ y, y = t) vals) as [|y [|z l]]; simpl in *; [constructor|apply NoDup_singleton|lia].
  - intros [k vals] [k' vals'] x Hk%Hel Hk'%Hel Hx Hx'. simpl in Hx, Hx'.
    destruct (negb (dir_in k) && (k_pid k =? TYPE_ID)) eqn:E; [|set_solver]. destruct (negb (dir_in k') && (k_pid k' =? TYPE_ID)) eqn:E'; [|set_solver].
    apply andb_true_iff in E as [E1%negb_true_iff E2%Z.eqb_eq]. apply andb_true_iff in E' as [E1'%negb_true_iff E2'%Z.eqb_eq].
    apply list_elem_of_fmap in Hx as (? & -> & _). apply list_elem_of_fmap in Hx' as (? & Ex & _).
    assert (k = k') as <-; [|by rewrite Hk in Hk'; simplify_eq].
    pose proof (Hd _ _ Hk) as Hdk. pose proof (Hd _ _ Hk') as Hdk'. destruct k as [v p d], k' as [v' p' d']. unfold dir_in in E1, E1'. simpl in *. subst p p' v'.
    f_equal. destruct Hdk as [-> | ->], Hdk' as [-> | ->]; done.
Qed.

Lemma default_elem_some {A} (y : A) (o : option (list A)) : y ∈ default [] o → is_Some o.
Proof. destruct o; [by eexists|]. simpl. set_solver. Qed.

Section loaded.
  Context (spo ops : list triple_t) (kv kv1 : gmap ikey_t (list sid_t)) (es : list (ikey_t * list sid_t)).
  Hypothesis Hds : dataset_ok spo ops.
  Hypothesis Hspo : NoDup spo.
  Hypothesis Hle : loaded_exactly spo ops kv kv1 es.

Lemma exactly_loaded : loaded spo ops kv.
Proof. destruct (dataset_ops_wf _ _ Hds) as [Hwo Hbo], Hle. destruct Hds. by eapply loaded_kv. Qed.
  Abbreviation ld := exactly_loaded.

Lemma exactly_normal : normal_kv kv1.
Proof. destruct (dataset_ops_wf _ _ Hds) as [Hwo _], Hle. destruct Hds. by apply (normal_value_normal false spo ops). Qed.

Lemma exactly_key k vals : kv1 !! k = Some vals → vals = normal_value false spo ops k ∧ (k_dir k = 0 ∨ k_dir k = 1) ∧ is_sid (k_vid k).
Proof.
  destruct (dataset_ops_wf _ _ Hds) as [Hwo Hbo]. rewrite (le_normal _ _ _ _ _ Hle). intros Hk.
  assert (Hne : normal_value false spo ops k ≠ []) by (by destruct (normal_value _ _ _ _)). split_and!.
  - by destruct (normal_value _ _ _ _); simplify_eq/=.
  - destruct (normal_value_occ false spo ops (ds_ops _ _ Hds) Hwo k Hne) as [[-> _]|[-> _]]; simpl; auto.
  - by apply (normal_key_sid spo ops (ds_ops _ _ Hds) (ds_wf _ _ Hds) Hwo (ds_blank _ _ Hds) Hbo k Hne).
Qed.

Lemma vals_once x p : NoDup (normal_value false spo ops (IKey x p (dir_val OUT))).
Proof.
  unfold normal_value, vp_edges. simpl. apply NoDup_fmap_2_strong; [|by apply NoDup_filter].
  intros [s1 p1 o1] [s2 p2 o2] [[??] _]%list_elem_of_filter [[??] _]%list_elem_of_filter ?. simpl in *. congruence.
Qed.

Lemma index_once p d : 1 < p → NoDup (vals_at kv 0 p d).
Proof.
  intros Hp. unfold vals_at. rewrite (le_index _ _ _ _ _ Hle). case_bool_decide as E; cycle 1.
  { destruct (kv1 !! IKey 0 p (dir_val d)) as [vals|] eqn:Ek; [|constructor]. exfalso. apply E. split; [done|]. by apply exactly_key in Ek as (_ & ? & _). }
  rewrite opt_list_default. unfold index_value.
  assert (Hpr : ∀ inc, NoDup (pred_vids inc es p)) by (intros inc; eapply NoDup_pred_vids; [apply Hle|by intros k vals (_ & ? & _)%exactly_key]).
  destruct (dir_in _); simpl; [|done]. apply NoDup_app. split_and!; [| |done].
  - eapply NoDup_type_vids; [apply Hle|by intros k vals (_ & ? & _)%exactly_key|]. intros [x q e] vals (-> & _)%exactly_key Hq He. simpl in *. subst q e. apply vals_once.
  - intros x (k & vals & Hk & Hd & Ht & Hx & _)%type_vids_elem (k' & vals' & Hk' & _ & Hd' & Hp' & _)%pred_vids_elem.
    rewrite (le_entries _ _ _ _ _ Hle), elem_of_map_to_list in Hk, Hk'. by apply (nk_disj _ exactly_normal k vals k' vals' p).
Qed.

(** the keys of the store are index keys or those of the triples *)
Lemma normal_key k vals : kv !! k = Some vals → k_vid k ≠ 0 → kv1 !! k = Some vals.
Proof. rewrite (le_index _ _ _ _ _ Hle). intros Hk Hv. rewrite bool_decide_false in Hk by (by intros [? _]). done. Qed.

Lemma normal_key_elem k vals : kv !! k = Some vals → k_vid k ≠ 0 → ∃ y, y ∈ vals.
Proof. intros Hk Hv. pose proof (nk_vals _ exactly_normal k vals (normal_key _ _ Hk Hv)) as Hne. destruct vals as [|y vals]; [done|]. exists y. set_solver. Qed.

Lemma loaded_checkable : checkable kv.
Proof.
  split.
  - intros k vals Hk. destruct (decide (k_vid k = 0)) as [->|Hv]; [lia|]. destruct (exactly_key k vals (normal_key _ _ Hk Hv)) as (_ & _ & ?). done.
  - intros k vals x Hk _ Hx. pose proof (kp_sid _ (ld_plain _ _ _ ld) k vals Hk) as Hs. rewrite Forall_forall in Hs. by apply Hs.
  - intros k vals t Hk Hp Hv Ht. pose proof (nk_type _ exactly_normal k vals t (normal_key _ _ Hk Hv) Hp Ht). lia.
Qed.

Lemma loaded_passes : passes kv.
Proof.
  pose proof (ds_wf _ _ Hds) as Hwf. rewrite Forall_forall in Hwf.
  intros [v p d] vals Hk. assert (Hat : ∀ d', d = dir_val d' → vals_at kv v p d' = vals) by (intros d' ->; unfold vals_at; by rewrite Hk).
  unfold key_fits.
  destruct ((v =? 0) && is_tpid p && (d =? dir_val IN)) eqn:E1; [|clear E1; destruct ((v =? 0) && is_tpid p && (d =? dir_val OUT)) eqn:E2;
    [|clear E2; destruct (is_vid (i32 v) && (p =? TYPE_ID) && (d =? dir_val OUT)) eqn:E3;
    [|clear E3; destruct (is_vid (i32 v) && is_tpid p && (d =? dir_val OUT)) eqn:E4;
    [|clear E4; destruct (is_vid (i32 v) && is_tpid p && (d =? dir_val IN)) eqn:E5; [|done]]]]].
  - apply andb_true_iff in E1 as [[->%Z.eqb_eq Hp%is_tpid_range]%andb_true_iff ->%Z.eqb_eq]. intros x Hx. rewrite <-(Hat IN eq_refl) in Hx.
    apply (ld_idx_in _ _ _ ld) in Hx as (t & Ht & <- & Hpt); [|lia]. destruct (Hwf t Ht) as [Ws _ _]. split.
    + apply occurs_nodup. unfold vals_at. rewrite (le_index _ _ _ _ _ Hle), bool_decide_false by (simpl; lia). rewrite (le_normal _ _ _ _ _ Hle), opt_list_default. apply vals_once.
    + right. destruct t as [s q o]. simpl in *. destruct Hpt as [-> |[-> ->]]; [right|left].
      * apply (default_elem_some o). apply (ld_out _ _ _ ld); [lia|lia|done].
      * apply (ld_out _ _ _ ld); [lia|done|done].
  - apply andb_true_iff in E2 as [[->%Z.eqb_eq Hp%is_tpid_range]%andb_true_iff ->%Z.eqb_eq]. intros x Hx. rewrite <-(Hat OUT eq_refl) in Hx.
    apply (ld_idx_out _ _ _ ld) in Hx as ([s q o] & Ht & <- & <- & Ho); [|lia]. simpl in *. apply (default_elem_some s). apply (ld_in _ _ _ ld); [lia|lia|done].
  - apply andb_true_iff in E3 as [[Hv ->%Z.eqb_eq]%andb_true_iff ->%Z.eqb_eq]. assert (v ≠ 0) by (by intros ->). intros t Ht. rewrite <-(Hat OUT eq_refl) in Ht.
    apply (ld_out _ _ _ ld) in Ht; [|done|done]. destruct (Hwf _ Ht) as [_ _ Wo]. simpl in Wo. apply occurs_once; [apply index_once; lia|].
    apply (ld_idx_in _ _ _ ld); [lia|]. by eexists; split_and!; [done|done|right].
  - apply andb_true_iff in E4 as [[Hv Hp%is_tpid_range]%andb_true_iff ->%Z.eqb_eq]. assert (v ≠ 0) by (by intros ->).
    destruct (normal_key_elem _ _ Hk) as [y Hy]; [done|]. rewrite <-(Hat OUT eq_refl) in Hy. apply (ld_out _ _ _ ld) in Hy; [|done|lia].
    apply occurs_once; [apply index_once; lia|]. apply (ld_idx_in _ _ _ ld); [lia|]. by eexists; split_and!; [done|done|left].
  - apply andb_true_iff in E5 as [[Hv Hp%is_tpid_range]%andb_true_iff ->%Z.eqb_eq]. assert (v ≠ 0) by (by intros ->).
    destruct (normal_key_elem _ _ Hk) as [y Hy]; [done|]. rewrite <-(Hat IN eq_refl) in Hy. apply (ld_in _ _ _ ld) in Hy as [Hy Hv']; [|done|lia].
    apply occurs_once; [apply index_once; lia|]. apply (ld_idx_out _ _ _ ld); [lia|]. by eexists; split_and!.
Qed.
End loaded.

(** C31: the checker of the store accepts every loaded store: after loading a data set
    without repeated triples into a refreshed store with room, in any order of the
    parallel scan, [gstore_check] returns and logs nothing. *)
Theorem loaded_store_checked `{TbbOrder} (g : gstore) (spo ops : list triple_t) :
  dataset_ok spo ops → NoDup spo → header_sizes (hdr g) → length (edges g) = num_entries g →
  room (refresh g) (2 * (length spo + length ops) + 3) (5 * (length spo + length ops)) →
  ∃ g1, insert_normal false (refresh g) spo ops = Ok g1 ∧
    ∀ bs, bs ≡ₚ seq 0 (num_buckets (hdr g1) + last_ext (hdr g1)) →
    ∃ g2 st, insert_index false g1 bs = Ok g2 ∧ gstore_check false g2 true true = Ok st ∧ reports st = [].
Proof.
  intros Hds Hnd Hh Hl Hr. destruct (load_exact g spo ops Hds Hh Hl Hr) as (g1 & E1 & Hg1). exists g1. split; [done|]. intros bs Hbs.
  destruct (Hg1 bs Hbs) as (g2 & kv & kv1 & es & E2 & Hg2 & Hle). destruct (gstore_check_ok g2 kv Hg2) as (st & Est & Hst); [by eapply loaded_checkable|].
  exists g2, st. split_and!; [done|done|]. apply Hst. by eapply loaded_passes.
Qed.

Lemma loaded_store_checked_witness :
  ∃ g1, insert_normal false (refresh bigger_store) typed_triples typed_triples = Ok g1 ∧
  ∃ g2 st, insert_index (H := list_order) false g1 (seq 0 (num_buckets (hdr g1) + last_ext (hdr g1))) = Ok g2 ∧
    gstore_check false g2 true true = Ok st ∧ reports st = [].
Proof.
  destruct (loaded_store_checked (H := list_order) bigger_store typed_triples typed_triples) as (g1 & E1 & Hg1).
  - exact typed_dataset.
  - unfold typed_triples. repeat constructor; set_solver.
  - split; simpl; unfold ASSOCIATIVITY; lia.
  - done.
  - split; simpl; lia.
  - exists g1. split; [exact E1|]. destruct (Hg1 (seq 0 (num_buckets (hdr g1) + last_ext (hdr g1)))) as (g2 & st & H2); [reflexivity|]. exists g2, st. exact H2.
Defined.

(** ** Consistent stores *)

Lemma occurs_all_nodup l : (∀ x, x ∈ l → (occurs x l <= 1)%nat) → NoDup l.
Proof.
  induction l as [|y l IH]; intros Hl; [constructor|]. constructor.
  - intros Hy%occurs_pos. specialize (Hl y ltac:(by left)). rewrite occurs_cons, decide_True in Hl by done. lia.
  - apply IH. intros x Hx. specialize (Hl x ltac:(by right)). rewrite occurs_cons in Hl. destruct (decide (y = x)); lia.
Qed.

Section consistent.
  Context (kv : gmap ikey_t (list sid_t)).

Definition vertex (x : Z) : Prop := is_vid (i32 x) = true.
(** [x] has the type [p], or edges of the predicate [p] *)
Definition belongs (x p : Z) : Prop := p ∈ vals_at kv x TYPE_ID OUT ∨ is_Some (kv !! IKey x p (dir_val OUT)).

(** The indexes say exactly what the normal keys say: [0|p|IN] has the instances of the type
    or the subjects of the predicate [p], [0|p|OUT] its objects, each of them once; and no
    vertex has a type twice. *)
Record consistent : Prop := {
  cs_in x p : vertex x → is_tpid p = true → x ∈ vals_at kv 0 p IN ↔ belongs x p;
  cs_out x p : vertex x → is_tpid p = true → x ∈ vals_at kv 0 p OUT ↔ is_Some (kv !! IKey x p (dir_val IN));
  cs_once p d : is_tpid p = true → d ≠ CORUN → NoDup (vals_at kv 0 p d);
  cs_types x : vertex x → NoDup (vals_at kv x TYPE_ID OUT)
}.

(** the ids are where they belong: vertices in normal keys and in indexes, types in the
    values of [TYPE_ID] *)
Record regular : Prop := {
  rg_index x p d : is_tpid p = true → d ≠ CORUN → x ∈ vals_at kv 0 p d → vertex x;
  rg_type x t : vertex x → t ∈ vals_at kv x TYPE_ID OUT → is_tpid t = true
}.
(** every vertex of an index of subjects or instances has a type *)
Definition typed : Prop := ∀ x p, is_tpid p = true → x ∈ vals_at kv 0 p IN → vals_at kv x TYPE_ID OUT ≠ [].

Lemma vertex_ne x : vertex x → x ≠ 0.
Proof. by intros Hx ->. Qed.
Lemma vals_key v p d x : x ∈ vals_at kv v p d → kv !! IKey v p (dir_val d) = Some (vals_at kv v p d).
Proof. unfold vals_at. destruct (kv !! _); [done|]. by intros ?%elem_of_nil. Qed.

(** the checks of single keys *)
Section passed.
  Hypothesis Hp : passes kv.

Lemma passed_in x p : is_tpid p = true → x ∈ vals_at kv 0 p IN → (occurs p (vals_at kv x TYPE_ID OUT) <= 1)%nat ∧ (vals_at kv x TYPE_ID OUT = [] ∨ belongs x p).
Proof. intros Ht Hx. pose proof (Hp _ _ (vals_key _ _ _ _ Hx)) as Hf. unfold key_fits in Hf. cbn [Z.eqb andb] in Hf. rewrite Ht in Hf. by apply Hf. Qed.
Lemma passed_out x p : is_tpid p = true → x ∈ vals_at kv 0 p OUT → is_Some (kv !! IKey x p (dir_val IN)).
Proof. intros Ht Hx. pose proof (Hp _ _ (vals_key _ _ _ _ Hx)) as Hf. unfold key_fits in Hf. cbn [Z.eqb andb] in Hf. rewrite Ht in Hf. by apply Hf. Qed.
Lemma passed_type x t : vertex x → t ∈ vals_at kv x TYPE_ID OUT → occurs x (vals_at kv 0 t IN) = 1%nat.
Proof.
  intros Hv Ht. pose proof (Hp _ _ (vals_key _ _ _ _ Ht)) as Hf. unfold key_fits in Hf. rewrite (proj2 (Z.eqb_neq _ _) (vertex_ne x Hv)), Hv in Hf. cbn in Hf. by apply Hf.
Qed.
Lemma passed_pred x p : vertex x → is_tpid p = true → is_Some (kv !! IKey x p (dir_val OUT)) → occurs x (vals_at kv 0 p IN) = 1%nat.
Proof.
  intros Hv Ht [vals Hk]. pose proof (Hp _ _ Hk) as Hf. unfold key_fits in Hf. rewrite (proj2 (Z.eqb_neq _ _) (vertex_ne x Hv)), Hv, Ht in Hf.
  assert ((p =? TYPE_ID) = false) as E by (apply is_tpid_range in Ht; unfold TYPE_ID; lia). rewrite E in Hf. exact Hf.
Qed.
Lemma passed_obj x p : vertex x → is_tpid p = true → is_Some (kv !! IKey x p (dir_val IN)) → occurs x (vals_at kv 0 p OUT) = 1%nat.
Proof.
  intros Hv Ht [vals Hk]. pose proof (Hp _ _ Hk) as Hf. unfold key_fits in Hf. rewrite (proj2 (Z.eqb_neq _ _) (vertex_ne x Hv)), Hv, Ht in Hf.
  cbn [andb] in Hf. change (dir_val IN =? dir_val OUT) with false in Hf. rewrite andb_false_r in Hf. exact Hf.
Qed.
Lemma passed_belongs x p : vertex x → is_tpid p = true → belongs x p → occurs x (vals_at kv 0 p IN) = 1%nat.
Proof. intros Hv Ht [Hx|Hx]; [by apply passed_type|by apply passed_pred]. Qed.

(** with types everywhere, nothing is missed *)
Lemma passed_consistent : regular → typed → consistent.
Proof.
  intros [Hri Hrt] Hty. assert (Hin : ∀ x p, is_tpid p = true → x ∈ vals_at kv 0 p IN → belongs x p).
  { intros x p Ht Hx. destruct (passed_in x p Ht Hx) as [_ [E|?]]; [by destruct (Hty x p Ht Hx)|done]. }
  split.
  - intros x p Hv Ht. split; [by apply Hin|]. intros Hb. apply occurs_pos. rewrite passed_belongs by done. lia.
  - intros x p Hv Ht. split; [by apply passed_out|]. intros Hb. apply occurs_pos. rewrite passed_obj by done. lia.
  - intros p d Ht Hd. apply occurs_all_nodup. intros x Hx. pose proof (Hri x p d Ht Hd Hx) as Hv. destruct d; [| |done].
    + rewrite (passed_belongs x p Hv Ht (Hin x p Ht Hx)). lia.
    + rewrite (passed_obj x p Hv Ht (passed_out x p Ht Hx)). lia.
  - intros x Hv. apply occurs_all_nodup. intros t Ht. apply passed_in; [by eapply Hrt|]. apply occurs_pos. rewrite passed_type by done. lia.
Qed.
End passed.

(** no false alarm *)
Lemma consistent_passes : regular → consistent → passes kv.
Proof.
  intros [Hri Hrt] [Hin Hout Honce Htypes] [v p d] vals Hk. assert (Hat : ∀ d', d = dir_val d' → vals_at kv v p d' = vals) by (intros d' ->; unfold vals_at; by rewrite Hk).
  unfold key_fits. destruct ((v =? 0) && is_tpid p && (d =? dir_val IN)) eqn:E1; [|clear E1; destruct ((v =? 0) && is_tpid p && (d =? dir_val OUT)) eqn:E2;
    [|clear E2; destruct (is_vid (i32 v) && (p =? TYPE_ID) && (d =? dir_val OUT)) eqn:E3;
    [|clear E3; destruct (is_vid (i32 v) && is_tpid p && (d =? dir_val OUT)) eqn:E4;
    [|clear E4; destruct (is_vid (i32 v) && is_tpid p && (d =? dir_val IN)) eqn:E5; [|done]]]]].
  - apply andb_true_iff in E1 as [[->%Z.eqb_eq Ht]%andb_true_iff ->%Z.eqb_eq]. intros x Hx. rewrite <-(Hat IN eq_refl) in Hx. pose proof (Hri x p IN Ht ltac:(done) Hx) as Hv.
    split; [by apply occurs_nodup, Htypes|right; by apply Hin].
  - apply andb_true_iff in E2 as [[->%Z.eqb_eq Ht]%andb_true_iff ->%Z.eqb_eq]. intros x Hx. rewrite <-(Hat OUT eq_refl) in Hx. pose proof (Hri x p OUT Ht ltac:(done) Hx) as Hv. by apply Hout.
  - apply andb_true_iff in E3 as [[Hv ->%Z.eqb_eq]%andb_true_iff ->%Z.eqb_eq]. intros t Ht. rewrite <-(Hat OUT eq_refl) in Ht. pose proof (Hrt v t Hv Ht) as Htp.
    apply occurs_once; [by apply Honce|]. apply Hin; [done..|by left].
  - apply andb_true_iff in E4 as [[Hv Ht]%andb_true_iff ->%Z.eqb_eq]. apply occurs_once; [by apply Honce|]. apply Hin; [done..|right; by eexists].
  - apply andb_true_iff in E5 as [[Hv Ht]%andb_true_iff ->%Z.eqb_eq]. apply occurs_once; [by apply Honce|]. apply Hout; [done..|by eexists].
Qed.
End consistent.

(** C32: what the checker of the store decides, in the default build, on a well-formed store
    whose ids are where they belong: [gstore_check] returns; it logs nothing if the store
    is consistent, that is, if the indexes have exactly the instances, subjects and
    objects that the normal keys say, each once, and no vertex has a type twice; and if it
    logs nothing, every type, predicate and incoming predicate of a vertex has the vertex
    in its index once, the index of objects has nothing else, and the store is consistent
    if the vertices of the other indexes have types. What it misses are entries of vertices
    without any type in an index of subjects or instances. *)
Theorem gstore_check_spec (g : gstore) (kv : gmap ikey_t (list sid_t)) :
  gs_rep g kv → checkable kv → regular kv → ∃ st, gstore_check false g true true = Ok st ∧
    (consistent kv → reports st = []) ∧
    (reports st = [] → typed kv → consistent kv) ∧
    (reports st = [] → ∀ x p, vertex x → is_tpid p = true →
       (belongs kv x p → occurs x (vals_at kv 0 p IN) = 1%nat) ∧
       (is_Some (kv !! IKey x p (dir_val IN)) → occurs x (vals_at kv 0 p OUT) = 1%nat) ∧
       (x ∈ vals_at kv 0 p OUT → is_Some (kv !! IKey x p (dir_val IN)))).
Proof.
  intros Hg Hck Hr. destruct (gstore_check_ok g kv Hg Hck) as (st & E & Hst). exists st. split; [done|]. rewrite Hst. split_and!.
  - by apply consistent_passes.
  - intros Hp Hty. by apply passed_consistent.
  - intros Hp x p Hv Ht. split_and!; [by apply passed_belongs|by apply passed_obj|by apply passed_out].
Qed.

(** one key whose vertex is missing from the index of its predicate *)
Lemma gstore_check_spec_witness : ∃ g kv,
  put_normal (refresh bigger_store) 131072 5 OUT [131073] = Ok g ∧ gs_rep g kv ∧ checkable kv ∧ regular kv ∧
  ∃ st, gstore_check false g true true = Ok st ∧ reports st ≠ [].
Proof.
  destruct (put_normal_ok (refresh bigger_store) ∅ 131072 5 OUT [131073]) as (g & Eg & Hg & _); [apply refresh_rep; [split; simpl; unfold ASSOCIATIVITY; lia|done]|done| | |split; simpl; lia|].
  - split; simpl; unfold NBITS_VID, NBITS_IDX, NBITS_DIR; lia.
  - intros [=].
  - rewrite insert_empty in Hg. set (kv := {[IKey 131072 5 (dir_val OUT) := [131073]]}) in Hg. exists g, kv.
    assert (Hc : checkable kv).
    { split; [|intros ? ? ? [<- <-]%lookup_singleton_Some [=]..]. intros k vals [<- <-]%lookup_singleton_Some. simpl. lia. }
    assert (Hv : ∀ v p d x, x ∈ vals_at kv v p d → IKey 131072 5 (dir_val OUT) = IKey v p (dir_val d)).
    { intros v p d x Hx%vals_key. by apply lookup_singleton_Some in Hx as [E _]. }
    assert (Hr : regular kv) by (split; [by intros x p d _ _ [=]%Hv|by intros x t _ [=]%Hv]).
    destruct (gstore_check_spec g kv Hg Hc Hr) as (st & Est & _ & _ & Hst). do 4 (split; [done|]). exists st. split; [done|].
    intros E. destruct (Hst E 131072 5) as [Hone _]; [done|done|]. discriminate Hone. right. by eexists.
Defined.

(** An index that lists a vertex twice, which has neither a type nor the predicate, passes. *)
Definition stray_entries : gmap ikey_t (list sid_t) := {[IKey 0 5 (dir_val IN) := [131072; 131072]]}.
Lemma untyped_entries_missed : passes stray_entries ∧ ¬ consistent stray_entries.
Proof.
  split.
  - intros k vals Hk. unfold stray_entries in Hk. apply lookup_singleton_Some in Hk as [<- <-]. intros x Hx. assert (x = 131072) as -> by (rewrite !elem_of_cons, elem_of_nil in Hx; tauto). split; [vm_compute; lia|left; reflexivity].
  - intros [_ _ Honce _]. specialize (Honce 5 IN eq_refl ltac:(done)). vm_compute in Honce. apply NoDup_cons in Honce as [Hn _]. apply Hn. by left.
Qed.
