(* ===== verification/PlanAnswer.v ===== *)
(** Loading, statistics, planning and execution together: a query is answered as it was
    written. And the queries that the planner of [core/planner.hpp] does not handle. *)

From S2P Require Import Prelude Types MyMath Keys HashTable GStore Runs Index IndexInsert Remote Attr.
From S2P Require Import Query Rows Engine EngineSteps Exec Final Server Frame Bgp EndToEnd.
From S2P Require Import Planner PlannerOk PlanEmpty PlanSound Stat StatOk.
Local Open Scope Z_scope.

(** the pairs of a store are at different slots *)
Lemma size_slots g kv : gs_rep g kv → (size kv <= num_slots (hdr g))%nat.
Proof.
  intros [m Hg]. assert (size kv = size m) as -> by (by rewrite <-!size_dom, (gs_dom _ _ _ Hg)). rewrite <-length_map_to_list, <-(length_fmap snd).
  rewrite <-(length_seq (num_slots (hdr g)) 0). pose proof (gs_hdr _ _ _ Hg) as Hh. apply submseteq_length, NoDup_submseteq.
  - assert (Hin : ∀ k s, (k, s) ∈ map_to_list m → m !! k = Some s) by (intros k s Hk; by apply elem_of_map_to_list).
    pose proof (NoDup_fst_map_to_list m) as Hnd. revert Hin Hnd. generalize (map_to_list m). intros l Hin Hnd.
    induction l as [|[k s] l IH]; simpl in *; [constructor|]. apply NoDup_cons in Hnd as [Hk Hnd]. apply NoDup_cons.
    split; [|apply IH; [set_solver|done]]. intros ([k' s'] & -> & Hks)%list_elem_of_fmap. apply Hk, list_elem_of_fmap. exists (k', s'). split; [|done]. simpl in *.
    eapply (ht_rep_inj _ _ k k' s'); [exact Hh|apply Hin; set_solver|apply Hin; set_solver].
  - intros s ([k s'] & -> & Hks%elem_of_map_to_list)%list_elem_of_fmap. destruct (ht_rep_slot _ _ _ _ Hh Hks) as (v & Hv & _).
    destruct Hh as (ch & ky & Hok & _). apply elem_of_seq. rewrite <-(ok_len _ _ _ Hok). apply lookup_lt_Some in Hv. simpl. lia.
Qed.

(** ** Planned queries *)

(** C3: planned queries are answered as they are written, by one server: loading a data
    set of triples succeeds, and so does counting its statistics, as long as the
    counters do not overflow. The query is connected and has up to 31 triple patterns;
    each has a constant predicate and one or two different variables, and for [rdf:type]
    a variable subject and a constant type ([plannable]); the predicates of the data set
    and the types in the query have different ids ([types_apart]). Patterns [?x a ?y] and
    [?x p ?x] are outside of this. The planner returns, whatever order the hash maps have.
    When it calls the query empty, no assignment satisfies its patterns. Otherwise, if all
    costs of the search are numbers below the largest [double] ([costs_finite]), which
    fails for a predicate without triples, whose counts are divided, it finds an order;
    running the patterns in that order succeeds, and an assignment satisfies all patterns
    of the query as it was written if and only if a row of the result gives the variables
    these values. *)
Theorem planned_query `{DoubleLaws} `{TbbOrder} (iter_ids : gmap Z (list direct_p) → list (Z * list direct_p))
    (g : gstore) (spo ops : list triple_t) (buf_sz : Z) (nv : nat) (ps : list Pattern) :
  (∀ m, iter_ids m ≡ₚ map_to_list m) →
  dataset_ok spo ops → header_sizes (hdr g) → length (edges g) = num_entries g →
  room (refresh g) (2 * (length spo + length ops) + 3) (5 * (length spo + length ops)) →
  Forall (λ p, plannable nv p = true) ps → (0 < length ps <= 31)%nat → connected (chain_of <$> ps) = true → types_apart spo ps →
  ∃ g1, insert_normal false (refresh g) spo ops = Ok g1 ∧
  ∀ bs, bs ≡ₚ seq 0 (num_buckets (hdr g1) + last_ext (hdr g1)) →
  ∃ g2, insert_index false g1 bs = Ok g2 ∧ (Z.of_nat (num_slots (hdr g2) + num_entries g2) <= int_max →
    ∃ st0, scan_stat g2 = Ok st0 ∧ (Z.of_nat (pair_total st0) <= int_max →
      let cfg := one_server in
      ∃ st stat b ps', generate_statistic iter_ids g2 = Ok st ∧ gather_stat [st] = Ok stat ∧ generate_for_patterns stat ps = Ok (b, ps') ∧
        if b : bool then
          costs_finite stat (chain_of <$> ps) →
          let _ := cluster_graph [g2] 0 buf_sz ∅ in
          ∃ q' rows, run_patterns false (length ps') (query_of (MkGroup false ps' [] [] [] ∅) nv) = Ok q' ∧ res_rows (result q') rows ∧
            ∀ σ, (∀ v, is_sid (σ v) ∧ σ v ≠ 0) →
              (∀ p, p ∈ ps → triple_of σ p ∈ spo) ↔ ∃ row, row ∈ rows ∧ agree (result q') (plan_vars ps') row σ
        else ∀ σ, ¬ ∀ p, p ∈ ps → triple_of σ p ∈ spo)).
Proof.
  intros Hit Hds Hh Hl Hr Hps Hlen Hcon Hap. destruct (load_ok g spo ops Hds Hh Hl Hr) as (g1 & E1 & Hg1).
  exists g1. split; [done|]. intros bs Hbs. destruct (Hg1 bs Hbs) as (g2 & kv & E2 & Hg2 & Hld). exists g2. split; [done|]. intros Hsz.
  assert (Hmax : Z.of_nat (size kv + kv_total kv) <= int_max).
  { pose proof (size_slots g2 kv Hg2). destruct Hg2 as [m Hg2]. pose proof (gs_total _ _ _ Hg2). pose proof (gs_last _ _ _ Hg2). lia. }
  destruct (generate_statistic_ok iter_ids Hit g2 spo ops kv Hds Hg2 Hld Hmax) as (st0 & E0 & Hst). exists st0. split; [done|]. intros Hpairs cfg.
  destruct (Hst Hpairs) as (st & Est & Htot & Hb & Hsound). destruct (gather_single st Htot Hb) as (stat & Eg & Epp).
  destruct (generate_search stat nv ps Hps Hlen) as (cs & ctn & s & _ & _ & Egen & _).
  destruct (if Planner.is_empty s then (false, ps) else (true, pattern_of <$> min_path s)) as [b ps'] eqn:Eb.
  exists st, stat, b, ps'. split_and!; [done..|]. destruct b.
  - intros Hfin gr. pose proof (generate_finds stat nv ps true ps' Hps Hlen Hcon Hfin Egen eq_refl) as Hne.
    destruct (generate_ok stat nv ps true ps' Hps Hlen Egen eq_refl Hne) as (P1 & P2 & P3 & P4).
    destruct (store_query_ok g2 kv spo ops buf_sz nv (MkGroup false ps' [] [] [] ∅) Hds Hg2 Hld Hne P1) as (q' & rows & Hrun & Hrows & Hsol); [|done|].
    { simpl. change NO_RESULT with 65535. lia. }
    exists q', rows. split_and!; [done|done|]. intros σ Hσ. rewrite (P4 spo σ Hap). by apply Hsol.
  - intros σ Hsol. eapply (generate_empty stat nv ps ps' spo σ); [exact Hps|exact Hlen| |exact Egen|exact Hsol].
    intros x p d p' d' Hne He1 He2. unfold correlation. rewrite Epp. specialize (Hsound x p d p' d' Hne He1 He2). lia.
Qed.

(** the query [?x a 7 . ?x 5 ?y] *)
Definition typed_query : list Pattern := [MkPattern (-1) TYPE_ID 7 OUT 0; MkPattern (-1) 5 (-2) OUT 0].
Definition typed_answer : assignment := λ v, if v =? -1 then 131072 else 131073.

(** loading, counting and planning, for the sample *)
Definition sample_run : outcome bool :=
  g1 ← insert_normal false (refresh bigger_store) typed_triples typed_triples;
  g2 ← insert_index (H := list_order) false g1 (seq 0 (num_buckets (hdr g1) + last_ext (hdr g1)));
  st0 ← scan_stat g2;
  st ← generate_statistic map_to_list g2;
  stat ← gather_stat [st];
  '(b, _) ← @generate_for_patterns one_server opt_double stat typed_query;
  Ok (b && (Z.of_nat (num_slots (hdr g2) + num_entries g2) <=? int_max) && (Z.of_nat (pair_total st0) <=? int_max)).

Lemma sample_run_ok : sample_run = Ok true.
Proof. vm_compute. reflexivity. Qed.

Lemma planned_query_witness :
  ∃ g1 g2 st stat ps' q' (rows : list (list sid_t)) row,
    insert_normal false (refresh bigger_store) typed_triples typed_triples = Ok g1 ∧
    insert_index (H := list_order) false g1 (seq 0 (num_buckets (hdr g1) + last_ext (hdr g1))) = Ok g2 ∧
    generate_statistic map_to_list g2 = Ok st ∧ gather_stat [st] = Ok stat ∧
    @generate_for_patterns one_server opt_double stat typed_query = Ok (true, ps') ∧
    @run_patterns false one_server (@cluster_graph one_server [g2] 0 0 ∅) (length ps') (query_of (MkGroup false ps' [] [] [] ∅) 2) = Ok q' ∧
    row ∈ rows ∧ agree (result q') (plan_vars ps') row typed_answer.
Proof.
  destruct (@planned_query opt_double opt_double_laws list_order map_to_list bigger_store typed_triples typed_triples 0 2 typed_query) as (g1 & E1 & Hg1).
  - done.
  - exact typed_dataset.
  - split; simpl; unfold ASSOCIATIVITY; lia.
  - done.
  - split; simpl; lia.
  - repeat constructor.
  - simpl. lia.
  - vm_compute. reflexivity.
  - intros p t Hp Ht Hin. apply elem_of_cons in Hp as [->|Hp]; [|apply list_elem_of_singleton in Hp as ->; done].
    apply elem_of_cons in Hin as [->|Hin]; [done|]. apply list_elem_of_singleton in Hin as ->. done.
  - destruct (Hg1 (seq 0 (num_buckets (hdr g1) + last_ext (hdr g1)))) as (g2 & E2 & Hg2); [reflexivity|].
    pose proof sample_run_ok as Hrun. unfold sample_run in Hrun. rewrite E1 in Hrun. cbn [mbind outcome_bind] in Hrun. rewrite E2 in Hrun. cbn [mbind outcome_bind] in Hrun.
    apply bind_Ok in Hrun as (st0' & E0' & (st' & Est' & (stat' & Eg' & ((b' & ps0) & Egen' & [= Hb])%bind_Ok)%bind_Ok)%bind_Ok).
    apply andb_true_iff in Hb as [[-> Hsz%Z.leb_le]%andb_true_iff Hp%Z.leb_le].
    destruct (Hg2 Hsz) as (st0 & E0 & Hst). rewrite E0 in E0'. injection E0' as <-.
    destruct (Hst Hp) as (st & stat & b & ps' & Est & Eg & Egen & Hres).
    rewrite Est in Est'. injection Est' as <-. rewrite Eg in Eg'. injection Eg' as <-. rewrite Egen in Egen'. injection Egen' as -> <-.
    destruct (Hres (opt_double_finite _ _ _)) as (q' & rows & Hq & _ & Hsol).
    destruct (proj1 (Hsol typed_answer ltac:(intros v; unfold is_sid, typed_answer; destruct (v =? -1); lia))) as (row & Hrow & Hag).
    { intros p Hp'. apply elem_of_cons in Hp' as [->|Hp']; [apply list_elem_of_here|]. apply list_elem_of_singleton in Hp' as ->.
      apply list_elem_of_further, list_elem_of_here. }
    exists g1, g2, st, stat, ps', q', rows, row. by split_and!.
Defined.
