(* ===== verification/PlanErrors.v ===== *)
(** Queries and data that the planner of [core/planner.hpp] and the statistics of
    [core/gstore.hpp] do not handle. *)

From S2P Require Import Prelude Types MyMath Keys HashTable GStore Runs Index IndexInsert Remote.
From S2P Require Import Query Rows Engine EngineSteps Exec Frame Bgp EndToEnd.
From S2P Require Import Planner PlannerOk PlanEmpty PlanSound Stat StatOk PlanAnswer.
Local Open Scope Z_scope.

(** ** Undefined behaviour *)

(** the planner has undefined behaviour on a group of attribute patterns only, and on
    a pattern with the same variable twice, such as [?x 5 ?x]. In the first case nothing is left to order,
    and the start of the empty order is read: when the cost of nothing is below the
    threshold of small queries, as it is for [double]s. In the second case the variable
    is pushed three times on a stack with room for two. *)
Theorem planner_undefined :
  (∀ (cfg : Config) (D : Double) stat ps, Forall (λ p, pred_type p ≠ 0) ps → deq d_max d_max = true → dlt (d_int 0) (d_int COST_THRESHOLD) = true →
    generate_for_patterns stat ps = Err OutOfBounds) ∧
  @generate_for_patterns one_server opt_double sample_stat [MkPattern (-1) 5 (-1) OUT 0] = Err OutOfBounds.
Proof.
  split.
  - intros cfg D stat ps Hps Hd Hlt. unfold generate_for_patterns, transfer_to_cmd_chains.
    rewrite (filter_none (λ p, pred_type p = 0)) by done. cbn [fmap list_fmap]. unfold search, prepare. simpl. unfold leaf. simpl. by rewrite Hd, Hlt.
  - vm_compute. reflexivity.
Qed.

(** ** Lost patterns *)

(** integers with an infinity and no number (NaN), which compares as false *)
Inductive nan_value := Fin (z : Z) | Inf | NaN.
Definition nan_lift (f : Z → Z → nan_value) (a b : nan_value) : nan_value :=
  match a, b with Fin x, Fin y => f x y | NaN, _ | _, NaN => NaN | _, _ => Inf end.
Definition nan_double : Double := {|
  double := nan_value;
  d_int := Fin;
  d_max := Fin (2 ^ 1024);
  dadd := nan_lift (λ x y, Fin (x + y));
  dmul := nan_lift (λ x y, Fin (x * y));
  ddiv := nan_lift (λ x y, if y =? 0 then (if x =? 0 then NaN else Inf) else Fin (x / y));
  dlt := λ a b, match a, b with Fin x, Fin y => x <? y | Fin _, Inf => true | _, _ => false end;
  deq := λ a b, match a, b with Fin x, Fin y => x =? y | Inf, Inf => true | _, _ => false end
|}.

(** a predicate that occurs in no triple: its costs are not numbers, no order has a lower
    cost than the bound, and the plan has no patterns at all *)
Example nan_plan_lost :
  @generate_for_patterns one_server nan_double empty_stat [MkPattern (-1) 5 (-2) OUT 0] = Ok (true, []).
Proof. vm_compute. reflexivity. Qed.

(** loading, counting, planning and running, with the table of the result *)
Definition planned_run (tr : list triple_t) (ps : list Pattern) : outcome (list Pattern * list sid_t) :=
  g1 ← insert_normal false (refresh bigger_store) tr tr;
  g2 ← insert_index (H := list_order) false g1 (seq 0 (num_buckets (hdr g1) + last_ext (hdr g1)));
  st ← generate_statistic map_to_list g2;
  stat ← gather_stat [st];
  '(_, ps') ← @generate_for_patterns one_server opt_double stat ps;
  q ← @run_patterns false one_server (@cluster_graph one_server [g2] 0 0 ∅) (length ps') (query_of (MkGroup false ps' [] [] [] ∅) 2);
  Ok (ps', result_table (result q)).

(** the query [?x a ?y] loses its answers when it is planned: the planner starts from
    an index of the predicate [a], which is never stored, so that a data set with a typed
    vertex gives no rows. *)
Theorem type_variable_lost :
  planned_run typed_triples [MkPattern (-1) TYPE_ID (-2) OUT 0] = Ok ([MkPattern TYPE_ID 0 (-1) IN 0; MkPattern (-1) TYPE_ID (-2) OUT 0], []) ∧
  triple_of (λ v, if v =? -1 then 131072 else 7) (MkPattern (-1) TYPE_ID (-2) OUT 0) ∈ typed_triples.
Proof. split; [vm_compute; reflexivity|apply list_elem_of_here]. Qed.

(** ** Index vertices in the statistics *)

(** the statistics of a data set of one server, sorted by subject and by object *)
Definition stat_of (spo ops : list triple_t) : outcome data_statistic :=
  g1 ← insert_normal false (refresh bigger_store) spo ops;
  g2 ← insert_index (H := list_order) false g1 (seq 0 (num_buckets (hdr g1) + last_ext (hdr g1)));
  st ← generate_statistic map_to_list g2;
  gather_stat [st].

(** two edges that share no vertex *)
Definition apart_triples : list triple_t := [Triple 131072 5 131073; Triple 131074 6 131075].

(** the statistics count the index vertices as vertices: of two triples with different
    predicates that share no vertex, each predicate has two subjects and two objects by the
    statistics, and the predicates occur together, at the index vertex. So the planner
    orders by these counts, and it does not find out that no vertex has both edges. *)
Theorem index_vertices_counted :
  match stat_of apart_triples apart_triples with
  | Ok stat =>
      count (global_pscount stat) 5 = 2 ∧ count (global_pocount stat) 5 = 2 ∧ count (global_ptcount stat) 5 = 2 ∧
      (∀ x, has_edge apart_triples x 5 OUT → has_edge apart_triples x 6 OUT → False) ∧ correlation stat 5 OUT 6 OUT = 1
  | Err _ => False
  end.
Proof.
  assert (Hx : ∀ x, has_edge apart_triples x 5 OUT → has_edge apart_triples x 6 OUT → False).
  { assert (Hin : ∀ t, t ∈ apart_triples → t = Triple 131072 5 131073 ∨ t = Triple 131074 6 131075) by (intros t Ht; unfold apart_triples in Ht; set_solver).
    intros x [[o Ho]|Ho] [[o' Ho']|Ho']; apply Hin in Ho as [Ho|Ho]; apply Hin in Ho' as [Ho'|Ho']; by simplify_eq. }
  vm_compute stat_of. split_and!; [vm_compute; reflexivity..|exact Hx|vm_compute; reflexivity].
Qed.

(** ** Unions *)

Definition union_triples : list triple_t := [Triple 131072 1 7; Triple 131072 5 131073; Triple 131074 1 8].
Definition union_ops : list triple_t := [Triple 131072 1 7; Triple 131074 1 8; Triple 131072 5 131073].
Definition group_of (ps : list Pattern) (un : list PatternGroup) : PatternGroup := MkGroup false ps un [] [] ∅.

(** a UNION is called empty when its last branch is: [{ ?x 5 ?y } UNION { ?x a 8 . ?x 5 ?y }]
    over data whose only vertex of type 8 has no edge 5 is not planned, and the proxy
    answers nothing, although a triple satisfies the first branch. With the branches in
    the other order it is planned. *)
Theorem union_called_empty :
  let a := group_of [MkPattern (-1) 5 (-2) OUT 0] [] in
  let b := group_of [MkPattern (-1) TYPE_ID 8 OUT 0; MkPattern (-1) 5 (-2) OUT 0] [] in
  let planned un := stat ← stat_of union_triples union_ops; '(success, _) ← @generate_for_group one_server opt_double stat (group_of [] un); Ok success in
  planned [a; b] = Ok false ∧ planned [b; a] = Ok true ∧ Triple 131072 5 131073 ∈ union_triples.
Proof. split_and!; [vm_compute; reflexivity..|apply list_elem_of_further, list_elem_of_here]. Qed.
